(* ===== verification/_CoqProject ===== *)
-Q . S2P
Prelude.v
Scan.v
HeaderValidation.v
ChunkedParser.v
Simd.v
RouteCanon.v
HttpParser.v
SimdArm.v
HttpGrammar.v
HttpFraming.v
RouteMethod.v
RouteTrie.v
RouteArt.v
ArtView.v
ArtTree.v
ArtDispatch.v
RouteSelect.v
RouteTable.v
HandlerAbi.v
Buffer.v
Connection.v
SpscRing.v
AccessLog.v
AccessLogText.v
TrafficCapture.v
Response.v
ResponseWire.v
RequestMeta.v
RequestHelpers.v
EventLoop.v
Metrics.v
Callbacks.v
EpollBackend.v
ConnLogic.v
ConnInv.v
ConnSafety.v
ConnEffects.v
EpollLoop.v
Pools.v
Arena.v
Rir.v
RirBuilder.v
RirEmit.v
RirLogic.v
RirTyping.v
RirBuilderOk.v
RirModuleOps.v
RirIntern.v
RirCalls.v
CompileConfig.v
RirPrinter.v
TimerWheel.v
YieldHeap.v
Lexer.v
Ast.v
Parser.v
ParserStmt.v
ParserItems.v
ParserLogic.v
ParserExprTotal.v
ParserStmtTotal.v
ParserItemsTotal.v
FrontEnd.v
AstCopy.v
TypeSyntax.v
