(* ===== verification/Prelude.v ===== *)
(** * Verification of the rut runtime and compiler front end

    rut is a programmable HTTP/1.x gateway.  Routes are written in the .rut
    language; a compiler turns them into native handlers; a shard per core runs
    an event loop that accepts connections, parses requests, dispatches them to
    routes, runs handlers, proxies to upstreams and answers.  This library models
    the parts of it listed below and proves what makes them correct.  Paths are
    relative to src/; [include/rut/runtime] and [src/runtime] hold the runtime,
    [include/rut/compiler] and [src/compiler] the compiler.

    ** How the parts work together

    Bytes of a client arrive in the receive buffer of a connection.  The request
    parser, built on the byte scanners, finds the head; the metadata functions
    compute the extent of the message with the chunked decoder and the canonical
    path; the route table dispatches the path through the segment trie or the
    radix tree; a callback answers with a formatted response, starts a compiled
    handler or opens an upstream connection.  Slices, timers, yield deadlines and
    upstream connections come from pools, the wheel and the heap.  When a request
    is complete, the shard counts it and pushes a log and a capture entry into
    rings that background threads drain.  The compiler front end turns the text
    of a route file into tokens and a syntax tree; its back end builds an
    intermediate representation (IR) of the routes in an arena, and a bridge moves the
    bodies, header sets, upstreams and handlers of the finished IR into the
    route table.

    ** Files

    - [Prelude], [Scan]: machine integers with their wrap-around, bytes, views,
      index loops; shared lemmas, tactics and hints.
    - HTTP: [HeaderValidation] (common/http_header_validation.h),
      [ChunkedParser] (chunked_parser), [Simd] (simd/: scalar, SSE2, AVX2,
      AVX-512), [SimdArm] (simd/: NEON, SVE), [RouteCanon] (route_canon.h),
      [HttpParser] (http_parser).
      [HttpGrammar] and [HttpFraming] state the language and the framing the
      parsers are proved against.  The scanners are a class, [Scanners]: the
      parser theorems hold for every back end that meets it, and [Simd] and
      [SimdArm] provide the instances.
    - Routing: [RouteMethod], [RouteTrie], [RouteArt], [RouteSelect],
      [RouteTable] (route_*.h, route_*.cc).  [ArtView], [ArtTree] and
      [ArtDispatch] are the proof of the radix tree: a common view of its four
      node types, trees labelled by paths, and the refinement to the
      longest-prefix table.
    - Connections: [HandlerAbi] (jit/handler_abi.h, jit_dispatch.h), [Buffer]
      (common/buffer.h), [Connection] (connection_base.h), [Response] and
      [ResponseWire], [RequestMeta] (callbacks.cc), [EventLoop] and [Callbacks]
      (callbacks_impl.h, epoll_event_loop.h), [EpollBackend] (epoll_backend).  A
      callback is a program in a state monad over the connection with a trace of
      the operations it hands to the loop; a trap or a null access is a value of
      its result.  [ConnLogic] is the program logic, [ConnInv] the invariant by
      phase, [ConnSafety] the theorems on every sequence of events, [ConnEffects]
      which operations a callback never performs.
    - The shard: [EpollLoop] (epoll_event_loop.h, drain.h) has the table of
      connections, the run loop and the drain; [Pools], [TimerWheel],
      [YieldHeap], [Metrics] (metrics.h) the state around it.
    - Logs: [SpscRing], [AccessLog], [AccessLogText], [TrafficCapture]
      (access_log, traffic_capture).  The ring is a step relation over the loads
      and stores of its two threads, in which each sees the other's position
      with any delay.
    - Handlers: [RequestHelpers] (jit/runtime_helpers.cc), the functions that
      compiled code calls to read the request.
    - Front end: [Lexer] (lexer), [Ast] (ast.h), [Parser], [ParserStmt],
      [ParserItems] (parser.cc).  [ParserLogic] is a program logic for parser
      functions, [ParserExprTotal], [ParserStmtTotal] and [ParserItemsTotal] the
      contract of each function, [FrontEnd] the whole, [AstCopy] the copies of a
      tree (ast.h), [TypeSyntax] the completeness of the type parser.
    - Route IR: [Arena] (arena.h, over a class of block back ends), [Rir]
      (rir.h), [RirBuilder] and [RirEmit] (rir_builder.h) with the builder as a
      state and error monad over the arena interface [Bump]; [RirPrinter]
      (rir_printer); [CompileConfig] (compile_to_config.h and the return words of
      codegen.cc).  [RirLogic] is a weakest-precondition calculus and the
      abstraction from arena arrays to an abstract module, [RirTyping] the
      signatures of the opcodes and well-formed IR, [RirBuilderOk],
      [RirModuleOps] and [RirIntern] the contract of each operation, [RirCalls]
      the theorems on every sequence of calls.

    ** What is proved

    - Parsers accept exactly their grammars, report what was sent, frame bodies
      unambiguously and do not depend on how reads cut the input; all vector
      scanners equal the scalar ones.
    - The trie and the radix tree refine best-match and longest-prefix lookup
      over any registrations; tables stay consistent and fail only as stated.
    - A connection never traps, whatever events arrive; its callback slots are
      always one of the named phases; epochs, gauges and slices balance.  Sends
      are exact; responses read back as asked for; pipelined bytes are kept.
    - The table of a shard and its free stack agree at all times, a drain ends
      with everything closed, timers fire when they should, pools never hand a
      thing out twice, metrics are the history, rings are bounded FIFOs in every
      interleaving, log lines and captures read back.
    - Every source text is lexed and parsed to an error or to a well-formed tree
      without a read outside the tokens; tokens lie in the source as spelled;
      tokens and types are read as printed; literals have their value or are
      refused; a copied tree is the tree elsewhere.
    - Arena allocations never overlap.  No sequence of builder calls faults, even
      when memory runs out in the middle of one; the IR it builds is in SSA form
      and well typed; the index an answer carries through the compiled word into
      the populated table is served as the body and the headers it was built
      with; route [i] is function [i]; the listing of the IR is complete and
      reads back.

    ** Fuel

    Loops of the source that are not structural are written with fuel, and a
    theorem says that the fuel is enough: the parsers take one more turn than
    there are bytes, since a turn consumes one; [write_u64_dec] takes 21 for at
    most 20 digits; a flush of a ring takes one more turn than the ring has
    slots; the trie search is bounded by the pool; the lexer takes one more turn
    than there are characters; a function of the parser that calls itself steps
    over a token first, so one more call than there are tokens is enough, and the
    same holds for the turns of its loops.  Input and output with the kernel is a
    list of answers, over which the theorems quantify.

    ** Not modelled

    TLS and the io_uring back end (kernel and library state the sources only
    drive), compression of the log, semantic analysis, the mid-level IR and its
    lowering (analyze.cc, hir.h, mir_build.cc, lower_rir.cc: a later extension
    would start from the syntax tree and end at the builder, which are both here),
    the generation of LLVM code but for the words that handlers return, the
    regular-expression handles, the simulation and replay drivers, the memory
    mapping of pools and regions, thread start and command line.  Code
    outside the repository, such as the allocator of mapped memory, a compiled
    handler or the clock, is an argument of the definitions that use it. *)

From Stdlib Require Export Ascii String.
From stdpp Require Export prelude list strings.
From Stdlib Require Export ZArith Lia.

#[global] Open Scope Z_scope.

(** ** Machine integers

    A w-bit unsigned value is a [Z] in [0, 2^w); the wrap-around of the C++
    conversions and additions is written out with these functions. *)

Definition wrap (w z : Z) : Z := z mod 2 ^ w.
Definition u8 (z : Z) : Z := wrap 8 z.
Definition u16 (z : Z) : Z := wrap 16 z.
Definition u32 (z : Z) : Z := wrap 32 z.
Definition u64 (z : Z) : Z := wrap 64 z.

Definition in_u (w z : Z) : Prop := 0 <= z < 2 ^ w.

(** ** Bytes and byte strings

    A byte is a [Z]; a buffer is a [list Z].  [bs] turns a literal into the
    bytes the compiler emits for it. *)

Definition is_byte (b : Z) : Prop := 0 <= b < 256.

Definition ch (c : ascii) : Z := Z.of_N (N_of_ascii c).
Arguments ch _%_char_scope.
Definition bs (s : string) : list Z := ch <$> String.list_ascii_of_string s.

Definition CR : Z := 13.
Definition LF : Z := 10.
Definition HT : Z := 9.
Definition SP : Z := 32.
Definition CRLF : list Z := [CR; LF].

(** Indexed read of a buffer; the code only reads in range, and every use
    below is guarded by the same test as in the source. *)
Definition rd (buf : list Z) (i : nat) : Z := nth i buf 0.

(** [sub buf off len] is the byte run [buf[off .. off+len)]. *)
Definition sub (buf : list Z) (off len : nat) : list Z := take len (drop off buf).

(** [Str::eq]. *)
Definition str_eq (a b : list Z) : bool := bool_decide (a = b).

(** Boolean prefix test. *)
Fixpoint is_prefix (p l : list Z) : bool :=
  match p, l with
  | [], _ => true
  | x :: p', y :: l' => (x =? y) && is_prefix p' l'
  | _ :: _, [] => false
  end.

(** ** Automation *)

Create HintDb rut.

Ltac zify_bool :=
  repeat match goal with
  | H : andb _ _ = true |- _ => apply andb_prop in H as [? ?]
  | H : andb _ _ = false |- _ => apply andb_false_iff in H
  | H : orb _ _ = true |- _ => apply orb_true_iff in H
  | H : orb _ _ = false |- _ => apply orb_false_iff in H as [? ?]
  | H : negb _ = true |- _ => apply negb_true_iff in H
  | H : negb _ = false |- _ => apply negb_false_iff in H
  | H : (_ =? _) = true |- _ => apply Z.eqb_eq in H
  | H : (_ =? _) = false |- _ => apply Z.eqb_neq in H
  | H : (_ <? _) = true |- _ => apply Z.ltb_lt in H
  | H : (_ <? _) = false |- _ => apply Z.ltb_ge in H
  | H : (_ <=? _) = true |- _ => apply Z.leb_le in H
  | H : (_ <=? _) = false |- _ => apply Z.leb_gt in H
  | H : Nat.eqb _ _ = true |- _ => apply Nat.eqb_eq in H
  | H : Nat.eqb _ _ = false |- _ => apply Nat.eqb_neq in H
  | H : Nat.ltb _ _ = true |- _ => apply Nat.ltb_lt in H
  | H : Nat.ltb _ _ = false |- _ => apply Nat.ltb_ge in H
  | H : Nat.leb _ _ = true |- _ => apply Nat.leb_le in H
  | H : Nat.leb _ _ = false |- _ => apply Nat.leb_gt in H
  end.

(** Split the innermost [if] or [match] of the goal, remembering the test. *)
Ltac case_if :=
  match goal with
  | |- context [if ?b then _ else _] =>
      lazymatch b with
      | context [if _ then _ else _] => fail
      | _ => let E := fresh "E" in destruct b eqn:E
      end
  end.

Ltac case_if_in H :=
  match type of H with
  | context [if ?b then _ else _] =>
      lazymatch b with
      | context [if _ then _ else _] => fail
      | _ => let E := fresh "E" in destruct b eqn:E
      end
  end.

(** Push [length] through the list operations. *)
Ltac simp_len :=
  repeat progress (cbn [length] in *;
    rewrite ?length_app, ?length_take, ?length_drop, ?length_insert, ?length_fmap,
      ?length_replicate, ?length_reverse in *).

(** ** Lemmas shared by the components *)

Lemma wrap_small (w z : Z) : 0 <= z < 2 ^ w -> wrap w z = z.
Proof. intros. unfold wrap. by apply Z.mod_small. Qed.

Lemma wrap_range (w z : Z) : 0 <= w -> 0 <= wrap w z < 2 ^ w.
Proof. intros. apply Z.mod_pos_bound. by apply Z.pow_pos_nonneg. Qed.

Lemma u32_small (z : Z) : 0 <= z < 4294967296 -> u32 z = z.
Proof. intros. by apply wrap_small. Qed.

Lemma u16_small (z : Z) : 0 <= z < 65536 -> u16 z = z.
Proof. intros. by apply wrap_small. Qed.

Lemma u8_small (z : Z) : 0 <= z < 256 -> u8 z = z.
Proof. intros. by apply wrap_small. Qed.

Lemma u64_small (z : Z) : 0 <= z < 18446744073709551616 -> u64 z = z.
Proof. intros. by apply wrap_small. Qed.

Lemma length_sub (buf : list Z) (off len : nat) :
  (off + len <= length buf)%nat -> length (sub buf off len) = len.
Proof. intros. unfold sub. rewrite length_take, length_drop. lia. Qed.

Lemma sub_app_l (a b : list Z) (off len : nat) :
  (off + len <= length a)%nat -> sub (a ++ b) off len = sub a off len.
Proof.
  intros. unfold sub. rewrite drop_app_le by lia.
  rewrite take_app_le by (rewrite length_drop; lia). done.
Qed.

Lemma rd_app_l (a b : list Z) (i : nat) :
  (i < length a)%nat -> rd (a ++ b) i = rd a i.
Proof. intros. unfold rd. by apply app_nth1. Qed.

Lemma rd_app_r (a b : list Z) (i : nat) :
  rd (a ++ b) (length a + i) = rd b i.
Proof. unfold rd. rewrite app_nth2 by lia. f_equal. lia. Qed.

Lemma is_prefix_spec (p l : list Z) :
  is_prefix p l = true <-> exists k, l = p ++ k.
Proof.
  revert l. induction p as [|x p IH]; intros l; cbn.
  - split; [eauto | done].
  - destruct l as [|y l].
    + split; [done | intros [k Hk]; discriminate].
    + rewrite andb_true_iff, Z.eqb_eq, IH. split.
      * intros [-> [k ->]]. eauto.
      * intros [k Hk]. simplify_eq. eauto.
Qed.

Lemma str_eq_true (a b : list Z) : str_eq a b = true <-> a = b.
Proof. unfold str_eq. apply bool_decide_eq_true. Qed.

(** A word as the sum of disjoint fields. *)
Lemma land_shiftl_disjoint a b k : 0 <= k -> 0 <= a < 2 ^ k -> Z.land a (Z.shiftl b k) = 0.
Proof.
  intros Hk Ha. apply Z.bits_inj'. intros n Hn. rewrite Z.land_spec, Z.bits_0, Z.shiftl_spec by done.
  destruct (Z.ltb_spec n k); [by rewrite (Z.testbit_neg_r b) by lia; rewrite andb_false_r|].
  rewrite (proj2 (Z.testbit_false a n Hn)); [done|]. rewrite Z.div_small; [done|].
  pose proof (Z.pow_le_mono_r 2 k n). lia.
Qed.

Lemma lor_disjoint a b k : 0 <= k -> 0 <= a < 2 ^ k -> Z.lor a (Z.shiftl b k) = a + b * 2 ^ k.
Proof.
  intros Hk Ha. pose proof (land_shiftl_disjoint a b k Hk Ha) as H.
  rewrite <- Z.shiftl_mul_pow2, Z.add_nocarry_lxor, Z.lxor_lor by done. done.
Qed.

#[export] Hint Resolve wrap_small wrap_range : rut.

(** Concrete byte strings. *)
Definition bytes_ok (l : list Z) : bool := forallb (fun b => (0 <=? b) && (b <? 256)) l.

Lemma bytes_ok_Forall l : bytes_ok l = true -> Forall is_byte l.
Proof.
  unfold bytes_ok. rewrite forallb_forall. intros H. apply Forall_forall. intros b Hb.
  apply list_elem_of_In, H in Hb. unfold is_byte. zify_bool. lia.
Qed.
