(* ===== verification/Scan.v ===== *)
(** * Index loops over a buffer

    The loops [while (pos < len && p(buf[pos])) pos++] that the lexer and the
    request helpers are made of, and what they find: the longest run of bytes
    that pass the test.  [src !! pos] is the bound test together with the read. *)

From S2P Require Import Prelude.

Section buffer.
Context (src : list Z).

Definition at_is (i : nat) (c : Z) : bool :=
  match src !! i with Some x => x =? c | None => false end.

(** [while (pos < len && p(buf[pos])) pos++]. *)
Fixpoint while_loop (p : Z -> bool) (fuel i : nat) : nat :=
  match fuel with
  | O => i
  | S fuel' => match src !! i with
               | Some c => if p c then while_loop p fuel' (S i) else i
               | None => i
               end
  end.
Definition skip_while (p : Z -> bool) (i : nat) : nat := while_loop p (length src - i) i.

End buffer.

(** The next byte, if any, fails the test. *)
Definition ends (p : Z -> bool) (r : list Z) : Prop := match r with c :: _ => p c = false | [] => True end.

Lemma split_while (p : Z -> bool) (l : list Z) :
  exists a b, l = a ++ b /\ Forall (fun x => p x = true) a /\ ends p b.
Proof.
  induction l as [|c l (a & b & -> & Ha & Hb)]; [by exists [], []|].
  destruct (p c) eqn:E; [exists (c :: a), b | exists [], (c :: a ++ b)]; split_and!; try done. by constructor.
Qed.

Section scanning.
Context (src : list Z).

Lemma drop_at i l k : drop i src = l -> src !! (i + k)%nat = l !! k.
Proof. intros <-. by rewrite lookup_drop. Qed.

Lemma drop_at0 i l : drop i src = l -> src !! i = head l.
Proof. intros <-. rewrite <- (Nat.add_0_r i) at 1. rewrite <- lookup_drop. by destruct (drop i src). Qed.

Lemma drop_further i a b : drop i src = a ++ b -> drop (i + length a) src = b.
Proof. intros H. by rewrite <- drop_drop, H, drop_app_length. Qed.

Lemma drop_length_eq i l : drop i src = l -> l <> [] -> (i + length l = length src)%nat.
Proof. intros <- Hne. rewrite length_drop. assert (~ (length src <= i)%nat) by (intros H; by rewrite drop_ge in Hne). lia. Qed.

Lemma while_loop_eq p fuel i a b :
  drop i src = a ++ b -> Forall (fun x => p x = true) a -> ends p b -> (length a <= fuel)%nat ->
  (length (a ++ b) <= fuel)%nat -> while_loop src p fuel i = (i + length a)%nat.
Proof.
  revert i a. induction fuel as [|fuel IH]; intros i a Hd Ha Hb Hf Hf'; cbn [while_loop].
  { destruct a; [cbn; lia | cbn in Hf; lia]. }
  rewrite (drop_at0 i _ Hd). destruct Ha as [|c a Hc Ha]; cbn [app head].
  - destruct b as [|c b]; [cbn; lia|]. cbn [head ends] in *. rewrite Hb. cbn; lia.
  - rewrite Hc, (IH (S i) a); [cbn; lia | | done | done | cbn in *; lia | cbn in *; lia].
    replace (S i) with (i + length [c])%nat by (cbn; lia). by apply drop_further.
Qed.

Lemma skip_while_eq p i a b :
  drop i src = a ++ b -> Forall (fun x => p x = true) a -> ends p b -> skip_while src p i = (i + length a)%nat.
Proof.
  intros Hd Ha Hb. unfold skip_while. apply (while_loop_eq p _ i a b); try done; rewrite <- length_drop, Hd; [|done].
  rewrite length_app. lia.
Qed.

Lemma drop_cons i c l : drop i src = c :: l -> drop (S i) src = l.
Proof. intros H. replace (S i) with (i + length [c])%nat by (cbn; lia). by apply drop_further. Qed.

Lemma at_is_drop i l k c : drop i src = l -> at_is src (i + k) c = match l !! k with Some x => x =? c | None => false end.
Proof. intros H. unfold at_is. by rewrite (drop_at i l k H). Qed.

Lemma take_further i a b : drop i src = a ++ b -> take (i + length a) src = take i src ++ a.
Proof. intros H. by rewrite <- take_take_drop, H, take_app_length. Qed.

End scanning.
