(* ===== verification/HeaderValidation.v ===== *)
(** * Response-header validation

    Model of include/rut/common/http_header_validation.h: the token grammar of
    header names, the case-insensitive name compare, the reserved names and
    [validate_response_header].  The theorems characterise acceptance and show
    that an accepted pair cannot carry a line break or a framing header. *)

From S2P Require Import Prelude.

Inductive HttpHeaderValidation :=
  | Ok | EmptyKey | InvalidKeyChar | InvalidValueChar | ReservedKey.

#[global] Instance HttpHeaderValidation_eq_dec : EqDecision HttpHeaderValidation.
Proof. solve_decision. Defined.

Definition is_http_tchar (c : Z) : bool :=
  if (ch "0" <=? c) && (c <=? ch "9") then true
  else if (ch "A" <=? c) && (c <=? ch "Z") then true
  else if (ch "a" <=? c) && (c <=? ch "z") then true
  else existsb (Z.eqb c) (bs "!#$%&'*+-.^_`|~").

Definition tolower (c : Z) : Z :=
  if (ch "A" <=? c) && (c <=? ch "Z") then u8 (c + (ch "a" - ch "A")) else c.

(** The compare loop of [http_header_name_eq_ci] over equal lengths. *)
Fixpoint eq_ci_loop (a b : list Z) : bool :=
  match a, b with
  | ca :: a', cb :: b' =>
      if negb (tolower ca =? tolower cb) then false else eq_ci_loop a' b'
  | _, _ => true
  end.

Definition http_header_name_eq_ci (a b : list Z) : bool :=
  if negb (Nat.eqb (length a) (length b)) then false else eq_ci_loop a b.

Definition is_reserved_response_header_name (name : list Z) : bool :=
  http_header_name_eq_ci name (bs "Content-Length") ||
  http_header_name_eq_ci name (bs "Transfer-Encoding") ||
  http_header_name_eq_ci name (bs "Connection").

(** The value loop: the first offending byte, if any. *)
Fixpoint value_chars_ok (v : list Z) : bool :=
  match v with
  | [] => true
  | c :: v' =>
      if c =? HT then value_chars_ok v'
      else if (c <? 32) || (c =? 127) then false
      else value_chars_ok v'
  end.

Definition validate_response_header (key value : list Z) : HttpHeaderValidation :=
  if Nat.eqb (length key) 0 then EmptyKey
  else if negb (forallb is_http_tchar key) then InvalidKeyChar
  else if is_reserved_response_header_name key then ReservedKey
  else if value_chars_ok value then Ok
  else InvalidValueChar.

(** ** Lemmas *)

Lemma eq_ci_spec a b :
  http_header_name_eq_ci a b = true <-> tolower <$> a = tolower <$> b.
Proof.
  unfold http_header_name_eq_ci. revert b.
  induction a as [|x a IH]; intros [|y b]; cbn; try done.
  specialize (IH b). destruct (Nat.eqb (length a) (length b)) eqn:E; cbn [negb] in *.
  - destruct (tolower x =? tolower y) eqn:E'; zify_bool; cbn [negb]; rewrite ?IH.
    + rewrite E'. split; [by intros -> | congruence].
    + split; [done | congruence].
  - split; [done|]. intros H. apply (f_equal length) in H. cbn in H.
    rewrite !length_fmap in H. zify_bool. lia.
Qed.

Lemma eq_ci_refl a : http_header_name_eq_ci a a = true.
Proof. by apply eq_ci_spec. Qed.

Lemma value_chars_ok_spec v :
  value_chars_ok v = true <-> Forall (fun c => c = HT \/ (32 <= c /\ c <> 127)) v.
Proof.
  induction v as [|c v IH]; cbn; [by split|]. rewrite Forall_cons, <- IH.
  destruct (c =? HT) eqn:E; zify_bool; [tauto|].
  destruct ((c <? 32) || (c =? 127)) eqn:E'.
  - split; [done|]. intros [[?|?] _]; [done|]. apply orb_true_iff in E'. zify_bool. lia.
  - zify_bool. split; [intros; split; [right; lia | done] | tauto].
Qed.

Lemma forallb_Forall_true {A} (f : A -> bool) l :
  forallb f l = true <-> Forall (fun x => f x = true) l.
Proof. rewrite forallb_forall, Forall_forall. setoid_rewrite list_elem_of_In. done. Qed.

(** ** Properties *)

(** A pair is accepted exactly when its key is a non-empty token that is
    none of Content-Length, Transfer-Encoding and Connection under ASCII case
    folding, and its value has only HT and visible or high bytes. *)
Theorem validate_accepts key value :
  validate_response_header key value = Ok <->
  key <> [] /\ Forall (fun c => is_http_tchar c = true) key /\
  (forall r, r ∈ [bs "Content-Length"; bs "Transfer-Encoding"; bs "Connection"] ->
     tolower <$> key <> tolower <$> r) /\
  Forall (fun c => c = HT \/ (32 <= c /\ c <> 127)) value.
Proof.
  unfold validate_response_header. rewrite <- value_chars_ok_spec.
  destruct (Nat.eqb (length key) 0) eqn:E0.
  { zify_bool. split; [done|]. intros [? _]. by destruct key. }
  destruct (forallb is_http_tchar key) eqn:E1; cbn [negb].
  2: { split; [done|]. intros (_ & H & _). apply forallb_Forall_true in H. congruence. }
  rewrite forallb_Forall_true in E1.
  assert (is_reserved_response_header_name key = false <->
    forall r, r ∈ [bs "Content-Length"; bs "Transfer-Encoding"; bs "Connection"] ->
     tolower <$> key <> tolower <$> r) as Hres.
  { unfold is_reserved_response_header_name.
    rewrite !orb_false_iff, <- !not_true_iff_false, !eq_ci_spec. split.
    - intros [[? ?] ?] r Hr. set_solver.
    - intros H. split_and!; apply H; set_solver. }
  destruct (is_reserved_response_header_name key) eqn:E2.
  - split; [done|]. intros (_ & _ & H & _). apply Hres in H. done.
  - destruct (value_chars_ok value) eqn:E3.
    + split; [|done]. intros _. split_and!; try done; [by intros -> | by apply Hres].
    + split; [done|]. by intros (_ & _ & _ & ?).
Qed.
