(* ===== verification/ChunkedParser.v ===== *)
(** * Chunked transfer-coding decoder

    Model of [ChunkedParser] (include/rut/runtime/chunked_parser.h,
    src/runtime/chunked_parser.cc) and of the loop with which the request path
    drains it (src/runtime/callbacks.cc).  [feed] is the zero-copy state
    machine; [drain] repeats it until it stops.  The specification is the
    grammar [chunked] of a chunked body; the theorems show that the decoder
    accepts exactly that grammar, that its answers do not depend on how the
    bytes were split over reads, and that its 32-bit chunk counter never
    overflows. *)

From S2P Require Import Prelude.

(** ** Data *)

Inductive ChunkStatus := NeedMore | Data | Done | Error.

Inductive State :=
  | Size | SizeLF | Extension | SData | DataCR | DataLF
  | Trailer | TrailerLF | TrailerLine | TrailerLineLF | Complete.

#[global] Instance State_eq_dec : EqDecision State.
Proof. solve_decision. Defined.

Record ChunkedParser := mkChunkedParser {
  state : State;
  chunk_remaining : Z;
  has_digits : bool
}.

Definition reset : ChunkedParser := mkChunkedParser Size 0 false.

Definition set_state (p : ChunkedParser) (s : State) : ChunkedParser :=
  mkChunkedParser s (chunk_remaining p) (has_digits p).

(** What [feed] leaves behind: the status, the parser, [*consumed], and the
    pair [( *out_start, *out_len )] when it wrote it. *)
Record feed_result := FeedResult {
  fr_status : ChunkStatus;
  fr_parser : ChunkedParser;
  fr_consumed : nat;
  fr_out : option (nat * nat)
}.

(** ** Operations *)

Definition hex_val (c : Z) : Z :=
  if (ch "0" <=? c) && (c <=? ch "9") then c - ch "0"
  else if (ch "a" <=? c) && (c <=? ch "f") then 10 + (c - ch "a")
  else if (ch "A" <=? c) && (c <=? ch "F") then 10 + (c - ch "A")
  else -1.

(** The [while (pos < in_len)] loop; [rest] is [input[pos..in_len)]. *)
Fixpoint feed_loop (p : ChunkedParser) (pos : nat) (rest : list Z) : feed_result :=
  match rest with
  | [] => FeedResult NeedMore p pos None
  | c :: rest' =>
      match state p with
      | Size =>
          let v := hex_val c in
          if 0 <=? v then
            if 268435455 <? chunk_remaining p then FeedResult Error p pos None
            else feed_loop
                   (mkChunkedParser Size
                      (Z.lor (u32 (Z.shiftl (chunk_remaining p) 4)) v) true)
                   (S pos) rest'
          else if c =? CR then
            if negb (has_digits p) then FeedResult Error p pos None
            else feed_loop (set_state p SizeLF) (S pos) rest'
          else if c =? ch ";" then
            if negb (has_digits p) then FeedResult Error p pos None
            else feed_loop (set_state p Extension) (S pos) rest'
          else FeedResult Error p pos None
      | SizeLF =>
          if negb (c =? LF) then FeedResult Error p pos None
          else if chunk_remaining p =? 0
          then feed_loop (set_state p Trailer) (S pos) rest'
          else feed_loop (set_state p SData) (S pos) rest'
      | Extension =>
          if c =? CR then feed_loop (set_state p SizeLF) (S pos) rest'
          else feed_loop p (S pos) rest'
      | SData =>
          let avail := Z.of_nat (length rest) in
          let n := if avail <? chunk_remaining p then avail else chunk_remaining p in
          let rem := chunk_remaining p - n in
          let st := if rem =? 0 then DataCR else SData in
          FeedResult Data (mkChunkedParser st rem (has_digits p))
            (pos + Z.to_nat n) (Some (pos, Z.to_nat n))
      | DataCR =>
          if negb (c =? CR) then FeedResult Error p pos None
          else feed_loop (set_state p DataLF) (S pos) rest'
      | DataLF =>
          if negb (c =? LF) then FeedResult Error p pos None
          else feed_loop (mkChunkedParser Size 0 false) (S pos) rest'
      | Trailer =>
          if c =? CR then feed_loop (set_state p TrailerLF) (S pos) rest'
          else feed_loop (set_state p TrailerLine) (S pos) rest'
      | TrailerLF =>
          if negb (c =? LF) then FeedResult Error p pos None
          else FeedResult Done (set_state p Complete) (S pos) None
      | TrailerLine =>
          if c =? CR then feed_loop (set_state p TrailerLineLF) (S pos) rest'
          else feed_loop p (S pos) rest'
      | TrailerLineLF =>
          if negb (c =? LF) then FeedResult Error p pos None
          else feed_loop (set_state p Trailer) (S pos) rest'
      | Complete => FeedResult Done p pos None
      end
  end.

Definition feed (p : ChunkedParser) (input : list Z) : feed_result :=
  feed_loop p 0 input.

(** How a drain of a buffer ends: more input is needed, the final chunk was
    seen, or the encoding is malformed. *)
Inductive drain_end := DrainMore | DrainDone | DrainError.

Record drain_result := DrainResult {
  dr_end : drain_end;
  dr_parser : ChunkedParser;
  dr_consumed : nat;
  dr_body : list Z
}.

(** The caller's loop: feed the unread part until it answers anything but
    [Data]; the decoded regions are collected in order.  Each [Data] answer
    consumes a byte, so [S (length input)] rounds are enough. *)
Fixpoint drain_loop (fuel : nat) (p : ChunkedParser) (input : list Z)
    (pos : nat) (body : list Z) : option drain_result :=
  match fuel with
  | O => None
  | S fuel' =>
      if Nat.ltb pos (length input) then
        let r := feed p (drop pos input) in
        let pos' := (pos + fr_consumed r)%nat in
        match fr_status r with
        | Done => Some (DrainResult DrainDone (fr_parser r) pos' body)
        | NeedMore => Some (DrainResult DrainMore (fr_parser r) pos' body)
        | Error => Some (DrainResult DrainError (fr_parser r) pos' body)
        | Data =>
            let piece := match fr_out r with
                         | Some (s, n) => sub (drop pos input) s n
                         | None => []
                         end in
            drain_loop fuel' (fr_parser r) input pos' (body ++ piece)
        end
      else Some (DrainResult DrainMore p pos body)
  end.

Definition drain (p : ChunkedParser) (input : list Z) : option drain_result :=
  drain_loop (S (length input)) p input 0 [].

(** ** Specification: the grammar of a chunked body *)

Definition is_hex (c : Z) : bool := 0 <=? hex_val c.

Definition hex_number (acc : Z) (ds : list Z) : Z :=
  foldl (fun a d => a * 16 + hex_val d) acc ds.

(** A chunk-size line: hex digits, an optional [;]-extension, CRLF.  The size
    is what fits an unsigned 32-bit counter. *)
Inductive size_line : list Z -> Z -> Prop :=
  | size_line_plain ds :
      ds <> [] -> Forall (fun d => is_hex d = true) ds ->
      hex_number 0 ds < 2 ^ 32 ->
      size_line (ds ++ CRLF) (hex_number 0 ds)
  | size_line_ext ds x :
      ds <> [] -> Forall (fun d => is_hex d = true) ds ->
      hex_number 0 ds < 2 ^ 32 -> (CR ∉ x) ->
      size_line (ds ++ ch ";" :: x ++ CRLF) (hex_number 0 ds).

(** The trailer section: header lines, then an empty line. *)
Inductive trailers : list Z -> Prop :=
  | trailers_end : trailers CRLF
  | trailers_line c x t :
      c <> CR -> (CR ∉ x) -> trailers t -> trailers (c :: x ++ CRLF ++ t).

Inductive chunked : list Z -> list Z -> Prop :=
  | chunked_last l t : size_line l 0 -> trailers t -> chunked (l ++ t) []
  | chunked_data l n d m b :
      size_line l n -> 0 < n -> Z.of_nat (length d) = n -> chunked m b ->
      chunked (l ++ d ++ CRLF ++ m) (d ++ b).

(** Well-formed parser states: the counter is a u32, and it is positive while
    data bytes are owed. *)
Definition wf (p : ChunkedParser) : Prop :=
  0 <= chunk_remaining p < 2 ^ 32 /\ (state p = SData -> 0 < chunk_remaining p).

(** ** A byte-at-a-time reading of the decoder

    [step] is the effect of one byte; [run] iterates it.  [drain] is shown to
    compute [run], and the grammar is related to [run]. *)

Inductive step_out := Go (p : ChunkedParser) (emit : list Z) | Fin (p : ChunkedParser) | Bad.

Definition step (p : ChunkedParser) (c : Z) : step_out :=
  match state p with
  | Size =>
      if is_hex c then
        if 268435455 <? chunk_remaining p then Bad
        else Go (mkChunkedParser Size
                   (Z.lor (u32 (Z.shiftl (chunk_remaining p) 4)) (hex_val c)) true) []
      else if (c =? CR) && has_digits p then Go (set_state p SizeLF) []
      else if (c =? ch ";") && has_digits p then Go (set_state p Extension) []
      else Bad
  | SizeLF =>
      if c =? LF
      then Go (set_state p (if chunk_remaining p =? 0 then Trailer else SData)) []
      else Bad
  | Extension => Go (if c =? CR then set_state p SizeLF else p) []
  | SData =>
      Go (mkChunkedParser (if chunk_remaining p - 1 =? 0 then DataCR else SData)
            (chunk_remaining p - 1) (has_digits p)) [c]
  | DataCR => if c =? CR then Go (set_state p DataLF) [] else Bad
  | DataLF => if c =? LF then Go reset [] else Bad
  | Trailer => Go (set_state p (if c =? CR then TrailerLF else TrailerLine)) []
  | TrailerLF => if c =? LF then Fin (set_state p Complete) else Bad
  | TrailerLine => Go (if c =? CR then set_state p TrailerLineLF else p) []
  | TrailerLineLF => if c =? LF then Go (set_state p Trailer) [] else Bad
  | Complete => Bad
  end.

Record run_result := RunResult {
  rr_end : drain_end; rr_parser : ChunkedParser; rr_body : list Z; rr_rest : list Z
}.

Definition prepend (e : list Z) (r : run_result) : run_result :=
  RunResult (rr_end r) (rr_parser r) (e ++ rr_body r) (rr_rest r).

Fixpoint run (p : ChunkedParser) (l : list Z) : run_result :=
  match l with
  | [] => RunResult DrainMore p [] []
  | c :: l' =>
      match step p c with
      | Go p' e => prepend e (run p' l')
      | Fin p' => RunResult DrainDone p' [] l'
      | Bad => if decide (state p = Complete) then RunResult DrainDone p [] l
               else RunResult DrainError p [] l
      end
  end.

Lemma prepend_nil r : prepend [] r = r.
Proof. by destruct r. Qed.

Lemma prepend_app a b r : prepend a (prepend b r) = prepend (a ++ b) r.
Proof. destruct r. unfold prepend. cbn. by rewrite app_assoc. Qed.

Lemma hex_val_range c : is_hex c = true -> 0 <= hex_val c < 16.
Proof.
  unfold is_hex, hex_val. change (ch "0") with 48. change (ch "9") with 57.
  change (ch "a") with 97. change (ch "f") with 102. change (ch "A") with 65.
  change (ch "F") with 70.
  repeat case_if; zify_bool; intros; zify_bool; lia.
Qed.

Lemma is_hex_not_sep c : is_hex c = true -> c <> CR /\ c <> LF /\ c <> ch ";".
Proof.
  intros H. split_and!; intros ->; vm_compute in H; discriminate.
Qed.

(** The digit update of the code is [16 * acc + digit] while the guard holds. *)
Lemma digit_update r v :
  0 <= r <= 268435455 -> 0 <= v < 16 ->
  Z.lor (u32 (Z.shiftl r 4)) v = r * 16 + v /\ r * 16 + v < 2 ^ 32.
Proof.
  intros Hr Hv. rewrite Z.shiftl_mul_pow2 by lia. change (2 ^ 4) with 16.
  rewrite u32_small by lia. split; [|lia].
  assert (Z.land (r * 16) v = 0) as Hland.
  { apply Z.bits_inj'. intros n Hn. rewrite Z.land_spec, Z.bits_0.
    destruct (Z_lt_le_dec n 4).
    - replace (r * 16) with (r * 2 ^ 4) by lia.
      rewrite Z.mul_pow2_bits_low by lia. done.
    - rewrite <- (Z.mod_small v (2 ^ 4)) by lia.
      rewrite Z.mod_pow2_bits_high by lia. by rewrite andb_false_r. }
  rewrite <- Z.add_lor_land, Hland. lia.
Qed.

Lemma step_wf p c p' e : wf p -> step p c = Go p' e -> wf p'.
Proof.
  destruct p as [s r h]. unfold wf, step. cbn. intros [Hr Hd].
  destruct s; cbn; intros H; repeat case_if_in H; simplify_eq; cbn; zify_bool;
    try (split; [lia | try done; intros; lia]).
  - pose proof (hex_val_range c ltac:(done)).
    destruct (digit_update r (hex_val c)) as [-> ?]; [lia..|].
    split; [lia | done].
  - specialize (Hd eq_refl). split; lia.
Qed.

Lemma run_data r h l1 l2 :
  Z.of_nat (length l1) <= r -> 0 < r ->
  run (mkChunkedParser SData r h) (l1 ++ l2) =
  prepend l1
    (run (mkChunkedParser (if r - Z.of_nat (length l1) =? 0 then DataCR else SData)
            (r - Z.of_nat (length l1)) h) l2).
Proof.
  revert r. induction l1 as [|c l1 IH]; intros r Hr Hpos; cbn [length app].
  - rewrite prepend_nil. replace (r - Z.of_nat 0) with r by lia.
    destruct (r =? 0) eqn:E; zify_bool; [lia | done].
  - cbn [length] in Hr. cbn [run step state chunk_remaining has_digits].
    destruct (r - 1 =? 0) eqn:E; zify_bool.
    + assert (l1 = []) as -> by (destruct l1; [done | cbn in Hr; lia]).
      cbn [length app]. replace (r - Z.of_nat 1) with 0 by lia.
      replace (r - 1) with 0 by lia. done.
    + rewrite IH by lia. rewrite prepend_app. cbn [app].
      replace (r - 1 - Z.of_nat (length l1)) with (r - Z.of_nat (S (length l1))) by lia.
      done.
Qed.

(** ** [feed] and [run] *)

(** What one [feed] answer means for [run]. *)
Definition feed_means (p : ChunkedParser) (pos : nat) (rest : list Z) (r : feed_result) : Prop :=
  (pos <= fr_consumed r <= pos + length rest)%nat /\ wf (fr_parser r) /\
  let k := (fr_consumed r - pos)%nat in
  match fr_status r with
  | NeedMore => fr_out r = None /\ k = length rest /\
      run p rest = RunResult DrainMore (fr_parser r) [] []
  | Done => fr_out r = None /\ run p rest = RunResult DrainDone (fr_parser r) [] (drop k rest)
  | Error => fr_out r = None /\ run p rest = RunResult DrainError (fr_parser r) [] (drop k rest)
  | Data => exists s n, fr_out r = Some (s, n) /\ (0 < n)%nat /\ (pos <= s)%nat /\
      (s + n = fr_consumed r)%nat /\
      run p rest = prepend (sub rest (s - pos) n) (run (fr_parser r) (drop k rest))
  end.

Lemma feed_means_stop p pos c rest st p' :
  st <> Data -> st <> NeedMore -> wf p ->
  run p (c :: rest) = RunResult (match st with Done => DrainDone | _ => DrainError end) p [] (c :: rest) ->
  p' = p ->
  feed_means p pos (c :: rest) (FeedResult st p' pos None).
Proof.
  intros ? ? Hwf Hrun ->. split; [cbn; lia|]. split; [done|]. cbn [fr_status fr_consumed fr_out fr_parser].
  rewrite Nat.sub_diag. destruct st; done.
Qed.

(** A consumed byte shifts the answer by one. *)
Lemma feed_means_step p pos c rest p' r :
  step p c = Go p' [] -> feed_means p' (S pos) rest r -> feed_means p pos (c :: rest) r.
Proof.
  intros Hs (Hc & Hwf & Hm). split; [cbn; lia|]. split; [done|].
  cbn [run]. rewrite Hs, prepend_nil.
  assert (fr_consumed r - pos = S (fr_consumed r - S pos))%nat as -> by lia.
  cbn [drop]. destruct (fr_status r).
  - destruct Hm as (? & ? & ?). cbn. split_and!; auto with lia.
  - destruct Hm as (s & n & ? & ? & ? & ? & Hrun). exists s, n. split_and!; try done; try lia.
    rewrite Hrun. f_equal. unfold sub.
    replace (s - pos)%nat with (S (s - S pos)) by lia. done.
  - done.
  - done.
Qed.

Lemma feed_loop_means p pos rest :
  wf p -> feed_means p pos rest (feed_loop p pos rest).
Proof.
  revert p pos. induction rest as [|c rest IH]; intros p pos Hwf.
  { split; [cbn; lia|]. split; [done|]. cbn. rewrite Nat.sub_diag. done. }
  destruct p as [s r h]. cbn [feed_loop state chunk_remaining has_digits].
  assert (forall p', step (mkChunkedParser s r h) c = Go p' [] ->
    feed_means (mkChunkedParser s r h) pos (c :: rest) (feed_loop p' (S pos) rest)) as Hgo.
  { intros p' Hs. eapply feed_means_step; [done|]. apply IH. by eapply step_wf. }
  assert (step (mkChunkedParser s r h) c = Bad -> s <> Complete ->
    feed_means (mkChunkedParser s r h) pos (c :: rest)
      (FeedResult Error (mkChunkedParser s r h) pos None)) as Hbad.
  { intros Hs Hc. apply feed_means_stop; try done. cbn [run]. rewrite Hs. by case_decide. }
  destruct s; unfold set_state in *; cbn [chunk_remaining has_digits] in *.
  - fold (is_hex c). case_if; [case_if|]; [| |case_if; [case_if|case_if; [case_if|]]];
      (apply Hgo || apply Hbad); try done; cbn; rewrite ?E; rewrite ?E0; zify_bool; subst; try done;
      try (destruct h; cbn in *; try discriminate; done);
      try (rewrite (proj2 (Z.eqb_neq _ _)) by done; cbn;
           rewrite ?(proj2 (Z.eqb_neq _ _)) by done; done).
  - case_if; [|case_if]; (apply Hgo || apply Hbad); try done; cbn; zify_bool; subst; try done.
    + by rewrite (proj2 (Z.eqb_neq _ _)).
    + by rewrite (proj2 (Z.eqb_neq r 0)).
  - case_if; apply Hgo; cbn; by rewrite E.
  - (* bulk data *)
    destruct Hwf as [Hr Hpos]. specialize (Hpos eq_refl). cbn in Hr, Hpos.
    set (n := if Z.of_nat (length (c :: rest)) <? r then _ else _).
    assert (0 < n <= r /\ n <= Z.of_nat (length (c :: rest))) as [Hn Hn'].
    { subst n. case_if; zify_bool; cbn [length] in *; lia. }
    assert (c :: rest = take (Z.to_nat n) (c :: rest) ++ drop (Z.to_nat n) (c :: rest)) as Heq
      by by rewrite take_drop.
    split; [cbn [fr_consumed]; lia|]. split.
    { split; cbn [fr_parser chunk_remaining state]; [lia|]. case_if; zify_bool; [done|]. intros; lia. }
    cbn [fr_status fr_out fr_consumed fr_parser].
    exists pos, (Z.to_nat n). split_and!; try done; try lia.
    rewrite Heq at 1.
    assert (Z.of_nat (length (take (Z.to_nat n) (c :: rest))) = n) as Hlen
      by (rewrite length_take; lia).
    rewrite run_data by lia. rewrite Hlen. unfold sub.
    rewrite Nat.sub_diag, drop_0. f_equal. f_equal. f_equal. lia.
  - case_if; (apply Hgo || apply Hbad); try done; cbn; zify_bool; subst; try done.
    by rewrite (proj2 (Z.eqb_neq _ _)).
  - case_if; (apply Hgo || apply Hbad); try done; cbn; zify_bool; subst; try done.
    by rewrite (proj2 (Z.eqb_neq _ _)).
  - case_if; apply Hgo; cbn; by rewrite E.
  - case_if; zify_bool.
    + apply Hbad; [|done]. cbn. by rewrite (proj2 (Z.eqb_neq _ _)).
    + subst. split; [cbn; lia|]. split; [split; cbn; [apply Hwf | done]|].
      cbn [fr_status fr_out fr_consumed fr_parser].
      replace (S pos - pos)%nat with 1%nat by lia. done.
  - case_if; apply Hgo; cbn; by rewrite E.
  - case_if; (apply Hgo || apply Hbad); try done; cbn; zify_bool; subst; try done.
    by rewrite (proj2 (Z.eqb_neq _ _)).
  - apply feed_means_stop; done.
Qed.

(** ** [drain] computes [run] *)

Lemma drain_loop_run fuel p input pos body :
  wf p -> (pos <= length input)%nat -> (length input - pos < fuel)%nat ->
  exists e p' k b,
    drain_loop fuel p input pos body = Some (DrainResult e p' k (body ++ b)) /\
    (k <= length input)%nat /\ wf p' /\
    run p (drop pos input) = RunResult e p' b (drop k input).
Proof.
  revert p pos body. induction fuel as [|fuel IH]; intros p pos body Hwf Hpos Hfuel; [lia|].
  cbn [drain_loop]. case_if; zify_bool.
  2: { exists DrainMore, p, pos, []. rewrite app_nil_r.
       rewrite drop_ge by lia. split_and!; auto with lia. }
  pose proof (feed_loop_means p 0 (drop pos input) Hwf) as (Hc & Hwf' & Hm).
  fold (feed p (drop pos input)) in *. set (r := feed p (drop pos input)) in *.
  cbv zeta in Hm. rewrite Nat.sub_0_r in Hm. rewrite length_drop in Hc.
  rewrite drop_drop in Hm.
  assert (forall e, run p (drop pos input) = RunResult e (fr_parser r) [] (drop (pos + fr_consumed r) input) ->
    exists e0 p' k b, Some (DrainResult e (fr_parser r) (pos + fr_consumed r) body) =
      Some (DrainResult e0 p' k (body ++ b)) /\ (k <= length input)%nat /\ wf p' /\
      run p (drop pos input) = RunResult e0 p' b (drop k input)) as Hstop.
  { intros e He. exists e, (fr_parser r), (pos + fr_consumed r)%nat, [].
    rewrite app_nil_r. split_and!; auto with lia. }
  destruct (fr_status r).
  - destruct Hm as (_ & Hk & Hm). apply Hstop. rewrite Hm, drop_ge; [done|].
    rewrite length_drop in Hk. lia.
  - destruct Hm as (s & n & Ho & ? & ? & ? & Hm). rewrite Ho, Nat.sub_0_r in *.
    destruct (IH (fr_parser r) (pos + fr_consumed r)%nat (body ++ sub (drop pos input) s n))
      as (e & p' & k & b & -> & ? & ? & Hrun); [done | lia | lia |].
    exists e, p', k, (sub (drop pos input) s n ++ b). rewrite app_assoc.
    split_and!; try done. by rewrite Hm, Hrun.
  - apply Hstop. apply Hm.
  - apply Hstop. apply Hm.
Qed.

Lemma drain_run p input :
  wf p ->
  exists e p' k b,
    drain p input = Some (DrainResult e p' k b) /\ (k <= length input)%nat /\ wf p' /\
    run p input = RunResult e p' b (drop k input).
Proof.
  intros Hwf. unfold drain.
  destruct (drain_loop_run (S (length input)) p input 0 []) as (e & p' & k & b & H1 & H2 & H3 & H4);
    [done | lia | lia |].
  exists e, p', k, b. split_and!; done.
Qed.

Lemma run_more_rest p l r : run p l = r -> rr_end r = DrainMore -> rr_rest r = [].
Proof.
  intros <-. revert p. induction l as [|c l IH]; intros p; cbn; [done|].
  destruct (step p c); cbn; [apply IH | done | case_decide; done].
Qed.

Lemma step_go_state p c p' e : step p c = Go p' e -> state p' <> Complete.
Proof.
  unfold step. destruct p as [[] r h]; cbn [state chunk_remaining has_digits set_state]; intros H;
    repeat case_if_in H; try discriminate; injection H as <- <-; cbn; repeat case_if; congruence.
Qed.

(** A body ends in [Complete], and only there. *)
Lemma run_end_state p l :
  state p <> Complete ->
  match rr_end (run p l) with
  | DrainDone => state (rr_parser (run p l)) = Complete
  | DrainMore => state (rr_parser (run p l)) <> Complete
  | DrainError => True
  end.
Proof.
  revert p. induction l as [|c l IH]; intros p Hp; cbn [run]; [done|].
  destruct (step p c) as [p' e|p'|] eqn:E; cbn [rr_end rr_parser prepend].
  - by apply IH, (step_go_state _ _ _ _ E).
  - unfold step in E. destruct p as [[] r h]; cbn in E; repeat case_if_in E; try discriminate.
    by injection E as <-.
  - by rewrite decide_False.
Qed.

Lemma run_app p a b :
  run p (a ++ b) =
  match rr_end (run p a) with
  | DrainMore => prepend (rr_body (run p a)) (run (rr_parser (run p a)) b)
  | _ => RunResult (rr_end (run p a)) (rr_parser (run p a)) (rr_body (run p a))
           (rr_rest (run p a) ++ b)
  end.
Proof.
  revert p. induction a as [|c a IH]; intros p; cbn [run app].
  - cbn. by rewrite prepend_nil.
  - destruct (step p c) as [p' e| p' |]; [|done|case_decide; done].
    rewrite IH. cbn. destruct (rr_end (run p' a)); cbn; try done.
    by rewrite prepend_app.
Qed.

(** ** The grammar and [run] *)

Definition after_size (n : Z) (l body : list Z) : Prop :=
  (n = 0 /\ body = [] /\ trailers l) \/
  (0 < n /\ exists d m b, Z.of_nat (length d) = n /\ l = d ++ CRLF ++ m /\
     body = d ++ b /\ chunked m b).

(** The end of a size line, from the separator on. *)
Definition size_tail (l m : list Z) : Prop :=
  l = CRLF ++ m \/ exists x, (CR ∉ x) /\ l = ch ";" :: x ++ CRLF ++ m.

(** The inputs that complete the body from a given decoder state. *)
Definition residual (p : ChunkedParser) (l body : list Z) : Prop :=
  let r := chunk_remaining p in
  match state p with
  | Size => exists ds t m, l = ds ++ t /\ Forall (fun d => is_hex d = true) ds /\
      (has_digits p = true \/ ds <> []) /\ hex_number r ds < 2 ^ 32 /\
      size_tail t m /\ after_size (hex_number r ds) m body
  | SizeLF => exists m, l = LF :: m /\ after_size r m body
  | Extension => exists x m, (CR ∉ x) /\ l = x ++ CRLF ++ m /\ after_size r m body
  | SData => after_size r l body
  | DataCR => exists m, l = CRLF ++ m /\ chunked m body
  | DataLF => exists m, l = LF :: m /\ chunked m body
  | Trailer => body = [] /\ trailers l
  | TrailerLF => body = [] /\ l = [LF]
  | TrailerLine => body = [] /\ exists x t, (CR ∉ x) /\ l = x ++ CRLF ++ t /\ trailers t
  | TrailerLineLF => body = [] /\ exists t, l = LF :: t /\ trailers t
  | Complete => False
  end.

Lemma hex_number_lower r ds :
  0 <= r -> Forall (fun d => is_hex d = true) ds -> r <= hex_number r ds.
Proof.
  intros Hr Hds. revert r Hr. induction Hds as [|d ds Hd Hds IH]; intros r Hr; cbn; [lia|].
  pose proof (hex_val_range d Hd). specialize (IH (r * 16 + hex_val d)).
  unfold hex_number in IH. lia.
Qed.

Lemma residual_start l body : residual reset l body <-> chunked l body.
Proof.
  cbn. split.
  - intros (ds & t & m & -> & Hds & [?|Hne] & Hb & Ht & Ha); [done|].
    assert (exists sl, size_line sl (hex_number 0 ds) /\ ds ++ t = sl ++ m) as (sl & Hsl & ->).
    { destruct Ht as [->|(x & Hx & ->)].
      - exists (ds ++ CRLF). split; [by constructor | by rewrite app_assoc].
      - exists (ds ++ ch ";" :: x ++ CRLF). split; [by constructor|].
        by rewrite <- !app_assoc, <- app_comm_cons, <- app_assoc. }
    destruct Ha as [(Hz & -> & Htr)|(Hp & d & m' & b & Hlen & -> & -> & Hc)].
    + rewrite Hz in Hsl. by apply chunked_last.
    + by eapply chunked_data.
  - intros Hc.
    assert (forall sl n m, size_line sl n -> after_size n m body ->
      residual reset (sl ++ m) body) as Hsz.
    { intros sl n m Hsl Ha. destruct Hsl as [ds Hne Hds Hb|ds x Hne Hds Hb Hx].
      - exists ds, (CRLF ++ m), m. rewrite <- app_assoc. split_and!; auto. by left.
      - exists ds, (ch ";" :: x ++ CRLF ++ m), m.
        split_and!; auto; [by rewrite <- app_assoc, <- app_comm_cons, <- app_assoc|].
        right. eauto. }
    destruct Hc as [sl t Hsl Ht|sl n d m b Hsl Hn Hd Hc].
    + eapply Hsz; [done|]. by left.
    + eapply Hsz; [done|]. right. split; [done|]. by exists d, m, b.
Qed.

Lemma not_residual_nil p body : wf p -> ~ residual p [] body.
Proof.
  intros [_ Hp]. unfold residual. destruct p as [s r h]; cbn in *. destruct s; intros H.
  - destruct H as (ds & t & m & Heq & _ & _ & _ & Ht & _).
    symmetry in Heq. apply app_eq_nil in Heq as [-> ->].
    destruct Ht as [?|(x & _ & ?)]; discriminate.
  - destruct H as (m & ? & _). discriminate.
  - destruct H as (x & m & _ & Heq & _). symmetry in Heq.
    apply app_eq_nil in Heq as [_ ?]. discriminate.
  - destruct H as [(? & _)|(_ & d & m & b & _ & Heq & _)]; [specialize (Hp eq_refl); lia|].
    symmetry in Heq. apply app_eq_nil in Heq as [_ ?]. discriminate.
  - destruct H as (m & ? & _). discriminate.
  - destruct H as (m & ? & _). discriminate.
  - destruct H as [_ H]. inversion H.
  - destruct H as [_ H]. discriminate.
  - destruct H as (_ & x & t & _ & Heq & _). symmetry in Heq.
    apply app_eq_nil in Heq as [_ ?]. discriminate.
  - destruct H as (_ & t & ? & _). discriminate.
  - done.
Qed.

(** How a residual consumes one byte, per state. *)
Lemma residual_size_step r h c l body :
  0 <= r < 2 ^ 32 ->
  residual (mkChunkedParser Size r h) (c :: l) body <->
  match step (mkChunkedParser Size r h) c with
  | Go p' e => exists b', body = e ++ b' /\ residual p' l b'
  | Fin _ => l = [] /\ body = []
  | Bad => False
  end.
Proof.
  intros Hr. cbn [step state chunk_remaining has_digits]. split.
  - intros (ds & t & m & Heq & Hds & Hh & Hb & Ht & Ha). destruct ds as [|d ds].
    + cbn in Heq, Hb, Ha. subst t. destruct Hh as [Hh|?]; [|done]. cbn in Hh. subst h.
      destruct Ht as [Ht|(x & Hx & Ht)]; injection Ht as -> ->.
      * change (is_hex CR) with false. cbn. exists body. split; [done|]. by exists m.
      * change (is_hex (ch ";")) with false. cbn. exists body. split; [done|]. by exists x, m.
    + injection Heq as -> ->. apply Forall_cons in Hds as [Hd Hds']. rewrite Hd.
      cbn in Hb, Ha. pose proof (hex_val_range d Hd).
      pose proof (hex_number_lower (r * 16 + hex_val d) ds ltac:(lia) Hds') as Hlow.
      unfold hex_number in Hlow.
      rewrite (proj2 (Z.ltb_ge 268435455 r)) by lia.
      exists body. split; [done|]. cbn. destruct (digit_update r (hex_val d)) as [-> ?]; [lia..|].
      exists ds, t, m. split_and!; auto.
  - destruct (is_hex c) eqn:Hx.
    + destruct (268435455 <? r) eqn:E; [done|]. zify_bool. intros (b' & -> & H). cbn in H |- *.
      pose proof (hex_val_range c Hx).
      destruct (digit_update r (hex_val c)) as [Heq ?]; [lia..|]. rewrite Heq in H.
      destruct H as (ds & t & m & -> & Hds & _ & Hb & Ht & Ha).
      exists (c :: ds), t, m. split_and!; try done; [by constructor | by right].
    + destruct ((c =? CR) && h) eqn:E.
      { zify_bool. subst. intros (b' & -> & m & -> & Ha). exists [], (CRLF ++ m), m.
        cbn. split_and!; auto; [lia|]. by left. }
      destruct ((c =? ch ";") && h) eqn:E'; [|done].
      zify_bool. subst. intros (b' & -> & x & m & Hx' & -> & Ha).
      exists [], (ch ";" :: x ++ CRLF ++ m), m. cbn. split_and!; auto; [lia|]. right. eauto.
Qed.

Lemma residual_data_step r h c l body :
  0 < r ->
  residual (mkChunkedParser SData r h) (c :: l) body <->
  (exists b', body = [c] ++ b' /\
     residual (mkChunkedParser (if r - 1 =? 0 then DataCR else SData) (r - 1) h) l b').
Proof.
  intros Hr. cbn. split.
  - intros [[? _]|(_ & d & m & b & Hlen & Heq & -> & Hc)]; [lia|].
    destruct d as [|x d]; [cbn in Hlen; lia|]. injection Heq as -> ->. cbn [length] in Hlen.
    exists (d ++ b). split; [done|]. destruct (r - 1 =? 0) eqn:E; zify_bool; cbn.
    + assert (d = []) as -> by (destruct d; [done | cbn in Hlen; lia]). by exists m.
    + right. split; [lia|]. exists d, m, b. split_and!; auto. lia.
  - intros (b' & -> & H). right. split; [done|].
    destruct (r - 1 =? 0) eqn:E; zify_bool; cbn in H.
    + destruct H as (m & -> & Hc). exists [c], m, b'. split_and!; auto. cbn. lia.
    + destruct H as [[? _]|(_ & d & m & b & Hlen & -> & -> & Hc)]; [lia|].
      exists (c :: d), m, b. split_and!; auto. cbn [length]. lia.
Qed.

(** Skipping to the next CR. *)
Lemma skip_line_step c l (P : list Z -> Prop) :
  (exists x m, (CR ∉ x) /\ c :: l = x ++ CRLF ++ m /\ P m) <->
  if c =? CR then exists m, l = LF :: m /\ P m
  else exists x m, (CR ∉ x) /\ l = x ++ CRLF ++ m /\ P m.
Proof.
  destruct (c =? CR) eqn:E; zify_bool.
  - subst. split.
    + intros (x & m & Hx & Heq & HP). destruct x as [|y x].
      * injection Heq as ->. eauto.
      * injection Heq as <- _. set_solver.
    + intros (m & -> & HP). exists [], m. split_and!; [set_solver | done | done].
  - split.
    + intros (x & m & Hx & Heq & HP). destruct x as [|y x].
      * injection Heq as ? _. done.
      * injection Heq as -> ->. exists x, m. split_and!; [set_solver | done | done].
    + intros (x & m & Hx & -> & HP). exists (c :: x), m.
      split_and!; [set_solver | done | done].
Qed.

Lemma trailers_step c l :
  trailers (c :: l) <->
  if c =? CR then l = [LF] else exists x t, (CR ∉ x) /\ l = x ++ CRLF ++ t /\ trailers t.
Proof.
  destruct (c =? CR) eqn:E; zify_bool; split.
  - subst. intros H. inversion H; simplify_eq; done.
  - intros ->. subst. constructor.
  - intros H. inversion H as [|c' x t Hc Hx Ht]; simplify_eq. eauto.
  - intros (x & t & Hx & -> & Ht). by constructor.
Qed.

Lemma residual_step p c l body :
  wf p -> state p <> Complete ->
  residual p (c :: l) body <->
  match step p c with
  | Go p' e => exists b', body = e ++ b' /\ residual p' l b'
  | Fin _ => l = [] /\ body = []
  | Bad => False
  end.
Proof.
  destruct p as [s r h]. intros [Hr Hpos] Hs. cbn in Hr, Hpos, Hs.
  assert (forall P : list Z -> Prop, (exists b', body = [] ++ b' /\ P b') <-> P body) as Hnil.
  { intros P. split; [intros (? & -> & ?); done | eauto]. }
  destruct s; try done.
  - by apply residual_size_step.
  - cbn. case_if; zify_bool.
    + subst. rewrite Hnil. unfold residual. cbn. case_if; zify_bool; cbn.
      * subst. split; [|intros [-> Ht]; exists l; split; [done | by left]].
        intros (m & Heq & [(_ & -> & Ht)|(? & _)]); [|lia]. by simplify_eq.
      * split; [intros (m & Heq & Ha); by simplify_eq | eauto].
    + split; [|done]. intros (m & Heq & _). by simplify_eq.
  - cbn. rewrite Hnil.
    rewrite (skip_line_step c l (fun m => after_size r m body)).
    by destruct (c =? CR).
  - rewrite residual_data_step by auto. done.
  - cbn. case_if; zify_bool; [subst; rewrite Hnil; cbn|].
    + split; intros (m & Heq & Hc); simplify_eq; eauto.
    + split; [|done]. intros (m & Heq & _). by simplify_eq.
  - cbn [step state]. case_if; zify_bool; [subst; rewrite Hnil, residual_start; cbn|].
    + split; [intros (m & Heq & Hc); by simplify_eq | eauto].
    + cbn. split; [|done]. intros (m & Heq & _). by simplify_eq.
  - cbn. rewrite Hnil, trailers_step. by destruct (c =? CR); cbn.
  - cbn. case_if; zify_bool; [subst|]; split.
    + intros [-> Heq]. by simplify_eq.
    + intros [-> ->]. done.
    + intros [_ Heq]. by simplify_eq.
    + done.
  - cbn. rewrite Hnil, (skip_line_step c l trailers). by destruct (c =? CR); cbn.
  - cbn. case_if; zify_bool; [subst; rewrite Hnil; cbn|].
    + split; [intros (? & t & Heq & Ht); by simplify_eq | intros [-> Ht]; eauto].
    + split; [|done]. intros (_ & t & Heq & _). by simplify_eq.
Qed.

(** [run] ends with the final chunk exactly on the residual of the state. *)
Lemma run_done_residual p l r body :
  wf p -> state p <> Complete ->
  (exists p', run p l = RunResult DrainDone p' body r) <->
  exists x, l = x ++ r /\ residual p x body.
Proof.
  revert p body. induction l as [|c l IH]; intros p body Hwf Hs; cbn [run].
  { split; [intros [? ?]; discriminate|].
    intros (x & Heq & Hres). symmetry in Heq. apply app_eq_nil in Heq as [-> ->].
    exfalso. by eapply not_residual_nil. }
  assert ((exists x, c :: l = x ++ r /\ residual p x body) <->
    exists x, l = x ++ r /\ residual p (c :: x) body) as Hcons.
  { split.
    - intros (x & Heq & Hres). destruct x as [|y x]; [exfalso; by eapply not_residual_nil|].
      injection Heq as -> ->. eauto.
    - intros (x & -> & Hres). exists (c :: x). done. }
  rewrite Hcons. clear Hcons. setoid_rewrite residual_step; [|done..].
  destruct (step p c) as [p' e|p'|] eqn:Hstep.
  - assert (state p' <> Complete) as Hs'.
    { destruct p as [s ? ?]. unfold step in Hstep. cbn in Hstep.
      destruct s; repeat case_if_in Hstep; simplify_eq; cbn; repeat case_if; done. }
    assert (wf p') as Hwf' by by eapply step_wf.
    split.
    + intros (p'' & Hrun). destruct (run p' l) as [en pn bn rn] eqn:Er. unfold prepend in Hrun.
      cbn in Hrun. simplify_eq.
      destruct (proj1 (IH p' bn Hwf' Hs') (ex_intro _ p'' Er)) as (x & -> & Hx). eauto.
    + intros (x & Heq & b' & -> & Hres).
      destruct (proj2 (IH p' b' Hwf' Hs') (ex_intro _ x (conj Heq Hres))) as (p'' & Er).
      exists p''. by rewrite Er.
  - split.
    + intros (p'' & Heq). simplify_eq. by exists [].
    + intros (x & -> & -> & ->). eauto.
  - case_decide; [done|]. split; [intros (? & ?); discriminate | intros (? & ? & [])].
Qed.

Lemma drain_done_iff input k body :
  (exists p, drain reset input = Some (DrainResult DrainDone p k body)) <->
  (k <= length input)%nat /\ chunked (take k input) body.
Proof.
  assert (wf reset) as Hwf by (split; [done | intros; discriminate]).
  destruct (drain_run reset input Hwf) as (e & p' & k' & b & Hd & Hk & _ & Hrun).
  pose proof (run_done_residual reset input) as Hres.
  split.
  - intros (p & Hp). rewrite Hd in Hp. simplify_eq. split; [done|].
    destruct (proj1 (Hres (drop k input) body Hwf ltac:(done)) (ex_intro _ p Hrun))
      as (x & Heq & Hx).
    rewrite <- residual_start. rewrite <- (take_drop k input) in Heq at 1.
    by apply app_inv_tail in Heq as ->.
  - intros [Hle Hc]. rewrite <- residual_start in Hc.
    destruct (proj2 (Hres (drop k input) body Hwf ltac:(done))) as (p & Hp).
    { exists (take k input). by rewrite take_drop. }
    rewrite Hp in Hrun. injection Hrun as <- <- <- Hrest.
    exists p. rewrite Hd. do 2 f_equal.
    apply (f_equal length) in Hrest. rewrite !length_drop in Hrest. lia.
Qed.

(** ** Properties *)

(** C17: the decoder accepts exactly the grammar of a chunked body: draining a
    buffer from a fresh parser ends in [Done] after [k] bytes with the decoded
    [body] if and only if the first [k] bytes are a chunked body (sizes that
    fit 32 bits, extensions, trailers) that carries [body]. *)
Theorem drain_accepts_grammar input k body :
  (exists p, drain reset input = Some (DrainResult DrainDone p k body)) <->
  (k <= length input)%nat /\ chunked (take k input) body.
Proof. apply drain_done_iff. Qed.

(** Reads may split the stream anywhere: draining [a ++ b] gives what
    draining [a] and then, if more input was asked for, draining [b] from the
    parser left behind gives. *)
Theorem drain_split p a b :
  wf p ->
  drain p (a ++ b) =
  match drain p a with
  | Some (DrainResult DrainMore p' _ out) =>
      match drain p' b with
      | Some r => Some (DrainResult (dr_end r) (dr_parser r)
                          (length a + dr_consumed r) (out ++ dr_body r))
      | None => None
      end
  | r => r
  end.
Proof.
  intros Hwf.
  destruct (drain_run p (a ++ b) Hwf) as (e & q & k & o & -> & Hk & _ & Hrun).
  destruct (drain_run p a Hwf) as (ea & qa & ka & oa & -> & Hka & Hwfa & Hruna).
  rewrite run_app, Hruna in Hrun. cbn in Hrun. rewrite length_app in Hk.
  destruct ea.
  - destruct (drain_run qa b Hwfa) as (eb & qb & kb & ob & -> & Hkb & _ & Hrunb).
    rewrite Hrunb in Hrun. unfold prepend in Hrun. cbn in Hrun.
    injection Hrun as <- <- <- Hrest. cbn. do 2 f_equal.
    apply (f_equal length) in Hrest. rewrite !length_drop, length_app in Hrest. lia.
  - injection Hrun as <- <- <- Hrest. do 2 f_equal.
    apply (f_equal length) in Hrest. rewrite length_app, !length_drop, length_app in Hrest. lia.
  - injection Hrun as <- <- <- Hrest. do 2 f_equal.
    apply (f_equal length) in Hrest. rewrite length_app, !length_drop, length_app in Hrest. lia.
Qed.

Lemma drain_split_witness :
  drain reset (bs "3" ++ CRLF ++ bs "ab" ++ bs "c") =
  Some (DrainResult DrainMore (mkChunkedParser DataCR 0 true) 6 (bs "abc")).
Proof.
  rewrite (app_assoc (bs "3")), (app_assoc (bs "3" ++ CRLF)).
  rewrite (drain_split reset); [vm_compute; reflexivity|].
  split; [vm_compute; split; congruence | intros; discriminate].
Defined.

(** One call of [feed] stays in bounds: it consumes at most the input, a
    [Data] answer is a non-empty region of the input that ends where
    consumption stops, no region is reported otherwise, and the chunk counter
    stays a 32-bit value (no digit is shifted out). *)
Theorem feed_in_bounds p input :
  wf p ->
  let r := feed p input in
  (fr_consumed r <= length input)%nat /\ wf (fr_parser r) /\
  match fr_status r with
  | Data => exists s n, fr_out r = Some (s, n) /\ (0 < n)%nat /\ (s + n = fr_consumed r)%nat
  | NeedMore => fr_out r = None /\ fr_consumed r = length input
  | _ => fr_out r = None
  end.
Proof.
  intros Hwf r. destruct (feed_loop_means p 0 input Hwf) as (Hc & Hwf' & Hm).
  fold (feed p input) in *. fold r in Hc, Hwf', Hm. rewrite Nat.sub_0_r in Hm.
  split; [lia|]. split; [done|]. destruct (fr_status r).
  - destruct Hm as (? & ? & _). done.
  - destruct Hm as (s & n & ? & ? & ? & ? & _). eauto.
  - apply Hm.
  - apply Hm.
Qed.

Lemma feed_in_bounds_witness :
  wf (mkChunkedParser SData 2 true) /\
  fr_out (feed (mkChunkedParser SData 2 true) (bs "abc")) = Some (0%nat, 2%nat) /\
  (fr_consumed (feed (mkChunkedParser SData 2 true) (bs "abc")) <= 3)%nat.
Proof.
  assert (wf (mkChunkedParser SData 2 true)) as Hwf by (split; [vm_compute; split; congruence | reflexivity]).
  split; [exact Hwf|]. split; [reflexivity|].
  exact (proj1 (feed_in_bounds (mkChunkedParser SData 2 true) (bs "abc") Hwf)).
Defined.
