(* ===== verification/Simd.v ===== *)
(** * Byte scanners of the HTTP parser

    Model of src/runtime/simd: the character tables (char_tables.h), the scalar
    scanners (scalar.cc), and the vector scanners of the x86 back ends
    (sse2.cc, avx2.cc, avx512.cc), which share one block structure: load W
    bytes, turn lane tests into a bit mask, and decide with [ctz] and mask
    arithmetic.  The theorems show that the tables are the character classes
    their comments name and that every vector back end computes what the
    scalar one does on every buffer. *)

From S2P Require Import Prelude HeaderValidation.

(** ** Character tables *)

Definition kTokenTable : list Z := [
  0; 0; 0; 0; 0; 0; 0; 0; 0; 0; 0; 0; 0; 0; 0; 0;
  0; 0; 0; 0; 0; 0; 0; 0; 0; 0; 0; 0; 0; 0; 0; 0;
  0; 1; 0; 1; 1; 1; 1; 1; 0; 0; 1; 1; 0; 1; 1; 0;
  1; 1; 1; 1; 1; 1; 1; 1; 1; 1; 0; 0; 0; 0; 0; 0;
  0; 1; 1; 1; 1; 1; 1; 1; 1; 1; 1; 1; 1; 1; 1; 1;
  1; 1; 1; 1; 1; 1; 1; 1; 1; 1; 1; 0; 0; 0; 1; 1;
  1; 1; 1; 1; 1; 1; 1; 1; 1; 1; 1; 1; 1; 1; 1; 1;
  1; 1; 1; 1; 1; 1; 1; 1; 1; 1; 1; 0; 1; 0; 1; 0;
  0; 0; 0; 0; 0; 0; 0; 0; 0; 0; 0; 0; 0; 0; 0; 0;
  0; 0; 0; 0; 0; 0; 0; 0; 0; 0; 0; 0; 0; 0; 0; 0;
  0; 0; 0; 0; 0; 0; 0; 0; 0; 0; 0; 0; 0; 0; 0; 0;
  0; 0; 0; 0; 0; 0; 0; 0; 0; 0; 0; 0; 0; 0; 0; 0;
  0; 0; 0; 0; 0; 0; 0; 0; 0; 0; 0; 0; 0; 0; 0; 0;
  0; 0; 0; 0; 0; 0; 0; 0; 0; 0; 0; 0; 0; 0; 0; 0;
  0; 0; 0; 0; 0; 0; 0; 0; 0; 0; 0; 0; 0; 0; 0; 0;
  0; 0; 0; 0; 0; 0; 0; 0; 0; 0; 0; 0; 0; 0; 0; 0].

Definition kHeaderValueTable : list Z := [
  0; 0; 0; 0; 0; 0; 0; 0; 0; 1; 0; 0; 0; 0; 0; 0;
  0; 0; 0; 0; 0; 0; 0; 0; 0; 0; 0; 0; 0; 0; 0; 0;
  1; 1; 1; 1; 1; 1; 1; 1; 1; 1; 1; 1; 1; 1; 1; 1;
  1; 1; 1; 1; 1; 1; 1; 1; 1; 1; 1; 1; 1; 1; 1; 1;
  1; 1; 1; 1; 1; 1; 1; 1; 1; 1; 1; 1; 1; 1; 1; 1;
  1; 1; 1; 1; 1; 1; 1; 1; 1; 1; 1; 1; 1; 1; 1; 1;
  1; 1; 1; 1; 1; 1; 1; 1; 1; 1; 1; 1; 1; 1; 1; 1;
  1; 1; 1; 1; 1; 1; 1; 1; 1; 1; 1; 1; 1; 1; 1; 0;
  1; 1; 1; 1; 1; 1; 1; 1; 1; 1; 1; 1; 1; 1; 1; 1;
  1; 1; 1; 1; 1; 1; 1; 1; 1; 1; 1; 1; 1; 1; 1; 1;
  1; 1; 1; 1; 1; 1; 1; 1; 1; 1; 1; 1; 1; 1; 1; 1;
  1; 1; 1; 1; 1; 1; 1; 1; 1; 1; 1; 1; 1; 1; 1; 1;
  1; 1; 1; 1; 1; 1; 1; 1; 1; 1; 1; 1; 1; 1; 1; 1;
  1; 1; 1; 1; 1; 1; 1; 1; 1; 1; 1; 1; 1; 1; 1; 1;
  1; 1; 1; 1; 1; 1; 1; 1; 1; 1; 1; 1; 1; 1; 1; 1;
  1; 1; 1; 1; 1; 1; 1; 1; 1; 1; 1; 1; 1; 1; 1; 1].

Definition kUriTable : list Z := [
  0; 0; 0; 0; 0; 0; 0; 0; 0; 0; 0; 0; 0; 0; 0; 0;
  0; 0; 0; 0; 0; 0; 0; 0; 0; 0; 0; 0; 0; 0; 0; 0;
  0; 1; 1; 1; 1; 1; 1; 1; 1; 1; 1; 1; 1; 1; 1; 1;
  1; 1; 1; 1; 1; 1; 1; 1; 1; 1; 1; 1; 1; 1; 1; 1;
  1; 1; 1; 1; 1; 1; 1; 1; 1; 1; 1; 1; 1; 1; 1; 1;
  1; 1; 1; 1; 1; 1; 1; 1; 1; 1; 1; 1; 1; 1; 1; 1;
  1; 1; 1; 1; 1; 1; 1; 1; 1; 1; 1; 1; 1; 1; 1; 1;
  1; 1; 1; 1; 1; 1; 1; 1; 1; 1; 1; 1; 1; 1; 1; 0;
  0; 0; 0; 0; 0; 0; 0; 0; 0; 0; 0; 0; 0; 0; 0; 0;
  0; 0; 0; 0; 0; 0; 0; 0; 0; 0; 0; 0; 0; 0; 0; 0;
  0; 0; 0; 0; 0; 0; 0; 0; 0; 0; 0; 0; 0; 0; 0; 0;
  0; 0; 0; 0; 0; 0; 0; 0; 0; 0; 0; 0; 0; 0; 0; 0;
  0; 0; 0; 0; 0; 0; 0; 0; 0; 0; 0; 0; 0; 0; 0; 0;
  0; 0; 0; 0; 0; 0; 0; 0; 0; 0; 0; 0; 0; 0; 0; 0;
  0; 0; 0; 0; 0; 0; 0; 0; 0; 0; 0; 0; 0; 0; 0; 0;
  0; 0; 0; 0; 0; 0; 0; 0; 0; 0; 0; 0; 0; 0; 0; 0].

(** [table[b] != 0]. *)
Definition in_table (t : list Z) (b : Z) : bool := negb (nth (Z.to_nat b) t 0 =? 0).

(** ** Scalar scanners

    Each loop walks [buf[pos..end)], given as the list [rest]; [None] is the
    [(u32)-1] answer. *)

Fixpoint find_header_end_loop (i : nat) (rest : list Z) : nat :=
  match rest with
  | c0 :: (c1 :: c2 :: c3 :: _) as tl =>
      if (c0 =? CR) && (c1 =? LF) && (c2 =? CR) && (c3 =? LF) then (i + 4)%nat
      else find_header_end_loop (S i) tl
  | _ => O
  end.

Definition find_header_end (buf : list Z) (from : nat) : nat :=
  let start := if Nat.ltb 3 from then (from - 3)%nat else O in
  find_header_end_loop start (drop start buf).

Fixpoint scan_header_value_loop (e pos : nat) (rest : list Z) : option nat :=
  match rest with
  | [] => Some e
  | b :: rest' =>
      if b =? CR then Some pos
      else if negb (in_table kHeaderValueTable b) then None
      else scan_header_value_loop e (S pos) rest'
  end.

Definition scan_header_value (buf : list Z) (pos e : nat) : option nat :=
  scan_header_value_loop e pos (sub buf pos (e - pos)).

(** The URI scan also reports [*canon_end_out]; [canon_end = e] is the
    "not found yet" sentinel. *)
Fixpoint scan_uri_loop (e pos canon_end : nat) (rest : list Z) : option (nat * nat) :=
  match rest with
  | [] => Some (e, canon_end)
  | b :: rest' =>
      if b =? SP then Some (pos, if negb (Nat.eqb canon_end e) then canon_end else pos)
      else if negb (in_table kUriTable b) then None
      else
        let canon_end' :=
          if ((b =? ch "?") || (b =? ch "#")) && Nat.eqb canon_end e then pos else canon_end in
        scan_uri_loop e (S pos) canon_end' rest'
  end.

Definition scan_uri (buf : list Z) (pos e : nat) : option (nat * nat) :=
  scan_uri_loop e pos e (sub buf pos (e - pos)).

Fixpoint scan_header_name_loop (pos : nat) (rest : list Z) : option nat :=
  match rest with
  | [] => None
  | b :: rest' =>
      if b =? ch ":" then Some pos
      else if negb (in_table kTokenTable b) then None
      else scan_header_name_loop (S pos) rest'
  end.

Definition scan_header_name (buf : list Z) (pos e : nat) : option nat :=
  scan_header_name_loop pos (sub buf pos (e - pos)).

(** ** Vector primitives

    A vector is the list of its lanes.  A comparison yields one boolean per
    lane and [movemask] packs them, lane 0 in bit 0. *)

Fixpoint movemask (lanes : list bool) : Z :=
  match lanes with
  | [] => 0
  | b :: l => Z.b2z b + 2 * movemask l
  end.

Definition mask_of (test : Z -> bool) (chunk : list Z) : Z := movemask (test <$> chunk).

Fixpoint ctz_pos (p : positive) : nat :=
  match p with
  | xO p' => S (ctz_pos p')
  | _ => O
  end.

(** [__builtin_ctz]; only called on non-zero masks. *)
Definition ctz (m : Z) : nat :=
  match m with
  | Zpos p => ctz_pos p
  | _ => O
  end.

Definition cmpeq (c b : Z) : bool := b =? c.

(** A lane as the signed byte that [_mm_cmplt_epi8] compares. *)
Definition sbyte (b : Z) : Z := if b <? 128 then b else b - 256.

Definition cmplt_epi8 (c b : Z) : bool := sbyte b <? sbyte c.

(** [pre] masks: the bits below a lane. *)
Definition below (k : nat) : Z := Z.shiftl 1 (Z.of_nat k) - 1.
Definition below64 (k : nat) : Z := if Nat.ltb k 64 then below k else -1.

(** ** The block loops shared by the vector back ends

    [W] is the lane count; [bad] is the mask of invalid bytes and [pre] the
    mask of lanes below a position, as the back end computes them.  The loop
    runs while a full block is left, then the scalar tail takes over; a block
    consumes bytes, so the length of the scanned run bounds the rounds. *)

Section blocks.
Context (W : nat) (pre : nat -> Z).

(** The [while (mask)] loop over the CR lanes of one block; [rest] starts at
    the block.  [None]: no terminator starts in the block. *)
Fixpoint find_mask_loop (fuel : nat) (mask : Z) (pos : nat) (rest : list Z) : option nat :=
  match fuel with
  | O => None
  | S fuel' =>
      if mask =? 0 then None
      else
        let bit := ctz mask in
        let s := drop bit rest in
        if Nat.ltb 3 (length s) && (rd s 1 =? LF) && (rd s 2 =? CR) && (rd s 3 =? LF)
        then Some (pos + bit + 4)%nat
        else find_mask_loop fuel' (Z.land mask (mask - 1)) pos rest
  end.

(** Blocks of [find_header_end]: the answer, or where the tail starts. *)
Fixpoint find_blocks (fuel pos : nat) (rest : list Z) : nat + (nat * list Z) :=
  match fuel with
  | O => inr (pos, rest)
  | S fuel' =>
      if Nat.leb W (length rest) then
        match find_mask_loop (S W) (mask_of (cmpeq CR) (take W rest)) pos rest with
        | Some r => inl r
        | None => find_blocks fuel' (pos + W) (drop W rest)
        end
      else inr (pos, rest)
  end.

Fixpoint value_blocks (bad : list Z -> Z) (e fuel pos : nat) (rest : list Z) : option nat :=
  match fuel with
  | O => scan_header_value_loop e pos rest
  | S fuel' =>
      if Nat.leb W (length rest) then
        let chunk := take W rest in
        let cr_mask := mask_of (cmpeq CR) chunk in
        let bad_mask := bad chunk in
        if negb (Z.lor cr_mask bad_mask =? 0) then
          if negb (cr_mask =? 0) then
            let cr_pos := ctz cr_mask in
            let real_bad := Z.land (Z.land bad_mask (pre cr_pos)) (Z.lnot cr_mask) in
            if negb (real_bad =? 0) then None else Some (pos + cr_pos)%nat
          else if negb (Z.land bad_mask (Z.lnot cr_mask) =? 0) then None
          else value_blocks bad e fuel' (pos + W) (drop W rest)
        else value_blocks bad e fuel' (pos + W) (drop W rest)
      else scan_header_value_loop e pos rest
  end.

Fixpoint uri_blocks (bad qf : list Z -> Z) (e fuel pos canon_end : nat) (rest : list Z)
    : option (nat * nat) :=
  match fuel with
  | O => scan_uri_loop e pos canon_end rest
  | S fuel' =>
      if Nat.leb W (length rest) then
        let chunk := take W rest in
        let sp_mask := mask_of (cmpeq SP) chunk in
        let bad_mask := bad chunk in
        let qf_mask := qf chunk in
        if negb (sp_mask =? 0) then
          let sp_pos := ctz sp_mask in
          let pre_sp := pre sp_pos in
          let real_bad := Z.land (Z.land bad_mask pre_sp) (Z.lnot sp_mask) in
          if negb (real_bad =? 0) then None
          else
            let canon_end' :=
              if Nat.eqb canon_end e then
                let qf_before_sp := Z.land qf_mask pre_sp in
                if negb (qf_before_sp =? 0) then (pos + ctz qf_before_sp)%nat
                else (pos + sp_pos)%nat
              else canon_end in
            Some ((pos + sp_pos)%nat, canon_end')
        else if negb (bad_mask =? 0) then None
        else
          let canon_end' :=
            if negb (qf_mask =? 0) && Nat.eqb canon_end e
            then (pos + ctz qf_mask)%nat else canon_end in
          uri_blocks bad qf e fuel' (pos + W) canon_end' (drop W rest)
      else scan_uri_loop e pos canon_end rest
  end.

Fixpoint name_blocks (fuel pos : nat) (rest : list Z) : option nat :=
  match fuel with
  | O => scan_header_name_loop pos rest
  | S fuel' =>
      if Nat.leb W (length rest) then
        let chunk := take W rest in
        let mask := mask_of (cmpeq (ch ":")) chunk in
        if negb (mask =? 0) then
          let colon_pos := ctz mask in
          if forallb (in_table kTokenTable) (take colon_pos chunk)
          then Some (pos + colon_pos)%nat else None
        else if forallb (in_table kTokenTable) chunk
        then name_blocks fuel' (pos + W) (drop W rest)
        else None
      else scan_header_name_loop pos rest
  end.

End blocks.

(** ** The back ends *)

(** [bad] lanes of a header value: the xor-0x80 trick of SSE2 and AVX2, and
    the unsigned compares of AVX-512. *)
Definition value_bad_biased (chunk : list Z) : Z :=
  mask_of (fun b =>
    (negb (cmpeq 9 b) && cmplt_epi8 (Z.lxor 32 128) (Z.lxor b 128)) || cmpeq 127 b) chunk.

Definition value_bad_avx512 (chunk : list Z) : Z :=
  let lt20 := mask_of (fun b => b <? 32) chunk in
  let is_ht := mask_of (cmpeq 9) chunk in
  let is_del := mask_of (cmpeq 127) chunk in
  Z.lor (Z.land lt20 (Z.lnot is_ht)) is_del.

(** [bad] lanes of a URI: a signed compare that also catches the high bytes,
    or the sign-bit mask of AVX-512. *)
Definition uri_bad_signed (chunk : list Z) : Z :=
  mask_of (fun b => cmplt_epi8 33 b || cmpeq 127 b) chunk.

Definition uri_bad_avx512 (chunk : list Z) : Z :=
  let high_mask := mask_of (fun b => Z.testbit b 7) chunk in
  Z.lor (Z.lor (mask_of (fun b => b <? 33) chunk) (mask_of (cmpeq 127) chunk)) high_mask.

Definition uri_qf (chunk : list Z) : Z :=
  mask_of (fun b => cmpeq (ch "?") b || cmpeq (ch "#") b) chunk.

Definition uri_qf_avx512 (chunk : list Z) : Z :=
  Z.lor (mask_of (cmpeq (ch "?")) chunk) (mask_of (cmpeq (ch "#")) chunk).

Definition find_start (from : nat) : nat := if Nat.ltb 3 from then (from - 3)%nat else O.

Definition sse2_find_header_end (buf : list Z) (from : nat) : nat :=
  let start := find_start from in
  match find_blocks 16 (length buf) start (drop start buf) with
  | inl r => r
  | inr (pos, rest) => find_header_end_loop pos rest
  end.

Definition avx2_find_header_end (buf : list Z) (from : nat) : nat :=
  let start := find_start from in
  match find_blocks 32 (length buf) start (drop start buf) with
  | inl r => r
  | inr (pos, rest) =>
      match find_blocks 16 (length buf) pos rest with
      | inl r => r
      | inr (pos', rest') => find_header_end_loop pos' rest'
      end
  end.

Definition avx512_find_header_end (buf : list Z) (from : nat) : nat :=
  let start := find_start from in
  match find_blocks 64 (length buf) start (drop start buf) with
  | inl r => r
  | inr (pos, rest) => find_header_end_loop pos rest
  end.

Definition sse2_scan_header_value (buf : list Z) (pos e : nat) : option nat :=
  let rest := sub buf pos (e - pos) in
  value_blocks 16 below value_bad_biased e (length rest) pos rest.

Definition avx2_scan_header_value (buf : list Z) (pos e : nat) : option nat :=
  let rest := sub buf pos (e - pos) in
  value_blocks 32 below value_bad_biased e (length rest) pos rest.

Definition avx512_scan_header_value (buf : list Z) (pos e : nat) : option nat :=
  let rest := sub buf pos (e - pos) in
  value_blocks 64 below64 value_bad_avx512 e (length rest) pos rest.

Definition sse2_scan_uri (buf : list Z) (pos e : nat) : option (nat * nat) :=
  let rest := sub buf pos (e - pos) in
  uri_blocks 16 below uri_bad_signed uri_qf e (length rest) pos e rest.

Definition avx2_scan_uri (buf : list Z) (pos e : nat) : option (nat * nat) :=
  let rest := sub buf pos (e - pos) in
  uri_blocks 32 below uri_bad_signed uri_qf e (length rest) pos e rest.

Definition avx512_scan_uri (buf : list Z) (pos e : nat) : option (nat * nat) :=
  let rest := sub buf pos (e - pos) in
  uri_blocks 64 below64 uri_bad_avx512 uri_qf_avx512 e (length rest) pos e rest.

Definition sse2_scan_header_name (buf : list Z) (pos e : nat) : option nat :=
  let rest := sub buf pos (e - pos) in
  name_blocks 16 (length rest) pos rest.

Definition avx2_scan_header_name (buf : list Z) (pos e : nat) : option nat :=
  let rest := sub buf pos (e - pos) in
  name_blocks 32 (length rest) pos rest.

Definition avx512_scan_header_name (buf : list Z) (pos e : nat) : option nat :=
  let rest := sub buf pos (e - pos) in
  name_blocks 64 (length rest) pos rest.

(** ** Masks *)

Lemma movemask_nonneg l : 0 <= movemask l.
Proof. induction l as [|b l IH]; cbn; [lia|]. destruct b; cbn; lia. Qed.

Lemma movemask_testbit l (i : nat) :
  Z.testbit (movemask l) (Z.of_nat i) = nth i l false.
Proof.
  revert i. induction l as [|b l IH]; intros i; cbn [movemask].
  - rewrite Z.bits_0. by destruct i.
  - rewrite Z.add_comm. destruct i as [|i].
    + cbn [Z.of_nat nth]. destruct b; cbn [Z.b2z].
      * by rewrite Z.testbit_odd_0.
      * by rewrite Z.add_0_r, Z.testbit_even_0.
    + rewrite Nat2Z.inj_succ. cbn [nth]. rewrite <- IH. destruct b; cbn [Z.b2z].
      * by rewrite Z.testbit_odd_succ by lia.
      * by rewrite Z.add_0_r, Z.testbit_even_succ by lia.
Qed.

Lemma movemask_ext (m : Z) l :
  0 <= m -> (forall i : nat, Z.testbit m (Z.of_nat i) = nth i l false) -> m = movemask l.
Proof.
  intros Hm H. apply Z.bits_inj'. intros n Hn.
  rewrite <- (Z2Nat.id n) by done. by rewrite H, movemask_testbit.
Qed.

Lemma movemask_zero l : movemask l = 0 <-> Forall (fun b => b = false) l.
Proof.
  induction l as [|b l IH]; cbn [movemask]; [done|]. rewrite Forall_cons, <- IH.
  pose proof (movemask_nonneg l). destruct b; cbn [Z.b2z]; split; intros; try lia.
  all: naive_solver lia.
Qed.

(** The first set lane. *)
Fixpoint first_true (l : list bool) : nat :=
  match l with
  | [] => O
  | true :: _ => O
  | false :: l' => S (first_true l')
  end.

Lemma ctz_movemask l : movemask l <> 0 -> ctz (movemask l) = first_true l.
Proof.
  induction l as [|b l IH]; cbn [movemask first_true]; [done|]. intros H.
  pose proof (movemask_nonneg l). destruct b; cbn [Z.b2z] in *.
  - destruct (movemask l) as [|p|p]; try done; lia.
  - rewrite Z.add_0_l in *. rewrite <- IH by lia.
    destruct (movemask l) as [|p|p]; try done; lia.
Qed.

Lemma first_true_spec l :
  movemask l <> 0 ->
  l = replicate (first_true l) false ++ true :: drop (S (first_true l)) l /\
  (first_true l < length l)%nat.
Proof.
  induction l as [|b l IH]; cbn [movemask first_true]; [done|]. intros H.
  pose proof (movemask_nonneg l). destruct b; cbn [Z.b2z] in *; [split; [done | cbn; lia]|].
  destruct IH as [IH1 IH2]; [lia|]. split; [cbn; by rewrite <- IH1 | cbn; lia].
Qed.

Fixpoint clear_first (l : list bool) : list bool :=
  match l with
  | [] => []
  | true :: l' => false :: l'
  | false :: l' => false :: clear_first l'
  end.

Lemma clear_lowest l :
  movemask l <> 0 -> Z.land (movemask l) (movemask l - 1) = movemask (clear_first l).
Proof.
  induction l as [|b l IH]; [done|]. cbn [movemask clear_first]. intros H.
  pose proof (movemask_nonneg l). destruct b; cbn [movemask Z.b2z] in *.
  - set (m := movemask l) in *.
    apply Z.bits_inj'. intros n Hn. rewrite Z.land_spec.
    replace (1 + 2 * m - 1) with (2 * m) by lia.
    replace (0 + 2 * m) with (2 * m) by lia.
    replace (1 + 2 * m) with (2 * m + 1) by lia.
    destruct (decide (n = 0)) as [->|].
    + by rewrite Z.testbit_even_0, andb_false_r.
    + replace n with (Z.succ (Z.pred n)) by lia.
      rewrite Z.testbit_odd_succ, Z.testbit_even_succ by lia. by rewrite andb_diag.
  - set (m := movemask l) in *. rewrite <- IH by lia.
    apply Z.bits_inj'. intros n Hn. rewrite Z.land_spec.
    replace (0 + 2 * m - 1) with (2 * (m - 1) + 1) by lia.
    replace (0 + 2 * m) with (2 * m) by lia.
    replace (0 + 2 * Z.land m (m - 1)) with (2 * Z.land m (m - 1)) by lia.
    destruct (decide (n = 0)) as [->|].
    + by rewrite !Z.testbit_even_0.
    + replace n with (Z.succ (Z.pred n)) by lia.
      by rewrite Z.testbit_odd_succ, !Z.testbit_even_succ, Z.land_spec by lia.
Qed.

Lemma below_testbit k (i : nat) :
  Z.testbit (below k) (Z.of_nat i) = Nat.ltb i k.
Proof.
  unfold below. rewrite Z.shiftl_1_l, Z.sub_1_r, <- Z.ones_equiv.
  destruct (Nat.ltb_spec i k).
  - apply Z.ones_spec_low. lia.
  - apply Z.ones_spec_high. lia.
Qed.

Lemma nth_take_bool (l : list bool) k i :
  nth i (take k l) false = nth i l false && Nat.ltb i k.
Proof.
  revert k i. induction l as [|b l IH]; intros [|k] [|i]; cbn; try done;
    try (by rewrite andb_false_r); try (by rewrite andb_true_r).
Qed.

Lemma mask_below l k : Z.land (movemask l) (below k) = movemask (take k l).
Proof.
  apply movemask_ext.
  - apply Z.land_nonneg. left. apply movemask_nonneg.
  - intros i. by rewrite Z.land_spec, movemask_testbit, below_testbit, nth_take_bool.
Qed.

Lemma nth_fmap_bool (f : Z -> bool) (l : list Z) i :
  nth i (f <$> l) false = match l !! i with Some b => f b | None => false end.
Proof. rewrite nth_lookup, list_lookup_fmap. by destruct (l !! i). Qed.

Lemma mask_of_lor f g l :
  Z.lor (mask_of f l) (mask_of g l) = mask_of (fun b => f b || g b) l.
Proof.
  apply movemask_ext.
  - apply Z.lor_nonneg. split; apply movemask_nonneg.
  - intros i. unfold mask_of. rewrite Z.lor_spec, !movemask_testbit, !nth_fmap_bool.
    by destruct (l !! i).
Qed.

Lemma mask_of_ldiff f g l :
  Z.land (mask_of f l) (Z.lnot (mask_of g l)) = mask_of (fun b => f b && negb (g b)) l.
Proof.
  apply movemask_ext.
  - apply Z.land_nonneg. left. apply movemask_nonneg.
  - intros i. unfold mask_of.
    rewrite Z.land_spec, Z.lnot_spec, !movemask_testbit, !nth_fmap_bool by lia.
    by destruct (l !! i).
Qed.

Lemma mask_of_ext f g l :
  (forall b, b ∈ l -> f b = g b) -> mask_of f l = mask_of g l.
Proof.
  intros H. unfold mask_of. f_equal. apply list_fmap_ext. intros i x Hx.
  apply H. by eapply list_elem_of_lookup_2.
Qed.

Lemma mask_of_zero f l : mask_of f l = 0 <-> Forall (fun b => f b = false) l.
Proof. unfold mask_of. rewrite movemask_zero. apply Forall_fmap. Qed.

(** The lane of the first match splits the block. *)
Lemma mask_of_first f l :
  mask_of f l <> 0 ->
  exists a b c, l = a ++ b :: c /\ ctz (mask_of f l) = length a /\
    Forall (fun x => f x = false) a /\ f b = true.
Proof.
  intros H. unfold mask_of in *. rewrite ctz_movemask by done.
  induction l as [|x l IH]; [done|]. cbn [fmap list_fmap movemask first_true] in *.
  pose proof (movemask_nonneg (f <$> l)).
  destruct (f x) eqn:E; cbn [Z.b2z] in *.
  - by exists [], x, l.
  - destruct IH as (a & b & c & -> & Ha & Hf & Hb); [lia|].
    exists (x :: a), b, c. cbn [length app]. rewrite <- Ha. split_and!; auto.
Qed.

Lemma mask_below_of f l k : Z.land (mask_of f l) (below k) = mask_of f (take k l).
Proof. unfold mask_of. rewrite mask_below. by rewrite fmap_take. Qed.

(** ** The tables as character classes *)

Lemma table_lift (t : list Z) (f : Z -> bool) :
  forallb (fun n => eqb (in_table t (Z.of_nat n)) (f (Z.of_nat n))) (seq 0 256) = true ->
  forall b, is_byte b -> in_table t b = f b.
Proof.
  intros H b Hb. rewrite forallb_forall in H.
  specialize (H (Z.to_nat b)). unfold is_byte in Hb.
  rewrite Z2Nat.id in H by lia. apply eqb_prop, H, in_seq. lia.
Qed.

Lemma token_table b : is_byte b -> in_table kTokenTable b = is_http_tchar b.
Proof. by apply table_lift. Qed.

Lemma value_table b :
  is_byte b -> in_table kHeaderValueTable b = (b =? HT) || ((32 <=? b) && negb (b =? 127)).
Proof. by apply (table_lift _ (fun b => (b =? HT) || ((32 <=? b) && negb (b =? 127)))). Qed.

Lemma uri_table b : is_byte b -> in_table kUriTable b = (33 <=? b) && (b <=? 126).
Proof. by apply (table_lift _ (fun b => (33 <=? b) && (b <=? 126))). Qed.

Lemma byte_forall (P : Z -> bool) :
  forallb (fun n => P (Z.of_nat n)) (seq 0 256) = true -> forall b, is_byte b -> P b = true.
Proof.
  intros H b Hb. rewrite forallb_forall in H. unfold is_byte in Hb.
  specialize (H (Z.to_nat b)). rewrite Z2Nat.id in H by lia. apply H, in_seq. lia.
Qed.

(** The lane tests of each back end select the bytes outside the table. *)
Lemma value_bad_biased_ok chunk :
  Forall is_byte chunk ->
  value_bad_biased chunk = mask_of (fun b => negb (in_table kHeaderValueTable b)) chunk.
Proof.
  intros H. rewrite Forall_forall in H. apply mask_of_ext. intros b Hb. apply eqb_prop.
  apply (byte_forall (fun b => eqb
    ((negb (cmpeq 9 b) && cmplt_epi8 (Z.lxor 32 128) (Z.lxor b 128)) || cmpeq 127 b)
    (negb (in_table kHeaderValueTable b)))).
  - vm_compute. reflexivity.
  - by apply H.
Qed.

Lemma value_bad_avx512_ok chunk :
  Forall is_byte chunk ->
  value_bad_avx512 chunk = mask_of (fun b => negb (in_table kHeaderValueTable b)) chunk.
Proof.
  intros H. rewrite Forall_forall in H. unfold value_bad_avx512.
  rewrite mask_of_ldiff, mask_of_lor. apply mask_of_ext. intros b Hb. apply eqb_prop.
  apply (byte_forall (fun b => eqb ((b <? 32) && negb (cmpeq 9 b) || cmpeq 127 b)
    (negb (in_table kHeaderValueTable b)))).
  - vm_compute. reflexivity.
  - by apply H.
Qed.

Lemma uri_bad_signed_ok chunk :
  Forall is_byte chunk ->
  uri_bad_signed chunk = mask_of (fun b => negb (in_table kUriTable b)) chunk.
Proof.
  intros H. rewrite Forall_forall in H. apply mask_of_ext. intros b Hb. apply eqb_prop.
  apply (byte_forall (fun b => eqb (cmplt_epi8 33 b || cmpeq 127 b)
    (negb (in_table kUriTable b)))).
  - vm_compute. reflexivity.
  - by apply H.
Qed.

Lemma uri_bad_avx512_ok chunk :
  Forall is_byte chunk ->
  uri_bad_avx512 chunk = mask_of (fun b => negb (in_table kUriTable b)) chunk.
Proof.
  intros H. rewrite Forall_forall in H. unfold uri_bad_avx512.
  rewrite !mask_of_lor. apply mask_of_ext. intros b Hb. apply eqb_prop.
  apply (byte_forall (fun b => eqb ((b <? 33) || cmpeq 127 b || Z.testbit b 7)
    (negb (in_table kUriTable b)))).
  - vm_compute. reflexivity.
  - by apply H.
Qed.

Lemma uri_qf_avx512_ok chunk : uri_qf_avx512 chunk = uri_qf chunk.
Proof. unfold uri_qf_avx512, uri_qf. by rewrite mask_of_lor. Qed.

(** ** Header values *)

Lemma value_skip e pos a l :
  Forall (fun b => (b =? CR) = false /\ in_table kHeaderValueTable b = true) a ->
  scan_header_value_loop e pos (a ++ l) = scan_header_value_loop e (pos + length a) l.
Proof.
  intros H. revert pos. induction H as [|b a [H1 H2] _ IH]; intros pos; cbn.
  - by rewrite Nat.add_0_r.
  - rewrite H1, H2. cbn. rewrite IH. f_equal. lia.
Qed.

Lemma value_none e pos a l :
  Forall (fun b => (b =? CR) = false) a ->
  ~ Forall (fun b => in_table kHeaderValueTable b = true) a ->
  scan_header_value_loop e pos (a ++ l) = None.
Proof.
  intros H. revert pos. induction H as [|b a Hb _ IH]; intros pos Hn; cbn; [by destruct Hn|].
  rewrite Hb. destruct (in_table kHeaderValueTable b) eqn:E; cbn; [|done].
  apply IH. intros ?. apply Hn. by constructor.
Qed.

Lemma take_length_app {A} (a b : list A) : take (length a) (a ++ b) = a.
Proof. apply take_app_length. Qed.

(** Masking with the lanes below the first separator leaves the invalid bytes
    in front of it. *)
Lemma real_bad_prefix (bad sep : Z -> bool) a b c :
  Forall (fun x => sep x = false) a ->
  Z.land (Z.land (mask_of bad (a ++ b :: c)) (below (length a)))
    (Z.lnot (mask_of sep (a ++ b :: c))) = mask_of bad a.
Proof.
  intros Ha. rewrite <- Z.land_assoc, (Z.land_comm (below _)), Z.land_assoc.
  rewrite mask_of_ldiff, mask_below_of, take_length_app.
  apply mask_of_ext. intros x Hx. rewrite Forall_forall in Ha. rewrite Ha by done.
  apply andb_true_r.
Qed.

Lemma mask_bad_zero t a :
  mask_of (fun b => negb (in_table t b)) a = 0 <-> Forall (fun b => in_table t b = true) a.
Proof.
  rewrite mask_of_zero. apply Forall_proper; [|done]. intros x. apply negb_false_iff.
Qed.

Section value_ok.
Context (W : nat) (pre : nat -> Z) (bad : list Z -> Z).
Hypothesis (pre_ok : forall k, (k < W)%nat -> pre k = below k).
Hypothesis (bad_ok : forall chunk, Forall is_byte chunk ->
  bad chunk = mask_of (fun b => negb (in_table kHeaderValueTable b)) chunk).

Lemma value_blocks_scalar e fuel pos rest :
  Forall is_byte rest ->
  value_blocks W pre bad e fuel pos rest = scan_header_value_loop e pos rest.
Proof.
  revert pos rest. induction fuel as [|fuel IH]; intros pos rest Hb; cbn [value_blocks]; [done|].
  destruct (Nat.leb_spec W (length rest)) as [HW|]; [|done].
  assert (Forall is_byte (take W rest) /\ Forall is_byte (drop W rest)) as [Hbt Hbd].
  { rewrite <- (take_drop W rest) in Hb. by apply Forall_app in Hb. }
  rewrite bad_ok by done. rewrite IH by done.
  set (chunk := take W rest) in *.
  assert (rest = chunk ++ drop W rest) as Hsplit by (unfold chunk; by rewrite take_drop).
  assert (length chunk = W) as Hlen by (unfold chunk; rewrite length_take; lia).
  assert (Hclean : mask_of (cmpeq CR) chunk = 0 ->
    Forall (fun b => in_table kHeaderValueTable b = true) chunk ->
    scan_header_value_loop e (pos + W) (drop W rest) = scan_header_value_loop e pos rest).
  { intros H1 H2. rewrite Hsplit at 2. rewrite value_skip, Hlen; [done|].
    apply mask_of_zero in H1. apply Forall_and. split; [done|]. done. }
  destruct (Z.eqb_spec (mask_of (cmpeq CR) chunk) 0) as [Hcr|Hcr].
  - rewrite Hcr, Z.lor_0_l. change (Z.lnot 0) with (-1). rewrite !Z.land_m1_r. cbn [negb].
    destruct (Z.eqb_spec (mask_of (fun b => negb (in_table kHeaderValueTable b)) chunk) 0)
      as [Hbad|Hbad]; cbn [negb].
    + apply Hclean; [done|]. by apply mask_bad_zero.
    + symmetry. rewrite Hsplit. apply value_none; [by apply mask_of_zero|].
      by rewrite <- mask_bad_zero.
  - assert (Z.lor (mask_of (cmpeq CR) chunk)
      (mask_of (fun b => negb (in_table kHeaderValueTable b)) chunk) <> 0) as Hor.
    { intros H. apply Z.lor_eq_0_iff in H. tauto. }
    rewrite (proj2 (Z.eqb_neq _ _) Hor). cbn [negb].
    destruct (mask_of_first _ _ Hcr) as (a & b & c & Hch & Hctz & Ha & Hbc).
    rewrite Hctz, pre_ok by (rewrite Hch in Hlen; rewrite length_app in Hlen; cbn in Hlen; lia).
    rewrite Hch at 1 2. rewrite real_bad_prefix by done.
    rewrite Hsplit, Hch, <- app_assoc. cbn [app].
    destruct (Z.eqb_spec (mask_of (fun b => negb (in_table kHeaderValueTable b)) a) 0)
      as [Hbad|Hbad]; cbn [negb].
    + rewrite value_skip by (apply Forall_and; split; [done | by apply mask_bad_zero]).
      cbn. unfold cmpeq in Hbc. by rewrite Hbc.
    + symmetry. apply value_none; [done|]. by rewrite <- mask_bad_zero.
Qed.
End value_ok.

(** ** Header names *)

Lemma name_skip pos a l :
  Forall (fun b => (b =? ch ":") = false /\ in_table kTokenTable b = true) a ->
  scan_header_name_loop pos (a ++ l) = scan_header_name_loop (pos + length a) l.
Proof.
  intros H. revert pos. induction H as [|b a [H1 H2] _ IH]; intros pos; cbn [app length scan_header_name_loop].
  - by rewrite Nat.add_0_r.
  - rewrite H1, H2. cbn [negb]. rewrite IH. f_equal. lia.
Qed.

Lemma name_none pos a l :
  Forall (fun b => (b =? ch ":") = false) a ->
  ~ Forall (fun b => in_table kTokenTable b = true) a ->
  scan_header_name_loop pos (a ++ l) = None.
Proof.
  intros H. revert pos. induction H as [|b a Hb _ IH]; intros pos Hn;
    cbn [app scan_header_name_loop]; [by destruct Hn|].
  rewrite Hb. destruct (in_table kTokenTable b) eqn:E; cbn [negb]; [|done].
  apply IH. intros ?. apply Hn. by constructor.
Qed.

Lemma name_blocks_scalar W fuel pos rest :
  name_blocks W fuel pos rest = scan_header_name_loop pos rest.
Proof.
  revert pos rest. induction fuel as [|fuel IH]; intros pos rest; cbn [name_blocks]; [done|].
  destruct (Nat.leb_spec W (length rest)) as [HW|]; [|done]. rewrite IH.
  set (chunk := take W rest).
  assert (rest = chunk ++ drop W rest) as Hsplit by (unfold chunk; by rewrite take_drop).
  assert (length chunk = W) as Hlen by (unfold chunk; rewrite length_take; lia).
  destruct (Z.eqb_spec (mask_of (cmpeq (ch ":")) chunk) 0) as [Hm|Hm]; cbn [negb].
  - apply mask_of_zero in Hm. rewrite Hsplit at 2. case_if.
    + apply forallb_Forall_true in E. rewrite name_skip, Hlen; [done|].
      by apply Forall_and.
    + symmetry. apply name_none; [done|]. rewrite <- forallb_Forall_true. congruence.
  - destruct (mask_of_first _ _ Hm) as (a & b & c & Hch & Hctz & Ha & Hbc).
    rewrite Hctz, Hsplit, Hch, take_length_app, <- app_assoc. cbn [app]. case_if.
    + apply forallb_Forall_true in E. rewrite name_skip by by apply Forall_and.
      cbn [scan_header_name_loop]. unfold cmpeq in Hbc. by rewrite Hbc.
    + symmetry. apply name_none; [done|]. rewrite <- forallb_Forall_true. congruence.
Qed.

(** ** URIs *)

Definition is_qf (b : Z) : bool := cmpeq (ch "?") b || cmpeq (ch "#") b.

(** The canonical end after the run [a] that starts at [pos]. *)
Definition canon_after (e pos ce : nat) (a : list Z) : nat :=
  if negb (mask_of is_qf a =? 0) && Nat.eqb ce e then (pos + ctz (mask_of is_qf a))%nat else ce.

Lemma mask_of_cons_true f b l : f b = true -> mask_of f (b :: l) <> 0 /\ ctz (mask_of f (b :: l)) = O.
Proof.
  intros H. assert (mask_of f (b :: l) <> 0) as Hne.
  { rewrite mask_of_zero, Forall_cons. intros [? _]. congruence. }
  split; [done|]. unfold mask_of in *. rewrite ctz_movemask by done. cbn. by rewrite H.
Qed.

Lemma mask_of_cons_false f b l :
  f b = false -> (mask_of f (b :: l) =? 0) = (mask_of f l =? 0) /\
  (mask_of f l <> 0 -> ctz (mask_of f (b :: l)) = S (ctz (mask_of f l))).
Proof.
  intros H. unfold mask_of. cbn [fmap list_fmap movemask]. rewrite H. cbn [Z.b2z].
  pose proof (movemask_nonneg (f <$> l)). split.
  - destruct (Z.eqb_spec (movemask (f <$> l)) 0); [rewrite e; done|].
    apply Z.eqb_neq. unfold fmap in *. lia.
  - intros Hne. unfold fmap in *.
    destruct (movemask (list_fmap _ _ f l)) as [|p|p]; try done; lia.
Qed.

Lemma ctz_lt_length f l : mask_of f l <> 0 -> (ctz (mask_of f l) < length l)%nat.
Proof.
  intros H. destruct (mask_of_first f l H) as (a & b & c & -> & -> & _).
  rewrite length_app. cbn. lia.
Qed.

Lemma canon_after_cons e pos ce b a :
  (pos < e)%nat ->
  canon_after e pos ce (b :: a) =
  canon_after e (S pos) (if is_qf b && Nat.eqb ce e then pos else ce) a.
Proof.
  intros Hlt. unfold canon_after. destruct (is_qf b) eqn:E; cbn [andb].
  - destruct (mask_of_cons_true _ _ a E) as [H1 ->].
    rewrite (proj2 (Z.eqb_neq _ _) H1). cbn [negb andb]. rewrite Nat.add_0_r.
    destruct (Nat.eqb_spec ce e) as [->|Hne].
    + rewrite (proj2 (Nat.eqb_neq pos e)) by lia. by rewrite andb_false_r.
    + rewrite (proj2 (Nat.eqb_neq ce e)) by done. by rewrite andb_false_r.
  - destruct (mask_of_cons_false _ _ a E) as [-> Hc].
    destruct (Z.eqb_spec (mask_of is_qf a) 0) as [|Hne]; [done|]. rewrite Hc by done.
    destruct (Nat.eqb ce e); cbn; [lia | done].
Qed.

Lemma uri_skip e pos ce a l :
  (pos + length a <= e)%nat ->
  Forall (fun b => (b =? SP) = false /\ in_table kUriTable b = true) a ->
  scan_uri_loop e pos ce (a ++ l) =
  scan_uri_loop e (pos + length a) (canon_after e pos ce a) l.
Proof.
  revert pos ce. induction a as [|b a IH]; intros pos ce Hle H; cbn [app length].
  - unfold canon_after. cbn. by rewrite Nat.add_0_r.
  - apply Forall_cons in H as [[H1 H2] H]. cbn [length] in Hle.
    cbn [scan_uri_loop]. rewrite H1, H2. cbn [negb].
    rewrite IH by (done || lia). rewrite (canon_after_cons e pos ce b a) by lia.
    f_equal; lia.
Qed.

Lemma uri_none e pos ce a l :
  Forall (fun b => (b =? SP) = false) a ->
  ~ Forall (fun b => in_table kUriTable b = true) a ->
  scan_uri_loop e pos ce (a ++ l) = None.
Proof.
  intros H. revert pos ce. induction H as [|b a Hb _ IH]; intros pos ce Hn;
    cbn [app scan_uri_loop]; [by destruct Hn|].
  rewrite Hb. destruct (in_table kUriTable b) eqn:E; cbn [negb]; [|done].
  apply IH. intros ?. apply Hn. by constructor.
Qed.

Section uri_ok.
Context (W : nat) (pre : nat -> Z) (bad qf : list Z -> Z).
Hypothesis (pre_ok : forall k, (k < W)%nat -> pre k = below k).
Hypothesis (bad_ok : forall chunk, Forall is_byte chunk ->
  bad chunk = mask_of (fun b => negb (in_table kUriTable b)) chunk).
Hypothesis (qf_ok : forall chunk, qf chunk = mask_of is_qf chunk).

Lemma uri_blocks_scalar e fuel pos ce rest :
  Forall is_byte rest -> (pos + length rest <= e)%nat ->
  uri_blocks W pre bad qf e fuel pos ce rest = scan_uri_loop e pos ce rest.
Proof.
  revert pos ce rest. induction fuel as [|fuel IH]; intros pos ce rest Hb Hle;
    cbn [uri_blocks]; [done|].
  destruct (Nat.leb_spec W (length rest)) as [HW|]; [|done].
  assert (Forall is_byte (take W rest) /\ Forall is_byte (drop W rest)) as [Hbt Hbd].
  { rewrite <- (take_drop W rest) in Hb. by apply Forall_app in Hb. }
  rewrite bad_ok, qf_ok by done. rewrite IH by (try rewrite length_drop; done || lia).
  set (chunk := take W rest) in *.
  assert (rest = chunk ++ drop W rest) as Hsplit by (unfold chunk; by rewrite take_drop).
  assert (length chunk = W) as Hlen by (unfold chunk; rewrite length_take; lia).
  destruct (Z.eqb_spec (mask_of (cmpeq SP) chunk) 0) as [Hsp|Hsp]; cbn [negb].
  - apply mask_of_zero in Hsp.
    destruct (Z.eqb_spec (mask_of (fun b => negb (in_table kUriTable b)) chunk) 0)
      as [Hbad|Hbad]; cbn [negb].
    + rewrite Hsplit at 2. rewrite uri_skip, Hlen; [done | lia |].
      apply Forall_and. split; [done|]. by apply mask_bad_zero.
    + symmetry. rewrite Hsplit. apply uri_none; [done|]. by rewrite <- mask_bad_zero.
  - destruct (mask_of_first _ _ Hsp) as (a & b & c & Hch & Hctz & Ha & Hbc).
    assert (length a < W)%nat as Hlt
      by (rewrite Hch in Hlen; rewrite length_app in Hlen; cbn in Hlen; lia).
    rewrite Hctz, pre_ok by done. rewrite Hch at 1 2. rewrite real_bad_prefix by done.
    rewrite Hch, mask_below_of, take_length_app.
    rewrite Hsplit, Hch, <- app_assoc. cbn [app].
    destruct (Z.eqb_spec (mask_of (fun b => negb (in_table kUriTable b)) a) 0)
      as [Hbad|Hbad]; cbn [negb].
    + rewrite uri_skip; [|lia | apply Forall_and; split; [done | by apply mask_bad_zero]].
      cbn [scan_uri_loop]. unfold cmpeq in Hbc. rewrite Hbc. do 2 f_equal.
      unfold canon_after. destruct (Z.eqb_spec (mask_of is_qf a) 0) as [|Hq]; cbn [negb andb].
      * by destruct (Nat.eqb ce e).
      * pose proof (ctz_lt_length _ _ Hq). destruct (Nat.eqb_spec ce e) as [|Hne]; cbn [negb].
        -- by rewrite (proj2 (Nat.eqb_neq _ _)) by lia.
        -- by rewrite (proj2 (Nat.eqb_neq ce e)) by done.
    + symmetry. apply uri_none; [done|]. by rewrite <- mask_bad_zero.
Qed.
End uri_ok.

(** ** The header terminator *)

Definition hit (l : list Z) : bool := is_prefix (CRLF ++ CRLF) l.

Lemma find_loop_hit i l : hit l = true -> find_header_end_loop i l = (i + 4)%nat.
Proof.
  intros H. apply is_prefix_spec in H as [k ->]. done.
Qed.

Lemma find_loop_miss i l :
  hit l = false -> find_header_end_loop i l = find_header_end_loop (S i) (tail l).
Proof.
  unfold hit. destruct l as [|c0 [|c1 [|c2 [|c3 l]]]]; try done.
  cbn [is_prefix CRLF app]. rewrite andb_true_r. intros H.
  cbn [find_header_end_loop tail].
  replace ((c0 =? CR) && (c1 =? LF) && (c2 =? CR) && (c3 =? LF)) with false; [done|].
  rewrite <- H. rewrite (Z.eqb_sym c0), (Z.eqb_sym c1), (Z.eqb_sym c2), (Z.eqb_sym c3).
  by rewrite !andb_assoc.
Qed.

Lemma find_loop_skip n i l :
  (forall j, (j < n)%nat -> hit (drop j l) = false) ->
  find_header_end_loop i l = find_header_end_loop (i + n) (drop n l).
Proof.
  revert i l. induction n as [|n IH]; intros i l H.
  - by rewrite drop_0, Nat.add_0_r.
  - rewrite find_loop_miss by (rewrite <- (drop_0 l); apply H; lia).
    rewrite (IH (S i)).
    + f_equal; [lia|]. destruct l; cbn [tail]; [by rewrite !drop_nil | done].
    + intros j Hj. specialize (H (S j)). destruct l; cbn [tail];
        [rewrite drop_nil; done | apply H; lia].
Qed.

Lemma hit_check l :
  rd l 0 = CR ->
  Nat.ltb 3 (length l) && (rd l 1 =? LF) && (rd l 2 =? CR) && (rd l 3 =? LF) = hit l.
Proof.
  unfold rd, hit. destruct l as [|c0 [|c1 [|c2 [|c3 l]]]]; cbn [nth length is_prefix CRLF app];
    intros Hc; rewrite ?andb_false_r; try done.
  subst. rewrite Z.eqb_refl, andb_true_r. cbn [andb Nat.ltb Nat.leb].
  by rewrite (Z.eqb_sym c1), (Z.eqb_sym c2), (Z.eqb_sym c3), !andb_assoc.
Qed.

Lemma clear_first_lookup l k :
  movemask l <> 0 ->
  nth k (clear_first l) false = nth k l false && negb (Nat.eqb k (first_true l)).
Proof.
  revert k. induction l as [|b l IH]; [done|]. intros k H.
  cbn [clear_first first_true movemask] in *. pose proof (movemask_nonneg l).
  destruct b; cbn [Z.b2z] in *; destruct k as [|k]; cbn; try done.
  - by rewrite andb_true_r.
  - apply IH. lia.
Qed.

Lemma first_true_below l k : (k < first_true l)%nat -> nth k l false = false.
Proof.
  revert k. induction l as [|b l IH]; intros k; cbn; [by destruct k|].
  destruct b; [lia|]. intros H. destruct k; cbn; [done|]. apply IH. lia.
Qed.

Lemma first_true_at l : movemask l <> 0 -> nth (first_true l) l false = true.
Proof.
  induction l as [|b l IH]; cbn [movemask first_true]; [done|]. intros H.
  destruct b; cbn [nth Z.b2z] in *; [done|]. apply IH. lia.
Qed.

Lemma count_clear l :
  movemask l <> 0 ->
  length (filter (fun b => b = true) l) = S (length (filter (fun b => b = true) (clear_first l))).
Proof.
  induction l as [|b l IH]; [done|]. cbn [movemask clear_first]. intros H.
  destruct b; cbn [Z.b2z] in *.
  - rewrite filter_cons_True by done. by rewrite filter_cons_False by done.
  - rewrite !filter_cons_False by done. apply IH. lia.
Qed.

(** The mask loop finds the first terminator that starts in the block, as long
    as the mask still has every lane where one starts. *)
Lemma find_mask_loop_spec W fuel l pos rest :
  (length (filter (fun b => b = true) l) < fuel)%nat -> length l = W ->
  (forall k, nth k l false = true -> rd (drop k rest) 0 = CR) ->
  (forall k, (k < W)%nat -> hit (drop k rest) = true -> nth k l false = true) ->
  match find_mask_loop fuel (movemask l) pos rest with
  | Some r => exists k, r = (pos + k + 4)%nat /\ (k < W)%nat /\ hit (drop k rest) = true /\
      forall j, (j < k)%nat -> hit (drop j rest) = false
  | None => forall j, (j < W)%nat -> hit (drop j rest) = false
  end.
Proof.
  revert l. induction fuel as [|fuel IH]; intros l Hfuel Hlen Hcr Hhit; [lia|].
  cbn [find_mask_loop]. destruct (Z.eqb_spec (movemask l) 0) as [Hz|Hnz].
  - intros j Hj. destruct (hit (drop j rest)) eqn:E; [|done].
    apply Hhit in E; [|done]. rewrite <- movemask_testbit, Hz, Z.bits_0 in E. done.
  - rewrite ctz_movemask by done. destruct (first_true_spec l Hnz) as [_ Hk].
    rewrite hit_check by (apply Hcr; by apply first_true_at).
    destruct (hit (drop (first_true l) rest)) eqn:E.
    + exists (first_true l). split_and!; try done; [lia|]. intros j Hj.
      destruct (hit (drop j rest)) eqn:E'; [|done].
      apply Hhit in E'; [|lia]. by rewrite first_true_below in E'.
    + rewrite clear_lowest by done. apply IH.
      * rewrite count_clear in Hfuel by done. lia.
      * rewrite <- Hlen. clear. induction l as [|[] l IH]; cbn; congruence.
      * intros k Hk'. apply Hcr. rewrite clear_first_lookup in Hk' by done.
        by apply andb_true_iff in Hk' as [? _].
      * intros k HkW Hk'. rewrite clear_first_lookup, Hhit by done. cbn.
        apply negb_true_iff, Nat.eqb_neq. intros ->. congruence.
Qed.

Lemma hit_head l : hit l = true -> rd l 0 = CR.
Proof. intros H. by apply is_prefix_spec in H as [k ->]. Qed.

Lemma find_block_spec W pos rest :
  (W <= length rest)%nat ->
  match find_mask_loop (S W) (mask_of (cmpeq CR) (take W rest)) pos rest with
  | Some r => r = find_header_end_loop pos rest
  | None => find_header_end_loop pos rest = find_header_end_loop (pos + W) (drop W rest)
  end.
Proof.
  intros HW. unfold mask_of.
  assert (forall k, nth k (cmpeq CR <$> take W rest) false =
    Nat.ltb k W && (rd (drop k rest) 0 =? CR)) as Hn.
  { intros k. rewrite nth_fmap_bool. unfold rd.
    destruct (Nat.ltb_spec k W).
    - rewrite lookup_take_lt by done.
      destruct (rest !! k) as [x|] eqn:Ex.
      + by rewrite (drop_S _ _ _ Ex).
      + apply lookup_ge_None in Ex. lia.
    - rewrite lookup_ge_None_2; [done|]. rewrite length_take. lia. }
  assert (length (cmpeq CR <$> take W rest) = W) as Hlen by (rewrite length_fmap, length_take; lia).
  pose proof (length_filter (fun b => b = true) (cmpeq CR <$> take W rest)) as Hf.
  assert (forall k, nth k (cmpeq CR <$> take W rest) false = true -> rd (drop k rest) 0 = CR) as H1.
  { intros k. rewrite Hn. intros Hk. zify_bool. done. }
  assert (forall k, (k < W)%nat -> hit (drop k rest) = true ->
    nth k (cmpeq CR <$> take W rest) false = true) as H2.
  { intros k Hk Hh. rewrite Hn. apply hit_head in Hh. rewrite Hh, Z.eqb_refl.
    by rewrite (proj2 (Nat.ltb_lt _ _) Hk). }
  assert (Hs := find_mask_loop_spec W (S W) (cmpeq CR <$> take W rest) pos rest
    ltac:(lia) Hlen H1 H2).
  destruct (find_mask_loop _ _ _ _) as [r|].
  - destruct Hs as (k & -> & HkW & Hk & Hj).
    rewrite (find_loop_skip k) by done. by rewrite find_loop_hit.
  - by apply find_loop_skip.
Qed.

Lemma find_blocks_scalar W fuel pos rest :
  match find_blocks W fuel pos rest with
  | inl r => r
  | inr (pos', rest') => find_header_end_loop pos' rest'
  end = find_header_end_loop pos rest.
Proof.
  revert pos rest. induction fuel as [|fuel IH]; intros pos rest; cbn [find_blocks]; [done|].
  destruct (Nat.leb_spec W (length rest)) as [HW|]; [|done].
  pose proof (find_block_spec W pos rest HW) as Hs.
  destruct (find_mask_loop _ _ _ _) as [r|]; [done|]. by rewrite IH, Hs.
Qed.

(** ** Properties *)

(** The three character tables are the classes they document: the token
    characters of the header validator, HT plus visible and high bytes for
    values, and the visible ASCII bytes for request targets. *)
Theorem tables_are_classes b :
  is_byte b ->
  in_table kTokenTable b = is_http_tchar b /\
  in_table kHeaderValueTable b = (b =? HT) || ((32 <=? b) && negb (b =? 127)) /\
  in_table kUriTable b = (33 <=? b) && (b <=? 126).
Proof. intros Hb. split_and!; [by apply token_table | by apply value_table | by apply uri_table]. Qed.

Lemma tables_are_classes_witness : is_byte 58 /\ in_table kTokenTable 58 = is_http_tchar 58.
Proof.
  assert (is_byte 58) as H by (split; vm_compute; congruence).
  split; [exact H | exact (proj1 (tables_are_classes 58 H))].
Defined.

Lemma Forall_sub (P : Z -> Prop) buf off n : Forall P buf -> Forall P (sub buf off n).
Proof. intros. unfold sub. by apply Forall_take, Forall_drop. Qed.

Lemma sub_fits (buf : list Z) pos e :
  (length (sub buf pos (e - pos)) = 0 \/ pos + length (sub buf pos (e - pos)) <= e)%nat.
Proof. unfold sub. rewrite length_take, length_drop. lia. Qed.

(** The URI blocks on a sub-buffer. *)
Lemma uri_blocks_top W pre bad qf buf pos e :
  (forall k, (k < W)%nat -> pre k = below k) ->
  (forall chunk, Forall is_byte chunk ->
     bad chunk = mask_of (fun b => negb (in_table kUriTable b)) chunk) ->
  (forall chunk, qf chunk = mask_of is_qf chunk) ->
  Forall is_byte (sub buf pos (e - pos)) ->
  uri_blocks W pre bad qf e (length (sub buf pos (e - pos))) pos e (sub buf pos (e - pos)) =
  scan_uri buf pos e.
Proof.
  intros Hpre Hbad Hqf Hs. destruct (sub_fits buf pos e) as [H0|Hle].
  - unfold scan_uri. by rewrite H0.
  - by apply uri_blocks_scalar.
Qed.

(** C19: the SSE2, AVX2 and AVX-512 scanners compute what the scalar scanners
    do on every buffer: the header terminator, header values, header names,
    and request targets with their canonical end. *)
Theorem simd_backends_agree buf pos e from :
  Forall is_byte buf ->
  (sse2_find_header_end buf from = find_header_end buf from /\
   avx2_find_header_end buf from = find_header_end buf from /\
   avx512_find_header_end buf from = find_header_end buf from) /\
  (sse2_scan_header_value buf pos e = scan_header_value buf pos e /\
   avx2_scan_header_value buf pos e = scan_header_value buf pos e /\
   avx512_scan_header_value buf pos e = scan_header_value buf pos e) /\
  (sse2_scan_header_name buf pos e = scan_header_name buf pos e /\
   avx2_scan_header_name buf pos e = scan_header_name buf pos e /\
   avx512_scan_header_name buf pos e = scan_header_name buf pos e) /\
  (sse2_scan_uri buf pos e = scan_uri buf pos e /\
   avx2_scan_uri buf pos e = scan_uri buf pos e /\
   avx512_scan_uri buf pos e = scan_uri buf pos e).
Proof.
  intros Hb. pose proof (Forall_sub is_byte buf pos (e - pos) Hb) as Hs.
  assert (forall k, (k < 64)%nat -> below64 k = below k) as H64.
  { intros k Hk. unfold below64. by rewrite (proj2 (Nat.ltb_lt _ _) Hk). }
  split_and!.
  - apply find_blocks_scalar.
  - unfold avx2_find_header_end. etrans; [|apply (find_blocks_scalar 32 (length buf))].
    destruct (find_blocks 32 _ _ _) as [|[p r]]; [done|]. apply find_blocks_scalar.
  - apply find_blocks_scalar.
  - apply value_blocks_scalar; [done | by apply value_bad_biased_ok | done].
  - apply value_blocks_scalar; [done | by apply value_bad_biased_ok | done].
  - apply value_blocks_scalar; [done | by apply value_bad_avx512_ok | done].
  - apply name_blocks_scalar.
  - apply name_blocks_scalar.
  - apply name_blocks_scalar.
  - apply uri_blocks_top; [done | by apply uri_bad_signed_ok | done | done].
  - apply uri_blocks_top; [done | by apply uri_bad_signed_ok | done | done].
  - apply uri_blocks_top; [done | by apply uri_bad_avx512_ok | apply uri_qf_avx512_ok | done].
Qed.

Lemma simd_backends_agree_witness :
  sse2_scan_uri (bs "GET /a?b HTTP/1.1 and more") 4 26 = Some (8%nat, 6%nat) /\
  sse2_scan_uri (bs "GET /a?b HTTP/1.1 and more") 4 26 =
  scan_uri (bs "GET /a?b HTTP/1.1 and more") 4 26.
Proof.
  split; [vm_compute; reflexivity|].
  apply (simd_backends_agree (bs "GET /a?b HTTP/1.1 and more") 4 26 0).
  repeat constructor; vm_compute; congruence.
Defined.
