(* ===== verification/RouteCanon.v ===== *)
(** * Path canonicalization for dispatch

    Model of include/rut/runtime/route_canon.h.  A path is the byte run it
    covers, [None] the null view; [finalize_view] is the sub-view (offset and
    length) that the code returns into the same buffer. *)

From S2P Require Import Prelude.

Definition slash : Z := ch "/".

(** [while (lo < len && ptr[lo] == '/') lo++] *)
Fixpoint lead_slashes (l : list Z) : nat :=
  match l with
  | c :: l' => if c =? slash then S (lead_slashes l') else O
  | [] => O
  end.

(** [while (hi > lo && ptr[hi - 1] == '/') hi--] *)
Fixpoint trim_hi (p : list Z) (lo hi : nat) : nat :=
  match hi with
  | S hi' => if Nat.ltb lo hi && (rd p hi' =? slash) then trim_hi p lo hi' else hi
  | O => O
  end.

Definition finalize_view (p : list Z) : nat * nat :=
  let lo := lead_slashes p in
  let hi := trim_hi p lo (length p) in
  (lo, (hi - lo)%nat).

Definition finalize_path_canonical (p : option (list Z)) : option (list Z) :=
  match p with
  | None => None
  | Some p => let '(lo, n) := finalize_view p in Some (sub p lo n)
  end.

(** [while (hi < path.len && path.ptr[hi] != '?' && path.ptr[hi] != '#') hi++] *)
Fixpoint query_start (l : list Z) : nat :=
  match l with
  | c :: l' => if (c =? ch "?") || (c =? ch "#") then O else S (query_start l')
  | [] => O
  end.

Definition canonicalize_request (path : option (list Z)) : option (list Z) :=
  match path with
  | None => None
  | Some p => finalize_path_canonical (Some (take (query_start p) p))
  end.

(** ** Specification *)

(** A canonical path has no slash at either end. *)
Definition canonical (c : list Z) : Prop := head c <> Some slash /\ last c <> Some slash.

(** ** Lemmas *)

Lemma lead_slashes_spec l :
  l = replicate (lead_slashes l) slash ++ drop (lead_slashes l) l /\
  head (drop (lead_slashes l) l) <> Some slash.
Proof.
  induction l as [|c l [IH1 IH2]]; cbn; [done|].
  destruct (c =? slash) eqn:E; zify_bool; cbn.
  - subst. split; [by rewrite <- IH1 | done].
  - split; [done | congruence].
Qed.

Lemma lead_slashes_app n c :
  head c <> Some slash -> lead_slashes (replicate n slash ++ c) = n.
Proof.
  intros Hc. induction n as [|n IH]; cbn.
  - destruct c as [|x c]; cbn; [done|]. destruct (x =? slash) eqn:E; [|done].
    zify_bool. subst. by destruct Hc.
  - by rewrite IH.
Qed.

Lemma trim_hi_run p lo hi n :
  (lo <= hi)%nat -> (forall i, (hi <= i < hi + n)%nat -> rd p i = slash) ->
  trim_hi p lo (hi + n) = trim_hi p lo hi.
Proof.
  intros Hlo. induction n as [|n IH]; intros H; [by rewrite Nat.add_0_r|].
  rewrite Nat.add_succ_r. cbn [trim_hi]. rewrite H by lia. rewrite Z.eqb_refl, andb_true_r.
  rewrite (proj2 (Nat.ltb_lt _ _)) by lia. apply IH. intros i Hi. apply H. lia.
Qed.

Lemma trim_hi_stop p lo hi :
  (hi <= lo)%nat \/ rd p (hi - 1) <> slash -> trim_hi p lo hi = hi.
Proof.
  intros H. destruct hi as [|hi]; [done|]. cbn [trim_hi].
  replace (S hi - 1)%nat with hi in H by lia.
  destruct (Nat.ltb lo (S hi) && (rd p hi =? slash)) eqn:E; [|done].
  zify_bool. destruct H; [lia | done].
Qed.

Lemma rd_replicate n (x : Z) i : (i < n)%nat -> rd (replicate n x) i = x.
Proof. intros H. unfold rd. rewrite nth_lookup, lookup_replicate_2 by done. done. Qed.

Lemma last_rd (c : list Z) : c <> [] -> last c = Some (rd c (length c - 1)).
Proof.
  intros H. unfold rd. rewrite nth_lookup, last_lookup.
  destruct c as [|x c]; [done|]. cbn [length]. replace (S (length c) - 1)%nat with (length c) by lia.
  cbn [Nat.pred]. destruct ((x :: c) !! length c) eqn:E; [done|].
  apply lookup_ge_None in E. cbn in E. lia.
Qed.

(** [finalize_view] selects the middle of slashes - canonical part - slashes. *)
Lemma finalize_view_spec i c j :
  canonical c -> c <> [] ->
  finalize_view (replicate i slash ++ c ++ replicate j slash) = (i, length c).
Proof.
  intros [Hh Hl] Hne. unfold finalize_view.
  rewrite lead_slashes_app by (destruct c; [done|]; exact Hh).
  rewrite !length_app, !length_replicate, Nat.add_assoc.
  rewrite trim_hi_run; [|lia|].
  - rewrite trim_hi_stop; [f_equal; lia|]. right.
    assert (0 < length c)%nat as Hpos by (destruct c; [done | cbn; lia]).
    replace (i + length c - 1)%nat with (length (replicate i slash) + (length c - 1))%nat
      by (rewrite length_replicate; lia).
    rewrite rd_app_r, rd_app_l by lia. rewrite last_rd in Hl by done. congruence.
  - intros k Hk. rewrite app_assoc.
    replace k with (length (replicate i slash ++ c) + (k - i - length c))%nat
      by (rewrite length_app, length_replicate; lia).
    rewrite rd_app_r. apply rd_replicate. lia.
Qed.

Lemma finalize_view_slashes i : finalize_view (replicate i slash) = (i, O).
Proof.
  unfold finalize_view.
  assert (lead_slashes (replicate i slash) = i) as Hl.
  { rewrite <- (app_nil_r (replicate i slash)). by apply lead_slashes_app. }
  rewrite Hl, length_replicate, trim_hi_stop by (left; lia). f_equal. lia.
Qed.

(** Every path splits into slashes, a canonical part and slashes. *)
Lemma slash_split p :
  exists i c j, p = replicate i slash ++ c ++ replicate j slash /\ canonical c /\
    (c = [] -> j = O).
Proof.
  destruct (lead_slashes_spec p) as [Hp Hh].
  remember (drop (lead_slashes p) p) as q eqn:Hq. clear Hq.
  remember (lead_slashes p) as i eqn:Hi. clear Hi. subst p.
  assert (exists c j, q = c ++ replicate j slash /\ last c <> Some slash /\ (q <> [] -> c <> [])) as
    (c & j & Hqc & Hl & Hne).
  { induction q as [|x q IH] using rev_ind; [by exists [], O|].
    destruct (decide (x = slash)) as [->|Hx].
    - destruct q as [|y q].
      { cbn in Hh. done. }
      destruct IH as (c & j & Heq & Hl & Hne); [done|].
      exists c, (S j). rewrite Heq. split_and!; auto.
      rewrite <- app_assoc. f_equal. by rewrite <- replicate_S_end.
    - exists (q ++ [x]), O. rewrite app_nil_r, last_snoc. split_and!; [done | congruence |].
      intros _ H. by destruct q. }
  exists i, c, j. subst q. split; [done|]. split; [split; [|done]|].
  - intros Hc. apply Hh. by destruct c.
  - intros ->. destruct j; [done|]. exfalso. by apply Hne.
Qed.

Lemma finalize_split i c j :
  canonical c -> (c = [] -> j = O) ->
  finalize_view (replicate i slash ++ c ++ replicate j slash) = (i, length c).
Proof.
  intros Hc Hj. destruct (decide (c = [])) as [->|Hne].
  - rewrite Hj by done. cbn. rewrite app_nil_r. apply finalize_view_slashes.
  - by apply finalize_view_spec.
Qed.

Lemma finalize_bytes i c j :
  canonical c -> (c = [] -> j = O) ->
  finalize_path_canonical (Some (replicate i slash ++ c ++ replicate j slash)) = Some c.
Proof.
  intros Hc Hj. cbn [finalize_path_canonical]. rewrite finalize_split by done. f_equal. unfold sub.
  rewrite drop_app_length' by by rewrite length_replicate. apply take_app_length.
Qed.

Lemma finalize_in_bounds p :
  (fst (finalize_view p) + snd (finalize_view p) <= length p)%nat.
Proof.
  destruct (slash_split p) as (i & c & j & -> & Hc & Hj). rewrite finalize_split by done. cbn.
  rewrite !length_app, !length_replicate. lia.
Qed.

Lemma query_start_spec p :
  (query_start p <= length p)%nat /\
  Forall (fun c => c <> ch "?" /\ c <> ch "#") (take (query_start p) p) /\
  (drop (query_start p) p = [] \/ exists c r, drop (query_start p) p = c :: r /\ (c = ch "?" \/ c = ch "#")).
Proof.
  induction p as [|c p (IH1 & IH2 & IH3)]; cbn [query_start].
  { split_and!; [done | constructor | by left]. }
  destruct ((c =? ch "?") || (c =? ch "#")) eqn:E.
  - apply orb_true_iff in E. zify_bool. split_and!; [lia | constructor | right].
    exists c, p. split; [done|]. destruct E; zify_bool; auto.
  - zify_bool. cbn [length take drop]. split_and!; [lia | by constructor | done].
Qed.

Lemma query_start_app a b :
  Forall (fun c => c <> ch "?" /\ c <> ch "#") a ->
  (b = [] \/ exists c r, b = c :: r /\ (c = ch "?" \/ c = ch "#")) ->
  query_start (a ++ b) = length a.
Proof.
  intros Ha Hb. induction Ha as [|c a [H1 H2] _ IH]; cbn [app query_start length].
  - destruct Hb as [->|(c & r & -> & Hc)]; [done|]. cbn [query_start].
    by destruct Hc as [-> | ->].
  - rewrite (proj2 (Z.eqb_neq _ _) H1), (proj2 (Z.eqb_neq _ _) H2). cbn [orb]. by rewrite IH.
Qed.

(** ** Properties *)

(** Canonicalizing a request target cuts it at the first [?] or [#] and
    strips every leading and every trailing slash, and nothing else: the
    target is slashes, the canonical path, slashes, then the query or
    fragment; the canonical path has no slash at either end and no [?] or
    [#]. *)
Theorem canonicalize_request_spec p :
  exists i c j q,
    canonicalize_request (Some p) = Some c /\
    p = replicate i slash ++ c ++ replicate j slash ++ q /\
    canonical c /\ Forall (fun b => b <> ch "?" /\ b <> ch "#") c /\
    (q = [] \/ exists b r, q = b :: r /\ (b = ch "?" \/ b = ch "#")).
Proof.
  destruct (query_start_spec p) as (Hle & Hq1 & Hq2).
  destruct (slash_split (take (query_start p) p)) as (i & c & j & Heq & Hc & Hj).
  exists i, c, j, (drop (query_start p) p). split_and!.
  - cbn [canonicalize_request]. rewrite Heq. by apply finalize_bytes.
  - rewrite <- (take_drop (query_start p) p) at 1. by rewrite Heq, <- !app_assoc.
  - apply Hc.
  - rewrite Heq in Hq1. apply Forall_app in Hq1 as [_ Hq1]. by apply Forall_app in Hq1 as [? _].
  - done.
Qed.

(** Canonicalization is idempotent: a canonical path is its own canonical
    form. *)
Theorem canonicalize_request_idempotent p c :
  canonicalize_request p = Some c -> canonicalize_request (Some c) = Some c.
Proof.
  destruct p as [p|]; [|done]. cbn [canonicalize_request].
  destruct (query_start_spec p) as (_ & Hq1 & _).
  destruct (slash_split (take (query_start p) p)) as (i & c' & j & Heq & Hc & Hj).
  rewrite Heq, finalize_bytes by done. intros H. injection H as <-.
  rewrite Heq in Hq1. apply Forall_app in Hq1 as [_ Hq1]. apply Forall_app in Hq1 as [Hq1 _].
  rewrite <- (app_nil_r c') at 1. rewrite query_start_app by auto. rewrite take_ge by lia.
  rewrite <- (app_nil_r c') at 1. apply (finalize_bytes 0 c' 0); auto.
Qed.

Lemma canonicalize_request_idempotent_witness :
  canonicalize_request (Some (bs "//api//v1//?x")) = Some (bs "api//v1") /\
  canonicalize_request (Some (bs "api//v1")) = Some (bs "api//v1").
Proof.
  split; [vm_compute; reflexivity|].
  apply (canonicalize_request_idempotent (Some (bs "//api//v1//?x"))). vm_compute. reflexivity.
Defined.
