(* ===== verification/HttpParser.v ===== *)
(** * HTTP/1.x request and response parsers

    Model of include/rut/runtime/http_parser.h and src/runtime/http_parser.cc.
    Both parsers re-parse the whole buffer on every call and hand out views
    into it: a view is an offset and a length, and a null pointer is [None].
    The byte scanners are those of the selected SIMD back end, so the parsers
    take them as an interface ([Scanners]); [ScannersOk] states that a back end
    agrees with the scalar one.

    Positions are [nat]: the runtime's buffers are 16 KB slices, so the 32-bit
    position arithmetic of the code cannot wrap. *)

From S2P Require Import Prelude HeaderValidation Simd RouteCanon.

(** ** Data *)

Inductive HttpMethod :=
  | GET | POST | PUT | DELETE | PATCH | HEAD | OPTIONS | CONNECT | TRACE | UnknownMethod.

#[global] Instance HttpMethod_eq_dec : EqDecision HttpMethod.
Proof. solve_decision. Defined.

Inductive HttpVersion := Http10 | Http11 | UnknownVersion.

Record view := View { v_off : nat; v_len : nat }.

Definition bytes_of (buf : list Z) (v : view) : list Z := sub buf (v_off v) (v_len v).

Record Header := mkHeader { h_name : view; h_value : view }.

Definition kMaxHeaders : nat := 64.

Inductive ParseStatus := Complete | Incomplete | Error.

Record ParsedRequest := mkParsedRequest {
  method : HttpMethod;
  path : option view;
  path_canon : option view;
  version : HttpVersion;
  headers : list Header;
  header_count : nat;
  content_length : Z;
  keep_alive : bool;
  chunked : bool;
  has_content_length : bool
}.

(** [ParsedRequest::reset]: everything but the header array, whose entries are
    only meaningful below [header_count]. *)
Definition reset (req : ParsedRequest) : ParsedRequest :=
  mkParsedRequest UnknownMethod None None UnknownVersion [] 0 0 false false false.

Definition set_method r m := mkParsedRequest m (path r) (path_canon r) (version r) (headers r)
  (header_count r) (content_length r) (keep_alive r) (chunked r) (has_content_length r).
Definition set_path r p := mkParsedRequest (method r) p (path_canon r) (version r) (headers r)
  (header_count r) (content_length r) (keep_alive r) (chunked r) (has_content_length r).
Definition set_path_canon r p := mkParsedRequest (method r) (path r) p (version r) (headers r)
  (header_count r) (content_length r) (keep_alive r) (chunked r) (has_content_length r).
Definition set_version r v k := mkParsedRequest (method r) (path r) (path_canon r) v (headers r)
  (header_count r) (content_length r) k (chunked r) (has_content_length r).
Definition set_headers r h := mkParsedRequest (method r) (path r) (path_canon r) (version r) h
  (header_count r) (content_length r) (keep_alive r) (chunked r) (has_content_length r).
Definition set_header_count r n := mkParsedRequest (method r) (path r) (path_canon r) (version r)
  (headers r) n (content_length r) (keep_alive r) (chunked r) (has_content_length r).
Definition set_content_length r n := mkParsedRequest (method r) (path r) (path_canon r) (version r)
  (headers r) (header_count r) n (keep_alive r) (chunked r) true.
Definition set_keep_alive r b := mkParsedRequest (method r) (path r) (path_canon r) (version r)
  (headers r) (header_count r) (content_length r) b (chunked r) (has_content_length r).
Definition set_chunked r b := mkParsedRequest (method r) (path r) (path_canon r) (version r)
  (headers r) (header_count r) (content_length r) (keep_alive r) b (has_content_length r).

(** What a call leaves behind: its status, [header_end] and the request. *)
Record parse_out (R : Type) := POut { po_status : ParseStatus; po_header_end : nat; po_req : R }.
Arguments POut {R}.
Arguments po_status {R}.
Arguments po_header_end {R}.
Arguments po_req {R}.

(** ** The scanner interface *)

Class Scanners := {
  sc_find_header_end : list Z -> nat -> nat;
  sc_scan_header_value : list Z -> nat -> nat -> option nat;
  sc_scan_uri : list Z -> nat -> nat -> option (nat * nat);
  sc_scan_header_name : list Z -> nat -> nat -> option nat
}.

Class ScannersOk (S : Scanners) := {
  ok_find_header_end buf from : Forall is_byte buf ->
    sc_find_header_end buf from = find_header_end buf from;
  ok_scan_header_value buf pos e : Forall is_byte buf ->
    sc_scan_header_value buf pos e = scan_header_value buf pos e;
  ok_scan_uri buf pos e : Forall is_byte buf ->
    sc_scan_uri buf pos e = scan_uri buf pos e;
  ok_scan_header_name buf pos e : Forall is_byte buf ->
    sc_scan_header_name buf pos e = scan_header_name buf pos e
}.

Definition scalar_scanners : Scanners :=
  {| sc_find_header_end := find_header_end; sc_scan_header_value := scan_header_value;
     sc_scan_uri := scan_uri; sc_scan_header_name := scan_header_name |}.
Definition sse2_scanners : Scanners :=
  {| sc_find_header_end := sse2_find_header_end; sc_scan_header_value := sse2_scan_header_value;
     sc_scan_uri := sse2_scan_uri; sc_scan_header_name := sse2_scan_header_name |}.
Definition avx2_scanners : Scanners :=
  {| sc_find_header_end := avx2_find_header_end; sc_scan_header_value := avx2_scan_header_value;
     sc_scan_uri := avx2_scan_uri; sc_scan_header_name := avx2_scan_header_name |}.
Definition avx512_scanners : Scanners :=
  {| sc_find_header_end := avx512_find_header_end;
     sc_scan_header_value := avx512_scan_header_value;
     sc_scan_uri := avx512_scan_uri; sc_scan_header_name := avx512_scan_header_name |}.

(** ** Integer helpers *)

(** Little-endian load of [n] bytes. *)
Fixpoint load_le (n : nat) (l : list Z) : Z :=
  match n, l with
  | S n', b :: l' => Z.lor b (Z.shiftl (load_le n' l') 8)
  | _, _ => 0
  end.

Definition load_u32 (l : list Z) : Z := load_le 4 l.
Definition load_u64 (l : list Z) : Z := load_le 8 l.
Definition u32_lit (s : string) : Z := load_le 4 (bs s).
Definition u64_lit (s : string) : Z := load_le 8 (bs s).

(** ** Case-insensitive compare, eight bytes at a time *)

Definition kMask8 : Z := 2314885530818453536. (* 0x2020202020202020 *)
Definition kMask4 : Z := 538976288. (* 0x20202020 *)

(** [for (; i + 8 <= len; i += 8)]: [None] is a mismatch, [Some] the tails. *)
Fixpoint ci_blocks8 (fuel : nat) (a b : list Z) : option (list Z * list Z) :=
  match fuel with
  | O => Some (a, b)
  | S fuel' =>
      if Nat.leb 8 (length b) then
        if negb (Z.lor (load_u64 a) kMask8 =? Z.lor (load_u64 b) kMask8) then None
        else ci_blocks8 fuel' (drop 8 a) (drop 8 b)
      else Some (a, b)
  end.

Fixpoint ci_tail (a b : list Z) : bool :=
  match b with
  | [] => true
  | y :: b' =>
      if negb (Z.lor (rd a 0) 32 =? Z.lor y 32) then false else ci_tail (drop 1 a) b'
  end.

(** [str_ci_eq(a, b, len)] with [len] the length of [b]. *)
Definition str_ci_eq (a b : list Z) : bool :=
  match ci_blocks8 (length b) a b with
  | None => false
  | Some (a1, b1) =>
      if Nat.leb 4 (length b1) then
        if negb (Z.lor (load_u32 a1) kMask4 =? Z.lor (load_u32 b1) kMask4) then false
        else ci_tail (drop 4 a1) (drop 4 b1)
      else ci_tail a1 b1
  end.

(** ** Decimal numbers *)

Inductive uint_result := UOk (v : Z) | UInval | URange.

Fixpoint parse_uint_loop (val : Z) (p : list Z) : uint_result :=
  match p with
  | [] => UOk val
  | c :: p' =>
      let d := u32 (c - ch "0") in
      if 9 <? d then UInval
      else if (4294967295 - d) / 10 <? val then URange
      else parse_uint_loop (u32 (val * 10 + d)) p'
  end.

Definition parse_uint (p : list Z) : uint_result :=
  if Nat.eqb (length p) 0 then UInval else parse_uint_loop 0 p.

(** ** Methods *)

(** The method and the position past it and its space. *)
Definition parse_method_direct (buf : list Z) (e pos : nat) : HttpMethod * nat :=
  let at_ := fun k => rd buf (pos + k) in
  let v4 := load_u32 (drop pos buf) in
  let hi := load_u32 (drop (pos + 4) buf) in
  if Nat.ltb e (pos + 4) then (UnknownMethod, pos)
  else if v4 =? u32_lit "GET " then (GET, (pos + 4)%nat)
  else if v4 =? u32_lit "PUT " then (PUT, (pos + 4)%nat)
  else if Nat.ltb e (pos + 5) then (UnknownMethod, pos)
  else if (v4 =? u32_lit "POST") && (at_ 4%nat =? SP) then (POST, (pos + 5)%nat)
  else if (v4 =? u32_lit "HEAD") && (at_ 4%nat =? SP) then (HEAD, (pos + 5)%nat)
  else if Nat.ltb e (pos + 6) then (UnknownMethod, pos)
  else if (v4 =? u32_lit "PATC") && (at_ 4%nat =? ch "H") && (at_ 5%nat =? SP)
  then (PATCH, (pos + 6)%nat)
  else if (v4 =? u32_lit "TRAC") && (at_ 4%nat =? ch "E") && (at_ 5%nat =? SP)
  then (TRACE, (pos + 6)%nat)
  else if Nat.ltb e (pos + 7) then (UnknownMethod, pos)
  else if (v4 =? u32_lit "DELE") && (at_ 4%nat =? ch "T") && (at_ 5%nat =? ch "E")
          && (at_ 6%nat =? SP)
  then (DELETE, (pos + 7)%nat)
  else if Nat.ltb e (pos + 8) then (UnknownMethod, pos)
  else if (v4 =? u32_lit "OPTI") && (hi =? u32_lit "ONS ") then (OPTIONS, (pos + 8)%nat)
  else if (v4 =? u32_lit "CONN") && (hi =? u32_lit "ECT ") then (CONNECT, (pos + 8)%nat)
  else (UnknownMethod, pos).

Definition kHttp11 : Z := u64_lit "HTTP/1.1".
Definition kHttp10 : Z := u64_lit "HTTP/1.0".
Definition kCRLF : Z := Z.lor CR (Z.shiftl LF 8).

(** ** Semantic headers *)

Definition is_list_sep (c : Z) : bool := (c =? SP) || (c =? HT) || (c =? ch ",").

Fixpoint skip_seps (l : list Z) : list Z :=
  match l with
  | c :: l' => if is_list_sep c then skip_seps l' else l
  | [] => []
  end.

(** The token up to the next separator, and the rest from there. *)
Fixpoint take_token (l : list Z) : list Z * list Z :=
  match l with
  | c :: l' =>
      if is_list_sep c then ([], l)
      else let '(t, r) := take_token l' in (c :: t, r)
  | [] => ([], [])
  end.

(** [match_connection]: what the value does to [keep_alive].  Every round eats
    a token, so the length of the value bounds the rounds. *)
Fixpoint match_connection_loop (fuel : nat) (val : list Z) (ka : bool) : bool :=
  match fuel with
  | O => ka
  | S fuel' =>
      match skip_seps val with
      | [] => ka
      | v =>
          let '(tok, rest) := take_token v in
          if Nat.eqb (length tok) 5 && str_ci_eq tok (bs "close") then false
          else if Nat.eqb (length tok) 10 && str_ci_eq tok (bs "keep-alive")
          then match_connection_loop fuel' rest true
          else match_connection_loop fuel' rest ka
      end
  end.

Definition match_connection (val : list Z) (req : ParsedRequest) : ParsedRequest :=
  set_keep_alive req (match_connection_loop (length val) val (keep_alive req)).

(** The token loop of Transfer-Encoding: is there a [chunked] token? *)
Fixpoint has_chunked_token (fuel : nat) (val : list Z) : bool :=
  match fuel with
  | O => false
  | S fuel' =>
      match skip_seps val with
      | [] => false
      | v =>
          let '(tok, rest) := take_token v in
          if Nat.eqb (length tok) 7 && str_ci_eq tok (bs "chunked") then true
          else has_chunked_token fuel' rest
      end
  end.

Definition apply_semantic_header (name val : list Z) (req : ParsedRequest)
    : ParseStatus * ParsedRequest :=
  let first := Z.lor (rd name 0) 32 in
  let n := length name in
  if first =? ch "c" then
    if Nat.eqb n 14 && str_ci_eq (drop 1 name) (bs "ontent-length") then
      match parse_uint val with
      | UOk cl =>
          if has_content_length req then
            if negb (content_length req =? cl) then (Error, req) else (Complete, req)
          else (Complete, set_content_length req cl)
      | _ => (Error, req)
      end
    else if Nat.eqb n 10 && str_ci_eq (drop 1 name) (bs "onnection") then
      (Complete, match_connection val req)
    else (Complete, req)
  else if first =? ch "t" then
    if Nat.eqb n 17 && str_ci_eq (drop 1 name) (bs "ransfer-encoding") then
      (Complete, if has_chunked_token (length val) val then set_chunked req true else req)
    else (Complete, req)
  else (Complete, req).

(** ** One header line *)

Definition is_ows (c : Z) : bool := (c =? SP) || (c =? HT).

(** [while (pos < len && (buf[pos] == ' ' || buf[pos] == '\t')) pos++] *)
Fixpoint skip_ows (pos : nat) (rest : list Z) : nat :=
  match rest with
  | c :: rest' => if is_ows c then skip_ows (S pos) rest' else pos
  | [] => pos
  end.

(** The inner trailing-OWS loop, down from [value_end]. *)
Fixpoint trim_ows (buf : list Z) (value_start value_end : nat) : nat :=
  match value_end with
  | S k => if Nat.ltb value_start value_end && is_ows (rd buf k)
           then trim_ows buf value_start k else value_end
  | O => O
  end.

(** How an iteration of the header loop ends: the empty line, a header and the
    next position, [return Incomplete], [return Error], or [goto
    maybe_incomplete]. *)
Inductive line_result :=
  | LEnd (pos : nat)
  | LHeader (name value : view) (next : nat)
  | LIncomplete | LError | LMaybe.

Section parser.
Context `{S : Scanners}.

Definition header_line (buf : list Z) (pos : nat) : line_result :=
  let len := length buf in
  if Nat.ltb len (pos + 2) then LIncomplete
  else if rd buf pos =? CR then
    if rd buf (pos + 1) =? LF then LEnd (pos + 2) else LError
  else
    match sc_scan_header_name buf pos len with
    | None => LMaybe
    | Some colon_pos =>
        if Nat.eqb colon_pos pos then LError
        else
          let name := View pos (colon_pos - pos) in
          let pos1 := (colon_pos + 1)%nat in
          if Nat.leb len pos1 then LMaybe
          else
            let pos2 := if rd buf pos1 =? SP then (pos1 + 1)%nat else pos1 in
            let pos3 := skip_ows pos2 (drop pos2 buf) in
            if Nat.leb len pos3 then LMaybe
            else
              let value_start := pos3 in
              match sc_scan_header_value buf pos3 len with
              | None => LError
              | Some cr_pos =>
                  if Nat.leb len cr_pos || Nat.leb len (cr_pos + 1) then LMaybe
                  else if negb (rd buf (cr_pos + 1) =? LF) then LError
                  else
                    let value_end :=
                      if Nat.ltb value_start cr_pos && (rd buf (cr_pos - 1) <=? SP)
                      then trim_ows buf value_start cr_pos else cr_pos in
                    LHeader name (View value_start (value_end - value_start)) (cr_pos + 2)
              end
    end.

(** [maybe_incomplete]: a terminated but malformed head is an error. *)
Definition maybe_incomplete {R} (buf : list Z) (req : R) : parse_out R :=
  if Nat.ltb 0 (sc_find_header_end buf 0) then POut Error 0 req else POut Incomplete 0 req.

(** ** Requests *)

(** The header loop.  [hdrs] are the entries stored so far; an iteration
    consumes at least the name, the colon and CRLF, so the buffer length bounds
    the rounds ([None]: out of fuel). *)
Fixpoint header_loop (fuel : nat) (buf : list Z) (pos : nat) (req : ParsedRequest)
    : option (parse_out ParsedRequest) :=
  match fuel with
  | O => None
  | Datatypes.S fuel' =>
      match header_line buf pos with
      | LIncomplete => Some (POut Incomplete 0 req)
      | LError => Some (POut Error 0 req)
      | LMaybe => Some (maybe_incomplete buf req)
      | LEnd pos' =>
          let req' := set_header_count req (length (headers req)) in
          if chunked req' && has_content_length req' then Some (POut Error pos' req')
          else Some (POut Complete pos' req')
      | LHeader name value next =>
          if Nat.leb kMaxHeaders (length (headers req)) then Some (POut Error 0 req)
          else
            let req1 := set_headers req (headers req ++ [mkHeader name value]) in
            match apply_semantic_header (bytes_of buf name) (bytes_of buf value) req1 with
            | (Error, req2) => Some (POut Error 0 req2)
            | (_, req2) => header_loop fuel' buf next req2
            end
      end
  end.

Definition parse_request_line (buf : list Z) (req0 : ParsedRequest)
    : parse_out ParsedRequest + (nat * ParsedRequest) :=
  let len := length buf in
  if Nat.ltb len 4 then inl (POut Incomplete 0 req0)
  else
    let req := reset req0 in
    let '(m, pos) := parse_method_direct buf len 0 in
    let req := set_method req m in
    match m with
    | UnknownMethod => inl (maybe_incomplete buf req)
    | _ =>
        let uri_start := pos in
        match sc_scan_uri buf pos len with
        | None => inl (POut Error 0 req)
        | Some (uri_end, canon_end) =>
            if Nat.leb len uri_end then inl (maybe_incomplete buf req)
            else if Nat.eqb uri_end uri_start then inl (POut Error 0 req)
            else
              let req := set_path req (Some (View uri_start (uri_end - uri_start))) in
              let req :=
                if rd buf uri_start =? slash then
                  let '(lo, n) := finalize_view (sub buf uri_start (canon_end - uri_start)) in
                  set_path_canon req (Some (View (uri_start + lo) n))
                else req in
              let pos := (uri_end + 1)%nat in
              if Nat.ltb len (pos + 10) then inl (maybe_incomplete buf req)
              else
                let ver := load_u64 (drop pos buf) in
                let crlf_val := load_le 2 (drop (pos + 8) buf) in
                if negb (crlf_val =? kCRLF) then inl (POut Error 0 req)
                else if ver =? kHttp11 then inr ((pos + 10)%nat, set_version req Http11 true)
                else if ver =? kHttp10 then inr ((pos + 10)%nat, set_version req Http10 false)
                else inl (POut Error 0 req)
        end
    end.

Definition parse (buf : list Z) (req0 : ParsedRequest) : option (parse_out ParsedRequest) :=
  match parse_request_line buf req0 with
  | inl out => Some out
  | inr (pos, req) => header_loop (Datatypes.S (length buf)) buf pos req
  end.

End parser.

(** ** Responses *)

Record ParsedResponse := mkParsedResponse {
  r_status_code : Z;
  r_header_count : nat;
  r_headers : list Header;
  r_content_length : Z;
  r_has_content_length : bool;
  r_chunked : bool;
  r_keep_alive : bool;
  r_connection_close : bool
}.

Definition r_reset (resp : ParsedResponse) : ParsedResponse :=
  mkParsedResponse 0 0 [] 0 false false true false.

Definition r_set_keep_alive r b := mkParsedResponse (r_status_code r) (r_header_count r)
  (r_headers r) (r_content_length r) (r_has_content_length r) (r_chunked r) b
  (r_connection_close r).
Definition r_set_close r := mkParsedResponse (r_status_code r) (r_header_count r)
  (r_headers r) (r_content_length r) (r_has_content_length r) (r_chunked r) false true.
Definition r_set_status r c := mkParsedResponse c (r_header_count r)
  (r_headers r) (r_content_length r) (r_has_content_length r) (r_chunked r) (r_keep_alive r)
  (r_connection_close r).
Definition r_set_content_length r n := mkParsedResponse (r_status_code r) (r_header_count r)
  (r_headers r) n true (r_chunked r) (r_keep_alive r) (r_connection_close r).
Definition r_set_chunked r := mkParsedResponse (r_status_code r) (r_header_count r)
  (r_headers r) (r_content_length r) (r_has_content_length r) true (r_keep_alive r)
  (r_connection_close r).
Definition r_set_headers r h := mkParsedResponse (r_status_code r) (r_header_count r)
  h (r_content_length r) (r_has_content_length r) (r_chunked r) (r_keep_alive r)
  (r_connection_close r).
Definition r_set_header_count r n := mkParsedResponse (r_status_code r) n
  (r_headers r) (r_content_length r) (r_has_content_length r) (r_chunked r) (r_keep_alive r)
  (r_connection_close r).

Fixpoint match_connection_response (fuel : nat) (val : list Z) (resp : ParsedResponse)
    : ParsedResponse :=
  match fuel with
  | O => resp
  | S fuel' =>
      match skip_seps val with
      | [] => resp
      | v =>
          let '(tok, rest) := take_token v in
          if Nat.eqb (length tok) 5 && str_ci_eq tok (bs "close") then r_set_close resp
          else if Nat.eqb (length tok) 10 && str_ci_eq tok (bs "keep-alive")
          then match_connection_response fuel' rest (r_set_keep_alive resp true)
          else match_connection_response fuel' rest resp
      end
  end.

Definition apply_semantic_header_response (name val : list Z) (resp : ParsedResponse)
    : ParseStatus * ParsedResponse :=
  let first := Z.lor (rd name 0) 32 in
  let n := length name in
  if first =? ch "c" then
    if Nat.eqb n 14 && str_ci_eq (drop 1 name) (bs "ontent-length") then
      match parse_uint val with
      | UOk cl =>
          if r_has_content_length resp then
            if negb (r_content_length resp =? cl) then (Error, resp) else (Complete, resp)
          else (Complete, r_set_content_length resp cl)
      | _ => (Error, resp)
      end
    else if Nat.eqb n 10 && str_ci_eq (drop 1 name) (bs "onnection") then
      (Complete, match_connection_response (length val) val resp)
    else (Complete, resp)
  else if first =? ch "t" then
    if Nat.eqb n 17 && str_ci_eq (drop 1 name) (bs "ransfer-encoding") then
      (Complete, if has_chunked_token (length val) val then r_set_chunked resp else resp)
    else (Complete, resp)
  else (Complete, resp).

(** [while (scan < len && buf[scan] != '\r') scan++] *)
Fixpoint scan_cr (pos : nat) (rest : list Z) : nat :=
  match rest with
  | c :: rest' => if c =? CR then pos else scan_cr (S pos) rest'
  | [] => pos
  end.

Section response_parser.
Context `{S : Scanners}.

(** An iteration of the response header loop reads a line as the request loop
    does. *)
Definition response_header_line (buf : list Z) (pos : nat) : line_result := header_line buf pos.

Fixpoint response_header_loop (fuel : nat) (buf : list Z) (pos : nat) (resp : ParsedResponse)
    : option (parse_out ParsedResponse) :=
  match fuel with
  | O => None
  | Datatypes.S fuel' =>
      match response_header_line buf pos with
      | LIncomplete => Some (POut Incomplete 0 resp)
      | LError => Some (POut Error 0 resp)
      | LMaybe => Some (maybe_incomplete buf resp)
      | LEnd pos' =>
          Some (POut Complete pos' (r_set_header_count resp (length (r_headers resp))))
      | LHeader name value next =>
          let resp1 :=
            if Nat.ltb (length (r_headers resp)) kMaxHeaders
            then r_set_headers resp (r_headers resp ++ [mkHeader name value]) else resp in
          match apply_semantic_header_response (bytes_of buf name) (bytes_of buf value) resp1 with
          | (Error, resp2) => Some (POut Error 0 resp2)
          | (_, resp2) => response_header_loop fuel' buf next resp2
          end
      end
  end.

Definition parse_status_line (buf : list Z) (resp0 : ParsedResponse)
    : parse_out ParsedResponse + (nat * ParsedResponse) :=
  let len := length buf in
  if Nat.ltb len 12 then inl (POut Incomplete 0 resp0)
  else
    let resp := r_reset resp0 in
    if Nat.ltb len 10 then inl (POut Incomplete 0 resp)
    else
    let kHttpSlash1Dot := Z.land (u64_lit "HTTP/1.0") 72057594037927935 in
    if negb (Z.land (load_u64 buf) 72057594037927935 =? kHttpSlash1Dot)
    then inl (POut Error 0 resp)
    else
      let ver_digit := rd buf 7 in
      if (ver_digit =? ch "1") || (ver_digit =? ch "0") then
        let resp := r_set_keep_alive resp (ver_digit =? ch "1") in
        if negb (rd buf 8 =? SP) then inl (POut Error 0 resp)
        else
          let pos := 9%nat in
          if Nat.ltb len (pos + 3) then inl (POut Incomplete 0 resp)
          else
            let d0 := u32 (rd buf pos - ch "0") in
            let d1 := u32 (rd buf (pos + 1) - ch "0") in
            let d2 := u32 (rd buf (pos + 2) - ch "0") in
            if (9 <? d0) || (9 <? d1) || (9 <? d2) then inl (POut Error 0 resp)
            else
              let code := u16 (d0 * 100 + d1 * 10 + d2) in
              if (code <? 100) || (599 <? code) then inl (POut Error 0 resp)
              else
                let resp := r_set_status resp code in
                let pos := 12%nat in
                if Nat.leb len pos then inl (POut Incomplete 0 resp)
                else
                  let scan := scan_cr pos (drop pos buf) in
                  if Nat.leb len (scan + 1) then inl (POut Incomplete 0 resp)
                  else if negb (rd buf (scan + 1) =? LF) then inl (POut Error 0 resp)
                  else inr ((scan + 2)%nat, resp)
      else inl (POut Error 0 resp).

Definition parse_response (buf : list Z) (resp0 : ParsedResponse)
    : option (parse_out ParsedResponse) :=
  match parse_status_line buf resp0 with
  | inl out => Some out
  | inr (pos, resp) => response_header_loop (Datatypes.S (length buf)) buf pos resp
  end.

End response_parser.

Definition http_method_str (m : HttpMethod) : list Z :=
  match m with
  | GET => bs "GET" | POST => bs "POST" | PUT => bs "PUT" | DELETE => bs "DELETE"
  | PATCH => bs "PATCH" | HEAD => bs "HEAD" | OPTIONS => bs "OPTIONS"
  | CONNECT => bs "CONNECT" | TRACE => bs "TRACE" | UnknownMethod => bs "UNKNOWN"
  end.

Definition req0 : ParsedRequest :=
  mkParsedRequest UnknownMethod None None UnknownVersion [] 0 0 false false false.

Example parse_ex1 :
  match parse (S := sse2_scanners) (bs "GET /a/b/?q=1 HTTP/1.1" ++ CRLF ++ bs "Host:  x " ++ CRLF ++
    bs "Content-Length: 12" ++ CRLF ++ CRLF ++ bs "body") req0 with
  | Some o => po_status o = Complete /\ po_header_end o = 57%nat /\ content_length (po_req o) = 12 /\
     path_canon (po_req o) = Some (View 5 3)
  | None => False
  end.
Proof. vm_compute. split_and!; reflexivity. Qed.

(** ** Scanner instances *)

#[export] Instance scalar_ok : ScannersOk scalar_scanners.
Proof. by split. Qed.

#[export] Instance sse2_ok : ScannersOk sse2_scanners.
Proof.
  split; intros; cbn.
  - apply find_blocks_scalar.
  - apply value_blocks_scalar; [done | by apply value_bad_biased_ok | by apply Forall_sub].
  - apply uri_blocks_top; [done | by apply uri_bad_signed_ok | done | by apply Forall_sub].
  - apply name_blocks_scalar.
Qed.

#[export] Instance avx2_ok : ScannersOk avx2_scanners.
Proof.
  split; intros; cbn.
  - unfold avx2_find_header_end. etrans; [|apply (find_blocks_scalar 32 (length buf))].
    destruct (find_blocks 32 _ _ _) as [|[p r]]; [done|]. apply find_blocks_scalar.
  - apply value_blocks_scalar; [done | by apply value_bad_biased_ok | by apply Forall_sub].
  - apply uri_blocks_top; [done | by apply uri_bad_signed_ok | done | by apply Forall_sub].
  - apply name_blocks_scalar.
Qed.

Lemma below64_ok k : (k < 64)%nat -> below64 k = below k.
Proof. intros Hk. unfold below64. by rewrite (proj2 (Nat.ltb_lt _ _) Hk). Qed.

#[export] Instance avx512_ok : ScannersOk avx512_scanners.
Proof.
  split; intros; cbn.
  - apply find_blocks_scalar.
  - apply value_blocks_scalar;
      [apply below64_ok | by apply value_bad_avx512_ok | by apply Forall_sub].
  - apply uri_blocks_top; [apply below64_ok | by apply uri_bad_avx512_ok |
      apply uri_qf_avx512_ok | by apply Forall_sub].
  - apply name_blocks_scalar.
Qed.

(** ** Loads *)

Lemma load_le_nil n : load_le n [] = 0.
Proof. by destruct n. Qed.

Lemma load_le_nonneg n l : Forall is_byte l -> 0 <= load_le n l.
Proof.
  revert n. induction l as [|b l IH]; intros [|n] H; cbn [load_le]; try lia.
  apply Forall_cons in H as [Hb H]. apply Z.lor_nonneg. split; [apply Hb|].
  apply Z.shiftl_nonneg. auto.
Qed.

Lemma byte_testbit b i : is_byte b -> 8 <= i -> Z.testbit b i = false.
Proof.
  intros [H0 H1] Hi. rewrite <- (Z.mod_small b (2 ^ 8)) by lia.
  by apply Z.mod_pow2_bits_high.
Qed.

Lemma load_cons_inj b b' x x' :
  is_byte b -> is_byte b' -> Z.lor b (Z.shiftl x 8) = Z.lor b' (Z.shiftl x' 8) ->
  b = b' /\ x = x'.
Proof.
  intros Hb Hb' H. split; apply Z.bits_inj'; intros n Hn.
  - destruct (Z_lt_le_dec n 8).
    + apply (f_equal (fun z => Z.testbit z n)) in H.
      rewrite !Z.lor_spec, !Z.shiftl_spec, !(Z.testbit_neg_r _ (n - 8)) in H by lia.
      by rewrite !orb_false_r in H.
    + by rewrite !byte_testbit.
  - apply (f_equal (fun z => Z.testbit z (n + 8))) in H.
    rewrite !Z.lor_spec, !Z.shiftl_spec in H by lia.
    rewrite !(byte_testbit _ (n + 8)) in H by (done || lia). cbn in H.
    by replace (n + 8 - 8) with n in H by lia.
Qed.

Lemma load_le_inj n a b :
  Forall is_byte a -> Forall is_byte b -> length a = n -> length b = n ->
  load_le n a = load_le n b -> a = b.
Proof.
  revert a b. induction n as [|n IH]; intros [|x a] [|y b] Ha Hb Hla Hlb; try done.
  cbn [load_le]. intros H. apply Forall_cons in Ha as [? ?]. apply Forall_cons in Hb as [? ?].
  apply load_cons_inj in H as [-> H]; [|done..]. f_equal. apply IH; cbn in *; auto with lia.
Qed.

Lemma load_le_take n l : load_le n (take n l) = load_le n l.
Proof. revert l. induction n as [|n IH]; intros [|b l]; cbn; try done. by rewrite IH. Qed.

Lemma load_le_or n l :
  length l = n ->
  Z.lor (load_le n l) (load_le n (replicate n 32)) = load_le n ((fun b => Z.lor b 32) <$> l).
Proof.
  revert l. induction n as [|n IH]; intros [|b l] H; try done.
  cbn [replicate load_le fmap list_fmap]. change (list_fmap Z Z) with (@fmap list _ Z Z).
  rewrite <- IH by (cbn in H; lia). rewrite Z.shiftl_lor.
  rewrite !Z.lor_assoc. f_equal. rewrite <- !Z.lor_assoc. f_equal. apply Z.lor_comm.
Qed.

Lemma byte_or32 b : is_byte b -> is_byte (Z.lor b 32).
Proof.
  intros Hb. pose proof (byte_forall (fun b => (0 <=? Z.lor b 32) && (Z.lor b 32 <? 256))
    ltac:(vm_compute; reflexivity) b Hb) as H. cbv beta in H. zify_bool. by split.
Qed.

(** Two loads or-ed with the case mask agree exactly when the bytes do. *)
Lemma load_mask_eq n a b :
  Forall is_byte a -> Forall is_byte b -> length a = n -> length b = n ->
  (Z.lor (load_le n a) (load_le n (replicate n 32)) =?
   Z.lor (load_le n b) (load_le n (replicate n 32))) =
  bool_decide (Forall2 (fun x y => Z.lor x 32 = Z.lor y 32) a b).
Proof.
  intros Ha Hb Hla Hlb. rewrite !load_le_or by done.
  assert (forall l, Forall is_byte l -> Forall is_byte ((fun b => Z.lor b 32) <$> l)) as Hm.
  { intros l Hl. apply Forall_fmap. eapply Forall_impl; [done|]. apply byte_or32. }
  case_bool_decide as H.
  - apply Z.eqb_eq. f_equal. clear Hla Hlb. clear -H. induction H; cbn; congruence.
  - apply Z.eqb_neq. intros Heq. apply H.
    apply load_le_inj in Heq; [|auto|auto|by rewrite length_fmap..].
    clear -Heq. revert b Heq. induction a as [|x a IH]; intros [|y b] Heq; try done.
    injection Heq as ? ?. constructor; auto.
Qed.

(** ** [str_ci_eq] *)

Definition ci_bytes (a b : list Z) : Prop := Forall2 (fun x y => Z.lor x 32 = Z.lor y 32) a b.

Lemma ci_tail_spec a b : length a = length b -> ci_tail a b = true <-> ci_bytes a b.
Proof.
  unfold ci_bytes. revert a. induction b as [|y b IH]; intros [|x a] H; try done; cbn [ci_tail].
  unfold rd. cbn [nth drop].
  destruct (Z.eqb_spec (Z.lor x 32) (Z.lor y 32)) as [E|E]; cbn [negb].
  - rewrite drop_0, IH by (cbn in H; lia). rewrite Forall2_cons. tauto.
  - split; [done|]. intros Hf. by apply Forall2_cons in Hf as [? _].
Qed.

Lemma ci_bytes_split k a b :
  length a = length b ->
  ci_bytes a b <-> ci_bytes (take k a) (take k b) /\ ci_bytes (drop k a) (drop k b).
Proof.
  intros Hl. unfold ci_bytes. rewrite <- (take_drop k a) at 1. rewrite <- (take_drop k b) at 1.
  split.
  - intros H. apply Forall2_app_inv in H; [done|]. rewrite !length_take. lia.
  - intros [? ?]. by apply Forall2_app.
Qed.

Lemma ci_block_spec n a b :
  Forall is_byte a -> Forall is_byte b -> length a = length b -> (n <= length b)%nat ->
  (Z.lor (load_le n a) (load_le n (replicate n 32)) =?
   Z.lor (load_le n b) (load_le n (replicate n 32))) = true <-> ci_bytes (take n a) (take n b).
Proof.
  intros Ha Hb Hl Hn. rewrite <- (load_le_take n a), <- (load_le_take n b).
  rewrite load_mask_eq.
  - apply bool_decide_eq_true.
  - by apply Forall_take.
  - by apply Forall_take.
  - rewrite length_take. lia.
  - rewrite length_take. lia.
Qed.

Lemma ci_blocks8_spec fuel a b :
  Forall is_byte a -> Forall is_byte b -> length a = length b ->
  match ci_blocks8 fuel a b with
  | None => ~ ci_bytes a b
  | Some (a', b') => Forall is_byte a' /\ Forall is_byte b' /\ length a' = length b' /\
      (ci_bytes a b <-> ci_bytes a' b')
  end.
Proof.
  revert a b. induction fuel as [|fuel IH]; intros a b Ha Hb Hl; cbn [ci_blocks8]; [done|].
  destruct (Nat.leb_spec 8 (length b)) as [H8|]; [|done].
  unfold load_u64. change kMask8 with (load_le 8 (replicate 8 32)).
  pose proof (ci_block_spec 8 a b Ha Hb Hl H8) as Hblk.
  pose proof (ci_bytes_split 8 a b Hl) as Hsp.
  destruct (_ =? _); cbn [negb].
  - specialize (IH (drop 8 a) (drop 8 b)). rewrite !length_drop in IH.
    destruct (ci_blocks8 fuel (drop 8 a) (drop 8 b)) as [[a' b']|].
    + destruct IH as (? & ? & ? & IH); [by apply Forall_drop.. | lia |].
      split_and!; try done. rewrite Hsp, IH. tauto.
    + rewrite Hsp. intros [_ ?]. apply IH; try done; [by apply Forall_drop.. | lia].
  - rewrite Hsp, <- Hblk. naive_solver.
Qed.

Lemma str_ci_eq_bytes a b :
  Forall is_byte a -> Forall is_byte b -> length a = length b ->
  str_ci_eq a b = true <-> ci_bytes a b.
Proof.
  intros Ha Hb Hl. unfold str_ci_eq.
  pose proof (ci_blocks8_spec (length b) a b Ha Hb Hl) as Hs.
  destruct (ci_blocks8 (length b) a b) as [[a' b']|]; [|naive_solver].
  destruct Hs as (Ha' & Hb' & Hl' & ->).
  destruct (Nat.leb_spec 4 (length b')) as [H4|].
  - unfold load_u32. change kMask4 with (load_le 4 (replicate 4 32)).
    pose proof (ci_block_spec 4 a' b' Ha' Hb' Hl' H4) as Hblk.
    rewrite (ci_bytes_split 4 a' b' Hl'), <- Hblk.
    destruct (_ =? _); cbn [negb].
    + rewrite ci_tail_spec by (rewrite !length_drop; lia). tauto.
    + naive_solver.
  - by apply ci_tail_spec.
Qed.

(** Letters and the hyphen are what the compared names are made of. *)
Definition name_lower (y : Z) : bool := ((ch "a" <=? y) && (y <=? ch "z")) || (y =? ch "-").

Lemma or32_fold x y :
  is_byte x -> is_http_tchar x = true -> name_lower y = true ->
  Z.lor x 32 = Z.lor y 32 <-> tolower x = tolower y.
Proof.
  intros Hx Ht Hy. assert (is_byte y) as Hyb.
  { unfold name_lower in Hy. change (ch "a") with 97 in Hy. change (ch "z") with 122 in Hy.
    change (ch "-") with 45 in Hy. unfold is_byte. apply orb_true_iff in Hy.
    destruct Hy; zify_bool; lia. }
  rewrite <- !Z.eqb_eq.
  pose proof (byte_forall (fun x => forallb (fun n => let y := Z.of_nat n in
     implb (is_http_tchar x && name_lower y)
       (Bool.eqb (Z.lor x 32 =? Z.lor y 32) (tolower x =? tolower y))) (seq 0 256))
     ltac:(vm_compute; reflexivity) x Hx) as H.
  cbv beta in H. rewrite forallb_forall in H. specialize (H (Z.to_nat y)).
  unfold is_byte in Hyb. rewrite in_seq in H. specialize (H ltac:(lia)).
  cbv zeta in H. rewrite Z2Nat.id, Ht, Hy in H by lia. cbn in H.
  apply Bool.eqb_prop in H. by rewrite H.
Qed.

Lemma str_ci_eq_fold a b :
  Forall is_byte a -> Forall (fun x => is_http_tchar x = true) a ->
  Forall (fun y => name_lower y = true) b -> length a = length b ->
  str_ci_eq a b = true <-> tolower <$> a = tolower <$> b.
Proof.
  intros Ha Ht Hb Hl.
  assert (Forall is_byte b) as Hbb.
  { eapply Forall_impl; [done|]. intros y Hy. cbv beta in Hy. unfold name_lower in Hy.
    change (ch "a") with 97 in Hy. change (ch "z") with 122 in Hy.
    change (ch "-") with 45 in Hy. unfold is_byte. apply orb_true_iff in Hy.
    destruct Hy; zify_bool; lia. }
  rewrite str_ci_eq_bytes by done. unfold ci_bytes. clear Hbb.
  revert b Hb Hl. induction a as [|x a IH]; intros [|y b] Hb Hl; try done.
  apply Forall_cons in Ha as [Hx Ha]. apply Forall_cons in Ht as [Htx Ht].
  apply Forall_cons in Hb as [Hy Hb]. rewrite Forall2_cons, (or32_fold x y), IH; auto.
  cbn. split; [intros [-> ->]; done | intros H; injection H; auto].
Qed.

(** ** Decimal numbers *)

Definition is_dec (c : Z) : Prop := ch "0" <= c <= ch "9".

Definition dec_value (acc : Z) (p : list Z) : Z :=
  foldl (fun a c => a * 10 + (c - ch "0")) acc p.

Lemma dec_value_lower acc p : 0 <= acc -> Forall is_dec p -> acc <= dec_value acc p.
Proof.
  intros Hacc Hp. revert acc Hacc. induction Hp as [|c p Hc _ IH]; intros acc Hacc; cbn; [lia|].
  unfold is_dec in Hc. specialize (IH (acc * 10 + (c - ch "0"))). unfold dec_value in IH. lia.
Qed.

Lemma parse_uint_loop_spec val p v :
  0 <= val < 2 ^ 32 -> Forall is_byte p ->
  parse_uint_loop val p = UOk v <->
  Forall is_dec p /\ dec_value val p = v /\ v < 2 ^ 32.
Proof.
  intros Hval Hp. revert val Hval. induction Hp as [|c p Hc _ IH]; intros val Hval;
    cbn [parse_uint_loop dec_value foldl].
  { split; [intros H; injection H as <-; split_and!; auto; lia | intros (_ & <- & _); done]. }
  change (ch "0") with 48 in *. unfold is_byte in Hc.
  assert ((48 <= c /\ u32 (c - 48) = c - 48) \/ (c < 48 /\ 9 < u32 (c - 48))) as Hd.
  { destruct (Z_lt_le_dec c 48); [right|left; split; [done | apply u32_small; lia]].
    split; [done|].
    unfold u32, wrap. change (2 ^ 32) with 4294967296.
    rewrite <- (Z.mod_unique_pos (c - 48) 4294967296 (-1) (c - 48 + 4294967296)); lia. }
  rewrite Forall_cons. change (is_dec c) with (48 <= c <= 57). change (2 ^ 32) with 4294967296 in *.
  destruct (9 <? u32 (c - 48)) eqn:E9.
  { zify_bool. split; [done|]. intros ([Hdig _] & _). destruct Hd as [[_ Hd]|[? _]]; [|lia].
    rewrite Hd in E9. lia. }
  zify_bool. destruct Hd as [[H48 Hd]|[_ ?]]; [|lia]. rewrite Hd in *.
  destruct (_ <? val) eqn:Er; zify_bool.
  - split; [done|]. intros ([Hdig Hps] & Hv & Hlt).
    pose proof (dec_value_lower (val * 10 + (c - 48)) p ltac:(lia) Hps) as Hlow.
    unfold dec_value in Hlow. change (ch "0") with 48 in Hlow. exfalso.
    assert (4294967295 < val * 10 + (c - 48)); [|lia].
    pose proof (Z.div_mod (4294967295 - (c - 48)) 10 ltac:(lia)).
    pose proof (Z.mod_pos_bound (4294967295 - (c - 48)) 10 ltac:(lia)). lia.
  - assert (val * 10 + (c - 48) < 4294967296).
    { pose proof (Z.div_mod (4294967295 - (c - 48)) 10 ltac:(lia)).
      pose proof (Z.mod_pos_bound (4294967295 - (c - 48)) 10 ltac:(lia)). lia. }
    rewrite u32_small by lia. rewrite IH by lia. unfold dec_value.
    split; [intros (? & ? & ?) | intros ([? ?] & ? & ?)]; split_and!; auto; lia.
Qed.

Lemma parse_uint_iff p v :
  Forall is_byte p ->
  parse_uint p = UOk v <-> p <> [] /\ Forall is_dec p /\ dec_value 0 p = v /\ v < 2 ^ 32.
Proof.
  intros Hp. unfold parse_uint. destruct p as [|c p]; cbn [length Nat.eqb].
  - split; [done | by intros [? _]].
  - rewrite parse_uint_loop_spec by (done || lia). naive_solver.
Qed.

(** ** Back ends *)

Section backend.
Context (Sc : Scanners) {HS : ScannersOk Sc} (buf : list Z).
Hypothesis (Hbuf : Forall is_byte buf).

Lemma header_line_scalar pos :
  header_line (S := Sc) buf pos = header_line (S := scalar_scanners) buf pos.
Proof.
  unfold header_line. rewrite ok_scan_header_name by done. cbn [sc_scan_header_name scalar_scanners].
  destruct (scan_header_name buf pos (length buf)); [|done].
  rewrite ok_scan_header_value by done. done.
Qed.

Lemma maybe_incomplete_scalar {R} (req : R) :
  maybe_incomplete (S := Sc) buf req = maybe_incomplete (S := scalar_scanners) buf req.
Proof. unfold maybe_incomplete. by rewrite ok_find_header_end. Qed.

Lemma header_loop_scalar fuel pos req :
  header_loop (S := Sc) fuel buf pos req = header_loop (S := scalar_scanners) fuel buf pos req.
Proof.
  revert pos req. induction fuel as [|fuel IH]; intros pos req; cbn [header_loop]; [done|].
  rewrite header_line_scalar, maybe_incomplete_scalar.
  destruct (header_line buf pos); try done. case_if; [done|].
  destruct (apply_semantic_header _ _ _) as [[] ?]; try done; apply IH.
Qed.

Lemma parse_scalar req :
  parse (S := Sc) buf req = parse (S := scalar_scanners) buf req.
Proof.
  unfold parse, parse_request_line. case_if; [done|].
  destruct (parse_method_direct _ _ _) as [m pos]. rewrite !maybe_incomplete_scalar.
  rewrite ok_scan_uri by done. cbn [sc_scan_uri scalar_scanners].
  destruct m; try done; destruct (scan_uri buf pos (length buf)) as [[ue ce]|]; try done;
    rewrite !maybe_incomplete_scalar; repeat (case_if; try done); apply header_loop_scalar.
Qed.

Lemma response_header_loop_scalar fuel pos resp :
  response_header_loop (S := Sc) fuel buf pos resp =
  response_header_loop (S := scalar_scanners) fuel buf pos resp.
Proof.
  revert pos resp. induction fuel as [|fuel IH]; intros pos resp; cbn [response_header_loop]; [done|].
  unfold response_header_line. rewrite header_line_scalar, maybe_incomplete_scalar.
  destruct (header_line buf pos); try done.
  destruct (apply_semantic_header_response _ _ _) as [[] ?]; try done; apply IH.
Qed.

Lemma parse_response_scalar resp :
  parse_response (S := Sc) buf resp = parse_response (S := scalar_scanners) buf resp.
Proof.
  unfold parse_response.
  destruct (parse_status_line buf resp) as [|[pos r]]; [done|]. apply response_header_loop_scalar.
Qed.
End backend.
