(* ===== verification/SimdArm.v ===== *)
(** * Byte scanners of the ARM back ends

    Model of src/runtime/simd/neon.cc and sve.cc.  NEON has no movemask: the
    narrowing shift of [neon_movemask] packs sixteen 0xFF/0x00 lanes into a
    64-bit mask with four bits per lane, and the scanners divide the position
    of the first set bit by four.  SVE runs every block under a predicate, so
    that there is no tail, and falls back to a scalar window when a block has
    something to report.  Both compute what the scalar scanners do, the SVE
    ones for every vector length, and so discharge the scanner interface of
    the parsers. *)

From S2P Require Import Prelude HeaderValidation Simd HttpParser.

(** ** NEON vectors

    A [uint8x16_t] is the list of its lanes, unsigned bytes; a comparison
    yields 0xFF or 0x00 per lane. *)

Definition lane (b : bool) : Z := if b then 255 else 0.

Definition vceqq_u8 (v : list Z) (c : Z) : list Z := (fun b => lane (b =? c)) <$> v.
Definition vcltq_u8 (v : list Z) (c : Z) : list Z := (fun b => lane (b <? c)) <$> v.
Definition vcgeq_u8 (v : list Z) (c : Z) : list Z := (fun b => lane (c <=? b)) <$> v.
Definition vorrq_u8 : list Z -> list Z -> list Z := zip_with Z.lor.
(** [a AND NOT b]. *)
Definition vbicq_u8 : list Z -> list Z -> list Z := zip_with Z.ldiff.

(** [vmaxvq_u8(v) != 0]. *)
Definition neon_any (v : list Z) : bool := negb (fold_right Z.max 0 v =? 0).

(** Adjacent bytes read as one little-endian 16-bit lane. *)
Fixpoint vreinterpretq_u16_u8 (v : list Z) : list Z :=
  match v with
  | lo :: hi :: v' => (lo + 256 * hi) :: vreinterpretq_u16_u8 v'
  | _ => []
  end.

(** Shift each 16-bit lane right and keep its low byte. *)
Definition vshrn_n_u16 (v : list Z) (n : Z) : list Z :=
  (fun x => Z.land (Z.shiftr x n) 255) <$> v.

Definition neon_movemask (v : list Z) : Z :=
  let v16 := vreinterpretq_u16_u8 v in
  let narrowed := vshrn_n_u16 v16 4 in
  load_u64 narrowed.

(** [ctzll(mask) >> 2]: the byte a set nibble stands for. *)
Definition mask_byte (m : Z) : nat := Nat.div (ctz m) 4.

(** [k == 0 ? 0 : (1ULL << (k * 4)) - 1]. *)
Definition pre_nibbles (k : nat) : Z :=
  if Nat.eqb k 0 then 0 else Z.shiftl 1 (Z.of_nat (k * 4)) - 1.

(** ** NEON scanners *)

Definition at_terminator (s : list Z) : bool :=
  (rd s 0 =? CR) && (rd s 1 =? LF) && (rd s 2 =? CR) && (rd s 3 =? LF).

(** [for (i = 0; i < 16 && pos + i + 3 < len; i++)]. *)
Fixpoint neon_find_window (n pos : nat) (rest : list Z) : option nat :=
  match n with
  | O => None
  | S n' =>
      if Nat.ltb 3 (length rest) then
        if at_terminator rest then Some (pos + 4)%nat
        else neon_find_window n' (S pos) (tail rest)
      else None
  end.

Fixpoint neon_find_blocks (fuel pos : nat) (rest : list Z) : nat :=
  match fuel with
  | O => find_header_end_loop pos rest
  | S fuel' =>
      if Nat.leb 16 (length rest) then
        let cmp := vceqq_u8 (take 16 rest) CR in
        match (if neon_any cmp then neon_find_window 16 pos rest else None) with
        | Some r => r
        | None => neon_find_blocks fuel' (pos + 16) (drop 16 rest)
        end
      else find_header_end_loop pos rest
  end.

Definition neon_find_header_end (buf : list Z) (from : nat) : nat :=
  let start := find_start from in
  neon_find_blocks (length buf) start (drop start buf).

Fixpoint neon_value_blocks (e fuel pos : nat) (rest : list Z) : option nat :=
  match fuel with
  | O => scan_header_value_loop e pos rest
  | S fuel' =>
      if Nat.leb 16 (length rest) then
        let chunk := take 16 rest in
        let cr_match := vceqq_u8 chunk CR in
        let lt20 := vcltq_u8 chunk 32 in
        let is_ht := vceqq_u8 chunk 9 in
        let bad_ctl := vbicq_u8 lt20 is_ht in
        let is_del := vceqq_u8 chunk 127 in
        let bad := vorrq_u8 bad_ctl is_del in
        let cr_mask := neon_movemask cr_match in
        let bad_mask := neon_movemask bad in
        if negb (cr_mask =? 0) then
          let cr_byte := mask_byte cr_mask in
          let real_bad := Z.land (Z.land bad_mask (pre_nibbles cr_byte)) (Z.lnot cr_mask) in
          if negb (real_bad =? 0) then None else Some (pos + cr_byte)%nat
        else if negb (bad_mask =? 0) then None
        else neon_value_blocks e fuel' (pos + 16) (drop 16 rest)
      else scan_header_value_loop e pos rest
  end.

Definition neon_scan_header_value (buf : list Z) (pos e : nat) : option nat :=
  let rest := sub buf pos (e - pos) in
  neon_value_blocks e (length rest) pos rest.

Fixpoint neon_uri_blocks (e fuel pos canon_end : nat) (rest : list Z) : option (nat * nat) :=
  match fuel with
  | O => scan_uri_loop e pos canon_end rest
  | S fuel' =>
      if Nat.leb 16 (length rest) then
        let chunk := take 16 rest in
        let sp_match := vceqq_u8 chunk SP in
        let high := vcgeq_u8 chunk 128 in
        let bad := vorrq_u8 (vorrq_u8 (vcltq_u8 chunk 33) (vceqq_u8 chunk 127)) high in
        let qf_match := vorrq_u8 (vceqq_u8 chunk (ch "?")) (vceqq_u8 chunk (ch "#")) in
        let sp_mask := neon_movemask sp_match in
        let bad_mask := neon_movemask bad in
        let qf_mask := neon_movemask qf_match in
        if negb (sp_mask =? 0) then
          let sp_byte := mask_byte sp_mask in
          let pre_sp_nibbles := pre_nibbles sp_byte in
          let real_bad := Z.land (Z.land bad_mask pre_sp_nibbles) (Z.lnot sp_mask) in
          if negb (real_bad =? 0) then None
          else
            let canon_end' :=
              if Nat.eqb canon_end e then
                let qf_before_sp := Z.land qf_mask pre_sp_nibbles in
                if negb (qf_before_sp =? 0) then (pos + mask_byte qf_before_sp)%nat
                else (pos + sp_byte)%nat
              else canon_end in
            Some ((pos + sp_byte)%nat, canon_end')
        else if negb (bad_mask =? 0) then None
        else
          let canon_end' :=
            if negb (qf_mask =? 0) && Nat.eqb canon_end e
            then (pos + mask_byte qf_mask)%nat else canon_end in
          neon_uri_blocks e fuel' (pos + 16) canon_end' (drop 16 rest)
      else scan_uri_loop e pos canon_end rest
  end.

Definition neon_scan_uri (buf : list Z) (pos e : nat) : option (nat * nat) :=
  let rest := sub buf pos (e - pos) in
  neon_uri_blocks e (length rest) pos e rest.

(** A scalar window over the first [n] bytes of [rest]; [None]: the loop ran
    to its end. *)
Fixpoint name_window (n pos : nat) (rest : list Z) : option (option nat) :=
  match n, rest with
  | S n', b :: rest' =>
      if b =? ch ":" then Some (Some pos)
      else if negb (in_table kTokenTable b) then Some None
      else name_window n' (S pos) rest'
  | _, _ => None
  end.

Fixpoint neon_name_blocks (fuel pos : nat) (rest : list Z) : option nat :=
  match fuel with
  | O => scan_header_name_loop pos rest
  | S fuel' =>
      if Nat.leb 16 (length rest) then
        let chunk := take 16 rest in
        let cmp := vceqq_u8 chunk (ch ":") in
        match (if neon_any cmp then name_window 16 pos rest else None) with
        | Some r => r
        | None =>
            if forallb (in_table kTokenTable) chunk
            then neon_name_blocks fuel' (pos + 16) (drop 16 rest)
            else None
        end
      else scan_header_name_loop pos rest
  end.

Definition neon_scan_header_name (buf : list Z) (pos e : nat) : option nat :=
  let rest := sub buf pos (e - pos) in
  neon_name_blocks (length rest) pos rest.

(** ** SVE vectors

    [vl] is [svcntb()], the vector length in bytes, fixed by the machine.  A
    predicate is one boolean per lane; a load fills the inactive lanes with
    zero without touching memory, and a comparison or a [_z] operation is
    false there. *)

Section sve.
Context (vl : nat).

(** [svwhilelt_b8(0, remaining)], and [svwhilelt_b8(pos, len)] with
    [remaining = len - pos]. *)
Definition svwhilelt_b8 (remaining : nat) : list bool :=
  (fun i => Nat.ltb i remaining) <$> seq 0 vl.

Definition svld1_u8 (pred : list bool) (mem : list Z) : list Z :=
  imap (fun i (p : bool) => if p then rd mem i else 0) pred.

Definition svcmp (f : Z -> bool) (pred : list bool) (v : list Z) : list bool :=
  zip_with (fun p b => p && f b) pred v.
Definition svcmpeq (pred : list bool) (v : list Z) (c : Z) : list bool := svcmp (fun b => b =? c) pred v.
Definition svcmplt (pred : list bool) (v : list Z) (c : Z) : list bool := svcmp (fun b => b <? c) pred v.
Definition svcmpge (pred : list bool) (v : list Z) (c : Z) : list bool := svcmp (fun b => c <=? b) pred v.
Definition svorr_z (pred a b : list bool) : list bool :=
  zip_with andb pred (zip_with orb a b).
Definition svbic_z (pred a b : list bool) : list bool :=
  zip_with andb pred (zip_with (fun x y => x && negb y) a b).
Definition svptest_any (pred a : list bool) : bool :=
  existsb id (zip_with andb pred a).

(** ** SVE scanners *)

(** [for (i = 0; i < check_len; i++)]: a position too close to the end is
    skipped, not an exit. *)
Fixpoint sve_find_window (n pos : nat) (rest : list Z) : option nat :=
  match n with
  | O => None
  | S n' =>
      if Nat.ltb 3 (length rest) && at_terminator rest then Some (pos + 4)%nat
      else sve_find_window n' (S pos) (tail rest)
  end.

Fixpoint sve_find_blocks (fuel pos : nat) (rest : list Z) : nat :=
  match fuel with
  | O => O
  | S fuel' =>
      if Nat.ltb 0 (length rest) then
        let pred := svwhilelt_b8 (length rest) in
        let chunk := svld1_u8 pred rest in
        let cr_match := svcmpeq pred chunk CR in
        let remaining := length rest in
        let check_len := if Nat.ltb remaining vl then remaining else vl in
        match (if svptest_any pred cr_match then sve_find_window check_len pos rest else None) with
        | Some r => r
        | None => sve_find_blocks fuel' (pos + vl) (drop vl rest)
        end
      else O
  end.

Definition sve_find_header_end (buf : list Z) (from : nat) : nat :=
  let start := find_start from in
  sve_find_blocks (length buf) start (drop start buf).

Fixpoint value_window (n pos : nat) (rest : list Z) : option (option nat) :=
  match n, rest with
  | S n', b :: rest' =>
      if b =? CR then Some (Some pos)
      else if negb (in_table kHeaderValueTable b) then Some None
      else value_window n' (S pos) rest'
  | _, _ => None
  end.

Fixpoint sve_value_blocks (e fuel pos : nat) (rest : list Z) : option nat :=
  match fuel with
  | O => Some e
  | S fuel' =>
      if Nat.ltb 0 (length rest) then
        let remaining := length rest in
        let pred := svwhilelt_b8 remaining in
        let chunk := svld1_u8 pred rest in
        let cr_match := svcmpeq pred chunk CR in
        let lt20 := svcmplt pred chunk 32 in
        let is_ht := svcmpeq pred chunk 9 in
        let bad_ctl := svbic_z pred lt20 is_ht in
        let is_del := svcmpeq pred chunk 127 in
        let bad := svorr_z pred bad_ctl is_del in
        let window := if Nat.ltb remaining vl then remaining else vl in
        match (if svptest_any pred (svorr_z pred cr_match bad)
               then value_window window pos rest else None) with
        | Some r => r
        | None => sve_value_blocks e fuel' (pos + vl) (drop vl rest)
        end
      else Some e
  end.

Definition sve_scan_header_value (buf : list Z) (pos e : nat) : option nat :=
  let rest := sub buf pos (e - pos) in
  sve_value_blocks e (length rest) pos rest.

(** [inl]: the scan returned; [inr]: the window ended with this [canon_end]. *)
Fixpoint uri_window (e n pos canon_end : nat) (rest : list Z) : option (nat * nat) + nat :=
  match n, rest with
  | S n', b :: rest' =>
      if b =? SP then inl (Some (pos, if negb (Nat.eqb canon_end e) then canon_end else pos))
      else if negb (in_table kUriTable b) then inl None
      else
        let canon_end' :=
          if ((b =? ch "?") || (b =? ch "#")) && Nat.eqb canon_end e then pos else canon_end in
        uri_window e n' (S pos) canon_end' rest'
  | _, _ => inr canon_end
  end.

Fixpoint sve_uri_blocks (e fuel pos canon_end : nat) (rest : list Z) : option (nat * nat) :=
  match fuel with
  | O => Some (e, canon_end)
  | S fuel' =>
      if Nat.ltb 0 (length rest) then
        let remaining := length rest in
        let pred := svwhilelt_b8 remaining in
        let chunk := svld1_u8 pred rest in
        let sp_match := svcmpeq pred chunk SP in
        let lt21 := svcmplt pred chunk 33 in
        let is_del := svcmpeq pred chunk 127 in
        let ge80 := svcmpge pred chunk 128 in
        let bad := svorr_z pred (svorr_z pred lt21 is_del) ge80 in
        let qf_match := svorr_z pred (svcmpeq pred chunk (ch "?")) (svcmpeq pred chunk (ch "#")) in
        let window := if Nat.ltb remaining vl then remaining else vl in
        match (if svptest_any pred (svorr_z pred (svorr_z pred sp_match bad) qf_match)
               then uri_window e window pos canon_end rest else inr canon_end) with
        | inl r => r
        | inr canon_end' => sve_uri_blocks e fuel' (pos + vl) canon_end' (drop vl rest)
        end
      else Some (e, canon_end)
  end.

Definition sve_scan_uri (buf : list Z) (pos e : nat) : option (nat * nat) :=
  let rest := sub buf pos (e - pos) in
  sve_uri_blocks e (length rest) pos e rest.

Fixpoint sve_name_blocks (fuel pos : nat) (rest : list Z) : option nat :=
  match fuel with
  | O => None
  | S fuel' =>
      if Nat.ltb 0 (length rest) then
        let remaining := length rest in
        let pred := svwhilelt_b8 remaining in
        let chunk := svld1_u8 pred rest in
        let colon_match := svcmpeq pred chunk (ch ":") in
        let window := if Nat.ltb remaining vl then remaining else vl in
        match (if svptest_any pred colon_match then name_window window pos rest else None) with
        | Some r => r
        | None =>
            if forallb (in_table kTokenTable) (take window rest)
            then sve_name_blocks fuel' (pos + vl) (drop vl rest)
            else None
        end
      else None
  end.

Definition sve_scan_header_name (buf : list Z) (pos e : nat) : option nat :=
  let rest := sub buf pos (e - pos) in
  sve_name_blocks (length rest) pos rest.

End sve.

(** The scanner back ends, as the parsers call them. *)
Definition neon_scanners : Scanners :=
  {| sc_find_header_end := neon_find_header_end; sc_scan_header_value := neon_scan_header_value;
     sc_scan_uri := neon_scan_uri; sc_scan_header_name := neon_scan_header_name |}.
Definition sve_scanners (vl : nat) : Scanners :=
  {| sc_find_header_end := sve_find_header_end vl;
     sc_scan_header_value := sve_scan_header_value vl;
     sc_scan_uri := sve_scan_uri vl; sc_scan_header_name := sve_scan_header_name vl |}.

(** ** The nibble mask *)

(** Four bits per lane. *)
Fixpoint nibbles (l : list bool) : list bool :=
  match l with
  | [] => []
  | b :: l' => b :: b :: b :: b :: nibbles l'
  end.

Lemma length_nibbles l : length (nibbles l) = (length l * 4)%nat.
Proof. induction l as [|b l IH]; cbn; lia. Qed.

Lemma nibbles_zero l : movemask (nibbles l) = 0 <-> movemask l = 0.
Proof.
  rewrite !movemask_zero. induction l as [|b l IH]; cbn; [done|].
  rewrite !Forall_cons, IH. tauto.
Qed.

Lemma first_true_nibbles l : movemask l <> 0 -> first_true (nibbles l) = (first_true l * 4)%nat.
Proof.
  induction l as [|[] l IH]; cbn [movemask first_true nibbles Z.b2z]; [done..|].
  intros H. rewrite IH by lia. lia.
Qed.

Lemma take_nibbles k l : take (k * 4) (nibbles l) = nibbles (take k l).
Proof.
  revert k. induction l as [|b l IH]; intros [|k]; cbn [take nibbles]; try done.
  cbn [Nat.mul Nat.add take]. by rewrite IH.
Qed.

Definition nmask (f : Z -> bool) (chunk : list Z) : Z := movemask (nibbles (f <$> chunk)).

Lemma nmask_zero f l : (nmask f l =? 0) = (mask_of f l =? 0).
Proof.
  unfold nmask, mask_of. pose proof (nibbles_zero (f <$> l)).
  destruct (Z.eqb_spec (movemask (nibbles (f <$> l))) 0), (Z.eqb_spec (movemask (f <$> l)) 0);
    tauto.
Qed.

Lemma mask_byte_nmask f l : mask_of f l <> 0 -> mask_byte (nmask f l) = ctz (mask_of f l).
Proof.
  intros H. unfold mask_byte, nmask, mask_of in *.
  rewrite !ctz_movemask by (rewrite ?nibbles_zero; done).
  rewrite first_true_nibbles by done. apply Nat.div_mul. lia.
Qed.

Lemma nmask_below f l k : Z.land (nmask f l) (pre_nibbles k) = nmask f (take k l).
Proof.
  unfold nmask, pre_nibbles. rewrite fmap_take, <- take_nibbles, <- mask_below.
  destruct k; done.
Qed.

Lemma nth_nibbles i l : nth i (nibbles l) false = nth (Nat.div i 4) l false.
Proof.
  revert i. induction l as [|b l IH]; intros i; [by destruct i, (Nat.div _ _)|].
  destruct i as [|[|[|[|i]]]]; try done. cbn [nibbles nth]. rewrite IH.
  replace (S (S (S (S i)))) with (i + 1 * 4)%nat by lia.
  rewrite Nat.div_add by lia. by rewrite Nat.add_1_r.
Qed.

Lemma nmask_ldiff f g l :
  Z.land (nmask f l) (Z.lnot (nmask g l)) = nmask (fun b => f b && negb (g b)) l.
Proof.
  apply movemask_ext; [apply Z.land_nonneg; left; apply movemask_nonneg|]. intros i.
  unfold nmask. rewrite Z.land_spec, Z.lnot_spec, !movemask_testbit, !nth_nibbles,
    !nth_fmap_bool by lia. by destruct (l !! Nat.div i 4).
Qed.

(** The narrowing shift on 0xFF/0x00 lanes is the nibble mask. *)
Lemma movemask_byte b0 b1 b2 b3 b4 b5 b6 b7 l :
  movemask (b0 :: b1 :: b2 :: b3 :: b4 :: b5 :: b6 :: b7 :: l) =
  movemask [b0; b1; b2; b3; b4; b5; b6; b7] + 256 * movemask l.
Proof. cbn [movemask]. lia. Qed.

Lemma neon_movemask_pairs n (l : list bool) :
  length l = (2 * n)%nat ->
  load_le n (vshrn_n_u16 (vreinterpretq_u16_u8 (lane <$> l)) 4) = movemask (nibbles l).
Proof.
  revert l. induction n as [|n IH]; intros l Hl; [by destruct l|].
  destruct l as [|a [|b l]]; cbn [length] in Hl; [lia..|].
  cbn [fmap list_fmap vreinterpretq_u16_u8 nibbles]. rewrite movemask_byte.
  unfold vshrn_n_u16. cbn [fmap list_fmap load_le].
  change (load_le n _) with
    (load_le n (vshrn_n_u16 (vreinterpretq_u16_u8 (lane <$> l)) 4)).
  rewrite IH by lia. pose proof (movemask_nonneg (nibbles l)).
  rewrite lor_disjoint by (destruct a, b; vm_compute; intuition congruence).
  destruct a, b; vm_compute (movemask [_; _; _; _; _; _; _; _]); vm_compute (Z.land _ _); lia.
Qed.

Lemma neon_movemask_spec f chunk :
  length chunk = 16%nat -> neon_movemask ((fun b => lane (f b)) <$> chunk) = nmask f chunk.
Proof.
  intros H. unfold neon_movemask, load_u64, nmask. rewrite <- (neon_movemask_pairs 8).
  - by rewrite <- list_fmap_compose.
  - by rewrite length_fmap.
Qed.

(** Lanewise operations on comparison results. *)
Lemma zip_lanes (op : Z -> Z -> Z) (bop : bool -> bool -> bool) f g (chunk : list Z) :
  (forall a b, op (lane a) (lane b) = lane (bop a b)) ->
  zip_with op ((fun b => lane (f b)) <$> chunk) ((fun b => lane (g b)) <$> chunk) =
  (fun b => lane (bop (f b) (g b))) <$> chunk.
Proof.
  intros H. induction chunk as [|b l IH]; [done|]. rewrite !fmap_cons. cbn [zip_with].
  by rewrite H, IH.
Qed.

Lemma vorrq_lanes f g (chunk : list Z) :
  vorrq_u8 ((fun b => lane (f b)) <$> chunk) ((fun b => lane (g b)) <$> chunk) =
  (fun b => lane (f b || g b)) <$> chunk.
Proof. apply (zip_lanes Z.lor orb). by intros [] []. Qed.

Lemma vbicq_lanes f g (chunk : list Z) :
  vbicq_u8 ((fun b => lane (f b)) <$> chunk) ((fun b => lane (g b)) <$> chunk) =
  (fun b => lane (f b && negb (g b))) <$> chunk.
Proof. apply (zip_lanes Z.ldiff (fun a b => a && negb b)). by intros [] []. Qed.

Lemma neon_any_lanes f (chunk : list Z) :
  neon_any ((fun b => lane (f b)) <$> chunk) = existsb f chunk.
Proof.
  unfold neon_any. induction chunk as [|b l IH]; [done|].
  rewrite fmap_cons. cbn [fold_right existsb]. rewrite <- IH.
  assert (0 <= fold_right Z.max 0 ((fun b => lane (f b)) <$> l)) as H
    by (clear; induction l; cbn; lia).
  destruct (f b); cbn [lane orb].
  - apply negb_true_iff, Z.eqb_neq. lia.
  - rewrite Z.max_r by done. done.
Qed.

(** ** NEON against the scalar scanners *)

Lemma at_terminator_hit l : Nat.ltb 3 (length l) && at_terminator l = hit l.
Proof.
  unfold at_terminator, rd, hit.
  destruct l as [|c0 [|c1 [|c2 [|c3 l]]]]; cbn [nth length is_prefix CRLF app];
    rewrite ?andb_false_r; try done.
  cbn [Nat.ltb Nat.leb andb]. rewrite andb_true_r.
  by rewrite (Z.eqb_sym c0), (Z.eqb_sym c1), (Z.eqb_sym c2), (Z.eqb_sym c3), !andb_assoc.
Qed.

Lemma short_no_hit l j : (length l <= 3)%nat -> hit (drop j l) = false.
Proof.
  intros H. rewrite <- at_terminator_hit.
  rewrite (proj2 (Nat.ltb_ge _ _)); [done|]. rewrite length_drop. lia.
Qed.

Lemma tail_hits l j n :
  hit l = false -> (j < S n)%nat ->
  (forall k, (k < n)%nat -> hit (drop k (tail l)) = false) -> hit (drop j l) = false.
Proof.
  intros H Hj Hk. destruct j as [|j]; [done|]. destruct l as [|b l]; [done|].
  apply (Hk j). lia.
Qed.

Lemma find_window_spec n pos rest (window : nat -> nat -> list Z -> option nat) :
  window = neon_find_window \/ window = sve_find_window ->
  match window n pos rest with
  | Some r => r = find_header_end_loop pos rest
  | None => forall j, (j < n)%nat -> hit (drop j rest) = false
  end.
Proof.
  intros Hw. revert pos rest. induction n as [|n IH]; intros pos rest.
  - destruct Hw as [-> | ->]; cbn; lia.
  - pose proof (at_terminator_hit rest) as Hh.
    assert (window (S n) pos rest = (if hit rest then Some (pos + 4)%nat
      else if Nat.ltb 3 (length rest) then window n (S pos) (tail rest) else None) \/
      window (S n) pos rest = (if hit rest then Some (pos + 4)%nat
      else window n (S pos) (tail rest))) as Hstep.
    { rewrite <- Hh. destruct Hw as [-> | ->]; cbn [neon_find_window sve_find_window];
        [left | right]; destruct (Nat.ltb 3 (length rest)); cbn [andb]; done. }
    destruct (hit rest) eqn:E.
    + rewrite (find_loop_hit _ _ E). destruct Hstep as [-> | ->]; done.
    + specialize (IH (S pos) (tail rest)). rewrite (find_loop_miss _ _ E).
      assert (Hshort : (length rest <= 3)%nat -> forall j, (j < S n)%nat -> hit (drop j rest) = false)
        by (intros; by apply short_no_hit).
      destruct Hstep as [-> | ->]; [destruct (Nat.ltb_spec 3 (length rest)); [|by apply Hshort]|];
        (destruct (window n (S pos) (tail rest)); [done|]; intros j Hj; by eapply tail_hits).
Qed.

(** A block without CR starts no terminator. *)
Lemma no_cr_no_hit n rest :
  existsb (fun b => b =? CR) (take n rest) = false ->
  forall j, (j < n)%nat -> hit (drop j rest) = false.
Proof.
  intros H j Hj. destruct (hit (drop j rest)) eqn:E; [|done].
  assert (rest !! j = Some CR) as Hl.
  { apply is_prefix_spec in E as [k Hk]. rewrite <- (Nat.add_0_r j), <- lookup_drop, Hk. done. }
  assert (existsb (fun b => b =? CR) (take n rest) = true) as Hx; [|congruence].
  apply existsb_exists. exists CR. split; [|apply Z.eqb_refl].
  apply list_elem_of_In, (list_elem_of_lookup_2 _ j). by rewrite lookup_take_lt.
Qed.

Lemma neon_find_scalar fuel pos rest :
  neon_find_blocks fuel pos rest = find_header_end_loop pos rest.
Proof.
  revert pos rest. induction fuel as [|fuel IH]; intros pos rest; cbn [neon_find_blocks]; [done|].
  destruct (Nat.leb_spec 16 (length rest)); [|done]. rewrite IH.
  unfold vceqq_u8. rewrite neon_any_lanes.
  destruct (existsb _ _) eqn:E.
  - pose proof (find_window_spec 16 pos rest neon_find_window (or_introl eq_refl)) as Hw.
    destruct (neon_find_window _ _ _); [done|]. symmetry. by apply find_loop_skip.
  - symmetry. apply find_loop_skip, no_cr_no_hit. done.
Qed.

Lemma neon_value_blocks_eq e fuel pos rest :
  Forall is_byte rest ->
  neon_value_blocks e fuel pos rest =
  value_blocks 16 below (mask_of (fun b => (b <? 32) && negb (b =? 9) || (b =? 127)))
    e fuel pos rest.
Proof.
  revert pos rest. induction fuel as [|fuel IH]; intros pos rest Hb;
    cbn [neon_value_blocks value_blocks]; [done|].
  destruct (Nat.leb_spec 16 (length rest)) as [HW|]; [|done].
  assert (length (take 16 rest) = 16%nat) as Hlen by (rewrite length_take; lia).
  set (chunk := take 16 rest) in *. rewrite <- IH by by apply Forall_drop.
  unfold vceqq_u8, vcltq_u8. rewrite vbicq_lanes, vorrq_lanes, !neon_movemask_spec by done.
  change (fun b => b =? CR) with (cmpeq CR). rewrite !nmask_zero.
  set (bad := fun b => _ || _).
  destruct (Z.eqb_spec (mask_of (cmpeq CR) chunk) 0) as [Hcr|Hcr]; cbn [negb].
  - rewrite Hcr, Z.lor_0_l. change (Z.lnot 0) with (-1). rewrite Z.land_m1_r.
    by destruct (mask_of bad chunk =? 0).
  - rewrite mask_byte_nmask by done.
    assert (Z.lor (mask_of (cmpeq CR) chunk) (mask_of bad chunk) <> 0) as Hor.
    { intros H. apply Z.lor_eq_0_iff in H. tauto. }
    rewrite (proj2 (Z.eqb_neq _ _) Hor). cbn [negb].
    rewrite <- !(Z.land_assoc _ _ (Z.lnot _)), !(Z.land_comm _ (Z.lnot _)), !Z.land_assoc.
    rewrite nmask_ldiff, nmask_below, nmask_zero, mask_of_ldiff, mask_below_of. done.
Qed.

Lemma neon_value_scalar e fuel pos rest :
  Forall is_byte rest -> neon_value_blocks e fuel pos rest = scan_header_value_loop e pos rest.
Proof.
  intros Hb. rewrite neon_value_blocks_eq by done.
  apply value_blocks_scalar; [done| |done]. intros chunk Hc.
  rewrite Forall_forall in Hc. apply mask_of_ext. intros b Hin. apply eqb_prop.
  apply (byte_forall (fun b => eqb ((b <? 32) && negb (b =? 9) || (b =? 127))
    (negb (in_table kHeaderValueTable b)))); [vm_compute; reflexivity | by apply Hc].
Qed.

Lemma neon_uri_blocks_eq e fuel pos ce rest :
  Forall is_byte rest ->
  neon_uri_blocks e fuel pos ce rest =
  uri_blocks 16 below (mask_of (fun b => (b <? 33) || (b =? 127) || (128 <=? b)))
    uri_qf e fuel pos ce rest.
Proof.
  revert pos ce rest. induction fuel as [|fuel IH]; intros pos ce rest Hb;
    cbn [neon_uri_blocks uri_blocks]; [done|].
  destruct (Nat.leb_spec 16 (length rest)) as [HW|]; [|done].
  assert (length (take 16 rest) = 16%nat) as Hlen by (rewrite length_take; lia).
  set (chunk := take 16 rest) in *. rewrite <- IH by by apply Forall_drop.
  unfold vceqq_u8, vcltq_u8, vcgeq_u8. rewrite !vorrq_lanes, !neon_movemask_spec by done.
  unfold uri_qf. change (fun b => b =? SP) with (cmpeq SP).
  change (fun b => cmpeq (ch "?") b || cmpeq (ch "#") b) with is_qf.
  change (fun b => (b =? ch "?") || (b =? ch "#")) with is_qf.
  set (bad := fun b => _ || _). rewrite !nmask_zero.
  destruct (Z.eqb_spec (mask_of (cmpeq SP) chunk) 0) as [Hsp|Hsp]; cbn [negb].
  - destruct (mask_of bad chunk =? 0); cbn [negb]; [|done].
    destruct (Z.eqb_spec (mask_of is_qf chunk) 0); cbn [negb andb]; [done|].
    by rewrite mask_byte_nmask.
  - rewrite !mask_byte_nmask by done.
    rewrite <- !(Z.land_assoc _ _ (Z.lnot _)), !(Z.land_comm _ (Z.lnot _)), !Z.land_assoc.
    rewrite nmask_ldiff, !nmask_below, !nmask_zero, mask_of_ldiff, !mask_below_of.
    destruct (Z.eqb_spec (mask_of is_qf (take (ctz (mask_of (cmpeq SP) chunk)) chunk)) 0);
      [done|]. by rewrite mask_byte_nmask.
Qed.

Lemma neon_uri_top buf pos e :
  Forall is_byte (sub buf pos (e - pos)) -> neon_scan_uri buf pos e = scan_uri buf pos e.
Proof.
  intros Hb. unfold neon_scan_uri. rewrite neon_uri_blocks_eq by done.
  apply uri_blocks_top; [done| |done|done]. intros chunk Hc.
  rewrite Forall_forall in Hc. apply mask_of_ext. intros b Hin. apply eqb_prop.
  apply (byte_forall (fun b => eqb ((b <? 33) || (b =? 127) || (128 <=? b))
    (negb (in_table kUriTable b)))); [vm_compute; reflexivity | by apply Hc].
Qed.

(** ** Scalar windows *)

Lemma name_window_spec n pos rest :
  match name_window n pos rest with
  | Some r => r = scan_header_name_loop pos rest
  | None => Forall (fun b => (b =? ch ":") = false /\ in_table kTokenTable b = true) (take n rest)
  end.
Proof.
  revert pos rest. induction n as [|n IH]; intros pos [|b rest]; cbn [name_window take]; try done.
  cbn [scan_header_name_loop].
  destruct (b =? ch ":") eqn:E; [done|].
  destruct (in_table kTokenTable b) eqn:Et; cbn [negb]; [|done].
  specialize (IH (S pos) rest). destruct (name_window n (S pos) rest); [done|]. by constructor.
Qed.

Lemma value_window_spec e n pos rest :
  match value_window n pos rest with
  | Some r => r = scan_header_value_loop e pos rest
  | None =>
      Forall (fun b => (b =? CR) = false /\ in_table kHeaderValueTable b = true) (take n rest)
  end.
Proof.
  revert pos rest. induction n as [|n IH]; intros pos [|b rest]; cbn [value_window take]; try done.
  cbn [scan_header_value_loop].
  destruct (b =? CR) eqn:E; [done|].
  destruct (in_table kHeaderValueTable b) eqn:Et; cbn [negb]; [|done].
  specialize (IH (S pos) rest). destruct (value_window n (S pos) rest); [done|]. by constructor.
Qed.

Lemma uri_window_spec e n pos ce rest :
  match uri_window e n pos ce rest with
  | inl r => r = scan_uri_loop e pos ce rest
  | inr ce' => scan_uri_loop e pos ce rest =
      scan_uri_loop e (pos + Nat.min n (length rest)) ce' (drop n rest)
  end.
Proof.
  revert pos ce rest. induction n as [|n IH]; intros pos ce rest; cbn [uri_window].
  - by rewrite Nat.add_0_r, drop_0.
  - destruct rest as [|b rest]; [done|].
    cbn [scan_uri_loop drop length]. destruct (b =? SP) eqn:E; [done|].
    destruct (in_table kUriTable b) eqn:Et; cbn [negb]; [|done].
    set (ce' := if _ : bool then pos else ce). specialize (IH (S pos) ce' rest).
    destruct (uri_window e n (S pos) ce' rest); [done|]. rewrite IH. f_equal. lia.
Qed.

(** The step shared by the name scanners: the window, then the token test. *)
Lemma name_step n pos rest (any : bool) :
  any = existsb (fun b => b =? ch ":") (take n rest) ->
  match (if any then name_window n pos rest else None) with
  | Some r => r
  | None =>
      if forallb (in_table kTokenTable) (take n rest)
      then scan_header_name_loop (pos + length (take n rest)) (drop n rest) else None
  end = scan_header_name_loop pos rest.
Proof.
  intros ->.
  assert (Hskip : Forall (fun b => (b =? ch ":") = false) (take n rest) ->
    (if forallb (in_table kTokenTable) (take n rest)
     then scan_header_name_loop (pos + length (take n rest)) (drop n rest) else None) =
    scan_header_name_loop pos rest).
  { intros Hc. rewrite <- (take_drop n rest) at 4. case_if.
    - apply forallb_Forall_true in E. symmetry. apply name_skip. by apply Forall_and.
    - symmetry. apply name_none; [done|]. rewrite <- forallb_Forall_true. congruence. }
  destruct (existsb _ _) eqn:E.
  - pose proof (name_window_spec n pos rest) as Hw.
    destruct (name_window n pos rest); [done|]. apply Hskip.
    eapply Forall_impl; [exact Hw|]. by intros b [? _].
  - apply Hskip, Forall_forall. intros b Hb. destruct (b =? ch ":") eqn:Eb; [|done].
    assert (existsb (fun b => b =? ch ":") (take n rest) = true); [|congruence].
    apply existsb_exists. exists b. by rewrite <- list_elem_of_In.
Qed.

Lemma neon_name_scalar fuel pos rest :
  neon_name_blocks fuel pos rest = scan_header_name_loop pos rest.
Proof.
  revert pos rest. induction fuel as [|fuel IH]; intros pos rest; cbn [neon_name_blocks]; [done|].
  destruct (Nat.leb_spec 16 (length rest)); [|done]. rewrite IH.
  rewrite <- (name_step 16 pos rest (neon_any (vceqq_u8 (take 16 rest) (ch ":")))).
  - by rewrite length_take, Nat.min_l.
  - apply neon_any_lanes.
Qed.

(** ** SVE against the scalar scanners *)

Section sve_ok.
Context (vl : nat) (vl_pos : (0 < vl)%nat).

(** What the active lanes of a predicated block test. *)
Lemma svld1_lookup rest i :
  svld1_u8 (svwhilelt_b8 vl (length rest)) rest !! i =
  if Nat.ltb i vl then Some (if Nat.ltb i (length rest) then rd rest i else 0) else None.
Proof.
  unfold svld1_u8, svwhilelt_b8. rewrite list_lookup_imap, list_lookup_fmap.
  destruct (Nat.ltb_spec i vl).
  - by rewrite lookup_seq_lt.
  - by rewrite lookup_seq_ge.
Qed.

(** A lanewise test of a block: false on the inactive lanes. *)
Definition lanes (f : Z -> bool) (rest : list Z) : list bool :=
  svcmp f (svwhilelt_b8 vl (length rest)) (svld1_u8 (svwhilelt_b8 vl (length rest)) rest).

Lemma lanes_lookup f rest i :
  lanes f rest !! i =
  if Nat.ltb i vl then Some (Nat.ltb i (length rest) && f (rd rest i)) else None.
Proof.
  unfold lanes, svcmp. rewrite lookup_zip_with, svld1_lookup. unfold svwhilelt_b8.
  rewrite list_lookup_fmap. destruct (Nat.ltb_spec i vl).
  - rewrite lookup_seq_lt by done. cbn [fmap option_fmap option_map mbind option_bind Nat.add].
    by destruct (Nat.ltb i (length rest)).
  - by rewrite lookup_seq_ge.
Qed.

Lemma lanes_op (op : bool -> bool -> bool) f g rest :
  zip_with andb (svwhilelt_b8 vl (length rest)) (zip_with op (lanes f rest) (lanes g rest)) =
  lanes (fun b => op (f b) (g b)) rest.
Proof.
  apply list_eq. intros i. rewrite !lookup_zip_with, !lanes_lookup. unfold svwhilelt_b8.
  rewrite list_lookup_fmap. destruct (Nat.ltb_spec i vl).
  - rewrite lookup_seq_lt by done. cbn [fmap option_fmap option_map mbind option_bind Nat.add].
    by destruct (Nat.ltb i (length rest)).
  - by rewrite lookup_seq_ge.
Qed.

Lemma lanes_any f rest :
  svptest_any (svwhilelt_b8 vl (length rest)) (lanes f rest) = existsb f (take vl rest).
Proof.
  apply eq_iff_eq_true. unfold svptest_any. rewrite !existsb_exists. split.
  - intros (x & Hin & Hx). apply list_elem_of_In, list_elem_of_lookup_1 in Hin as [i Hi].
    rewrite lookup_zip_with, lanes_lookup in Hi. unfold svwhilelt_b8 in Hi.
    rewrite list_lookup_fmap in Hi. destruct (Nat.ltb_spec i vl) as [Hlt|];
      [|by rewrite lookup_seq_ge in Hi].
    rewrite lookup_seq_lt in Hi by done.
    cbn [fmap option_fmap option_map mbind option_bind Nat.add] in Hi. injection Hi as <-.
    unfold id in Hx. apply andb_true_iff in Hx as [H1 Hx]. apply andb_true_iff in Hx as [_ Hx].
    apply Nat.ltb_lt in H1.
    exists (rd rest i). split; [|done]. apply list_elem_of_In, (list_elem_of_lookup_2 _ i).
    rewrite lookup_take_lt by done. destruct (lookup_lt_is_Some_2 rest i) as [y Hy]; [done|].
    unfold rd. by rewrite nth_lookup, Hy.
  - intros (b & Hin & Hb). apply list_elem_of_In, list_elem_of_lookup_1 in Hin as [i Hi].
    apply lookup_take_Some in Hi as [Hi Hlt]. pose proof (lookup_lt_Some _ _ _ Hi) as Hlen.
    exists true. split; [|done]. apply list_elem_of_In, (list_elem_of_lookup_2 _ i).
    rewrite lookup_zip_with, lanes_lookup. unfold svwhilelt_b8.
    rewrite list_lookup_fmap, lookup_seq_lt, !(proj2 (Nat.ltb_lt _ _)) by done.
    cbn [fmap option_fmap option_map mbind option_bind Nat.add].
    rewrite (proj2 (Nat.ltb_lt _ _)) by done. unfold rd. rewrite nth_lookup, Hi.
    cbn. by rewrite Hb.
Qed.

Lemma take_window {A} (rest : list A) :
  let w := if Nat.ltb (length rest) vl then length rest else vl in
  w = length (take vl rest) /\ take w rest = take vl rest /\ drop w rest = drop vl rest.
Proof.
  cbv zeta. rewrite length_take. destruct (Nat.ltb_spec (length rest) vl).
  - rewrite !take_ge, !drop_ge by lia. split_and!; [lia|done..].
  - split_and!; [lia|done..].
Qed.

(** The end of the loop may step past the buffer; the scalar loop ends at it. *)
Lemma block_skip {R} (loop : nat -> list Z -> R) (stop : R) pos rest :
  (forall p, loop p [] = stop) ->
  loop (pos + length (take vl rest))%nat (drop vl rest) = loop (pos + vl)%nat (drop vl rest).
Proof.
  intros Hs. destruct (decide (vl <= length rest)%nat).
  - by rewrite length_take, Nat.min_l.
  - by rewrite drop_ge, !Hs by lia.
Qed.

Lemma fuel_drop fuel (rest : list Z) :
  (length rest <= S fuel)%nat -> (length (drop vl rest) <= fuel)%nat.
Proof using vl_pos. rewrite length_drop. lia. Qed.

Lemma nonempty_ltb (rest : list Z) : Nat.ltb 0 (length rest) = negb (bool_decide (rest = [])).
Proof. by destruct rest. Qed.

Lemma sve_find_scalar fuel pos rest :
  (length rest <= fuel)%nat ->
  sve_find_blocks vl fuel pos rest = find_header_end_loop pos rest.
Proof using vl_pos.
  revert pos rest. induction fuel as [|fuel IH]; intros pos rest Hf; cbn [sve_find_blocks].
  - destruct rest; [done | cbn in Hf; lia].
  - rewrite nonempty_ltb. case_bool_decide as Hr; cbn [negb]; [by subst|].
    rewrite IH by by apply fuel_drop. unfold svcmpeq. fold (lanes (fun b => b =? CR) rest).
    rewrite lanes_any. destruct (take_window rest) as (Hw & Ht & Hd).
    set (w := if _ : bool then _ else _) in *.
    assert (Hskip : (forall j, (j < w)%nat -> hit (drop j rest) = false) ->
      find_header_end_loop (pos + vl) (drop vl rest) = find_header_end_loop pos rest).
    { intros Hn. rewrite (find_loop_skip w pos rest) by done. rewrite Hd, Hw. symmetry.
      by apply (block_skip find_header_end_loop O). }
    destruct (existsb _ _) eqn:E.
    + pose proof (find_window_spec w pos rest sve_find_window (or_intror eq_refl)) as Hs.
      destruct (sve_find_window _ _ _); [done|]. by apply Hskip.
    + apply Hskip, no_cr_no_hit. by rewrite Ht.
Qed.

Lemma byte_class (f g : Z -> bool) l :
  forallb (fun n => eqb (f (Z.of_nat n)) (g (Z.of_nat n))) (seq 0 256) = true ->
  Forall is_byte l -> existsb f l = false -> Forall (fun b => g b = false) l.
Proof.
  intros H Hb He. apply Forall_forall. intros b Hin. rewrite Forall_forall in Hb.
  pose proof (byte_forall (fun b => eqb (f b) (g b)) H b (Hb b Hin)) as Hfg.
  apply eqb_prop in Hfg. rewrite <- Hfg. destruct (f b) eqn:E; [|done].
  assert (existsb f l = true); [|congruence]. apply existsb_exists. exists b.
  by rewrite <- list_elem_of_In.
Qed.

Lemma sve_value_scalar e fuel pos rest :
  Forall is_byte rest -> (length rest <= fuel)%nat ->
  sve_value_blocks vl e fuel pos rest = scan_header_value_loop e pos rest.
Proof using vl_pos.
  revert pos rest. induction fuel as [|fuel IH]; intros pos rest Hb Hf; cbn [sve_value_blocks].
  - destruct rest; [done | cbn in Hf; lia].
  - rewrite nonempty_ltb. case_bool_decide as Hr; cbn [negb]; [by subst|].
    rewrite IH by (by apply Forall_drop || by apply fuel_drop).
    unfold svcmpeq, svcmplt, svorr_z, svbic_z.
    repeat change (svcmp ?f _ (svld1_u8 _ rest)) with (lanes f rest).
    rewrite !lanes_op, lanes_any. cbv beta.
    destruct (take_window rest) as (Hw & Ht & Hd). set (w := if _ : bool then _ else _) in *.
    assert (Hskip :
      Forall (fun b => (b =? CR) = false /\ in_table kHeaderValueTable b = true) (take w rest) ->
      scan_header_value_loop e (pos + vl) (drop vl rest) = scan_header_value_loop e pos rest).
    { intros Hn. rewrite <- (take_drop w rest) at 2. rewrite value_skip by done.
      rewrite Ht, Hd. symmetry. by apply (block_skip (scan_header_value_loop e) (Some e)). }
    destruct (existsb _ _) eqn:E.
    + pose proof (value_window_spec e w pos rest) as Hs.
      destruct (value_window _ _ _); [done|]. by apply Hskip.
    + apply Hskip. rewrite Ht. eapply Forall_impl.
      * eapply (byte_class _ (fun b => (b =? CR) || negb (in_table kHeaderValueTable b)));
          [|by apply Forall_take|exact E]. vm_compute. reflexivity.
      * cbn beta. intros b Hx. apply orb_false_iff in Hx as [H1 H2].
        by apply negb_false_iff in H2.
Qed.

Lemma sve_uri_scalar e fuel pos ce rest :
  Forall is_byte rest -> (length rest <= fuel)%nat -> (pos + length rest <= e)%nat ->
  sve_uri_blocks vl e fuel pos ce rest = scan_uri_loop e pos ce rest.
Proof using vl_pos.
  revert pos ce rest. induction fuel as [|fuel IH]; intros pos ce rest Hb Hf He;
    cbn [sve_uri_blocks].
  - destruct rest; [done | cbn in Hf; lia].
  - rewrite nonempty_ltb. case_bool_decide as Hr; cbn [negb]; [by subst|].
    unfold svcmpeq, svcmplt, svcmpge, svorr_z.
    repeat change (svcmp ?f _ (svld1_u8 _ rest)) with (lanes f rest).
    rewrite !lanes_op, lanes_any. cbv beta.
    destruct (take_window rest) as (Hw & Ht & Hd). set (w := if _ : bool then _ else _) in *.
    assert (Hnext : forall ce', sve_uri_blocks vl e fuel (pos + vl) ce' (drop vl rest) =
      scan_uri_loop e (pos + length (take vl rest)) ce' (drop vl rest)).
    { intros ce'. rewrite (block_skip (fun p => scan_uri_loop e p ce') (Some (e, ce'))) by done.
      destruct (decide (vl <= length rest)%nat).
      - apply IH; [by apply Forall_drop | by apply fuel_drop | rewrite length_drop; lia].
      - rewrite drop_ge by lia. by destruct fuel. }
    destruct (existsb _ _) eqn:E.
    + pose proof (uri_window_spec e w pos ce rest) as Hs.
      destruct (uri_window _ _ _ _ _); [done|]. rewrite Hnext, Hs. f_equal; [|done].
      rewrite Hw, length_take. lia.
    + rewrite Hnext. rewrite <- (take_drop vl rest) at 3.
      assert (Forall (fun b => (b =? SP) || negb (in_table kUriTable b) || is_qf b = false)
        (take vl rest)) as Hc.
      { eapply (byte_class _ (fun b => (b =? SP) || negb (in_table kUriTable b) || is_qf b));
          [|by apply Forall_take|exact E]. vm_compute. reflexivity. }
      rewrite uri_skip.
      * unfold canon_after. rewrite (proj2 (mask_of_zero _ _)); [done|].
        eapply Forall_impl; [exact Hc|]. cbn beta. intros b Hx.
        by apply orb_false_iff in Hx as [_ Hx].
      * rewrite length_take. lia.
      * eapply Forall_impl; [exact Hc|]. cbn beta. intros b Hx.
        apply orb_false_iff in Hx as [Hx _]. apply orb_false_iff in Hx as [H1 H2].
        by apply negb_false_iff in H2.
Qed.

Lemma sve_name_scalar fuel pos rest :
  (length rest <= fuel)%nat -> sve_name_blocks vl fuel pos rest = scan_header_name_loop pos rest.
Proof using vl_pos.
  revert pos rest. induction fuel as [|fuel IH]; intros pos rest Hf; cbn [sve_name_blocks].
  - destruct rest; [done | cbn in Hf; lia].
  - rewrite nonempty_ltb. case_bool_decide as Hr; cbn [negb]; [by subst|].
    rewrite IH by by apply fuel_drop. unfold svcmpeq.
    change (svcmp ?f _ (svld1_u8 _ rest)) with (lanes f rest).
    destruct (take_window rest) as (Hw & Ht & Hd). set (w := if _ : bool then _ else _) in *.
    rewrite <- (name_step w pos rest
      (svptest_any (svwhilelt_b8 vl (length rest)) (lanes (fun b => b =? ch ":") rest))).
    + rewrite Ht, Hd. by rewrite (block_skip scan_header_name_loop None).
    + by rewrite lanes_any, Ht.
Qed.

Lemma sve_uri_top buf pos e :
  Forall is_byte (sub buf pos (e - pos)) -> sve_scan_uri vl buf pos e = scan_uri buf pos e.
Proof using vl_pos.
  intros Hb. unfold sve_scan_uri, scan_uri. destruct (sub_fits buf pos e) as [H0|Hle].
  - by destruct (sub buf pos (e - pos)).
  - by apply sve_uri_scalar.
Qed.
End sve_ok.

(** ** Properties *)

#[export] Instance neon_ok : ScannersOk neon_scanners.
Proof.
  split; intros; cbn.
  - apply neon_find_scalar.
  - by apply neon_value_scalar, Forall_sub.
  - by apply neon_uri_top, Forall_sub.
  - apply neon_name_scalar.
Qed.

Lemma sve_ok vl : (0 < vl)%nat -> ScannersOk (sve_scanners vl).
Proof.
  intros Hvl. split; intros; cbn.
  - apply sve_find_scalar; [done|]. rewrite length_drop. lia.
  - apply sve_value_scalar; [done| |done]. by apply Forall_sub.
  - by apply sve_uri_top, Forall_sub.
  - by apply sve_name_scalar.
Qed.

(** C24: the NEON scanners, and the SVE scanners at every vector length, compute
    what the scalar scanners do on every buffer: the four-bits-per-lane mask
    with its division by four, the predicated blocks and the scalar windows
    change nothing that the parser sees. *)
Theorem arm_backends_agree vl buf pos e from :
  (0 < vl)%nat -> Forall is_byte buf ->
  (neon_find_header_end buf from = find_header_end buf from /\
   sve_find_header_end vl buf from = find_header_end buf from) /\
  (neon_scan_header_value buf pos e = scan_header_value buf pos e /\
   sve_scan_header_value vl buf pos e = scan_header_value buf pos e) /\
  (neon_scan_header_name buf pos e = scan_header_name buf pos e /\
   sve_scan_header_name vl buf pos e = scan_header_name buf pos e) /\
  (neon_scan_uri buf pos e = scan_uri buf pos e /\
   sve_scan_uri vl buf pos e = scan_uri buf pos e).
Proof.
  intros Hvl Hb. pose proof (sve_ok vl Hvl) as Hs. split_and!.
  - by apply (ok_find_header_end (S := neon_scanners)).
  - by apply (ok_find_header_end (S := sve_scanners vl)).
  - by apply (ok_scan_header_value (S := neon_scanners)).
  - by apply (ok_scan_header_value (S := sve_scanners vl)).
  - by apply (ok_scan_header_name (S := neon_scanners)).
  - by apply (ok_scan_header_name (S := sve_scanners vl)).
  - by apply (ok_scan_uri (S := neon_scanners)).
  - by apply (ok_scan_uri (S := sve_scanners vl)).
Qed.

Lemma arm_backends_agree_witness :
  neon_scan_uri (bs "GET /a?b HTTP/1.1 and more") 4 26 = Some (8%nat, 6%nat) /\
  sve_scan_uri 32 (bs "GET /a?b HTTP/1.1 and more") 4 26 =
  scan_uri (bs "GET /a?b HTTP/1.1 and more") 4 26.
Proof.
  split; [vm_compute; reflexivity|].
  apply (arm_backends_agree 32 (bs "GET /a?b HTTP/1.1 and more") 4 26 0); [lia|].
  repeat constructor; vm_compute; congruence.
Defined.
