(* ===== verification/HttpGrammar.v ===== *)
(** * The language of the HTTP parsers

    The grammar of a request head (request line, fields, empty line), written
    as a printer of its parts, and the theorems that the request parser of
    [HttpParser] accepts exactly that language and reports exactly those parts. *)

From S2P Require Import Prelude HeaderValidation Simd RouteCanon HttpParser.

(** ** Grammar *)

Definition tchar (b : Z) : Prop := is_byte b /\ is_http_tchar b = true.
Definition vchar (b : Z) : Prop := is_byte b /\ (b = HT \/ (32 <= b /\ b <> 127)).
Definition uchar (b : Z) : Prop := 33 <= b <= 126.

(** A field: name, white space, value, white space. *)
Record field := Field { f_name : list Z; f_ows1 : list Z; f_value : list Z; f_ows2 : list Z }.

Definition field_text (f : field) : list Z :=
  f_name f ++ [ch ":"] ++ f_ows1 f ++ f_value f ++ f_ows2 f ++ CRLF.

(** The value is stripped: white space at its ends belongs to [f_ows1] and
    [f_ows2], all of it to [f_ows1] when the value is empty. *)
Definition field_ok (f : field) : Prop :=
  f_name f <> [] /\ Forall tchar (f_name f) /\
  Forall (fun b => is_ows b = true) (f_ows1 f) /\ Forall vchar (f_value f) /\
  Forall (fun b => is_ows b = true) (f_ows2 f) /\
  (forall b, head (f_value f) = Some b -> is_ows b = false) /\
  (forall b, last (f_value f) = Some b -> is_ows b = false) /\
  (f_value f = [] -> f_ows2 f = []).

Definition fields_text (fs : list field) : list Z := mjoin (field_text <$> fs).

Lemma fields_text_cons f fs : fields_text (f :: fs) = field_text f ++ fields_text fs.
Proof. reflexivity. Qed.

Definition version_text (v11 : bool) : list Z :=
  if v11 then bs "HTTP/1.1" else bs "HTTP/1.0".

Definition line_text (m : HttpMethod) (uri : list Z) (v11 : bool) : list Z :=
  http_method_str m ++ [SP] ++ uri ++ [SP] ++ version_text v11 ++ CRLF.

Definition request_text (m : HttpMethod) (uri : list Z) (v11 : bool) (fs : list field) : list Z :=
  line_text m uri v11 ++ fields_text fs ++ CRLF.

(** Where the parts of a field lie when it starts at [pos]. *)
Definition field_views (pos : nat) (f : field) : Header :=
  mkHeader (View pos (length (f_name f)))
    (View (pos + length (f_name f) + 1 + length (f_ows1 f)) (length (f_value f))).

(** ** Scanners as splits of the remaining bytes *)

Lemma colon_not_tchar b : tchar b -> (b =? ch ":") = false.
Proof.
  intros [_ Ht]. destruct (Z.eqb_spec b (ch ":")) as [->|]; [|done]. by vm_compute in Ht.
Qed.

Lemma name_scan_split pos l c :
  Forall is_byte l ->
  scan_header_name_loop pos l = Some c <->
  exists nm rest, l = nm ++ ch ":" :: rest /\ Forall tchar nm /\ c = (pos + length nm)%nat.
Proof.
  intros Hl. split.
  - revert pos. induction Hl as [|b l Hb Hl IH]; intros pos H; cbn [scan_header_name_loop] in H; [done|].
    destruct (Z.eqb_spec b (ch ":")) as [->|Hne].
    + injection H as <-. exists [], l. split_and!; [done | constructor | cbn; lia].
    + rewrite token_table in H by done. destruct (is_http_tchar b) eqn:Et; [|done].
      destruct (IH _ H) as (nm & rest & -> & Hnm & ->). exists (b :: nm), rest.
      split_and!; [done | by constructor | cbn; lia].
  - intros (nm & rest & -> & Hnm & ->). rewrite name_skip.
    + cbn [scan_header_name_loop]. by rewrite Z.eqb_refl.
    + eapply Forall_impl; [done|]. intros b Hb. split; [by apply colon_not_tchar|].
      destruct Hb. by rewrite token_table.
Qed.

Lemma vchar_table b : is_byte b -> in_table kHeaderValueTable b = true <-> vchar b.
Proof.
  intros Hb. rewrite value_table by done. unfold vchar.
  rewrite orb_true_iff, andb_true_iff, negb_true_iff, Z.eqb_eq, Z.leb_le, Z.eqb_neq. tauto.
Qed.

Lemma vchar_not_cr b : vchar b -> (b =? CR) = false.
Proof. intros [_ H]. apply Z.eqb_neq. unfold CR, HT in *. lia. Qed.

Lemma value_scan_split e pos l c :
  Forall is_byte l -> e = (pos + length l)%nat ->
  (scan_header_value_loop e pos l = Some c /\ (c < e)%nat) <->
  exists v rest, l = v ++ CR :: rest /\ Forall vchar v /\ c = (pos + length v)%nat.
Proof.
  intros Hl He. split.
  - revert pos He. induction Hl as [|b l Hb Hl IH]; intros pos He [H Hc]; cbn [scan_header_value_loop] in H.
    + injection H as <-. lia.
    + destruct (Z.eqb_spec b CR) as [->|Hne].
      * injection H as <-. exists [], l. split_and!; [done | constructor | cbn; lia].
      * destruct (in_table kHeaderValueTable b) eqn:Et; [|done].
        destruct (IH (S pos) ltac:(cbn in He; lia)) as (v & rest & -> & Hv & ->); [done|].
        exists (b :: v), rest. apply vchar_table in Et; [|done].
        split_and!; [done | by constructor | cbn; lia].
  - intros (v & rest & -> & Hv & ->). rewrite value_skip.
    + cbn [scan_header_value_loop]. rewrite Z.eqb_refl. split; [done|]. simp_len. lia.
    + eapply Forall_impl; [done|]. intros b Hb. split; [by apply vchar_not_cr|].
      apply vchar_table; [apply Hb | done].
Qed.

Lemma uchar_table b : is_byte b -> in_table kUriTable b = true <-> uchar b.
Proof. intros Hb. rewrite uri_table by done. unfold uchar. rewrite andb_true_iff, !Z.leb_le. tauto. Qed.

Lemma uchar_byte b : uchar b -> is_byte b.
Proof. unfold uchar, is_byte. lia. Qed.

Lemma uchar_not_sp b : uchar b -> (b =? SP) = false.
Proof. intros H. apply Z.eqb_neq. unfold uchar, SP in *. lia. Qed.

(** The canonical end: the first query or fragment mark, else the end. *)
Lemma uri_scan_split e pos ce l ue ce' :
  Forall is_byte l -> e = (pos + length l)%nat ->
  (scan_uri_loop e pos ce l = Some (ue, ce') /\ (ue < e)%nat) <->
  exists u rest, l = u ++ SP :: rest /\ Forall uchar u /\ ue = (pos + length u)%nat /\
    ce' = if Nat.eqb ce e then (pos + query_start u)%nat else ce.
Proof.
  intros Hl He. split.
  - revert pos ce He. induction Hl as [|b l Hb Hl IH]; intros pos ce He [H Hc]; cbn [scan_uri_loop] in H.
    + injection H as <- <-. lia.
    + destruct (Z.eqb_spec b SP) as [->|Hne].
      * injection H as <- <-. exists [], l.
        split_and!; [done | constructor | cbn; lia |].
        destruct (Nat.eqb ce e); cbn; lia.
      * destruct (in_table kUriTable b) eqn:Et; [|done]. cbn [negb] in H. cbn [length] in He.
        destruct (IH (S pos) _ ltac:(lia) (conj H Hc)) as (u & rest & -> & Hu & -> & ->).
        apply uchar_table in Et; [|done]. exists (b :: u), rest.
        split_and!; [done | by constructor | cbn; lia |]. cbn [query_start].
        destruct (Nat.eqb ce e) eqn:Ece.
        -- rewrite andb_true_r. destruct (_ || _).
           ++ rewrite (proj2 (Nat.eqb_neq pos e)) by lia. lia.
           ++ rewrite Ece. lia.
        -- by rewrite andb_false_r, Ece.
  - intros (u & rest & -> & Hu & -> & ->). revert pos ce He. clear Hl.
    induction Hu as [|b u Hb Hu IH]; intros pos ce He; cbn [app scan_uri_loop].
    + rewrite Z.eqb_refl. simp_len. split; [|lia]. do 2 f_equal; [lia|].
      destruct (Nat.eqb ce e); cbn; lia.
    + rewrite (uchar_not_sp b), (proj2 (uchar_table b (uchar_byte b Hb))) by done. cbn [negb].
      simp_len. destruct (IH (S pos) (if ((b =? ch "?") || (b =? ch "#")) && Nat.eqb ce e
        then pos else ce) ltac:(lia)) as [-> Hlt]. split; [|lia]. do 2 f_equal; [lia|].
      cbn [query_start]. destruct (Nat.eqb ce e) eqn:Ece.
      * rewrite andb_true_r. destruct (_ || _).
        -- rewrite (proj2 (Nat.eqb_neq pos e)) by lia. lia.
        -- rewrite Ece. lia.
      * by rewrite andb_false_r, Ece.
Qed.

Lemma sub_to_end (buf : list Z) pos : sub buf pos (length buf - pos) = drop pos buf.
Proof. unfold sub. apply take_ge. rewrite length_drop. lia. Qed.

(** ** White space *)

Lemma skip_ows_split pos l :
  exists o l', l = o ++ l' /\ Forall (fun b => is_ows b = true) o /\
    (forall b, head l' = Some b -> is_ows b = false) /\ skip_ows pos l = (pos + length o)%nat.
Proof.
  revert pos. induction l as [|b l IH]; intros pos; cbn [skip_ows].
  - exists [], []. split_and!; [done | constructor | done | cbn; lia].
  - destruct (is_ows b) eqn:E.
    + destruct (IH (S pos)) as (o & l' & -> & Ho & Hl' & ->). exists (b :: o), l'.
      split_and!; [done | by constructor | done | cbn; lia].
    + exists [], (b :: l). split_and!; [done | constructor | | cbn; lia]. by intros ? [= <-].
Qed.

Lemma skip_ows_app pos o l :
  Forall (fun b => is_ows b = true) o -> (forall b, head l = Some b -> is_ows b = false) ->
  skip_ows pos (o ++ l) = (pos + length o)%nat.
Proof.
  intros Ho Hl. revert pos. induction Ho as [|b o Hb _ IH]; intros pos; cbn [app skip_ows length].
  - destruct l as [|b l]; cbn; [lia|]. rewrite (Hl b) by done. lia.
  - rewrite Hb, IH. lia.
Qed.

(** The optimistic single-space step is subsumed by the loop. *)
Lemma skip_ows_step buf pos :
  (pos < length buf)%nat ->
  (let pos2 := if rd buf pos =? SP then (pos + 1)%nat else pos in skip_ows pos2 (drop pos2 buf)) =
  skip_ows pos (drop pos buf).
Proof.
  intros Hp. cbv zeta. destruct (Z.eqb_spec (rd buf pos) SP) as [E|]; [|done].
  destruct (lookup_lt_is_Some_2 buf pos Hp) as [b Hb].
  rewrite (drop_S buf b pos Hb). cbn [skip_ows]. unfold rd in E.
  rewrite (nth_lookup_Some _ _ _ _ Hb) in E. subst b. cbn. by rewrite Nat.add_1_r.
Qed.

Lemma rd_drop_app (buf : list Z) pos w b rest :
  drop pos buf = w ++ b :: rest -> rd buf (pos + length w) = b.
Proof.
  intros H. unfold rd. rewrite nth_lookup, <- lookup_drop, H.
  by rewrite lookup_app_r, Nat.sub_diag by lia.
Qed.

Lemma rd_drop_head (buf : list Z) pos b rest : drop pos buf = b :: rest -> rd buf pos = b.
Proof. intros H. rewrite <- (Nat.add_0_r pos). by apply (rd_drop_app buf pos [] b rest). Qed.

Lemma trim_ows_split buf vs v o rest :
  drop vs buf = v ++ o ++ rest -> Forall (fun b => is_ows b = true) o ->
  (forall b, last v = Some b -> is_ows b = false) ->
  trim_ows buf vs (vs + length (v ++ o)) = (vs + length v)%nat.
Proof.
  intros Hd Ho Hv. revert rest Hd Ho. induction o as [|b o IH] using rev_ind; intros rest Hd Ho.
  - rewrite app_nil_r. destruct v as [|x v _] using rev_ind.
    + cbn [length]. rewrite Nat.add_0_r. destruct vs; [done|]. cbn [trim_ows].
      rewrite (proj2 (Nat.ltb_ge _ _)) by lia. done.
    + rewrite length_app. cbn [length]. rewrite Nat.add_assoc, Nat.add_1_r. cbn [trim_ows].
      rewrite (rd_drop_app buf vs v x rest) by (rewrite Hd, <- app_assoc; done).
      rewrite (Hv x) by apply last_snoc. by rewrite andb_false_r.
  - apply Forall_app in Ho as [Ho Hb']. rewrite <- app_assoc in Hd.
    rewrite !length_app. cbn [length]. rewrite (Nat.add_assoc (length v)).
    replace (vs + (length v + length o + 1))%nat with (S (vs + length (v ++ o)))%nat
      by (rewrite length_app; lia). cbn [trim_ows].
    rewrite (rd_drop_app buf vs (v ++ o) b rest) by (rewrite Hd, <- app_assoc; done).
    apply Forall_inv in Hb'. rewrite Hb'.
    rewrite (proj2 (Nat.ltb_lt _ _)) by lia. cbn [andb]. eapply IH; eauto.
Qed.

(** ** One line of the head *)

(** Every run of value bytes is a stripped value and white space. *)
Lemma strip_tail w :
  exists v o, w = v ++ o /\ Forall (fun b => is_ows b = true) o /\
    (forall b, last v = Some b -> is_ows b = false).
Proof.
  induction w as [|b w (v & o & -> & Ho & Hv)] using rev_ind.
  - by exists [], [].
  - destruct (is_ows b) eqn:E.
    + exists v, (o ++ [b]). rewrite app_assoc. split_and!; [done | | done].
      apply Forall_app. split; [done | by constructor].
    + exists ((v ++ o) ++ [b]), []. rewrite app_nil_r. split_and!; [done | constructor |].
      intros c. rewrite last_snoc. by intros [= <-].
Qed.

Lemma ows_le_sp b : is_ows b = true -> (b <=? SP) = true.
Proof.
  unfold is_ows. intros H. apply orb_true_iff in H as [H|H]; zify_bool; subst; done.
Qed.

(** The guard in front of the trimming loop never changes its outcome. *)
Lemma trim_guard buf vs w rest :
  drop vs buf = w ++ rest ->
  (if Nat.ltb vs (vs + length w) && (rd buf (vs + length w - 1) <=? SP)
   then trim_ows buf vs (vs + length w) else (vs + length w)%nat) =
  trim_ows buf vs (vs + length w).
Proof.
  intros Hd. destruct (_ && _) eqn:E; [done|]. destruct w as [|b w _] using rev_ind.
  - symmetry. apply (trim_ows_split buf vs [] [] rest); [done | constructor | done].
  - assert (trim_ows buf vs (vs + length (w ++ [b])) = vs + length (w ++ [b]))%nat as ->; [|done].
    replace (vs + length (w ++ [b]))%nat with (vs + length ((w ++ [b]) ++ []))%nat at 1
      by by rewrite app_nil_r.
    apply trim_ows_split with rest; [done | constructor |].
    intros c. rewrite last_snoc. intros [= <-]. destruct (is_ows b) eqn:Eb; [|done].
    rewrite length_app in E. cbn [length] in E.
    replace (vs + (length w + 1) - 1)%nat with (vs + length w)%nat in E by lia.
    rewrite (rd_drop_app buf vs w b rest) in E by (rewrite Hd, <- app_assoc; done).
    rewrite (ows_le_sp b Eb) in E. rewrite (proj2 (Nat.ltb_lt _ _)) in E by lia. done.
Qed.

Lemma ows_vchar b : is_ows b = true -> vchar b.
Proof.
  unfold is_ows. intros H. apply orb_true_iff in H as [H|H]; zify_bool; subst;
    unfold vchar, is_byte, SP, HT; lia.
Qed.

Lemma drop_app_length_eq (buf : list Z) pos w rest :
  drop pos buf = w ++ rest -> drop (pos + length w) buf = rest.
Proof. intros H. rewrite <- drop_drop, H. apply drop_app_length. Qed.

Lemma drop_bound (buf : list Z) pos w rest :
  drop pos buf = w ++ rest -> w <> [] -> (pos + length w + length rest = length buf)%nat.
Proof.
  intros H Hw. apply (f_equal length) in H. rewrite length_drop, length_app in H.
  destruct w; [done|]. cbn in *. lia.
Qed.

Section line.
Context (buf : list Z).
Hypothesis (Hbuf : Forall is_byte buf).
#[local] Abbreviation header_line := (header_line (S := scalar_scanners)).

Lemma field_head f : field_ok f -> exists b nm, f_name f = b :: nm /\ tchar b.
Proof.
  intros (Hne & Ht & _). destruct (f_name f) as [|b nm]; [done|].
  apply Forall_cons in Ht as [? _]. eauto.
Qed.

Lemma tchar_not_cr b : tchar b -> (b =? CR) = false.
Proof. intros [_ Ht]. destruct (Z.eqb_spec b CR) as [->|]; [|done]. by vm_compute in Ht. Qed.

Lemma header_line_field pos f rest :
  field_ok f -> drop pos buf = field_text f ++ rest ->
  header_line buf pos =
  LHeader (h_name (field_views pos f)) (h_value (field_views pos f)) (pos + length (field_text f)).
Proof.
  intros Hok Hd. pose proof Hok as (Hne & Ht & Ho1 & Hv & Ho2 & Hhd & Hlast & Hemp).
  unfold field_text in *. destruct f as [nm o1 v o2]; cbn [f_name f_ows1 f_value f_ows2 field_views h_name h_value] in *.
  rewrite <- !app_assoc in Hd. cbn [app] in Hd.
  assert (length buf = pos + length nm + 1 + length o1 + length v + length o2 + 2 + length rest)%nat as Hlen.
  { apply drop_bound in Hd; [|done]. rewrite <- Hd. unfold CRLF. simp_len. lia. }
  assert (0 < length nm)%nat by (destruct nm; [done | cbn; lia]).
  unfold HttpParser.header_line. rewrite (proj2 (Nat.ltb_ge _ _)) by lia.
  assert ((rd buf pos =? CR) = false) as ->.
  { destruct nm as [|b nm]; [done|]. rewrite (rd_drop_head _ _ _ _ Hd). apply tchar_not_cr. by apply Forall_cons in Ht as [? _]. }
  cbn [sc_scan_header_name sc_scan_header_value scalar_scanners].
  unfold scan_header_name. rewrite sub_to_end.
  rewrite (proj2 (name_scan_split pos (drop pos buf) (pos + length nm) ltac:(by apply Forall_drop)))
    by (eexists nm, _; split_and!; [exact Hd | done | done]).
  rewrite (proj2 (Nat.eqb_neq _ _)) by lia. rewrite (proj2 (Nat.leb_gt _ _)) by lia.
  assert (drop (pos + length nm + 1) buf = o1 ++ v ++ o2 ++ CRLF ++ rest) as Hd1.
  { rewrite <- drop_drop, (drop_app_length_eq _ _ _ _ Hd). done. }
  rewrite skip_ows_step, Hd1 by lia.
  rewrite skip_ows_app; [|done|].
  2: { intros b Hb. destruct v as [|x v]; [|cbn in Hb; by apply Hhd].
       rewrite Hemp in Hb by done. cbn in Hb. by injection Hb as <-. }
  rewrite (proj2 (Nat.leb_gt _ _)) by lia.
  assert (drop (pos + length nm + 1 + length o1) buf = (v ++ o2) ++ CRLF ++ rest) as Hd2.
  { rewrite (drop_app_length_eq _ _ _ _ Hd1). by rewrite <- app_assoc. }
  set (vs := (pos + length nm + 1 + length o1)%nat) in *.
  unfold scan_header_value. rewrite sub_to_end.
  destruct (proj2 (value_scan_split (length buf) vs (drop vs buf) (vs + length (v ++ o2))
    ltac:(by apply Forall_drop) ltac:(rewrite length_drop; lia))) as [-> Hlt].
  { eexists (v ++ o2), _. split_and!; [exact Hd2 | | done]. apply Forall_app. split; [done|].
    eapply Forall_impl; [done|]. apply ows_vchar. }
  rewrite length_app in *.
  rewrite (proj2 (Nat.leb_gt _ _)), (proj2 (Nat.leb_gt _ (_ + 1))) by lia. cbn [orb].
  assert ((rd buf (vs + (length v + length o2) + 1) =? LF) = true) as ->.
  { rewrite <- length_app. rewrite <- Nat.add_assoc.
    replace (length (v ++ o2) + 1)%nat with (length ((v ++ o2) ++ [CR])) by (simp_len; lia).
    rewrite (rd_drop_app buf vs _ LF rest); [done|]. rewrite Hd2. by rewrite <- !app_assoc. }
  cbn [negb]. rewrite <- length_app, (trim_guard buf vs (v ++ o2) (CRLF ++ rest) Hd2).
  rewrite (trim_ows_split buf vs v o2 (CRLF ++ rest)) by (try done; rewrite Hd2; by rewrite <- app_assoc).
  unfold vs. f_equal; [f_equal; lia | f_equal; lia | unfold CRLF; simp_len; lia].
Qed.

Lemma header_line_end pos rest :
  drop pos buf = CRLF ++ rest -> header_line buf pos = LEnd (pos + 2).
Proof.
  intros Hd. pose proof (drop_bound _ _ _ _ Hd ltac:(done)) as Hlen. unfold HttpParser.header_line.
  cbn [length CRLF] in Hlen. rewrite (proj2 (Nat.ltb_ge _ _)) by lia.
  rewrite (rd_drop_head _ _ CR (LF :: rest) Hd).
  change (pos + 1)%nat with (pos + length [CR])%nat. rewrite (rd_drop_app buf pos [CR] LF rest Hd). done.
Qed.

Lemma header_line_inv_end pos p :
  header_line buf pos = LEnd p -> exists rest, drop pos buf = CRLF ++ rest /\ p = (pos + 2)%nat.
Proof.
  unfold HttpParser.header_line. case_if; [done|]. zify_bool.
  destruct (lookup_lt_is_Some_2 buf pos) as [b Hb]; [lia|].
  destruct (lookup_lt_is_Some_2 buf (S pos)) as [c Hc]; [lia|].
  assert (rd buf pos = b) as -> by (unfold rd; by rewrite (nth_lookup_Some _ _ _ _ Hb)).
  assert (rd buf (pos + 1) = c) as ->.
  { rewrite Nat.add_1_r. unfold rd. by rewrite (nth_lookup_Some _ _ _ _ Hc). }
  destruct (Z.eqb_spec b CR) as [->|]; [destruct (Z.eqb_spec c LF) as [->|]; [|done]|].
  - intros [= <-]. exists (drop (S (S pos)) buf). split; [|done].
    by rewrite (drop_S buf CR pos Hb), (drop_S buf LF (S pos) Hc).
  - destruct (sc_scan_header_name _ _ _); [|done]. repeat (case_if; try done);
      (destruct (sc_scan_header_value _ _ _); [|done]); by repeat (case_if; try done).
Qed.

Lemma header_line_inv_field pos nv vv next :
  header_line buf pos = LHeader nv vv next ->
  exists f rest, field_ok f /\ drop pos buf = field_text f ++ rest.
Proof.
  intros H. unfold HttpParser.header_line in H. case_if_in H; [done|]. zify_bool.
  destruct (rd buf pos =? CR) eqn:Ecr; [by destruct (rd buf (pos + 1) =? LF)|].
  cbn [sc_scan_header_name sc_scan_header_value scalar_scanners] in H.
  unfold scan_header_name in H. rewrite sub_to_end in H.
  destruct (scan_header_name_loop _ _) as [cp|] eqn:En; [|done].
  apply name_scan_split in En as (nm & r1 & Hd & Ht & ->); [|by apply Forall_drop].
  case_if_in H; [done|]. zify_bool.
  case_if_in H; [done|]. zify_bool. rewrite skip_ows_step in H by lia.
  assert (drop (pos + length nm + 1) buf = r1) as Hd1.
  { rewrite <- drop_drop, (drop_app_length_eq _ _ _ _ Hd). done. }
  destruct (skip_ows_split (pos + length nm + 1) r1) as (o1 & r2 & Hr1 & Ho1 & Hhd & Hsk).
  rewrite Hd1, Hsk in H. case_if_in H; [done|]. zify_bool.
  unfold scan_header_value in H. rewrite sub_to_end in H. rewrite Hr1 in Hd1.
  assert (drop (pos + length nm + 1 + length o1) buf = r2) as Hd2
    by by rewrite (drop_app_length_eq _ _ _ _ Hd1).
  set (vs := (pos + length nm + 1 + length o1)%nat) in *. rewrite Hd2 in H.
  assert (length buf = vs + length r2)%nat as Hlen by (rewrite <- Hd2, length_drop; lia).
  assert (Forall is_byte r2) as Hr2 by (rewrite <- Hd2; by apply Forall_drop).
  destruct (scan_header_value_loop _ _ _) as [cr|] eqn:Ev; [|done].
  case_if_in H; [done|]. zify_bool.
  destruct (proj1 (value_scan_split (length buf) vs r2 cr Hr2 Hlen)) as (w & r3 & -> & Hw & ->); [done|].
  case_if_in H; [done|]. zify_bool.
  destruct (strip_tail w) as (v & o2 & -> & Ho2 & Hlast).
  assert (exists r4, r3 = LF :: r4) as [r4 ->].
  { destruct r3 as [|c r4]; [simp_len; lia|]. exists r4. f_equal.
    replace (vs + length (v ++ o2) + 1)%nat with (vs + length ((v ++ o2) ++ [CR]))%nat in *
      by (simp_len; lia).
    rewrite (rd_drop_app buf vs ((v ++ o2) ++ [CR]) c r4) in E3; [done|].
    rewrite Hd2. by rewrite <- !app_assoc. }
  clear H. apply Forall_app in Hw as [Hv _].
  exists (Field nm o1 v o2), r4. split.
  - split_and!; cbn; try done.
    + intros ->. cbn in *. lia.
    + intros b Hb. apply Hhd. destruct v; [done | exact Hb].
    + intros ->. destruct o2 as [|x o2]; [done|]. apply Forall_cons in Ho2 as [Hx _].
      specialize (Hhd x eq_refl). congruence.
  - rewrite Hd, Hr1. unfold field_text. cbn [f_name f_ows1 f_value f_ows2]. by rewrite <- !app_assoc.
Qed.

End line.

(** ** The request line *)

Lemma load_lit n s buf :
  Forall is_byte buf -> (n <= length buf)%nat -> length (bs s) = n -> Forall is_byte (bs s) ->
  (load_le n buf =? load_le n (bs s)) = is_prefix (bs s) buf.
Proof.
  intros Hb Hn Hs Hbs. apply eq_true_iff_eq. rewrite is_prefix_spec, Z.eqb_eq.
  rewrite <- (load_le_take n buf). split.
  - intros H. apply load_le_inj in H; [| by apply Forall_take | done | rewrite length_take; lia | done].
    exists (drop n buf). rewrite <- H. by rewrite take_drop.
  - intros [k ->]. subst n. by rewrite take_app_length.
Qed.

Lemma is_prefix_short p l : (length l < length p)%nat -> is_prefix p l = false.
Proof.
  revert l. induction p as [|x p IH]; intros [|y l] H; cbn in *; try done; try lia.
  rewrite IH by lia. by rewrite andb_false_r.
Qed.

Lemma is_prefix_app p q l : is_prefix (p ++ q) l = is_prefix p l && is_prefix q (drop (length p) l).
Proof.
  revert l. induction p as [|x p IH]; intros l; cbn; [by rewrite drop_0|].
  destruct l as [|y l]; [done|]. by rewrite IH, andb_assoc.
Qed.

Lemma is_prefix_one x l : l <> [] -> is_prefix [x] l = (rd l 0 =? x).
Proof. destruct l as [|y l]; [done|]. intros _. cbn. by rewrite andb_true_r, Z.eqb_sym. Qed.

Lemma is_prefix_snoc p x l :
  (length p < length l)%nat -> is_prefix (p ++ [x]) l = is_prefix p l && (rd l (length p) =? x).
Proof.
  intros H. rewrite is_prefix_app, is_prefix_one.
  - unfold rd. by rewrite !nth_lookup, lookup_drop, Nat.add_0_r.
  - intros E. apply (f_equal length) in E. rewrite length_drop in E. cbn in E. lia.
Qed.

Lemma bs_bytes s : Forall is_byte (bs s).
Proof.
  unfold bs. apply Forall_fmap, Forall_forall. intros c _. unfold compose, ch, is_byte.
  pose proof (N_ascii_bounded c). lia.
Qed.

(** The method dispatch as a cascade of prefix tests. *)
Lemma parse_method_prefix buf :
  Forall is_byte buf ->
  parse_method_direct buf (length buf) 0 =
  if is_prefix (bs "GET ") buf then (GET, 4%nat)
  else if is_prefix (bs "PUT ") buf then (PUT, 4%nat)
  else if is_prefix (bs "POST ") buf then (POST, 5%nat)
  else if is_prefix (bs "HEAD ") buf then (HEAD, 5%nat)
  else if is_prefix (bs "PATCH ") buf then (PATCH, 6%nat)
  else if is_prefix (bs "TRACE ") buf then (TRACE, 6%nat)
  else if is_prefix (bs "DELETE ") buf then (DELETE, 7%nat)
  else if is_prefix (bs "OPTIONS ") buf then (OPTIONS, 8%nat)
  else if is_prefix (bs "CONNECT ") buf then (CONNECT, 8%nat)
  else (UnknownMethod, O).
Proof.
  intros Hb. unfold parse_method_direct. cbn [Nat.add]. rewrite drop_0.
  unfold load_u32, u32_lit.
  destruct (Nat.ltb_spec (length buf) 4) as [H4|H4].
  { by rewrite !is_prefix_short by (cbn; lia). }
  rewrite !(load_lit 4 _ buf) by (done || apply bs_bytes).
  do 2 (case_if; [done|]).
  destruct (Nat.ltb_spec (length buf) 5) as [H5|H5].
  { by rewrite !is_prefix_short by (cbn; lia). }
  rewrite <- (is_prefix_snoc (bs "POST")), <- (is_prefix_snoc (bs "HEAD")) by (cbn; lia).
  change (bs "POST" ++ [SP]) with (bs "POST "). change (bs "HEAD" ++ [SP]) with (bs "HEAD ").
  do 2 (case_if; [done|]).
  destruct (Nat.ltb_spec (length buf) 6) as [H6|H6].
  { by rewrite !is_prefix_short by (cbn; lia). }
  rewrite <- (is_prefix_snoc (bs "PATC")), <- (is_prefix_snoc (bs "TRAC")) by (cbn; lia).
  rewrite <- (is_prefix_snoc (bs "PATC" ++ [ch "H"])), <- (is_prefix_snoc (bs "TRAC" ++ [ch "E"]))
    by (cbn; lia).
  change ((bs "PATC" ++ [ch "H"]) ++ [SP]) with (bs "PATCH ").
  change ((bs "TRAC" ++ [ch "E"]) ++ [SP]) with (bs "TRACE ").
  do 2 (case_if; [done|]).
  destruct (Nat.ltb_spec (length buf) 7) as [H7|H7].
  { by rewrite !is_prefix_short by (cbn; lia). }
  rewrite <- (is_prefix_snoc (bs "DELE")), <- (is_prefix_snoc (bs "DELE" ++ [ch "T"])),
    <- (is_prefix_snoc ((bs "DELE" ++ [ch "T"]) ++ [ch "E"])) by (cbn; lia).
  change (((bs "DELE" ++ [ch "T"]) ++ [ch "E"]) ++ [SP]) with (bs "DELETE ").
  case_if; [done|].
  destruct (Nat.ltb_spec (length buf) 8) as [H8|H8].
  { by rewrite !is_prefix_short by (cbn; lia). }
  rewrite !(load_lit 4 _ (drop 4 buf)) by (done || apply bs_bytes || (rewrite length_drop; lia)
    || by apply Forall_drop).
  by rewrite <- (is_prefix_app (bs "OPTI")), <- (is_prefix_app (bs "CONN")).
Qed.

Lemma method_split buf m pos :
  Forall is_byte buf -> m <> UnknownMethod ->
  parse_method_direct buf (length buf) 0 = (m, pos) <->
  exists rest, buf = http_method_str m ++ SP :: rest /\ pos = S (length (http_method_str m)).
Proof.
  intros Hb Hm. rewrite parse_method_prefix by done. split.
  - repeat match goal with
    | |- context [if is_prefix ?p ?b then _ else _] =>
        destruct (is_prefix p b) eqn:Ep;
        [apply is_prefix_spec in Ep as [k ->]; intros [= <- <-]; by exists k | clear Ep]
    end. by intros [= <- <-].
  - intros (rest & -> & ->). by destruct m.
Qed.

(** ** The request a text denotes *)

(** The fields in order: each is stored and its semantics applied. *)
Fixpoint sem_fields (pos : nat) (req : ParsedRequest) (fs : list field) : option ParsedRequest :=
  match fs with
  | [] => Some req
  | f :: fs' =>
      match apply_semantic_header (f_name f) (f_value f)
              (set_headers req (headers req ++ [field_views pos f])) with
      | (Error, _) => None
      | (_, req') => sem_fields (pos + length (field_text f)) req' fs'
      end
  end.

Definition uri_start (m : HttpMethod) : nat := S (length (http_method_str m)).

(** The view of the canonical path; only an origin-form target has one. *)
Definition canon_view (pos : nat) (uri : list Z) : option view :=
  if rd uri 0 =? slash then
    let '(lo, n) := finalize_view (take (query_start uri) uri) in Some (View (pos + lo) n)
  else None.

Definition line_request (m : HttpMethod) (uri : list Z) (v11 : bool) : ParsedRequest :=
  mkParsedRequest m (Some (View (uri_start m) (length uri))) (canon_view (uri_start m) uri)
    (if v11 then Http11 else Http10) [] 0 0 v11 false false.

Definition request_of (m : HttpMethod) (uri : list Z) (v11 : bool) (fs : list field)
    : option ParsedRequest :=
  match sem_fields (length (line_text m uri v11)) (line_request m uri v11) fs with
  | Some r => if chunked r && has_content_length r then None
              else Some (set_header_count r (length fs))
  | None => None
  end.

Lemma apply_semantic_header_headers n v req st req' :
  apply_semantic_header n v req = (st, req') -> headers req' = headers req.
Proof.
  intros H. assert (headers (apply_semantic_header n v req).2 = headers req) as E;
    [|by rewrite H in E]. clear H.
  unfold apply_semantic_header. destruct (_ =? ch "c").
  - destruct (_ && _); [|by destruct (_ && _)].
    destruct (parse_uint v); [|done..]. destruct (has_content_length req); [|done].
    by destruct (negb _).
  - destruct (_ =? ch "t"); [|done]. destruct (_ && _); [|done]. by destruct (has_chunked_token _ _).
Qed.

Lemma sem_fields_headers pos req fs r :
  sem_fields pos req fs = Some r -> length (headers r) = (length (headers req) + length fs)%nat.
Proof.
  revert pos req. induction fs as [|f fs IH]; intros pos req; cbn [sem_fields length].
  - intros [= <-]. lia.
  - destruct (apply_semantic_header _ _ _) as [st req'] eqn:Es.
    apply apply_semantic_header_headers in Es. cbn [headers set_headers] in Es.
    intros H. assert (sem_fields (pos + length (field_text f)) req' fs = Some r) as H' by by destruct st.
    apply IH in H'. rewrite H', Es. simp_len. lia.
Qed.

Section loop.
Context (buf : list Z).
Hypothesis (Hbuf : Forall is_byte buf).
#[local] Abbreviation header_loop := (header_loop (S := scalar_scanners)).

Lemma field_bytes pos f rest :
  drop pos buf = field_text f ++ rest ->
  bytes_of buf (h_name (field_views pos f)) = f_name f /\
  bytes_of buf (h_value (field_views pos f)) = f_value f.
Proof.
  intros Hd. unfold bytes_of, sub, field_views. cbn [h_name h_value v_off v_len].
  unfold field_text in Hd. rewrite <- !app_assoc in Hd. split.
  - rewrite Hd. apply take_app_length.
  - rewrite <- !drop_drop, Hd, drop_app_length. cbn [app drop].
    by rewrite drop_0, drop_app_length, take_app_length.
Qed.

Lemma field_text_pos f : field_ok f -> (4 <= length (field_text f))%nat.
Proof.
  intros Hf. destruct (field_head f Hf) as (b & nm & E & _). unfold field_text, CRLF.
  rewrite E. simp_len. lia.
Qed.

Lemma header_line_advances pos nv vv next :
  header_line (S := scalar_scanners) buf pos = LHeader nv vv next ->
  exists f rest, field_ok f /\ drop pos buf = field_text f ++ rest /\
    nv = h_name (field_views pos f) /\ vv = h_value (field_views pos f) /\
    next = (pos + length (field_text f))%nat /\ (next <= length buf)%nat.
Proof.
  intros H. destruct (header_line_inv_field buf Hbuf _ _ _ _ H) as (f & rest & Hf & Hd).
  rewrite (header_line_field buf Hbuf pos f rest Hf Hd) in H. injection H as <- <- <-.
  pose proof (field_text_pos f Hf). apply drop_bound in Hd as Hlen.
  - exists f, rest. split_and!; try done. lia.
  - intros E. rewrite E in H. cbn in H. lia.
Qed.

(** Enough fuel always gives an answer. *)
Lemma header_loop_total fuel pos req :
  (length buf < pos + fuel)%nat -> (pos <= length buf)%nat ->
  exists out, header_loop fuel buf pos req = Some out.
Proof.
  revert pos req. induction fuel as [|fuel IH]; intros pos req Hf Hp; [lia|].
  cbn [HttpParser.header_loop].
  destruct (header_line buf pos) as [p|nv vv next| | |] eqn:El; eauto.
  - case_if; eauto.
  - case_if; [eauto|]. destruct (apply_semantic_header _ _ _) as [st req'].
    apply header_line_advances in El as (f & rest & Hok & _ & _ & _ & -> & ?).
    pose proof (field_text_pos f Hok). destruct st; eauto; apply IH; lia.
Qed.

(** The loop completes exactly on a list of fields and an empty line. *)
Lemma header_loop_complete fuel pos req fs rest :
  (length buf < pos + fuel)%nat ->
  drop pos buf = fields_text fs ++ CRLF ++ rest -> Forall field_ok fs ->
  (length (headers req) + length fs <= kMaxHeaders)%nat ->
  header_loop fuel buf pos req =
  match sem_fields pos req fs with
  | Some r =>
      let r' := set_header_count r (length (headers r)) in
      let p := (pos + length (fields_text fs) + 2)%nat in
      Some (POut (if chunked r && has_content_length r then Error else Complete) p r')
  | None => header_loop fuel buf pos req
  end.
Proof.
  revert fuel pos req. induction fs as [|f fs IH]; intros fuel pos req Hfuel Hd Hok Hn.
  - change (drop pos buf = CRLF ++ rest) in Hd. destruct fuel as [|fuel].
    { apply drop_bound in Hd; [|done]. lia. }
    cbn [sem_fields HttpParser.header_loop]. rewrite (header_line_end buf pos rest Hd).
    change (length (fields_text [])) with O. rewrite Nat.add_0_r.
    cbv zeta. cbn [chunked has_content_length set_header_count]. by destruct (_ && _).
  - apply Forall_cons in Hok as [Hf Hok]. cbn [sem_fields].
    assert (drop pos buf = field_text f ++ fields_text fs ++ CRLF ++ rest) as Hd'.
    { rewrite Hd. by rewrite fields_text_cons, <- app_assoc. }
    pose proof (field_text_pos f Hf). destruct fuel as [|fuel].
    { apply drop_bound in Hd'; [|intros E; rewrite E in H; cbn in H]; lia. }
    destruct (apply_semantic_header _ _ _) as [st req'] eqn:Es.
    assert (HttpParser.header_loop (S := scalar_scanners) (S fuel) buf pos req = 
      match st with
      | Error => Some (POut Error 0 req')
      | _ => header_loop fuel buf (pos + length (field_text f)) req'
      end) as Hstep.
    { cbn [HttpParser.header_loop]. rewrite (header_line_field buf Hbuf pos f _ Hf Hd').
      cbn [length] in Hn. rewrite (proj2 (Nat.leb_gt _ _)) by lia.
      destruct (field_bytes pos f _ Hd') as [-> ->].
      replace (mkHeader (h_name (field_views pos f)) (h_value (field_views pos f)))
        with (field_views pos f) by done. rewrite Es. by destruct st. }
    rewrite Hstep. apply apply_semantic_header_headers in Es. cbn [headers set_headers] in Es.
    assert (forall fl, st <> Error -> (length buf < pos + length (field_text f) + fl)%nat ->
      header_loop fl buf (pos + length (field_text f)) req' =
      match sem_fields (pos + length (field_text f)) req' fs with
      | Some r => Some (POut (if chunked r && has_content_length r then Error else Complete)
           (pos + length (fields_text (f :: fs)) + 2) (set_header_count r (length (headers r))))
      | None => header_loop fl buf (pos + length (field_text f)) req'
      end) as Hrec.
    { intros fl _ Hfl. rewrite IH at 1.
      - rewrite fields_text_cons, length_app.
        by rewrite Nat.add_assoc.
      - done.
      - by apply drop_app_length_eq.
      - done.
      - rewrite Es. simp_len. lia. }
    destruct st; [apply Hrec; [done|lia] | apply Hrec; [done|lia] | done].
Qed.

Lemma header_loop_inv fuel pos req he r :
  header_loop fuel buf pos req = Some (POut Complete he r) ->
  exists fs rest r0, drop pos buf = fields_text fs ++ CRLF ++ rest /\ Forall field_ok fs /\
    (length (headers req) <= kMaxHeaders -> length (headers req) + length fs <= kMaxHeaders)%nat /\
    sem_fields pos req fs = Some r0 /\ chunked r0 && has_content_length r0 = false /\
    r = set_header_count r0 (length (headers r0)) /\
    he = (pos + length (fields_text fs) + 2)%nat.
Proof.
  revert pos req. induction fuel as [|fuel IH]; intros pos req; [done|].
  cbn [HttpParser.header_loop]. destruct (header_line buf pos) as [p|nv vv next| | |] eqn:El; try done.
  - apply header_line_inv_end in El as (rest & Hd & ->).
    case_if; [done|]. intros [= <- <-]. exists [], rest, req.
    split_and!; try done; cbn; lia.
  - apply header_line_advances in El as (f & rest & Hok & Hd & -> & -> & -> & _).
    destruct (Nat.leb_spec kMaxHeaders (length (headers req))) as [|Hn]; [done|].
    destruct (field_bytes pos f _ Hd) as [-> ->].
    replace (mkHeader (h_name (field_views pos f)) (h_value (field_views pos f)))
      with (field_views pos f) by done.
    destruct (apply_semantic_header _ _ _) as [st req'] eqn:Es. intros H.
    assert (st <> Error) as Hst by by intros ->.
    assert (header_loop fuel buf (pos + length (field_text f)) req' = Some (POut Complete he r)) as H'
      by by destruct st.
    destruct (IH _ _ H') as (fs & rest' & r0 & Hd' & Hoks & Hle & Hsem & Hno & -> & ->).
    pose proof (apply_semantic_header_headers _ _ _ _ _ Es) as Eh. cbn [headers set_headers] in Eh.
    rewrite Eh in Hle. simp_len. exists (f :: fs), rest', r0.
    rewrite (drop_app_length_eq _ _ _ _ Hd) in Hd'. subst rest.
    split_and!; try done.
    + rewrite Hd. by rewrite fields_text_cons, <- app_assoc.
    + by constructor.
    + cbn [length]. lia.
    + cbn [sem_fields]. rewrite Es. by destruct st.
    + rewrite fields_text_cons, length_app. lia.
  - unfold maybe_incomplete. by destruct (Nat.ltb _ _).
Qed.

End loop.

Section request.
Context (buf : list Z).
Hypothesis (Hbuf : Forall is_byte buf).
#[local] Abbreviation parse_request_line := (parse_request_line (S := scalar_scanners)).

Lemma load_crlf l :
  Forall is_byte l -> (2 <= length l)%nat -> (load_le 2 l =? kCRLF) = is_prefix CRLF l.
Proof.
  intros Hl Hn. change kCRLF with (load_le 2 (bs (String (ascii_of_nat 13) (String (ascii_of_nat 10) "")))).
  rewrite load_lit by (done || apply bs_bytes). done.
Qed.

Lemma maybe_incomplete_not_complete {R} (req : R) he r :
  maybe_incomplete (S := scalar_scanners) buf req <> POut Complete he r.
Proof. unfold maybe_incomplete. by destruct (Nat.ltb _ _). Qed.

Lemma sub_uri (uri rest : list Z) pos k :
  drop pos buf = uri ++ rest -> (k <= length uri)%nat -> sub buf pos k = take k uri.
Proof. intros Hd Hk. unfold sub. rewrite Hd, take_app_le by done. done. Qed.

Lemma query_start_le u : (query_start u <= length u)%nat.
Proof. induction u as [|c u IH]; cbn; [lia|]. case_if; lia. Qed.

(** The request line is read exactly when it is there. *)
Lemma request_line_complete m uri v11 rest req :
  m <> UnknownMethod -> uri <> [] -> Forall uchar uri -> buf = line_text m uri v11 ++ rest ->
  parse_request_line buf req = inr (length (line_text m uri v11), line_request m uri v11).
Proof.
  intros Hm Hne Hu Hbf. unfold HttpParser.parse_request_line.
  assert (exists r, buf = http_method_str m ++ SP :: r) as [r Hr].
  { exists (uri ++ [SP] ++ version_text v11 ++ CRLF ++ rest). rewrite Hbf.
    unfold line_text. by rewrite <- !app_assoc. }
  assert (length (version_text v11) = 8%nat) as Hv by by destruct v11.
  assert (length buf = length (line_text m uri v11) + length rest)%nat as Hlen
    by (rewrite Hbf; by rewrite length_app).
  assert (length (line_text m uri v11) = uri_start m + length uri + 11)%nat as Hll.
  { unfold line_text, uri_start, CRLF. simp_len. lia. }
  rewrite (proj2 (Nat.ltb_ge _ _)) by lia.
  rewrite (proj2 (method_split buf m (uri_start m) Hbuf Hm)) by (exists r; done).
  assert (drop (uri_start m) buf = uri ++ SP :: version_text v11 ++ CRLF ++ rest) as Hd.
  { rewrite Hbf. unfold line_text, uri_start. rewrite <- !app_assoc.
    replace (S (length (http_method_str m))) with (length (http_method_str m ++ [SP]))
      by (simp_len; lia). rewrite (app_assoc (http_method_str m)), drop_app_length. done. }
  cbn [sc_scan_uri scalar_scanners]. unfold scan_uri. rewrite sub_to_end.
  destruct (proj2 (uri_scan_split (length buf) (uri_start m) (length buf) (drop (uri_start m) buf)
    (uri_start m + length uri) (uri_start m + query_start uri)
    ltac:(by apply Forall_drop) ltac:(rewrite length_drop; lia))) as [Hscan Hlt].
  { eexists uri, _. rewrite Nat.eqb_refl. split_and!; [exact Hd | done | done | done]. }
  assert (drop (uri_start m + length uri + 1) buf = version_text v11 ++ CRLF ++ rest) as Hdv.
  { rewrite <- drop_drop, (drop_app_length_eq _ _ _ _ Hd). done. }
  assert (0 < length uri)%nat by (destruct uri; [done | cbn; lia]).
  pose proof (query_start_le uri) as Hq.
  assert (forall A (x y : A), match m with UnknownMethod => x | _ => y end = y) as Hmm
    by (intros; by destruct m).
  rewrite Hmm, Hscan, (proj2 (Nat.leb_gt _ _)) by lia. rewrite (proj2 (Nat.eqb_neq _ _)) by lia.
  rewrite (proj2 (Nat.ltb_ge _ _)) by lia.
  rewrite load_crlf by (rewrite ?length_drop; (by apply Forall_drop) || lia).
  rewrite <- (drop_drop buf 8 _), Hdv.
  replace (drop 8 (version_text v11 ++ CRLF ++ rest)) with (CRLF ++ rest)
    by (destruct v11; reflexivity).
  rewrite (sub_uri uri _ _ _ Hd) by lia.
  replace (uri_start m + query_start uri - uri_start m)%nat with (query_start uri) by lia.
  assert (rd buf (uri_start m) = rd uri 0) as ->.
  { destruct uri as [|x u]; [done|]. apply (rd_drop_head _ _ _ _ Hd). }
  replace (uri_start m + length uri - uri_start m)%nat with (length uri) by lia.
  unfold line_request, canon_view. rewrite Hll.
  replace (load_u64 (version_text v11 ++ CRLF ++ rest)) with (load_u64 (version_text v11))
    by (destruct v11; reflexivity).
  replace (uri_start m + length uri + 1 + 10)%nat with (uri_start m + length uri + 11)%nat by lia.
  destruct (rd uri 0 =? slash); [destruct (finalize_view _)|]; by destruct v11.
Qed.

Lemma request_line_inv req pos r :
  parse_request_line buf req = inr (pos, r) ->
  exists m uri v11 rest, m <> UnknownMethod /\ uri <> [] /\ Forall uchar uri /\
    buf = line_text m uri v11 ++ rest.
Proof.
  unfold HttpParser.parse_request_line. case_if; [done|]. zify_bool.
  destruct (parse_method_direct buf (length buf) 0) as [m p] eqn:Em.
  destruct (decide (m = UnknownMethod)) as [->|Hm]; [done|].
  apply (method_split buf m p Hbuf Hm) in Em as (r1 & Hr1 & ->).
  assert (forall A (x y : A), match m with UnknownMethod => x | _ => y end = y) as Hmm
    by (intros; by destruct m).
  rewrite Hmm. cbn [sc_scan_uri scalar_scanners]. unfold scan_uri. rewrite sub_to_end.
  assert (drop (S (length (http_method_str m))) buf = r1) as Hd.
  { rewrite Hr1. replace (S (length (http_method_str m))) with (length (http_method_str m ++ [SP]))
      by (simp_len; lia). change (SP :: r1) with ([SP] ++ r1). by rewrite app_assoc, drop_app_length. }
  rewrite Hd. set (us := S (length (http_method_str m))) in *.
  destruct (scan_uri_loop _ _ _ _) as [[ue ce]|] eqn:Eu; [|done].
  destruct (Nat.leb_spec (length buf) ue) as [|Hlt]; [done|].
  assert (length buf = us + length r1)%nat as Hlen.
  { rewrite Hr1. subst us. simp_len. lia. }
  assert (Forall is_byte r1) as Hr1b by (rewrite <- Hd; by apply Forall_drop).
  destruct (proj1 (uri_scan_split _ us (length buf) r1 ue ce Hr1b Hlen) (conj Eu Hlt))
    as (uri & r2 & -> & Hu & -> & _).
  destruct (Nat.eqb_spec (us + length uri) us) as [|Hne]; [done|].
  destruct (Nat.ltb_spec (length buf) (us + length uri + 1 + 10)) as [|Hlt2]; [done|].
  assert (drop (us + length uri + 1) buf = r2) as Hd2.
  { rewrite <- !drop_drop, Hd. by rewrite drop_app_length. }
  rewrite <- (drop_drop buf 8), Hd2. simp_len.
  assert (Forall is_byte r2) as Hr2b by (rewrite <- Hd2; by apply Forall_drop).
  rewrite load_crlf by (rewrite ?length_drop; (by apply Forall_drop) || lia).
  destruct (is_prefix CRLF (drop 8 r2)) eqn:Ecr; [|done]. apply is_prefix_spec in Ecr as [r3 Hr3].
  unfold load_u64, kHttp11, kHttp10, u64_lit. rewrite !load_lit by (done || apply bs_bytes || lia).
  intros H. assert (exists v11, is_prefix (version_text v11) r2 = true) as [v11 Hv].
  { cbn [negb] in H. destruct (is_prefix (bs "HTTP/1.1") r2) eqn:E1; [by exists true|].
    destruct (is_prefix (bs "HTTP/1.0") r2) eqn:E0; [by exists false | done]. }
  apply is_prefix_spec in Hv as [k ->]. exists m, uri, v11, r3. split_and!; try done.
  - intros ->. cbn in Hne. lia.
  - assert (k = CRLF ++ r3) as -> by (rewrite <- Hr3; by destruct v11).
    rewrite Hr1. unfold line_text. by rewrite <- !app_assoc.
Qed.

End request.

(** What the parser says of a complete head. *)
Definition parses_to (buf : list Z) (he : nat) (r : ParsedRequest) : Prop :=
  exists m uri v11 fs rest,
    buf = request_text m uri v11 fs ++ rest /\
    m <> UnknownMethod /\ uri <> [] /\ Forall uchar uri /\
    Forall field_ok fs /\ (length fs <= kMaxHeaders)%nat /\
    he = length (request_text m uri v11 fs) /\ request_of m uri v11 fs = Some r.

Lemma scalar_parses buf req he r :
  Forall is_byte buf ->
  parse (S := scalar_scanners) buf req = Some (POut Complete he r) <-> parses_to buf he r.
Proof.
  intros Hb. unfold parse. split.
  - destruct (parse_request_line buf req) as [out|[pos r1]] eqn:El.
    + intros [= ->]. exfalso. revert El. unfold parse_request_line. case_if; [done|].
      destruct (parse_method_direct _ _ _) as [m p].
      pose proof (@maybe_incomplete_not_complete buf ParsedRequest) as Hmi.
      assert (forall q, @inl _ (nat * ParsedRequest) (maybe_incomplete (S := scalar_scanners) buf q)
        <> inl (POut Complete he r)) as Hmi' by (intros q [= E']; by eapply Hmi).
      destruct (decide (m = UnknownMethod)) as [->|Hm]; [apply Hmi'|].
      assert (forall A (x y : A), match m with UnknownMethod => x | _ => y end = y) as ->
        by (intros; by destruct m).
      destruct (sc_scan_uri _ _ _) as [[ue ce]|]; [|done].
      repeat (case_if; try done); apply Hmi'.
    + destruct (request_line_inv buf Hb _ _ _ El) as (m & uri & v11 & rest & Hm & Hne & Hu & Hbf).
      rewrite (request_line_complete buf Hb m uri v11 rest req Hm Hne Hu Hbf) in El.
      injection El as <- <-. intros H.
      destruct (header_loop_inv buf Hb _ _ _ _ _ H) as (fs & rest' & r0 & Hd & Hok & Hle & Hs & Hno & -> & ->).
      assert (rest = fields_text fs ++ CRLF ++ rest') as -> by by rewrite <- Hd, Hbf, drop_app_length.
      exists m, uri, v11, fs, rest'. unfold request_text, request_of. rewrite Hs, Hno.
      split_and!; try done.
      * rewrite Hbf, <- !app_assoc. done.
      * apply Hle. cbn. lia.
      * unfold CRLF. simp_len. lia.
      * by rewrite (sem_fields_headers _ _ _ _ Hs).
  - intros (m & uri & v11 & fs & rest & Hbf & Hm & Hne & Hu & Hok & Hle & -> & Hr).
    unfold request_text in Hbf. rewrite <- !app_assoc in Hbf.
    rewrite (request_line_complete buf Hb m uri v11 _ req Hm Hne Hu Hbf).
    unfold request_of in Hr. destruct (sem_fields _ _ fs) as [r0|] eqn:Hs; [|done].
    rewrite (header_loop_complete buf Hb _ _ _ fs rest).
    + rewrite Hs. destruct (chunked r0 && has_content_length r0); [done|].
      injection Hr as <-. cbv zeta. rewrite (sem_fields_headers _ _ _ _ Hs). do 2 f_equal.
      unfold request_text, CRLF. simp_len. lia.
    + lia.
    + by rewrite Hbf, drop_app_length.
    + done.
    + done.
Qed.

(** C1: whatever the back end, the request parser completes on exactly the
    buffers that start with a request head of the grammar (known method,
    visible-ASCII target, HTTP/1.0 or 1.1, at most 64 well-formed fields, no
    conflicting framing); it then reports the end of that head and the request
    the head denotes, every view being the exact place of its part. *)
Theorem parse_accepts_grammar (Sc : Scanners) (HS : ScannersOk Sc) buf req he r :
  Forall is_byte buf ->
  parse (S := Sc) buf req = Some (POut Complete he r) <-> parses_to buf he r.
Proof. intros Hb. rewrite parse_scalar by done. by apply scalar_parses. Qed.

Lemma parse_accepts_grammar_witness :
  let buf := bs "GET /a HTTP/1.1" ++ CRLF ++ bs "Host: x" ++ CRLF ++ CRLF in
  Forall is_byte buf /\
  (parse (S := sse2_scanners) buf req0 = Some (POut Complete 28
     (mkParsedRequest GET (Some (View 4 2)) (Some (View 5 1)) Http11
        [mkHeader (View 17 4) (View 23 1)] 1 0 true false false)) <->
   parses_to buf 28 (mkParsedRequest GET (Some (View 4 2)) (Some (View 5 1)) Http11
        [mkHeader (View 17 4) (View 23 1)] 1 0 true false false)).
Proof.
  cbv zeta. assert (Forall is_byte (bs "GET /a HTTP/1.1" ++ CRLF ++ bs "Host: x" ++ CRLF ++ CRLF)) as Hb.
  { apply bytes_ok_Forall. reflexivity. }
  split; [done|]. apply (parse_accepts_grammar sse2_scanners _ _ _ _ _ Hb).
Defined.

Lemma parse_total (Sc : Scanners) (HS : ScannersOk Sc) buf req :
  Forall is_byte buf -> exists out, parse (S := Sc) buf req = Some out.
Proof.
  intros Hb. rewrite parse_scalar by done. unfold parse.
  destruct (parse_request_line buf req) as [out|[pos r]] eqn:El; [eauto|].
  destruct (request_line_inv buf Hb _ _ _ El) as (m & uri & v11 & rest & Hm & Hne & Hu & Hbf).
  rewrite (request_line_complete buf Hb m uri v11 rest req Hm Hne Hu Hbf) in El.
  injection El as <- <-. apply header_loop_total; [done | lia |].
  apply (f_equal length) in Hbf. rewrite length_app in Hbf. lia.
Qed.

(** The request parser is total: it never loops, on any input. *)
Theorem parse_terminates (Sc : Scanners) (HS : ScannersOk Sc) buf req :
  Forall is_byte buf -> exists out, parse (S := Sc) buf req = Some out.
Proof. exact (parse_total Sc HS buf req). Qed.

Lemma parse_terminates_witness :
  exists out, parse (S := avx2_scanners) (bs "GET / HTTP/1.1") req0 = Some out.
Proof. apply (parse_terminates avx2_scanners avx2_ok), bytes_ok_Forall. reflexivity. Defined.
