(* ===== verification/HttpFraming.v ===== *)
(** * What the header fields mean for the message body

    The framing and connection semantics that the request parser derives from
    the fields of a head: Content-Length, Transfer-Encoding and Connection,
    stated on the comma or blank separated tokens of the field values. *)

From S2P Require Import Prelude HeaderValidation Simd RouteCanon HttpParser HttpGrammar.

(** ** Tokens *)

(** The maximal runs of bytes that are not separators, in order. *)
Fixpoint tokens_aux (cur : list Z) (l : list Z) : list (list Z) :=
  match l with
  | [] => match cur with [] => [] | _ => [cur] end
  | c :: l' =>
      if is_list_sep c then
        match cur with [] => tokens_aux [] l' | _ => cur :: tokens_aux [] l' end
      else tokens_aux (cur ++ [c]) l'
  end.

Definition tokens (l : list Z) : list (list Z) := tokens_aux [] l.

Definition same_ci (a b : list Z) : Prop := (tolower <$> a) = (tolower <$> b).

#[global] Instance same_ci_dec a b : Decision (same_ci a b).
Proof. unfold same_ci. apply _. Defined.

Lemma tokens_aux_run cur t l :
  Forall (fun c => is_list_sep c = false) t -> tokens_aux cur (t ++ l) = tokens_aux (cur ++ t) l.
Proof.
  intros H. revert cur. induction H as [|c t Hc _ IH]; intros cur; cbn [app tokens_aux].
  - by rewrite app_nil_r.
  - rewrite Hc, IH. by rewrite <- app_assoc.
Qed.

Lemma skip_seps_tokens l : tokens (skip_seps l) = tokens l.
Proof. unfold tokens. induction l as [|c l IH]; cbn; [done|]. by destruct (is_list_sep c) eqn:E; cbn; rewrite ?E. Qed.

Lemma skip_seps_head l c l' : skip_seps l = c :: l' -> is_list_sep c = false.
Proof. induction l as [|x l IH]; cbn; [done|]. destruct (is_list_sep x) eqn:E; [done|]. by intros [= <- _]. Qed.

Lemma skip_seps_length l : (length (skip_seps l) <= length l)%nat.
Proof. induction l as [|x l IH]; cbn; [done|]. destruct (is_list_sep x); cbn; lia. Qed.

Lemma take_token_spec l t r :
  take_token l = (t, r) ->
  l = t ++ r /\ Forall (fun c => is_list_sep c = false) t /\
  (r = [] \/ exists c r', r = c :: r' /\ is_list_sep c = true).
Proof.
  revert t r. induction l as [|c l IH]; intros t r; cbn [take_token].
  - intros [= <- <-]. split_and!; [done | constructor | by left].
  - destruct (is_list_sep c) eqn:E.
    + intros [= <- <-]. split_and!; [done | constructor | right; eauto].
    + destruct (take_token l) as [t' r'] eqn:Et. intros [= <- <-].
      destruct (IH _ _ eq_refl) as (-> & Ht & Hr). split_and!; [done | by constructor | done].
Qed.

(** One round of a token loop: no token, or the first one and the others. *)
Lemma token_round l :
  match skip_seps l with
  | [] => tokens l = []
  | v => let '(t, r) := take_token v in
      tokens l = t :: tokens r /\ (length r < length l)%nat
  end.
Proof.
  pose proof (skip_seps_length l) as Hlen. rewrite <- (skip_seps_tokens l).
  destruct (skip_seps l) as [|c v] eqn:E; [done|].
  destruct (take_token (c :: v)) as [t r] eqn:Et. apply skip_seps_head in E.
  destruct (take_token_spec _ _ _ Et) as (Hv & Ht & Hr). rewrite Hv.
  assert (t <> []) as Hne.
  { cbn [take_token] in Et. rewrite E in Et. destruct (take_token v). by injection Et as <- <-. }
  apply (f_equal length) in Hv. rewrite length_app in Hv.
  split; [|destruct t; [done|]; cbn in *; lia].
  unfold tokens. rewrite tokens_aux_run by done. cbn [app].
  destruct Hr as [->|(d & r' & -> & Hd)]; cbn [tokens_aux]; [by destruct t|].
  rewrite Hd. by destruct t.
Qed.

(** ** Case-insensitive tokens *)

Definition lower_letter (y : Z) : bool := (ch "a" <=? y) && (y <=? ch "z").

Lemma or32_letter x y :
  is_byte x -> lower_letter y = true -> Z.lor x 32 = Z.lor y 32 <-> tolower x = tolower y.
Proof.
  intros Hx Hy. assert (is_byte y) as Hyb.
  { unfold lower_letter in Hy. zify_bool. change (ch "a") with 97 in *. change (ch "z") with 122 in *.
    unfold is_byte. lia. }
  rewrite <- !Z.eqb_eq.
  pose proof (byte_forall (fun x => forallb (fun n => let y := Z.of_nat n in
     implb (lower_letter y) (Bool.eqb (Z.lor x 32 =? Z.lor y 32) (tolower x =? tolower y))) (seq 0 256))
     ltac:(vm_compute; reflexivity) x Hx) as H.
  cbv beta in H. rewrite forallb_forall in H. specialize (H (Z.to_nat y)).
  unfold is_byte in Hyb. rewrite in_seq in H. specialize (H ltac:(lia)).
  cbv zeta in H. rewrite Z2Nat.id, Hy in H by lia. cbn in H.
  apply Bool.eqb_prop in H. by rewrite H.
Qed.

Lemma token_ci n t s :
  Forall is_byte t -> Forall (fun y => lower_letter y = true) (bs s) -> length (bs s) = n ->
  (Nat.eqb (length t) n && str_ci_eq t (bs s)) = bool_decide (same_ci t (bs s)).
Proof.
  intros Ht Hs Hn. apply eq_true_iff_eq. rewrite bool_decide_eq_true, andb_true_iff, Nat.eqb_eq.
  unfold same_ci. split.
  - intros [Hl H]. apply str_ci_eq_bytes in H; [|done|apply bs_bytes|lia].
    revert Ht Hs. clear -H. unfold ci_bytes in H. induction H as [|x y t s' Hxy _ IH]; [done|].
    intros Ht Hs. apply Forall_cons in Ht as [Hx Ht]. apply Forall_cons in Hs as [Hy Hs].
    cbn. f_equal; [by apply or32_letter | by apply IH].
  - intros H. assert (length t = length (bs s)) as Hl.
    { apply (f_equal length) in H. by rewrite !length_fmap in H. }
    split; [lia|]. apply str_ci_eq_bytes; [done | apply bs_bytes | done |].
    unfold ci_bytes. clear Hn. revert Ht Hs Hl H. generalize (bs s) as s'.
    induction t as [|x t IH]; intros [|y s'] Ht Hs Hl H; try done.
    apply Forall_cons in Ht as [Hx Ht]. apply Forall_cons in Hs as [Hy Hs].
    injection H as Hxy H. constructor; [by apply or32_letter | apply IH; auto].
Qed.

(** ** The token loops *)

Definition has_token (s : string) (v : list Z) : Prop := Exists (fun t => same_ci t (bs s)) (tokens v).

(** [Connection]: [close] wins over everything after it, [keep-alive] before
    it is overridden. *)
Fixpoint conn_tokens (ts : list (list Z)) (ka : bool) : bool :=
  match ts with
  | [] => ka
  | t :: ts' =>
      if bool_decide (same_ci t (bs "close")) then false
      else conn_tokens ts' (if Nat.eqb (length t) 10 && str_ci_eq t (bs "keep-alive") then true else ka)
  end.

Lemma token_bytes l t r : Forall is_byte l -> take_token (skip_seps l) = (t, r) ->
  Forall is_byte t /\ Forall is_byte r.
Proof.
  intros Hl Ht. assert (Forall is_byte (skip_seps l)) as Hs.
  { clear Ht. induction Hl as [|c l Hc Hl IH]; cbn; [done|]. case_if; [done | by constructor]. }
  apply take_token_spec in Ht as (E & _). rewrite E in Hs. by apply Forall_app in Hs.
Qed.

Lemma has_chunked_token_spec fuel v :
  Forall is_byte v -> (length v <= fuel)%nat ->
  has_chunked_token fuel v = true <-> has_token "chunked" v.
Proof.
  unfold has_token. revert v. induction fuel as [|fuel IH]; intros v Hv Hf.
  { destruct v; [|cbn in Hf; lia]. cbn. split; [done | intros H; by inversion H]. }
  cbn [has_chunked_token]. pose proof (token_round v) as Hr.
  destruct (skip_seps v) as [|c w] eqn:Es.
  { rewrite Hr. split; [done | intros H; by inversion H]. }
  destruct (take_token (c :: w)) as [t r] eqn:Et. destruct Hr as [-> Hlen]. rewrite <- Es in Et.
  destruct (token_bytes v t r Hv Et) as [Htb Hrb].
  rewrite (token_ci 7 t "chunked" Htb) by (done || by repeat constructor).
  rewrite Exists_cons. case_bool_decide as Hc; [tauto|]. rewrite IH by (done || lia). tauto.
Qed.

Lemma match_connection_spec fuel v ka :
  Forall is_byte v -> (length v <= fuel)%nat ->
  match_connection_loop fuel v ka = conn_tokens (tokens v) ka.
Proof.
  revert v ka. induction fuel as [|fuel IH]; intros v ka Hv Hf.
  { destruct v; [done | cbn in Hf; lia]. }
  cbn [match_connection_loop]. pose proof (token_round v) as Hr.
  destruct (skip_seps v) as [|c w] eqn:Es; [by rewrite Hr|].
  destruct (take_token (c :: w)) as [t r] eqn:Et. destruct Hr as [-> Hlen]. rewrite <- Es in Et.
  destruct (token_bytes v t r Hv Et) as [Htb Hrb]. cbn [conn_tokens].
  rewrite (token_ci 5 t "close" Htb) by (done || by repeat constructor).
  case_bool_decide; [done|]. by case_if; rewrite IH by (done || lia).
Qed.

(** ** Semantic fields *)

Definition is_content_length (f : field) : Prop := same_ci (f_name f) (bs "content-length").
Definition is_connection (f : field) : Prop := same_ci (f_name f) (bs "connection").
Definition is_transfer_encoding (f : field) : Prop := same_ci (f_name f) (bs "transfer-encoding").

#[global] Instance is_content_length_dec f : Decision (is_content_length f).
Proof. apply same_ci_dec. Defined.
#[global] Instance is_connection_dec f : Decision (is_connection f).
Proof. apply same_ci_dec. Defined.
#[global] Instance is_transfer_encoding_dec f : Decision (is_transfer_encoding f).
Proof. apply same_ci_dec. Defined.

(** The value is a decimal number below 2^32. *)
Definition denotes_length (v : list Z) (n : Z) : Prop :=
  v <> [] /\ Forall is_dec v /\ dec_value 0 v = n /\ n < 2 ^ 32.

Definition conn_step (ka : bool) (f : field) : bool :=
  if bool_decide (is_connection f) then conn_tokens (tokens (f_value f)) ka else ka.

(** The two-step name test (first letter, then the rest) is one comparison. *)
Lemma name_test nm x s n :
  nm <> [] -> Forall tchar nm -> lower_letter x = true ->
  Forall (fun y => name_lower y = true) (bs s) -> n = S (length (bs s)) ->
  ((Z.lor (rd nm 0) 32 =? x) && (Nat.eqb (length nm) n && str_ci_eq (drop 1 nm) (bs s))) =
  bool_decide (same_ci nm (x :: bs s)).
Proof.
  intros Hne Ht Hx Hs ->. destruct nm as [|c nm]; [done|]. apply Forall_cons in Ht as [[Hc Htc] Ht].
  apply eq_true_iff_eq. rewrite bool_decide_eq_true, !andb_true_iff, Nat.eqb_eq, Z.eqb_eq.
  unfold same_ci. cbn [rd nth drop length fmap list_fmap]. rewrite drop_0.
  assert (Z.lor x 32 = x) as Hx32.
  { apply Z.eqb_eq. assert (is_byte x) as Hxb.
    { unfold lower_letter in Hx. change (ch "a") with 97 in *. change (ch "z") with 122 in *.
      zify_bool. unfold is_byte. lia. }
    pose proof (byte_forall (fun x => implb (lower_letter x) (Z.lor x 32 =? x))
      ltac:(vm_compute; reflexivity) x Hxb) as H. cbv beta in H. by rewrite Hx in H. }
  rewrite <- Hx32 at 1. unfold rd. cbn [nth]. rewrite (or32_letter c x) by done.
  assert (Forall is_byte nm /\ Forall (fun x => is_http_tchar x = true) nm) as [Hnb Hnt].
  { split; (eapply Forall_impl; [exact Ht|]); by intros ? []. }
  split.
  - intros (Hh & Hl & H). apply str_ci_eq_fold in H; [|done..|lia]. 
    f_equal; [exact Hh | exact H].
  - intros H. injection H as Hh H. assert (length nm = length (bs s)) as Hl.
    { apply (f_equal length) in H. by rewrite !length_fmap in H. }
    split_and!; [done | lia |]. by apply str_ci_eq_fold.
Qed.

(** The semantic dispatch, by field name. *)
Lemma apply_semantic_header_cases f req :
  field_ok f ->
  apply_semantic_header (f_name f) (f_value f) req =
  if bool_decide (is_content_length f) then
    match parse_uint (f_value f) with
    | UOk cl =>
        if has_content_length req then
          if content_length req =? cl then (Complete, req) else (Error, req)
        else (Complete, set_content_length req cl)
    | _ => (Error, req)
    end
  else if bool_decide (is_connection f) then
    (Complete, set_keep_alive req (conn_tokens (tokens (f_value f)) (keep_alive req)))
  else if bool_decide (is_transfer_encoding f) then
    (Complete, if has_chunked_token (length (f_value f)) (f_value f)
               then set_chunked req true else req)
  else (Complete, req).
Proof.
  intros (Hne & Ht & _ & Hv & _). unfold apply_semantic_header, match_connection.
  assert (Forall is_byte (f_value f)) as Hvb by (eapply Forall_impl; [exact Hv|]; by intros ? []).
  rewrite match_connection_spec by done.
  assert (bool_decide (is_content_length f) = _) as ->
    by (symmetry; apply (name_test (f_name f) (ch "c") "ontent-length" 14); by repeat constructor).
  assert (bool_decide (is_connection f) = _) as ->
    by (symmetry; apply (name_test (f_name f) (ch "c") "onnection" 10); by repeat constructor).
  assert (bool_decide (is_transfer_encoding f) = _) as ->
    by (symmetry; apply (name_test (f_name f) (ch "t") "ransfer-encoding" 17); by repeat constructor).
  destruct (Z.eqb_spec (Z.lor (rd (f_name f) 0) 32) (ch "c")) as [E|E]; cbn [andb].
  - destruct (_ && str_ci_eq _ (bs "ontent-length")).
    + destruct (parse_uint _); [|done..]. destruct (has_content_length req); [|done].
      by destruct (_ =? _).
    + destruct (_ && str_ci_eq _ (bs "onnection")); [done|]. by rewrite E.
  - destruct (_ =? ch "t"); [|done]. cbn [andb]. by destruct (_ && _).
Qed.

Lemma tolower_name y : name_lower y = true -> tolower y = y.
Proof.
  unfold name_lower, tolower. change (ch "a") with 97. change (ch "z") with 122.
  change (ch "-") with 45. change (ch "A") with 65. change (ch "Z") with 90.
  intros H. case_if; [|done]. apply orb_true_iff in H as [H|H]; zify_bool; lia.
Qed.

Lemma same_ci_excl nm s t :
  forallb name_lower (bs s) = true -> forallb name_lower (bs t) = true -> bs s <> bs t ->
  same_ci nm (bs s) -> ~ same_ci nm (bs t).
Proof.
  assert (forall l, forallb name_lower l = true -> tolower <$> l = l) as Hid.
  { intros l. induction l as [|y l IH]; cbn [forallb]; [done|]. intros H. apply andb_prop in H as [Hy H].
    rewrite fmap_cons, tolower_name by done. f_equal. by apply IH. }
  unfold same_ci. intros Hs Ht Hne Es Et. apply Hne. 
  rewrite (Hid (bs s) Hs) in Es. rewrite (Hid (bs t) Ht) in Et. congruence.
Qed.

Lemma sem_fields_framing pos req fs r :
  Forall field_ok fs -> sem_fields pos req fs = Some r ->
  (has_content_length r = true <-> has_content_length req = true \/ Exists is_content_length fs) /\
  (has_content_length req = true -> content_length r = content_length req) /\
  Forall (fun f => is_content_length f -> denotes_length (f_value f) (content_length r)) fs /\
  (chunked r = true <-> chunked req = true \/
     Exists (fun f => is_transfer_encoding f /\ has_token "chunked" (f_value f)) fs) /\
  keep_alive r = foldl conn_step (keep_alive req) fs.
Proof.
  intros Hok. revert pos req. induction Hok as [|f fs Hf Hok IH]; intros pos req; cbn [sem_fields foldl].
  { intros [= <-]. rewrite !Exists_nil. split_and!; try tauto; constructor. }
  rewrite apply_semantic_header_cases by done. unfold conn_step at 2. rewrite !Exists_cons, Forall_cons.
  assert (Forall is_byte (f_value f)) as Hvb.
  { destruct Hf as (_ & _ & _ & Hv & _). eapply Forall_impl; [exact Hv|]. by intros ? []. }
  case_bool_decide as Hcl; [|case_bool_decide as Hcn; [|case_bool_decide as Hte]].
  - pose proof (same_ci_excl (f_name f) "content-length" "connection" eq_refl eq_refl ltac:(done) Hcl) as Hcn.
    pose proof (same_ci_excl (f_name f) "content-length" "transfer-encoding" eq_refl eq_refl ltac:(done) Hcl) as Hte.
    rewrite (bool_decide_eq_false_2 (is_connection f)) by done.
    destruct (parse_uint (f_value f)) as [cl| |] eqn:Eu; [|done..].
    apply parse_uint_iff in Eu as (Hne & Hdec & Hval & Hlt); [|done].
    assert (denotes_length (f_value f) cl) as Hden by done.
    cbn [has_content_length content_length set_headers]. destruct (has_content_length req) eqn:Eh.
    + destruct (Z.eqb_spec (content_length req) cl) as [Ecl|]; [|done]. intros H.
      apply IH in H as (H1 & H2 & H3 & H4 & H5). cbn [has_content_length content_length chunked keep_alive set_headers] in *.
      rewrite (H2 Eh) in *. unfold is_transfer_encoding in *. rewrite <- Ecl in Hden.
      split_and!; try done; tauto.
    + intros H. apply IH in H as (H1 & H2 & H3 & H4 & H5).
      cbn [has_content_length content_length chunked keep_alive set_headers set_content_length] in *.
      rewrite (H2 eq_refl) in *. unfold is_transfer_encoding in *. split_and!; try done; tauto.
  - pose proof (same_ci_excl (f_name f) "connection" "transfer-encoding" eq_refl eq_refl ltac:(done) Hcn) as Hte.
    intros H. apply IH in H as (H1 & H2 & H3 & H4 & H5).
    cbn [has_content_length content_length chunked keep_alive set_headers set_keep_alive] in *.
    unfold is_transfer_encoding in *. split_and!; try done; tauto.
  - pose proof (has_chunked_token_spec (length (f_value f)) (f_value f) Hvb ltac:(lia)) as Hct.
    destruct (has_chunked_token _ _); intros H; apply IH in H as (H1 & H2 & H3 & H4 & H5);
      cbn [has_content_length content_length chunked keep_alive set_headers set_chunked] in *;
      split_and!; try done; try tauto. rewrite H4. intuition congruence.
  - intros H. apply IH in H as (H1 & H2 & H3 & H4 & H5).
    cbn [has_content_length content_length chunked keep_alive set_headers] in *.
    split_and!; try done; tauto.
Qed.

(** C9: the body framing of an accepted request is unambiguous and comes from
    its fields: [has_content_length] holds exactly when some field is a
    Content-Length, every such field is a decimal number below 2^32 equal to
    [content_length]; [chunked] holds exactly when a Transfer-Encoding field has
    a chunked token; the two never hold together; [keep_alive] is the version
    default updated by the Connection tokens in order. *)
Theorem request_framing (Sc : Scanners) (HS : ScannersOk Sc) buf req he r :
  Forall is_byte buf -> parse (S := Sc) buf req = Some (POut Complete he r) ->
  exists m uri v11 fs rest, buf = request_text m uri v11 fs ++ rest /\ Forall field_ok fs /\
    (has_content_length r = true <-> Exists is_content_length fs) /\
    Forall (fun f => is_content_length f -> denotes_length (f_value f) (content_length r)) fs /\
    (chunked r = true <->
       Exists (fun f => is_transfer_encoding f /\ has_token "chunked" (f_value f)) fs) /\
    chunked r && has_content_length r = false /\
    keep_alive r = foldl conn_step v11 fs.
Proof.
  intros Hb. rewrite parse_scalar, scalar_parses by done.
  intros (m & uri & v11 & fs & rest & Hbuf & _ & _ & _ & Hok & _ & _ & Hr).
  unfold request_of in Hr. destruct (sem_fields _ _ _) as [r0|] eqn:Hs; [|done].
  destruct (chunked r0 && has_content_length r0) eqn:Hno; [done|]. injection Hr as <-.
  destruct (sem_fields_framing _ _ _ _ Hok Hs) as (H1 & _ & H3 & H4 & H5).
  exists m, uri, v11, fs, rest. cbn in *.
  split_and!; try done; naive_solver.
Qed.

Definition framing_ex : list Z :=
  bs "POST /u HTTP/1.1" ++ CRLF ++ bs "Content-Length: 12" ++ CRLF ++ CRLF ++ bs "hello world!".

Lemma request_framing_witness :
  exists r, parse (S := avx512_scanners) framing_ex req0 = Some (POut Complete 40 r) /\
  exists m uri v11 fs rest, framing_ex = request_text m uri v11 fs ++ rest /\ Forall field_ok fs /\
    (has_content_length r = true <-> Exists is_content_length fs) /\
    Forall (fun f => is_content_length f -> denotes_length (f_value f) (content_length r)) fs /\
    (chunked r = true <->
       Exists (fun f => is_transfer_encoding f /\ has_token "chunked" (f_value f)) fs) /\
    chunked r && has_content_length r = false /\
    keep_alive r = foldl conn_step v11 fs.
Proof.
  eexists. split; [vm_compute; reflexivity|].
  eapply (request_framing avx512_scanners _ framing_ex req0 40);
    [by apply bytes_ok_Forall | vm_compute; reflexivity].
Defined.

(** ** The buffer around the head *)

(** Parsing is incremental: once a request head is complete, more bytes
    after it change nothing (status, end of the head and request). *)
Theorem parse_complete_extends (Sc : Scanners) (HS : ScannersOk Sc) buf more req he r :
  Forall is_byte buf -> Forall is_byte more ->
  parse (S := Sc) buf req = Some (POut Complete he r) ->
  (he <= length buf)%nat /\ parse (S := Sc) (buf ++ more) req = Some (POut Complete he r).
Proof.
  intros Hb Hm. rewrite (parse_scalar Sc buf), scalar_parses by done.
  intros (m & uri & v11 & fs & rest & Hbuf & H). split.
  - destruct H as (_ & _ & _ & _ & _ & -> & _). rewrite Hbuf, length_app. lia.
  - assert (Forall is_byte (buf ++ more)) as Hbm by by rewrite Forall_app.
    rewrite parse_scalar by done. apply scalar_parses; [done|].
    exists m, uri, v11, fs, (rest ++ more). split; [|done]. by rewrite Hbuf, <- app_assoc.
Qed.

Lemma parse_complete_extends_witness :
  (40 <= length framing_ex)%nat /\
  exists r, parse (S := sse2_scanners) (framing_ex ++ bs "GET /") req0 = Some (POut Complete 40 r).
Proof.
  assert (exists r, parse (S := sse2_scanners) framing_ex req0 = Some (POut Complete 40 r)) as [r Hr].
  { eexists. vm_compute. reflexivity. }
  destruct (parse_complete_extends sse2_scanners sse2_ok framing_ex (bs "GET /") req0 40 r
    (bytes_ok_Forall framing_ex eq_refl) (bytes_ok_Forall (bs "GET /") eq_refl) Hr) as [H1 H2].
  split; [exact H1 | exists r; exact H2].
Defined.

Lemma sem_fields_paths pos req fs r :
  sem_fields pos req fs = Some r ->
  method r = method req /\ path r = path req /\ path_canon r = path_canon req /\ version r = version req.
Proof.
  revert pos req. induction fs as [|f fs IH]; intros pos req; cbn [sem_fields].
  { by intros [= <-]. }
  set (req1 := set_headers _ _).
  assert (method (apply_semantic_header (f_name f) (f_value f) req1).2 = method req /\
    path (apply_semantic_header (f_name f) (f_value f) req1).2 = path req /\
    path_canon (apply_semantic_header (f_name f) (f_value f) req1).2 = path_canon req /\
    version (apply_semantic_header (f_name f) (f_value f) req1).2 = version req) as Hs.
  { unfold apply_semantic_header. destruct (_ =? ch "c").
    - destruct (_ && _); [|by destruct (_ && _)].
      destruct (parse_uint _); [|done..]. destruct (has_content_length req1); [|done].
      by destruct (negb _).
    - destruct (_ =? ch "t"); [|done]. destruct (_ && _); [|done].
      by destruct (has_chunked_token _ _). }
  destruct (apply_semantic_header _ _ _) as [st req2]. cbn [snd] in Hs.
  destruct Hs as (<- & <- & <- & <-). destruct st; [apply IH | apply IH | done].
Qed.

(** The extent of the head and the ranges of the framing fields. *)
Lemma parse_uint_range v n : parse_uint v = UOk n -> 0 <= n < 2 ^ 32.
Proof.
  assert (forall acc, 0 <= acc < 2 ^ 32 -> parse_uint_loop acc v = UOk n -> 0 <= n < 2 ^ 32) as H.
  { induction v as [|c v IH]; intros acc Hacc; cbn [parse_uint_loop]; [by intros [= <-]|].
    case_if; [done|]. case_if; [done|]. apply IH. apply wrap_range. lia. }
  unfold parse_uint. case_if; [done|]. apply H. lia.
Qed.

Lemma sem_fields_length pos req fs r :
  sem_fields pos req fs = Some r -> 0 <= content_length req < 2 ^ 32 -> 0 <= content_length r < 2 ^ 32.
Proof.
  revert pos req. induction fs as [|f fs IH]; intros pos req; cbn [sem_fields]; [by intros [= <-]|].
  set (req1 := set_headers _ _). intros H Hr.
  assert (0 <= content_length (apply_semantic_header (f_name f) (f_value f) req1).2 < 2 ^ 32) as Hs.
  { unfold apply_semantic_header. destruct (_ =? ch "c").
    - destruct (_ && _); [|by destruct (_ && _)].
      destruct (parse_uint _) eqn:Eu; [|done..]. apply parse_uint_range in Eu.
      destruct (has_content_length req1); [by destruct (negb _)|done].
    - destruct (_ =? ch "t"); [|done]. destruct (_ && _); [|done]. by destruct (has_chunked_token _ _). }
  destruct (apply_semantic_header _ _ _) as [st req2]. cbn [snd] in Hs. destruct st; [by eapply IH | by eapply IH | done].
Qed.

Lemma parsed_extent (Sc : Scanners) (HS : ScannersOk Sc) buf req he r :
  Forall is_byte buf -> parse (S := Sc) buf req = Some (POut Complete he r) ->
  (0 < he <= length buf)%nat /\ 0 <= content_length r < 2 ^ 32 /\
  chunked r && has_content_length r = false.
Proof.
  intros Hb. rewrite parse_scalar, scalar_parses by done.
  intros (m & uri & v11 & fs & rest & -> & _ & _ & _ & _ & _ & -> & Hr).
  unfold request_of in Hr. destruct (sem_fields _ _ _) as [r0|] eqn:Hs; [|done].
  destruct (chunked r0 && has_content_length r0) eqn:Hno; [done|]. injection Hr as <-.
  apply sem_fields_length in Hs; [|cbn; lia]. split_and!; try apply Hs; [|by rewrite length_app; lia|done].
  unfold request_text, CRLF. simp_len. lia.
Qed.

Lemma parsed_target (Sc : Scanners) (HS : ScannersOk Sc) buf req he r :
  Forall is_byte buf -> parse (S := Sc) buf req = Some (POut Complete he r) ->
  exists p rest, path r = Some p /\
    buf = http_method_str (method r) ++ [SP] ++ bytes_of buf p ++ [SP] ++ rest /\
    Forall uchar (bytes_of buf p) /\
    if rd (bytes_of buf p) 0 =? slash then
      exists c, path_canon r = Some c /\
        Some (bytes_of buf c) = canonicalize_request (Some (bytes_of buf p))
    else path_canon r = None.
Proof.
  intros Hb. rewrite parse_scalar, scalar_parses by done.
  intros (m & uri & v11 & fs & rest & Hbuf & _ & Hne & Hu & Hok & _ & _ & Hr).
  unfold request_of in Hr. destruct (sem_fields _ _ _) as [r0|] eqn:Hs; [|done].
  destruct (chunked r0 && has_content_length r0); [done|]. injection Hr as <-.
  apply sem_fields_paths in Hs as (Hm & Hp & Hc & _).
  cbn [path path_canon method set_header_count line_request] in *. rewrite Hm, Hp, Hc.
  exists (View (uri_start m) (length uri)), (version_text v11 ++ CRLF ++ fields_text fs ++ CRLF ++ rest).
  assert (drop (uri_start m) buf = uri ++ SP :: version_text v11 ++ CRLF ++ fields_text fs ++ CRLF ++ rest) as Hd.
  { rewrite Hbuf. unfold request_text, line_text, uri_start. rewrite <- !app_assoc.
    replace (S (length (http_method_str m))) with (length (http_method_str m ++ [SP]))
      by (simp_len; lia). rewrite (app_assoc (http_method_str m)), drop_app_length. done. }
  assert (bytes_of buf (View (uri_start m) (length uri)) = uri) as ->.
  { unfold bytes_of. cbn [v_off v_len]. rewrite (sub_uri buf _ _ _ _ Hd) by lia. by apply take_ge. }
  split_and!; [done | | done |].
  - rewrite Hbuf. unfold request_text, line_text. by rewrite <- !app_assoc.
  - unfold canon_view. destruct (rd uri 0 =? slash); [|done].
    cbn [canonicalize_request finalize_path_canonical].
    pose proof (finalize_in_bounds (take (query_start uri) uri)) as Hfb.
    destruct (finalize_view (take (query_start uri) uri)) as [lo n]. cbn [fst snd] in Hfb.
    eexists. split; [done|]. f_equal. unfold bytes_of, sub. cbn [v_off v_len].
    rewrite <- drop_drop, Hd. rewrite length_take in Hfb.
    rewrite <- (take_drop (query_start uri) uri) at 1. rewrite <- app_assoc.
    rewrite drop_app_le, take_app_le by (rewrite ?length_drop, length_take; lia). done.
Qed.

(** The views of the target lie in the buffer, the canonical one in the path. *)
Lemma parsed_views (Sc : Scanners) (HS : ScannersOk Sc) buf req he r :
  Forall is_byte buf -> parse (S := Sc) buf req = Some (POut Complete he r) ->
  exists p, path r = Some p /\ (0 < v_len p)%nat /\ (v_off p + v_len p <= length buf)%nat /\
    forall cv, path_canon r = Some cv ->
      (v_off p <= v_off cv)%nat /\ (v_off cv + v_len cv <= v_off p + v_len p)%nat.
Proof.
  intros Hb. rewrite parse_scalar, scalar_parses by done.
  intros (m & uri & v11 & fs & rest & -> & _ & Hne & _ & _ & _ & _ & Hr).
  unfold request_of in Hr. destruct (sem_fields _ _ _) as [r0|] eqn:Hs; [|done].
  destruct (chunked r0 && has_content_length r0); [done|]. injection Hr as <-.
  apply sem_fields_paths in Hs as (_ & Hp & Hc & _).
  cbn [path path_canon set_header_count line_request] in *. rewrite Hp, Hc.
  eexists. split; [done|]. cbn [v_off v_len]. split_and!.
  - destruct uri; [done | cbn; lia].
  - unfold request_text, line_text, uri_start. simp_len. lia.
  - intros cv. unfold canon_view. case_if; [|done].
    pose proof (finalize_in_bounds (take (query_start uri) uri)) as Hfb.
    destruct (finalize_view (take (query_start uri) uri)) as [lo n]. intros [= <-].
    cbn [fst snd v_off v_len] in *. rewrite length_take in Hfb. unfold uri_start. lia.
Qed.

(** An accepted request carries its method and target as sent, and the
    dispatch path is the canonical form of an origin-form target (leading
    slash), absent for any other form. *)
Theorem parse_target (Sc : Scanners) (HS : ScannersOk Sc) buf req he r :
  Forall is_byte buf -> parse (S := Sc) buf req = Some (POut Complete he r) ->
  exists p rest, path r = Some p /\
    buf = http_method_str (method r) ++ [SP] ++ bytes_of buf p ++ [SP] ++ rest /\
    Forall uchar (bytes_of buf p) /\
    if rd (bytes_of buf p) 0 =? slash then
      exists c, path_canon r = Some c /\
        Some (bytes_of buf c) = canonicalize_request (Some (bytes_of buf p))
    else path_canon r = None.
Proof. exact (parsed_target Sc HS buf req he r). Qed.

Lemma parse_target_witness :
  exists r, parse (S := sse2_scanners) framing_ex req0 = Some (POut Complete 40 r) /\
  exists p rest, path r = Some p /\
    framing_ex = http_method_str (method r) ++ [SP] ++ bytes_of framing_ex p ++ [SP] ++ rest /\
    Forall uchar (bytes_of framing_ex p) /\
    if rd (bytes_of framing_ex p) 0 =? slash then
      exists c, path_canon r = Some c /\
        Some (bytes_of framing_ex c) = canonicalize_request (Some (bytes_of framing_ex p))
    else path_canon r = None.
Proof.
  eexists. split; [vm_compute; reflexivity|].
  eapply (parse_target sse2_scanners _ framing_ex req0 40);
    [by apply bytes_ok_Forall | vm_compute; reflexivity].
Defined.

(** The rejection of conflicting framing headers is the one error that leaves
    a non-zero [header_end]. *)
Example smuggling_error_header_end :
  exists r, parse (S := scalar_scanners)
    (bs "GET / HTTP/1.1" ++ CRLF ++ bs "Content-Length: 1" ++ CRLF ++
     bs "Transfer-Encoding: chunked" ++ CRLF ++ CRLF) req0 = Some (POut Error 65 r).
Proof. eexists. vm_compute. reflexivity. Qed.

(** ** Responses *)

Lemma status_line_pos buf resp pos r :
  parse_status_line buf resp = inr (pos, r) ->
  (pos <= length buf)%nat /\ 100 <= r_status_code r <= 599 /\ 0 <= r_content_length r < 2 ^ 32.
Proof.
  unfold parse_status_line. repeat (case_if; try done). zify_bool.
  intros [= <- <-]. cbn [r_status_code r_set_status]. change (9 + 1)%nat with 10%nat in *.
  change (9 + 2)%nat with 11%nat in *. cbn; lia.
Qed.

Definition r_length_ok (r : ParsedResponse) : Prop := 0 <= r_content_length r < 2 ^ 32.

Lemma semantic_response_status n v resp st resp' :
  apply_semantic_header_response n v resp = (st, resp') ->
  r_status_code resp' = r_status_code resp /\ (r_length_ok resp -> r_length_ok resp').
Proof.
  assert (forall fuel w x, r_status_code (match_connection_response fuel w x) = r_status_code x /\
    (r_length_ok x -> r_length_ok (match_connection_response fuel w x))) as Hc.
  { induction fuel as [|fuel IH]; intros w x; cbn [match_connection_response]; [done|].
    destruct (skip_seps w) as [|c l]; [done|]. destruct (take_token (c :: l)) as [tok rest].
    case_if; [done|]. case_if; [apply (IH rest (r_set_keep_alive x true)) | apply IH]. }
  intros H. assert (r_status_code (apply_semantic_header_response n v resp).2 = r_status_code resp /\
    (r_length_ok resp -> r_length_ok (apply_semantic_header_response n v resp).2)) as E;
    [|by rewrite H in E]. clear H. unfold apply_semantic_header_response.
  destruct (_ =? ch "c").
  - destruct (_ && _).
    + destruct (parse_uint v) eqn:Ev; [|done..]. destruct (r_has_content_length resp).
      * by destruct (negb _).
      * split; [done|]. intros _. by apply parse_uint_range in Ev.
    + destruct (_ && _); [|done]. apply Hc.
  - destruct (_ =? ch "t"); [|done]. destruct (_ && _); [|done]. by destruct (has_chunked_token _ _).
Qed.

Lemma response_loop_sound buf fuel pos resp :
  Forall is_byte buf -> (length buf < pos + fuel)%nat -> (pos <= length buf)%nat ->
  exists out, response_header_loop (S := scalar_scanners) fuel buf pos resp = Some out /\
    (po_status out = Complete ->
       (exists fs rest, drop pos buf = fields_text fs ++ CRLF ++ rest /\ Forall field_ok fs /\
          po_header_end out = (pos + length (fields_text fs) + 2)%nat) /\
       r_status_code (po_req out) = r_status_code resp /\ (r_length_ok resp -> r_length_ok (po_req out))).
Proof.
  intros Hb. revert pos resp. induction fuel as [|fuel IH]; intros pos resp Hf Hp; [lia|].
  cbn [response_header_loop]. unfold response_header_line.
  destruct (header_line buf pos) as [p|nv vv next| | |] eqn:El.
  - apply header_line_inv_end in El as (rest & Hd & ->). eexists. split; [done|]. intros _.
    split; [|done]. exists [], rest. split_and!; [done | constructor | cbn; lia].
  - apply (header_line_advances buf Hb) in El as (f & rest & Hok & Hd & _ & _ & -> & Hle).
    set (resp1 := if Nat.ltb _ _ then _ else _).
    assert (r_status_code resp1 = r_status_code resp /\ (r_length_ok resp -> r_length_ok resp1)) as [H1 H1']
      by (subst resp1; by destruct (Nat.ltb _ _)).
    destruct (apply_semantic_header_response _ _ _) as [st resp2] eqn:Es.
    apply semantic_response_status in Es as [Es Es']. pose proof (field_text_pos f Hok).
    destruct (IH (pos + length (field_text f))%nat resp2) as (out & Ho & Hc); [lia | lia |].
    assert (exists out', match st with
        | Error => Some (POut Error 0 resp2)
        | _ => response_header_loop (S := scalar_scanners) fuel buf (pos + length (field_text f)) resp2
        end = Some out' /\ (po_status out' = Complete -> out' = out)) as (out' & -> & Heq).
    { destruct st; [exists out; done | exists out; done | by eexists]. }
    exists out'. split; [done|]. intros Hcomp. pose proof (Heq Hcomp) as ->.
    destruct (Hc Hcomp) as ((fs & rest' & Hd' & Hoks & He) & Hst & Hln).
    split; [|split; [congruence | tauto]].
    exists (f :: fs), rest'. rewrite (drop_app_length_eq _ _ _ _ Hd) in Hd'. subst rest.
    rewrite fields_text_cons. split_and!; [by rewrite <- app_assoc | by constructor |].
    rewrite He, length_app. lia.
  - eexists. split; [done|]. done.
  - eexists. split; [done|]. done.
  - eexists. split; [done|]. unfold maybe_incomplete. by destruct (Nat.ltb _ _).
Qed.

Lemma parse_response_spec (Sc : Scanners) (HS : ScannersOk Sc) buf resp :
  Forall is_byte buf ->
  exists out, parse_response (S := Sc) buf resp = Some out /\
    (po_status out = Complete ->
       100 <= r_status_code (po_req out) <= 599 /\ r_length_ok (po_req out) /\
       exists line fs rest, buf = line ++ fields_text fs ++ CRLF ++ rest /\ Forall field_ok fs /\
         po_header_end out = length (line ++ fields_text fs ++ CRLF)).
Proof.
  intros Hb. rewrite parse_response_scalar by done. unfold parse_response.
  destruct (parse_status_line buf resp) as [out|[pos r]] eqn:El.
  - exists out. split; [done|]. intros Hc. exfalso. revert El Hc. unfold parse_status_line.
    repeat (case_if; try (by intros [= <-])); done.
  - destruct (status_line_pos _ _ _ _ El) as (Hp & Hst & Hln).
    destruct (response_loop_sound buf (S (length buf)) pos r Hb ltac:(lia) Hp) as (out & Ho & Hc).
    exists out. split; [done|]. intros Hcomp.
    destruct (Hc Hcomp) as ((fs & rest & Hd & Hok & He) & -> & Hln'). split; [done|]. split; [by apply Hln'|].
    exists (take pos buf), fs, rest. split_and!; [|done|].
    + by rewrite <- Hd, take_drop.
    + rewrite He. unfold CRLF. simp_len. lia.
Qed.


Definition response_ex : list Z :=
  bs "HTTP/1.1 200 OK" ++ CRLF ++ bs "Content-Length: 2" ++ CRLF ++ CRLF ++ bs "ok".

