(* ===== verification/RouteMethod.v ===== *)
(** * Route method keys

    Model of include/rut/runtime/route_method.h and of the method enumeration
    of include/rut/runtime/access_log.h: the byte keys under which the route
    tables store a method filter, 0 being any method. *)

From S2P Require Import Prelude HttpParser.

Inductive LogHttpMethod :=
  | LGet | LPost | LPut | LDelete | LPatch | LHead | LOptions | LConnect | LTrace | LOther.

#[global] Instance LogHttpMethod_eq_dec : EqDecision LogHttpMethod.
Proof. solve_decision. Defined.

Definition kRouteMethodAny : Z := 0.
Definition kRouteMethodSlots : nat := 10.
Definition kRouteMethodInvalid : Z := 255.

Definition route_method_key (m : HttpMethod) : Z :=
  match m with
  | GET => 1 | POST => 2 | PUT => 3 | DELETE => 4 | PATCH => 5 | HEAD => 6
  | OPTIONS => 7 | CONNECT => 8 | TRACE => 9 | UnknownMethod => kRouteMethodInvalid
  end.

Definition log_route_method_key (m : LogHttpMethod) : Z :=
  match m with
  | LGet => 1 | LPost => 2 | LPut => 3 | LDelete => 4 | LPatch => 5 | LHead => 6
  | LOptions => 7 | LConnect => 8 | LTrace => 9 | LOther => kRouteMethodAny
  end.

Definition route_method_key_from_legacy_char (m : Z) : Z :=
  if m =? 0 then kRouteMethodAny
  else if m =? ch "G" then 1
  else if m =? ch "P" then 2
  else if m =? ch "D" then 4
  else if m =? ch "H" then 6
  else if m =? ch "O" then 7
  else if m =? ch "C" then 8
  else if m =? ch "T" then 9
  else m.

(** [None] is [kRouteMethodSlotInvalid]. *)
Definition route_method_slot_from_key (k : Z) : option nat :=
  if k <? Z.of_nat kRouteMethodSlots then Some (Z.to_nat k) else None.

Definition route_method_slot (m : Z) : option nat :=
  route_method_slot_from_key (route_method_key_from_legacy_char m).

Lemma slot_from_key_range k s : 0 <= k -> route_method_slot_from_key k = Some s ->
  (s < kRouteMethodSlots)%nat /\ Z.of_nat s = k.
Proof.
  unfold route_method_slot_from_key. intros Hk H. case_if_in H; [|done]. injection H as <-.
  zify_bool. lia.
Qed.

Lemma legacy_key_byte m : 0 <= m -> 0 <= route_method_key_from_legacy_char m.
Proof. intros H. unfold route_method_key_from_legacy_char, kRouteMethodAny. repeat case_if; lia. Qed.

Lemma route_method_slot_range m s :
  0 <= m -> route_method_slot m = Some s -> (s < kRouteMethodSlots)%nat.
Proof. intros Hm H. apply slot_from_key_range in H; [tauto | by apply legacy_key_byte]. Qed.

(** Method keys are faithful: known methods have distinct keys, every key
    is its own slot and never the any slot, and normalizing a key as if it were
    a legacy method byte leaves it alone. *)
Theorem method_keys_faithful m :
  m <> UnknownMethod ->
  (forall m', route_method_key m' = route_method_key m -> m' = m) /\
  route_method_slot_from_key (route_method_key m) = Some (Z.to_nat (route_method_key m)) /\
  route_method_key m <> kRouteMethodAny /\
  route_method_slot (route_method_key m) = route_method_slot_from_key (route_method_key m).
Proof.
  intros Hm. split; [intros m'; by destruct m, m' | by destruct m].
Qed.

Lemma method_keys_faithful_witness :
  route_method_slot (route_method_key PATCH) = route_method_slot_from_key (route_method_key PATCH).
Proof. apply (method_keys_faithful PATCH ltac:(discriminate)). Defined.
