(* ===== verification/RouteTrie.v ===== *)
(** * Segment trie

    Model of include/rut/runtime/route_trie.h and src/runtime/route_trie.cc.
    The node pool is a list of nodes that refer to each other by index, as in
    the code; a segment is the byte run its view covers.  Indices stay below
    4097, so their 16-bit storage never truncates.  The theorems relate the
    pool to the finite map from (pattern, method slot) to route it stands for:
    [insert] is an atomic first-wins update of that map, and [match_key]
    returns a best match of it. *)

From S2P Require Import Prelude HttpParser RouteMethod.

Definition sep : Z := ch "/".

Definition kMaxChildren : nat := 128.
Definition kInvalidRoute : Z := 65535.
Definition kMaxNodes : nat := 4097.
Definition kMaxPathSegments : nat := 64.
Definition kMaxRouteParams : nat := 16.

(** [FixedVec::push]: [None] when the vector is full. *)
Definition push {A} (cap : nat) (v : list A) (x : A) : option (list A) :=
  if Nat.leb cap (length v) then None else Some (v ++ [x]).

Record TrieNode := mkNode {
  segment : list Z;
  children : list nat;
  route_idx_by_method : list Z
}.

Definition empty_node (seg : list Z) : TrieNode :=
  mkNode seg [] (replicate kRouteMethodSlots kInvalidRoute).

Definition set_children (n : TrieNode) (c : list nat) : TrieNode :=
  mkNode (segment n) c (route_idx_by_method n).

Definition set_route (n : TrieNode) (slot : nat) (r : Z) : TrieNode :=
  mkNode (segment n) (children n) (<[slot := r]> (route_idx_by_method n)).

(** [nodes[i]]; the code only indexes live nodes. *)
Definition node_at (nodes : list TrieNode) (i : nat) : TrieNode := nth i nodes (empty_node []).

Definition upd_node (nodes : list TrieNode) (i : nat) (f : TrieNode -> TrieNode) : list TrieNode :=
  <[i := f (node_at nodes i)]> nodes.

(** [RouteTrie::clear] *)
Definition clear : list TrieNode := [empty_node []].

(** ** Tokenization *)

(** [seg] is [path[start..i)]; the loop also runs at [i == path.len]. *)
Fixpoint tokenize_loop (seg : list Z) (path : list Z) (out : list (list Z))
    : list (list Z) * bool :=
  match path with
  | [] =>
      if Nat.ltb 0 (length seg) then
        match push kMaxPathSegments out seg with
        | Some out' => (out', true)
        | None => (out, false)
        end
      else (out, true)
  | c :: path' =>
      if negb (c =? sep) then tokenize_loop (seg ++ [c]) path' out
      else if Nat.ltb 0 (length seg) then
        match push kMaxPathSegments out seg with
        | Some out' => tokenize_loop [] path' out'
        | None => (out, false)
        end
      else tokenize_loop [] path' out
  end.

(** The segments, and the count returned. *)
Definition tokenize_segments (path : list Z) : list (list Z) * nat :=
  let '(out, ok) := tokenize_loop [] path [] in
  (out, if ok then length out else S kMaxPathSegments).

(** ** Insertion *)

Fixpoint find_in (nodes : list TrieNode) (cs : list nat) (seg : list Z) : option nat :=
  match cs with
  | [] => None
  | c :: cs' => if str_eq (segment (node_at nodes c)) seg then Some c else find_in nodes cs' seg
  end.

(** [None] is [kInvalidNodeIdx]. *)
Definition find_child (nodes : list TrieNode) (parent : nat) (seg : list Z) : option nat :=
  if Nat.eqb (length seg) 0 then None
  else find_in nodes (children (node_at nodes parent)) seg.

Definition is_param_segment (seg : list Z) : bool :=
  Nat.ltb 0 (length seg) && (rd seg 0 =? ch ":").

(** The [rollback] lambda: pop one child per recorded parent, last first, then
    cut the pool. *)
Fixpoint pop_children (nodes : list TrieNode) (pushed : list nat) : list TrieNode :=
  match pushed with
  | [] => nodes
  | p :: ps =>
      pop_children
        (upd_node nodes p (fun n => set_children n (take (length (children n) - 1) (children n)))) ps
  end.

Definition rollback (saved : nat) (nodes : list TrieNode) (pushed_parents : list nat)
    : list TrieNode :=
  take saved (pop_children nodes (rev pushed_parents)).

(** The descent: [inl] is the rolled-back pool of a failed insertion. *)
Fixpoint insert_loop (saved : nat) (nodes : list TrieNode) (cur : nat) (segs : list (list Z))
    (pushed : list nat) : list TrieNode + (list TrieNode * nat) :=
  match segs with
  | [] => inr (nodes, cur)
  | seg :: segs' =>
      match find_child nodes cur seg with
      | Some child => insert_loop saved nodes child segs' pushed
      | None =>
          if Nat.leb kMaxNodes (length nodes)
             || Nat.leb kMaxChildren (length (children (node_at nodes cur)))
          then inl (rollback saved nodes pushed)
          else
            match push kMaxNodes nodes (empty_node seg) with
            | None => inl (rollback saved nodes pushed)
            | Some nodes1 =>
                let child := (length nodes1 - 1)%nat in
                match push kMaxChildren (children (node_at nodes1 cur)) child with
                | None => inl (rollback saved nodes1 pushed)
                | Some cs =>
                    let nodes2 := upd_node nodes1 cur (fun n => set_children n cs) in
                    match push kMaxPathSegments pushed cur with
                    | None => inl (rollback saved nodes2 pushed)
                    | Some pushed' => insert_loop saved nodes2 child segs' pushed'
                    end
                end
            end
      end
  end.

Definition insert (nodes : list TrieNode) (path : list Z) (method_char : Z) (route_idx : Z)
    : bool * list TrieNode :=
  match route_method_slot method_char with
  | None => (false, nodes)
  | Some slot =>
      let '(segs, n) := tokenize_segments path in
      if Nat.ltb kMaxPathSegments n then (false, nodes)
      else
        match insert_loop (length nodes) nodes 0 segs [] with
        | inl nodes' => (false, nodes')
        | inr (nodes', cur) =>
            (true,
             if nth slot (route_idx_by_method (node_at nodes' cur)) kInvalidRoute =? kInvalidRoute
             then upd_node nodes' cur (fun n => set_route n slot route_idx)
             else nodes')
        end
  end.

(** ** Matching *)

Record RouteParam := mkParam { p_name : list Z; p_value : list Z }.

Record Candidate := mkCand {
  c_route_idx : Z;
  c_depth : nat;
  c_static_segments : nat;
  c_static_mask : Z;
  c_method_specific : bool;
  c_params : list RouteParam
}.

Definition no_candidate : Candidate := mkCand kInvalidRoute 0 0 0 false [].

Definition pick_terminal (n : TrieNode) (slot : nat) : Z * bool :=
  let r := nth slot (route_idx_by_method n) kInvalidRoute in
  if negb (Nat.eqb slot 0) && negb (r =? kInvalidRoute) then (r, true)
  else (nth 0 (route_idx_by_method n) kInvalidRoute, false).

Record Frame := mkFrame {
  fr_node : nat;
  fr_seg_i : nat;
  fr_depth : nat;
  fr_static_segments : nat;
  fr_static_mask : Z;
  fr_params : list RouteParam
}.

Definition root_frame : Frame := mkFrame 0 0 0 0 0 [].

Definition consider (best : Candidate) (terminal : Z * bool) (f : Frame) : Candidate :=
  let '(route, specific) := terminal in
  if route =? kInvalidRoute then best
  else
    let depth := fr_depth f in
    let ss := fr_static_segments f in
    let sm := fr_static_mask f in
    if (c_route_idx best =? kInvalidRoute) || Nat.ltb (c_depth best) depth
       || (Nat.eqb depth (c_depth best) && Nat.ltb (c_static_segments best) ss)
       || (Nat.eqb depth (c_depth best) && Nat.eqb ss (c_static_segments best)
           && (c_static_mask best <? sm))
       || (Nat.eqb depth (c_depth best) && Nat.eqb ss (c_static_segments best)
           && (sm =? c_static_mask best) && specific && negb (c_method_specific best))
    then mkCand route depth ss sm specific (fr_params f)
    else best.

(** [stack.push] with its result ignored; the top of the stack is the head. *)
Definition push_frame (stack : list Frame) (f : Frame) : list Frame :=
  if Nat.leb kMaxNodes (length stack) then stack else f :: stack.

Definition param_frame (f : Frame) (child : nat) (name seg : list Z) : Frame :=
  mkFrame child (S (fr_seg_i f)) (S (fr_depth f)) (fr_static_segments f) (fr_static_mask f)
    (if Nat.ltb (length (fr_params f)) kMaxRouteParams
     then fr_params f ++ [mkParam (drop 1 name) seg] else fr_params f).

Definition literal_frame (f : Frame) (child : nat) : Frame :=
  mkFrame child (S (fr_seg_i f)) (S (fr_depth f)) (S (fr_static_segments f))
    (if Nat.ltb (S (fr_depth f)) 64
     then Z.lor (fr_static_mask f) (Z.shiftl 1 (63 - Z.of_nat (S (fr_depth f))))
     else fr_static_mask f) (fr_params f).

(** The children loop runs from the last child to the first. *)
Fixpoint push_params (nodes : list TrieNode) (f : Frame) (seg : list Z) (rev_children : list nat)
    (stack : list Frame) : list Frame :=
  match rev_children with
  | [] => stack
  | c :: cs =>
      let name := segment (node_at nodes c) in
      push_params nodes f seg cs
        (if negb (is_param_segment name) then stack
         else push_frame stack (param_frame f c name seg))
  end.

Definition push_literal (nodes : list TrieNode) (f : Frame) (seg : list Z) (stack : list Frame)
    : list Frame :=
  match find_child nodes (fr_node f) seg with
  | Some c =>
      if negb (is_param_segment (segment (node_at nodes c)))
      then push_frame stack (literal_frame f c) else stack
  | None => stack
  end.

(** [while (stack.len > 0)]; [None]: out of fuel. *)
Fixpoint match_loop (fuel : nat) (nodes : list TrieNode) (want : nat) (segs : list (list Z))
    (stack : list Frame) (best : Candidate) : option Candidate :=
  match stack with
  | [] => Some best
  | f :: stack' =>
      match fuel with
      | O => None
      | S fuel' =>
          let best' := consider best (pick_terminal (node_at nodes (fr_node f)) want) f in
          match segs !! fr_seg_i f with
          | None => match_loop fuel' nodes want segs stack' best'
          | Some seg =>
              let stack1 := push_params nodes f seg (rev (children (node_at nodes (fr_node f)))) stack' in
              match_loop fuel' nodes want segs (push_literal nodes f seg stack1) best'
          end
      end
  end.

(** [match_key]: the route and the parameters copied out.  A frame stands for
    a node, and no node is pushed twice, so the pool size bounds the rounds. *)
Definition match_key (nodes : list TrieNode) (path : list Z) (method_key : Z) (param_cap : nat)
    : option (Z * list RouteParam) :=
  match route_method_slot_from_key method_key with
  | None => Some (kInvalidRoute, [])
  | Some want =>
      let '(segs, _) := tokenize_segments path in
      match match_loop kMaxNodes nodes want segs [root_frame] no_candidate with
      | None => None
      | Some best => Some (c_route_idx best, take (Nat.min (length (c_params best)) param_cap) (c_params best))
      end
  end.

(** [match]: a legacy method byte; an invalid slot becomes the invalid key 255. *)
Definition match_ (nodes : list TrieNode) (path : list Z) (method_char : Z)
    : option (Z * list RouteParam) :=
  match_key nodes path
    (match route_method_slot method_char with Some s => Z.of_nat s | None => 255 end) 0.

Example trie_ex :
  let t := snd (insert (snd (insert (snd (insert clear (bs "/api/:id") 0 0)) (bs "/api/users") 0 1))
                  (bs "/") 1 2) in
  match_key t (bs "api/users/x") 1 16 = Some (1, []) /\
  match_key t (bs "api/7") 2 16 = Some (0, [mkParam (bs "id") (bs "7")]) /\
  match_key t (bs "apix") 1 16 = Some (2, []).
Proof. vm_compute. split_and!; reflexivity. Qed.

(** ** Tokenization is splitting *)

(** The non-empty runs between separators. *)
Fixpoint segments_from (seg : list Z) (path : list Z) : list (list Z) :=
  match path with
  | [] => match seg with [] => [] | _ => [seg] end
  | c :: path' =>
      if c =? sep then match seg with [] => segments_from [] path' | _ => seg :: segments_from [] path' end
      else segments_from (seg ++ [c]) path'
  end.

Definition segments (path : list Z) : list (list Z) := segments_from [] path.

Lemma push_spec {A} cap (v : list A) x v' :
  push cap v x = Some v' <-> (length v < cap)%nat /\ v' = v ++ [x].
Proof.
  unfold push. destruct (Nat.leb_spec cap (length v)); split; try done; try lia.
  - by intros [= <-].
  - by intros [_ ->].
Qed.

Lemma tokenize_loop_spec seg path out :
  (length out <= kMaxPathSegments)%nat ->
  tokenize_loop seg path out =
  (take kMaxPathSegments (out ++ segments_from seg path),
   Nat.leb (length (out ++ segments_from seg path)) kMaxPathSegments).
Proof.
  assert (forall o : list (list Z), (length o <= kMaxPathSegments)%nat ->
    (o, true) = (take kMaxPathSegments (o ++ []), Nat.leb (length (o ++ [])) kMaxPathSegments)) as Hnil.
  { intros o Ho. rewrite app_nil_r, take_ge by lia. by rewrite (proj2 (Nat.leb_le _ _)). }
  assert (forall (o : list (list Z)) x l, (length o = kMaxPathSegments)%nat ->
    (o, false) = (take kMaxPathSegments (o ++ x :: l), Nat.leb (length (o ++ x :: l)) kMaxPathSegments)) as Hfull.
  { intros o x l Ho. rewrite <- Ho, take_app_length. rewrite (proj2 (Nat.leb_gt _ _)); [done|].
    simp_len. lia. }
  revert seg out. induction path as [|c path IH]; intros seg out Ho; cbn [tokenize_loop segments_from].
  - destruct seg as [|x seg]; cbn [length Nat.ltb Nat.leb]; [by apply Hnil|].
    unfold push. destruct (Nat.leb_spec kMaxPathSegments (length out)) as [H|H].
    + apply Hfull. lia.
    + rewrite (Hnil (out ++ [x :: seg])) by (simp_len; lia). by rewrite app_nil_r.
  - destruct (c =? sep); cbn [negb].
    + destruct seg as [|x seg]; cbn [length Nat.ltb Nat.leb]; [by apply IH|].
      unfold push. destruct (Nat.leb_spec kMaxPathSegments (length out)) as [H|H].
      * apply Hfull. lia.
      * rewrite IH by (simp_len; lia). by rewrite <- app_assoc.
    + by apply IH.
Qed.

Lemma tokenize_spec path :
  tokenize_segments path =
  (take kMaxPathSegments (segments path),
   if Nat.leb (length (segments path)) kMaxPathSegments then length (segments path)
   else S kMaxPathSegments).
Proof.
  unfold tokenize_segments. rewrite tokenize_loop_spec by (cbn; lia). cbn [app]. fold (segments path).
  destruct (Nat.leb_spec (length (segments path)) kMaxPathSegments); [|done].
  rewrite take_ge by lia. done.
Qed.

Lemma segments_from_nonempty seg path : Forall (fun s => s <> []) (segments_from seg path).
Proof.
  revert seg. induction path as [|c path IH]; intros seg; cbn [segments_from].
  - destruct seg; by repeat constructor.
  - case_if; [|apply IH]. destruct seg; [apply IH | by constructor].
Qed.

(** ** The pool as a tree *)

Lemma node_at_app nodes x i :
  node_at (nodes ++ [x]) i = if Nat.eqb i (length nodes) then x else node_at nodes i.
Proof.
  unfold node_at. destruct (Nat.eqb_spec i (length nodes)) as [->|Hne].
  - by rewrite app_nth2, Nat.sub_diag by lia.
  - destruct (Nat.lt_ge_cases i (length nodes)).
    + by rewrite app_nth1.
    + rewrite !nth_overflow; [done | lia | simp_len; lia].
Qed.

Lemma node_at_upd nodes i f j :
  (i < length nodes)%nat ->
  node_at (upd_node nodes i f) j = if Nat.eqb j i then f (node_at nodes i) else node_at nodes j.
Proof.
  intros Hi. unfold upd_node. unfold node_at at 1 4. rewrite !nth_lookup.
  destruct (Nat.eqb_spec j i) as [->|Hne].
  - by rewrite list_lookup_insert_eq.
  - by rewrite list_lookup_insert_ne.
Qed.

Lemma length_upd nodes i f : length (upd_node nodes i f) = length nodes.
Proof. apply length_insert. Qed.

Lemma node_at_out nodes i : (length nodes <= i)%nat -> node_at nodes i = empty_node [].
Proof. intros. by apply nth_overflow. Qed.

(** Well-formed pools: a tree rooted at node 0, in which every child lies
    after its parent, siblings differ, and every node has ten slots. *)
Record trie_wf (nodes : list TrieNode) : Prop := {
  wf_root : (0 < length nodes)%nat;
  wf_cap : (length nodes <= kMaxNodes)%nat;
  wf_tree : exists par : nat -> nat, forall p c, c ∈ children (node_at nodes p) ->
    (p < c < length nodes)%nat /\ par c = p;
  wf_nodup p : NoDup (children (node_at nodes p));
  wf_sib p c c' : c ∈ children (node_at nodes p) -> c' ∈ children (node_at nodes p) ->
    segment (node_at nodes c) = segment (node_at nodes c') -> c = c';
  wf_seg p c : c ∈ children (node_at nodes p) -> segment (node_at nodes c) <> [];
  wf_slots i : length (route_idx_by_method (node_at nodes i)) = kRouteMethodSlots
}.

Lemma find_in_spec nodes cs seg c :
  find_in nodes cs seg = Some c -> c ∈ cs /\ segment (node_at nodes c) = seg.
Proof.
  induction cs as [|x cs IH]; cbn [find_in]; [done|].
  unfold str_eq. case_bool_decide as E.
  - intros [= <-]. split; [left | done].
  - intros H. apply IH in H as [? ?]. split; [by right | done].
Qed.

Lemma find_in_none nodes cs seg :
  find_in nodes cs seg = None <-> Forall (fun c => segment (node_at nodes c) <> seg) cs.
Proof.
  induction cs as [|x cs IH]; cbn [find_in]; [done|]. rewrite Forall_cons.
  unfold str_eq. case_bool_decide as E; [|tauto]. split; [done | by intros [? _]].
Qed.

Lemma find_child_spec nodes p seg c :
  find_child nodes p seg = Some c ->
  c ∈ children (node_at nodes p) /\ segment (node_at nodes c) = seg /\ seg <> [].
Proof.
  unfold find_child. destruct (Nat.eqb_spec (length seg) 0) as [|Hne]; [done|].
  intros H. apply find_in_spec in H as [? ?]. split_and!; try done. by intros ->.
Qed.

Lemma find_child_iff nodes p seg c :
  trie_wf nodes ->
  find_child nodes p seg = Some c <->
  c ∈ children (node_at nodes p) /\ segment (node_at nodes c) = seg.
Proof.
  intros Hwf. split.
  - intros H. apply find_child_spec in H as (? & ? & _). done.
  - intros [Hc Hs]. pose proof (wf_seg _ Hwf p c Hc) as Hne. rewrite Hs in Hne.
    unfold find_child. destruct seg as [|x seg]; [done|]. cbn [length Nat.eqb].
    destruct (find_in nodes _ _) as [c'|] eqn:Ef.
    + apply find_in_spec in Ef as [Hc' Hs']. f_equal. eapply (wf_sib _ Hwf p); congruence || done.
    + apply find_in_none in Ef. rewrite Forall_forall in Ef. by apply Ef in Hc.
Qed.

(** Following a pattern from a node. *)
Fixpoint walk (nodes : list TrieNode) (cur : nat) (pat : list (list Z)) : option nat :=
  match pat with
  | [] => Some cur
  | s :: pat' => match find_child nodes cur s with Some c => walk nodes c pat' | None => None end
  end.

Definition slot_route (n : TrieNode) (slot : nat) : Z :=
  nth slot (route_idx_by_method n) kInvalidRoute.

(** The route stored for a pattern and a method slot. *)
Definition route_from (nodes : list TrieNode) (cur : nat) (pat : list (list Z)) (slot : nat) : Z :=
  match walk nodes cur pat with
  | Some n => slot_route (node_at nodes n) slot
  | None => kInvalidRoute
  end.

Definition route_at (nodes : list TrieNode) (pat : list (list Z)) (slot : nat) : Z :=
  route_from nodes 0 pat slot.

Lemma walk_app nodes cur p q :
  walk nodes cur (p ++ q) = match walk nodes cur p with Some n => walk nodes n q | None => None end.
Proof.
  revert cur. induction p as [|s p IH]; intros cur; cbn [app walk]; [done|].
  destruct (find_child nodes cur s); [apply IH | done].
Qed.

Lemma walk_lt nodes cur pat n :
  trie_wf nodes -> (cur < length nodes)%nat -> walk nodes cur pat = Some n ->
  (cur + length pat <= n < length nodes)%nat.
Proof.
  intros Hwf. revert cur. induction pat as [|s pat IH]; intros cur Hc; cbn [walk length].
  - intros [= <-]. lia.
  - destruct (find_child nodes cur s) as [c|] eqn:Ef; [|done]. intros H.
    apply find_child_spec in Ef as (Hin & _). destruct (wf_tree _ Hwf) as [par Hpar].
    destruct (Hpar _ _ Hin) as [? _]. apply IH in H; lia.
Qed.

(** A node is reached by one pattern only. *)
Lemma walk_inj_from nodes cur p q n :
  trie_wf nodes -> (cur < length nodes)%nat ->
  walk nodes cur p = Some n -> walk nodes cur q = Some n -> p = q.
Proof.
  intros Hwf Hcur. destruct (wf_tree _ Hwf) as [par Hpar].
  revert q n. induction p as [|s p IH] using rev_ind; intros q n Hp Hq.
  - cbn in Hp. injection Hp as <-. apply (walk_lt nodes cur q) in Hq; [|done..].
    destruct q; [done | cbn in Hq; lia].
  - destruct q as [|t q _] using rev_ind.
    { cbn in Hq. injection Hq as <-. apply (walk_lt nodes cur) in Hp; [|done..].
      rewrite length_app in Hp. cbn in Hp. lia. }
    rewrite walk_app in Hp, Hq. cbn [walk] in *.
    destruct (walk nodes cur p) as [a|] eqn:Ea; [|done].
    destruct (walk nodes cur q) as [b|] eqn:Eb; [|done].
    destruct (find_child nodes a s) as [x|] eqn:Efa; [|done].
    destruct (find_child nodes b t) as [y|] eqn:Efb; [|done].
    injection Hp as ->. injection Hq as ->.
    apply find_child_spec in Efa as (Ha & Hs & _). apply find_child_spec in Efb as (Hb & Ht & _).
    destruct (Hpar _ _ Ha) as [_ H1]. destruct (Hpar _ _ Hb) as [_ H2].
    assert (a = b) as -> by congruence. f_equal; [eauto | congruence].
Qed.

Lemma walk_inj nodes p q n :
  trie_wf nodes -> walk nodes 0 p = Some n -> walk nodes 0 q = Some n -> p = q.
Proof. intros Hwf. apply walk_inj_from; [done | apply (wf_root _ Hwf)]. Qed.

Lemma clear_wf : trie_wf clear.
Proof.
  assert (forall p, children (node_at clear p) = []) as Hc by (intros [|[|p]]; done).
  split; try (cbn; unfold kMaxNodes; lia).
  - exists (fun _ => O). intros p c. rewrite Hc. by intros ?%not_elem_of_nil.
  - intros p. rewrite Hc. constructor.
  - intros p c c'. rewrite Hc. by intros ?%not_elem_of_nil.
  - intros p c. rewrite Hc. by intros ?%not_elem_of_nil.
  - intros [|[|i]]; done.
Qed.

(** ** One new child *)

Definition grow (nodes : list TrieNode) (cur : nat) (seg : list Z) : list TrieNode :=
  upd_node (nodes ++ [empty_node seg]) cur
    (fun n => set_children n (children (node_at nodes cur) ++ [length nodes])).

Section grow.
Context (nodes : list TrieNode) (cur : nat) (seg : list Z).
Hypothesis (Hcur : (cur < length nodes)%nat).

Lemma grow_length : length (grow nodes cur seg) = S (length nodes).
Proof. clear Hcur. unfold grow. rewrite length_upd, length_app. cbn. lia. Qed.

Lemma grow_at i :
  node_at (grow nodes cur seg) i =
  if Nat.eqb i cur then set_children (node_at nodes cur) (children (node_at nodes cur) ++ [length nodes])
  else if Nat.eqb i (length nodes) then empty_node seg else node_at nodes i.
Proof.
  unfold grow. rewrite node_at_upd by (simp_len; lia). rewrite !node_at_app.
  destruct (Nat.eqb_spec i cur) as [->|]; [|done].
  by rewrite (proj2 (Nat.eqb_neq cur _)) by lia.
Qed.

Lemma grow_segment i : i <> length nodes -> segment (node_at (grow nodes cur seg) i) = segment (node_at nodes i).
Proof.
  intros Hi. rewrite grow_at. destruct (Nat.eqb_spec i cur) as [->|]; [done|].
  by rewrite (proj2 (Nat.eqb_neq _ _) Hi).
Qed.

Lemma grow_new : node_at (grow nodes cur seg) (length nodes) = empty_node seg.
Proof. rewrite grow_at, (proj2 (Nat.eqb_neq (length nodes) cur)), Nat.eqb_refl by lia. done. Qed.

Lemma grow_children p c :
  c ∈ children (node_at (grow nodes cur seg) p) <->
  c ∈ children (node_at nodes p) \/ (p = cur /\ c = length nodes).
Proof.
  rewrite grow_at. destruct (Nat.eqb_spec p cur) as [->|Hne].
  - cbn. rewrite elem_of_app, list_elem_of_singleton. naive_solver.
  - destruct (Nat.eqb_spec p (length nodes)) as [->|]; [|naive_solver].
    rewrite (node_at_out nodes (length nodes)) by lia. cbn. naive_solver.
Qed.

Hypothesis (Hwf : trie_wf nodes).

Lemma child_lt p c : c ∈ children (node_at nodes p) -> (p < c < length nodes)%nat.
Proof. destruct (wf_tree _ Hwf) as [par Hpar]. intros H. by apply Hpar. Qed.

Hypothesis (Hnew : find_child nodes cur seg = None).
Hypothesis (Hseg : seg <> []).
Hypothesis (Hcap : (length nodes < kMaxNodes)%nat).

Lemma no_sibling c : c ∈ children (node_at nodes cur) -> segment (node_at nodes c) <> seg.
Proof.
  intros Hc Hs. assert (find_child nodes cur seg = Some c) by by apply find_child_iff. congruence.
Qed.

Lemma grow_wf : trie_wf (grow nodes cur seg).
Proof.
  split.
  - rewrite grow_length. lia.
  - rewrite grow_length. lia.
  - destruct (wf_tree _ Hwf) as [par Hpar].
    exists (fun c => if Nat.eqb c (length nodes) then cur else par c). intros p c Hc.
    rewrite grow_length. apply grow_children in Hc as [Hc|[-> ->]].
    + destruct (Hpar _ _ Hc) as [? ?]. rewrite (proj2 (Nat.eqb_neq _ _)) by lia. split; [lia | done].
    + rewrite Nat.eqb_refl. split; [lia | done].
  - intros p. rewrite grow_at. destruct (Nat.eqb p cur) eqn:E; [|case_if; [constructor | apply (wf_nodup _ Hwf)]].
    apply NoDup_app. split_and!; [apply (wf_nodup _ Hwf) | | apply NoDup_singleton].
    intros c Hc. rewrite list_elem_of_singleton. apply child_lt in Hc. lia.
  - intros p c c' Hc Hc' Hs. apply grow_children in Hc as [Hc|[-> ->]];
      apply grow_children in Hc' as [Hc'|[Hp ->]]; [| | |done].
    + apply child_lt in Hc as ?. apply child_lt in Hc' as ?. rewrite !grow_segment in Hs by lia.
      by eapply (wf_sib _ Hwf).
    + subst p. apply child_lt in Hc as ?. rewrite grow_new, grow_segment in Hs by lia.
      by apply no_sibling in Hc.
    + apply child_lt in Hc' as ?. rewrite grow_new, grow_segment in Hs by lia.
      by apply no_sibling in Hc'.
  - intros p c Hc. apply grow_children in Hc as [Hc|[-> ->]].
    + apply child_lt in Hc as ?. rewrite grow_segment by lia. by eapply (wf_seg _ Hwf).
    + by rewrite grow_new.
  - intros i. rewrite grow_at. case_if; [apply (wf_slots _ Hwf)|]. case_if; [done | apply (wf_slots _ Hwf)].
Qed.

Lemma grow_find p s :
  (p < length nodes)%nat ->
  find_child (grow nodes cur seg) p s =
  if Nat.eqb p cur && str_eq s seg then Some (length nodes) else find_child nodes p s.
Proof.
  intros Hp. pose proof grow_wf as Hwf'. unfold str_eq.
  destruct (Nat.eqb_spec p cur) as [->|Hne]; cbn [andb].
  - case_bool_decide as Es.
    + subst s. apply find_child_iff; [done|]. rewrite grow_children, grow_new. auto.
    + destruct (find_child nodes cur s) as [c|] eqn:Ef.
      * apply find_child_iff in Ef as [Hc Hs]; [|done]. apply find_child_iff; [done|].
        apply child_lt in Hc as ?. rewrite grow_children, grow_segment by lia. auto.
      * destruct (find_child (grow nodes cur seg) cur s) as [c|] eqn:Ef'; [|done].
        apply find_child_iff in Ef' as [Hc Hs]; [|done].
        apply grow_children in Hc as [Hc|[_ ->]]; [|rewrite grow_new in Hs; cbn in Hs; congruence].
        apply child_lt in Hc as ?. rewrite grow_segment in Hs by lia.
        assert (find_child nodes cur s = Some c) by by apply find_child_iff. congruence.
  - destruct (find_child nodes p s) as [c|] eqn:Ef.
    + apply find_child_iff in Ef as [Hc Hs]; [|done]. apply find_child_iff; [done|].
      apply child_lt in Hc as ?. rewrite grow_children, grow_segment by lia. auto.
    + destruct (find_child (grow nodes cur seg) p s) as [c|] eqn:Ef'; [|done].
      apply find_child_iff in Ef' as [Hc Hs]; [|done].
      apply grow_children in Hc as [Hc|[? _]]; [|done].
      apply child_lt in Hc as ?. rewrite grow_segment in Hs by lia.
      assert (find_child nodes p s = Some c) by by apply find_child_iff. congruence.
Qed.

Lemma slot_empty s slot : slot_route (empty_node s) slot = kInvalidRoute.
Proof.
  unfold slot_route. cbn [empty_node route_idx_by_method]. rewrite nth_lookup.
  destruct (replicate _ _ !! slot) as [x|] eqn:E; [|done].
  by apply lookup_replicate in E as [-> _].
Qed.

(** A new node carries no route, so no lookup changes. *)
Lemma grow_routes p pat slot :
  (p < length nodes)%nat ->
  route_from (grow nodes cur seg) p pat slot = route_from nodes p pat slot.
Proof.
  unfold route_from. revert p. induction pat as [|s pat IH]; intros p Hp; cbn [walk].
  - rewrite grow_at. destruct (Nat.eqb_spec p cur) as [->|]; [done|].
    by rewrite (proj2 (Nat.eqb_neq _ _)) by lia.
  - rewrite grow_find by done. destruct (Nat.eqb_spec p cur) as [->|Hne]; cbn [andb].
    + destruct (str_eq s seg) eqn:Es.
      * apply str_eq_true in Es as ->. rewrite Hnew.
        assert (forall q, match walk (grow nodes cur seg) (length nodes) q with
          | Some n => slot_route (node_at (grow nodes cur seg) n) slot
          | None => kInvalidRoute end = kInvalidRoute) as ->; [|done].
        intros [|t q]; cbn [walk]; [rewrite grow_new; apply slot_empty|].
        destruct (find_child (grow nodes cur seg) (length nodes) t) as [c|] eqn:Ef; [|done].
        apply find_child_spec in Ef as (Hc & _). rewrite grow_new in Hc.
        by apply not_elem_of_nil in Hc.
      * destruct (find_child nodes cur s) as [c|] eqn:Ef; [|done].
        apply find_child_spec in Ef as (Hc & _). apply child_lt in Hc. apply IH. lia.
    + destruct (find_child nodes p s) as [c|] eqn:Ef; [|done].
      apply find_child_spec in Ef as (Hc & _). apply child_lt in Hc. apply IH. lia.
Qed.

(** Taking the child back and cutting the pool restores the state. *)
Lemma grow_pop :
  upd_node (grow nodes cur seg) cur
    (fun n => set_children n (take (length (children n) - 1) (children n))) = nodes ++ [empty_node seg].
Proof.
  unfold upd_node. rewrite grow_at, Nat.eqb_refl. cbn [set_children children segment route_idx_by_method].
  rewrite length_app. cbn [length]. rewrite Nat.add_sub, take_app_length.
  unfold grow, upd_node. rewrite list_insert_insert_eq. 
  rewrite insert_app_l by done. f_equal. apply list_insert_id.
  assert (nodes !! cur = Some (node_at nodes cur)) as ->.
  { destruct (lookup_lt_is_Some_2 nodes cur Hcur) as [x Hx]. rewrite Hx. f_equal.
    unfold node_at. by rewrite (nth_lookup_Some _ _ _ _ Hx). }
  f_equal. by destruct (node_at nodes cur).
Qed.
End grow.

(** ** The descent of [insert] *)

Lemma pop_children_app nodes x ps :
  Forall (fun p => (p < length nodes)%nat) ps ->
  pop_children (nodes ++ [x]) ps = pop_children nodes ps ++ [x].
Proof.
  revert nodes. induction ps as [|p ps IH]; intros nodes H; cbn [pop_children]; [done|].
  apply Forall_cons in H as [Hp H]. rewrite <- IH by (rewrite length_upd; done). f_equal.
  unfold upd_node. rewrite node_at_app, (proj2 (Nat.eqb_neq p _)) by lia.
  by rewrite insert_app_l.
Qed.

Lemma pop_children_length nodes ps : length (pop_children nodes ps) = length nodes.
Proof. revert nodes. induction ps as [|p ps IH]; intros nodes; cbn; [done|]. by rewrite IH, length_upd. Qed.

Lemma rollback_app saved nodes x ps :
  (saved <= length nodes)%nat -> Forall (fun p => (p < length nodes)%nat) ps ->
  rollback saved (nodes ++ [x]) ps = rollback saved nodes ps.
Proof.
  intros Hs Hps. unfold rollback. rewrite pop_children_app by by apply List.Forall_rev.
  rewrite take_app_le; [done|]. by rewrite pop_children_length.
Qed.

Lemma rollback_grow saved nodes cur seg ps :
  (cur < length nodes)%nat -> (saved <= length nodes)%nat -> Forall (fun p => (p < length nodes)%nat) ps ->
  rollback saved (grow nodes cur seg) (ps ++ [cur]) = rollback saved nodes ps.
Proof.
  intros Hc Hs Hps. rewrite <- (rollback_app saved nodes (empty_node seg)) by done.
  unfold rollback. rewrite rev_app_distr. cbn [rev app pop_children]. by rewrite grow_pop.
Qed.

(** The loop body of a missing child, with its redundant tests resolved. *)
Lemma insert_loop_grow saved nodes cur seg segs pushed :
  (cur < length nodes)%nat -> (saved <= length nodes)%nat ->
  Forall (fun p => (p < length nodes)%nat) pushed -> find_child nodes cur seg = None ->
  insert_loop saved nodes cur (seg :: segs) pushed =
  if Nat.ltb (length nodes) kMaxNodes && Nat.ltb (length (children (node_at nodes cur))) kMaxChildren
     && Nat.ltb (length pushed) kMaxPathSegments
  then insert_loop saved (grow nodes cur seg) (length nodes) segs (pushed ++ [cur])
  else inl (if Nat.ltb (length nodes) kMaxNodes && Nat.ltb (length (children (node_at nodes cur))) kMaxChildren
            then rollback saved (grow nodes cur seg) pushed else rollback saved nodes pushed).
Proof.
  intros Hc Hs Hps Hf. cbn [insert_loop]. rewrite Hf.
  destruct (Nat.leb_spec kMaxNodes (length nodes)) as [H1|H1]; cbn [orb].
  { by rewrite (proj2 (Nat.ltb_ge _ _)) by lia. }
  rewrite (proj2 (Nat.ltb_lt (length nodes) _)) by lia. cbn [andb].
  destruct (Nat.leb_spec kMaxChildren (length (children (node_at nodes cur)))) as [H2|H2].
  { by rewrite (proj2 (Nat.ltb_ge _ _)) by lia. }
  rewrite (proj2 (Nat.ltb_lt (length (children _)) _)) by lia. cbn [andb].
  rewrite (proj2 (push_spec kMaxNodes nodes _ (nodes ++ [empty_node seg]))) by done.
  rewrite node_at_app, (proj2 (Nat.eqb_neq cur _)) by lia. rewrite length_app. cbn [length].
  rewrite Nat.add_sub. rewrite (proj2 (push_spec kMaxChildren _ (length nodes) _)) by done.
  unfold push. fold (grow nodes cur seg).
  destruct (Nat.leb_spec kMaxPathSegments (length pushed)).
  - by rewrite (proj2 (Nat.ltb_ge _ _)) by lia.
  - by rewrite (proj2 (Nat.ltb_lt _ _)) by lia.
Qed.

Record extends (nodes nodes' : list TrieNode) : Prop := {
  ext_wf : trie_wf nodes';
  ext_len : (length nodes <= length nodes')%nat;
  ext_find p s c : (p < length nodes)%nat -> find_child nodes p s = Some c ->
    find_child nodes' p s = Some c;
  ext_routes p pat slot : (p < length nodes)%nat ->
    route_from nodes' p pat slot = route_from nodes p pat slot
}.

Lemma grow_extends nodes cur seg :
  trie_wf nodes -> (cur < length nodes)%nat -> find_child nodes cur seg = None -> seg <> [] ->
  (length nodes < kMaxNodes)%nat -> extends nodes (grow nodes cur seg).
Proof.
  intros Hwf Hc Hf Hne Hcap. split.
  - by apply grow_wf.
  - rewrite grow_length. lia.
  - intros p s c Hp Hfs. rewrite grow_find by done.
    destruct (Nat.eqb_spec p cur) as [->|]; [|done]. cbn [andb].
    destruct (str_eq s seg) eqn:Es; [|done]. apply str_eq_true in Es. congruence.
  - intros. by apply grow_routes.
Qed.

Lemma extends_trans a b c : extends a b -> extends b c -> extends a c.
Proof.
  intros [w1 l1 f1 r1] [w2 l2 f2 r2]. split; [done | lia | |].
  - intros. apply f2; [lia|]. by apply f1.
  - intros. rewrite r2 by lia. by apply r1.
Qed.

Lemma insert_loop_spec saved nodes cur segs pushed :
  trie_wf nodes -> (cur < length nodes)%nat -> (saved <= length nodes)%nat ->
  Forall (fun p => (p < length nodes)%nat) pushed -> Forall (fun s => s <> []) segs ->
  match insert_loop saved nodes cur segs pushed with
  | inl nodes' => nodes' = rollback saved nodes pushed \/ kMaxPathSegments < length pushed + length segs
  | inr (nodes', cur') => extends nodes nodes' /\ walk nodes' cur segs = Some cur'
  end%nat.
Proof.
  revert nodes cur pushed. induction segs as [|seg segs IH]; intros nodes cur pushed Hwf Hc Hs Hps Hne.
  - cbn [insert_loop walk]. split; [|done]. by split.
  - apply Forall_cons in Hne as [Hseg Hne]. destruct (find_child nodes cur seg) as [c|] eqn:Ef.
    + cbn [insert_loop]. rewrite Ef. assert (c < length nodes)%nat as Hcl.
      { apply find_child_spec in Ef as (Hin & _). apply (child_lt nodes Hwf) in Hin. lia. }
      specialize (IH nodes c pushed Hwf Hcl Hs Hps Hne).
      destruct (insert_loop saved nodes c segs pushed) as [nodes'|[nodes' cur']].
      * destruct IH as [IH|IH]; [by left | right; cbn; lia].
      * destruct IH as [He Hw]. split; [done|]. cbn [walk]. by rewrite (ext_find _ _ He _ _ _ Hc Ef).
    + rewrite insert_loop_grow by done. destruct (Nat.ltb_spec (length nodes) kMaxNodes) as [Hcap|]; cbn [andb].
      2: by left.
      destruct (Nat.ltb_spec (length (children (node_at nodes cur))) kMaxChildren); cbn [andb].
      2: by left.
      destruct (Nat.ltb_spec (length pushed) kMaxPathSegments).
      2: right; cbn; lia.
      pose proof (grow_extends nodes cur seg Hwf Hc Ef Hseg Hcap) as He1.
      specialize (IH (grow nodes cur seg) (length nodes) (pushed ++ [cur]) (ext_wf _ _ He1)
        ltac:(rewrite grow_length; lia) ltac:(rewrite grow_length; lia)).
      assert (Forall (fun p => (p < length (grow nodes cur seg))%nat) (pushed ++ [cur])) as Hps'.
      { rewrite grow_length. apply Forall_app. split; [|constructor; [cbv beta; lia | constructor]].
        eapply Forall_impl; [exact Hps|]. cbn. lia. }
      specialize (IH Hps' Hne). destruct (insert_loop _ _ _ _ _) as [nodes'|[nodes' cur']].
      * rewrite rollback_grow in IH by done. rewrite length_app in IH. cbn in *.
        destruct IH; [by left | right; lia].
      * destruct IH as [He2 Hw]. split; [by eapply extends_trans|]. cbn [walk].
        assert (find_child (grow nodes cur seg) cur seg = Some (length nodes)) as Hfg.
        { rewrite grow_find, Nat.eqb_refl by done. unfold str_eq. by rewrite bool_decide_eq_true_2. }
        rewrite (ext_find _ _ He2 cur seg (length nodes)); [done | rewrite grow_length; lia | done].
Qed.

(** ** Recording the route *)

Lemma find_child_ext nodes nodes' :
  (forall i, children (node_at nodes' i) = children (node_at nodes i) /\
             segment (node_at nodes' i) = segment (node_at nodes i)) ->
  forall p s, find_child nodes' p s = find_child nodes p s.
Proof.
  intros H p s. unfold find_child. case_if; [done|]. destruct (H p) as [-> _].
  induction (children (node_at nodes p)) as [|c cs IH]; cbn [find_in]; [done|].
  destruct (H c) as [_ ->]. by rewrite IH.
Qed.

Section record_route.
Context (nodes : list TrieNode) (cur slot : nat) (r : Z).
Hypothesis (Hcur : (cur < length nodes)%nat).
#[local] Abbreviation nodes' := (upd_node nodes cur (fun n => set_route n slot r)).

Lemma record_shape i : children (node_at nodes' i) = children (node_at nodes i) /\
  segment (node_at nodes' i) = segment (node_at nodes i).
Proof. rewrite node_at_upd by done. by destruct (Nat.eqb_spec i cur) as [->|]. Qed.

Lemma record_walk p pat : walk nodes' p pat = walk nodes p pat.
Proof.
  revert p. induction pat as [|s pat IH]; intros p; cbn [walk]; [done|].
  rewrite (find_child_ext nodes nodes') by apply record_shape. destruct (find_child nodes p s); [apply IH | done].
Qed.

Lemma record_wf : trie_wf nodes -> trie_wf nodes'.
Proof.
  intros [w1 w2 [par w3] w4 w5 w6 w7].
  split; rewrite ?length_upd; try done.
  - exists par. intros p c. destruct (record_shape p) as [-> _]. apply w3.
  - intros p. destruct (record_shape p) as [-> _]. apply w4.
  - intros p c c'. destruct (record_shape p) as [-> _].
    destruct (record_shape c) as [_ ->]. destruct (record_shape c') as [_ ->]. apply w5.
  - intros p c. destruct (record_shape p) as [-> _]. destruct (record_shape c) as [_ ->]. apply w6.
  - intros i. rewrite node_at_upd by done. destruct (Nat.eqb i cur); [|apply w7].
    cbn. rewrite length_insert. apply w7.
Qed.

Lemma record_route pat s :
  trie_wf nodes -> (slot < kRouteMethodSlots)%nat ->
  route_at nodes' pat s =
  if bool_decide (walk nodes 0 pat = Some cur /\ s = slot) then r else route_at nodes pat s.
Proof.
  intros Hwf Hslot. unfold route_at, route_from. rewrite record_walk.
  destruct (walk nodes 0 pat) as [n|] eqn:Ew; [|case_bool_decide; [naive_solver | done]].
  rewrite node_at_upd by done. destruct (Nat.eqb_spec n cur) as [->|Hne].
  - unfold slot_route. cbn [set_route route_idx_by_method].
    pose proof (wf_slots _ Hwf cur) as Hlen. rewrite !nth_lookup.
    destruct (decide (s = slot)) as [->|Hs].
    + rewrite bool_decide_eq_true_2, list_lookup_insert_eq by (done || lia). done.
    + rewrite bool_decide_eq_false_2, list_lookup_insert_ne by naive_solver. done.
  - rewrite bool_decide_eq_false_2 by naive_solver. done.
Qed.
End record_route.

(** The pattern a route path denotes; insertion admits at most 64 segments. *)
Lemma insert_spec nodes path m r ok nodes' :
  trie_wf nodes -> 0 <= m -> insert nodes path m r = (ok, nodes') ->
  trie_wf nodes' /\
  if ok then
    exists slot, route_method_slot m = Some slot /\ (length (segments path) <= kMaxPathSegments)%nat /\
      forall pat s, route_at nodes' pat s =
        if bool_decide (pat = segments path /\ s = slot /\ route_at nodes pat s = kInvalidRoute)
        then r else route_at nodes pat s
  else nodes' = nodes.
Proof.
  intros Hwf Hm. unfold insert. destruct (route_method_slot m) as [slot|] eqn:Hsl.
  2: by intros [= <- <-].
  pose proof (route_method_slot_range m slot Hm Hsl) as Hslot.
  rewrite tokenize_spec. destruct (Nat.leb_spec (length (segments path)) kMaxPathSegments) as [Hn|Hn].
  2: { rewrite (proj2 (Nat.ltb_lt _ _)) by lia. by intros [= <- <-]. }
  rewrite (proj2 (Nat.ltb_ge _ _)) by lia. rewrite take_ge by lia.
  pose proof (insert_loop_spec (length nodes) nodes 0 (segments path) [] Hwf (wf_root _ Hwf)
    ltac:(lia) ltac:(constructor) (segments_from_nonempty [] path)) as Hl.
  destruct (insert_loop _ _ _ _ _) as [n'|[n' cur]].
  { intros [= <- <-]. destruct Hl as [->|Hl]; [|cbn in Hl; lia].
    unfold rollback. cbn. rewrite take_ge by lia. done. }
  destruct Hl as [He Hw]. pose proof (ext_wf _ _ He) as Hwf'.
  pose proof (walk_lt n' 0 _ cur Hwf' (wf_root _ Hwf') Hw) as [_ Hcur].
  assert (forall pat s, route_at n' pat s = route_at nodes pat s) as Hr
    by (intros; apply (ext_routes _ _ He); apply (wf_root _ Hwf)).
  assert (nth slot (route_idx_by_method (node_at n' cur)) kInvalidRoute =
    route_at nodes (segments path) slot) as Hval.
  { rewrite <- Hr. unfold route_at, route_from. by rewrite Hw. }
  rewrite Hval. intros H. destruct (Z.eqb_spec (route_at nodes (segments path) slot) kInvalidRoute) as [E|E];
    injection H as <- <-.
  - split; [by apply record_wf|]. exists slot. split_and!; try done. intros pat s.
    rewrite record_route, Hr by done. apply (f_equal (fun b : bool => if b then r else _)), bool_decide_ext.
    split.
    + intros [Hw' ->]. assert (pat = segments path) as -> by by eapply walk_inj. done.
    + by intros (-> & -> & _).
  - split; [done|]. exists slot. split_and!; try done. intros pat s.
    rewrite bool_decide_eq_false_2 by naive_solver. apply Hr.
Qed.

(** Inserting a route is atomic and first-wins.  A pool stays a well-formed
    tree; a refused insertion (unknown method, more than 64 segments, pool or
    fan-out full, at any depth) leaves it unchanged; an accepted one changes the
    stored route of exactly the inserted pattern and method slot, and only if
    that slot was free. *)
Theorem insert_first_wins nodes path m r ok nodes' :
  trie_wf nodes -> 0 <= m -> insert nodes path m r = (ok, nodes') ->
  trie_wf nodes' /\
  if ok then
    exists slot, route_method_slot m = Some slot /\ (length (segments path) <= kMaxPathSegments)%nat /\
      forall pat s, route_at nodes' pat s =
        if bool_decide (pat = segments path /\ s = slot /\ route_at nodes pat s = kInvalidRoute)
        then r else route_at nodes pat s
  else nodes' = nodes.
Proof. apply insert_spec. Qed.

Definition trie_ex2 : list TrieNode := snd (insert clear (bs "/api/:id") 1 7).

Lemma insert_first_wins_witness :
  insert clear (bs "/api/:id") 1 7 = (true, trie_ex2) /\ trie_wf trie_ex2.
Proof.
  split; [vm_compute; reflexivity|].
  apply (insert_first_wins clear (bs "/api/:id") 1 7 true trie_ex2);
    [apply clear_wf | lia | vm_compute; reflexivity].
Defined.

(** ** Capacity *)

Lemma insert_loop_ok saved nodes cur segs pushed :
  trie_wf nodes -> (cur < length nodes)%nat -> (saved <= length nodes)%nat ->
  Forall (fun p => (p < length nodes)%nat) pushed -> Forall (fun s => s <> []) segs ->
  (length nodes + length segs <= kMaxNodes)%nat ->
  (length pushed + length segs <= kMaxPathSegments)%nat ->
  (forall i, cur <= i -> length (children (node_at nodes i)) < kMaxChildren)%nat ->
  exists nodes' cur', insert_loop saved nodes cur segs pushed = inr (nodes', cur') /\
    (length nodes' <= length nodes + length segs)%nat /\
    (forall i, i < cur -> children (node_at nodes' i) = children (node_at nodes i))%nat /\
    (forall i, length (children (node_at nodes' i)) <= S (length (children (node_at nodes i))))%nat.
Proof.
  revert nodes cur pushed. induction segs as [|seg segs IH]; intros nodes cur pushed Hwf Hc Hs Hps Hne Hcap Hpl Hch.
  { exists nodes, cur. split_and!; [done | cbn; lia | done | lia]. }
  apply Forall_cons in Hne as [Hseg Hne]. cbn [length] in *.
  destruct (find_child nodes cur seg) as [c|] eqn:Ef.
  - cbn [insert_loop]. rewrite Ef. apply find_child_spec in Ef as (Hin & _).
    apply (child_lt nodes Hwf) in Hin.
    destruct (IH nodes c pushed) as (nodes' & cur' & Hl & H1 & H2 & H3); try done; try lia.
    { intros i Hi. apply Hch. lia. }
    exists nodes', cur'. split_and!; [done | lia | | done]. intros i Hi. apply H2. lia.
  - rewrite insert_loop_grow by done. pose proof (Hch cur ltac:(lia)).
    rewrite !(proj2 (Nat.ltb_lt _ _)) by lia. cbn [andb].
    assert (length nodes < kMaxNodes)%nat as Hcap' by lia.
    pose proof (grow_extends nodes cur seg Hwf Hc Ef Hseg Hcap') as He.
    destruct (IH (grow nodes cur seg) (length nodes) (pushed ++ [cur])) as (nodes' & cur' & Hl & H1 & H2 & H3);
      try done; rewrite ?grow_length; try lia.
    + apply He.
    + apply Forall_app. split; [|constructor; [cbv beta; lia | constructor]].
      eapply Forall_impl; [exact Hps|]. cbn. lia.
    + simp_len. lia.
    + intros i Hi. rewrite grow_at, (proj2 (Nat.eqb_neq i cur)) by (done || lia).
      destruct (Nat.eqb_spec i (length nodes)); [cbn; unfold kMaxChildren; lia|].
      rewrite node_at_out by lia. cbn. unfold kMaxChildren. lia.
    + rewrite grow_length in H1. exists nodes', cur'. split_and!; [done | lia | |].
      * intros i Hi. rewrite H2, grow_at by lia. rewrite !(proj2 (Nat.eqb_neq _ _)) by lia. done.
      * intros i. destruct (Nat.lt_ge_cases i (length nodes)) as [Hi|Hi].
        -- rewrite H2, grow_at by done. destruct (Nat.eqb_spec i cur) as [->|].
           ++ cbn [set_children children]. simp_len. lia.
           ++ rewrite (proj2 (Nat.eqb_neq _ _)) by lia. lia.
        -- rewrite (H3 i), grow_at, (proj2 (Nat.eqb_neq i cur)) by (done || lia).
           rewrite (node_at_out nodes i) by done.
           destruct (Nat.eqb i (length nodes)); cbn; lia.
Qed.

Lemma insert_ok nodes path m r slot :
  trie_wf nodes -> 0 <= m -> route_method_slot m = Some slot ->
  (length (segments path) <= kMaxPathSegments)%nat ->
  (length nodes + length (segments path) <= kMaxNodes)%nat ->
  (forall i, length (children (node_at nodes i)) < kMaxChildren)%nat ->
  exists nodes', insert nodes path m r = (true, nodes') /\
    (length nodes' <= length nodes + length (segments path))%nat /\
    (forall i, length (children (node_at nodes' i)) <= S (length (children (node_at nodes i))))%nat.
Proof.
  intros Hwf Hm Hsl Hn Hcap Hch. unfold insert. rewrite Hsl, tokenize_spec.
  rewrite (proj2 (Nat.leb_le _ _)) by done. rewrite (proj2 (Nat.ltb_ge _ _)), take_ge by lia.
  pose proof (insert_loop_spec (length nodes) nodes 0 (segments path) [] Hwf (wf_root _ Hwf)
    ltac:(lia) ltac:(constructor) (segments_from_nonempty [] path)) as Hl.
  destruct (insert_loop_ok (length nodes) nodes 0 (segments path) []) as (n' & cur & E & H1 & _ & H3);
    [done | apply (wf_root _ Hwf) | done | constructor | apply segments_from_nonempty | done | done | auto |].
  rewrite E in Hl |- *. destruct Hl as [He Hw].
  pose proof (walk_lt n' 0 _ cur (ext_wf _ _ He) (wf_root _ (ext_wf _ _ He)) Hw) as [_ Hcur].
  eexists. split; [done|]. case_if; [|done]. rewrite length_upd. split; [done|].
  intros i. destruct (record_shape n' cur slot r Hcur i) as [-> _]. apply H3.
Qed.

(** Building a table: every route must be accepted. *)
Fixpoint insert_all (nodes : list TrieNode) (rs : list (list Z * Z * Z)) : option (list TrieNode) :=
  match rs with
  | [] => Some nodes
  | (path, m, r) :: rs' =>
      match insert nodes path m r with
      | (true, nodes') => insert_all nodes' rs'
      | (false, _) => None
      end
  end.

Definition route_fits (rt : list Z * Z * Z) : Prop :=
  (length (segments rt.1.1) <= 32)%nat /\ 0 <= rt.1.2 /\ is_Some (route_method_slot rt.1.2).

Lemma insert_all_fits k nodes rs :
  trie_wf nodes -> Forall route_fits rs -> (k + length rs <= 128)%nat ->
  (length nodes <= 1 + 32 * k)%nat -> (forall i, length (children (node_at nodes i)) <= k)%nat ->
  is_Some (insert_all nodes rs).
Proof.
  revert k nodes. induction rs as [|[[path m] r] rs IH]; intros k nodes Hwf Hf Hk Hlen Hch; [done|].
  apply Forall_cons in Hf as [(Hseg & Hm & slot & Hsl) Hf]. cbn [fst snd length insert_all] in *.
  destruct (insert_ok nodes path m r slot Hwf Hm Hsl) as (nodes' & E & H1 & H2).
  - unfold kMaxPathSegments. lia.
  - unfold kMaxNodes. lia.
  - intros i. specialize (Hch i). unfold kMaxChildren. lia.
  - rewrite E. apply (IH (S k)); [| done | lia | lia |].
    + by apply (insert_spec nodes path m r true nodes' Hwf Hm E).
    + intros i. specialize (H2 i). specialize (Hch i). lia.
Qed.

(** The advertised capacity holds: any table of at most 128 routes with
    known methods and at most 32 segments each is accepted in full, whatever
    the paths share (the pool holds 1 + 128 * 32 nodes and a node 128
    children). *)
Theorem trie_capacity rs :
  (length rs <= 128)%nat -> Forall route_fits rs -> is_Some (insert_all clear rs).
Proof.
  intros Hn Hf. apply (insert_all_fits 0); [apply clear_wf | done | done | cbn; lia |].
  intros [|[|i]]; cbn; lia.
Qed.

Lemma trie_capacity_witness : is_Some (insert_all clear [(bs "/a/b", 1, 0); (bs "/:x", 0, 1)]).
Proof.
  apply trie_capacity; [cbn; lia|].
  repeat constructor; cbn; try lia; eexists; reflexivity.
Defined.

(** ** The search visits the matching patterns *)

Definition step_frame (f : Frame) (c : nat) (s seg : list Z) : Frame :=
  if is_param_segment s then param_frame f c s seg else literal_frame f c.

Definition literal_next (nodes : list TrieNode) (f : Frame) (seg : list Z) : list Frame :=
  match find_child nodes (fr_node f) seg with
  | Some c => if negb (is_param_segment (segment (node_at nodes c))) then [literal_frame f c] else []
  | None => []
  end.

Fixpoint params_next (nodes : list TrieNode) (f : Frame) (seg : list Z) (cs : list nat) : list Frame :=
  match cs with
  | [] => []
  | c :: cs' =>
      let name := segment (node_at nodes c) in
      (if is_param_segment name then [param_frame f c name seg] else []) ++ params_next nodes f seg cs'
  end.

(** The frames pushed for a frame, topmost first. *)
Definition next_frames (nodes : list TrieNode) (f : Frame) (seg : list Z) : list Frame :=
  literal_next nodes f seg ++ params_next nodes f seg (children (node_at nodes (fr_node f))).

(** Pre-order of the subtree of a frame. *)
Fixpoint visit (nodes : list TrieNode) (rest : list (list Z)) (f : Frame) : list Frame :=
  f :: match rest with
       | [] => []
       | seg :: rest' => mjoin (visit nodes rest' <$> next_frames nodes f seg)
       end.

Lemma push_params_app nodes f seg cs stack :
  (length (params_next nodes f seg cs) + length stack <= kMaxNodes)%nat ->
  push_params nodes f seg (rev cs) stack = params_next nodes f seg cs ++ stack.
Proof.
  revert stack. induction cs as [|c cs IH]; intros stack H; [done|]. cbn [rev params_next] in *.
  assert (forall l st, push_params nodes f seg (l ++ [c]) st =
    push_params nodes f seg [c] (push_params nodes f seg l st)) as Happ.
  { induction l as [|x l IHl]; intros st; cbn [app push_params]; [done|]. by rewrite IHl. }
  rewrite Happ, IH.
  - cbn [push_params]. destruct (is_param_segment _); cbn [negb]; [|done].
    unfold push_frame. rewrite length_app in H. cbn in H.
    rewrite (proj2 (Nat.leb_gt _ _)); [done|]. simp_len. lia.
  - rewrite length_app in H. lia.
Qed.

Lemma push_next nodes f seg stack :
  (length (next_frames nodes f seg) + length stack <= kMaxNodes)%nat ->
  push_literal nodes f seg (push_params nodes f seg (rev (children (node_at nodes (fr_node f)))) stack) =
  next_frames nodes f seg ++ stack.
Proof.
  unfold next_frames, push_literal, literal_next. rewrite length_app. intros H.
  rewrite push_params_app by lia. destruct (find_child nodes (fr_node f) seg) as [c|]; [|done].
  destruct (negb _); [|done]. unfold push_frame. cbn [length app] in H.
  rewrite (proj2 (Nat.leb_gt _ _)); [done|]. simp_len. lia.
Qed.

Definition step_best (nodes : list TrieNode) (want : nat) (best : Candidate) (f : Frame) : Candidate :=
  consider best (pick_terminal (node_at nodes (fr_node f)) want) f.

Definition visit_at (nodes : list TrieNode) (segs : list (list Z)) (f : Frame) : list Frame :=
  visit nodes (drop (fr_seg_i f) segs) f.

Lemma next_seg_i nodes f seg g : g ∈ next_frames nodes f seg -> fr_seg_i g = S (fr_seg_i f).
Proof.
  unfold next_frames, literal_next. rewrite elem_of_app. intros [H|H].
  - destruct (find_child _ _ _); [|by apply not_elem_of_nil in H].
    destruct (negb _); [|by apply not_elem_of_nil in H]. by apply list_elem_of_singleton in H as ->.
  - induction (children (node_at nodes (fr_node f))) as [|c cs IH]; cbn [params_next] in H.
    { by apply not_elem_of_nil in H. }
    apply elem_of_app in H as [H|H]; [|auto].
    destruct (is_param_segment _); [|by apply not_elem_of_nil in H].
    by apply list_elem_of_singleton in H as ->.
Qed.

Lemma visit_length_le nodes segs fs :
  (length fs <= length (mjoin (visit_at nodes segs <$> fs)))%nat.
Proof.
  induction fs as [|f fs IH]; [cbn; lia|].
  change (mjoin (visit_at nodes segs <$> f :: fs))
    with (visit_at nodes segs f ++ mjoin (visit_at nodes segs <$> fs)).
  rewrite length_app. unfold visit_at at 1. destruct (drop _ _); cbn [visit length]; lia.
Qed.

Lemma next_visit nodes segs f seg :
  segs !! fr_seg_i f = Some seg ->
  mjoin (visit_at nodes segs <$> next_frames nodes f seg) =
  mjoin (visit nodes (drop (S (fr_seg_i f)) segs) <$> next_frames nodes f seg).
Proof.
  intros _. f_equal. apply list_fmap_ext. intros i g Hg. unfold visit_at.
  apply list_elem_of_lookup_2, next_seg_i in Hg. by rewrite Hg.
Qed.

(** The stack loop folds [consider] over the pre-order of its frames. *)
Lemma match_loop_visit nodes want segs fuel stack best :
  (length (mjoin (visit_at nodes segs <$> stack)) <= fuel)%nat ->
  (length (mjoin (visit_at nodes segs <$> stack)) <= kMaxNodes)%nat ->
  match_loop fuel nodes want segs stack best =
  Some (foldl (step_best nodes want) best (mjoin (visit_at nodes segs <$> stack))).
Proof.
  revert stack best. induction fuel as [|fuel IH]; intros [|f stack] best Hf Hcap; [done| |done|].
  { exfalso. pose proof (visit_length_le nodes segs (f :: stack)). cbn [length] in *. lia. }
  cbn [match_loop]. change (mjoin (visit_at nodes segs <$> f :: stack))
    with (visit_at nodes segs f ++ mjoin (visit_at nodes segs <$> stack)) in *.
  unfold visit_at at 1 in Hf. unfold visit_at at 1 in Hcap. unfold visit_at at 1.
  destruct (segs !! fr_seg_i f) as [seg|] eqn:Es.
  - rewrite (drop_S _ _ _ Es) in *. cbn [visit] in *. rewrite <- (next_visit nodes segs f seg Es) in *.
    cbn [app foldl length] in *. rewrite !length_app in *.
    pose proof (visit_length_le nodes segs (next_frames nodes f seg)).
    pose proof (visit_length_le nodes segs stack).
    rewrite push_next by lia. rewrite IH; rewrite fmap_app, join_app, ?length_app; (done || lia).
  - rewrite drop_ge in * by by apply lookup_ge_None. cbn [visit app foldl length] in *.
    rewrite IH by lia. done.
Qed.

(** Following a pattern against the request, with its frame. *)
Fixpoint run (nodes : list TrieNode) (f : Frame) (pat rest : list (list Z)) : option Frame :=
  match pat, rest with
  | [], _ => Some f
  | s :: pat', seg :: rest' =>
      if is_param_segment s || str_eq s seg then
        match find_child nodes (fr_node f) s with
        | Some c => run nodes (step_frame f c s seg) pat' rest'
        | None => None
        end
      else None
  | _ :: _, [] => None
  end.

Lemma elem_params_next nodes f seg cs g :
  g ∈ params_next nodes f seg cs <->
  exists c, c ∈ cs /\ is_param_segment (segment (node_at nodes c)) = true /\
    g = param_frame f c (segment (node_at nodes c)) seg.
Proof.
  induction cs as [|c cs IH]; cbn [params_next].
  - split; [by intros ?%not_elem_of_nil | by intros (c & ?%not_elem_of_nil & _)].
  - rewrite elem_of_app, IH. split.
    + intros [H|(c' & ? & ? & ?)].
      * destruct (is_param_segment _) eqn:E; [|by apply not_elem_of_nil in H].
        apply list_elem_of_singleton in H as ->. exists c. split_and!; [left | done | done].
      * exists c'. split_and!; [by right | done | done].
    + intros (c' & Hc & Hp & ->). apply elem_of_cons in Hc as [->|Hc]; [|eauto].
      left. rewrite Hp. by apply list_elem_of_singleton.
Qed.

Section search.
Context (nodes : list TrieNode) (Hwf : trie_wf nodes).

Lemma elem_next_frames f seg g :
  g ∈ next_frames nodes f seg <->
  exists s c, find_child nodes (fr_node f) s = Some c /\
    is_param_segment s || str_eq s seg = true /\ g = step_frame f c s seg.
Proof.
  unfold next_frames. rewrite elem_of_app, elem_params_next. unfold literal_next, step_frame. split.
  - intros [H|(c & Hc & Hp & ->)].
    + destruct (find_child nodes (fr_node f) seg) as [c|] eqn:Ef; [|by apply not_elem_of_nil in H].
      apply find_child_iff in Ef as Hc; [|done]. destruct Hc as [_ Hs]. rewrite Hs in H.
      destruct (is_param_segment seg) eqn:Ep; [by apply not_elem_of_nil in H|].
      apply list_elem_of_singleton in H as ->. exists seg, c. rewrite Ep. split_and!; try done.
      cbn. unfold str_eq. by rewrite bool_decide_eq_true_2.
    + exists (segment (node_at nodes c)), c. rewrite Hp. split_and!; try done. by apply find_child_iff.
  - intros (s & c & Ef & Hm & ->). destruct (is_param_segment s) eqn:Ep.
    + right. apply find_child_iff in Ef as [Hc Hs]; [|done]. exists c. rewrite Hs. done.
    + left. cbn in Hm. apply str_eq_true in Hm as ->. rewrite Ef.
      apply find_child_iff in Ef as [_ Hs]; [|done]. rewrite Hs, Ep. by apply list_elem_of_singleton.
Qed.

Lemma elem_visit rest f g : g ∈ visit nodes rest f <-> exists pat, run nodes f pat rest = Some g.
Proof.
  revert f. induction rest as [|seg rest IH]; intros f; cbn [visit].
  - rewrite list_elem_of_singleton. split.
    + intros ->. by exists [].
    + intros ([|s pat] & H); [by injection H as <- | done].
  - rewrite elem_of_cons, list_elem_of_join. split.
    + intros [->|(l & Hg & Hl)]; [by exists []|].
      apply list_elem_of_fmap in Hl as (h & -> & Hh). apply IH in Hg as [pat Hp].
      apply elem_next_frames in Hh as (s & c & Ef & Hm & ->).
      exists (s :: pat). cbn [run]. by rewrite Hm, Ef.
    + intros ([|s pat] & H); cbn [run] in H; [left; congruence|]. right.
      destruct (is_param_segment s || str_eq s seg) eqn:Hm; [|done].
      destruct (find_child nodes (fr_node f) s) as [c|] eqn:Ef; [|done].
      exists (visit nodes rest (step_frame f c s seg)). split; [apply IH; eauto|].
      apply list_elem_of_fmap. eexists. split; [done|]. apply elem_next_frames. eauto 10.
Qed.

Lemma step_frame_node f c s seg : fr_node (step_frame f c s seg) = c.
Proof. unfold step_frame. by destruct (is_param_segment s). Qed.

Lemma run_walk f pat rest g : run nodes f pat rest = Some g -> walk nodes (fr_node f) pat = Some (fr_node g).
Proof.
  revert f rest. induction pat as [|s pat IH]; intros f [|seg rest] H; cbn [run walk] in *; try done.
  - by injection H as <-.
  - by injection H as <-.
  - destruct (_ || _); [|done]. destruct (find_child nodes (fr_node f) s) as [c|]; [|done].
    apply IH in H. by rewrite step_frame_node in H.
Qed.

(** No node is visited twice. *)
Lemma visit_nodup rest f :
  (fr_node f < length nodes)%nat -> NoDup (fr_node <$> visit nodes rest f).
Proof.
  revert f. induction rest as [|seg rest IH]; intros f Hf; cbn [visit].
  { apply NoDup_singleton. }
  assert (forall g x, g ∈ next_frames nodes f seg -> x ∈ fr_node <$> visit nodes rest g ->
    exists s pat, find_child nodes (fr_node f) s = Some (fr_node g) /\
      walk nodes (fr_node f) (s :: pat) = Some x) as Hsub.
  { intros g x Hg Hx. apply elem_next_frames in Hg as (s & c & Ef & _ & ->).
    apply list_elem_of_fmap in Hx as (h & -> & Hh). apply elem_visit in Hh as [pat Hp].
    apply run_walk in Hp. rewrite step_frame_node in *. exists s, pat. split; [done|].
    cbn [walk]. by rewrite Ef. }
  rewrite fmap_cons. apply NoDup_cons. split.
  - intros Hin. apply list_elem_of_fmap in Hin as (h & Hh & Hin).
    apply list_elem_of_join in Hin as (l & Hl & Hin). apply list_elem_of_fmap in Hin as (g & -> & Hg).
    destruct (Hsub g (fr_node f) Hg) as (s & pat & _ & Hw).
    { rewrite Hh. by apply list_elem_of_fmap_2. }
    apply walk_lt in Hw; [|done..]. cbn in Hw. lia.
  - assert (NoDup (fr_node <$> next_frames nodes f seg)) as Hnd.
    { unfold next_frames. rewrite fmap_app.
      assert (forall cs, NoDup cs -> NoDup (fr_node <$> params_next nodes f seg cs) /\
        forall x, x ∈ fr_node <$> params_next nodes f seg cs ->
          x ∈ cs /\ is_param_segment (segment (node_at nodes x)) = true) as Hp.
      { induction 1 as [|c cs Hc Hcs [IHn IHx]]; cbn [params_next].
        { split; [constructor | by intros x ?%not_elem_of_nil]. }
        rewrite fmap_app. destruct (is_param_segment (segment (node_at nodes c))) eqn:Ep; cbn.
        - split.
          + apply NoDup_cons. split; [|done]. by intros [? _]%IHx.
          + intros x Hx. apply elem_of_cons in Hx as [->|Hx]; [split; [left | done]|].
            apply IHx in Hx as [? ?]. split; [by right | done].
        - split; [done|]. intros x Hx. apply IHx in Hx as [? ?]. split; [by right | done]. }
      destruct (Hp _ (wf_nodup _ Hwf (fr_node f))) as [Hn Hx]. apply NoDup_app. split_and!; [| |done].
      - unfold literal_next. destruct (find_child _ _ _); [|constructor].
        destruct (negb _); [apply NoDup_singleton | constructor].
      - intros x Hl Hx'. apply Hx in Hx' as [_ Hpx]. unfold literal_next in Hl.
        destruct (find_child _ _ _) as [c|]; [|by apply not_elem_of_nil in Hl].
        destruct (is_param_segment (segment (node_at nodes c))) eqn:Ec; [by apply not_elem_of_nil in Hl|].
        apply list_elem_of_singleton in Hl. cbn in Hl. congruence. }
    assert (forall l, (forall g, g ∈ l -> g ∈ next_frames nodes f seg) -> NoDup (fr_node <$> l) ->
      NoDup (fr_node <$> mjoin (visit nodes rest <$> l))) as Hj; [|by apply Hj].
    induction l as [|g l IHl]; intros Hin Hn; [constructor|].
    change (mjoin (visit nodes rest <$> g :: l)) with (visit nodes rest g ++ mjoin (visit nodes rest <$> l)).
    rewrite fmap_cons in Hn. apply NoDup_cons in Hn as [Hg Hn]. rewrite fmap_app. apply NoDup_app.
    split_and!.
    + apply IH. specialize (Hin g ltac:(left)).
      apply elem_next_frames in Hin as (s & c & Ef & _ & ->). rewrite step_frame_node.
      apply find_child_spec in Ef as (Hc & _). apply (child_lt nodes Hwf) in Hc. lia.
    + intros x Hx Hx'. apply list_elem_of_fmap in Hx' as (h & -> & Hh).
      apply list_elem_of_join in Hh as (k & Hk & Hh). apply list_elem_of_fmap in Hh as (g' & -> & Hg').
      destruct (Hsub g _ (Hin g ltac:(left)) Hx) as (s & pat & Ef & Hw).
      destruct (Hsub g' (fr_node h) (Hin g' ltac:(by right)) ltac:(by apply list_elem_of_fmap_2))
        as (s' & pat' & Ef' & Hw').
      assert (s :: pat = s' :: pat') as Heq by (by eapply walk_inj_from).
      injection Heq as <- _. apply Hg. rewrite Ef in Ef'. injection Ef' as ->.
      by apply list_elem_of_fmap_2.
    + apply IHl; [|done]. intros g' Hg'. apply Hin. by right.
Qed.

Lemma visit_bound rest f :
  (fr_node f < length nodes)%nat -> (length (visit nodes rest f) <= length nodes)%nat.
Proof.
  intros Hf. rewrite <- (length_fmap fr_node), <- (length_seq (length nodes) 0).
  apply submseteq_length, NoDup_submseteq; [by apply visit_nodup|].
  intros x Hx. apply list_elem_of_fmap in Hx as (g & -> & Hg). apply elem_visit in Hg as [pat Hp].
  apply run_walk, walk_lt in Hp; [|done..]. apply elem_of_seq. lia.
Qed.

End search.

(** ** Best match *)

(** A pattern matches a prefix of the request segments: a parameter matches
    any segment, a literal itself. *)
Fixpoint pat_match (pat rest : list (list Z)) : bool :=
  match pat, rest with
  | [], _ => true
  | s :: pat', seg :: rest' => (is_param_segment s || str_eq s seg) && pat_match pat' rest'
  | _ :: _, [] => false
  end.

(** The values the parameters of a pattern take, by name. *)
Fixpoint bind_params (pat rest : list (list Z)) : list RouteParam :=
  match pat, rest with
  | s :: pat', seg :: rest' =>
      (if is_param_segment s then [mkParam (drop 1 s) seg] else []) ++ bind_params pat' rest'
  | _, _ => []
  end.

Definition static_count (pat : list (list Z)) : nat :=
  length (filter (fun s => is_param_segment s = false) pat).

(** Bit [63 - i] is set when segment [i], counted from 1, is literal. *)
Fixpoint static_mask_from (d : nat) (mask : Z) (pat : list (list Z)) : Z :=
  match pat with
  | [] => mask
  | s :: pat' =>
      static_mask_from (S d)
        (if negb (is_param_segment s) && Nat.ltb (S d) 64
         then Z.lor mask (Z.shiftl 1 (63 - Z.of_nat (S d))) else mask) pat'
  end.

(** The rank of a match: depth, literal segments, their positions, and a
    method-specific route before an any-method one. *)
Record rank := Rank { k_depth : nat; k_static : nat; k_mask : Z; k_specific : bool }.

Definition pat_rank (pat : list (list Z)) (specific : bool) : rank :=
  Rank (length pat) (static_count pat) (static_mask_from 0 0 pat) specific.

(** Lexicographic order. *)
Definition outranks (a b : rank) : Prop :=
  (k_depth b < k_depth a)%nat \/
  (k_depth a = k_depth b /\ (k_static b < k_static a)%nat) \/
  (k_depth a = k_depth b /\ k_static a = k_static b /\ k_mask b < k_mask a) \/
  (k_depth a = k_depth b /\ k_static a = k_static b /\ k_mask a = k_mask b /\
   k_specific a = true /\ k_specific b = false).

(** The route a pattern offers to a request for method slot [want]. *)
Definition offer (nodes : list TrieNode) (pat : list (list Z)) (want : nat) : Z * bool :=
  let r := route_at nodes pat want in
  if negb (Nat.eqb want 0) && negb (r =? kInvalidRoute) then (r, true)
  else (route_at nodes pat 0, false).

Lemma run_frame nodes f pat rest g :
  run nodes f pat rest = Some g -> (length (fr_params f) <= kMaxRouteParams)%nat ->
  pat_match pat rest = true /\ fr_depth g = (fr_depth f + length pat)%nat /\
  fr_static_segments g = (fr_static_segments f + static_count pat)%nat /\
  fr_static_mask g = static_mask_from (fr_depth f) (fr_static_mask f) pat /\
  fr_params g = take kMaxRouteParams (fr_params f ++ bind_params pat rest).
Proof.
  revert f rest. induction pat as [|s pat IH]; intros f rest; cbn [run].
  - intros [= <-] Hp. cbn. rewrite app_nil_r, take_ge by done. split_and!; try done; lia.
  - destruct rest as [|seg rest]; [done|]. destruct (_ || _) eqn:Em; [|done].
    destruct (find_child nodes (fr_node f) s) as [c|]; [|done]. intros H Hp.
    unfold step_frame in H. cbn [pat_match bind_params static_mask_from length]. rewrite Em.
    unfold static_count. destruct (is_param_segment s) eqn:Ep; cbn [negb andb].
    + rewrite filter_cons_False by congruence. destruct (IH _ _ H) as (H1 & H2 & H3 & H4 & H5).
      { cbn [param_frame fr_params]. destruct (Nat.ltb_spec (length (fr_params f)) kMaxRouteParams); simp_len; lia. }
      cbn [param_frame fr_depth fr_static_segments fr_static_mask fr_params] in *.
      split_and!; try done; try lia. rewrite H5. destruct (Nat.ltb_spec (length (fr_params f)) kMaxRouteParams).
      * by rewrite <- app_assoc.
      * rewrite !take_app_le by lia. done.
    + rewrite filter_cons_True by done. destruct (IH _ _ H Hp) as (H1 & H2 & H3 & H4 & H5).
      cbn [literal_frame fr_depth fr_static_segments fr_static_mask fr_params length] in *.
      fold (static_count pat) in *. split_and!; try done; lia.
Qed.

Lemma run_complete nodes f pat rest n :
  pat_match pat rest = true -> walk nodes (fr_node f) pat = Some n ->
  exists g, run nodes f pat rest = Some g /\ fr_node g = n.
Proof.
  revert f rest. induction pat as [|s pat IH]; intros f rest Hm Hw; cbn [run].
  - injection Hw as <-. eauto.
  - destruct rest as [|seg rest]; [done|]. cbn [pat_match walk] in *. apply andb_prop in Hm as [-> Hm].
    destruct (find_child nodes (fr_node f) s) as [c|]; [|done]. apply IH; [done|].
    by rewrite step_frame_node.
Qed.

Definition frame_rank (f : Frame) (specific : bool) : rank :=
  Rank (fr_depth f) (fr_static_segments f) (fr_static_mask f) specific.

Definition cand_of (f : Frame) (t : Z * bool) : Candidate :=
  mkCand t.1 (fr_depth f) (fr_static_segments f) (fr_static_mask f) t.2 (fr_params f).

Lemma consider_spec best t f :
  t.1 <> kInvalidRoute ->
  c_route_idx best = kInvalidRoute \/
    outranks (frame_rank f t.2) (Rank (c_depth best) (c_static_segments best) (c_static_mask best)
      (c_method_specific best)) ->
  consider best t f = cand_of f t.
Proof.
  destruct t as [r sp]. unfold consider, outranks. cbn [fst snd k_depth k_static k_mask k_specific frame_rank].
  intros Hr H. rewrite (proj2 (Z.eqb_neq _ _) Hr).
  match goal with |- (if ?b then _ else _) = _ => assert (b = true) as ->; [|done] end.
  rewrite !orb_true_iff, !andb_true_iff, !Nat.eqb_eq, !Nat.ltb_lt, Z.ltb_lt, !Z.eqb_eq, negb_true_iff.
  naive_solver.
Qed.

Lemma consider_keep best t f :
  t.1 = kInvalidRoute \/ (c_route_idx best <> kInvalidRoute /\
    ~ outranks (frame_rank f t.2) (Rank (c_depth best) (c_static_segments best) (c_static_mask best)
      (c_method_specific best))) ->
  consider best t f = best.
Proof.
  destruct t as [r sp]. unfold consider, outranks. cbn [fst snd k_depth k_static k_mask k_specific frame_rank].
  destruct (Z.eqb_spec r kInvalidRoute) as [|Hr]; [done|]. intros [?|[Hb Hn]]; [done|].
  match goal with |- (if ?b then _ else _) = _ => destruct b eqn:E; [|done] end.
  rewrite !orb_true_iff, !andb_true_iff, !Nat.eqb_eq, !Nat.ltb_lt, Z.ltb_lt, !Z.eqb_eq, negb_true_iff in E.
  exfalso. naive_solver.
Qed.

Lemma outranks_dec a b : outranks a b \/ ~ outranks a b.
Proof. unfold outranks. destruct a as [? ? ? []], b as [? ? ? []]; cbn; lia. Qed.

Lemma outranks_keep a b c : outranks a b -> ~ outranks c b -> ~ outranks c a.
Proof. unfold outranks. destruct a as [? ? ? []], b as [? ? ? []], c as [? ? ? []]; cbn; lia. Qed.

Lemma outranks_irrefl a : ~ outranks a a.
Proof. unfold outranks. destruct a as [? ? ? []]; cbn; lia. Qed.

Section best.
Context (nodes : list TrieNode) (want : nat).
#[local] Abbreviation term f := (pick_terminal (node_at nodes (fr_node f)) want).

(** The fold keeps a frame that no other frame with a route outranks. *)
Definition best_of (fs : list Frame) (best : Candidate) : Prop :=
  (best = no_candidate /\ forall f, f ∈ fs -> (term f).1 = kInvalidRoute) \/
  (exists f, f ∈ fs /\ (term f).1 <> kInvalidRoute /\ best = cand_of f (term f) /\
     forall g, g ∈ fs -> (term g).1 <> kInvalidRoute ->
       ~ outranks (frame_rank g (term g).2) (frame_rank f (term f).2)).

Lemma fold_best fs : best_of fs (foldl (step_best nodes want) no_candidate fs).
Proof.
  induction fs as [|f fs IH] using rev_ind.
  { left. split; [done|]. by intros f ?%not_elem_of_nil. }
  rewrite foldl_snoc. unfold step_best at 1.
  set (b := foldl (step_best nodes want) no_candidate fs) in *.
  destruct (decide ((term f).1 = kInvalidRoute)) as [Hi|Hv].
  { rewrite consider_keep by by left. destruct IH as [[-> Ha]|(g & Hg & Hgv & -> & Hb)].
    - left. split; [done|]. intros h Hh. apply elem_of_app in Hh as [?|Hh]; [auto|].
      by apply list_elem_of_singleton in Hh as ->.
    - right. exists g. split_and!; try done; [apply elem_of_app; auto|].
      intros h Hh. apply elem_of_app in Hh as [?|Hh]; [auto|].
      by apply list_elem_of_singleton in Hh as ->. }
  destruct IH as [[Hn Ha]|(g & Hg & Hgv & Hbest & Hb)].
  - right. exists f. rewrite consider_spec by (done || left; by rewrite Hn).
    split_and!; try done; [apply elem_of_app; right; by apply list_elem_of_singleton|].
    intros h Hh Hhv. apply elem_of_app in Hh as [Hh|Hh]; [by apply Ha in Hh|].
    apply list_elem_of_singleton in Hh as ->. apply outranks_irrefl.
  - right. assert (Rank (c_depth b) (c_static_segments b) (c_static_mask b) (c_method_specific b) =
      frame_rank g (term g).2) as Hrk by by rewrite Hbest.
    destruct (outranks_dec (frame_rank f (term f).2) (frame_rank g (term g).2)) as [Ho|Ho].
    + exists f. rewrite consider_spec by (done || right; by rewrite Hrk).
      split_and!; try done; [apply elem_of_app; right; by apply list_elem_of_singleton|].
      intros h Hh Hhv. apply elem_of_app in Hh as [Hh|Hh].
      * eapply outranks_keep; [exact Ho|]. by apply Hb.
      * apply list_elem_of_singleton in Hh as ->. apply outranks_irrefl.
    + exists g. rewrite consider_keep by (right; rewrite Hrk; by rewrite Hbest).
      split_and!; try done; [apply elem_of_app; auto|].
      intros h Hh Hhv. apply elem_of_app in Hh as [Hh|Hh]; [by apply Hb|].
      by apply list_elem_of_singleton in Hh as ->.
Qed.
End best.

Lemma offer_terminal nodes pat want n :
  walk nodes 0 pat = Some n -> pick_terminal (node_at nodes n) want = offer nodes pat want.
Proof. intros Hw. unfold pick_terminal, offer, route_at, route_from, slot_route. by rewrite Hw. Qed.

Lemma offer_walk nodes pat want :
  (offer nodes pat want).1 <> kInvalidRoute -> exists n, walk nodes 0 pat = Some n.
Proof.
  unfold offer, route_at, route_from. destruct (walk nodes 0 pat) as [n|]; [eauto|].
  rewrite Z.eqb_refl, andb_false_r. cbn. done.
Qed.

Lemma match_key_best_lemma nodes path key cap want :
  trie_wf nodes -> route_method_slot_from_key key = Some want ->
  let segs := take kMaxPathSegments (segments path) in
  exists r ps, match_key nodes path key cap = Some (r, ps) /\
   ((r = kInvalidRoute /\ ps = [] /\
       forall pat, pat_match pat segs = true -> (offer nodes pat want).1 = kInvalidRoute) \/
    (exists pat sp, pat_match pat segs = true /\ offer nodes pat want = (r, sp) /\ r <> kInvalidRoute /\
       ps = take cap (take kMaxRouteParams (bind_params pat segs)) /\
       forall pat' r' sp', pat_match pat' segs = true -> offer nodes pat' want = (r', sp') ->
         r' <> kInvalidRoute -> ~ outranks (pat_rank pat' sp') (pat_rank pat sp))).
Proof.
  intros Hwf Hkey segs. unfold match_key. rewrite Hkey, tokenize_spec. fold segs.
  assert (mjoin (visit_at nodes segs <$> [root_frame]) = visit nodes segs root_frame) as Hv.
  { cbn. rewrite app_nil_r. unfold visit_at. cbn. by rewrite drop_0. }
  pose proof (visit_bound nodes Hwf segs root_frame (wf_root _ Hwf)) as Hb.
  pose proof (wf_cap _ Hwf) as Hcap.
  rewrite match_loop_visit by (rewrite Hv; lia). rewrite Hv.
  set (best := foldl _ _ _). exists (c_route_idx best), (take cap (c_params best)).
  split.
  { f_equal. f_equal. destruct (Nat.le_ge_cases (length (c_params best)) cap).
    - rewrite Nat.min_l, !take_ge by lia. done.
    - by rewrite Nat.min_r by lia. }
  assert (forall g, g ∈ visit nodes segs root_frame -> exists pat, pat_match pat segs = true /\
    pick_terminal (node_at nodes (fr_node g)) want = offer nodes pat want /\
    (forall sp, frame_rank g sp = pat_rank pat sp) /\
    fr_params g = take kMaxRouteParams (bind_params pat segs)) as Hfw.
  { intros g Hg. apply elem_visit in Hg as [pat Hrun]; [|done]. exists pat.
    destruct (run_frame _ _ _ _ _ Hrun) as (H1 & H2 & H3 & H4 & H5); [cbn; lia|].
    apply run_walk in Hrun. split_and!; try done.
    - by apply offer_terminal.
    - intros sp. unfold frame_rank, pat_rank. by rewrite H2, H3, H4. }
  destruct (fold_best nodes want (visit nodes segs root_frame)) as [[Hbest Ha]|(f & Hf & Hfv & Hbest & Hout)].
  - left. fold best in Hbest. rewrite Hbest. split_and!; [done | cbn; by rewrite take_nil |].
    intros pat Hm. destruct (decide ((offer nodes pat want).1 = kInvalidRoute)) as [|Hne]; [done|].
    destruct (offer_walk _ _ _ Hne) as [n Hw].
    destruct (run_complete nodes root_frame pat segs n Hm Hw) as (g & Hrun & Hgn).
    rewrite <- (offer_terminal _ _ _ _ Hw), <- Hgn. apply Ha, elem_visit; eauto.
  - right. fold best in Hbest. destruct (Hfw f Hf) as (pat & Hm & Ht & Hrk & Hps).
    exists pat, (offer nodes pat want).2. rewrite Hbest, <- Ht. cbn [cand_of c_route_idx c_params].
    split_and!; try done.
    + by destruct (pick_terminal _ _).
    + by rewrite Hps.
    + intros pat' r' sp' Hm' Ho' Hr'. assert ((offer nodes pat' want).1 <> kInvalidRoute) as Hne by by rewrite Ho'.
      destruct (offer_walk _ _ _ Hne) as [n Hw].
      destruct (run_complete nodes root_frame pat' segs n Hm' Hw) as (g & Hrun & Hgn).
      destruct (run_frame _ _ _ _ _ Hrun) as (_ & H2 & H3 & H4 & _); [cbn; lia|].
      assert (g ∈ visit nodes segs root_frame) as Hg by (apply elem_visit; eauto).
      specialize (Hout g Hg). rewrite Hgn, (offer_terminal _ _ _ _ Hw), Ho' in Hout.
      specialize (Hout Hr'). cbn [snd] in Hout. rewrite Hrk in Hout.
      unfold frame_rank in Hout. rewrite H2, H3, H4 in Hout. exact Hout.
Qed.

(** Dispatch on the segment trie terminates and returns a best match.  With
    [segs] the first 64 segments of the path, the result is invalid exactly
    when no stored pattern matches a prefix of them for the method; otherwise
    it is the route of a matching pattern that no other matching pattern
    outranks (deeper, then more literal segments, then literals earlier, then
    a method-specific route), with the parameter values bound by that pattern,
    the first sixteen of them. *)
Theorem match_key_best nodes path key cap want :
  trie_wf nodes -> route_method_slot_from_key key = Some want ->
  let segs := take kMaxPathSegments (segments path) in
  exists r ps, match_key nodes path key cap = Some (r, ps) /\
   ((r = kInvalidRoute /\ ps = [] /\
       forall pat, pat_match pat segs = true -> (offer nodes pat want).1 = kInvalidRoute) \/
    (exists pat sp, pat_match pat segs = true /\ offer nodes pat want = (r, sp) /\ r <> kInvalidRoute /\
       ps = take cap (take kMaxRouteParams (bind_params pat segs)) /\
       forall pat' r' sp', pat_match pat' segs = true -> offer nodes pat' want = (r', sp') ->
         r' <> kInvalidRoute -> ~ outranks (pat_rank pat' sp') (pat_rank pat sp))).
Proof. apply match_key_best_lemma. Qed.

Lemma match_key_best_witness :
  let segs := take kMaxPathSegments (segments (bs "api/42")) in
  exists r ps, match_key trie_ex2 (bs "api/42") 1 16 = Some (r, ps) /\
   ((r = kInvalidRoute /\ ps = [] /\
       forall pat, pat_match pat segs = true -> (offer trie_ex2 pat 1).1 = kInvalidRoute) \/
    (exists pat sp, pat_match pat segs = true /\ offer trie_ex2 pat 1 = (r, sp) /\ r <> kInvalidRoute /\
       ps = take 16 (take kMaxRouteParams (bind_params pat segs)) /\
       forall pat' r' sp', pat_match pat' segs = true -> offer trie_ex2 pat' 1 = (r', sp') ->
         r' <> kInvalidRoute -> ~ outranks (pat_rank pat' sp') (pat_rank pat sp))).
Proof.
  apply (match_key_best trie_ex2 (bs "api/42") 1 16 1); [|reflexivity].
  apply (insert_spec clear (bs "/api/:id") 1 7 true trie_ex2);
    [apply clear_wf | lia | vm_compute; reflexivity].
Defined.
