(* ===== verification/RouteArt.v ===== *)
(** * Adaptive radix tree

    Model of include/rut/runtime/route_art.h and src/runtime/route_art.cc: the
    byte-prefix dispatcher with its four node sizes.  Each pool is the list of
    its allocated nodes; the parallel key and child arrays of the two small
    node types are the list of their live (key, child) entries.  A child
    reference is the packed 16-bit word of the code, type in the two high bits,
    and [insert] tracks the slot that holds the current node as the code's
    interior pointer does. *)

From S2P Require Import Prelude HttpParser RouteCanon RouteMethod RouteTrie.

(** ** References *)

Definition kArtInvalidChildRef : Z := 65535.
Definition kArtIdxMask : Z := 16383.
Definition kArtN4 : Z := 0.
Definition kArtN16 : Z := 1.
Definition kArtN48 : Z := 2.
Definition kArtN256 : Z := 3.

Definition art_pack (t idx : Z) : Z := u16 (Z.lor (Z.shiftl t 14) (Z.land idx kArtIdxMask)).
Definition art_type (ref : Z) : Z := Z.shiftr ref 14.
Definition art_idx (ref : Z) : nat := Z.to_nat (Z.land ref kArtIdxMask).

(** ** Nodes *)

Record ArtNodeHeader := mkHdr { edge : list Z; terminals : list Z }.

Definition empty_hdr : ArtNodeHeader := mkHdr [] (replicate kRouteMethodSlots kInvalidRoute).

Record ArtNode4 := mkN4 { n4_hdr : ArtNodeHeader; n4_entries : list (Z * Z) }.
Record ArtNode16 := mkN16 { n16_hdr : ArtNodeHeader; n16_entries : list (Z * Z) }.
(** [n48_children] are the live children; [child_index] is 1-based, 0 absent. *)
Record ArtNode48 := mkN48 { n48_hdr : ArtNodeHeader; child_index : list Z; n48_children : list Z }.
Record ArtNode256 := mkN256 { n256_hdr : ArtNodeHeader; n256_children : list Z; n256_count : Z }.

Definition new_n4 : ArtNode4 := mkN4 empty_hdr [].
Definition new_n16 : ArtNode16 := mkN16 empty_hdr [].
Definition new_n48 : ArtNode48 := mkN48 empty_hdr (replicate 256 0) [].
Definition new_n256 : ArtNode256 := mkN256 empty_hdr (replicate 256 kArtInvalidChildRef) 0.

Definition kMaxN4 : nat := 256.
Definition kMaxN16 : nat := 64.
Definition kMaxN48 : nat := 32.
Definition kMaxN256 : nat := 8.

Record ArtTrie := mkArt {
  n4_pool : list ArtNode4;
  n16_pool : list ArtNode16;
  n48_pool : list ArtNode48;
  n256_pool : list ArtNode256;
  root_ref : Z;
  is_uniform_n4 : bool
}.

Definition art_clear : ArtTrie := mkArt [new_n4] [] [] [] (art_pack kArtN4 0) true.

Definition at4 (t : ArtTrie) (i : nat) : ArtNode4 := nth i (n4_pool t) new_n4.
Definition at16 (t : ArtTrie) (i : nat) : ArtNode16 := nth i (n16_pool t) new_n16.
Definition at48 (t : ArtTrie) (i : nat) : ArtNode48 := nth i (n48_pool t) new_n48.
Definition at256 (t : ArtTrie) (i : nat) : ArtNode256 := nth i (n256_pool t) new_n256.

Definition set4 t i n := mkArt (<[i := n]> (n4_pool t)) (n16_pool t) (n48_pool t) (n256_pool t)
  (root_ref t) (is_uniform_n4 t).
Definition set16 t i n := mkArt (n4_pool t) (<[i := n]> (n16_pool t)) (n48_pool t) (n256_pool t)
  (root_ref t) (is_uniform_n4 t).
Definition set48 t i n := mkArt (n4_pool t) (n16_pool t) (<[i := n]> (n48_pool t)) (n256_pool t)
  (root_ref t) (is_uniform_n4 t).
Definition set256 t i n := mkArt (n4_pool t) (n16_pool t) (n48_pool t) (<[i := n]> (n256_pool t))
  (root_ref t) (is_uniform_n4 t).
Definition set_root t r := mkArt (n4_pool t) (n16_pool t) (n48_pool t) (n256_pool t) r (is_uniform_n4 t).

(** ** Accessors *)

Definition header (t : ArtTrie) (ref : Z) : ArtNodeHeader :=
  let i := art_idx ref in
  if art_type ref =? kArtN4 then n4_hdr (at4 t i)
  else if art_type ref =? kArtN16 then n16_hdr (at16 t i)
  else if art_type ref =? kArtN48 then n48_hdr (at48 t i)
  else n256_hdr (at256 t i).

Fixpoint find_entry (es : list (Z * Z)) (b : Z) : Z :=
  match es with
  | [] => kArtInvalidChildRef
  | (k, c) :: es' => if k =? b then c else find_entry es' b
  end.

Definition find_in_n4 (n : ArtNode4) (b : Z) : Z := find_entry (n4_entries n) b.
Definition find_in_n16 (n : ArtNode16) (b : Z) : Z := find_entry (n16_entries n) b.
Definition find_in_n48 (n : ArtNode48) (b : Z) : Z :=
  let idx_1based := nth (Z.to_nat b) (child_index n) 0 in
  if idx_1based =? 0 then kArtInvalidChildRef
  else nth (Z.to_nat (idx_1based - 1)) (n48_children n) 0.
Definition find_in_n256 (n : ArtNode256) (b : Z) : Z :=
  nth (Z.to_nat b) (n256_children n) kArtInvalidChildRef.

Definition art_find_child (t : ArtTrie) (parent b : Z) : Z :=
  let i := art_idx parent in
  if art_type parent =? kArtN4 then find_in_n4 (at4 t i) b
  else if art_type parent =? kArtN16 then find_in_n16 (at16 t i) b
  else if art_type parent =? kArtN48 then find_in_n48 (at48 t i) b
  else find_in_n256 (at256 t i) b.

Definition art_pick_terminal (h : ArtNodeHeader) (slot : nat) : Z :=
  let r := nth slot (terminals h) kInvalidRoute in
  if negb (Nat.eqb slot 0) && negb (r =? kInvalidRoute) then r
  else nth 0 (terminals h) kInvalidRoute.

(** ** Allocation: the reference, and the pools after it *)

Definition alloc_n4 (t : ArtTrie) : Z * ArtTrie :=
  let i := length (n4_pool t) in
  if Nat.leb kMaxN4 i then (kArtInvalidChildRef, t)
  else (art_pack kArtN4 (Z.of_nat i),
        mkArt (n4_pool t ++ [new_n4]) (n16_pool t) (n48_pool t) (n256_pool t) (root_ref t)
          (is_uniform_n4 t)).

Definition alloc_n16 (t : ArtTrie) : Z * ArtTrie :=
  let i := length (n16_pool t) in
  if Nat.leb kMaxN16 i then (kArtInvalidChildRef, t)
  else (art_pack kArtN16 (Z.of_nat i),
        mkArt (n4_pool t) (n16_pool t ++ [new_n16]) (n48_pool t) (n256_pool t) (root_ref t) false).

Definition alloc_n48 (t : ArtTrie) : Z * ArtTrie :=
  let i := length (n48_pool t) in
  if Nat.leb kMaxN48 i then (kArtInvalidChildRef, t)
  else (art_pack kArtN48 (Z.of_nat i),
        mkArt (n4_pool t) (n16_pool t) (n48_pool t ++ [new_n48]) (n256_pool t) (root_ref t) false).

Definition alloc_n256 (t : ArtTrie) : Z * ArtTrie :=
  let i := length (n256_pool t) in
  if Nat.leb kMaxN256 i then (kArtInvalidChildRef, t)
  else (art_pack kArtN256 (Z.of_nat i),
        mkArt (n4_pool t) (n16_pool t) (n48_pool t) (n256_pool t ++ [new_n256]) (root_ref t) false).

(** ** Adding a child, with the upgrades *)

(** [child_index[keys[k]] = k + 1] over the entries. *)
Fixpoint index_entries (k : Z) (es : list (Z * Z)) (index : list Z) : list Z :=
  match es with
  | [] => index
  | (key, _) :: es' => index_entries (k + 1) es' (<[Z.to_nat key := k + 1]> index)
  end.

(** The 256 slots read through a 48-way index. *)
Definition spread48 (n : ArtNode48) : list Z :=
  (fun byte : nat => find_in_n48 n (Z.of_nat byte)) <$> seq 0 256.

Definition add_child (t : ArtTrie) (parent b child : Z) : Z * ArtTrie :=
  let pi := art_idx parent in
  if art_type parent =? kArtN4 then
    let n := at4 t pi in
    if Nat.ltb (length (n4_entries n)) 4 then
      (parent, set4 t pi (mkN4 (n4_hdr n) (n4_entries n ++ [(b, child)])))
    else
      let '(new_ref, t1) := alloc_n16 t in
      if new_ref =? kArtInvalidChildRef then (kArtInvalidChildRef, t1)
      else (new_ref, set16 t1 (art_idx new_ref) (mkN16 (n4_hdr n) (n4_entries n ++ [(b, child)])))
  else if art_type parent =? kArtN16 then
    let n := at16 t pi in
    if Nat.ltb (length (n16_entries n)) 16 then
      (parent, set16 t pi (mkN16 (n16_hdr n) (n16_entries n ++ [(b, child)])))
    else
      let '(new_ref, t1) := alloc_n48 t in
      if new_ref =? kArtInvalidChildRef then (kArtInvalidChildRef, t1)
      else
        (new_ref, set48 t1 (art_idx new_ref)
           (mkN48 (n16_hdr n)
              (<[Z.to_nat b := 17]> (index_entries 0 (n16_entries n) (replicate 256 0)))
              ((snd <$> n16_entries n) ++ [child])))
  else if art_type parent =? kArtN48 then
    let n := at48 t pi in
    if Nat.ltb (length (n48_children n)) 48 then
      let slot := Z.of_nat (length (n48_children n)) in
      (parent, set48 t pi (mkN48 (n48_hdr n) (<[Z.to_nat b := slot + 1]> (child_index n))
                             (n48_children n ++ [child])))
    else
      let '(new_ref, t1) := alloc_n256 t in
      if new_ref =? kArtInvalidChildRef then (kArtInvalidChildRef, t1)
      else (new_ref, set256 t1 (art_idx new_ref)
              (mkN256 (n48_hdr n) (<[Z.to_nat b := child]> (spread48 n)) 49))
  else
    let n := at256 t pi in
    (parent, set256 t pi (mkN256 (n256_hdr n) (<[Z.to_nat b := child]> (n256_children n))
                            (u16 (n256_count n + 1)))).

(** ** Insertion *)

(** The slot a child reference is stored in: an interior pointer. *)
Inductive patch_site :=
  | SRoot
  | SN4 (node j : nat)
  | SN16 (node j : nat)
  | SN48 (node j : nat)
  | SN256 (node j : nat).

Definition set_entry (es : list (Z * Z)) (j : nat) (c : Z) : list (Z * Z) :=
  match es !! j with Some (k, _) => <[j := (k, c)]> es | None => es end.

(** [*site = c] *)
Definition write_site (t : ArtTrie) (s : patch_site) (c : Z) : ArtTrie :=
  match s with
  | SRoot => set_root t c
  | SN4 i j => let n := at4 t i in set4 t i (mkN4 (n4_hdr n) (set_entry (n4_entries n) j c))
  | SN16 i j => let n := at16 t i in set16 t i (mkN16 (n16_hdr n) (set_entry (n16_entries n) j c))
  | SN48 i j => let n := at48 t i in
      set48 t i (mkN48 (n48_hdr n) (child_index n) (<[j := c]> (n48_children n)))
  | SN256 i j => let n := at256 t i in
      set256 t i (mkN256 (n256_hdr n) (<[j := c]> (n256_children n)) (n256_count n))
  end.

(** The first entry with key [b]. *)
Fixpoint entry_index (es : list (Z * Z)) (b : Z) : nat :=
  match es with
  | [] => O
  | (k, _) :: es' => if k =? b then O else S (entry_index es' b)
  end.

Definition site_of (t : ArtTrie) (cur b : Z) : patch_site :=
  let ci := art_idx cur in
  if art_type cur =? kArtN4 then SN4 ci (entry_index (n4_entries (at4 t ci)) b)
  else if art_type cur =? kArtN16 then SN16 ci (entry_index (n16_entries (at16 t ci)) b)
  else if art_type cur =? kArtN48 then
    SN48 ci (Z.to_nat (nth (Z.to_nat b) (child_index (at48 t ci)) 0 - 1))
  else SN256 ci (Z.to_nat b).

(** [while (k < e.len && i + k < p.len && e.ptr[k] == p.ptr[i + k]) k++] *)
Fixpoint common_prefix (e p : list Z) : nat :=
  match e, p with
  | x :: e', y :: p' => if x =? y then S (common_prefix e' p') else O
  | _, _ => O
  end.

(** The (key, child) pairs of a node in the order the split visits them. *)
Definition child_pairs (t : ArtTrie) (ref : Z) : list (Z * Z) :=
  let i := art_idx ref in
  if art_type ref =? kArtN4 then n4_entries (at4 t i)
  else if art_type ref =? kArtN16 then n16_entries (at16 t i)
  else if art_type ref =? kArtN48 then
    let n := at48 t i in
    omap (fun byte : nat =>
      let slot1 := nth byte (child_index n) 0 in
      if slot1 =? 0 then None
      else Some (Z.of_nat byte, nth (Z.to_nat (slot1 - 1)) (n48_children n) 0)) (seq 0 256)
  else
    let n := at256 t i in
    omap (fun byte : nat =>
      let c := nth byte (n256_children n) kArtInvalidChildRef in
      if c =? kArtInvalidChildRef then None else Some (Z.of_nat byte, c)) (seq 0 256).

(** Move the pairs onto [tail]; [None]: a pool is exhausted. *)
Fixpoint add_children (t : ArtTrie) (tail : Z) (pairs : list (Z * Z)) : option (Z * ArtTrie) :=
  match pairs with
  | [] => Some (tail, t)
  | (k, c) :: pairs' =>
      let '(tail', t') := add_child t tail k c in
      if tail' =? kArtInvalidChildRef then None else add_children t' tail' pairs'
  end.

(** [n = ArtNodeX{}; n.hdr.edge = e] *)
Definition reset_node (t : ArtTrie) (ref : Z) (e : list Z) : ArtTrie :=
  let i := art_idx ref in
  let h := mkHdr e (terminals empty_hdr) in
  if art_type ref =? kArtN4 then set4 t i (mkN4 h [])
  else if art_type ref =? kArtN16 then set16 t i (mkN16 h [])
  else if art_type ref =? kArtN48 then set48 t i (mkN48 h (replicate 256 0) [])
  else set256 t i (mkN256 h (replicate 256 kArtInvalidChildRef) 0).

Definition set_header (t : ArtTrie) (ref : Z) (h : ArtNodeHeader) : ArtTrie :=
  let i := art_idx ref in
  if art_type ref =? kArtN4 then set4 t i (mkN4 h (n4_entries (at4 t i)))
  else if art_type ref =? kArtN16 then set16 t i (mkN16 h (n16_entries (at16 t i)))
  else if art_type ref =? kArtN48 then
    set48 t i (mkN48 h (child_index (at48 t i)) (n48_children (at48 t i)))
  else set256 t i (mkN256 h (n256_children (at256 t i)) (n256_count (at256 t i))).

(** The split of [child]'s edge [e] at byte [k]: the shared-prefix node. *)
Definition split_child (t : ArtTrie) (child : Z) (e : list Z) (k : nat) (site : patch_site)
    : option (Z * ArtTrie) :=
  let '(tail, t1) := alloc_n4 t in
  if tail =? kArtInvalidChildRef then None
  else
    let t2 := set_header t1 tail (mkHdr (drop k e) (terminals (header t1 child))) in
    match add_children t2 tail (child_pairs t2 child) with
    | None => None
    | Some (tail_ref, t3) =>
        let t4 := reset_node t3 child (take k e) in
        let '(new_child, t5) := add_child t4 child (rd e k) tail_ref in
        if new_child =? kArtInvalidChildRef then None
        else Some (new_child, if negb (new_child =? child) then write_site t5 site new_child else t5)
    end.

(** The descent, over the rest [p] of the path: [None]: a pool is exhausted;
    otherwise the node of the path.  Every round consumes at least a byte. *)
Fixpoint art_insert_loop (fuel : nat) (t : ArtTrie) (cur : Z) (site : patch_site) (p : list Z)
    : option (Z * ArtTrie) :=
  match p, fuel with
  | [], _ => Some (cur, t)
  | _, O => None
  | b :: _, S fuel' =>
      let child := art_find_child t cur b in
      if child =? kArtInvalidChildRef then
        let '(leaf, t1) := alloc_n4 t in
        if leaf =? kArtInvalidChildRef then None
        else
          let t2 := set_header t1 leaf (mkHdr p (terminals (header t1 leaf))) in
          let '(new_parent, t3) := add_child t2 cur b leaf in
          if new_parent =? kArtInvalidChildRef then None
          else Some (leaf, if negb (new_parent =? cur) then write_site t3 site new_parent else t3)
      else
        let e := edge (header t child) in
        let k := common_prefix e p in
        if Nat.eqb k (length e) then
          art_insert_loop fuel' t child (site_of t cur b) (drop k p)
        else
          match split_child t child e k site with
          | None => None
          | Some (new_child, t') => art_insert_loop fuel' t' new_child site (drop k p)
          end
  end.

(** On failure the four pools, the root and the flag are restored from the
    snapshot taken on entry. *)
Definition art_insert (t : ArtTrie) (path : list Z) (method_char route_idx : Z) : bool * ArtTrie :=
  match route_method_slot method_char with
  | None => (false, t)
  | Some slot =>
      let '(lo, n) := finalize_view path in
      let p := sub path lo n in
      let saved := t in
      match art_insert_loop (S (length p)) t (root_ref t) SRoot p with
      | None => (false, saved)
      | Some (cur, t') =>
          let h := header t' cur in
          (true,
           if nth slot (terminals h) kInvalidRoute =? kInvalidRoute
           then set_header t' cur (mkHdr (edge h) (<[slot := route_idx]> (terminals h)))
           else t')
      end
  end.

(** ** Matching *)

(** The homogeneous loop: every node is read from the Node4 pool. *)
Fixpoint match_uniform (fuel : nat) (t : ArtTrie) (want : nat) (cur_idx : nat) (p : list Z) (best : Z)
    : option Z :=
  match p, fuel with
  | [], _ => Some best
  | _, O => None
  | b :: _, S fuel' =>
      let child := find_in_n4 (at4 t cur_idx) b in
      if child =? kArtInvalidChildRef then Some best
      else
        let cn := at4 t (art_idx child) in
        let e := edge (n4_hdr cn) in
        if Nat.ltb (length p) (length e) then Some best
        else if negb (is_prefix e p) then Some best
        else
          let cand := art_pick_terminal (n4_hdr cn) want in
          match_uniform fuel' t want (art_idx child) (drop (length e) p)
            (if negb (cand =? kInvalidRoute) then cand else best)
  end.

(** The general loop: one dispatch on the type per node. *)
Fixpoint match_general (fuel : nat) (t : ArtTrie) (want : nat) (cur : Z) (p : list Z) (best : Z)
    : option Z :=
  match p, fuel with
  | [], _ => Some best
  | _, O => None
  | b :: _, S fuel' =>
      let child := art_find_child t cur b in
      if child =? kArtInvalidChildRef then Some best
      else
        let h := header t child in
        if Nat.ltb (length p) (length (edge h)) then Some best
        else if negb (is_prefix (edge h) p) then Some best
        else
          let cand := art_pick_terminal h want in
          match_general fuel' t want child (drop (length (edge h)) p)
            (if negb (cand =? kInvalidRoute) then cand else best)
  end.

Definition match_canonical_key (t : ArtTrie) (p : list Z) (method_key : Z) : option Z :=
  match route_method_slot_from_key method_key with
  | None => Some kInvalidRoute
  | Some want =>
      if is_uniform_n4 t then
        match_uniform (S (length p)) t want (art_idx (root_ref t)) p
          (art_pick_terminal (n4_hdr (at4 t (art_idx (root_ref t)))) want)
      else
        match_general (S (length p)) t want (root_ref t) p
          (art_pick_terminal (header t (root_ref t)) want)
  end.

Definition match_canonical (t : ArtTrie) (p : list Z) (method_char : Z) : option Z :=
  match_canonical_key t p
    (match route_method_slot method_char with Some s => Z.of_nat s | None => 255 end).

Definition art_match (t : ArtTrie) (path : list Z) (method_char : Z) : option Z :=
  if Nat.eqb (length path) 0 || negb (rd path 0 =? slash) then Some kInvalidRoute
  else
    match canonicalize_request (Some path) with
    | Some p => match_canonical t p method_char
    | None => match_canonical t [] method_char
    end.

Example art_ex :
  let ins t x := snd (art_insert t (bs (fst x)) 0 (snd x)) in
  let t := foldl ins art_clear [("/api/users", 0); ("/api/user", 1); ("/api", 2); ("/", 3); ("/x", 4);
     ("/y", 5); ("/z", 6); ("/w", 7); ("/apt", 8)] in
  art_match t (bs "/api/users/7") 1 = Some 0 /\ art_match t (bs "/api/userx?q") 1 = Some 1 /\
  art_match t (bs "/apix") 1 = Some 2 /\ art_match t (bs "/ap") 1 = Some 3 /\
  art_match t (bs "/w/1") 1 = Some 7 /\ art_match t (bs "/apt/") 1 = Some 8 /\
  length (n16_pool t) = 1%nat.
Proof. vm_compute. split_and!; reflexivity. Qed.

(** Routes that each split the edge above a five-way node move its children
    to a fresh 16-way node every time. *)
Definition churn_routes : list (list Z) :=
  ((fun c => bs "/" ++ replicate 70 (ch "a") ++ [ch c]) <$> ["b"; "c"; "d"; "e"; "f"]%char) ++
  ((fun n => bs "/" ++ replicate (S n) (ch "a") ++ [ch "x"]) <$> seq 0 64).

Definition art_insert_all (t : ArtTrie) (ps : list (list Z)) : list bool * ArtTrie :=
  foldl (fun acc p => let '(oks, t') := acc in let '(ok, t'') := art_insert t' p 0 0 in
    (oks ++ [ok], t'')) ([], t) ps.

(** The pools do not hold every table of 128 routes: a table of 69 routes,
    no longer than 72 bytes each, is refused, the last insertion finding the
    16-way pool exhausted by the splits before it. *)
Example art_capacity_exceeded :
  let '(oks, t) := art_insert_all art_clear churn_routes in
  length churn_routes = 69%nat /\ Forall (fun p => (length p <= 72)%nat) churn_routes /\
  oks = replicate 68 true ++ [false] /\ length (n16_pool t) = kMaxN16.
Proof. vm_compute. split_and!; try reflexivity. repeat constructor. Qed.
