(* ===== verification/ArtView.v ===== *)
(** * Node view of the adaptive radix tree

    The four pools of [RouteArt] seen as one store from references to nodes:
    reading, writing and allocating a node, and what each primitive of
    src/runtime/route_art.cc does to it.  [add_child_spec], [add_children_spec]
    and [write_site_spec] are the contracts that the proofs about insertion
    use. *)

From S2P Require Import Prelude HttpParser RouteCanon RouteMethod RouteTrie RouteArt.

(** ** References *)

Inductive node := A4 (n : ArtNode4) | A16 (n : ArtNode16) | A48 (n : ArtNode48) | A256 (n : ArtNode256).

Definition ntype (n : node) : Z :=
  match n with A4 _ => kArtN4 | A16 _ => kArtN16 | A48 _ => kArtN48 | A256 _ => kArtN256 end.

Definition get (t : ArtTrie) (r : Z) : node :=
  let i := art_idx r in
  if art_type r =? kArtN4 then A4 (at4 t i)
  else if art_type r =? kArtN16 then A16 (at16 t i)
  else if art_type r =? kArtN48 then A48 (at48 t i)
  else A256 (at256 t i).

Definition put (t : ArtTrie) (r : Z) (n : node) : ArtTrie :=
  match n with
  | A4 n => set4 t (art_idx r) n
  | A16 n => set16 t (art_idx r) n
  | A48 n => set48 t (art_idx r) n
  | A256 n => set256 t (art_idx r) n
  end.

Definition pool_len (t : ArtTrie) (ty : Z) : nat :=
  if ty =? kArtN4 then length (n4_pool t)
  else if ty =? kArtN16 then length (n16_pool t)
  else if ty =? kArtN48 then length (n48_pool t)
  else length (n256_pool t).

(** A reference to an allocated node. *)
Definition valid (t : ArtTrie) (r : Z) : Prop := 0 <= r < 65536 /\ (art_idx r < pool_len t (art_type r))%nat.

(** The pools are within their caps, and a trie marked uniform has 4-way nodes
    only. *)
Record pools_ok (t : ArtTrie) : Prop := {
  po_4 : (length (n4_pool t) <= kMaxN4)%nat;
  po_16 : (length (n16_pool t) <= kMaxN16)%nat;
  po_48 : (length (n48_pool t) <= kMaxN48)%nat;
  po_256 : (length (n256_pool t) <= kMaxN256)%nat;
  po_uniform : is_uniform_n4 t = true -> n16_pool t = [] /\ n48_pool t = [] /\ n256_pool t = [] }.

Lemma art_type_div r : art_type r = r / 16384.
Proof. unfold art_type. by rewrite Z.shiftr_div_pow2. Qed.

Lemma art_idx_mod r : art_idx r = Z.to_nat (r mod 16384).
Proof. unfold art_idx, kArtIdxMask. change 16383 with (Z.ones 14). by rewrite Z.land_ones. Qed.

Lemma art_type_range r : 0 <= r < 65536 -> art_type r = 0 \/ art_type r = 1 \/ art_type r = 2 \/ art_type r = 3.
Proof. intros H. rewrite art_type_div. pose proof (Z.div_mod r 16384 ltac:(lia)). pose proof (Z.mod_pos_bound r 16384 ltac:(lia)). lia. Qed.

(** Type and index determine the reference. *)
Lemma ref_inj r s : 0 <= r < 65536 -> 0 <= s < 65536 -> art_type r = art_type s -> art_idx r = art_idx s -> r = s.
Proof.
  rewrite !art_type_div, !art_idx_mod. intros Hr Hs Ht Hi.
  pose proof (Z.div_mod r 16384 ltac:(lia)). pose proof (Z.div_mod s 16384 ltac:(lia)).
  apply Z2Nat.inj in Hi; [|apply Z.mod_pos_bound; lia..]. lia.
Qed.

Lemma art_pack_eq ty i : 0 <= ty <= 3 -> 0 <= i < 16384 -> art_pack ty i = ty * 16384 + i.
Proof.
  intros Ht Hi. unfold art_pack, kArtIdxMask. change 16383 with (Z.ones 14). rewrite Z.land_ones by lia.
  change (2 ^ 14) with 16384. rewrite Z.mod_small by lia. rewrite Z.shiftl_mul_pow2 by lia. change (2 ^ 14) with 16384.
  rewrite <- (Z.add_lor_land (ty * 16384) i).
  assert (Z.land (ty * 16384) i = 0) as ->.
  { apply Z.bits_inj'. intros n Hn. rewrite Z.land_spec, Z.bits_0. change 16384 with (2 ^ 14).
    destruct (Z.lt_ge_cases n 14); [by rewrite Z.mul_pow2_bits_low|].
    replace i with (i mod 2 ^ 14) by (apply Z.mod_small; lia). rewrite (Z.mod_pow2_bits_high i) by lia.
    by rewrite andb_false_r. }
  rewrite Z.add_0_r. apply u16_small.
  pose proof (Z.add_lor_land (ty * 16384) i). pose proof (Z.lor_nonneg (ty * 16384) i).
  assert (0 <= Z.land (ty * 16384) i) by (apply Z.land_nonneg; lia). lia.
Qed.

Lemma pack_type ty i : 0 <= ty <= 3 -> 0 <= i < 16384 -> art_type (art_pack ty i) = ty.
Proof. intros. rewrite art_type_div, art_pack_eq by done. rewrite Z.div_add_l, Z.div_small; lia. Qed.

Lemma pack_idx ty i : 0 <= ty <= 3 -> 0 <= i < 16384 -> art_idx (art_pack ty i) = Z.to_nat i.
Proof. intros. rewrite art_idx_mod, art_pack_eq by done. rewrite Z.add_comm, Z_mod_plus_full, Z.mod_small; done. Qed.

Lemma pack_range ty i : 0 <= ty <= 3 -> 0 <= i < 16384 -> 0 <= art_pack ty i < 65536.
Proof. intros. rewrite art_pack_eq by done. lia. Qed.

Lemma valid_not_invalid t r : pools_ok t -> valid t r -> r <> kArtInvalidChildRef.
Proof.
  intros Hp [_ Hi] ->. change (art_type kArtInvalidChildRef) with 3 in Hi.
  change (art_idx kArtInvalidChildRef) with (Z.to_nat 16383) in Hi. cbn [pool_len] in Hi.
  change (pool_len t 3) with (length (n256_pool t)) in Hi. pose proof (po_256 _ Hp). unfold kMaxN256 in *. lia.
Qed.

(** ** The store *)

Lemma nth_insert_eq {A} (l : list A) i x d : (i < length l)%nat -> nth i (<[i := x]> l) d = x.
Proof. intros H. rewrite nth_lookup, list_lookup_insert_eq by done. done. Qed.

Lemma nth_insert_ne {A} (l : list A) i j x d : i <> j -> nth j (<[i := x]> l) d = nth j l d.
Proof. intros H. by rewrite !nth_lookup, list_lookup_insert_ne. Qed.

Lemma get_put_eq t r n : valid t r -> ntype n = art_type r -> get (put t r n) r = n.
Proof.
  intros [_ Hi] Ht. unfold get. rewrite <- Ht in *. destruct n; cbn in *;
    unfold at4, at16, at48, at256; cbn; rewrite nth_insert_eq; done.
Qed.

Lemma get_put_ne t r n x :
  0 <= r < 65536 -> 0 <= x < 65536 -> ntype n = art_type r -> x <> r -> get (put t r n) x = get t x.
Proof.
  intros Hr Hx Ht Hne. unfold get.
  assert (art_type x <> ntype n \/ art_idx x <> art_idx r) as Hd.
  { rewrite Ht. destruct (decide (art_type x = art_type r)) as [E|]; [right|by left].
    intros E'. apply Hne. by apply ref_inj. }
  destruct (art_type_range x Hx) as [E|[E|[E|E]]]; rewrite E in *; cbn;
    destruct n; cbn in *; unfold at4, at16, at48, at256; cbn; try done;
    (rewrite nth_insert_ne; [done|]; destruct Hd; [done|congruence]).
Qed.

Lemma valid_put t r n x : valid (put t r n) x <-> valid t x.
Proof.
  unfold valid, pool_len. destruct n; cbn; repeat case_if; by rewrite ?length_insert.
Qed.

Lemma pools_put t r n : valid t r -> ntype n = art_type r -> pools_ok t -> pools_ok (put t r n).
Proof.
  intros [_ Hi] Ht [H1 H2 H3 H4 H5]. rewrite <- Ht in Hi.
  split; destruct n; cbn in *; rewrite ?length_insert; try done; intros Hu; destruct (H5 Hu) as (E1 & E2 & E3);
    rewrite ?E1, ?E2, ?E3 in *; cbn in *; try done; lia.
Qed.

Lemma root_put t r n : root_ref (put t r n) = root_ref t.
Proof. by destruct n. Qed.

Lemma get_type t r : 0 <= r < 65536 -> ntype (get t r) = art_type r.
Proof. intros H. unfold get. destruct (art_type_range r H) as [E|[E|[E|E]]]; by rewrite E. Qed.

(** [t'] extends [t] with the fresh node [n] at [r]. *)
Record fresh_in (t : ArtTrie) (r : Z) (t' : ArtTrie) (n : node) : Prop := {
  fr_new : ~ valid t r;
  fr_valid : valid t' r;
  fr_get : get t' r = n;
  fr_old : forall x, valid t x -> valid t' x /\ get t' x = get t x;
  fr_root : root_ref t' = root_ref t;
  fr_pools : pools_ok t' }.

Lemma alloc_fresh (t : ArtTrie) (ty : Z) (i : nat) (t' : ArtTrie) (n : node) :
  0 <= ty <= 3 -> (i < 256)%nat -> i = pool_len t ty -> pool_len t' ty = S i -> pools_ok t' ->
  root_ref t' = root_ref t -> get t' (art_pack ty (Z.of_nat i)) = n ->
  (forall x, valid t x -> valid t' x /\ get t' x = get t x) ->
  fresh_in t (art_pack ty (Z.of_nat i)) t' n.
Proof.
  intros Hty Hi Hl Hl' Hp Hr Hg Ho. split; try done.
  - intros [_ H]. rewrite pack_type, pack_idx in H by lia. lia.
  - split; [apply pack_range; lia|]. rewrite pack_type, pack_idx by lia. lia.
Qed.

Lemma nth_snoc {A} (l : list A) x d : nth (length l) (l ++ [x]) d = x.
Proof. rewrite app_nth2, Nat.sub_diag by lia. done. Qed.

(** What an allocator of nodes [n] returns. *)
Definition alloc_ok (t : ArtTrie) (n : node) (res : Z * ArtTrie) : Prop :=
  res = (kArtInvalidChildRef, t) \/
  (res.1 <> kArtInvalidChildRef /\ fresh_in t res.1 res.2 n /\ art_type res.1 = ntype n).

Ltac alloc_solve Hp :=
  case_if; [by left|right]; zify_bool; cbn [fst snd]; pose proof Hp as [? ? ? ? Hu];
  unfold kMaxN4, kMaxN16, kMaxN48, kMaxN256 in *;
  split_and!;
  [ rewrite art_pack_eq by (unfold kArtN4, kArtN16, kArtN48, kArtN256; lia);
    unfold kArtN4, kArtN16, kArtN48, kArtN256, kArtInvalidChildRef; lia
  | apply alloc_fresh;
    [ by vm_compute | lia | done | cbn; rewrite length_app; cbn; lia
    | split; cbn; rewrite ?length_app; cbn; unfold kMaxN4, kMaxN16, kMaxN48, kMaxN256; done || lia
    | done
    | unfold get; rewrite pack_type, pack_idx by (unfold kArtN4, kArtN16, kArtN48, kArtN256; lia);
      rewrite Nat2Z.id; cbn; unfold at4, at16, at48, at256; cbn; by rewrite nth_snoc
    | intros x [Hx Hi]; unfold valid, get, pool_len in *; destruct (art_type_range x Hx) as [E'|[E'|[E'|E']]];
      rewrite E' in *; cbn in *; unfold at4, at16, at48, at256; cbn; rewrite ?length_app; cbn;
      (split; [split; [done|lia]|]); rewrite ?app_nth1 by lia; done ]
  | rewrite pack_type by (unfold kArtN4, kArtN16, kArtN48, kArtN256; lia); done ].

Lemma alloc_n4_ok t : pools_ok t -> alloc_ok t (A4 new_n4) (alloc_n4 t).
Proof. intros Hp. unfold alloc_n4, alloc_ok. alloc_solve Hp. Qed.

Lemma alloc_n16_ok t : pools_ok t -> alloc_ok t (A16 new_n16) (alloc_n16 t).
Proof. intros Hp. unfold alloc_n16, alloc_ok. alloc_solve Hp. Qed.

Lemma alloc_n48_ok t : pools_ok t -> alloc_ok t (A48 new_n48) (alloc_n48 t).
Proof. intros Hp. unfold alloc_n48, alloc_ok. alloc_solve Hp. Qed.

Lemma alloc_n256_ok t : pools_ok t -> alloc_ok t (A256 new_n256) (alloc_n256 t).
Proof. intros Hp. unfold alloc_n256, alloc_ok. alloc_solve Hp. Qed.

(** ** Operations of one node *)

Definition u_hdr (n : node) : ArtNodeHeader :=
  match n with A4 n => n4_hdr n | A16 n => n16_hdr n | A48 n => n48_hdr n | A256 n => n256_hdr n end.

Definition u_find (n : node) (b : Z) : Z :=
  match n with
  | A4 n => find_in_n4 n b | A16 n => find_in_n16 n b | A48 n => find_in_n48 n b | A256 n => find_in_n256 n b
  end.

Definition u_sethdr (n : node) (h : ArtNodeHeader) : node :=
  match n with
  | A4 n => A4 (mkN4 h (n4_entries n))
  | A16 n => A16 (mkN16 h (n16_entries n))
  | A48 n => A48 (mkN48 h (child_index n) (n48_children n))
  | A256 n => A256 (mkN256 h (n256_children n) (n256_count n))
  end.

Definition u_reset (n : node) (e : list Z) : node :=
  let h := mkHdr e (terminals empty_hdr) in
  match n with
  | A4 _ => A4 (mkN4 h [])
  | A16 _ => A16 (mkN16 h [])
  | A48 _ => A48 (mkN48 h (replicate 256 0) [])
  | A256 _ => A256 (mkN256 h (replicate 256 kArtInvalidChildRef) 0)
  end.

(** Adding in place; [None]: the node is full. *)
Definition u_add (n : node) (b c : Z) : option node :=
  match n with
  | A4 n => if Nat.ltb (length (n4_entries n)) 4 then Some (A4 (mkN4 (n4_hdr n) (n4_entries n ++ [(b, c)]))) else None
  | A16 n => if Nat.ltb (length (n16_entries n)) 16 then Some (A16 (mkN16 (n16_hdr n) (n16_entries n ++ [(b, c)]))) else None
  | A48 n =>
      if Nat.ltb (length (n48_children n)) 48 then
        Some (A48 (mkN48 (n48_hdr n) (<[Z.to_nat b := Z.of_nat (length (n48_children n)) + 1]> (child_index n))
          (n48_children n ++ [c])))
      else None
  | A256 n => Some (A256 (mkN256 (n256_hdr n) (<[Z.to_nat b := c]> (n256_children n)) (u16 (n256_count n + 1))))
  end.

(** The node of the next type that replaces a full one. *)
Definition u_grow (n : node) (b c : Z) : node :=
  match n with
  | A4 n => A16 (mkN16 (n4_hdr n) (n4_entries n ++ [(b, c)]))
  | A16 n => A48 (mkN48 (n16_hdr n) (<[Z.to_nat b := 17]> (index_entries 0 (n16_entries n) (replicate 256 0)))
      ((snd <$> n16_entries n) ++ [c]))
  | A48 n => A256 (mkN256 (n48_hdr n) (<[Z.to_nat b := c]> (spread48 n)) 49)
  | A256 n => A256 n
  end.

Definition u_alloc (n : node) (t : ArtTrie) : Z * ArtTrie :=
  match n with
  | A4 _ => alloc_n16 t | A16 _ => alloc_n48 t | A48 _ => alloc_n256 t | A256 _ => (kArtInvalidChildRef, t)
  end.

(** Overwriting the reference under byte [b]. *)
Definition u_set (n : node) (b c : Z) : node :=
  match n with
  | A4 n => A4 (mkN4 (n4_hdr n) (set_entry (n4_entries n) (entry_index (n4_entries n) b) c))
  | A16 n => A16 (mkN16 (n16_hdr n) (set_entry (n16_entries n) (entry_index (n16_entries n) b) c))
  | A48 n => A48 (mkN48 (n48_hdr n) (child_index n)
      (<[Z.to_nat (nth (Z.to_nat b) (child_index n) 0 - 1) := c]> (n48_children n)))
  | A256 n => A256 (mkN256 (n256_hdr n) (<[Z.to_nat b := c]> (n256_children n)) (n256_count n))
  end.

Definition u_pairs (n : node) : list (Z * Z) :=
  match n with
  | A4 n => n4_entries n
  | A16 n => n16_entries n
  | A48 n =>
      omap (fun byte : nat =>
        let slot1 := nth byte (child_index n) 0 in
        if slot1 =? 0 then None
        else Some (Z.of_nat byte, nth (Z.to_nat (slot1 - 1)) (n48_children n) 0)) (seq 0 256)
  | A256 n =>
      omap (fun byte : nat =>
        let c := nth byte (n256_children n) kArtInvalidChildRef in
        if c =? kArtInvalidChildRef then None else Some (Z.of_nat byte, c)) (seq 0 256)
  end.

(** The tree operations read and write one node. *)
Ltac by_type r :=
  unfold get; destruct (art_type r =? kArtN4), (art_type r =? kArtN16), (art_type r =? kArtN48); reflexivity.

Lemma header_get t r : header t r = u_hdr (get t r).
Proof. unfold header. by_type r. Qed.

Lemma find_get t r b : art_find_child t r b = u_find (get t r) b.
Proof. unfold art_find_child. by_type r. Qed.

Lemma pairs_get t r : child_pairs t r = u_pairs (get t r).
Proof.
  unfold child_pairs, get.
  destruct (art_type r =? kArtN4); [reflexivity|]. destruct (art_type r =? kArtN16); [reflexivity|].
  destruct (art_type r =? kArtN48); unfold u_pairs; reflexivity.
Qed.

Lemma set_header_put t r h : set_header t r h = put t r (u_sethdr (get t r) h).
Proof. unfold set_header. by_type r. Qed.

Lemma reset_put t r e : reset_node t r e = put t r (u_reset (get t r) e).
Proof. unfold reset_node. by_type r. Qed.

Lemma site_put t r b c : write_site t (site_of t r b) c = put t r (u_set (get t r) b c).
Proof. unfold site_of. by_type r. Qed.

Lemma add_child_eq t p b c :
  0 <= p < 65536 ->
  add_child t p b c =
    match u_add (get t p) b c with
    | Some n => (p, put t p n)
    | None =>
        let '(r, t1) := u_alloc (get t p) t in
        if r =? kArtInvalidChildRef then (kArtInvalidChildRef, t1) else (r, put t1 r (u_grow (get t p) b c))
    end.
Proof.
  intros Hp. unfold add_child, get. destruct (art_type_range p Hp) as [E|[E|[E|E]]]; rewrite E;
    cbv [kArtN4 kArtN16 kArtN48 Z.eqb Pos.eqb u_add u_alloc u_grow]; try done.
  all: destruct (Nat.ltb _ _); [done|].
  - destruct (alloc_n16 t) as [r t1]. done.
  - destruct (alloc_n48 t) as [r t1]. done.
  - destruct (alloc_n256 t) as [r t1]. done.
Qed.

(** ** Well-formed nodes *)

Definition entries_wf (cap : nat) (es : list (Z * Z)) : Prop :=
  (length es <= cap)%nat /\ NoDup (fst <$> es) /\ Forall (fun e => is_byte e.1 /\ e.2 <> kArtInvalidChildRef) es.

(** The index maps distinct bytes to distinct live slots. *)
Definition index_wf (ix cs : list Z) : Prop :=
  length ix = 256%nat /\ (length cs <= 48)%nat /\
  (forall b i, ix !! b = Some i -> 0 <= i <= Z.of_nat (length cs)) /\
  (forall b b' i, ix !! b = Some i -> ix !! b' = Some i -> i <> 0 -> b = b') /\
  Forall (fun c => c <> kArtInvalidChildRef) cs.

Definition u_wf (n : node) : Prop :=
  match n with
  | A4 n => entries_wf 4 (n4_entries n)
  | A16 n => entries_wf 16 (n16_entries n)
  | A48 n => index_wf (child_index n) (n48_children n)
  | A256 n => length (n256_children n) = 256%nat
  end.

(** [n'] is [n] with [c] under byte [b]. *)
Record with_child (n : node) (b c : Z) (n' : node) : Prop := {
  wc_wf : u_wf n';
  wc_hdr : u_hdr n' = u_hdr n;
  wc_find : forall x, is_byte x -> u_find n' x = if x =? b then c else u_find n x }.

Lemma find_entry_app es1 es2 b :
  Forall (fun e => is_byte e.1 /\ e.2 <> kArtInvalidChildRef) es1 ->
  find_entry (es1 ++ es2) b =
    if find_entry es1 b =? kArtInvalidChildRef then find_entry es2 b else find_entry es1 b.
Proof.
  induction es1 as [|[k c] es1 IH]; intros Hf; cbn; [done|]. apply Forall_cons in Hf as [[_ Hc] Hf]. cbn in Hc.
  destruct (k =? b); [|by apply IH]. by rewrite (proj2 (Z.eqb_neq _ _) Hc).
Qed.

Lemma find_entry_none es b :
  Forall (fun e => is_byte e.1 /\ e.2 <> kArtInvalidChildRef) es ->
  find_entry es b = kArtInvalidChildRef <-> b ∉ fst <$> es.
Proof.
  induction es as [|[k c] es IH]; intros Hf; cbn; [split; [intros _; apply not_elem_of_nil|done]|].
  apply Forall_cons in Hf as [[_ Hc] Hf]. cbn in Hc. rewrite not_elem_of_cons, <- IH by done.
  destruct (Z.eqb_spec k b) as [->|Hne]; [tauto|]. assert (b <> k) by congruence. tauto.
Qed.

Lemma entries_add cap es b c :
  (length es < cap)%nat -> entries_wf cap es -> is_byte b -> c <> kArtInvalidChildRef ->
  find_entry es b = kArtInvalidChildRef ->
  entries_wf cap (es ++ [(b, c)]) /\
  forall x, find_entry (es ++ [(b, c)]) x = if x =? b then c else find_entry es x.
Proof.
  intros Hl (H1 & H2 & H3) Hb Hc Hnf. split.
  - split_and!; [rewrite length_app; cbn; lia| |apply Forall_app; split; [done|by apply Forall_singleton]].
    rewrite fmap_app. apply NoDup_app. split_and!; [done| |apply NoDup_singleton].
    intros x Hx Hx'. apply list_elem_of_singleton in Hx' as ->. by apply (find_entry_none es b H3) in Hnf.
  - intros x. rewrite find_entry_app by done. cbn [find_entry]. rewrite (Z.eqb_sym b x).
    destruct (Z.eqb_spec x b) as [->|Hne]; [by rewrite Hnf, Z.eqb_refl|]. case_if; zify_bool; congruence.
Qed.

Lemma find48_lookup n b i :
  child_index n !! (Z.to_nat b) = Some i ->
  find_in_n48 n b = if i =? 0 then kArtInvalidChildRef else nth (Z.to_nat (i - 1)) (n48_children n) 0.
Proof. intros H. unfold find_in_n48. by rewrite (nth_lookup_Some _ _ 0 _ H). Qed.

(** A byte has an index entry, and it is in range. *)
Lemma index_at ix cs b : index_wf ix cs -> is_byte b -> exists i, ix !! Z.to_nat b = Some i /\ 0 <= i <= Z.of_nat (length cs).
Proof.
  intros (H1 & _ & H3 & _) Hb. destruct (lookup_lt_is_Some_2 ix (Z.to_nat b)) as [i Hi]; [unfold is_byte in Hb; lia|].
  exists i. split; [done|by eapply H3].
Qed.

Lemma slot_valid cs i : Forall (fun c => c <> kArtInvalidChildRef) cs -> 0 < i <= Z.of_nat (length cs) ->
  nth (Z.to_nat (i - 1)) cs 0 <> kArtInvalidChildRef.
Proof.
  intros Hf Hi. destruct (lookup_lt_is_Some_2 cs (Z.to_nat (i - 1))) as [c Hc]; [lia|].
  rewrite (nth_lookup_Some _ _ _ _ Hc). rewrite Forall_lookup in Hf. by apply (Hf _ _ Hc).
Qed.

Lemma index_add h ix cs b c slot :
  index_wf ix cs -> (length cs < 48)%nat -> is_byte b -> c <> kArtInvalidChildRef ->
  slot = Z.of_nat (length cs) + 1 ->
  find_in_n48 (mkN48 h ix cs) b = kArtInvalidChildRef ->
  with_child (A48 (mkN48 h ix cs)) b c (A48 (mkN48 h (<[Z.to_nat b := slot]> ix) (cs ++ [c]))).
Proof.
  intros Hwf Hl Hb Hc -> Hnf. pose proof Hwf as (H1 & H2 & H3 & H4 & H5). pose proof Hb as Hb'. unfold is_byte in Hb'.
  split; [|done|].
  - split_and!; cbn; rewrite ?length_insert, ?length_app; cbn; [done|lia| | |].
    + intros x i. destruct (decide (x = Z.to_nat b)) as [->|Hne].
      * rewrite list_lookup_insert_eq by lia. intros [= <-]. lia.
      * rewrite list_lookup_insert_ne by done. intros Hi. apply H3 in Hi. lia.
    + assert (forall x i, <[Z.to_nat b := Z.of_nat (length cs) + 1]> ix !! x = Some i ->
        (x = Z.to_nat b /\ i = Z.of_nat (length cs) + 1) \/ ix !! x = Some i) as Hcase.
      { intros x i. destruct (decide (x = Z.to_nat b)) as [->|Hne].
        - rewrite list_lookup_insert_eq by lia. intros [= <-]. by left.
        - rewrite list_lookup_insert_ne by done. by right. }
      intros x y i [[-> ->]|Hx]%Hcase [[-> E]|Hy]%Hcase Hi0; [done| | |by eapply H4].
      * apply H3 in Hy. lia.
      * subst i. apply H3 in Hx. lia.
    + apply Forall_app. split; [done|]. by apply Forall_singleton.
  - intros x Hx. pose proof Hx as Hx'. unfold is_byte in Hx'. cbn [u_find]. destruct (Z.eqb_spec x b) as [->|Hne].
    + rewrite (find48_lookup _ _ (Z.of_nat (length cs) + 1)) by (cbn; apply list_lookup_insert_eq; lia).
      rewrite (proj2 (Z.eqb_neq _ _)) by lia. cbn. replace (Z.to_nat _) with (length cs) by lia. apply nth_snoc.
    + destruct (index_at ix cs x Hwf Hx) as (i & Hi & Hr).
      rewrite (find48_lookup _ _ i) by (cbn; rewrite list_lookup_insert_ne; [done|lia]).
      rewrite (find48_lookup (mkN48 h ix cs) _ i) by done. cbn. destruct (Z.eqb_spec i 0); [done|].
      rewrite app_nth1 by lia. done.
Qed.

Lemma u_add_spec n b c n' :
  u_wf n -> is_byte b -> c <> kArtInvalidChildRef -> u_find n b = kArtInvalidChildRef -> u_add n b c = Some n' ->
  ntype n' = ntype n /\ with_child n b c n'.
Proof.
  intros Hwf Hb Hc Hnf Ha. destruct n as [n|n|n|n]; cbn [u_add u_find u_wf] in *.
  1-3: destruct (Nat.ltb_spec (length (n4_entries n)) 4) || destruct (Nat.ltb_spec (length (n16_entries n)) 16)
       || destruct (Nat.ltb_spec (length (n48_children n)) 48); [|done].
  all: injection Ha as <-; (split; [done|]).
  - edestruct (entries_add 4) as [H1 H2]; [done..|]. split; [done..|]. intros x _. apply H2.
  - edestruct (entries_add 16) as [H1 H2]; [done..|]. split; [done..|]. intros x _. apply H2.
  - destruct n as [h ix cs]. by apply index_add.
  - split; cbn; [by rewrite length_insert|done|]. intros x Hx. unfold find_in_n256, is_byte in *. cbn.
    destruct (Z.eqb_spec x b) as [->|Hne]; [apply nth_insert_eq; lia|apply nth_insert_ne; lia].
Qed.

(** ** Growing a full node *)

Lemma entry_index_le es b : (entry_index es b <= length es)%nat.
Proof. induction es as [|[k c] es IH]; cbn; [lia|]. destruct (k =? b); lia. Qed.

Lemma find_entry_nth es b : find_entry es b = nth (entry_index es b) (snd <$> es) kArtInvalidChildRef.
Proof. induction es as [|[k c] es IH]; cbn; [done|]. by destruct (k =? b). Qed.

Lemma entry_index_ge es b : b ∉ fst <$> es -> entry_index es b = length es.
Proof.
  induction es as [|[k c] es IH]; cbn; [done|]. rewrite not_elem_of_cons. intros [Hb Hn].
  rewrite (proj2 (Z.eqb_neq k b)) by congruence. by rewrite IH.
Qed.

Lemma index_entries_length k es ix : length (index_entries k es ix) = length ix.
Proof. revert k ix. induction es as [|[key c] es IH]; intros; cbn; [done|]. by rewrite IH, length_insert. Qed.

(** The index built from entries sends a key to its position, 1-based. *)
Lemma index_entries_at es : forall k ix b,
  NoDup (fst <$> es) -> Forall (fun e => is_byte e.1 /\ e.2 <> kArtInvalidChildRef) es -> length ix = 256%nat -> is_byte b ->
  index_entries k es ix !! Z.to_nat b =
    if Nat.ltb (entry_index es b) (length es) then Some (k + Z.of_nat (entry_index es b) + 1) else ix !! Z.to_nat b.
Proof.
  induction es as [|[key c] es IH]; intros k ix b Hnd Hf Hl Hb; cbn [index_entries entry_index length]; [done|].
  apply Forall_cons in Hf as [[Hk _] Hf]. cbn in Hk, Hnd. apply NoDup_cons in Hnd as [Hnk Hnd].
  unfold is_byte in Hk, Hb. rewrite IH by (try done; by rewrite length_insert). destruct (Z.eqb_spec key b) as [->|Hne].
  - rewrite entry_index_ge by done. rewrite (proj2 (Nat.ltb_ge _ _)) by lia. cbn.
    rewrite list_lookup_insert_eq by lia. f_equal. lia.
  - change (Nat.ltb (S ?a) (S ?b)) with (Nat.ltb a b). destruct (Nat.ltb _ _); [f_equal; lia|].
    apply list_lookup_insert_ne. lia.
Qed.

Lemma entry_index_inj es b b' :
  (entry_index es b < length es)%nat -> entry_index es b = entry_index es b' -> b = b'.
Proof.
  induction es as [|[k c] es IH]; cbn; [lia|]. destruct (Z.eqb_spec k b), (Z.eqb_spec k b'); intros; subst; try lia; try done; apply IH; lia.
Qed.

(** A 16-way node re-read through a 48-way index. *)
Lemma index_of_entries h es :
  entries_wf 16 es ->
  let n := mkN48 h (index_entries 0 es (replicate 256 0)) (snd <$> es) in
  index_wf (child_index n) (n48_children n) /\ forall x, is_byte x -> find_in_n48 n x = find_entry es x.
Proof.
  intros (H1 & H2 & H3) n.
  assert (forall x, is_byte x -> child_index n !! Z.to_nat x =
    Some (if Nat.ltb (entry_index es x) (length es) then Z.of_nat (entry_index es x) + 1 else 0)) as Hix.
  { intros x Hx. subst n. cbn [child_index]. rewrite index_entries_at by (try done; apply length_replicate).
    case_if; [done|]. rewrite lookup_replicate_2; [done|unfold is_byte in Hx; lia]. }
  assert (length (child_index n) = 256%nat) as Hlen by (subst n; cbn [child_index]; rewrite index_entries_length; apply length_replicate).
  assert (forall b i, child_index n !! b = Some i -> child_index n !! Z.to_nat (Z.of_nat b) = Some i /\ is_byte (Z.of_nat b)) as Hb.
  { intros b i Hi. rewrite Nat2Z.id. split; [done|]. apply lookup_lt_Some in Hi. unfold is_byte. lia. }
  split.
  - split_and!; [done|subst n; cbn [n48_children]; rewrite length_fmap; lia| | |].
    + intros b i [Hi Hbb]%Hb. rewrite Hix in Hi by done. injection Hi as <-. subst n. cbn [n48_children]. rewrite length_fmap.
      case_if; zify_bool; lia.
    + intros b b' i [Hi Hbb]%Hb [Hi' Hbb']%Hb Hi0. rewrite Hix in Hi, Hi' by done. injection Hi as <-. injection Hi' as E.
      destruct (Nat.ltb_spec (entry_index es (Z.of_nat b)) (length es)), (Nat.ltb_spec (entry_index es (Z.of_nat b')) (length es)); try lia.
      assert (Z.of_nat b = Z.of_nat b'); [|lia]. apply (entry_index_inj es); lia.
    + subst n. cbn [n48_children]. apply Forall_fmap. eapply Forall_impl; [exact H3|]. intros [k c] [_ Hc]. done.
  - intros x Hx. rewrite (find48_lookup n x _ (Hix x Hx)). subst n. cbn [n48_children]. rewrite find_entry_nth.
    pose proof (entry_index_le es x). case_if; zify_bool.
    + rewrite (proj2 (Z.eqb_neq _ _)) by lia. replace (Z.to_nat _) with (entry_index es x) by lia.
      apply nth_indep. rewrite length_fmap. lia.
    + rewrite Z.eqb_refl, nth_overflow; [done|]. rewrite length_fmap. lia.
Qed.

Lemma spread48_length n : length (spread48 n) = 256%nat.
Proof. unfold spread48. rewrite length_fmap. apply length_seq. Qed.

Lemma spread48_nth n x : is_byte x -> nth (Z.to_nat x) (spread48 n) kArtInvalidChildRef = find_in_n48 n x.
Proof.
  intros Hx. unfold is_byte in Hx. unfold spread48. apply nth_lookup_Some. rewrite list_lookup_fmap, lookup_seq_lt by lia.
  cbn. f_equal. f_equal. lia.
Qed.

Lemma u_grow_spec n b c :
  u_wf n -> is_byte b -> c <> kArtInvalidChildRef -> u_find n b = kArtInvalidChildRef -> u_add n b c = None ->
  with_child n b c (u_grow n b c).
Proof.
  intros Hwf Hb Hc Hnf Ha. destruct n as [n|n|n|n]; cbn [u_add u_find u_wf u_grow] in *; [| | |done].
  - destruct Hwf as (H1 & H2 & H3).
    edestruct (entries_add 16 (n4_entries n) b c) as [H4 H5]; [lia|by split_and!; [lia|..]|done..|]. split; [done..|]. intros x _. apply H5.
  - destruct (Nat.ltb_spec (length (n16_entries n)) 16) as [|Hlen]; [done|]. pose proof Hwf as (H1 & _).
    destruct n as [h es]. cbn in *. destruct (index_of_entries h es Hwf) as [Hiw Hif].
    destruct (index_add h (index_entries 0 es (replicate 256 0)) (snd <$> es) b c 17) as [H3 H4 H5]; try done.
    + rewrite length_fmap. lia.
    + rewrite length_fmap. lia.
    + by rewrite Hif.
    + split; [done..|]. intros x Hx. rewrite H5 by done. cbn. case_if; [done|]. by apply Hif.
  - split; cbn [u_wf u_hdr u_find n256_children n256_hdr]; [by rewrite length_insert, spread48_length|done|].
    intros x Hx. unfold find_in_n256. cbn [n256_children]. pose proof (spread48_length n) as Hl. unfold is_byte in Hb.
    destruct (Z.eqb_spec x b) as [->|Hne]; [apply nth_insert_eq; lia|].
    rewrite nth_insert_ne by (unfold is_byte in Hx; lia). by apply spread48_nth.
Qed.

(** ** Overwriting and listing children *)

Lemma set_entry_spec es b c :
  (entry_index es b < length es)%nat -> c <> kArtInvalidChildRef ->
  Forall (fun e => is_byte e.1 /\ e.2 <> kArtInvalidChildRef) es ->
  let es' := set_entry es (entry_index es b) c in
  length es' = length es /\ (fst <$> es') = (fst <$> es) /\
  Forall (fun e => is_byte e.1 /\ e.2 <> kArtInvalidChildRef) es' /\
  forall x, find_entry es' x = if x =? b then c else find_entry es x.
Proof.
  intros Hi Hc Hf. cbv zeta. induction es as [|[k c0] es IH]; cbn in Hi; [lia|].
  apply Forall_cons in Hf as [Hk Hf]. cbn [entry_index]. destruct (Z.eqb_spec k b) as [->|Hne].
  - cbn. split_and!; try done; [constructor; [tauto|done]|]. intros x. rewrite (Z.eqb_sym b x). by destruct (x =? b).
  - assert (set_entry ((k, c0) :: es) (S (entry_index es b)) c = (k, c0) :: set_entry es (entry_index es b) c) as ->.
    { unfold set_entry. cbn. by destruct (es !! _) as [[? ?]|]. }
    destruct IH as (H1 & H2 & H3 & H4); [lia|done|]. split_and!; [cbn; congruence|cbn; congruence|by constructor|].
    intros x. cbn. rewrite H4. destruct (Z.eqb_spec k x) as [->|]; [|done]. by rewrite (proj2 (Z.eqb_neq x b)).
Qed.

Lemma entries_set cap es b c :
  entries_wf cap es -> c <> kArtInvalidChildRef -> find_entry es b <> kArtInvalidChildRef ->
  entries_wf cap (set_entry es (entry_index es b) c) /\
  forall x, find_entry (set_entry es (entry_index es b) c) x = if x =? b then c else find_entry es x.
Proof.
  intros (H1 & H2 & H3) Hc Hfd. assert (entry_index es b < length es)%nat as Hi.
  { pose proof (entry_index_le es b). destruct (decide (entry_index es b = length es)) as [E|]; [|lia].
    destruct Hfd. rewrite find_entry_nth, E. apply nth_overflow. by rewrite length_fmap. }
  destruct (set_entry_spec es b c Hi Hc H3) as (E1 & E2 & E3 & E4). split; [|done]. split_and!; [lia|by rewrite E2|done].
Qed.

Lemma u_set_spec n b c :
  u_wf n -> is_byte b -> c <> kArtInvalidChildRef -> u_find n b <> kArtInvalidChildRef ->
  ntype (u_set n b c) = ntype n /\ with_child n b c (u_set n b c).
Proof.
  intros Hwf Hb Hc Hfd. destruct n as [n|n|n|n]; (split; [done|]); cbn [u_find u_wf u_set] in *.
  - destruct (entries_set 4 (n4_entries n) b c) as [H1 H2]; [done..|]. split; [done..|]. intros x _. apply H2.
  - destruct (entries_set 16 (n16_entries n) b c) as [H1 H2]; [done..|]. split; [done..|]. intros x _. apply H2.
  - destruct n as [h ix cs]. cbn [child_index n48_children n48_hdr] in *. pose proof Hwf as (H1 & H2 & H3 & H4 & H5).
    destruct (index_at ix cs b Hwf Hb) as (i & Hi & Hr). rewrite (nth_lookup_Some _ _ 0 _ Hi).
    assert (i <> 0) as Hi0 by (intros ->; apply Hfd; rewrite (find48_lookup (mkN48 h ix cs) b 0 Hi); done).
    split; [|done|].
    + cbn. unfold index_wf. rewrite length_insert. split_and!; try done. by apply Forall_insert.
    + intros x Hx. cbn [u_find]. destruct (index_at ix cs x Hwf Hx) as (j & Hj & Hrj).
      rewrite !(find48_lookup _ x j) by done. cbn [n48_children]. destruct (Z.eqb_spec x b) as [->|Hne].
      * rewrite Hi in Hj. injection Hj as <-. rewrite (proj2 (Z.eqb_neq i 0) Hi0). apply nth_insert_eq. lia.
      * destruct (Z.eqb_spec j 0); [done|]. apply nth_insert_ne. intros E. apply Hne.
        assert (i = j) as <- by lia. pose proof (H4 _ _ _ Hi Hj Hi0). unfold is_byte in *. lia.
  - split; cbn [u_wf u_hdr u_find n256_children n256_hdr]; [by rewrite length_insert|done|].
    intros x Hx. unfold find_in_n256, is_byte in *. cbn [n256_children].
    destruct (Z.eqb_spec x b) as [->|Hne]; [apply nth_insert_eq; lia|apply nth_insert_ne; lia].
Qed.

Lemma find_entry_absent es b : b ∉ fst <$> es -> find_entry es b = kArtInvalidChildRef.
Proof.
  induction es as [|[k c] es IH]; cbn; [done|]. rewrite not_elem_of_cons. intros [Hb Hn].
  rewrite (proj2 (Z.eqb_neq k b)) by congruence. by apply IH.
Qed.

(** Listing a byte-indexed table in byte order. *)
Lemma omap_bytes (f : nat -> option (Z * Z)) n : forall s,
  (forall i e, f i = Some e -> e.1 = Z.of_nat i) ->
  Forall (fun k => Z.of_nat s <= k < Z.of_nat (s + n)) (fst <$> omap f (seq s n)) /\
  NoDup (fst <$> omap f (seq s n)) /\
  forall x, Z.of_nat s <= x < Z.of_nat (s + n) ->
    find_entry (omap f (seq s n)) x = match f (Z.to_nat x) with Some e => e.2 | None => kArtInvalidChildRef end.
Proof.
  intros s Hf. revert s. induction n as [|n IH]; intros s.
  { cbn. split_and!; [constructor|constructor|lia]. }
  destruct (IH (S s)) as (H1 & H2 & H3). 
  assert (omap f (seq s (S n)) = match f s with Some e => e :: omap f (seq (S s) n) | None => omap f (seq (S s) n) end) as ->
    by reflexivity.
  assert (Forall (fun k => Z.of_nat s <= k < Z.of_nat (s + S n)) (fst <$> omap f (seq (S s) n))) as H1'
    by (eapply Forall_impl; [exact H1|]; cbn; lia).
  destruct (f s) as [[k c]|] eqn:E; rewrite ?fmap_cons; cbn [fst].
  - pose proof (Hf _ _ E) as Hk. cbn in Hk. subst k. split_and!.
    + constructor; [lia|done].
    + apply NoDup_cons. split; [|done]. rewrite Forall_forall in H1. intros Hin. apply H1 in Hin. lia.
    + intros x Hx. cbn [find_entry fst]. destruct (Z.eqb_spec (Z.of_nat s) x) as [<-|Hne]; [by rewrite Nat2Z.id, E|].
      apply H3. lia.
  - split_and!; [done|done|]. intros x Hx. destruct (decide (Z.of_nat s = x)) as [<-|]; [|apply H3; lia].
    rewrite Nat2Z.id, E. rewrite Forall_forall in H1.
    apply find_entry_absent. intros Hin. apply H1 in Hin. lia.
Qed.

Lemma u_pairs_spec n :
  u_wf n ->
  NoDup (fst <$> u_pairs n) /\
  Forall (fun e => is_byte e.1 /\ e.2 <> kArtInvalidChildRef) (u_pairs n) /\
  forall x, is_byte x -> find_entry (u_pairs n) x = u_find n x.
Proof.
  intros Hwf. destruct n as [n|n|n|n]; cbn [u_wf u_pairs u_find] in *.
  1-2: destruct Hwf as (_ & H2 & H3); done.
  - set (f := fun byte : nat => _).
    assert (forall i e, f i = Some e -> e.1 = Z.of_nat i) as Hf.
    { intros i e. subst f. cbv beta zeta. destruct (nth i (child_index n) 0 =? 0); [done|]. by intros [= <-]. }
    destruct (omap_bytes f 256 0 Hf) as (H1 & H2 & H3). split_and!; [done| |].
    + apply Forall_forall. intros e He. rewrite Forall_forall in H1. pose proof (H1 e.1 ltac:(apply list_elem_of_fmap; by exists e)) as Hk.
      split; [done|]. apply list_elem_of_omap in He as (i & _ & Hi). pose proof (Hf _ _ Hi) as Hei.
      subst f. cbv beta zeta in Hi. destruct (Z.eqb_spec (nth i (child_index n) 0) 0) as [|Hne]; [done|]. injection Hi as <-. cbn [fst snd] in *.
      destruct Hwf as (Hl & _ & Hr & _ & Hc). apply slot_valid; [done|].
      destruct (lookup_lt_is_Some_2 (child_index n) i) as [j Hj]; [lia|]. rewrite (nth_lookup_Some _ _ 0 _ Hj) in *.
      pose proof (Hr _ _ Hj). lia.
    + intros x Hx. unfold is_byte in Hx. rewrite H3 by lia. subst f. cbv beta zeta. unfold find_in_n48.
      destruct (nth (Z.to_nat x) (child_index n) 0 =? 0); done.
  - set (f := fun byte : nat => _).
    assert (forall i e, f i = Some e -> e.1 = Z.of_nat i /\ e.2 <> kArtInvalidChildRef) as Hf.
    { intros i e. subst f. cbv beta zeta. case_if; [done|]. zify_bool. by intros [= <-]. }
    destruct (omap_bytes f 256 0 (fun i e H => proj1 (Hf i e H))) as (H1 & H2 & H3). split_and!; [done| |].
    + apply Forall_forall. intros e He. rewrite Forall_forall in H1. pose proof (H1 e.1 ltac:(apply list_elem_of_fmap; by exists e)) as Hk.
      split; [done|]. apply list_elem_of_omap in He as (i & _ & Hi). apply (Hf _ _ Hi).
    + intros x Hx. unfold is_byte in Hx. rewrite H3 by lia. subst f. cbv beta zeta. unfold find_in_n256. case_if; zify_bool; done.
Qed.

(** ** Contracts of the store operations *)

(** [t'] is [t] except at [r], which is allocated in [t']. *)
Record changed_at (t : ArtTrie) (r : Z) (t' : ArtTrie) : Prop := {
  ca_valid : valid t' r;
  ca_old : forall x, valid t x -> valid t' x;
  ca_get : forall x, valid t x -> x <> r -> get t' x = get t x;
  ca_root : root_ref t' = root_ref t;
  ca_pools : pools_ok t' }.

Lemma put_changed t r n : pools_ok t -> valid t r -> ntype n = art_type r -> changed_at t r (put t r n).
Proof.
  intros Hp Hv Ht. split; [by apply valid_put|intros x; apply valid_put| |apply root_put|by apply pools_put].
  intros x [Hx _] Hne. apply get_put_ne; try done. apply Hv.
Qed.

Lemma fresh_changed t r t' n : fresh_in t r t' n -> changed_at t r t'.
Proof. intros [H1 H2 H3 H4 H5 H6]. split; try done; intros x Hx; intros; by apply H4. Qed.

Lemma changed_trans t r t1 r' t2 :
  changed_at t r t1 -> changed_at t1 r' t2 -> (r = r' \/ ~ valid t r) -> changed_at t r' t2.
Proof.
  intros [H1 H2 H3 H4 H5] [K1 K2 K3 K4 K5] Hrr. split; try done; [auto| |congruence].
  intros x Hx Hne. rewrite K3 by auto. apply H3; [done|]. intros ->. destruct Hrr; [by subst|done].
Qed.

Lemma add_child_spec t p b c :
  pools_ok t -> valid t p -> u_wf (get t p) -> is_byte b -> c <> kArtInvalidChildRef ->
  u_find (get t p) b = kArtInvalidChildRef ->
  let '(r, t') := add_child t p b c in
  r = kArtInvalidChildRef \/
  (r <> kArtInvalidChildRef /\ with_child (get t p) b c (get t' r) /\ changed_at t r t' /\
   (r = p /\ is_Some (u_add (get t p) b c) \/ ~ valid t r /\ u_add (get t p) b c = None)).
Proof.
  intros Hp Hv Hwf Hb Hc Hnf. rewrite add_child_eq by apply Hv. destruct (u_add (get t p) b c) as [n|] eqn:Ea.
  - right. destruct (u_add_spec _ _ _ _ Hwf Hb Hc Hnf Ea) as [Hty Hwc]. rewrite get_type in Hty by apply Hv.
    split_and!; [by apply (valid_not_invalid t)|by rewrite get_put_eq|by apply put_changed|left; by eauto].
  - pose proof (u_grow_spec _ _ _ Hwf Hb Hc Hnf Ea) as Hwc.
    assert (exists n0, ntype n0 = ntype (u_grow (get t p) b c) /\ alloc_ok t n0 (u_alloc (get t p) t)) as (n0 & Hn0 & Hal).
    { destruct (get t p); cbn [u_alloc u_grow u_add] in *; [..|done]; eexists; (split; [|by auto using alloc_n16_ok, alloc_n48_ok, alloc_n256_ok]); done. }
    destruct (u_alloc (get t p) t) as [r t1]. destruct Hal as [[= -> ->]|(Hr & Hfr & Hty)]; [rewrite Z.eqb_refl; by left|].
    cbn [fst snd] in *. rewrite (proj2 (Z.eqb_neq _ _) Hr). right.
    assert (ntype (u_grow (get t p) b c) = art_type r) as Ht by congruence.
    assert (valid t1 r) as Hv1 by apply Hfr. split_and!; [done|by rewrite get_put_eq| |right; split; [apply Hfr|done]].
    eapply changed_trans; [by eapply fresh_changed|apply put_changed; [apply Hfr|done..]|by left].
Qed.

(** ** Clearing a node and replacing its header *)

Lemma nth_replicate_lt {A} n i (x d : A) : (i < n)%nat -> nth i (replicate n x) d = x.
Proof. intros H. apply nth_lookup_Some. by apply lookup_replicate_2. Qed.

Lemma u_reset_spec n e :
  ntype (u_reset n e) = ntype n /\ u_wf (u_reset n e) /\ u_hdr (u_reset n e) = mkHdr e (replicate kRouteMethodSlots kInvalidRoute) /\
  (forall x, is_byte x -> u_find (u_reset n e) x = kArtInvalidChildRef).
Proof.
  destruct n; cbn [u_reset ntype u_wf u_hdr u_find n4_entries n16_entries child_index n48_children n256_children];
    (split_and!; try done); try (intros x Hx).
  all: try (split_and!; [cbn; lia|constructor|constructor]).
  - split_and!; [apply length_replicate|cbn; lia| | |constructor].
    + intros b i Hi. apply lookup_replicate in Hi as [-> _]. cbn. lia.
    + intros b b' i Hi _ Hne. by apply lookup_replicate in Hi as [-> _].
  - unfold find_in_n48. cbn [child_index]. unfold is_byte in Hx. rewrite nth_replicate_lt by lia. done.
  - unfold find_in_n256. cbn [n256_children]. unfold is_byte in Hx. rewrite nth_replicate_lt by lia. done.
Qed.

(** A reset node takes two children without growing. *)
Lemma u_reset_room n e b c : exists n1, u_add (u_reset n e) b c = Some n1 /\ forall b' c', is_Some (u_add n1 b' c').
Proof.
  destruct n; cbn [u_reset u_add n4_entries n16_entries n48_children n256_children n4_hdr n16_hdr n48_hdr n256_hdr].
  all: eexists; (split; [reflexivity|]); intros b' c'; by eexists.
Qed.

Lemma valid_u_type t r n : valid t r -> ntype n = ntype (get t r) -> ntype n = art_type r.
Proof. intros [Hr _] ->. by apply get_type. Qed.

Lemma u_sethdr_spec n h : u_hdr (u_sethdr n h) = h /\ ntype (u_sethdr n h) = ntype n /\
  (u_wf n -> u_wf (u_sethdr n h)) /\ forall x, u_find (u_sethdr n h) x = u_find n x.
Proof. by destruct n. Qed.

Lemma empty_n4_spec h : u_wf (A4 (mkN4 h [])) /\ u_hdr (A4 (mkN4 h [])) = h /\ forall x, u_find (A4 (mkN4 h [])) x = kArtInvalidChildRef.
Proof. split_and!; [split_and!; [cbn; lia|constructor|constructor]|done|done]. Qed.

(** ** Patch sites *)

Lemma set_root_spec t c :
  root_ref (set_root t c) = c /\ (forall r, get (set_root t c) r = get t r) /\
  (forall r, valid (set_root t c) r <-> valid t r) /\ (pools_ok t -> pools_ok (set_root t c)).
Proof. split_and!; try done. intros [H1 H2 H3 H4 H5]. by split. Qed.

(** A site computed before other nodes changed still designates the same slot. *)
Lemma site_of_get t t' r b : get t r = get t' r -> site_of t r b = site_of t' r b.
Proof.
  unfold get, site_of. destruct (art_type r =? kArtN4), (art_type r =? kArtN16), (art_type r =? kArtN48);
    intros H; injection H as H; rewrite ?H; done.
Qed.

Lemma write_site_spec t t' r b c :
  pools_ok t -> valid t r -> get t' r = get t r -> u_wf (get t r) -> is_byte b -> c <> kArtInvalidChildRef ->
  u_find (get t r) b <> kArtInvalidChildRef ->
  let t1 := write_site t (site_of t' r b) c in
  with_child (get t r) b c (get t1 r) /\ changed_at t r t1.
Proof.
  intros Hp Hv Hg Hwf Hb Hc Hf. cbv zeta. rewrite (site_of_get t' t r b Hg), site_put.
  destruct (u_set_spec _ _ _ Hwf Hb Hc Hf) as [Ht Hw]. pose proof (valid_u_type _ _ _ Hv Ht) as Hty.
  rewrite get_put_eq by done. split; [done|by apply put_changed].
Qed.

(** ** Uniform trees *)

Lemma uniform_n4 t r : pools_ok t -> is_uniform_n4 t = true -> valid t r ->
  (forall b, u_find (get t r) b = find_in_n4 (at4 t (art_idx r)) b) /\ u_hdr (get t r) = n4_hdr (at4 t (art_idx r)).
Proof.
  intros Hp Hu [Hr Hi]. destruct (po_uniform _ Hp Hu) as (E1 & E2 & E3). unfold get.
  destruct (art_type_range r Hr) as [E|[E|[E|E]]]; rewrite E in *; [done|cbn in Hi; rewrite ?E1, ?E2, ?E3 in Hi; cbn in Hi; lia..].
Qed.

Lemma art_clear_spec : pools_ok art_clear /\ valid art_clear (root_ref art_clear) /\
  get art_clear (root_ref art_clear) = A4 (mkN4 (mkHdr [] (replicate kRouteMethodSlots kInvalidRoute)) []).
Proof.
  split_and!; [|split; vm_compute; [done|lia]|reflexivity].
  split; vm_compute; try lia. done.
Qed.

(** ** Room *)

Definition pool_cap (ty : Z) : nat :=
  if ty =? kArtN4 then kMaxN4 else if ty =? kArtN16 then kMaxN16 else if ty =? kArtN48 then kMaxN48 else kMaxN256.

Definition has_room (t : ArtTrie) (ty : Z) : Prop := (pool_len t ty < pool_cap ty)%nat.

Lemma pool_len_put t r n ty : pool_len (put t r n) ty = pool_len t ty.
Proof. unfold pool_len. destruct n; cbn; repeat case_if; by rewrite ?length_insert. Qed.

(** An allocator with room returns a reference of its type and leaves the other
    pools alone. *)
Definition alloc_room (t : ArtTrie) (ty : Z) (res : Z * ArtTrie) : Prop :=
  res.1 <> kArtInvalidChildRef /\ art_type res.1 = ty /\ 0 <= res.1 < 65536 /\
  forall ty', 0 <= ty' <= 3 -> pool_len res.2 ty' = (pool_len t ty' + if Z.eqb ty' ty then 1 else 0)%nat.

Ltac alloc_room_solve Hr :=
  unfold has_room, pool_len, pool_cap in Hr; cbn in Hr; unfold kMaxN4, kMaxN16, kMaxN48, kMaxN256 in Hr;
  rewrite (proj2 (Nat.leb_gt _ _)) by (unfold kMaxN4, kMaxN16, kMaxN48, kMaxN256; lia); cbn [fst snd];
  split_and!;
  [ rewrite art_pack_eq by (unfold kArtN4, kArtN16, kArtN48, kArtN256; lia);
    unfold kArtN4, kArtN16, kArtN48, kArtN256, kArtInvalidChildRef; lia
  | apply pack_type; unfold kArtN4, kArtN16, kArtN48, kArtN256; lia
  | apply pack_range; unfold kArtN4, kArtN16, kArtN48, kArtN256; lia
  | apply pack_range; unfold kArtN4, kArtN16, kArtN48, kArtN256; lia
  | intros ty' Hty; assert (ty' = 0 \/ ty' = 1 \/ ty' = 2 \/ ty' = 3) as [-> | [-> | [-> | ->]]] by lia;
    unfold pool_len; cbn; rewrite ?length_app; cbn; lia ].

Lemma alloc_n4_room t : has_room t kArtN4 -> alloc_room t kArtN4 (alloc_n4 t).
Proof. intros Hr. unfold alloc_n4, alloc_room. alloc_room_solve Hr. Qed.

Lemma alloc_n16_room t : has_room t kArtN16 -> alloc_room t kArtN16 (alloc_n16 t).
Proof. intros Hr. unfold alloc_n16, alloc_room. alloc_room_solve Hr. Qed.

Lemma alloc_n48_room t : has_room t kArtN48 -> alloc_room t kArtN48 (alloc_n48 t).
Proof. intros Hr. unfold alloc_n48, alloc_room. alloc_room_solve Hr. Qed.

Lemma alloc_n256_room t : has_room t kArtN256 -> alloc_room t kArtN256 (alloc_n256 t).
Proof. intros Hr. unfold alloc_n256, alloc_room. alloc_room_solve Hr. Qed.

(** Only the pools above the type of [p] and up to that of [r] may differ. *)
Definition grew (t : ArtTrie) (lo hi : Z) (t' : ArtTrie) : Prop :=
  lo <= hi /\ forall ty, 0 <= ty <= 3 -> ty <= lo \/ hi < ty -> pool_len t' ty = pool_len t ty.

Lemma grew_trans t a b t1 c t2 : grew t a b t1 -> grew t1 b c t2 -> grew t a c t2.
Proof. intros [H1 H2] [H3 H4]. split; [lia|]. intros ty Hty Hor. rewrite H4, H2 by lia. done. Qed.

Lemma add_child_room t p b c :
  0 <= p < 65536 -> p <> kArtInvalidChildRef -> (forall ty, art_type p < ty <= 3 -> has_room t ty) ->
  let '(r, t') := add_child t p b c in
  r <> kArtInvalidChildRef /\ 0 <= r < 65536 /\ grew t (art_type p) (art_type r) t' /\
  (is_Some (u_add (get t p) b c) -> forall ty, pool_len t' ty = pool_len t ty).
Proof.
  intros Hp Hpi Hroom. rewrite add_child_eq by done. destruct (u_add (get t p) b c) as [n|] eqn:Ea.
  - split_and!; [done|lia|lia| |intros _ ty; apply pool_len_put]. split; [lia|]. intros ty _ _. apply pool_len_put.
  - pose proof (get_type t p Hp) as Hty.
    assert (exists ty, ty = art_type p + 1 /\ alloc_room t ty (u_alloc (get t p) t)) as (ty & Et & Hal).
    { destruct (get t p); cbn [u_alloc u_add ntype] in *; rewrite <- Hty in *; [..|done].
      - exists kArtN16. split; [done|]. apply alloc_n16_room, Hroom. done.
      - exists kArtN48. split; [done|]. apply alloc_n48_room, Hroom. done.
      - exists kArtN256. split; [done|]. apply alloc_n256_room, Hroom. done. }
    destruct (u_alloc (get t p) t) as [r t1]. destruct Hal as (A1 & A2 & A3 & A4). cbn [fst snd] in *.
    rewrite (proj2 (Z.eqb_neq _ _) A1). split_and!; [done|lia|lia| |by intros [? ?]].
    split; [lia|]. intros ty' Hty' Hor. rewrite pool_len_put, A4 by done. rewrite (proj2 (Z.eqb_neq ty' ty)) by lia. lia.
Qed.
