(* ===== verification/ArtTree.v ===== *)
(** * Path labels of a radix tree

    A radix tree seen through its labelling: [N q] is the node that the path [q]
    leads to.  [lab_inv] is the invariant that ties the labels to the edges and
    child references of the nodes; the three ways in which insertion reshapes the
    tree (moving a node, hanging a leaf, splitting an edge) preserve it.  Nothing
    here depends on how nodes are stored. *)

From S2P Require Import Prelude RouteArt.

#[local] Abbreviation inv := kArtInvalidChildRef.

Record lab_inv (root : Z) (ed : Z -> list Z) (fd : Z -> Z -> Z) (N : list Z -> option Z) : Prop := {
  li_root : N [] = Some root;
  li_child : forall q r b, N q = Some r -> is_byte b -> fd r b <> inv ->
    exists e, ed (fd r b) = b :: e /\ N (q ++ b :: e) = Some (fd r b);
  li_parent : forall p c, N p = Some c -> p <> [] ->
    exists q r b e, N q = Some r /\ is_byte b /\ fd r b = c /\ c <> inv /\ ed c = b :: e /\ p = q ++ b :: e;
  li_inj : forall p q r, N p = Some r -> N q = Some r -> p = q;
  li_bytes : forall p r, N p = Some r -> Forall is_byte p }.

(** [N] with [q] leading to [r] *)
Definition relabel (N : list Z -> option Z) (q : list Z) (r : Z) : list Z -> option Z :=
  fun p => if decide (p = q) then Some r else N p.

Lemma relabel_eq N q r : relabel N q r q = Some r.
Proof. unfold relabel. by rewrite decide_True. Qed.

Lemma relabel_ne N q r p : p <> q -> relabel N q r p = N p.
Proof. intros. unfold relabel. by rewrite decide_False. Qed.

Lemma relabel_inv N q r p x : relabel N q r p = Some x -> (p = q /\ x = r) \/ (p <> q /\ N p = Some x).
Proof. unfold relabel. case_decide; [intros [= ->]; by left|by right]. Qed.

Definition unlabelled (N : list Z -> option Z) (r : Z) : Prop := forall p, N p <> Some r.

Lemma prefix_cases {A} (a b p : list A) x y : a ++ x = p -> b ++ y = p ->
  (exists z, b = a ++ z) \/ (exists z, a = b ++ z).
Proof.
  intros <-. revert b y x. induction a as [|u a IH]; intros b y x H; [left; by exists b|].
  destruct b as [|v b]; [right; by exists (u :: a)|]. cbn in H. injection H as -> H.
  destruct (IH _ _ _ H) as [[z ->]|[z ->]]; [left|right]; by exists z.
Qed.

Section labels.
  Context (root : Z) (ed : Z -> list Z) (fd : Z -> Z -> Z) (N : list Z -> option Z).
  Context (HI : lab_inv root ed fd N).

(** The way down from a node towards a longer label goes through its child. *)
Lemma descend q r : N q = Some r -> forall b s c, N (q ++ b :: s) = Some c -> is_byte b /\ fd r b <> inv /\ exists s', b :: s = ed (fd r b) ++ s'.
Proof.
  intros Hr b s c Hc. remember (length (q ++ b :: s)) as n eqn:Hn.
  revert q r Hr b s c Hc Hn. induction n as [n IH] using lt_wf_ind. intros q r Hr b s c Hc Hn.
  destruct (li_parent _ _ _ _ HI _ _ Hc) as (q' & x & b' & e & Hx & Hb' & Hf & Hne & He & Hp); [by destruct q|].
  destruct (prefix_cases q q' (q ++ b :: s) (b :: s) (b' :: e)) as [[z Hz]|[z Hz]]; [done|by rewrite Hp| |]; subst.
  - (* the parent lies below or at [r] *)
    rewrite <- app_assoc in Hp. apply app_inv_head in Hp. destruct z as [|d z]; cbn in Hp.
    + rewrite app_nil_r in Hx. assert (x = r) as -> by congruence. injection Hp as -> ->.
      split_and!; [done..|]. exists []. rewrite He, app_nil_r. done.
    + injection Hp as <- ->.
      destruct (IH (length (q ++ b :: z)) ltac:(simp_len; lia) q r Hr b z x Hx eq_refl) as (Hb & Hn & s' & Hs).
      split_and!; [done..|]. exists (s' ++ b' :: e). rewrite app_assoc, <- Hs. done.
  - (* the parent lies strictly above [r]: its child on this path is [c] itself *)
    destruct z as [|d z].
    { rewrite app_nil_r in *. apply app_inv_head in Hp. assert (x = r) as -> by congruence. injection Hp as -> ->.
      split_and!; [done..|]. exists []. rewrite He, app_nil_r. done. }
    rewrite <- app_assoc in Hp. apply app_inv_head in Hp. cbn in Hp. injection Hp as -> Hp.
    destruct (IH (length (q' ++ b' :: z)) ltac:(simp_len; lia) q' x Hx b' z r Hr eq_refl) as (_ & _ & s' & Hs).
    rewrite He in Hs. injection Hs as Hs. exfalso. assert (length z = length (e ++ s')) as HL by congruence.
    rewrite <- Hp in HL. rewrite !length_app in HL. cbn in HL. lia.
Qed.

Lemma below_none q r b s : N q = Some r -> fd r b = inv -> N (q ++ b :: s) = None.
Proof.
  intros Hr Hf. destruct (N (q ++ b :: s)) eqn:E; [|done]. by destruct (descend q r Hr b s _ E) as (_ & ? & _).
Qed.

(** No label ends inside the edge of a labelled child. *)
Lemma inside_none q r b k :
  N q = Some r -> fd r b <> inv -> (0 < k < length (ed (fd r b)))%nat -> is_byte b -> N (q ++ take k (ed (fd r b))) = None.
Proof.
  intros Hr Hf Hk Hb. destruct (li_child _ _ _ _ HI q r b Hr Hb Hf) as (e & He & _). rewrite He in *.
  destruct k as [|k]; [lia|]. cbn [take]. destruct (N (q ++ b :: take k e)) eqn:E; [|done].
  destruct (descend q r Hr b _ _ E) as (_ & _ & s' & Hs). rewrite He in Hs. injection Hs as Hs.
  assert (length (take k e) = length (e ++ s')) as HL by congruence. rewrite length_take, length_app in HL. cbn in Hk. lia.
Qed.

(** The parent of a labelled node is unique. *)
Lemma parent_unique q r b q' r' b' :
  N q = Some r -> N q' = Some r' -> is_byte b -> is_byte b' -> fd r b <> inv -> fd r b = fd r' b' ->
  q = q' /\ r = r' /\ b = b'.
Proof.
  intros Hr Hr' Hb Hb' Hf E. destruct (li_child _ _ _ _ HI q r b Hr Hb Hf) as (e & He & Hc).
  rewrite E in *. destruct (li_child _ _ _ _ HI q' r' b' Hr' Hb' Hf) as (e' & He' & Hc').
  assert (b = b' /\ e = e') as [-> ->] by (split; congruence).
  pose proof (li_inj _ _ _ _ HI _ _ _ Hc Hc') as Hq. apply app_inv_tail in Hq as ->. split_and!; [done|congruence|done].
Qed.
End labels.

Definition labelled (N : list Z -> option Z) (r : Z) : Prop := exists p, N p = Some r.

Lemma app_cons_ne {A} (q : list A) b s : q ++ b :: s <> q.
Proof. intros H. rewrite <- (app_nil_r q) in H at 2. by apply app_inv_head in H. Qed.

(** ** The moves *)

Section moves.
  Context (root : Z) (ed : Z -> list Z) (fd : Z -> Z -> Z) (N : list Z -> option Z).
  Context (HI : lab_inv root ed fd N).
  Context (root' : Z) (ed' : Z -> list Z) (fd' : Z -> Z -> Z).

(** Moving the node of [q] from [cur] to [np], the references to it redirected. *)
Lemma relocate q cur np :
  N q = Some cur -> cur <> inv -> unlabelled N np -> np <> inv ->
  root' = (if decide (q = []) then np else root) ->
  (forall r, labelled N r -> r <> cur -> ed' r = ed r) -> ed' np = ed cur ->
  (forall b, is_byte b -> fd' np b = fd cur b) ->
  (forall r b, labelled N r -> r <> cur -> is_byte b -> fd' r b = if fd r b =? cur then np else fd r b) ->
  lab_inv root' ed' fd' (relabel N q np).
Proof.
  intros Hq Hcur Hun Hnp Hroot Hed Henp Hfnp Hfd. pose proof HI as [I1 I2 I3 I4 I5].
  assert (forall p r, N p = Some r -> p <> q -> r <> cur) as Hoth by (intros p r Hp Hne ->; apply Hne; by eapply I4).
  split.
  - rewrite Hroot. case_decide as E; [subst; apply relabel_eq|by rewrite relabel_ne by done].
  - intros p r b [[-> ->]|[Hpq Hp]]%relabel_inv Hb Hf.
    + rewrite Hfnp in * by done. destruct (I2 q cur b Hq Hb Hf) as (e & He & Hc). exists e.
      rewrite relabel_ne by apply app_cons_ne. split; [|done]. rewrite Hed; [done|by eexists|].
      eapply Hoth; [exact Hc|apply app_cons_ne].
    + pose proof (Hoth _ _ Hp Hpq) as Hrc. rewrite Hfd in * by (try done; by eexists).
      destruct (Z.eqb_spec (fd r b) cur) as [E|E].
      * destruct (I2 p r b Hp Hb) as (e & He & Hc); [congruence|]. exists e. rewrite E in *. split; [congruence|].
        assert (p ++ b :: e = q) as -> by (by eapply I4). apply relabel_eq.
      * destruct (I2 p r b Hp Hb Hf) as (e & He & Hc). exists e. split; [rewrite Hed; [done|by eexists|done]|].
        rewrite relabel_ne; [done|]. intros Eq. rewrite Eq in Hc. congruence.
  - intros p c [[-> ->]|[Hpq Hp]]%relabel_inv Hne.
    + destruct (I3 q cur Hq Hne) as (q1 & r & b & e & Hr & Hb & Hf & _ & He & Eq). exists q1, r, b, e.
      assert (q1 <> q) as Hq1 by (rewrite Eq; intros H; by apply (app_cons_ne q1 b e)).
      rewrite relabel_ne by done. split_and!; try done; [|congruence].
      rewrite Hfd; [|by eexists|by eapply Hoth|done]. by rewrite Hf, Z.eqb_refl.
    + pose proof (Hoth _ _ Hp Hpq) as Hcc. destruct (I3 p c Hp Hne) as (q1 & r & b & e & Hr & Hb & Hf & Hci & He & Eq).
      destruct (decide (q1 = q)) as [->|Hq1].
      * assert (r = cur) as -> by congruence. exists q, np, b, e. rewrite relabel_eq. split_and!; try done.
        -- by rewrite Hfnp.
        -- rewrite Hed; [done|by eexists|done].
      * exists q1, r, b, e. rewrite relabel_ne by done. split_and!; try done.
        -- rewrite Hfd; [|by eexists|by eapply Hoth|done]. rewrite Hf. by rewrite (proj2 (Z.eqb_neq _ _) Hcc).
        -- rewrite Hed; [done|by eexists|done].
  - intros p p' r [[-> ->]|[Hp1 Hp]]%relabel_inv [[-> E]|[Hp2 Hp']]%relabel_inv; [done| | |by eapply I4].
    + by apply Hun in Hp'.
    + subst. by apply Hun in Hp.
  - intros p r [[-> ->]|[_ Hp]]%relabel_inv; by eapply I5.
Qed.

(** Hanging a leaf with edge [b :: s] under the node of [q]. *)
Lemma hang_leaf q cur b s leaf :
  N q = Some cur -> Forall is_byte (b :: s) -> fd cur b = inv -> unlabelled N leaf -> leaf <> inv -> root' = root ->
  (forall r, labelled N r -> ed' r = ed r) -> ed' leaf = b :: s ->
  (forall x, is_byte x -> fd' cur x = if x =? b then leaf else fd cur x) ->
  (forall x, is_byte x -> fd' leaf x = inv) ->
  (forall r x, labelled N r -> r <> cur -> is_byte x -> fd' r x = fd r x) ->
  lab_inv root' ed' fd' (relabel N (q ++ b :: s) leaf).
Proof.
  intros Hq Hbs Hnone Hun Hleaf -> Hed Hel Hfc Hfl Hfd. pose proof HI as [I1 I2 I3 I4 I5].
  pose proof (below_none _ _ _ _ HI q cur b s Hq Hnone) as Hnew.
  assert (is_byte b) as Hb by (by apply Forall_cons in Hbs as [? _]).
  assert (forall p r, N p = Some r -> p <> q ++ b :: s) as Hp by (intros p r Hp ->; congruence).
  assert (forall p r x, N p = Some r -> r <> cur \/ x <> b -> is_byte x -> fd' r x = fd r x) as Hsame.
  { intros p r x Hr Hor Hx. destruct (decide (r = cur)) as [->|]; [|apply Hfd; [by eexists|done..]].
    rewrite Hfc by done. rewrite (proj2 (Z.eqb_neq x b)); [done|]. by destruct Hor. }
  split.
  - rewrite relabel_ne; [done|]. by destruct q.
  - intros p r x [[-> ->]|[Hpq Hr]]%relabel_inv Hx Hf; [by rewrite Hfl in Hf|].
    destruct (decide (r = cur /\ x = b)) as [[-> ->]|Hor].
    + rewrite Hfc, Z.eqb_refl by done. exists s. split; [done|]. assert (p = q) as -> by (by eapply I4). apply relabel_eq.
    + assert (fd' r x = fd r x) as E.
      { apply (Hsame p); try done. destruct (decide (r = cur)) as [->|]; [right; intros ->; by apply Hor|by left]. }
      rewrite E in *.
      destruct (I2 p r x Hr Hx Hf) as (e & He & Hc). exists e. split; [rewrite Hed; [done|by eexists]|].
      rewrite relabel_ne; [done|by eapply Hp].
  - intros p c [[-> ->]|[Hpq Hc]]%relabel_inv Hne.
    + exists q, cur, b, s. rewrite relabel_ne by (by eapply Hp). split_and!; try done. by rewrite Hfc, Z.eqb_refl.
    + destruct (I3 p c Hc Hne) as (q1 & r & x & e & Hr & Hx & Hf & Hci & He & Eq). exists q1, r, x, e.
      rewrite relabel_ne by (by eapply Hp). split_and!; try done; [|rewrite Hed; [done|by eexists]].
      rewrite (Hsame q1); try done. destruct (decide (r = cur)) as [->|]; [right|by left]. intros ->. congruence.
  - intros p p' r [[-> ->]|[Hp1 Hr]]%relabel_inv [[-> E]|[Hp2 Hr']]%relabel_inv; [done| | |by eapply I4].
    + by apply Hun in Hr'.
    + subst. by apply Hun in Hr.
  - intros p r [[-> ->]|[_ Hr]]%relabel_inv; [|by eapply I5]. apply Forall_app. split; [by eapply I5|done].
Qed.

(** Splitting the edge of the child [c] under byte [b] of the node of [q] after
    [k] bytes; [tl] takes over the rest of the edge, and the children. *)
Lemma split_edge q r0 b c k tl :
  N q = Some r0 -> is_byte b -> fd r0 b = c -> c <> inv -> (0 < k < length (ed c))%nat ->
  unlabelled N tl -> tl <> inv -> root' = root ->
  (forall r, labelled N r -> r <> c -> ed' r = ed r) -> ed' c = take k (ed c) -> ed' tl = drop k (ed c) ->
  (forall x, is_byte x -> fd' c x = if x =? rd (ed c) k then tl else inv) ->
  (forall x, is_byte x -> fd' tl x = fd c x) ->
  (forall r x, labelled N r -> r <> c -> is_byte x -> fd' r x = fd r x) ->
  lab_inv root' ed' fd' (relabel (relabel N (q ++ take k (ed c)) c) (q ++ ed c) tl).
Proof.
  intros Hq Hb Hc Hci Hk Hun Htl -> Hed Hec Het Hfc Hft Hfd. pose proof HI as [I1 I2 I3 I4 I5].
  destruct (I2 q r0 b Hq Hb ltac:(congruence)) as (e & He & HN). rewrite Hc in *.
  assert (N (q ++ take k (ed c)) = None) as Hin.
  { rewrite <- Hc in Hk |- *. apply (inside_none _ _ _ _ HI q r0 b k Hq); [congruence|done|done]. }
  set (E := ed c) in *. set (P := q ++ take k E) in *.
  assert (N (q ++ E) = Some c) as HNc by (by rewrite He). clear HN.
  assert (drop k E = rd E k :: drop (S k) E) as HD.
  { unfold rd. apply drop_S. rewrite nth_lookup. destruct (lookup_lt_is_Some_2 E k) as [y ->]; [lia|done]. }
  assert (q ++ E = P ++ rd E k :: drop (S k) E) as HPE by (unfold P; rewrite <- app_assoc, <- HD, take_drop; done).
  assert (P <> q ++ E) as HPne by (rewrite HPE; intros H; by apply (app_cons_ne P (rd E k) (drop (S k) E))).
  assert (take k E = b :: take (k - 1) e) as HT by (rewrite He; destruct k; [lia|]; cbn; by rewrite Nat.sub_0_r).
  assert (Forall is_byte (q ++ E)) as HbE by (by eapply I5).
  assert (is_byte (rd E k)) as Hbk.
  { rewrite HPE in HbE. apply Forall_app in HbE as [_ HbE]. by apply Forall_cons in HbE as [? _]. }
  assert (forall p r, N p = Some r -> p <> P) as HnP by (intros p r Hp ->; congruence).
  assert (forall p r, N p = Some r -> p <> q ++ E -> r <> c) as Hnc by (intros p r Hp Hne ->; apply Hne; by eapply I4).
  set (N' := relabel (relabel N P c) (q ++ E) tl).
  assert (forall p r, N p = Some r -> p <> q ++ E -> N' p = Some r) as Hkeep.
  { intros p r Hp Hne. unfold N'. rewrite !relabel_ne; [done|by eapply HnP|done]. }
  assert (N' P = Some c) as HNP by (unfold N'; rewrite relabel_ne by done; apply relabel_eq).
  assert (N' (q ++ E) = Some tl) as HNE by apply relabel_eq.
  assert (forall p r, N' p = Some r -> (p = q ++ E /\ r = tl) \/ (p = P /\ r = c) \/ (p <> q ++ E /\ N p = Some r)) as Hcase.
  { intros p r [[-> ->]|[Hne [[-> ->]|[Hne' H]]%relabel_inv]]%relabel_inv; auto. }
  split.
  - apply Hkeep; [done|]. rewrite He. by destruct q.
  - intros p r x [[-> ->]|[[-> ->]|[Hne Hp]]]%Hcase Hx Hf.
    + rewrite Hft in * by done. destruct (I2 _ c x HNc Hx Hf) as (e' & He' & Hc'). exists e'. split.
      * rewrite Hed; [done|by eexists|]. eapply Hnc; [exact Hc'|apply app_cons_ne].
      * apply Hkeep; [done|apply app_cons_ne].
    + rewrite Hfc in * by done. destruct (Z.eqb_spec x (rd E k)) as [->|]; [|done].
      exists (drop (S k) E). split; [by rewrite Het|]. by rewrite <- HPE.
    + pose proof (Hnc _ _ Hp Hne) as Hrc. rewrite (Hfd r x) in * by (try done; by eexists).
      destruct (I2 p r x Hp Hx Hf) as (e' & He' & Hc'). destruct (decide (fd r x = c)) as [Erc|Erc].
      * destruct (parent_unique _ _ _ _ HI p r x q r0 b Hp Hq Hx Hb Hf ltac:(congruence)) as (-> & -> & ->).
        exists (take (k - 1) e). rewrite Erc. split; [congruence|]. by rewrite <- HT.
      * exists e'. split; [rewrite Hed; [done|by eexists|done]|]. apply Hkeep; [done|].
        intros E'. rewrite E' in Hc'. congruence.
  - intros p c' [[-> ->]|[[-> ->]|[Hne Hp]]]%Hcase Hpne.
    + exists P, c, (rd E k), (drop (S k) E). split_and!; try done; [by rewrite Hfc, Z.eqb_refl|congruence].
    + exists q, r0, b, (take (k - 1) e). split_and!; try done; [| |congruence|unfold P; congruence].
      * apply Hkeep; [done|]. rewrite He. intros H. by apply (app_cons_ne q b e).
      * rewrite Hfd; [done|by eexists| |done]. eapply Hnc; [exact Hq|]. rewrite He. intros H. by apply (app_cons_ne q b e).
    + pose proof (Hnc _ _ Hp Hne) as Hrc. destruct (I3 p c' Hp Hpne) as (q1 & r & x & e' & Hr & Hx & Hf & Hci' & He' & Eq).
      destruct (decide (q1 = q ++ E)) as [->|Hq1].
      * assert (r = c) as -> by congruence. exists (q ++ E), tl, x, e'. split_and!; try done; [by rewrite Hft|].
        rewrite Hed; [done|by eexists|done].
      * exists q1, r, x, e'. pose proof (Hnc _ _ Hr Hq1). split_and!; try done; [by apply Hkeep| |].
        -- rewrite Hfd; [done|by eexists|done|done].
        -- rewrite Hed; [done|by eexists|done].
  - intros p p' r [[-> ->]|[[-> ->]|[Hne Hp]]]%Hcase [[-> E']|[[-> E']|[Hne' Hp']]]%Hcase; try done; subst.
    + by apply Hun in HNc.
    + by apply Hun in Hp'.
    + by apply Hun in HNc.
    + by destruct (Hnc _ _ Hp' Hne').
    + by apply Hun in Hp.
    + by destruct (Hnc _ _ Hp Hne).
    + by eapply I4.
  - intros p r [[-> ->]|[[-> ->]|[Hne Hp]]]%Hcase; [done| |by eapply I5].
    rewrite HPE in HbE. by apply Forall_app in HbE as [? _].
Qed.
End moves.
