(* ===== verification/ArtDispatch.v ===== *)
(** * Correctness of the adaptive radix tree

    Insertion (src/runtime/route_art.cc: [insert], with its splits, upgrades and
    patch sites) is a first-wins update of a table from paths and method slots to
    routes; both matching loops return the terminal of the longest registered
    prefix of the path. *)

From S2P Require Import Prelude HttpParser RouteCanon RouteMethod RouteTrie RouteArt ArtView ArtTree.

#[local] Abbreviation inv := kArtInvalidChildRef.
#[local] Abbreviation no_terms := (replicate kRouteMethodSlots kInvalidRoute).

#[local] Opaque get put valid u_find u_hdr u_wf u_add u_pairs add_child write_site kRouteMethodSlots.

Definition ed (t : ArtTrie) (r : Z) : list Z := edge (u_hdr (get t r)).
Definition fd (t : ArtTrie) (r b : Z) : Z := u_find (get t r) b.

Record art_inv (t : ArtTrie) (N : list Z -> option Z) : Prop := {
  ai_pools : pools_ok t;
  ai_lab : lab_inv (root_ref t) (ed t) (fd t) N;
  ai_live : forall q r, N q = Some r ->
    valid t r /\ u_wf (get t r) /\ length (terminals (u_hdr (get t r))) = kRouteMethodSlots }.

(** The terminals stored for the path [q]. *)
Definition terms (t : ArtTrie) (N : list Z -> option Z) (q : list Z) : list Z :=
  match N q with Some r => terminals (u_hdr (get t r)) | None => no_terms end.

Lemma inv_valid t N q r : art_inv t N -> N q = Some r -> valid t r.
Proof. intros H Hq. by apply (ai_live _ _ H q). Qed.

Lemma inv_ne t N q r : art_inv t N -> N q = Some r -> r <> inv.
Proof. intros H Hq. apply (valid_not_invalid t); [apply H|by eapply inv_valid]. Qed.

Lemma fresh_unlabelled t N r : art_inv t N -> ~ valid t r -> unlabelled N r.
Proof. intros H Hr p Hp. by apply Hr, (inv_valid t N p). Qed.

(** ** Moving children to a new node *)

Lemma add_children_spec pairs : forall t p,
  pools_ok t -> valid t p -> u_wf (get t p) -> NoDup (fst <$> pairs) ->
  Forall (fun e => is_byte e.1 /\ e.2 <> inv) pairs -> (forall k, k ∈ fst <$> pairs -> u_find (get t p) k = inv) ->
  match add_children t p pairs with
  | None => True
  | Some (r, t') =>
      r <> inv /\ u_wf (get t' r) /\ u_hdr (get t' r) = u_hdr (get t p) /\ valid t' r /\ (r = p \/ ~ valid t r) /\
      changed_at t p t' /\
      forall x, is_byte x -> u_find (get t' r) x = let c := find_entry pairs x in if c =? inv then u_find (get t p) x else c
  end.
Proof.
  induction pairs as [|[k c] pairs IH]; intros t p Hp Hv Hwf Hnd Hf Hnf; cbn [add_children].
  - split_and!; try done; [by apply (valid_not_invalid t)|by left].
  - apply Forall_cons in Hf as [[Hk Hc] Hf]. cbn [fst snd] in *. rewrite fmap_cons in Hnd, Hnf. cbn [fst] in Hnd, Hnf.
    apply NoDup_cons in Hnd as [Hkn Hnd].
    pose proof (add_child_spec t p k c Hp Hv Hwf Hk Hc (Hnf k ltac:(left))) as Ha.
    destruct (add_child t p k c) as [r1 t1]. destruct (Z.eqb_spec r1 inv) as [|Hr1]; [done|].
    destruct Ha as [|(_ & [W1 W2 W3] & Hch & Hor)]; [done|].
    assert (Forall is_byte (fst <$> pairs)) as Hkb by (apply Forall_fmap; eapply Forall_impl; [exact Hf|]; by intros ? [? _]).
    specialize (IH t1 r1 ltac:(apply Hch) ltac:(apply Hch) W1 Hnd Hf).
    destruct (add_children t1 r1 pairs) as [[r t']|]; [|done].
    destruct IH as (H1 & H2 & H3 & H4 & H5 & H6 & H7).
    { intros x Hx. rewrite W3 by (rewrite Forall_forall in Hkb; by apply Hkb).
      rewrite (proj2 (Z.eqb_neq x k)) by (intros ->; done). apply Hnf. by right. }
    split_and!; try done; [congruence| | |].
    + destruct H5 as [->|H5]; [|right; intros Hvr; by apply H5, (ca_old _ _ _ Hch)].
      destruct Hor as [[-> _]|[Hn _]]; [by left|by right].
    + destruct Hch as [C1 C2 C3 C4 C5], H6 as [D1 D2 D3 D4 D5]. split; [by apply D2, C2|by auto| |congruence|done].
      intros x Hx Hxp. assert (x <> r1) as Hxr by (intros ->; destruct Hor as [[-> _]|[Hn _]]; done).
      rewrite D3 by auto. by apply C3.
    + intros x Hx. rewrite H7, W3 by done. cbn [find_entry]. cbv zeta. rewrite (Z.eqb_sym k x).
      destruct (Z.eqb_spec x k) as [->|Hne]; [|done]. rewrite (find_entry_absent pairs k) by done.
      rewrite Z.eqb_refl. by rewrite (proj2 (Z.eqb_neq c inv) Hc).
Qed.


(** ** Splitting an edge *)

(** The two nodes after a split: [child] keeps the shared prefix, [tl] the rest. *)
Record split_result (t : ArtTrie) (child : Z) (e : list Z) (k : nat) (t' : ArtTrie) (tl : Z) : Prop := {
  sr_new : ~ valid t tl;
  sr_valid : valid t' tl;
  sr_tail_wf : u_wf (get t' tl);
  sr_tail_hdr : u_hdr (get t' tl) = mkHdr (drop k e) (terminals (u_hdr (get t child)));
  sr_tail_find : forall x, is_byte x -> u_find (get t' tl) x = u_find (get t child) x;
  sr_child_wf : u_wf (get t' child);
  sr_child_hdr : u_hdr (get t' child) = mkHdr (take k e) no_terms;
  sr_child_find : forall x, is_byte x -> u_find (get t' child) x = if x =? rd e k then tl else inv;
  sr_room : forall b c, is_Some (u_add (get t' child) b c);
  sr_changed : changed_at t child t' }.

Lemma put_reset_spec t r e b c :
  pools_ok t -> valid t r -> is_byte b -> c <> inv ->
  exists n1, add_child (reset_node t r e) r b c = (r, put (reset_node t r e) r n1) /\
    get (put (reset_node t r e) r n1) r = n1 /\
    u_wf n1 /\ u_hdr n1 = mkHdr e no_terms /\ (forall x, is_byte x -> u_find n1 x = if x =? b then c else inv) /\
    (forall b' c', is_Some (u_add n1 b' c')) /\ changed_at t r (put (reset_node t r e) r n1).
Proof.
  intros Hp Hv Hb Hc. destruct (u_reset_spec (get t r) e) as (R1 & R2 & R3 & R4).
  pose proof (valid_u_type _ _ _ Hv R1) as RT. pose proof (put_changed t r _ Hp Hv RT) as C1. rewrite <- reset_put in C1.
  assert (get (reset_node t r e) r = u_reset (get t r) e) as G by (rewrite reset_put; by apply get_put_eq).
  destruct (u_reset_room (get t r) e b c) as (n1 & Hn1 & Hroom). exists n1.
  destruct (u_add_spec (u_reset (get t r) e) b c n1 R2 Hb Hc (R4 b Hb) Hn1) as (T1 & [W1 W2 W3]).
  assert (ntype n1 = art_type r) as T2 by congruence.
  rewrite add_child_eq by apply Hv. rewrite G, Hn1. split_and!; try done.
  - apply get_put_eq; [apply C1|done].
  - congruence.
  - intros x Hx. rewrite W3, R4 by done. done.
  - eapply changed_trans; [exact C1|apply put_changed; [apply C1|apply C1|done]|by left].
Qed.

(** The first half of a split: the tail with the rest of the edge, the terminals
    and the children. *)
Lemma split_tail_spec t child e k :
  pools_ok t -> valid t child -> u_wf (get t child) ->
  let '(tail, t1) := alloc_n4 t in
  tail <> inv ->
  let t2 := set_header t1 tail (mkHdr (drop k e) (terminals (header t1 child))) in
  match add_children t2 tail (child_pairs t2 child) with
  | None => True
  | Some (tl, t3) =>
      tl <> inv /\ ~ valid t tl /\ valid t3 tl /\ u_wf (get t3 tl) /\
      u_hdr (get t3 tl) = mkHdr (drop k e) (terminals (u_hdr (get t child))) /\
      (forall x, is_byte x -> u_find (get t3 tl) x = u_find (get t child) x) /\ ~ valid t tail /\ changed_at t tail t3
  end.
Proof.
  intros Hp Hv Hwf. pose proof (alloc_n4_ok t Hp) as Hal.
  destruct (alloc_n4 t) as [tail t1]. intros Ht. destruct Hal as [[= -> ->]|(_ & Hfr & Hty)]; [done|]. cbn [fst snd] in *.
  destruct Hfr as [F1 F2 F3 F4 F5 F6]. cbv zeta. rewrite set_header_put, F3, header_get.
  rewrite (proj2 (F4 child Hv)). set (h := mkHdr (drop k e) _). change (u_sethdr (A4 new_n4) h) with (A4 (mkN4 h [])).
  destruct (empty_n4_spec h) as (L1 & L2 & L3). set (n2 := A4 (mkN4 h [])) in *.
  assert (child <> tail) as Hct by (intros ->; done).
  pose proof (put_changed t1 tail n2 F6 F2 ltac:(by rewrite Hty)) as C2. set (t2 := put t1 tail n2) in *.
  assert (get t2 tail = n2) as G2 by (apply get_put_eq; [done|by rewrite Hty]).
  assert (get t2 child = get t child) as G2c by (rewrite (ca_get _ _ _ C2) by (try done; by apply F4); by apply F4).
  assert (changed_at t tail t2) as C02.
  { eapply changed_trans; [|exact C2|by left]. split; try done; intros x Hx; [|intros _]; by apply F4. }
  rewrite pairs_get, G2c. destruct (u_pairs_spec _ Hwf) as (P1 & P2 & P3).
  pose proof (add_children_spec (u_pairs (get t child)) t2 tail) as Ha. rewrite G2 in Ha.
  specialize (Ha ltac:(apply C2) ltac:(apply C2)).
  destruct (add_children t2 tail _) as [[tl t3]|]; [|done].
  destruct Ha as (A1 & A2 & A3 & A4' & A5 & A6 & A7); [done|done|done|by intros|].
  split_and!; try done; [| |by eapply changed_trans; [exact C02|exact A6|left]].
  - destruct A5 as [->|A5]; [done|]. intros H. by apply A5, (ca_old _ _ _ C02).
  - intros x Hx. rewrite A7, P3 by done. cbv zeta. case_if; [|done]. zify_bool. by rewrite L3.
Qed.

Lemma split_child_spec t child e k site :
  pools_ok t -> valid t child -> u_wf (get t child) -> is_byte (rd e k) ->
  match split_child t child e k site with
  | None => True
  | Some (r, t') => r = child /\ exists tl, tl <> inv /\ split_result t child e k t' tl
  end.
Proof.
  intros Hp Hv Hwf Hbk. unfold split_child. pose proof (split_tail_spec t child e k Hp Hv Hwf) as HT.
  destruct (alloc_n4 t) as [tail t1]. destruct (Z.eqb_spec tail inv) as [|Ht]; [done|]. specialize (HT Ht). cbv zeta in *.
  destruct (add_children _ tail _) as [[tl t3]|]; [|done].
  destruct HT as (A1 & A2 & A3 & A4' & A5 & A6 & A7 & C03).
  assert (valid t3 child) as Hv3 by (by apply (ca_old _ _ _ C03)).
  destruct (put_reset_spec t3 child (take k e) (rd e k) tl ltac:(apply C03) Hv3 Hbk A1) as (n1 & E & G & W & H & Fd & Rm & C4).
  rewrite E, (proj2 (Z.eqb_neq child inv)) by (by apply (valid_not_invalid t)). rewrite Z.eqb_refl. cbn [negb].
  split; [done|]. exists tl. split; [done|]. set (t5 := put _ child n1) in *.
  assert (tl <> child) as Htc by (intros ->; done).
  assert (get t5 tl = get t3 tl) as Gtl by (by apply (ca_get _ _ _ C4)).
  split; rewrite ?Gtl, ?G; try done; [by apply (ca_old _ _ _ C4)|].
  eapply changed_trans; [exact C03|exact C4|by right].
Qed.

(** ** Hanging a leaf *)

(** The slot that holds the reference to the node [cur] of path [q]. *)
Definition site_ok (t : ArtTrie) (N : list Z -> option Z) (q : list Z) (cur : Z) (site : patch_site) : Prop :=
  (q = [] /\ site = SRoot) \/
  exists q0 par b0, N q0 = Some par /\ is_byte b0 /\ fd t par b0 = cur /\ site = site_of t par b0.

Definition roomy (t : ArtTrie) (cur : Z) : Prop := forall b c, is_Some (u_add (get t cur) b c).

(** The leaf branch of the descent. *)
Definition leaf_step (t : ArtTrie) (cur : Z) (site : patch_site) (b : Z) (p : list Z) : option (Z * ArtTrie) :=
  let '(leaf, t1) := alloc_n4 t in
  if leaf =? inv then None
  else
    let t2 := set_header t1 leaf (mkHdr p (terminals (header t1 leaf))) in
    let '(new_parent, t3) := add_child t2 cur b leaf in
    if new_parent =? inv then None
    else Some (leaf, if negb (new_parent =? cur) then write_site t3 site new_parent else t3).

(** The store before the patch: [leaf] is new, and [np] is [cur] with it. *)
Record leaf_store (t : ArtTrie) (cur b : Z) (p : list Z) (leaf np : Z) (t3 : ArtTrie) : Prop := {
  ls_leaf : leaf <> inv;
  ls_leaf_new : ~ valid t leaf;
  ls_leaf_valid : valid t3 leaf;
  ls_leaf_get : get t3 leaf = A4 (mkN4 (mkHdr p no_terms) []);
  ls_np : np <> inv;
  ls_np_valid : valid t3 np;
  ls_np_get : with_child (get t cur) b leaf (get t3 np);
  ls_np_new : np = cur \/ ~ valid t np /\ np <> leaf /\ ~ roomy t cur;
  ls_get : forall x, valid t x -> x <> np -> get t3 x = get t x;
  ls_old : forall x, valid t x -> valid t3 x;
  ls_root : root_ref t3 = root_ref t;
  ls_pools : pools_ok t3 }.

Lemma leaf_step_store t cur site b p :
  pools_ok t -> valid t cur -> u_wf (get t cur) -> is_byte b -> fd t cur b = inv ->
  match leaf_step t cur site b p with
  | None => True
  | Some (leaf, t') => exists np t3, leaf_store t cur b p leaf np t3 /\
      t' = if negb (np =? cur) then write_site t3 site np else t3
  end.
Proof.
  intros Hp Hv Hwf Hb Hnf. unfold leaf_step. pose proof (alloc_n4_ok t Hp) as Hal.
  destruct (alloc_n4 t) as [leaf t1]. destruct Hal as [[= -> ->]|(Hl & Hfr & Hty)]; [done|]. cbn [fst snd] in *.
  rewrite (proj2 (Z.eqb_neq _ _) Hl). destruct Hfr as [F1 F2 F3 F4 F5 F6]. rewrite set_header_put, header_get, F3.
  set (n2 := u_sethdr _ _). pose proof (put_changed t1 leaf n2 F6 F2 ltac:(by rewrite Hty)) as C2.
  set (t2 := put t1 leaf n2) in *. assert (get t2 leaf = n2) as G2 by (apply get_put_eq; [done|by rewrite Hty]).
  assert (forall x, valid t x -> valid t2 x /\ get t2 x = get t x) as Hold.
  { intros x Hx. destruct (F4 x Hx) as [Hx1 Gx]. split; [by apply C2|]. rewrite (ca_get _ _ _ C2); [done..|]. intros ->. done. }
  destruct (Hold cur Hv) as [Hv2 Gc]. unfold fd in Hnf. rewrite <- Gc in Hwf, Hnf.
  pose proof (add_child_spec t2 cur b leaf ltac:(apply C2) Hv2 Hwf Hb Hl Hnf) as Ha.
  destruct (add_child t2 cur b leaf) as [np t3]. destruct (Z.eqb_spec np inv) as [|Hnp]; [done|].
  destruct Ha as [|(_ & Hw & Hch & Hor)]; [done|]. exists np, t3. split; [|done]. rewrite Gc in *.
  assert (np <> leaf) as Hne.
  { destruct Hor as [[-> _]|[Hn _]]; [by intros ->|]. intros ->. apply Hn, C2. }
  split; try done; [by apply (ca_old _ _ _ Hch); apply C2| | | | | | |apply Hch].
  - rewrite (ca_get _ _ _ Hch); [exact G2|apply C2|done].
  - apply Hch.
  - destruct Hor as [[-> _]|[Hn Hroom]]; [by left|right]. split_and!; [intros H; by apply Hn, Hold|done|].
    intros H. destruct (H b leaf) as [? E]. congruence.
  - intros x Hx Hxn. rewrite (ca_get _ _ _ Hch) by (try done; by apply Hold). by apply Hold.
  - intros x Hx. apply (ca_old _ _ _ Hch). by apply Hold.
  - rewrite (ca_root _ _ _ Hch), (ca_root _ _ _ C2). done.
Qed.

(** ** The patch *)

Lemma no_loop t N q r b : art_inv t N -> N q = Some r -> is_byte b -> fd t r b <> inv -> fd t r b <> r.
Proof.
  intros HI Hq Hb Hf E. destruct (li_child _ _ _ _ (ai_lab _ _ HI) q r b Hq Hb Hf) as (e & _ & Hc). rewrite E in Hc.
  pose proof (li_inj _ _ _ _ (ai_lab _ _ HI) _ _ _ Hc Hq) as H. by apply app_cons_ne in H.
Qed.

(** Patching redirects every reference to [cur] among the labelled nodes. *)
Lemma patch_redirect t N q cur b p leaf np t3 site :
  art_inv t N -> N q = Some cur -> leaf_store t cur b p leaf np t3 -> np <> cur -> site_ok t N q cur site ->
  let t4 := write_site t3 site np in
  pools_ok t4 /\ (forall x, valid t3 x -> valid t4 x) /\ root_ref t4 = (if decide (q = []) then np else root_ref t) /\
  get t4 leaf = get t3 leaf /\ get t4 np = get t3 np /\
  forall q' r, N q' = Some r -> r <> cur ->
    u_hdr (get t4 r) = u_hdr (get t r) /\ u_wf (get t4 r) /\
    forall x, is_byte x -> fd t4 r x = if fd t r x =? cur then np else fd t r x.
Proof.
  intros HI Hq [L1 L2 L3 L4 L5 L6 L7 L8 L9 L10 L11 L12] Hne Hsite. cbv zeta.
  destruct L8 as [?|(Hnew & Hnl & _)]; [done|]. pose proof (inv_ne _ _ _ _ HI Hq) as Hci.
  assert (forall q' r, N q' = Some r -> get t3 r = get t r) as Hsame.
  { intros q' r Hr. pose proof (inv_valid _ _ _ _ HI Hr). apply L9; [done|]. intros ->. done. }
  destruct Hsite as [[-> ->]|(q0 & par & b0 & Hpar & Hb0 & Hf & ->)].
  - destruct (set_root_spec t3 np) as (R1 & R2 & R3 & R4). change (write_site t3 SRoot np) with (set_root t3 np).
    split_and!; [auto|intros x; apply R3|done|done|done|]. intros q' r Hr Hrc. rewrite R2, (Hsame _ _ Hr).
    split_and!; [done|by apply (ai_live _ _ HI q')|]. intros x Hx. unfold fd. rewrite R2, (Hsame _ _ Hr).
    destruct (Z.eqb_spec (u_find (get t r) x) cur) as [E|]; [|done]. exfalso.
    destruct (li_child _ _ _ _ (ai_lab _ _ HI) q' r x Hr Hx) as (e & _ & Hc); [unfold fd; congruence|].
    unfold fd in Hc. rewrite E in Hc. pose proof (li_inj _ _ _ _ (ai_lab _ _ HI) _ _ _ Hc Hq). by destruct q'.
  - assert (valid t par) as Hvp by (by eapply inv_valid). assert (u_wf (get t par)) as Hwp by (by apply (ai_live _ _ HI q0)).
    pose proof (Hsame _ _ Hpar) as Gp. unfold fd in Hf.
    destruct (write_site_spec t3 t par b0 np L12 (L10 _ Hvp) ltac:(done) ltac:(by rewrite Gp) Hb0 L5 ltac:(rewrite Gp; congruence))
      as [[W1 W2 W3] [C1 C2 C3 C4 C5]]. set (t4 := write_site t3 (site_of t par b0) np) in *. rewrite Gp in *.
    assert (par <> leaf /\ par <> np) as [Hpl Hpn] by (split; intros ->; done).
    split_and!; [done|done| |by apply C3|by apply C3|].
    + rewrite C4, L11. case_decide as E; [|done]. exfalso. subst q.
      destruct (li_child _ _ _ _ (ai_lab _ _ HI) q0 par b0 Hpar Hb0) as (e & _ & Hc); [unfold fd; congruence|].
      unfold fd in Hc. rewrite Hf in Hc. pose proof (li_inj _ _ _ _ (ai_lab _ _ HI) _ _ _ Hc Hq). by destruct q0.
    + intros q' r Hr Hrc. unfold fd. destruct (decide (r = par)) as [->|Hrp].
      * split_and!; [done|done|]. intros x Hx. rewrite W3 by done.
        destruct (Z.eqb_spec x b0) as [->|Hx0]; [by rewrite Hf, Z.eqb_refl|].
        destruct (Z.eqb_spec (u_find (get t par) x) cur) as [E|]; [|done]. exfalso. apply Hx0.
        eapply (parent_unique _ _ _ _ (ai_lab _ _ HI) q0 par x q0 par b0); try done; unfold fd; congruence.
      * rewrite C3, (Hsame _ _ Hr); [|by apply L10; eapply inv_valid|done].
        split_and!; [done|by apply (ai_live _ _ HI q')|]. intros x Hx.
        destruct (Z.eqb_spec (u_find (get t r) x) cur) as [E|]; [|done]. exfalso. apply Hrp.
        eapply (parent_unique _ _ _ _ (ai_lab _ _ HI) q' r x q0 par b0); try done; unfold fd; congruence.
Qed.

(** [r] is the node of [path] in a tree [t'] that stores what [t] stored. *)
Definition inserted (t : ArtTrie) (N : list Z -> option Z) (t' : ArtTrie) (r : Z) (path : list Z) : Prop :=
  exists N', art_inv t' N' /\ N' path = Some r /\ forall q, terms t' N' q = terms t N q.

Lemma terms_some t N q r : N q = Some r -> terms t N q = terminals (u_hdr (get t r)).
Proof. intros H. unfold terms. by rewrite H. Qed.

Lemma terms_none t N q : N q = None -> terms t N q = no_terms.
Proof. intros H. unfold terms. by rewrite H. Qed.

Lemma leaf_in_place t N q cur b s leaf t3 :
  art_inv t N -> N q = Some cur -> Forall is_byte (b :: s) -> fd t cur b = inv ->
  leaf_store t cur b (b :: s) leaf cur t3 -> inserted t N t3 leaf (q ++ b :: s).
Proof.
  intros HI Hq Hbs Hnf [L1 L2 L3 L4 L5 L6 [W1 W2 W3] L8 L9 L10 L11 L12].
  destruct (empty_n4_spec (mkHdr (b :: s) no_terms)) as (E1 & E2 & E3).
  assert (forall r, labelled N r -> u_hdr (get t3 r) = u_hdr (get t r)) as Hh.
  { intros r [q' Hr]. destruct (decide (r = cur)) as [->|]; [done|]. by rewrite L9 by (try done; by eapply inv_valid). }
  exists (relabel N (q ++ b :: s) leaf).
  pose proof (below_none _ _ _ _ (ai_lab _ _ HI) q cur b s Hq Hnf) as Hnone. split_and!.
  - split; [done| |].
    + apply (hang_leaf _ _ _ _ (ai_lab _ _ HI) _ _ _ q cur b s leaf); try done.
      * by eapply fresh_unlabelled.
      * intros r Hr. unfold ed. by rewrite Hh.
      * unfold ed. by rewrite L4, E2.
      * intros x Hx. unfold fd. by rewrite L4.
      * intros r x [q' Hr] Hrc Hx. unfold fd. by rewrite L9 by (try done; by eapply inv_valid).
    + intros q' r [[-> ->]|[Hne Hr]]%relabel_inv; [rewrite L4, E2; by split_and!; [..|apply length_replicate]|].
      destruct (ai_live _ _ HI q' r Hr) as (V & U & T). split; [by apply L10|]. rewrite Hh by (by eexists).
      split; [|done]. destruct (decide (r = cur)) as [->|]; [done|]. by rewrite L9.
  - apply relabel_eq.
  - intros q'. destruct (decide (q' = q ++ b :: s)) as [->|Hne].
    + rewrite (terms_some _ _ _ leaf) by apply relabel_eq. by rewrite L4, E2, terms_none.
    + unfold terms. rewrite relabel_ne by done. destruct (N q') as [r|] eqn:Hr; [|done]. by rewrite Hh by (by eexists).
Qed.

Lemma leaf_relocated t N q cur b s leaf np t3 site :
  art_inv t N -> N q = Some cur -> Forall is_byte (b :: s) -> fd t cur b = inv -> np <> cur -> site_ok t N q cur site ->
  leaf_store t cur b (b :: s) leaf np t3 -> inserted t N (write_site t3 site np) leaf (q ++ b :: s).
Proof.
  intros HI Hq Hbs Hnf Hne Hsite HL. pose proof (patch_redirect _ _ _ _ _ _ _ _ _ _ HI Hq HL Hne Hsite) as HP. cbv zeta in HP.
  set (t4 := write_site t3 site np) in *. destruct HP as (P1 & P2 & P3 & P4 & P5 & P6).
  destruct HL as [L1 L2 L3 L4 L5 L6 [W1 W2 W3] L8 L9 L10 L11 L12]. destruct L8 as [?|(Hnew & Hnl & _)]; [done|].
  destruct (empty_n4_spec (mkHdr (b :: s) no_terms)) as (E1 & E2 & E3). rewrite L4 in P4.
  assert (is_byte b) as Hb by (by apply Forall_cons in Hbs as [? _]).
  assert (forall q' r, N q' = Some r -> r <> leaf /\ r <> np) as Hold.
  { intros q' r Hr. pose proof (inv_valid _ _ _ _ HI Hr). split; intros ->; done. }
  pose proof (below_none _ _ _ _ (ai_lab _ _ HI) q cur b s Hq Hnf) as Hnone.
  set (ed1 := fun r => if decide (r = leaf) then b :: s else ed t r).
  set (fd1 := fun r x => if decide (r = leaf) then inv else if decide (r = cur) then (if x =? b then leaf else fd t cur x) else fd t r x).
  set (N1 := relabel N (q ++ b :: s) leaf).
  assert (lab_inv (root_ref t) ed1 fd1 N1) as H1.
  { apply (hang_leaf _ _ _ _ (ai_lab _ _ HI) _ _ _ q cur b s leaf); try done; subst ed1 fd1; cbv beta.
    - by eapply fresh_unlabelled.
    - intros r [q' Hr]. rewrite decide_False; [done|by apply (Hold q')].
    - by rewrite decide_True.
    - intros x Hx. rewrite decide_False by (by apply (Hold q)). by rewrite decide_True.
    - intros x Hx. by rewrite decide_True.
    - intros r x [q' Hr] Hrc Hx. rewrite decide_False by (by apply (Hold q')). by rewrite decide_False. }
  assert (forall q' r, N1 q' = Some r -> r = leaf \/ N q' = Some r) as HN1 by (intros q' r [[_ ->]|[_ ?]]%relabel_inv; auto).
  assert (q ++ b :: s <> q) as Hqq by apply app_cons_ne.
  exists (relabel N1 q np). split_and!.
  - split; [done| |].
    + apply (relocate _ _ _ _ H1 _ _ _ q cur np); try done.
      * unfold N1. by rewrite relabel_ne.
      * by eapply inv_ne.
      * intros q' [->|Hr]%HN1; [done|]. by destruct (Hold _ _ Hr).
      * intros r [q' [->|Hr]%HN1] Hrc; subst ed1; cbv beta; unfold ed.
        -- rewrite decide_True by done. by rewrite P4, E2.
        -- rewrite decide_False by (by apply (Hold q')). by rewrite (proj1 (P6 _ _ Hr Hrc)).
      * subst ed1. cbv beta. unfold ed. rewrite P5, W2. by rewrite decide_False by (by apply (Hold q)).
      * intros x Hx. subst fd1. cbv beta. unfold fd. rewrite P5, W3 by done.
        rewrite decide_False by (by apply (Hold q)). by rewrite decide_True.
      * intros r x [q' [->|Hr]%HN1] Hrc Hx; subst fd1; cbv beta.
        -- rewrite decide_True by done. unfold fd. rewrite P4, E3. rewrite (proj2 (Z.eqb_neq inv cur)); [done|].
           intros E. by apply (inv_ne _ _ _ _ HI Hq).
        -- rewrite decide_False by (by apply (Hold q')). rewrite decide_False by done. by apply (P6 q').
    + intros q' r [[-> ->]|[Hq' [[-> ->]|[Hne' Hr]]%relabel_inv]]%relabel_inv.
      * destruct (ai_live _ _ HI q cur Hq) as (V & U & T). rewrite P5, W2. split_and!; [by apply P2|done|done].
      * rewrite P4, E2. split_and!; [by apply P2|done|apply length_replicate].
      * destruct (ai_live _ _ HI q' r Hr) as (V & U & T). assert (r <> cur) as Hrc by (intros ->; apply Hq'; by eapply (li_inj _ _ _ _ (ai_lab _ _ HI))).
        destruct (P6 _ _ Hr Hrc) as (Q1 & Q2 & _). rewrite Q1. split_and!; [by apply P2, L10|done|done].
  - rewrite relabel_ne by done. apply relabel_eq.
  - intros q'. destruct (decide (q' = q)) as [->|Hq'].
    { rewrite (terms_some _ _ _ np) by apply relabel_eq. rewrite P5, W2. by rewrite (terms_some _ _ _ cur). }
    destruct (decide (q' = q ++ b :: s)) as [->|Hqn].
    { rewrite (terms_some _ _ _ leaf) by (rewrite relabel_ne by done; apply relabel_eq). by rewrite P4, E2, terms_none. }
    unfold terms, N1. rewrite !relabel_ne by done. destruct (N q') as [r|] eqn:Hr; [|done].
    assert (r <> cur) as Hrc by (intros ->; apply Hq'; by eapply (li_inj _ _ _ _ (ai_lab _ _ HI))).
    by rewrite (proj1 (P6 _ _ Hr Hrc)).
Qed.

Lemma leaf_step_ok t N q cur b s site :
  art_inv t N -> N q = Some cur -> Forall is_byte (b :: s) -> fd t cur b = inv -> site_ok t N q cur site \/ roomy t cur ->
  match leaf_step t cur site b (b :: s) with
  | None => True
  | Some (leaf, t') => inserted t N t' leaf (q ++ b :: s)
  end.
Proof.
  intros HI Hq Hbs Hnf Hor. destruct (ai_live _ _ HI q cur Hq) as (V & U & T).
  assert (is_byte b) as Hb by (by apply Forall_cons in Hbs as [? _]).
  pose proof (leaf_step_store t cur site b (b :: s) (ai_pools _ _ HI) V U Hb Hnf) as HS.
  destruct (leaf_step t cur site b (b :: s)) as [[leaf t']|]; [|done]. destruct HS as (np & t3 & HL & ->).
  destruct (Z.eqb_spec np cur) as [->|Hne]; cbn [negb]; [by eapply leaf_in_place|].
  destruct Hor as [Hs|Hr]; [by eapply leaf_relocated|]. destruct (ls_np_new _ _ _ _ _ _ _ HL) as [?|(_ & _ & ?)]; done.
Qed.

(** ** Insertion *)

Lemma split_ok t N q r0 b c k t' tl :
  art_inv t N -> N q = Some r0 -> is_byte b -> fd t r0 b = c -> c <> inv -> (0 < k < length (ed t c))%nat ->
  tl <> inv -> split_result t c (ed t c) k t' tl ->
  exists N', art_inv t' N' /\ N' (q ++ take k (ed t c)) = Some c /\ (forall q', terms t' N' q' = terms t N q') /\
    roomy t' c /\ forall x, is_byte x -> fd t' c x = if x =? rd (ed t c) k then tl else inv.
Proof.
  intros HI Hq Hb Hc Hci Hk Htl [S1 S2 S3 S4 S5 S6 S7 S8 S9 [C1 C2 C3 C4 C5]].
  pose proof (ai_lab _ _ HI) as Hlab. destruct (li_child _ _ _ _ Hlab q r0 b Hq Hb ltac:(congruence)) as (e & He & HN).
  rewrite Hc in *. rewrite <- He in HN. destruct (ai_live _ _ HI _ _ HN) as (V & U & T).
  assert (N (q ++ take k (ed t c)) = None) as Hin.
  { rewrite <- Hc in Hk |- *. apply (inside_none _ _ _ _ Hlab q r0 b k Hq); congruence || done. }
  assert (q ++ take k (ed t c) <> q ++ ed t c) as Hne by congruence.
  exists (relabel (relabel N (q ++ take k (ed t c)) c) (q ++ ed t c) tl).
  split_and!; [split; [done| |]| | |done|done].
  - apply (split_edge _ _ _ _ Hlab _ _ _ q r0 b c k tl); try done.
    + by eapply fresh_unlabelled.
    + intros r [q' Hr] Hrc. unfold ed. by rewrite C3 by (try done; by eapply inv_valid).
    + unfold ed at 1. by rewrite S7.
    + unfold ed at 1. by rewrite S4.
    + intros r x [q' Hr] Hrc Hx. unfold fd. by rewrite C3 by (try done; by eapply inv_valid).
  - intros q' r [[-> ->]|[Hq' [[-> ->]|[Hne' Hr]]%relabel_inv]]%relabel_inv.
    + by rewrite S4.
    + rewrite S7. split_and!; [done|done|apply length_replicate].
    + destruct (ai_live _ _ HI q' r Hr) as (V' & U' & T').
      assert (r <> c) as Hrc by (intros ->; apply Hq'; by eapply (li_inj _ _ _ _ Hlab)). rewrite C3 by done.
      split_and!; [by apply C2|done|done].
  - rewrite relabel_ne by done. apply relabel_eq.
  - intros q'. destruct (decide (q' = q ++ ed t c)) as [->|Hq'].
    { rewrite (terms_some _ _ _ tl) by apply relabel_eq. rewrite S4. by rewrite (terms_some _ _ _ c). }
    destruct (decide (q' = q ++ take k (ed t c))) as [->|Hqn].
    { rewrite (terms_some _ _ _ c) by (rewrite relabel_ne by done; apply relabel_eq). by rewrite S7, terms_none. }
    unfold terms. rewrite !relabel_ne by done. destruct (N q') as [r|] eqn:Hr; [|done].
    assert (r <> c) as Hrc by (intros ->; apply Hq'; by eapply (li_inj _ _ _ _ Hlab)).
    by rewrite C3 by (try done; by eapply inv_valid).
Qed.

Lemma Forall_rd l k : Forall is_byte l -> (k < length l)%nat -> is_byte (rd l k).
Proof.
  intros H Hk. unfold rd. destruct (lookup_lt_is_Some_2 l k Hk) as [y Hy]. rewrite (nth_lookup_Some _ _ _ _ Hy).
  by eapply Forall_lookup_1.
Qed.

Lemma common_prefix_spec e : forall p, let k := common_prefix e p in
  (k <= length e)%nat /\ (k <= length p)%nat /\ take k e = take k p /\
  forall b s, (k < length e)%nat -> drop k p = b :: s -> b <> rd e k.
Proof.
  induction e as [|x e IH]; intros p; cbv zeta; [cbn; split_and!; try done; lia|].
  destruct p as [|y p]; cbn [common_prefix]; [cbn; split_and!; done || lia|].
  destruct (Z.eqb_spec x y) as [->|Hxy].
  - destruct (IH p) as (H1 & H2 & H3 & H4). cbv zeta in *. cbn. split_and!; [lia|lia|congruence|].
    intros b s Hk. cbn. apply H4. cbn in Hk. lia.
  - cbn. split_and!; try lia; try done. intros b s _ [= -> _]. congruence.
Qed.

Lemma art_insert_loop_ok fuel : forall t N q cur site p,
  art_inv t N -> N q = Some cur -> Forall is_byte p ->
  site_ok t N q cur site \/ (roomy t cur /\ forall b s, p = b :: s -> fd t cur b = inv) ->
  match art_insert_loop fuel t cur site p with
  | None => True
  | Some (r, t') => inserted t N t' r (q ++ p)
  end.
Proof.
  induction fuel as [|fuel IH]; intros t N q cur site p HI Hq Hp Hor.
  { destruct p; [|done]. cbn. exists N. by rewrite app_nil_r. }
  destruct p as [|b s]; [cbn; exists N; by rewrite app_nil_r|].
  assert (is_byte b) as Hb by (by apply Forall_cons in Hp as [? _]). pose proof (ai_lab _ _ HI) as Hlab.
  cbn [art_insert_loop]. rewrite find_get. change (u_find (get t cur) b) with (fd t cur b).
  destruct (Z.eqb_spec (fd t cur b) inv) as [Hnf|Hf].
  - pose proof (leaf_step_ok t N q cur b s site HI Hq Hp Hnf) as HL. unfold leaf_step in HL. apply HL. tauto.
  - destruct Hor as [Hsite|[_ Hno]]; [|by destruct Hf; eapply Hno].
    destruct (li_child _ _ _ _ Hlab q cur b Hq Hb Hf) as (e & He & HN).
    rewrite header_get. change (edge (u_hdr (get t (fd t cur b)))) with (ed t (fd t cur b)).
    set (c := fd t cur b) in *. destruct (common_prefix_spec (ed t c) (b :: s)) as (K1 & K2 & K3 & K4). cbv zeta in *.
    set (k := common_prefix (ed t c) (b :: s)) in *.
    assert (0 < k)%nat as Hk0 by (unfold k; rewrite He; cbn; rewrite Z.eqb_refl; lia).
    assert (Forall is_byte (drop k (b :: s))) as Hpd by (by apply Forall_drop).
    assert (b :: s = take k (ed t c) ++ drop k (b :: s)) as Hps by (rewrite K3, take_drop; done).
    destruct (Nat.eqb_spec k (length (ed t c))) as [Ek|Ek].
    + specialize (IH t N (q ++ ed t c) c (site_of t cur b) (drop k (b :: s)) HI).
      rewrite <- app_assoc, <- (take_ge (ed t c) k), <- Hps in IH by lia. apply IH; [|done|].
      * rewrite take_ge by lia. by rewrite He.
      * left. right. exists q, cur, b. done.
    + destruct (ai_live _ _ HI _ _ HN) as (V & U & T).
      assert (is_byte (rd (ed t c) k)) as Hbk.
      { pose proof (li_bytes _ _ _ _ Hlab _ _ HN) as HB. rewrite <- He in HB. apply Forall_app in HB as [_ HB].
        apply Forall_rd; [done|lia]. }
      pose proof (split_child_spec t c (ed t c) k site (ai_pools _ _ HI) V U Hbk) as HS.
      destruct (split_child t c (ed t c) k site) as [[r t']|]; [|done]. destruct HS as (-> & tl & Htl & HS).
      destruct (split_ok t N q cur b c k t' tl HI Hq Hb eq_refl Hf ltac:(lia) Htl HS) as (N' & HI' & Hq' & Ht' & Hroom & Hfd).
      specialize (IH t' N' (q ++ take k (ed t c)) c site (drop k (b :: s)) HI' Hq' Hpd).
      rewrite <- app_assoc, <- Hps in IH. destruct (art_insert_loop fuel t' c site (drop k (b :: s))) as [[r2 t2]|]; [|done].
      destruct IH as (N2 & H1 & H2 & H3).
      * right. split; [done|]. intros b' s' Hd. rewrite Hfd by (rewrite Hd in Hpd; by apply Forall_cons in Hpd as [? _]).
        rewrite (proj2 (Z.eqb_neq _ _)); [done|]. by apply (K4 b' s'); [lia|].
      * exists N2. split_and!; try done. intros q'. by rewrite H3.
Qed.

(** ** Matching *)

(** The terminal that serves method slot [want] among the terminals [ts]. *)
Definition pick (ts : list Z) (want : nat) : Z := art_pick_terminal (mkHdr [] ts) want.

(** Reference lookup: extend [q] by [p] byte by byte and keep the last terminal
    met. *)
Fixpoint scan (T : list Z -> list Z) (want : nat) (q p : list Z) (best : Z) : Z :=
  match p with
  | [] => best
  | b :: p' =>
      let cand := pick (T (q ++ [b])) want in
      scan T want (q ++ [b]) p' (if negb (cand =? kInvalidRoute) then cand else best)
  end.

Lemma pick_no_terms want : pick no_terms want = kInvalidRoute.
Proof.
  unfold pick, art_pick_terminal. cbn [terminals].
  assert (forall i, nth i no_terms kInvalidRoute = kInvalidRoute) as E.
  { intros i. rewrite nth_lookup. destruct (_ !! i) eqn:Ei; [|done]. by apply lookup_replicate in Ei as [-> _]. }
  rewrite !E. by case_if.
Qed.

Lemma pick_header h want : art_pick_terminal h want = pick (terminals h) want.
Proof. done. Qed.

Lemma scan_app T want q s1 s2 best : scan T want q (s1 ++ s2) best = scan T want (q ++ s1) s2 (scan T want q s1 best).
Proof.
  revert q best. induction s1 as [|b s1 IH]; intros q best; cbn; [by rewrite app_nil_r|].
  rewrite IH, <- app_assoc. done.
Qed.

(** Bytes that lead to no labelled node do not change the result. *)
Lemma scan_empty T want s : forall q best,
  (forall s1 s2, s = s1 ++ s2 -> s1 <> [] -> T (q ++ s1) = no_terms) -> scan T want q s best = best.
Proof.
  induction s as [|b s IH]; intros q best HT; cbn [scan]; [done|]. cbv zeta.
  rewrite (HT [b] s eq_refl) by done. rewrite pick_no_terms, Z.eqb_refl. cbn [negb]. apply IH.
  intros s1 s2 -> Hs. rewrite <- app_assoc. by apply (HT (b :: s1) s2).
Qed.

Lemma scan_snoc T want q s b best :
  (forall s1 s2, s = s1 ++ s2 -> s1 <> [] -> T (q ++ s1) = no_terms) ->
  scan T want q (s ++ [b]) best =
    let cand := pick (T (q ++ s ++ [b])) want in if negb (cand =? kInvalidRoute) then cand else best.
Proof. intros HT. rewrite scan_app, (scan_empty _ _ _ _ _ HT). cbn [scan]. rewrite <- app_assoc. reflexivity. Qed.

Lemma match_general_ok t N want : art_inv t N -> forall fuel q r p best,
  N q = Some r -> Forall is_byte p -> (length p < fuel)%nat ->
  match_general fuel t want r p best = Some (scan (terms t N) want q p best).
Proof.
  intros HI. pose proof (ai_lab _ _ HI) as Hlab. induction fuel as [|fuel IH]; intros q r p best Hq Hp Hf; [lia|].
  destruct p as [|b s]; [done|]. cbn [match_general]. assert (is_byte b) as Hb by (by apply Forall_cons in Hp as [? _]).
  rewrite find_get. change (u_find (get t r) b) with (fd t r b). rewrite header_get.
  change (edge (u_hdr (get t (fd t r b)))) with (ed t (fd t r b)).
  (* no labelled node strictly inside the rest of the path *)
  assert ((forall s1 s2, b :: s = s1 ++ s2 -> s1 <> [] -> fd t r b <> inv -> (exists s', s1 = ed t (fd t r b) ++ s') -> False) ->
    scan (terms t N) want q (b :: s) best = best) as Hnone.
  { intros H. apply scan_empty. intros s1 s2 E Hs. apply terms_none. destruct s1 as [|b' s1]; [done|]. injection E as <- E.
    destruct (N (q ++ b :: s1)) as [x|] eqn:EN; [|done]. exfalso.
    destruct (descend _ _ _ _ Hlab q r Hq b s1 x EN) as (_ & Hne & Hs').
    apply (H (b :: s1) s2); [by rewrite E|done|done|done]. }
  destruct (Z.eqb_spec (fd t r b) inv) as [Hnf|Hfd].
  { f_equal. symmetry. apply Hnone. intros s1 s2 _ _ H. done. }
  destruct (li_child _ _ _ _ Hlab q r b Hq Hb Hfd) as (e & He & HN). set (c := fd t r b) in *.
  destruct (Nat.ltb_spec (length (b :: s)) (length (ed t c))) as [Hlong|Hlen].
  { f_equal. symmetry. apply Hnone. intros s1 s2 E _ _ [s' ->]. rewrite E in Hlong. rewrite !length_app in Hlong. lia. }
  destruct (is_prefix (ed t c) (b :: s)) eqn:Epre; cbn [negb].
  - apply is_prefix_spec in Epre as [p2 Ep]. rewrite Ep, drop_app_length.
    rewrite (IH (q ++ ed t c)); [|by rewrite He|rewrite Ep in Hp; by apply Forall_app in Hp as [_ ?]
      |rewrite Ep, length_app, He in Hf; cbn in Hf; lia].
    f_equal. rewrite scan_app. f_equal. rewrite pick_header. rewrite <- (terms_some t N (q ++ ed t c) c) by (by rewrite He).
    destruct (exists_last (l := ed t c)) as (e' & x & Ex); [by rewrite He|]. rewrite Ex, scan_snoc; [done|].
    intros s1 s2 Es Hs. apply terms_none. destruct s1 as [|b' s1]; [done|].
    assert (b' = b) as -> by (rewrite He, Es in Ex; cbn in Ex; congruence).
    destruct (N (q ++ b :: s1)) as [y|] eqn:EN; [|done]. exfalso.
    destruct (descend _ _ _ _ Hlab q r Hq b s1 y EN) as (_ & _ & s' & Hs'). fold c in Hs'. rewrite Ex, Es in Hs'.
    apply (f_equal length) in Hs'. rewrite !length_app in Hs'. cbn in Hs'. lia.
  - f_equal. symmetry. apply Hnone. intros s1 s2 E _ _ [s' ->]. rewrite E in Epre. rewrite <- app_assoc in Epre.
    assert (is_prefix (ed t c) (ed t c ++ s' ++ s2) = true); [|congruence]. apply is_prefix_spec. by eexists.
Qed.

(** The homogeneous loop computes what the general one does. *)
Lemma match_uniform_eq t N want : art_inv t N -> is_uniform_n4 t = true -> forall fuel q r p best,
  N q = Some r -> Forall is_byte p ->
  match_uniform fuel t want (art_idx r) p best = match_general fuel t want r p best.
Proof.
  intros HI Hu. pose proof (ai_lab _ _ HI) as Hlab. induction fuel as [|fuel IH]; intros q r p best Hq Hp; [done|].
  destruct p as [|b s]; [done|]. cbn [match_uniform match_general]. assert (is_byte b) as Hb by (by apply Forall_cons in Hp as [? _]).
  destruct (uniform_n4 t r (ai_pools _ _ HI) Hu) as [Hfind _]; [by eapply inv_valid|].
  rewrite <- Hfind, find_get. destruct (Z.eqb_spec (u_find (get t r) b) inv) as [|Hf]; [done|].
  destruct (li_child _ _ _ _ Hlab q r b Hq Hb Hf) as (e & He & HN). change (u_find (get t r) b) with (fd t r b) in *.
  destruct (uniform_n4 t (fd t r b) (ai_pools _ _ HI) Hu) as [_ Hh]; [by eapply inv_valid|]. rewrite <- Hh, header_get.
  case_if; [done|]. case_if; [done|]. eapply IH; [exact HN|by apply Forall_drop].
Qed.

Lemma match_key_ok t N p key want :
  art_inv t N -> Forall is_byte p -> route_method_slot_from_key key = Some want ->
  match_canonical_key t p key = Some (scan (terms t N) want [] p (pick (terms t N []) want)).
Proof.
  intros HI Hp Hk. pose proof (li_root _ _ _ _ (ai_lab _ _ HI)) as Hr. unfold match_canonical_key. rewrite Hk.
  rewrite (terms_some _ _ _ _ Hr). rewrite header_get. destruct (is_uniform_n4 t) eqn:Hu.
  - destruct (uniform_n4 t (root_ref t) (ai_pools _ _ HI) Hu) as [_ Hh]; [by eapply inv_valid|].
    rewrite <- Hh, pick_header. rewrite (match_uniform_eq t N want HI Hu _ [] _ _ _ Hr Hp).
    rewrite (match_general_ok t N want HI _ [] _ _ _ Hr Hp) by lia. done.
  - rewrite pick_header, (match_general_ok t N want HI _ [] _ _ _ Hr Hp) by lia. done.
Qed.

(** The last terminal met is the one of the longest prefix that has one. *)
Lemma scan_longest T want p : forall q best,
  let r := scan T want q p best in
  (r = best /\ forall m, (0 < m <= length p)%nat -> pick (T (q ++ take m p)) want = kInvalidRoute) \/
  exists n, (0 < n <= length p)%nat /\ r = pick (T (q ++ take n p)) want /\ r <> kInvalidRoute /\
    forall m, (n < m <= length p)%nat -> pick (T (q ++ take m p)) want = kInvalidRoute.
Proof.
  induction p as [|b p IH]; intros q best; cbn [scan]; cbv zeta; [left; split; [done|cbn; lia]|].
  set (cand := pick (T (q ++ [b])) want). set (best' := if negb _ then _ else _).
  assert (forall m, q ++ take (S m) (b :: p) = (q ++ [b]) ++ take m p) as Hs by (intros m; by rewrite <- app_assoc).
  assert (q ++ take 1 (b :: p) = q ++ [b]) as H1 by done.
  destruct (IH (q ++ [b]) best') as [[E H]|(n & Hn & E & Hne & H)]; cbv zeta in *.
  - rewrite E. assert (forall m, (1 < m <= length (b :: p))%nat -> pick (T (q ++ take m (b :: p))) want = kInvalidRoute) as Hm.
    { intros m Hm. destruct m as [|m]; [lia|]. rewrite Hs. apply H. cbn in Hm. lia. }
    destruct (Z.eqb_spec cand kInvalidRoute) as [Hc|Hc]; cbn [negb] in best'.
    + left. split; [done|]. intros m Hm'. destruct (decide (m = 1)%nat) as [->|]; [by rewrite H1|apply Hm; lia].
    + right. exists 1%nat. rewrite H1. split_and!; [cbn; lia|cbn; lia|done|done|done].
  - right. exists (S n). rewrite Hs. split_and!; [cbn; lia|cbn; lia|done|done|].
    intros m Hm. destruct m as [|m]; [lia|]. rewrite Hs. apply H. cbn in Hm. lia.
Qed.

(** ** Registration *)

Definition canon (p : list Z) : list Z := let '(lo, n) := finalize_view p in sub p lo n.

Lemma canon_finalize p : finalize_path_canonical (Some p) = Some (canon p).
Proof. unfold finalize_path_canonical, canon. by destruct (finalize_view p). Qed.

(** Writing the terminals of a node. *)
Lemma set_terms_ok t N q r ts :
  art_inv t N -> N q = Some r -> length ts = kRouteMethodSlots ->
  let t' := set_header t r (mkHdr (ed t r) ts) in
  art_inv t' N /\ terms t' N q = ts /\ forall q', q' <> q -> terms t' N q' = terms t N q'.
Proof.
  intros HI Hq Hts. cbv zeta. rewrite set_header_put. destruct (ai_live _ _ HI q r Hq) as (V & U & T).
  destruct (u_sethdr_spec (get t r) (mkHdr (ed t r) ts)) as (S1 & S2 & S3 & S4). pose proof (valid_u_type _ _ _ V S2) as Hty.
  set (n := u_sethdr _ _) in *. destruct (put_changed t r n (ai_pools _ _ HI) V Hty) as [C1 C2 C3 C4 C5].
  pose proof (get_put_eq t r n V Hty) as G. set (t' := put t r n) in *.
  assert (forall q' x, N q' = Some x -> ed t' x = ed t x /\ forall b, fd t' x b = fd t x b) as Hsame.
  { intros q' x Hx. unfold ed, fd. destruct (decide (x = r)) as [->|]; [by rewrite G, S1|].
    by rewrite C3 by (try done; by eapply inv_valid). }
  split_and!.
  - split; [done| |].
    + destruct (ai_lab _ _ HI) as [I1 I2 I3 I4 I5]. split; [by rewrite C4| | |done|done].
      * intros q1 x b Hx Hb Hf. rewrite (proj2 (Hsame _ _ Hx)) in *. destruct (I2 _ _ _ Hx Hb Hf) as (e & He & HN).
        exists e. by rewrite (proj1 (Hsame _ _ HN)).
      * intros p c Hc Hp. destruct (I3 _ _ Hc Hp) as (q1 & x & b & e & Hx & Hb & Hf & Hci & He & Ep). exists q1, x, b, e.
        by rewrite (proj2 (Hsame _ _ Hx)), (proj1 (Hsame _ _ Hc)).
    + intros q' x Hx. destruct (ai_live _ _ HI q' x Hx) as (V' & U' & T'). destruct (decide (x = r)) as [->|].
      * rewrite G, S1. split_and!; [done|by apply S3|done].
      * rewrite C3 by done. split_and!; [by apply C2|done|done].
  - rewrite (terms_some _ _ _ _ Hq). by rewrite G, S1.
  - intros q' Hne. unfold terms. destruct (N q') as [x|] eqn:Hx; [|done].
    rewrite C3; [done|by eapply inv_valid|]. intros ->. apply Hne. by eapply (li_inj _ _ _ _ (ai_lab _ _ HI)).
Qed.

Lemma terms_length t N q : art_inv t N -> length (terms t N q) = kRouteMethodSlots.
Proof.
  intros HI. unfold terms. destruct (N q) as [r|] eqn:Hr; [by apply (ai_live _ _ HI q)|apply length_replicate].
Qed.

Lemma art_insert_ok t N path m idx :
  art_inv t N -> Forall is_byte path -> 0 <= m ->
  art_insert t path m idx = (false, t) \/
  exists slot t' N', route_method_slot m = Some slot /\ art_insert t path m idx = (true, t') /\ art_inv t' N' /\
    forall q s, nth s (terms t' N' q) kInvalidRoute =
      if decide (q = canon path /\ s = slot /\ nth s (terms t N q) kInvalidRoute = kInvalidRoute) then idx
      else nth s (terms t N q) kInvalidRoute.
Proof.
  intros HI Hp Hm. unfold art_insert. destruct (route_method_slot m) as [slot|] eqn:Hslot; [|by left].
  pose proof (route_method_slot_range m slot Hm Hslot) as Hsr. unfold canon. destruct (finalize_view path) as [lo n].
  assert (Forall is_byte (sub path lo n)) as Hps by (unfold sub; by apply Forall_take, Forall_drop). set (p := sub path lo n) in *.
  pose proof (art_insert_loop_ok (S (length p)) t N [] (root_ref t) SRoot p HI (li_root _ _ _ _ (ai_lab _ _ HI)) Hps) as HL.
  destruct (art_insert_loop _ _ _ _ _) as [[cur t1]|]; [|by left]. right.
  destruct HL as (N1 & HI1 & Hcur & Hterms); [by left; left|]. cbn [app] in Hcur.
  rewrite header_get. change (edge (u_hdr (get t1 cur))) with (ed t1 cur). rewrite <- (terms_some t1 N1 p cur Hcur).
  pose proof (terms_length t1 N1 p HI1) as Hlen.
  destruct (Z.eqb_spec (nth slot (terms t1 N1 p) kInvalidRoute) kInvalidRoute) as [E|E].
  - destruct (set_terms_ok t1 N1 p cur (<[slot := idx]> (terms t1 N1 p)) HI1 Hcur) as (HI2 & Ht & Hoth); [by rewrite length_insert|].
    eexists slot, _, N1. split_and!; [done|done|exact HI2|]. intros q s. destruct (decide (q = p)) as [->|Hq].
    + rewrite Ht. destruct (decide (s = slot)) as [->|Hs].
      * rewrite nth_insert_eq by lia. rewrite decide_True; [done|]. by rewrite <- Hterms.
      * rewrite nth_insert_ne, Hterms by done. rewrite decide_False; [done|]. tauto.
    + rewrite Hoth, Hterms by done. rewrite decide_False; [done|]. tauto.
  - eexists slot, t1, N1. split_and!; [done|done|done|]. intros q s. rewrite Hterms. rewrite decide_False; [done|].
    intros (-> & -> & E'). rewrite Hterms in E. done.
Qed.

(** ** Insertion with room in the pools *)

Definition rooms (t : ArtTrie) : Prop := has_room t kArtN16 /\ has_room t kArtN48 /\ has_room t kArtN256.

Lemma rooms_above t ty : rooms t -> 0 < ty <= 3 -> has_room t ty.
Proof. intros (H1 & H2 & H3) Hty. assert (ty = 1 \/ ty = 2 \/ ty = 3) as [-> | [-> | ->]] by lia; done. Qed.

Lemma rooms_len t t' : (forall ty, 0 < ty <= 3 -> pool_len t' ty = pool_len t ty) -> rooms t -> rooms t'.
Proof. intros E (H1 & H2 & H3). unfold rooms, has_room. rewrite !E by (vm_compute; done). done. Qed.

Lemma add_children_room pairs : forall t p,
  0 <= p < 65536 -> p <> inv -> (forall ty, art_type p < ty <= 3 -> has_room t ty) ->
  exists r t', add_children t p pairs = Some (r, t') /\ grew t (art_type p) (art_type r) t'.
Proof.
  induction pairs as [|[k c] pairs IH]; intros t p Hp Hpi Hroom; cbn [add_children].
  { exists p, t. split; [done|]. split; [lia|done]. }
  pose proof (add_child_room t p k c Hp Hpi Hroom) as Ha. destruct (add_child t p k c) as [r1 t1].
  destruct Ha as (H1 & H2 & H3 & _). rewrite (proj2 (Z.eqb_neq _ _) H1).
  destruct (IH t1 r1 H2 H1) as (r & t' & -> & Hg).
  - intros ty Hty. unfold has_room. destruct H3 as [Hle Hsame]. pose proof (art_type_range p Hp).
    rewrite Hsame by lia. apply Hroom. lia.
  - exists r, t'. split; [done|]. by eapply grew_trans.
Qed.

(** A leaf is hung whenever a 4-way node is left and the parent has a free slot
    or can grow. *)
Lemma leaf_step_room t cur site b p :
  pools_ok t -> valid t cur -> has_room t kArtN4 -> rooms t \/ roomy t cur -> is_Some (leaf_step t cur site b p).
Proof.
  intros Hp Hv H4 Hor. unfold leaf_step. pose proof (alloc_n4_room t H4) as Hal. pose proof (alloc_n4_ok t Hp) as Hok.
  destruct (alloc_n4 t) as [leaf t1]. destruct Hal as (A1 & A2 & A3 & A4). cbn [fst snd] in *.
  destruct Hok as [[= -> ->]|(_ & [F1 F2 F3 F4 F5 F6] & _)]; [done|]. rewrite (proj2 (Z.eqb_neq _ _) A1).
  rewrite set_header_put. set (n2 := u_sethdr _ _). assert (ntype n2 = art_type leaf) as Hty.
  { apply (valid_u_type t1); [done|]. by destruct (u_sethdr_spec (get t1 leaf) (mkHdr p (terminals (header t1 leaf)))) as (_ & ? & _). }
  destruct (put_changed t1 leaf n2 F6 F2 Hty) as [C1 C2 C3 C4 C5]. set (t2 := put t1 leaf n2) in *.
  assert (get t2 cur = get t cur) as G by (rewrite C3; [by apply F4|by apply F4|intros ->; done]).
  assert (valid t2 cur) as V2 by (by apply C2, F4). pose proof (valid_not_invalid t cur Hp Hv) as Hci.
  assert ((add_child t2 cur b leaf).1 <> inv) as Hnp.
  { assert (0 <= cur < 65536) as Hcr by apply V2. destruct (u_add (get t2 cur) b leaf) as [n|] eqn:Ea.
    { rewrite add_child_eq by done. by rewrite Ea. }
    destruct Hor as [Hr|Hr]; [|rewrite G in Ea; destruct (Hr b leaf) as [? ?]; congruence].
    pose proof (add_child_room t2 cur b leaf Hcr Hci) as Hroom. destruct (add_child t2 cur b leaf) as [np t3].
    apply Hroom. intros ty Hty'. apply rooms_above; [|pose proof (art_type_range cur Hcr); lia].
    apply (rooms_len t); [|done]. intros ty' Hty2. unfold t2. rewrite pool_len_put, A4 by lia.
    rewrite (proj2 (Z.eqb_neq ty' kArtN4)) by (unfold kArtN4; lia). lia. }
  destruct (add_child t2 cur b leaf) as [np t3]. cbn [fst] in Hnp. rewrite (proj2 (Z.eqb_neq _ _) Hnp). by eexists.
Qed.

Lemma split_child_room t child e k site :
  pools_ok t -> valid t child -> u_wf (get t child) -> is_byte (rd e k) -> has_room t kArtN4 -> rooms t ->
  exists r t', split_child t child e k site = Some (r, t') /\ pool_len t' kArtN4 = S (pool_len t kArtN4).
Proof.
  intros Hp Hv Hwf Hbk H4 Hr. unfold split_child. pose proof (split_tail_spec t child e k Hp Hv Hwf) as HT.
  pose proof (alloc_n4_room t H4) as Hal.
  destruct (alloc_n4 t) as [tail t1]. destruct Hal as (A1 & A2 & A3 & A4). cbn [fst snd] in *.
  rewrite (proj2 (Z.eqb_neq _ _) A1). specialize (HT A1). cbv zeta in *. set (h := mkHdr _ _) in *.
  assert (forall ty, pool_len (set_header t1 tail h) ty = pool_len t1 ty) as L2
    by (intros ty; rewrite set_header_put; apply pool_len_put). set (t2 := set_header t1 tail h) in *.
  assert (forall ty, 0 < ty <= 3 -> pool_len t2 ty = pool_len t ty) as L3.
  { intros ty Hty. rewrite L2, A4 by lia. rewrite (proj2 (Z.eqb_neq ty kArtN4)) by (unfold kArtN4; lia). lia. }
  destruct (add_children_room (child_pairs t2 child) t2 tail A3 A1) as (tl & t3 & E & Hle & Hg).
  { intros ty Hty. rewrite A2 in Hty. unfold kArtN4 in Hty. apply rooms_above; [by apply (rooms_len t)|lia]. }
  rewrite E in *. destruct HT as (B1 & B2 & B3 & _ & _ & _ & _ & C03).
  assert (valid t3 child) as Hv3 by (by apply (ca_old _ _ _ C03)).
  destruct (put_reset_spec t3 child (take k e) (rd e k) tl ltac:(apply C03) Hv3 Hbk B1) as (n1 & E1 & _).
  rewrite E1, (proj2 (Z.eqb_neq child inv)) by (by apply (valid_not_invalid t)). rewrite Z.eqb_refl. cbn [negb].
  eexists _, _. split; [done|]. rewrite pool_len_put, reset_put, pool_len_put.
  rewrite Hg by (rewrite ?A2; unfold kArtN4; lia). rewrite L2, A4, Z.eqb_refl by (unfold kArtN4; lia). lia.
Qed.

Lemma insert_loop_room fuel : forall t N q cur site p,
  art_inv t N -> N q = Some cur -> Forall is_byte p -> (length p < fuel)%nat ->
  (pool_len t kArtN4 + 2 <= kMaxN4)%nat /\ rooms t \/
  has_room t kArtN4 /\ roomy t cur /\ (forall b s, p = b :: s -> fd t cur b = inv) ->
  is_Some (art_insert_loop fuel t cur site p).
Proof.
  induction fuel as [|fuel IH]; intros t N q cur site p HI Hq Hp Hf Hor; [lia|].
  destruct p as [|b s]; [by eexists|]. assert (is_byte b) as Hb by (by apply Forall_cons in Hp as [? _]).
  pose proof (ai_lab _ _ HI) as Hlab. destruct (ai_live _ _ HI q cur Hq) as (V & U & _).
  assert (has_room t kArtN4) as H4 by (destruct Hor as [[H _]|[H _]]; [unfold has_room; change (pool_cap kArtN4) with kMaxN4; lia|done]).
  cbn [art_insert_loop]. rewrite find_get. change (u_find (get t cur) b) with (fd t cur b).
  destruct (Z.eqb_spec (fd t cur b) inv) as [Hnf|Hfd].
  { apply (leaf_step_room t cur site b (b :: s)); [apply HI|done|done|tauto]. }
  destruct Hor as [[Hn4 Hr]|(_ & _ & Hno)]; [|by destruct Hfd; eapply Hno].
  destruct (li_child _ _ _ _ Hlab q cur b Hq Hb Hfd) as (e & He & HN).
  rewrite header_get. change (edge (u_hdr (get t (fd t cur b)))) with (ed t (fd t cur b)).
  set (c := fd t cur b) in *. destruct (common_prefix_spec (ed t c) (b :: s)) as (K1 & K2 & K3 & K4). cbv zeta in *.
  set (k := common_prefix (ed t c) (b :: s)) in *.
  assert (0 < k)%nat as Hk0 by (unfold k; rewrite He; cbn; rewrite Z.eqb_refl; lia).
  assert (Forall is_byte (drop k (b :: s))) as Hpd by (by apply Forall_drop).
  assert (length (drop k (b :: s)) < fuel)%nat as Hl by (rewrite length_drop; cbn in *; lia).
  destruct (Nat.eqb_spec k (length (ed t c))) as [Ek|Ek]; [by eapply IH; [..|left]|].
  destruct (ai_live _ _ HI _ _ HN) as (Vc & Uc & _).
  assert (is_byte (rd (ed t c) k)) as Hbk.
  { pose proof (li_bytes _ _ _ _ Hlab _ _ HN) as HB. rewrite <- He in HB. apply Forall_app in HB as [_ HB].
    apply Forall_rd; [done|lia]. }
  destruct (split_child_room t c (ed t c) k site (ai_pools _ _ HI) Vc Uc Hbk H4 Hr) as (r & t' & E & Hlen).
  pose proof (split_child_spec t c (ed t c) k site (ai_pools _ _ HI) Vc Uc Hbk) as HS. rewrite E in *.
  destruct HS as (-> & tl & Htl & HS).
  destruct (split_ok t N q cur b c k t' tl HI Hq Hb eq_refl Hfd ltac:(lia) Htl HS) as (N' & HI' & Hq' & _ & Hroom & Hfd').
  eapply IH; [exact HI'|exact Hq'|done|done|]. right. split_and!; [|done|].
  - unfold has_room. change (pool_cap kArtN4) with kMaxN4. lia.
  - intros b' s' Hd. rewrite Hfd' by (rewrite Hd in Hpd; by apply Forall_cons in Hpd as [? _]).
    rewrite (proj2 (Z.eqb_neq _ _)); [done|]. by apply (K4 b' s'); [lia|].
Qed.

(** ** Histories *)

(** A registration: path, method character, route index. *)
Definition registration : Type := list Z * Z * Z.

(** The tree after a sequence of registrations, and those that were accepted,
    as (canonical path, method slot, route index). *)
Fixpoint art_build (t : ArtTrie) (rs : list registration) : ArtTrie * list (list Z * nat * Z) :=
  match rs with
  | [] => (t, [])
  | (path, m, idx) :: rs' =>
      match art_insert t path m idx, route_method_slot m with
      | (true, t'), Some slot => let '(t2, acc) := art_build t' rs' in (t2, (canon path, slot, idx) :: acc)
      | (_, t'), _ => art_build t' rs'
      end
  end.

(** The first accepted registration of a path and slot. *)
Fixpoint first_of (acc : list (list Z * nat * Z)) (q : list Z) (s : nat) : Z :=
  match acc with
  | [] => kInvalidRoute
  | (q', s', idx) :: acc' => if decide (q' = q /\ s' = s) then idx else first_of acc' q s
  end.

Definition registered (acc : list (list Z * nat * Z)) (q : list Z) : list Z := (first_of acc q) <$> seq 0 kRouteMethodSlots.

(** The route that serves slot [want] at exactly the path [q]. *)
Definition serves (acc : list (list Z * nat * Z)) (q : list Z) (want : nat) : Z := pick (registered acc q) want.

Definition reg_ok (r : registration) : Prop := Forall is_byte r.1.1 /\ 0 <= r.1.2 /\ r.2 <> kInvalidRoute.

Definition clear_labels (p : list Z) : option Z := if decide (p = []) then Some (root_ref art_clear) else None.

Lemma art_clear_inv : art_inv art_clear clear_labels /\ forall q, terms art_clear clear_labels q = no_terms.
Proof.
  destruct art_clear_spec as (H1 & H2 & H3). destruct (empty_n4_spec (mkHdr [] no_terms)) as (E1 & E2 & E3).
  assert (forall p r, clear_labels p = Some r -> p = [] /\ r = root_ref art_clear) as HL.
  { intros p r. unfold clear_labels. case_decide; [by intros [= <-]|done]. }
  split; [split; [done| |]|].
  - split; [done| | | |].
    + intros q r b [-> ->]%HL _ Hf. destruct Hf. unfold fd. by rewrite H3, E3.
    + intros p c [-> _]%HL Hne. done.
    + intros p q r [-> _]%HL [-> _]%HL. done.
    + intros p r [-> _]%HL. constructor.
  - intros q r [-> ->]%HL. rewrite H3, E2. split_and!; [done|done|apply length_replicate].
  - intros q. unfold terms, clear_labels. case_decide; [|done]. by rewrite H3, E2.
Qed.

Lemma art_build_ok rs : forall t N, art_inv t N -> Forall reg_ok rs ->
  let '(t', acc) := art_build t rs in
  exists N', art_inv t' N' /\ forall q s, (s < kRouteMethodSlots)%nat ->
    nth s (terms t' N' q) kInvalidRoute =
      if nth s (terms t N q) kInvalidRoute =? kInvalidRoute then first_of acc q s else nth s (terms t N q) kInvalidRoute.
Proof.
  induction rs as [|[[path m] idx] rs IH]; intros t N HI Hrs; cbn [art_build].
  { exists N. split; [done|]. intros q s _. cbn. case_if; zify_bool; done. }
  apply Forall_cons in Hrs as [(Hb & Hm & Hidx) Hrs]. cbn [fst snd] in *.
  destruct (art_insert_ok t N path m idx HI Hb Hm) as [->|(slot & t1 & N1 & Hslot & -> & HI1 & Ht)]; [by apply IH|].
  rewrite Hslot. specialize (IH t1 N1 HI1 Hrs). destruct (art_build t1 rs) as [t2 acc]. destruct IH as (N2 & HI2 & H2).
  exists N2. split; [done|]. intros q s Hs. rewrite H2, Ht by done. cbn [first_of].
  destruct (Z.eqb_spec (nth s (terms t N q) kInvalidRoute) kInvalidRoute) as [E|E].
  - destruct (decide (canon path = q /\ slot = s)) as [[<- <-]|Hn].
    + rewrite decide_True by done. by rewrite (proj2 (Z.eqb_neq idx kInvalidRoute)).
    + rewrite decide_False by naive_solver. by rewrite E, Z.eqb_refl.
  - rewrite decide_False by tauto. by rewrite (proj2 (Z.eqb_neq _ _) E).
Qed.

Lemma art_build_table rs t acc :
  Forall reg_ok rs -> art_build art_clear rs = (t, acc) ->
  exists N, art_inv t N /\ forall q, terms t N q = registered acc q.
Proof.
  intros Hrs Hb. destruct art_clear_inv as [HI Hno]. pose proof (art_build_ok rs art_clear clear_labels HI Hrs) as H.
  rewrite Hb in H. destruct H as (N & HIN & Ht). exists N. split; [done|]. intros q. apply list_eq. intros s.
  pose proof (terms_length t N q HIN) as Hlen. destruct (decide (s < kRouteMethodSlots)%nat) as [Hs|Hs].
  - destruct (lookup_lt_is_Some_2 (terms t N q) s) as [x Hx]; [lia|]. rewrite Hx.
    unfold registered. rewrite list_lookup_fmap, lookup_seq_lt by done. cbn. f_equal.
    rewrite <- (nth_lookup_Some _ _ kInvalidRoute _ Hx). rewrite Ht, Hno by done.
    rewrite nth_lookup, lookup_replicate_2 by done. done.
  - rewrite !lookup_ge_None_2; [done|unfold registered; rewrite length_fmap, length_seq; lia|lia].
Qed.

(** C5: after any sequence of registrations, splits and node upgrades included,
    a lookup in the radix tree ends and returns the route that serves the method
    at the longest prefix of the path for which an accepted registration serves
    it; on each path and method the first accepted registration counts.  Both
    matching loops obey it. *)
Theorem art_dispatch_longest (rs : list registration) (t : ArtTrie) (acc : list (list Z * nat * Z)) (p : list Z) (key : Z) (want : nat) :
  Forall reg_ok rs -> art_build art_clear rs = (t, acc) ->
  Forall is_byte p -> route_method_slot_from_key key = Some want ->
  exists r, match_canonical_key t p key = Some r /\
    ((exists n, (n <= length p)%nat /\ r = serves acc (take n p) want /\ r <> kInvalidRoute /\
        forall m, (n < m <= length p)%nat -> serves acc (take m p) want = kInvalidRoute) \/
     (r = kInvalidRoute /\ forall m, (m <= length p)%nat -> serves acc (take m p) want = kInvalidRoute)).
Proof.
  intros Hrs Hb Hp Hk. destruct (art_build_table rs t acc Hrs Hb) as (N & HI & Ht).
  rewrite (match_key_ok t N p key want HI Hp Hk). eexists. split; [done|].
  assert (forall m, pick (terms t N (take m p)) want = serves acc (take m p) want) as HS by (intros m; by rewrite Ht).
  destruct (scan_longest (terms t N) want p [] (pick (terms t N []) want)) as [[-> H]|(n & Hn & E & Hne & H)]; cbv zeta in *; cbn [app] in *.
  - destruct (decide (pick (terms t N []) want = kInvalidRoute)) as [E0|E0].
    + right. split; [done|]. intros m Hm. rewrite <- HS. destruct m as [|m]; [done|]. apply H. lia.
    + left. exists 0%nat. rewrite <- HS. split_and!; [lia|done|done|]. intros m Hm. rewrite <- HS. apply H. lia.
  - left. exists n. rewrite <- HS. split_and!; [lia|done|done|]. intros m Hm. rewrite <- HS. apply H. lia.
Qed.

(** C12: a registration with a known method succeeds in every reachable tree that
    has two 4-way nodes and one node of each larger type left: the descent needs
    no more, and ends within the length of the path. *)
Theorem art_insert_succeeds (rs : list registration) (t : ArtTrie) (acc : list (list Z * nat * Z)) (path : list Z) (m idx : Z) (slot : nat) :
  Forall reg_ok rs -> art_build art_clear rs = (t, acc) ->
  Forall is_byte path -> route_method_slot m = Some slot ->
  (length (n4_pool t) + 2 <= kMaxN4)%nat -> (length (n16_pool t) < kMaxN16)%nat ->
  (length (n48_pool t) < kMaxN48)%nat -> (length (n256_pool t) < kMaxN256)%nat ->
  fst (art_insert t path m idx) = true.
Proof.
  intros Hrs Hb Hp Hslot H4 H16 H48 H256. destruct (art_build_table rs t acc Hrs Hb) as (N & HI & _).
  unfold art_insert. rewrite Hslot. destruct (finalize_view path) as [lo n].
  destruct (insert_loop_room (S (length (sub path lo n))) t N [] (root_ref t) SRoot (sub path lo n)) as [[cur t'] E].
  - done.
  - apply (ai_lab _ _ HI).
  - unfold sub. by apply Forall_take, Forall_drop.
  - lia.
  - left. split; [done|]. split_and!; done.
  - by rewrite E.
Qed.

(** Witnesses: five routes, one of them registered twice, with splits and an
    upgrade of the root. *)
Definition demo_routes : list registration :=
  [(bs "/api/users", 0, 1); (bs "/api/user", ch "G", 2); (bs "/apt/", 0, 3); (bs "/api/users/", 0, 9);
   (bs "/b", 0, 4); (bs "/c", 0, 5); (bs "/d", 0, 6); (bs "/e", 0, 7)].

Lemma demo_routes_ok : Forall reg_ok demo_routes.
Proof. repeat constructor; vm_compute; done. Qed.

Lemma art_dispatch_longest_witness :
  exists r, match_canonical_key (art_build art_clear demo_routes).1 (bs "api/users/7") 1 = Some r /\ r = 1.
Proof.
  destruct (art_dispatch_longest demo_routes _ _ (bs "api/users/7") 1 1 demo_routes_ok
    (surjective_pairing (art_build art_clear demo_routes)) ltac:(apply bytes_ok_Forall; vm_compute; done) ltac:(vm_compute; done))
    as (r & E & _).
  exists r. split; [done|]. vm_compute in E. congruence.
Defined.

Lemma art_insert_succeeds_witness : fst (art_insert (art_build art_clear demo_routes).1 (bs "/api/x") 0 8) = true.
Proof.
  apply (art_insert_succeeds demo_routes _ _ (bs "/api/x") 0 8 0 demo_routes_ok (surjective_pairing (art_build art_clear demo_routes))).
  - apply bytes_ok_Forall. vm_compute. done.
  - vm_compute. done.
  - vm_compute. lia.
  - vm_compute. lia.
  - vm_compute. lia.
  - vm_compute. lia.
Defined.
