(* ===== verification/RouteSelect.v ===== *)
(** * Choice of the dispatcher

    Model of include/rut/runtime/route_select.h and src/runtime/route_select.cc:
    a route table needs segment-aware dispatch when a path has a parameter
    segment or when two canonical paths overlap inside a segment. *)

From S2P Require Import Prelude RouteCanon RouteTrie.

Definition is_strict_byte_prefix (a b : list Z) : bool :=
  if Nat.leb (length b) (length a) then false else is_prefix a b.

Definition boundary_sensitive_after_prefix (shorter longer : list Z) : bool :=
  if Nat.eqb (length shorter) 0 then false
  else negb (rd longer (length shorter) =? slash).

Fixpoint has_param_loop (at_segment_start : bool) (path : list Z) : bool :=
  match path with
  | [] => false
  | c :: path' =>
      if c =? slash then has_param_loop true path'
      else if at_segment_start && (c =? ch ":") then true
      else has_param_loop false path'
  end.

Definition path_has_param_segment (path : list Z) : bool := has_param_loop true path.

Definition canon_of (p : list Z) : list Z := let '(lo, n) := finalize_view p in sub p lo n.

(** One pair of the double loop. *)
Definition pair_overlaps (p q : list Z) : bool :=
  let a := canon_of p in
  let b := canon_of q in
  if is_strict_byte_prefix a b then boundary_sensitive_after_prefix a b
  else if is_strict_byte_prefix b a then boundary_sensitive_after_prefix b a
  else false.

Fixpoint has_boundary_sensitive_overlap (paths : list (list Z)) : bool :=
  match paths with
  | [] => false
  | p :: paths' => existsb (pair_overlaps p) paths' || has_boundary_sensitive_overlap paths'
  end.

Definition needs_segment_aware (paths : list (list Z)) : bool :=
  existsb path_has_param_segment paths || has_boundary_sensitive_overlap paths.

(** ** Lemmas *)

(** A parameter segment under construction stays one. *)
Lemma param_segment_kept path seg :
  is_param_segment seg = true -> existsb is_param_segment (segments_from seg path) = true.
Proof.
  revert seg. induction path as [|d path IH]; intros seg Hs; cbn [segments_from].
  - destruct seg; [done|]. cbn [existsb]. by rewrite Hs.
  - destruct (d =? sep).
    + destruct seg; [done|]. cbn [existsb]. by rewrite Hs.
    + apply IH. destruct seg; [done | exact Hs].
Qed.

Lemma has_param_loop_segments path :
  (forall seg, seg <> [] -> is_param_segment seg = false ->
     has_param_loop false path = existsb is_param_segment (segments_from seg path)) /\
  has_param_loop true path = existsb is_param_segment (segments_from [] path).
Proof.
  induction path as [|c path [IH1 IH2]]; cbn [has_param_loop segments_from].
  { split; [|done]. intros [|x seg] Hne Hp; [done|]. cbn. cbn in Hp. by rewrite Hp. }
  change sep with slash. split.
  - intros seg Hne Hp. destruct (c =? slash).
    + destruct seg as [|x seg]; [done|]. cbn [existsb]. by rewrite Hp, IH2.
    + cbn [andb]. apply IH1; [by destruct seg|]. destruct seg as [|x seg]; [done|]. exact Hp.
  - destruct (c =? slash); [done|]. cbn [andb app]. destruct (c =? ch ":") eqn:E.
    + symmetry. apply param_segment_kept. unfold is_param_segment. cbn. by rewrite E.
    + apply IH1; [done|]. unfold is_param_segment. cbn. by rewrite E.
Qed.

Lemma has_param_segments path : path_has_param_segment path = existsb is_param_segment (segments path).
Proof. apply has_param_loop_segments. Qed.

(** [q] continues [p] inside a segment. *)
Definition continues_segment (p q : list Z) : Prop :=
  canon_of p <> [] /\ exists c rest, canon_of q = canon_of p ++ c :: rest /\ c <> slash.

Lemma strict_prefix_spec a b : is_strict_byte_prefix a b = true <-> exists c rest, b = a ++ c :: rest.
Proof.
  unfold is_strict_byte_prefix. destruct (Nat.leb_spec (length b) (length a)) as [H|H].
  - split; [done|]. intros (c & rest & ->). simp_len. lia.
  - rewrite is_prefix_spec. split.
    + intros [[|c k] ->]; [simp_len; lia | eauto].
    + intros (c & rest & ->). eauto.
Qed.

Lemma boundary_spec a c rest :
  boundary_sensitive_after_prefix a (a ++ c :: rest) = true <-> a <> [] /\ c <> slash.
Proof.
  unfold boundary_sensitive_after_prefix. destruct a as [|x a]; [cbn; naive_solver|].
  cbn [length Nat.eqb]. rewrite negb_true_iff, Z.eqb_neq.
  rewrite <- (Nat.add_0_r (S (length a))). change (S (length a)) with (length (x :: a)).
  rewrite rd_app_r. cbn. naive_solver.
Qed.

Lemma pair_overlaps_spec p q :
  pair_overlaps p q = true <-> continues_segment p q \/ continues_segment q p.
Proof.
  unfold pair_overlaps, continues_segment.
  destruct (is_strict_byte_prefix (canon_of p) (canon_of q)) eqn:E1.
  - apply strict_prefix_spec in E1 as (c & rest & E1). rewrite E1, boundary_spec. split.
    + intros [? ?]. left. eauto.
    + intros [(Hne & c' & r' & H & Hc)|(_ & c' & r' & H & _)].
      * apply app_inv_head in H. injection H as -> ->. done.
      * exfalso. apply (f_equal length) in H. simp_len. lia.
  - destruct (is_strict_byte_prefix (canon_of q) (canon_of p)) eqn:E2.
    + apply strict_prefix_spec in E2 as (c & rest & E2). rewrite E2, boundary_spec. split.
      * intros [? ?]. right. eauto.
      * intros [(_ & c' & r' & H & _)|(Hne & c' & r' & H & Hc)].
        -- exfalso. apply (f_equal length) in H. simp_len. lia.
        -- apply app_inv_head in H. injection H as -> ->. done.
    + split; [done|]. intros [(_ & c & r & H & _)|(_ & c & r & H & _)].
      * assert (is_strict_byte_prefix (canon_of p) (canon_of q) = true)
          by (apply strict_prefix_spec; eauto). congruence.
      * assert (is_strict_byte_prefix (canon_of q) (canon_of p) = true)
          by (apply strict_prefix_spec; eauto). congruence.
Qed.

Lemma overlap_spec paths :
  has_boundary_sensitive_overlap paths = true <->
  exists i j p q, i <> j /\ paths !! i = Some p /\ paths !! j = Some q /\ continues_segment p q.
Proof.
  induction paths as [|p paths IH]; cbn [has_boundary_sensitive_overlap].
  - split; [done|]. by intros (i & j & p & q & _ & H & _).
  - rewrite orb_true_iff, IH, existsb_exists. setoid_rewrite <- list_elem_of_In. split.
    + intros [(q & Hq & Ho)|(i & j & a & b & Hne & Hi & Hj & H)].
      * apply list_elem_of_lookup in Hq as [j Hj]. apply pair_overlaps_spec in Ho as [Ho|Ho].
        -- by exists O, (S j), p, q.
        -- by exists (S j), O, q, p.
      * exists (S i), (S j), a, b. split_and!; try done. lia.
    + intros ([|i] & [|j] & a & b & Hne & Hi & Hj & H); cbn in *; simplify_eq.
      * left. exists b. split; [by eapply list_elem_of_lookup_2 | apply pair_overlaps_spec; auto].
      * left. exists a. split; [by eapply list_elem_of_lookup_2 | apply pair_overlaps_spec; auto].
      * right. exists i, j, a, b. split_and!; try done. lia.
Qed.

(** The selector asks for segment-aware dispatch exactly when some path has
    a parameter segment or some canonical path continues another non-empty one
    inside a segment (whatever the order of the table). *)
Theorem needs_segment_aware_spec paths :
  needs_segment_aware paths = true <->
  (exists p s, p ∈ paths /\ s ∈ segments p /\ is_param_segment s = true) \/
  (exists i j p q, i <> j /\ paths !! i = Some p /\ paths !! j = Some q /\ continues_segment p q).
Proof.
  unfold needs_segment_aware. rewrite orb_true_iff, overlap_spec, existsb_exists.
  setoid_rewrite has_param_segments. setoid_rewrite existsb_exists.
  setoid_rewrite <- list_elem_of_In. naive_solver.
Qed.
