(* ===== verification/RouteTable.v ===== *)
(** * Route table

    Model of include/rut/runtime/route_table.h: the routes, upstreams, response
    bodies and header sets of a configuration, its construction and the lookup
    of a request.  A C string is its bytes without the terminator, [None] the
    null pointer; the bump-allocated byte pools are the bytes in use, and an
    entry is an offset and a length in them.  The specialised match function
    that can replace the scalar descent is a parameter of the configuration. *)

From S2P Require Import Prelude HeaderValidation HttpParser RouteCanon RouteMethod.
From S2P Require Import RouteTrie RouteArt RouteSelect.

Inductive RouteAction := Static | Proxy | JitHandler.

Record RouteEntry := mkEntry {
  re_path : list Z;
  re_method : Z;
  re_action : RouteAction;
  re_upstream_id : Z;
  re_status_code : Z;
  re_fn : Z;
  re_needs_req_body : bool
}.

Record UpstreamTarget := mkUpstream { u_name : list Z; u_addr : Z; u_port : Z }.

Inductive DispatchKind := ArtJit | SegmentTrie.

Definition kMaxPathLen : nat := 128.
Definition kMaxRoutes : nat := 128.
Definition kMaxUpstreams : nat := 64.
Definition kMaxUpstreamNameLen : nat := 32.
Definition kMaxResponseBodies : nat := 128.
Definition kResponseBodyPoolBytes : nat := 8 * 1024.
Definition kMaxResponseHeaderSets : nat := 128.
Definition kMaxHeaderPoolEntries : nat := 512.
Definition kResponseHeaderBytesPoolBytes : nat := 8 * 1024.
Definition kMaxHeadersPerSet : nat := 32.

(** An (offset, length) run of a byte pool. *)
Definition span : Type := nat * nat.
Definition span_bytes (pool : list Z) (s : span) : list Z := sub pool (fst s) (snd s).

Record RouteConfig := mkConfig {
  routes : list RouteEntry;
  dispatch_kind : DispatchKind;
  trie : list TrieNode;
  art_state : ArtTrie;
  upstreams : list UpstreamTarget;
  body_pool : list Z;
  response_bodies : list span;
  header_bytes_pool : list Z;
  header_keys : list span;
  header_values : list span;
  response_header_sets : list span;
  art_jit_fn : option (list Z -> Z -> Z)
}.

Definition empty_config : RouteConfig :=
  mkConfig [] ArtJit clear art_clear [] [] [] [] [] [] [] None.

Definition set_dispatch (c : RouteConfig) (k : DispatchKind) : RouteConfig :=
  mkConfig (routes c) k (trie c) (art_state c) (upstreams c) (body_pool c) (response_bodies c)
    (header_bytes_pool c) (header_keys c) (header_values c) (response_header_sets c) (art_jit_fn c).
Definition with_dispatch_state (c : RouteConfig) (n : list TrieNode) (a : ArtTrie) : RouteConfig :=
  mkConfig (routes c) (dispatch_kind c) n a (upstreams c) (body_pool c) (response_bodies c)
    (header_bytes_pool c) (header_keys c) (header_values c) (response_header_sets c) (art_jit_fn c).
Definition push_route (c : RouteConfig) (r : RouteEntry) : RouteConfig :=
  mkConfig (routes c ++ [r]) (dispatch_kind c) (trie c) (art_state c) (upstreams c) (body_pool c)
    (response_bodies c) (header_bytes_pool c) (header_keys c) (header_values c)
    (response_header_sets c) (art_jit_fn c).

(** ** Dispatcher choice *)

Definition use_art (c : RouteConfig) : bool * RouteConfig :=
  if Nat.ltb 0 (length (routes c)) then (false, c) else (true, set_dispatch c ArtJit).
Definition use_segment_trie (c : RouteConfig) : bool * RouteConfig :=
  if Nat.ltb 0 (length (routes c)) then (false, c) else (true, set_dispatch c SegmentTrie).

Definition install_art_jit_fn (c : RouteConfig) (f : option (list Z -> Z -> Z)) : RouteConfig :=
  mkConfig (routes c) (dispatch_kind c) (trie c) (art_state c) (upstreams c) (body_pool c)
    (response_bodies c) (header_bytes_pool c) (header_keys c) (header_values c)
    (response_header_sets c) f.

(** ** Upstreams *)

(** [__builtin_bswap32], [__builtin_bswap16] *)
Definition bswap16 (x : Z) : Z := u16 (Z.lor (Z.shiftl x 8) (Z.shiftr (u16 x) 8)).
Definition bswap32 (x : Z) : Z :=
  u32 (Z.lor (Z.lor (Z.shiftl (Z.land x 255) 24) (Z.shiftl (Z.land (Z.shiftr x 8) 255) 16))
         (Z.lor (Z.shiftl (Z.land (Z.shiftr x 16) 255) 8) (Z.land (Z.shiftr x 24) 255))).

Definition set_name (n : list Z) : list Z := take (kMaxUpstreamNameLen - 1) n.

(** The index, or the ENOSPC error. *)
Definition add_upstream (c : RouteConfig) (name : list Z) (ip port : Z) : option nat * RouteConfig :=
  if Nat.leb kMaxUpstreams (length (upstreams c)) then (None, c)
  else
    (Some (length (upstreams c)),
     mkConfig (routes c) (dispatch_kind c) (trie c) (art_state c)
       (upstreams c ++ [mkUpstream (set_name name) (bswap32 ip) (bswap16 port)])
       (body_pool c) (response_bodies c) (header_bytes_pool c) (header_keys c) (header_values c)
       (response_header_sets c) (art_jit_fn c)).

(** ** Routes *)

Fixpoint routable_loop (i : nat) (p : list Z) : bool :=
  match i with
  | O => false
  | S i' =>
      match p with
      | [] => true
      | c :: p' => if (c =? ch "?") || (c =? ch "#") then false else routable_loop i' p'
      end
  end.

Definition is_routable_path (path : option (list Z)) : bool :=
  match path with
  | None => false
  | Some p => if negb (rd p 0 =? slash) then false else routable_loop kMaxPathLen p
  end.

Definition dispatch_accepts_path_shape (c : RouteConfig) (p : list Z) : bool :=
  if negb (path_has_param_segment p) then true
  else match dispatch_kind c with SegmentTrie => true | ArtJit => false end.

Fixpoint param_count_loop (count : nat) (at_start : bool) (p : list Z) : bool :=
  match p with
  | [] => true
  | c :: p' =>
      if c =? slash then param_count_loop count true p'
      else if at_start && (c =? ch ":") then
        if Nat.ltb kMaxRouteParams (S count) then false else param_count_loop (S count) false p'
      else param_count_loop count false p'
  end.

Definition param_count_fits (p : list Z) : bool := param_count_loop 0 true p.

Definition populate_dispatch_state (c : RouteConfig) (r : RouteEntry) : bool * RouteConfig :=
  let idx := u16 (Z.of_nat (length (routes c))) in
  match dispatch_kind c with
  | ArtJit =>
      let '(ok, a) := art_insert (art_state c) (re_path r) (re_method r) idx in
      (ok, with_dispatch_state c (trie c) a)
  | SegmentTrie =>
      let '(ok, n) := insert (trie c) (re_path r) (re_method r) idx in
      (ok, with_dispatch_state c n (art_state c))
  end.

(** The part the three [add_*] share, after their own argument checks. *)
Definition add_entry (c : RouteConfig) (path : option (list Z)) (method : Z)
    (action : RouteAction) (upstream_id status fn : Z) (needs : bool) : bool * RouteConfig :=
  if negb (is_routable_path path) then (false, c)
  else
    let p := default [] path in
    if negb (dispatch_accepts_path_shape c p) then (false, c)
    else if negb (param_count_fits p) then (false, c)
    else
      let method_key := route_method_key_from_legacy_char method in
      match route_method_slot method_key with
      | None => (false, c)
      | Some _ =>
          if Nat.ltb (kMaxPathLen - 1) (length p) then (false, c)
          else
            let r := mkEntry p method_key action upstream_id status fn needs in
            let '(ok, c') := populate_dispatch_state c r in
            if negb ok then (false, c') else (true, push_route c' r)
      end.

Definition add_proxy (c : RouteConfig) (path : option (list Z)) (method upstream_id : Z)
    : bool * RouteConfig :=
  if Nat.leb kMaxRoutes (length (routes c)) then (false, c)
  else if Z.of_nat (length (upstreams c)) <=? upstream_id then (false, c)
  else add_entry c path method Proxy upstream_id 0 0 false.

Definition add_static (c : RouteConfig) (path : option (list Z)) (method status : Z)
    : bool * RouteConfig :=
  if Nat.leb kMaxRoutes (length (routes c)) then (false, c)
  else add_entry c path method Static 0 status 0 false.

Definition add_jit_handler (c : RouteConfig) (path : option (list Z)) (method fn : Z) (needs : bool)
    : bool * RouteConfig :=
  if Nat.leb kMaxRoutes (length (routes c)) then (false, c)
  else if fn =? 0 then (false, c)
  else add_entry c path method JitHandler 0 0 fn needs.

(** ** Response bodies *)

Definition add_response_body (c : RouteConfig) (data : option (list Z)) (len : nat)
    : Z * RouteConfig :=
  if Nat.leb kMaxResponseBodies (length (response_bodies c)) then (0, c)
  else if Nat.ltb 0 len && (match data with None => true | Some _ => false end) then (0, c)
  else if Nat.ltb (kResponseBodyPoolBytes - length (body_pool c)) len then (0, c)
  else
    let bytes := take len (default [] data) in
    (u16 (Z.of_nat (length (response_bodies c)) + 1),
     mkConfig (routes c) (dispatch_kind c) (trie c) (art_state c) (upstreams c)
       (body_pool c ++ bytes) (response_bodies c ++ [(length (body_pool c), len)])
       (header_bytes_pool c) (header_keys c) (header_values c) (response_header_sets c)
       (art_jit_fn c)).

(** ** Response header sets *)

(** The validating pass: the total size, or [None].  [seen] are the keys
    before this pair. *)
Fixpoint check_headers (total : Z) (seen : list (list Z)) (kvs : list (list Z * list Z)) : option Z :=
  match kvs with
  | [] => Some total
  | (k, v) :: kvs' =>
      match validate_response_header k v with
      | Ok =>
          if existsb (http_header_name_eq_ci k) seen then None
          else if 4294967295 - total <? Z.of_nat (length k) then None
          else
            let total1 := total + Z.of_nat (length k) in
            if 4294967295 - total1 <? Z.of_nat (length v) then None
            else check_headers (total1 + Z.of_nat (length v)) (seen ++ [k]) kvs'
      | _ => None
      end
  end.

(** The copying pass: pool, keys and values after it. *)
Fixpoint copy_headers (pool : list Z) (ks vs : list span) (kvs : list (list Z * list Z))
    : list Z * list span * list span :=
  match kvs with
  | [] => (pool, ks, vs)
  | (k, v) :: kvs' =>
      copy_headers (pool ++ k ++ v) (ks ++ [(length pool, length k)])
        (vs ++ [((length pool + length k)%nat, length v)]) kvs'
  end.

(** The null checks on the four tables are those of the caller's arrays; a
    pair of byte strings is never null here. *)
Definition add_response_header_set (c : RouteConfig) (kvs : list (list Z * list Z)) : Z * RouteConfig :=
  if Nat.eqb (length kvs) 0 then (0, c)
  else if Nat.leb kMaxResponseHeaderSets (length (response_header_sets c)) then (0, c)
  else if Nat.ltb kMaxHeadersPerSet (length kvs) then (0, c)
  else if Nat.ltb (kMaxHeaderPoolEntries - length (header_keys c)) (length kvs) then (0, c)
  else
    match check_headers 0 [] kvs with
    | None => (0, c)
    | Some total =>
        if Z.of_nat (kResponseHeaderBytesPoolBytes - length (header_bytes_pool c)) <? total then (0, c)
        else
          let '(pool, ks, vs) :=
            copy_headers (header_bytes_pool c) (header_keys c) (header_values c) kvs in
          (u16 (Z.of_nat (length (response_header_sets c)) + 1),
           mkConfig (routes c) (dispatch_kind c) (trie c) (art_state c) (upstreams c) (body_pool c)
             (response_bodies c) pool ks vs
             (response_header_sets c ++ [(length (header_keys c), length kvs)]) (art_jit_fn c))
    end.

(** ** Lookup *)

(** The entry and the captured parameters; the outer [None]: out of fuel. *)
Definition match_canonical_cfg (c : RouteConfig) (canon : option (list Z)) (method : Z) (cap : nat)
    : option (option RouteEntry * list RouteParam) :=
  match canon with
  | None => Some (None, [])
  | Some p =>
      match (match dispatch_kind c with
             | ArtJit =>
                 match art_jit_fn c with
                 | Some f => Some (f p method, [])
                 | None => (fun i => (i, [])) <$> match_canonical_key (art_state c) p method
                 end
             | SegmentTrie => match_key (trie c) p method cap
             end) with
      | None => None
      | Some (idx, ps) =>
          if Z.of_nat (length (routes c)) <=? idx then Some (None, ps)
          else Some (routes c !! Z.to_nat idx, ps)
      end
  end.

Definition match_cfg (c : RouteConfig) (path : list Z) (method : Z)
    : option (option RouteEntry * list RouteParam) :=
  if Nat.eqb (length path) 0 || negb (rd path 0 =? slash) then Some (None, [])
  else match_canonical_cfg c (canonicalize_request (Some path))
         (route_method_key_from_legacy_char method) 0.

(** ** Tables dispatched by segment *)

(** The route of a pattern and method slot by a scan of the table: the first
    one wins. *)
Fixpoint first_route (i : nat) (rs : list RouteEntry) (pat : list (list Z)) (slot : nat) : Z :=
  match rs with
  | [] => kInvalidRoute
  | r :: rs' =>
      if bool_decide (segments (re_path r) = pat /\ re_method r = Z.of_nat slot) then Z.of_nat i
      else first_route (S i) rs' pat slot
  end.

Record table_inv (c : RouteConfig) : Prop := {
  ti_kind : dispatch_kind c = SegmentTrie;
  ti_trie : trie_wf (trie c);
  ti_count : (length (routes c) <= kMaxRoutes)%nat;
  ti_methods : Forall (fun r => 0 <= re_method r < 10) (routes c);
  ti_routes pat slot : route_at (trie c) pat slot = first_route 0 (routes c) pat slot
}.

Lemma first_route_app i rs r pat slot :
  Z.of_nat (i + length rs) < kInvalidRoute ->
  first_route i (rs ++ [r]) pat slot =
  if bool_decide (pat = segments (re_path r) /\ Z.of_nat slot = re_method r /\
                  first_route i rs pat slot = kInvalidRoute)
  then Z.of_nat (i + length rs) else first_route i rs pat slot.
Proof.
  revert i. induction rs as [|x rs IH]; intros i Hi; cbn [first_route app length] in *.
  - rewrite Nat.add_0_r. repeat case_bool_decide; naive_solver.
  - destruct (bool_decide (segments (re_path x) = pat /\ re_method x = Z.of_nat slot)).
    + rewrite bool_decide_eq_false_2; [done|]. intros (_ & _ & H). lia.
    + rewrite IH by lia. replace (S i + length rs)%nat with (i + S (length rs))%nat by lia. done.
Qed.

Lemma first_route_spec i rs pat slot :
  Z.of_nat (i + length rs) < kInvalidRoute -> first_route i rs pat slot <> kInvalidRoute ->
  exists k r, rs !! k = Some r /\ first_route i rs pat slot = Z.of_nat (i + k) /\
    segments (re_path r) = pat /\ re_method r = Z.of_nat slot.
Proof.
  revert i. induction rs as [|x rs IH]; intros i Hi; cbn [first_route length] in *; [done|].
  case_bool_decide as Hx.
  - intros _. exists O, x. split_and!; try done; try tauto. by rewrite Nat.add_0_r.
  - intros H. destruct (IH (S i) ltac:(lia) H) as (k & r & Hk & Hf & Hp). exists (S k), r.
    split_and!; try done; try tauto. rewrite Hf. f_equal. lia.
Qed.

Lemma first_route_none i rs pat slot r :
  Z.of_nat (i + length rs) < kInvalidRoute -> first_route i rs pat slot = kInvalidRoute -> r ∈ rs ->
  segments (re_path r) = pat -> re_method r <> Z.of_nat slot.
Proof.
  revert i. induction rs as [|x rs IH]; intros i Hi Hf Hr Hp; [by apply not_elem_of_nil in Hr|].
  cbn [first_route length] in *. case_bool_decide as Hx; [lia|].
  apply elem_of_cons in Hr as [->|Hr]; [naive_solver|]. eapply (IH (S i)); eauto. lia.
Qed.

Lemma key_slot m k slot :
  0 <= m -> k = route_method_key_from_legacy_char m -> route_method_slot k = Some slot ->
  k = Z.of_nat slot /\ 0 <= k < 10.
Proof.
  intros Hm -> H. pose proof (legacy_key_byte m Hm) as Hk.
  assert (route_method_key_from_legacy_char (route_method_key_from_legacy_char m) =
    route_method_key_from_legacy_char m) as Hid.
  { unfold route_method_key_from_legacy_char, kRouteMethodAny.
    repeat (case_if; [reflexivity|]). repeat case_if; done. }
  unfold route_method_slot in H. rewrite Hid in H. apply slot_from_key_range in H as [? ?]; [|done].
  unfold kRouteMethodSlots in *. lia.
Qed.

Lemma with_state_id c : with_dispatch_state c (trie c) (art_state c) = c.
Proof. by destruct c. Qed.

Lemma add_entry_spec c path m a u s fn needs ok c' :
  table_inv c -> (length (routes c) < kMaxRoutes)%nat -> 0 <= m ->
  add_entry c path m a u s fn needs = (ok, c') ->
  table_inv c' /\
  if ok then
    exists p, path = Some p /\ is_routable_path path = true /\
      routes c' = routes c ++ [mkEntry p (route_method_key_from_legacy_char m) a u s fn needs]
  else c' = c.
Proof.
  intros Hinv Hcount Hm. unfold add_entry. destruct (is_routable_path path) eqn:Hr; cbn [negb].
  2: by intros [= <- <-].
  destruct path as [p|]; [|done]. change (default [] (Some p)) with p.
  destruct (dispatch_accepts_path_shape c p); cbn [negb]; [|by intros [= <- <-]].
  destruct (param_count_fits p); cbn [negb]; [|by intros [= <- <-]].
  destruct (route_method_slot (route_method_key_from_legacy_char m)) as [slot|] eqn:Hs; [|by intros [= <- <-]].
  destruct (Nat.ltb _ _); [by intros [= <- <-]|].
  destruct (key_slot m _ slot Hm eq_refl Hs) as [Hkey Hrange].
  set (r := mkEntry _ _ _ _ _ _ _). unfold populate_dispatch_state. rewrite (ti_kind _ Hinv).
  cbn [re_path re_method r]. rewrite u16_small by (unfold kMaxRoutes in Hcount; lia).
  destruct (insert (trie c) p _ _) as [ok' n] eqn:Hi.
  apply insert_spec in Hi as [Hwf Hi]; [|apply (ti_trie _ Hinv)|lia].
  destruct ok'; cbn [negb]; intros [= <- <-].
  - destruct Hi as (slot' & Hs' & _ & Hroutes). rewrite Hs in Hs'. injection Hs' as <-.
    split; [|exists p; done]. destruct Hinv as [h1 h2 h3 h4 h5]. split; cbn; try done.
    + rewrite length_app. cbn. lia.
    + apply Forall_app. split; [done|]. by constructor.
    + intros pat s0. rewrite Hroutes, first_route_app, h5 by (unfold kMaxRoutes, kInvalidRoute in *; lia).
      cbn [re_path re_method r]. erewrite bool_decide_ext; [done|]. rewrite Hkey. naive_solver lia.
  - rewrite Hi, with_state_id. done.
Qed.

(** Building a segment-dispatched table is all-or-nothing.  Each of the
    three kinds of registration keeps the table and its trie in step (the trie
    answers every pattern and method with the first route registered for them)
    and either leaves the configuration unchanged or appends exactly one entry
    with the normalized method key. *)
Theorem add_routes_consistent c path m ok c' :
  table_inv c -> 0 <= m ->
  (exists u, add_proxy c path m u = (ok, c')) \/ (exists st, add_static c path m st = (ok, c')) \/
  (exists fn nb, add_jit_handler c path m fn nb = (ok, c')) ->
  table_inv c' /\
  if ok then exists r, routes c' = routes c ++ [r] /\ path = Some (re_path r) /\
    re_method r = route_method_key_from_legacy_char m
  else c' = c.
Proof.
  intros Hinv Hm Hadd.
  assert (exists a u s fn nb, (length (routes c) < kMaxRoutes)%nat /\
    add_entry c path m a u s fn nb = (ok, c') \/ (ok = false /\ c' = c)) as (a & u & s & fn & nb & [[Hc H]|[-> ->]]).
  { destruct Hadd as [[u H]|[[st H]|(fn & nb & H)]];
      [exists Proxy, u, 0, 0, false | exists Static, 0, st, 0, false | exists JitHandler, 0, 0, fn, nb];
      unfold add_proxy, add_static, add_jit_handler in H;
      destruct (Nat.leb_spec kMaxRoutes (length (routes c)));
      try (injection H as <- <-; by right); try (case_if_in H; [injection H as <- <-; by right|]); by left. }
  - destruct (add_entry_spec c path m a u s fn nb ok c' Hinv Hc Hm H) as [Hinv' Hok]. split; [done|].
    destruct ok; [|done]. destruct Hok as (p & -> & _ & Hr). eexists. split; [exact Hr|]. done.
  - done.
Qed.

Definition seg_config : RouteConfig := snd (use_segment_trie empty_config).

Lemma seg_config_inv : table_inv seg_config.
Proof.
  split; try done.
  - apply clear_wf.
  - cbn. unfold kMaxRoutes. lia.
  - intros pat slot. cbn [first_route routes seg_config]. unfold route_at, route_from.
    destruct (walk (trie seg_config) 0 pat) as [n|]; [|done].
    unfold seg_config. cbn. destruct n as [|[|n]]; apply slot_empty.
Qed.

Lemma add_routes_consistent_witness :
  table_inv (snd (add_static seg_config (Some (bs "/a/:id")) 0 200)).
Proof.
  apply (add_routes_consistent seg_config (Some (bs "/a/:id")) 0 true
    (snd (add_static seg_config (Some (bs "/a/:id")) 0 200)) seg_config_inv ltac:(lia)).
  right. left. exists 200. vm_compute. reflexivity.
Defined.

(** ** Lookup in a segment-dispatched table *)

(** A route serves a request: its pattern matches a prefix of the segments and
    its method is the request's or any. *)
Definition serves (r : RouteEntry) (segs : list (list Z)) (key : Z) : Prop :=
  pat_match (segments (re_path r)) segs = true /\ (re_method r = key \/ re_method r = kRouteMethodAny).

Definition route_rank (r : RouteEntry) (key : Z) : rank :=
  pat_rank (segments (re_path r)) (negb (key =? kRouteMethodAny) && (re_method r =? key)).

Lemma offer_table c pat want :
  table_inv c ->
  let o := offer (trie c) pat want in
  (o.1 <> kInvalidRoute -> exists r, routes c !! Z.to_nat o.1 = Some r /\ 0 <= o.1 < Z.of_nat (length (routes c)) /\
     segments (re_path r) = pat /\ (re_method r = Z.of_nat want \/ re_method r = kRouteMethodAny) /\
     o.2 = negb (Z.of_nat want =? kRouteMethodAny) && (re_method r =? Z.of_nat want)) /\
  (forall r, r ∈ routes c -> segments (re_path r) = pat ->
     (re_method r = Z.of_nat want \/ re_method r = kRouteMethodAny) ->
     o.1 <> kInvalidRoute /\ (negb (Z.of_nat want =? kRouteMethodAny) && (re_method r =? Z.of_nat want) = true -> o.2 = true)).
Proof.
  intros Hinv. cbv zeta. unfold offer. rewrite !(ti_routes _ Hinv). change kRouteMethodAny with 0.
  assert (Z.of_nat (0 + length (routes c)) < kInvalidRoute) as Hlt.
  { pose proof (ti_count _ Hinv). unfold kMaxRoutes, kInvalidRoute in *. lia. }
  assert ((Z.of_nat want =? 0) = Nat.eqb want 0) as -> by (destruct want; done).
  destruct (Nat.eqb_spec want 0) as [Hw|Hw]; cbn [negb andb].
  - subst want. cbn [fst snd]. split.
    + intros Hne. destruct (first_route_spec 0 _ pat 0 Hlt Hne) as (k & r & Hk & Hf & Hp & Hm).
      exists r. rewrite Hf. cbn [Nat.add]. rewrite Nat2Z.id. apply lookup_lt_Some in Hk as ?.
      split_and!; try done; try lia.
    + intros r Hr Hp Hm. split; [|done]. intros Hf.
      apply (first_route_none 0 _ _ _ r Hlt Hf Hr Hp). naive_solver.
  - destruct (Z.eqb_spec (first_route 0 (routes c) pat want) kInvalidRoute) as [E|E]; cbn [negb fst snd].
    + split.
      * intros Hne. destruct (first_route_spec 0 _ pat 0 Hlt Hne) as (k & r & Hk & Hf & Hp & Hm).
        exists r. rewrite Hf. cbn [Nat.add]. rewrite Nat2Z.id. apply lookup_lt_Some in Hk as ?.
        split_and!; try done; try lia; rewrite Hm; symmetry; apply Z.eqb_neq; lia.
      * intros r Hr Hp Hm. pose proof (first_route_none 0 _ _ _ r Hlt E Hr Hp) as Hn.
        split; [|intros Ht; by apply Z.eqb_eq in Ht]. intros Hf.
        pose proof (first_route_none 0 _ _ _ r Hlt Hf Hr Hp). naive_solver.
    + split.
      * intros Hne. destruct (first_route_spec 0 _ pat want Hlt Hne) as (k & r & Hk & Hf & Hp & Hm).
        exists r. rewrite Hf. cbn [Nat.add]. rewrite Nat2Z.id. apply lookup_lt_Some in Hk as ?.
        split_and!; try done; try lia; rewrite Hm; symmetry; apply Z.eqb_refl.
      * done.
Qed.

Lemma outranks_specific pat sp b : outranks (pat_rank pat false) b -> outranks (pat_rank pat sp) b.
Proof. unfold outranks, pat_rank. destruct b as [? ? ? []], sp; cbn; lia. Qed.

Lemma table_lookup_spec c p key cap :
  table_inv c -> 0 <= key < 10 ->
  let segs := take kMaxPathSegments (segments p) in
  exists res ps, match_canonical_cfg c (Some p) key cap = Some (res, ps) /\
    match res with
    | None => forall r, r ∈ routes c -> ~ serves r segs key
    | Some r => r ∈ routes c /\ serves r segs key /\
        ps = take cap (take kMaxRouteParams (bind_params (segments (re_path r)) segs)) /\
        forall r', r' ∈ routes c -> serves r' segs key -> ~ outranks (route_rank r' key) (route_rank r key)
    end.
Proof.
  intros Hinv Hkey segs. unfold match_canonical_cfg. rewrite (ti_kind _ Hinv).
  assert (route_method_slot_from_key key = Some (Z.to_nat key)) as Hslot.
  { unfold route_method_slot_from_key, kRouteMethodSlots. by rewrite (proj2 (Z.ltb_lt _ _)) by lia. }
  destruct (match_key_best_lemma (trie c) p key cap (Z.to_nat key) (ti_trie _ Hinv) Hslot)
    as (r & ps & -> & H). fold segs in H.
  destruct H as [(-> & -> & Hno)|(pat & sp & Hm & Ho & Hr & -> & Hbest)].
  - rewrite (proj2 (Z.leb_le _ _)).
    2: { pose proof (ti_count _ Hinv). unfold kMaxRoutes, kInvalidRoute in *. lia. }
    exists None, []. split; [done|]. intros r Hr [Hpm Hmeth].
    destruct (offer_table c (segments (re_path r)) (Z.to_nat key) Hinv) as [_ Hoff].
    rewrite Z2Nat.id in Hoff by lia. destruct (Hoff r Hr eq_refl Hmeth) as [Hne _]. by apply Hne, Hno.
  - destruct (offer_table c pat (Z.to_nat key) Hinv) as [Hent _]. rewrite Ho in Hent.
    cbn [fst snd] in Hent. destruct (Hent Hr) as (e & He & Hlt & Hpat & Hmeth & Hsp). rewrite Z2Nat.id in * by lia.
    rewrite (proj2 (Z.leb_gt _ _)) by lia. rewrite He. eexists (Some e), _. split; [done|].
    split_and!.
    + by eapply list_elem_of_lookup_2.
    + split; [by rewrite Hpat | done].
    + by rewrite Hpat.
    + intros r' Hr' [Hpm' Hmeth'] Hout.
      destruct (offer_table c (segments (re_path r')) (Z.to_nat key) Hinv) as [_ Hoff].
      rewrite Z2Nat.id in Hoff by lia. destruct (Hoff r' Hr' eq_refl Hmeth') as [Hne Hs].
      destruct (offer (trie c) (segments (re_path r')) (Z.to_nat key)) as [i' sp'] eqn:Ho'.
      cbn [fst snd] in *. apply (Hbest _ _ _ Hpm' Ho' Hne). unfold route_rank in Hout. rewrite Hpat, <- Hsp in Hout.
      destruct (negb (key =? kRouteMethodAny) && (re_method r' =? key)); [by rewrite Hs|].
      by apply outranks_specific.
Qed.

(** C3: on a consistent segment-dispatched table, every lookup of a canonical
    path with a known method key terminates and is right against the list of
    routes: no entry is returned exactly when no registered route serves the
    request; otherwise the entry is a registered route that serves it, no other
    serving route outranks it, and the parameters are those its pattern binds. *)
Theorem table_lookup_best c p key cap :
  table_inv c -> 0 <= key < 10 ->
  let segs := take kMaxPathSegments (segments p) in
  exists res ps, match_canonical_cfg c (Some p) key cap = Some (res, ps) /\
    match res with
    | None => forall r, r ∈ routes c -> ~ serves r segs key
    | Some r => r ∈ routes c /\ serves r segs key /\
        ps = take cap (take kMaxRouteParams (bind_params (segments (re_path r)) segs)) /\
        forall r', r' ∈ routes c -> serves r' segs key -> ~ outranks (route_rank r' key) (route_rank r key)
    end.
Proof. exact (table_lookup_spec c p key cap). Qed.

Definition table_ex : RouteConfig :=
  snd (add_static (snd (add_static seg_config (Some (bs "/a/:id")) 0 200)) (Some (bs "/a/b")) 1 404).

Lemma table_lookup_best_witness :
  let segs := take kMaxPathSegments (segments (bs "a/b/c")) in
  exists res ps, match_canonical_cfg table_ex (Some (bs "a/b/c")) 1 16 = Some (res, ps) /\
    match res with
    | None => forall r, r ∈ routes table_ex -> ~ serves r segs 1
    | Some r => r ∈ routes table_ex /\ serves r segs 1 /\
        ps = take 16 (take kMaxRouteParams (bind_params (segments (re_path r)) segs)) /\
        forall r', r' ∈ routes table_ex -> serves r' segs 1 -> ~ outranks (route_rank r' 1) (route_rank r 1)
    end.
Proof.
  apply (table_lookup_best table_ex (bs "a/b/c") 1 16); [|lia].
  set (c1 := snd (add_static seg_config (Some (bs "/a/:id")) 0 200)).
  assert (table_inv c1) as H1.
  { apply (add_entry_spec seg_config (Some (bs "/a/:id")) 0 Static 0 200 0 false true c1 seg_config_inv);
      [apply Nat.ltb_lt; vm_compute; reflexivity | lia | vm_compute; reflexivity]. }
  apply (add_entry_spec c1 (Some (bs "/a/b")) 1 Static 0 404 0 false true table_ex H1);
    [apply Nat.ltb_lt; vm_compute; reflexivity | lia | vm_compute; reflexivity].
Defined.

(** ** Bodies and header sets *)

(** The bytes of a registered body, by its 1-based index. *)
Definition body_at (c : RouteConfig) (i : Z) : option (list Z) :=
  if i =? 0 then None else span_bytes (body_pool c) <$> response_bodies c !! Z.to_nat (i - 1).

Record bodies_inv (c : RouteConfig) : Prop := {
  bi_pool : (length (body_pool c) <= kResponseBodyPoolBytes)%nat;
  bi_count : (length (response_bodies c) <= kMaxResponseBodies)%nat;
  bi_spans : Forall (fun s => (fst s + snd s <= length (body_pool c))%nat) (response_bodies c)
}.

(** A registered response body reads back as given, is kept by every later
    registration, and never overruns the 8 KB pool. *)
Theorem response_body_roundtrip c d i c' :
  bodies_inv c -> add_response_body c (Some d) (length d) = (i, c') ->
  bodies_inv c' /\
  (i <> 0 -> body_at c' i = Some d) /\
  (forall j b, body_at c j = Some b -> body_at c' j = Some b).
Proof.
  intros [Hp Hc Hs]. unfold add_response_body.
  destruct (Nat.leb_spec kMaxResponseBodies (length (response_bodies c))) as [H1|H1].
  { intros [= <- <-]. split_and!; [by split | done | done]. }
  rewrite andb_false_r.
  destruct (Nat.ltb_spec (kResponseBodyPoolBytes - length (body_pool c)) (length d)) as [H2|H2].
  { intros [= <- <-]. split_and!; [by split | done | done]. }
  change (default [] (Some d)) with d. rewrite (take_ge d) by lia. intros [= <- <-].
  unfold kMaxResponseBodies in *. rewrite u16_small by lia. split_and!.
  - split; cbn [body_pool response_bodies]; [simp_len; lia | unfold kMaxResponseBodies; simp_len; lia |].
    apply Forall_app. split; [|constructor; [cbn; simp_len; lia | constructor]].
    eapply Forall_impl; [exact Hs|]. cbn. intros s Hsp. simp_len. lia.
  - intros _. unfold body_at. cbn [body_pool response_bodies].
    rewrite (proj2 (Z.eqb_neq _ _)) by lia.
    replace (Z.to_nat (Z.of_nat (length (response_bodies c)) + 1 - 1)) with (length (response_bodies c)) by lia.
    rewrite lookup_app_r, Nat.sub_diag by lia. cbn. unfold span_bytes, sub. cbn.
    by rewrite drop_app_length, take_ge by lia.
  - intros j b. unfold body_at. cbn [body_pool response_bodies]. destruct (j =? 0); [done|].
    destruct (response_bodies c !! Z.to_nat (j - 1)) as [s|] eqn:E; [|done]. intros Hb.
    rewrite lookup_app_l by by eapply lookup_lt_Some. rewrite E. cbn in *. rewrite <- Hb. f_equal.
    unfold span_bytes. apply sub_app_l. rewrite Forall_forall in Hs. apply Hs.
    by eapply list_elem_of_lookup_2.
Qed.

Lemma response_body_roundtrip_witness :
  let c' := snd (add_response_body empty_config (Some (bs "hello")) 5) in
  bodies_inv c' /\ (1 <> 0 -> body_at c' 1 = Some (bs "hello")) /\
  (forall j b, body_at empty_config j = Some b -> body_at c' j = Some b).
Proof.
  apply (response_body_roundtrip empty_config (bs "hello") 1); [|reflexivity].
  split; cbn; [lia | lia | constructor].
Defined.

(** The pairs of a registered header set, by its 1-based index. *)
Definition header_set_at (c : RouteConfig) (i : Z) : option (list (list Z * list Z)) :=
  if i =? 0 then None
  else (fun s : span =>
          zip (span_bytes (header_bytes_pool c) <$> take (snd s) (drop (fst s) (header_keys c)))
              (span_bytes (header_bytes_pool c) <$> take (snd s) (drop (fst s) (header_values c))))
       <$> response_header_sets c !! Z.to_nat (i - 1).

Definition spans_in (pool : list Z) (ss : list span) : Prop :=
  Forall (fun s : span => (fst s + snd s <= length pool)%nat) ss.

Record headers_inv (c : RouteConfig) : Prop := {
  hi_pool : (length (header_bytes_pool c) <= kResponseHeaderBytesPoolBytes)%nat;
  hi_len : length (header_values c) = length (header_keys c);
  hi_cap : (length (header_keys c) <= kMaxHeaderPoolEntries)%nat;
  hi_keys : spans_in (header_bytes_pool c) (header_keys c);
  hi_values : spans_in (header_bytes_pool c) (header_values c);
  hi_sets : Forall (fun s : span => (fst s + snd s <= length (header_keys c))%nat) (response_header_sets c)
}.

Lemma spans_in_app pool more ss : spans_in pool ss -> spans_in (pool ++ more) ss.
Proof. intros H. eapply Forall_impl; [exact H|]. cbn. intros s Hs. simp_len. lia. Qed.

Lemma span_bytes_app pool more ss :
  spans_in pool ss -> span_bytes (pool ++ more) <$> ss = span_bytes pool <$> ss.
Proof.
  intros H. induction H as [|s ss Hs _ IH]; [done|]. rewrite !fmap_cons, IH. f_equal.
  by apply sub_app_l.
Qed.

Lemma copy_headers_spec pool ks vs kvs :
  exists ext nks nvs,
    copy_headers pool ks vs kvs = (pool ++ ext, ks ++ nks, vs ++ nvs) /\
    spans_in (pool ++ ext) nks /\ spans_in (pool ++ ext) nvs /\
    span_bytes (pool ++ ext) <$> nks = kvs.*1 /\ span_bytes (pool ++ ext) <$> nvs = kvs.*2 /\
    Z.of_nat (length ext) = foldr (fun kv acc => Z.of_nat (length kv.1) + Z.of_nat (length kv.2) + acc) 0 kvs.
Proof.
  revert pool ks vs. induction kvs as [|[k v] kvs IH]; intros pool ks vs; cbn [copy_headers].
  - exists [], [], []. rewrite !app_nil_r. split_and!; try done; constructor.
  - destruct (IH (pool ++ k ++ v) (ks ++ [(length pool, length k)])
      (vs ++ [((length pool + length k)%nat, length v)])) as (ext & nks & nvs & -> & H1 & H2 & H3 & H4 & H5).
    exists ((k ++ v) ++ ext), ((length pool, length k) :: nks), (((length pool + length k)%nat, length v) :: nvs).
    rewrite <- !app_assoc in *. cbn [app]. split_and!; try done.
    + constructor; [cbn; simp_len; lia | done].
    + constructor; [cbn; simp_len; lia | done].
    + rewrite !fmap_cons, H3. f_equal. unfold span_bytes, sub. cbn.
      by rewrite drop_app_length, take_app_length.
    + rewrite !fmap_cons, H4. f_equal. unfold span_bytes, sub. cbn.
      rewrite <- drop_drop, !drop_app_length. by rewrite take_app_length.
    + cbn [foldr fst snd]. rewrite <- H5. simp_len. lia.
Qed.

(** Field names up to case. *)
Definition lower_names (ks : list (list Z)) : list (list Z) :=
  (fun k : list Z => tolower <$> k) <$> ks.

Lemma check_headers_spec total seen kvs t :
  check_headers total seen kvs = Some t -> NoDup (lower_names seen) ->
  t = total + foldr (fun kv acc => Z.of_nat (length kv.1) + Z.of_nat (length kv.2) + acc) 0 kvs /\
  Forall (fun kv => validate_response_header kv.1 kv.2 = Ok) kvs /\
  NoDup (lower_names (seen ++ kvs.*1)).
Proof.
  revert total seen. induction kvs as [|[k v] kvs IH]; intros total seen; cbn [check_headers].
  - intros [= <-] Hn. rewrite app_nil_r. split_and!; [cbn; lia | constructor | done].
  - destruct (validate_response_header k v) eqn:Ev; try done.
    destruct (existsb (http_header_name_eq_ci k) seen) eqn:Es; [done|].
    case_if; [done|]. case_if; [done|]. intros H Hn. apply IH in H as (-> & H2 & H3).
    + split_and!; [cbn [foldr fst snd]; lia | by constructor |].
      by rewrite <- app_assoc in H3.
    + unfold lower_names in *. rewrite fmap_app. apply NoDup_app. split_and!; [done | | apply NoDup_singleton].
      intros x Hx Hk. apply list_elem_of_singleton in Hk as ->.
      apply list_elem_of_fmap in Hx as (y & Hxy & Hy).
      assert (existsb (http_header_name_eq_ci k) seen = true); [|congruence].
      apply existsb_exists. exists y. split; [by apply list_elem_of_In | by apply eq_ci_spec].
Qed.

(** A registered header set reads back as given and is kept by later
    registrations; only sets of at most 32 fields that all pass validation and
    have pairwise different names (ignoring case) are registered, and the byte
    and entry pools are never overrun. *)
Theorem header_set_roundtrip c kvs i c' :
  headers_inv c -> add_response_header_set c kvs = (i, c') ->
  headers_inv c' /\
  (i <> 0 -> header_set_at c' i = Some kvs /\ (length kvs <= kMaxHeadersPerSet)%nat /\
     Forall (fun kv => validate_response_header kv.1 kv.2 = Ok) kvs /\ NoDup (lower_names kvs.*1)) /\
  (forall j l, header_set_at c j = Some l -> header_set_at c' j = Some l).
Proof.
  intros Hinv. unfold add_response_header_set.
  case_if; [by intros [= <- <-]|]. case_if; [by intros [= <- <-]|]. case_if; [by intros [= <- <-]|].
  case_if; [by intros [= <- <-]|]. destruct (check_headers 0 [] kvs) as [total|] eqn:Ec; [|by intros [= <- <-]].
  apply check_headers_spec in Ec as (-> & Hok & Hnd); [|constructor].
  case_if; [by intros [= <- <-]|]. zify_bool.
  destruct Hinv as [Hp Hl Hcap Hk Hv Hs].
  destruct (copy_headers_spec (header_bytes_pool c) (header_keys c) (header_values c) kvs)
    as (ext & nks & nvs & -> & H1 & H2 & H3 & H4 & H5).
  assert (length nks = length kvs /\ length nvs = length kvs) as [Hnk Hnv].
  { apply (f_equal length) in H3. apply (f_equal length) in H4. by rewrite !length_fmap in *. }
  intros [= <- <-]. unfold kMaxResponseHeaderSets in *. rewrite u16_small by lia. split_and!.
  - split; cbn [header_bytes_pool header_keys header_values response_header_sets].
    + simp_len. lia.
    + simp_len. lia.
    + simp_len. lia.
    + apply Forall_app. split; [by apply spans_in_app | done].
    + apply Forall_app. split; [by apply spans_in_app | done].
    + apply Forall_app. split; [|constructor; [cbn; simp_len; lia | constructor]].
      eapply Forall_impl; [exact Hs|]. cbn. intros s Hsp. simp_len. lia.
  - intros _. split_and!; try done. unfold header_set_at.
    cbn [header_bytes_pool header_keys header_values response_header_sets].
    rewrite (proj2 (Z.eqb_neq _ _)) by lia.
    replace (Z.to_nat (Z.of_nat (length (response_header_sets c)) + 1 - 1))
      with (length (response_header_sets c)) by lia.
    rewrite lookup_app_r, Nat.sub_diag by lia. cbn [lookup list_lookup fmap option_fmap option_map fst snd].
    rewrite drop_app_length, <- Hl, drop_app_length, !take_ge by lia. rewrite H3, H4. f_equal.
    by rewrite zip_fst_snd.
  - intros j l. unfold header_set_at.
    cbn [header_bytes_pool header_keys header_values response_header_sets]. destruct (j =? 0); [done|].
    destruct (response_header_sets c !! Z.to_nat (j - 1)) as [s|] eqn:Ej; [|done]. intros Hb.
    rewrite lookup_app_l by by eapply lookup_lt_Some. rewrite Ej. cbn in *. rewrite <- Hb. f_equal.
    assert (fst s + snd s <= length (header_keys c))%nat as Hse.
    { rewrite Forall_forall in Hs. apply Hs. by eapply list_elem_of_lookup_2. }
    assert (forall ss more, (fst s + snd s <= length ss)%nat -> spans_in (header_bytes_pool c) ss ->
      span_bytes (header_bytes_pool c ++ ext) <$> take (snd s) (drop (fst s) (ss ++ more)) =
      span_bytes (header_bytes_pool c) <$> take (snd s) (drop (fst s) ss)) as Hsame.
    { intros ss more Hle Hin. rewrite drop_app_le, take_app_le by (rewrite ?length_drop; lia).
      apply span_bytes_app. by apply Forall_take, Forall_drop. }
    rewrite !Hsame by (done || lia). done.
Qed.

Lemma header_set_roundtrip_witness :
  let kvs := [(bs "X-A", bs "1"); (bs "X-B", bs "")] in
  let c' := snd (add_response_header_set empty_config kvs) in
  headers_inv c' /\
  (1 <> 0 -> header_set_at c' 1 = Some kvs /\ (length kvs <= kMaxHeadersPerSet)%nat /\
     Forall (fun kv => validate_response_header kv.1 kv.2 = Ok) kvs /\ NoDup (lower_names kvs.*1)) /\
  (forall j l, header_set_at empty_config j = Some l -> header_set_at c' j = Some l).
Proof.
  apply (header_set_roundtrip empty_config [(bs "X-A", bs "1"); (bs "X-B", bs "")] 1);
    [|vm_compute; reflexivity].
  split; cbn; try lia; constructor.
Defined.
