(* ===== verification/HandlerAbi.v ===== *)
(** * Results of compiled route handlers

    Model of include/rut/jit/handler_abi.h and of the decoding in
    include/rut/runtime/jit_dispatch.h.  A compiled handler returns a packed
    64-bit word; the handlers are generated code, so a handler is an argument.
    An enumeration read from the word keeps the values that have no name. *)

From S2P Require Import Prelude.

Inductive HandlerAction := ReturnStatus | Forward | Yield | OtherAction (n : Z).

Definition action_code (a : HandlerAction) : Z :=
  match a with ReturnStatus => 0 | Forward => 1 | Yield => 2 | OtherAction n => n end.

Definition action_of (n : Z) : HandlerAction :=
  if n =? 0 then ReturnStatus else if n =? 1 then Forward else if n =? 2 then Yield
  else OtherAction n.

Inductive YieldKind :=
  | YHttpGet | YHttpPost | YForward | YTimer | YAny | YRecv | YSend
  | YUpstreamConnect | YUpstreamRecv | YUpstreamSend | OtherYield (n : Z).

#[global] Instance YieldKind_eq_dec : EqDecision YieldKind.
Proof. solve_decision. Defined.

Definition yield_code (k : YieldKind) : Z :=
  match k with
  | YHttpGet => 0 | YHttpPost => 1 | YForward => 2 | YTimer => 3 | YAny => 4 | YRecv => 5
  | YSend => 6 | YUpstreamConnect => 7 | YUpstreamRecv => 8 | YUpstreamSend => 9
  | OtherYield n => n
  end.

Definition yield_of (n : Z) : YieldKind :=
  if n =? 0 then YHttpGet else if n =? 1 then YHttpPost else if n =? 2 then YForward
  else if n =? 3 then YTimer else if n =? 4 then YAny else if n =? 5 then YRecv
  else if n =? 6 then YSend else if n =? 7 then YUpstreamConnect else if n =? 8 then YUpstreamRecv
  else if n =? 9 then YUpstreamSend else OtherYield n.

Record HandlerResult := mkResult {
  action : HandlerAction; status_code : Z; upstream_id : Z; next_state : Z; yield_kind : YieldKind
}.

Definition pack (r : HandlerResult) : Z :=
  let v := action_code (action r) in
  let v := Z.lor v (u64 (Z.shiftl (status_code r) 8)) in
  let v := Z.lor v (u64 (Z.shiftl (upstream_id r) 24)) in
  let v := Z.lor v (u64 (Z.shiftl (next_state r) 40)) in
  Z.lor v (u64 (Z.shiftl (yield_code (yield_kind r)) 56)).

Definition unpack (v : Z) : HandlerResult :=
  mkResult (action_of (Z.land v 255))
    (u16 (Z.land (Z.shiftr v 8) 65535))
    (u16 (Z.land (Z.shiftr v 24) 65535))
    (u16 (Z.land (Z.shiftr v 40) 65535))
    (yield_of (Z.land (Z.shiftr v 56) 255)).

Definition make_status (code : Z) : HandlerResult := mkResult ReturnStatus code 0 0 YHttpGet.
Definition make_forward (upstream : Z) : HandlerResult := mkResult Forward 0 upstream 0 YHttpGet.
Definition make_yield (state : Z) (k : YieldKind) : HandlerResult := mkResult Yield 0 0 state k.
Definition make_yield_payload (state : Z) (k : YieldKind) (payload : Z) : HandlerResult :=
  mkResult Yield (u16 (Z.land payload 65535)) (u16 (Z.land (Z.shiftr payload 16) 65535)) state k.

Definition yield_payload_u32 (r : HandlerResult) : Z :=
  Z.lor (status_code r) (u32 (Z.shiftl (upstream_id r) 16)).

(** ** Dispatch *)

Inductive Kind := KReturnStatus | KForward | KTimerYield | KEventYield | KError.

Record JitDispatchOutcome := mkOutcome {
  kind : Kind;
  o_status_code : Z;
  o_upstream_id : Z;
  o_next_state : Z;
  o_yield_kind : YieldKind;
  timer_ms : Z;
  response_body_idx : Z;
  response_headers_idx : Z
}.

Definition outcome0 : JitDispatchOutcome := mkOutcome KError 0 0 0 YTimer 0 0 0.

(** [fn]: [None] is a null function pointer, [Some] the word the call returned. *)
Definition decode_result (packed : option Z) : JitDispatchOutcome :=
  match packed with
  | None => outcome0
  | Some v =>
      let r := unpack v in
      match action r with
      | ReturnStatus =>
          mkOutcome KReturnStatus (status_code r) 0 0 YTimer 0 (upstream_id r) (next_state r)
      | Forward => mkOutcome KForward 0 (upstream_id r) 0 YTimer 0 0 0
      | Yield =>
          match yield_kind r with
          | YTimer => mkOutcome KTimerYield 0 0 (next_state r) YTimer (yield_payload_u32 r) 0 0
          | YAny | YRecv | YSend | YUpstreamConnect | YUpstreamRecv | YUpstreamSend =>
              mkOutcome KEventYield 0 0 (next_state r) (yield_kind r) (yield_payload_u32 r) 0 0
          | _ => mkOutcome KError 0 0 (next_state r) (yield_kind r) 0 0 0
          end
      | OtherAction _ => outcome0
      end
  end.

Inductive IoEventType :=
  | Accept | Recv | Send | UpstreamConnect | UpstreamRecv | UpstreamSend | Timeout | HandlerTimer.

#[global] Instance IoEventType_eq_dec : EqDecision IoEventType.
Proof. solve_decision. Defined.

Definition yield_kind_matches_event (k : YieldKind) (t : IoEventType) : bool :=
  match k, t with
  | YAny, (Recv | Timeout | HandlerTimer) => true
  | YRecv, Recv => true
  | YSend, Send => true
  | YUpstreamConnect, UpstreamConnect => true
  | YUpstreamRecv, UpstreamRecv => true
  | YUpstreamSend, UpstreamSend => true
  | _, _ => false
  end.

Definition yield_kind_from_event (t : IoEventType) : YieldKind :=
  match t with
  | Recv => YRecv
  | Send => YSend
  | UpstreamConnect => YUpstreamConnect
  | UpstreamRecv => YUpstreamRecv
  | UpstreamSend => YUpstreamSend
  | _ => YTimer
  end.

(** ** Packing *)

Definition action_ok (a : HandlerAction) : Prop :=
  match a with OtherAction n => 3 <= n < 256 | _ => True end.
Definition yield_ok (k : YieldKind) : Prop :=
  match k with OtherYield n => 10 <= n < 256 | _ => True end.

Definition result_ok (r : HandlerResult) : Prop :=
  action_ok (action r) /\ in_u 16 (status_code r) /\ in_u 16 (upstream_id r) /\
  in_u 16 (next_state r) /\ yield_ok (yield_kind r).

Lemma action_of_code a : action_ok a -> action_of (action_code a) = a /\ 0 <= action_code a < 256.
Proof.
  destruct a as [| | |n]; cbn; try (split; [done|lia]). intros H. split; [|lia].
  unfold action_of. destruct (Z.eqb_spec n 0), (Z.eqb_spec n 1), (Z.eqb_spec n 2); try done; lia.
Qed.

Lemma yield_of_code k : yield_ok k -> yield_of (yield_code k) = k /\ 0 <= yield_code k < 256.
Proof.
  destruct k as [| | | | | | | | | |n]; cbn; try (split; [done|lia]). intros H. split; [|lia].
  unfold yield_of. repeat (match goal with |- context [?a =? ?b] => destruct (Z.eqb_spec a b) end; try lia).
  done.
Qed.

Lemma field_of_word lo f hi k w :
  0 <= k -> 0 <= w -> 0 <= lo < 2 ^ k -> 0 <= f < 2 ^ w ->
  Z.land (Z.shiftr (lo + (f + hi * 2 ^ w) * 2 ^ k) k) (Z.ones w) = f.
Proof.
  intros Hk Hw Hlo Hf. rewrite Z.land_ones, Z.shiftr_div_pow2 by done.
  rewrite Z.div_add, (Z.div_small lo) by lia. rewrite Z.add_0_l, Z.mod_add, Z.mod_small by lia. done.
Qed.

(** [pack] puts the fields side by side. *)
Lemma pack_word r :
  result_ok r ->
  pack r = action_code (action r) + (status_code r + (upstream_id r + (next_state r +
    yield_code (yield_kind r) * 2 ^ 16) * 2 ^ 16) * 2 ^ 16) * 2 ^ 8.
Proof.
  intros (Ha & Hs & Hu & Hn & Hy). apply action_of_code in Ha as [_ Ha].
  apply yield_of_code in Hy as [_ Hy]. unfold pack, in_u in *. cbv zeta.
  rewrite !u64_small by (rewrite Z.shiftl_mul_pow2 by lia; lia).
  rewrite (lor_disjoint _ _ 8), (lor_disjoint _ _ 24), (lor_disjoint _ _ 40), (lor_disjoint _ _ 56) by lia.
  lia.
Qed.

Lemma unpack_pack r : result_ok r -> unpack (pack r) = r.
Proof.
  intros Hr. rewrite (pack_word r Hr). destruct Hr as (Ha & Hs & Hu & Hn & Hy).
  apply action_of_code in Ha as [Ha Hac]. apply yield_of_code in Hy as [Hy Hyc].
  destruct r as [a s u n y]. cbn [action status_code upstream_id next_state yield_kind] in *.
  unfold unpack, in_u in *.
  set (ac := action_code a) in *. set (yc := yield_code y) in *.
  change 255 with (Z.ones 8). change 65535 with (Z.ones 16).
  assert (Z.land (ac + (s + (u + (n + yc * 2 ^ 16) * 2 ^ 16) * 2 ^ 16) * 2 ^ 8) (Z.ones 8) = ac) as ->.
  { rewrite Z.land_ones, Z.mod_add, Z.mod_small by lia. done. }
  rewrite (field_of_word ac s _ 8 16) by lia.
  replace (ac + (s + (u + (n + yc * 2 ^ 16) * 2 ^ 16) * 2 ^ 16) * 2 ^ 8)
    with ((ac + s * 2 ^ 8) + (u + (n + yc * 2 ^ 16) * 2 ^ 16) * 2 ^ 24) by lia.
  rewrite (field_of_word _ u _ 24 16) by lia.
  replace (ac + s * 2 ^ 8 + (u + (n + yc * 2 ^ 16) * 2 ^ 16) * 2 ^ 24)
    with ((ac + s * 2 ^ 8 + u * 2 ^ 24) + (n + yc * 2 ^ 16) * 2 ^ 40) by lia.
  rewrite (field_of_word _ n _ 40 16) by lia.
  replace (ac + s * 2 ^ 8 + u * 2 ^ 24 + (n + yc * 2 ^ 16) * 2 ^ 40)
    with ((ac + s * 2 ^ 8 + u * 2 ^ 24 + n * 2 ^ 40) + (yc + 0 * 2 ^ 8) * 2 ^ 56) by lia.
  rewrite (field_of_word _ yc 0 56 8) by lia.
  rewrite !u16_small by lia. by rewrite Ha, Hy.
Qed.

Lemma payload_roundtrip st k p : in_u 32 p -> yield_payload_u32 (make_yield_payload st k p) = p.
Proof.
  unfold in_u. intros Hp. unfold yield_payload_u32, make_yield_payload. cbn [status_code upstream_id].
  change 65535 with (Z.ones 16). rewrite !Z.land_ones, Z.shiftr_div_pow2 by lia.
  assert (0 <= p / 2 ^ 16 < 2 ^ 16) as Hq by (split; [apply Z.div_pos; lia | apply Z.div_lt_upper_bound; lia]).
  pose proof (Z.mod_pos_bound p (2 ^ 16)). rewrite (Z.mod_small (p / 2 ^ 16)) by lia.
  rewrite !u16_small by lia. rewrite u32_small by (rewrite Z.shiftl_mul_pow2 by lia; lia).
  rewrite lor_disjoint by lia. pose proof (Z.div_mod p (2 ^ 16)). lia.
Qed.

(** The handler ABI.  Packing loses nothing; a packed status, forward or
    yield is decoded to the outcome it was made for, with its 32-bit payload,
    and a yield of a kind the runtime does not implement is an error. *)
Theorem handler_abi_roundtrip r :
  result_ok r ->
  unpack (pack r) = r /\
  kind (decode_result (Some (pack r))) =
    match action r with
    | ReturnStatus => KReturnStatus
    | Forward => KForward
    | Yield => match yield_kind r with
               | YTimer => KTimerYield
               | YHttpGet | YHttpPost | YForward | OtherYield _ => KError
               | _ => KEventYield
               end
    | OtherAction _ => KError
    end /\
  (forall st k p, in_u 16 st -> in_u 32 p -> yield_ok k ->
     r = make_yield_payload st k p ->
     kind (decode_result (Some (pack r))) <> KError ->
     timer_ms (decode_result (Some (pack r))) = p /\ o_next_state (decode_result (Some (pack r))) = st /\
     o_yield_kind (decode_result (Some (pack r))) = k).
Proof.
  intros Hr. unfold decode_result. rewrite (unpack_pack r Hr). split; [done|]. split.
  - destruct (action r); try done. by destruct (yield_kind r).
  - intros st k p Hst Hp Hk -> Hne. cbn [action yield_kind next_state make_yield_payload] in *.
    pose proof (payload_roundtrip st k p Hp) as Hpay. unfold make_yield_payload in Hpay.
    destruct k; cbn [kind timer_ms o_next_state o_yield_kind] in *; done.
Qed.

Lemma handler_abi_roundtrip_witness :
  let r := make_yield_payload 7 YTimer 3600000 in
  unpack (pack r) = r /\ kind (decode_result (Some (pack r))) = KTimerYield /\
  (forall st k p, in_u 16 st -> in_u 32 p -> yield_ok k ->
     r = make_yield_payload st k p ->
     kind (decode_result (Some (pack r))) <> KError ->
     timer_ms (decode_result (Some (pack r))) = p /\ o_next_state (decode_result (Some (pack r))) = st /\
     o_yield_kind (decode_result (Some (pack r))) = k).
Proof.
  cbv zeta. apply (handler_abi_roundtrip (make_yield_payload 7 YTimer 3600000)).
  repeat split; by vm_compute.
Defined.
