(* ===== verification/Buffer.v ===== *)
(** * Buffers and views

    Model of include/rut/common/buffer.h.  A [Buffer] is the exclusive holder of
    its storage, so it carries the bytes of the slice it is bound to; [None] is a
    null pointer.  [__builtin_trap] is [Trap]; a copy that would leave the storage
    is [Fault], which the theorems exclude.  A [View] names the buffer whose
    storage it points into, and a [world] is a set of buffers and of views. *)

From S2P Require Import Prelude.

(** ** Outcomes *)

Inductive res (A : Type) := Ret (a : A) | Trap | Fault.
Arguments Ret {A}.
Arguments Trap {A}.
Arguments Fault {A}.

#[global] Instance res_ret : MRet res := fun A a => Ret a.
#[global] Instance res_bind : MBind res := fun A B f m =>
  match m with Ret a => f a | Trap => Trap | Fault => Fault end.

(** ** Buffer *)

Record Buffer := mkBuffer { ptr : option (list Z); len : Z; cap : Z; released : bool }.

(** [Buffer()], [Buffer(ptr, cap)] and [bind]. *)
Definition null_buffer : Buffer := mkBuffer None 0 0 false.
Definition bound_buffer (s : list Z) (c : Z) : Buffer := mkBuffer (Some s) 0 c false.
Definition bind (b : Buffer) (p : option (list Z)) (c : Z) : Buffer := mkBuffer p 0 c false.

Definition set_storage (b : Buffer) (s : list Z) : Buffer := mkBuffer (Some s) (len b) (cap b) (released b).
Definition set_len (b : Buffer) (n : Z) : Buffer := mkBuffer (ptr b) n (cap b) (released b).
Definition set_released (b : Buffer) (r : bool) : Buffer := mkBuffer (ptr b) (len b) (cap b) r.

(** [memmove] into and out of a storage. *)
Definition store (s : list Z) (off : nat) (src : list Z) : res (list Z) :=
  if Nat.leb (off + length src) (length s)
  then Ret (take off s ++ src ++ drop (off + length src) s) else Fault.

Definition load (s : list Z) (off n : nat) : res (list Z) :=
  if Nat.leb (off + n) (length s) then Ret (sub s off n) else Fault.

Definition write (b : Buffer) (src : list Z) : res (Z * Buffer) :=
  if released b then Trap
  else match ptr b with
  | None => Ret (0, b)
  | Some s =>
      let n := Z.of_nat (length src) in
      let avail := u32 (cap b - len b) in
      let to_write := if n <? avail then n else avail in
      if 0 <? to_write then
        s' ← store s (Z.to_nat (len b)) (take (Z.to_nat to_write) src);
        Ret (to_write, set_len (set_storage b s') (u32 (len b + to_write)))
      else Ret (to_write, b)
  end.

(** [read]: the count and the bytes copied out; [View::read] is the same code. *)
Definition read_out (p : option (list Z)) (l max : Z) : res (list Z) :=
  match p with
  | None => Ret []
  | Some s =>
      if max =? 0 then Ret []
      else
        let n := if l <? max then l else max in
        if 0 <? n then load s 0 (Z.to_nat n) else Ret []
  end.

Definition read (b : Buffer) (max : Z) : res (list Z) := read_out (ptr b) (len b) max.

Definition reset (b : Buffer) : res Buffer := if released b then Trap else Ret (set_len b 0).

Definition write_avail (b : Buffer) : res Z :=
  if released b then Trap
  else Ret (match ptr b with Some _ => u32 (cap b - len b) | None => 0 end).

(** A copy of [src] to [write_ptr()], as [recv] or [memmove] does it. *)
Definition fill (b : Buffer) (src : list Z) : res Buffer :=
  if released b then Trap
  else match ptr b with
  | None => Fault
  | Some s => s' ← store s (Z.to_nat (len b)) src; Ret (set_storage b s')
  end.

Definition commit (b : Buffer) (n : Z) : res Buffer :=
  if released b then Trap
  else match ptr b with
  | None => Trap
  | Some _ =>
      if cap b <? u32 (len b + n) then Trap else Ret (set_len b (u32 (len b + n)))
  end.

(** [n] bytes at [data() + off]; none can be read through a null pointer. *)
Definition data_at (b : Buffer) (off n : Z) : res (list Z) :=
  if released b then Trap
  else match ptr b with
  | None => if n =? 0 then Ret [] else Fault
  | Some s => load s (Z.to_nat off) (Z.to_nat n)
  end.

(** Move construction and assignment: the new destination and source. *)
Definition buf_move (dst src : Buffer) : res (Buffer * Buffer) :=
  if released src then Trap
  else if released dst then Trap
  else Ret (mkBuffer (ptr src) (len src) (cap src) (released src), null_buffer).

(** ** Views *)

Record View := mkView { vw_ptr : option nat; vw_len : Z; vw_owner : option nat }.

Definition null_view : View := mkView None 0 None.

Record world := mkWorld { bufs : list Buffer; views : list View }.

Definition release (k : nat) (b : Buffer) : res (View * Buffer) :=
  if released b then Trap
  else match ptr b with
  | None => Ret (null_view, b)
  | Some _ => Ret (mkView (Some k) (len b) (Some k), set_released b true)
  end.

(** [View::restore_owner], on the buffers. *)
Definition restore_owner (bs : list Buffer) (v : View) : list Buffer :=
  match vw_owner v with
  | None => bs
  | Some k => alter (fun b => mkBuffer (ptr b) 0 (cap b) false) k bs
  end.

Inductive op :=
  | OWrite (k : nat) (src : list Z)
  | OReset (k : nat)
  | OFill (k : nat) (src : list Z)
  | OCommit (k : nat) (n : Z)
  | OMove (dst src : nat)
  | ODestroy (k : nat)
  | ORelease (k : nat)
  | OViewMove (dst src : nat)
  | OViewDestroy (j : nat).

(** An operation on buffer [k] or view [j] of the world; one that names no
    object is not a program, and is a [Fault]. *)
Definition on_buf (w : world) (k : nat) (f : Buffer -> res Buffer) : res world :=
  match bufs w !! k with
  | None => Fault
  | Some b => b' ← f b; Ret (mkWorld (<[k := b']> (bufs w)) (views w))
  end.

Definition wstep (w : world) (o : op) : res world :=
  match o with
  | OWrite k src => on_buf w k (fun b => r ← write b src; Ret r.2)
  | OReset k => on_buf w k reset
  | OFill k src => on_buf w k (fun b => fill b src)
  | OCommit k n => on_buf w k (fun b => commit b n)
  | OMove i j =>
      match bufs w !! i, bufs w !! j with
      | Some d, Some s =>
          r ← buf_move d s;
          Ret (if Nat.eqb i j then w else mkWorld (<[j := r.2]> (<[i := r.1]> (bufs w))) (views w))
      | _, _ => Fault
      end
  | ODestroy k => on_buf w k (fun b => if released b then Trap else Ret null_buffer)
  | ORelease k =>
      match bufs w !! k with
      | None => Fault
      | Some b => r ← release k b; Ret (mkWorld (<[k := r.2]> (bufs w)) (views w ++ [r.1]))
      end
  | OViewMove i j =>
      match views w !! i, views w !! j with
      | Some d, Some s =>
          Ret (if Nat.eqb i j then w
               else mkWorld (restore_owner (bufs w) d) (<[j := null_view]> (<[i := s]> (views w))))
      | _, _ => Fault
      end
  | OViewDestroy j =>
      match views w !! j with
      | None => Fault
      | Some v => Ret (mkWorld (restore_owner (bufs w) v) (<[j := null_view]> (views w)))
      end
  end.

Definition wrun (w : world) (os : list op) : res world :=
  foldl (fun r o => w ← r; wstep w o) (Ret w) os.

(** What a reader of view [j] sees. *)
Definition view_bytes (w : world) (j : nat) : option (list Z) :=
  v ← views w !! j;
  k ← vw_ptr v;
  b ← bufs w !! k;
  s ← ptr b;
  Some (take (Z.to_nat (vw_len v)) s).

(** ** Well-formed buffers *)

Definition buf_ok (b : Buffer) : Prop :=
  0 <= len b <= cap b /\ cap b < 2 ^ 32 /\
  match ptr b with Some s => cap b <= Z.of_nat (length s) | None => True end.

(** Bound and not released: what the runtime's connection buffers are. *)
Definition writable (b : Buffer) : Prop := buf_ok b /\ released b = false /\ ptr b <> None.

Definition contents (b : Buffer) : list Z :=
  match ptr b with Some s => take (Z.to_nat (len b)) s | None => [] end.

Definition room (b : Buffer) : Z := cap b - len b.

Lemma length_contents (b : Buffer) : writable b -> Z.of_nat (length (contents b)) = len b.
Proof.
  intros ((Hl & _ & Hp) & _ & Hn). unfold contents. destruct (ptr b); [|done].
  rewrite length_take. lia.
Qed.

Lemma store_ok (s : list Z) (off : nat) (src : list Z) :
  (off + length src <= length s)%nat ->
  store s off src = Ret (take off s ++ src ++ drop (off + length src) s).
Proof. intros. unfold store. by rewrite (proj2 (Nat.leb_le _ _)). Qed.

Lemma load_ok (s : list Z) (off n : nat) : (off + n <= length s)%nat -> load s off n = Ret (sub s off n).
Proof. intros. unfold load. by rewrite (proj2 (Nat.leb_le _ _)). Qed.

(** A store at the end of the contents extends them and nothing else. *)
Lemma stored_contents (s : list Z) (n : nat) (src : list Z) :
  (n + length src <= length s)%nat ->
  let s' := take n s ++ src ++ drop (n + length src) s in
  length s' = length s /\ take (n + length src) s' = take n s ++ src.
Proof.
  intros H. cbv zeta. simp_len. split; [lia|]. rewrite app_assoc, take_app_le by (simp_len; lia).
  apply take_ge. simp_len. lia.
Qed.

Lemma write_spec b src :
  writable b ->
  let n := Z.min (Z.of_nat (length src)) (room b) in
  exists b', write b src = Ret (n, b') /\ writable b' /\ cap b' = cap b /\
    contents b' = contents b ++ take (Z.to_nat n) src /\ len b' = len b + n.
Proof.
  intros Hw n. destruct Hw as ((Hl & Hc & Hp) & Hr & Hn).
  unfold write, room in *. rewrite Hr. destruct (ptr b) as [s|] eqn:Es; [|done].
  change (2 ^ 32) with 4294967296 in *. rewrite u32_small by lia.
  assert ((if Z.of_nat (length src) <? cap b - len b then Z.of_nat (length src) else cap b - len b) = n) as ->.
  { subst n. destruct (Z.ltb_spec (Z.of_nat (length src)) (cap b - len b)); lia. }
  assert (length (take (Z.to_nat n) src) = Z.to_nat n) as Ht by (rewrite length_take; lia).
  destruct (Z.ltb_spec 0 n) as [Hpos|Hz].
  - rewrite store_ok by lia. cbn. eexists. split; [done|].
    destruct (stored_contents s (Z.to_nat (len b)) (take (Z.to_nat n) src) ltac:(lia)) as [Hs' Ht'].
    rewrite u32_small by lia.
    unfold writable, buf_ok, contents. cbn [ptr len cap released set_len set_storage].
    rewrite Es, Hs'. split_and!; try done; try lia.
    rewrite <- Ht', Ht. f_equal. lia.
  - exists b. assert (n = 0) as Hn0 by lia. rewrite Hn0 in *. clear Hn0. split; [done|]. unfold writable, buf_ok.
    rewrite Es, app_nil_r. split_and!; try done; lia.
Qed.

Lemma reset_spec b : writable b ->
  exists b', reset b = Ret b' /\ writable b' /\ cap b' = cap b /\ contents b' = [] /\ len b' = 0 /\ ptr b' = ptr b.
Proof.
  intros ((Hl & Hc & Hp) & Hr & Hn). unfold reset. rewrite Hr. eexists. split; [done|].
  unfold writable, buf_ok, contents. cbn. split_and!; try done; try lia.
  by destruct (ptr b).
Qed.

Lemma fill_commit_spec b src :
  writable b -> Z.of_nat (length src) <= room b ->
  exists b1 b2, fill b src = Ret b1 /\ commit b1 (Z.of_nat (length src)) = Ret b2 /\
    writable b2 /\ cap b2 = cap b /\ contents b2 = contents b ++ src /\
    len b2 = len b + Z.of_nat (length src).
Proof.
  intros ((Hl & Hc & Hp) & Hr & Hn) Hlen. unfold room, fill, commit in *. rewrite Hr.
  destruct (ptr b) as [s|] eqn:Es; [|done]. change (2 ^ 32) with 4294967296 in *.
  rewrite store_ok by lia. cbn. eexists _, _. split; [done|]. cbn. rewrite ?Hr.
  rewrite u32_small by lia.
  destruct (Z.ltb_spec (cap b) (len b + Z.of_nat (length src))); [lia|]. split; [done|].
  destruct (stored_contents s (Z.to_nat (len b)) src ltac:(lia)) as [Hs' Ht'].
  unfold writable, buf_ok, contents. cbn [ptr len cap released set_len set_storage].
  rewrite Es, Hs', Z2Nat.inj_add, Nat2Z.id, Ht' by lia. split_and!; try done; lia.
Qed.

Lemma data_at_spec b off n :
  writable b -> 0 <= off -> 0 <= n -> off + n <= len b ->
  data_at b off n = Ret (sub (contents b) (Z.to_nat off) (Z.to_nat n)).
Proof.
  intros ((Hl & Hc & Hp) & Hr & Hn) ? ? ?. unfold data_at, contents. rewrite Hr.
  destruct (ptr b) as [s|]; [|done]. rewrite load_ok by lia. f_equal. unfold sub.
  rewrite skipn_firstn_comm, take_take. f_equal. lia.
Qed.

(** ** Ownership of the storage

    A released buffer has exactly one live view, which sees the buffer's bytes. *)

Record world_inv (w : world) : Prop := {
  wi_bufs : forall k b, bufs w !! k = Some b -> buf_ok b;
  wi_owner : forall j v k, views w !! j = Some v -> vw_owner v = Some k ->
    exists b, bufs w !! k = Some b /\ released b = true /\ ptr b <> None /\
      vw_ptr v = Some k /\ vw_len v = len b;
  wi_dead : forall j v, views w !! j = Some v -> vw_owner v = None -> vw_ptr v = None;
  wi_unique : forall j1 j2 v1 v2 k, views w !! j1 = Some v1 -> views w !! j2 = Some v2 ->
    vw_owner v1 = Some k -> vw_owner v2 = Some k -> j1 = j2;
  wi_released : forall k b, bufs w !! k = Some b -> released b = true ->
    exists j v, views w !! j = Some v /\ vw_owner v = Some k
}.

(** Operations that only change an unreleased buffer. *)
Lemma world_inv_buf w k b b' :
  world_inv w -> bufs w !! k = Some b -> released b = false -> released b' = false -> buf_ok b' ->
  world_inv (mkWorld (<[k := b']> (bufs w)) (views w)).
Proof.
  intros [H1 H2 H3 H4 H5] Hb Hr Hr' Hok. constructor; cbn; eauto.
  - intros k' x. rewrite list_lookup_insert_Some. intros [(<- & <- & _)|[_ ?]]; eauto.
  - intros j v k' Hv Ho. destruct (H2 j v k' Hv Ho) as (x & Hx & Hrx & ?).
    exists x. rewrite list_lookup_insert_ne by congruence. eauto.
  - intros k' x. rewrite list_lookup_insert_Some. intros [(<- & <- & _)|[_ ?]]; [congruence|eauto].
Qed.

Lemma buf_ok_len b n : buf_ok b -> 0 <= n <= cap b -> buf_ok (set_len b n).
Proof. intros (? & ? & ?) ?. unfold buf_ok. cbn. eauto. Qed.

Lemma buf_ok_set_len_range b n : buf_ok b -> u32 n <= cap b -> buf_ok (set_len b (u32 n)).
Proof. intros. apply buf_ok_len; [done|]. pose proof (wrap_range 32 n). unfold u32 in *. lia. Qed.

Lemma null_buffer_ok : buf_ok null_buffer.
Proof. unfold buf_ok. cbn. lia. Qed.

Lemma fill_ok b src b' : buf_ok b -> fill b src = Ret b' -> buf_ok b' /\ released b' = false.
Proof.
  intros (Hl & Hc & Hp). unfold fill. destruct (released b) eqn:Er; [done|].
  destruct (ptr b) as [s|] eqn:Es; [|done]. unfold store. case_if; cbn; [|done].
  zify_bool. intros [= <-]. unfold buf_ok. cbn. simp_len. split_and!; try done; lia.
Qed.

Lemma commit_ok b n b' : buf_ok b -> commit b n = Ret b' -> buf_ok b' /\ released b' = false.
Proof.
  intros Hb. unfold commit. destruct (released b) eqn:Er; [done|].
  destruct (ptr b) eqn:Es; [|done]. case_if; [done|]. zify_bool. intros [= <-].
  split; [by apply buf_ok_set_len_range | done].
Qed.

Lemma write_ok b src r : buf_ok b -> write b src = Ret r -> buf_ok r.2 /\ released r.2 = false.
Proof.
  intros Hb H. destruct (released b) eqn:Er; [unfold write in H; by rewrite Er in H|].
  destruct (ptr b) as [s|] eqn:Es.
  - destruct (write_spec b src) as (b' & Hw & (? & ? & _) & _); [split_and!; [done | done | congruence]|].
    rewrite Hw in H. by injection H as <-.
  - unfold write in H. rewrite Er, Es in H. by injection H as <-.
Qed.

Lemma reset_ok b b' : buf_ok b -> reset b = Ret b' -> buf_ok b' /\ released b' = false.
Proof.
  unfold reset. intros Hb. destruct (released b) eqn:Er; [done|]. intros [= <-].
  split; [|done]. apply buf_ok_len; [done|]. destruct Hb. lia.
Qed.

Lemma on_buf_inv w k f w' :
  world_inv w -> on_buf w k f = Ret w' ->
  (forall b b', buf_ok b -> f b = Ret b' -> buf_ok b' /\ released b = false /\ released b' = false) ->
  world_inv w'.
Proof.
  intros Hw H Hf. unfold on_buf in H. destruct (bufs w !! k) as [b|] eqn:Eb; [|done].
  destruct (f b) as [b'| |] eqn:Ef; cbn in H; try done. injection H as <-.
  destruct (Hf b b') as (? & ? & ?); [by eapply wi_bufs | done |]. by eapply world_inv_buf.
Qed.

Lemma released_guard {A} (b : Buffer) (m : res A) (x : A) :
  (if released b then Trap else m) = Ret x -> released b = false.
Proof. by destruct (released b). Qed.

(** Giving up a view frees its buffer. *)
Lemma world_inv_drop w j v :
  world_inv w -> views w !! j = Some v ->
  world_inv (mkWorld (restore_owner (bufs w) v) (<[j := null_view]> (views w))).
Proof.
  intros Hw Hv. destruct (Hw) as [H1 H2 H3 H4 H5]. unfold restore_owner.
  assert (forall k x, vw_owner v = Some k -> bufs w !! k = Some x -> buf_ok (mkBuffer (ptr x) 0 (cap x) false)) as Hok.
  { intros k x _ Hx. destruct (H1 _ _ Hx) as (? & ? & ?). unfold buf_ok. cbn. split_and!; eauto; lia. }
  constructor; cbn [bufs views].
  - intros k b. destruct (vw_owner v) as [k0|] eqn:Eo; [|eauto].
    destruct (decide (k = k0)) as [->|Hne]; [|rewrite list_lookup_alter_ne by done; eauto].
    rewrite list_lookup_alter_eq. intros (x & Hx & ->)%fmap_Some_1. eauto.
  - intros j' v' k. rewrite list_lookup_insert_Some. intros [(_ & <- & _)|[Hne Hv']] Ho; [done|].
    destruct (H2 _ _ _ Hv' Ho) as (x & Hx & Hrest). exists x. split; [|done].
    destruct (vw_owner v) as [k0|] eqn:Eo; [|done]. rewrite list_lookup_alter_ne; [done|].
    intros ->. apply Hne. eauto.
  - intros j' v'. rewrite list_lookup_insert_Some. intros [(_ & <- & _)|[Hne Hv']]; [done|eauto].
  - intros j1 j2 v1 v2 k. rewrite !list_lookup_insert_Some.
    intros [(_ & <- & _)|[? ?]] [(_ & <- & _)|[? ?]]; try done. eauto.
  - intros k b Hb Hr. assert (vw_owner v <> Some k /\ bufs w !! k = Some b) as [Hno Hb'].
    { destruct (vw_owner v) as [k0|] eqn:Eo; [|done].
      destruct (decide (k = k0)) as [->|Hne]; [|rewrite list_lookup_alter_ne in Hb by done; naive_solver].
      rewrite list_lookup_alter_eq in Hb. apply fmap_Some_1 in Hb as (x & _ & ->). done. }
    destruct (H5 _ _ Hb' Hr) as (j' & v' & Hv' & Ho). exists j', v'. split; [|done].
    rewrite list_lookup_insert_ne; [done|]. congruence.
Qed.

Lemma world_inv_transfer w i j d s :
  world_inv w -> views w !! i = Some d -> vw_owner d = None -> views w !! j = Some s -> i <> j ->
  world_inv (mkWorld (bufs w) (<[j := null_view]> (<[i := s]> (views w)))).
Proof.
  intros [H1 H2 H3 H4 H5] Hd Hdo Hs Hne.
  assert (forall n v, <[j := null_view]> (<[i := s]> (views w)) !! n = Some v ->
    (n = i /\ v = s) \/ v = null_view \/ (n <> i /\ n <> j /\ views w !! n = Some v)) as Hl.
  { intros n v. rewrite !list_lookup_insert_Some. naive_solver. }
  constructor; cbn [bufs views]; eauto.
  - intros n v k [[_ ->]|[->|(_ & _ & Hv)]]%Hl; [eauto | done | eauto].
  - intros n v [[_ ->]|[->|(_ & _ & Hv)]]%Hl; [eauto | done | eauto].
  - intros n1 n2 v1 v2 k [[-> ->]|[->|(? & Hj & ?)]]%Hl [[-> ->]|[->|(? & Hj' & ?)]]%Hl ? ?;
      try done; [edestruct Hj' | edestruct Hj |]; eauto.
  - intros k b Hb Hr. destruct (H5 _ _ Hb Hr) as (n & v & Hv & Ho).
    destruct (decide (n = j)) as [->|Hnj].
    + exists i, v. split; [|done]. rewrite list_lookup_insert_ne by done.
      rewrite Hs in Hv. injection Hv as ->. apply list_lookup_insert_eq. by eapply lookup_lt_Some.
    + exists n, v. split; [|done]. rewrite !list_lookup_insert_ne by congruence. done.
Qed.

Lemma world_inv_release w k b s :
  world_inv w -> bufs w !! k = Some b -> released b = false -> ptr b = Some s ->
  world_inv (mkWorld (<[k := set_released b true]> (bufs w)) (views w ++ [mkView (Some k) (len b) (Some k)])).
Proof.
  intros [H1 H2 H3 H4 H5] Hb Hr Hs. set (v0 := mkView _ _ _).
  assert (forall n v, (views w ++ [v0]) !! n = Some v ->
    views w !! n = Some v \/ (n = length (views w) /\ v = v0)) as Hl.
  { intros n v [?|[Hlen Hv]]%lookup_app_Some; [by left|right].
    apply list_lookup_singleton_Some in Hv as [? <-]. split; [lia|done]. }
  assert (forall n v, views w !! n = Some v -> vw_owner v <> Some k) as Hfree.
  { intros n v Hv Ho. destruct (H2 _ _ _ Hv Ho) as (x & Hx & Hrx & _). congruence. }
  constructor; cbn [bufs views].
  - intros k' x. rewrite list_lookup_insert_Some. intros [(<- & <- & _)|[_ Hx]]; [|eauto].
    exact (H1 _ _ Hb).
  - intros n v k' [Hv|[_ ->]]%Hl Ho.
    + destruct (H2 _ _ _ Hv Ho) as (x & Hx & Hrest). exists x. split; [|done].
      rewrite list_lookup_insert_ne; [done|]. intros ->. by eapply Hfree.
    + injection Ho as <-. exists (set_released b true). cbn.
      rewrite list_lookup_insert_eq by (by eapply lookup_lt_Some). split_and!; congruence.
  - intros n v [Hv|[_ ->]]%Hl; [eauto | done].
  - intros n1 n2 v1 v2 k' [Hv1|[-> ->]]%Hl [Hv2|[-> ->]]%Hl Ho1 Ho2; eauto.
    + injection Ho2 as <-. by edestruct Hfree.
    + injection Ho1 as <-. by edestruct Hfree.
  - intros k' x. rewrite list_lookup_insert_Some. intros [(<- & <- & _)|[Hne Hx]] Hrx.
    + exists (length (views w)), v0. split; [|done]. by rewrite lookup_app_r, Nat.sub_diag by lia.
    + destruct (H5 _ _ Hx Hrx) as (n & v & Hv & Ho). exists n, v. split; [|done].
      by apply lookup_app_l_Some.
Qed.

Lemma world_inv_null w :
  world_inv w -> world_inv (mkWorld (bufs w) (views w ++ [null_view])).
Proof.
  intros [H1 H2 H3 H4 H5].
  assert (forall n v, (views w ++ [null_view]) !! n = Some v -> views w !! n = Some v \/ v = null_view) as Hl.
  { intros n v [?|[_ Hv]]%lookup_app_Some; [by left|right].
    by apply list_lookup_singleton_Some in Hv as [_ <-]. }
  constructor; cbn [bufs views]; eauto.
  - intros n v k [Hv| ->]%Hl; [eauto | done].
  - intros n v [Hv| ->]%Hl; [eauto | done].
  - intros n1 n2 v1 v2 k [?| ->]%Hl [?| ->]%Hl; try done. eauto.
  - intros k b Hb Hr. destruct (H5 _ _ Hb Hr) as (n & v & ? & ?). exists n, v.
    split; [by apply lookup_app_l_Some | done].
Qed.

Lemma wstep_inv w o w' : world_inv w -> wstep w o = Ret w' -> world_inv w'.
Proof.
  intros Hw. destruct o as [k src|k|k src|k n|i j|k|k|i j|j]; cbn [wstep]; intros H.
  - eapply on_buf_inv; [done..|]. cbn. intros b b' Hb Hf. destruct (write b src) as [r| |] eqn:E; try done.
    injection Hf as <-. pose proof (write_ok _ _ _ Hb E) as [? ?].
    unfold write in E. apply released_guard in E. done.
  - eapply on_buf_inv; [done..|]. intros b b' Hb Hf. pose proof (reset_ok _ _ Hb Hf) as [? ?].
    by apply released_guard in Hf.
  - eapply on_buf_inv; [done..|]. intros b b' Hb Hf. pose proof (fill_ok _ _ _ Hb Hf) as [? ?].
    by apply released_guard in Hf.
  - eapply on_buf_inv; [done..|]. intros b b' Hb Hf. pose proof (commit_ok _ _ _ Hb Hf) as [? ?].
    by apply released_guard in Hf.
  - destruct (bufs w !! i) as [d|] eqn:Ed; [|done]. destruct (bufs w !! j) as [s|] eqn:Es; [|done].
    unfold buf_move in H. destruct (released s) eqn:Ers; [done|]. destruct (released d) eqn:Erd; [done|].
    cbn in H. injection H as <-. destruct (Nat.eqb_spec i j) as [->|Hne]; [done|].
    pose proof (world_inv_buf w i d (mkBuffer (ptr s) (len s) (cap s) false) Hw Ed Erd eq_refl (wi_bufs w Hw _ _ Es)) as Hw1.
    refine (world_inv_buf _ j s null_buffer Hw1 _ Ers eq_refl null_buffer_ok).
    cbn. by rewrite list_lookup_insert_ne.
  - eapply on_buf_inv; [done..|]. cbn. intros b b' Hb. destruct (released b) eqn:E; [done|].
    intros [= <-]. split_and!; [apply null_buffer_ok | done | done].
  - destruct (bufs w !! k) as [b|] eqn:Eb; [|done]. unfold release in H.
    destruct (released b) eqn:Er; [done|]. destruct (ptr b) as [s|] eqn:Ep; cbn in H; injection H as <-.
    + by eapply world_inv_release.
    + rewrite list_insert_id by done. by apply world_inv_null.
  - destruct (views w !! i) as [d|] eqn:Ed; [|done]. destruct (views w !! j) as [s|] eqn:Es; [|done].
    injection H as <-. destruct (Nat.eqb_spec i j) as [->|Hne]; [done|].
    pose proof (world_inv_drop w i d Hw Ed) as Hw1.
    eapply (world_inv_transfer _ i j null_view s) in Hw1; cbn in Hw1 |- *.
    + by rewrite list_insert_insert_eq in Hw1.
    + apply list_lookup_insert_eq. by eapply lookup_lt_Some.
    + done.
    + by rewrite list_lookup_insert_ne.
    + done.
  - destruct (views w !! j) as [v|] eqn:Ev; [|done]. injection H as <-. by apply world_inv_drop.
Qed.

(** ** Properties *)

Definition touches (o : op) (j : nat) : Prop :=
  match o with
  | OViewMove i i' => i <> i' /\ (i = j \/ i' = j)
  | OViewDestroy j' => j' = j
  | _ => False
  end.

Lemma on_buf_keeps w k f w' k' b :
  on_buf w k f = Ret w' -> bufs w !! k' = Some b -> (forall x, f b <> Ret x) ->
  bufs w' !! k' = Some b /\ views w' = views w.
Proof.
  unfold on_buf. destruct (bufs w !! k) as [x|] eqn:Ex; [|done]. intros H Hb Hf.
  destruct (f x) as [y| |] eqn:Ef; try done. injection H as <-. cbn. split; [|done].
  rewrite list_lookup_insert_ne; [done|]. intros ->. naive_solver.
Qed.

Lemma restore_owner_keeps bs v k : vw_owner v <> Some k -> restore_owner bs v !! k = bs !! k.
Proof.
  intros H. unfold restore_owner. destruct (vw_owner v) as [k'|]; [|done].
  apply list_lookup_alter_ne. congruence.
Qed.

(** Neither the storage nor the record of a live view is changed by an
    operation on something else. *)
Lemma live_view_kept w o w' j v k b :
  world_inv w -> wstep w o = Ret w' -> ~ touches o j ->
  views w !! j = Some v -> vw_owner v = Some k -> bufs w !! k = Some b -> released b = true ->
  views w' !! j = Some v /\ bufs w' !! k = Some b.
Proof.
  intros Hw H Ht Hv Ho Hb Hr.
  assert (forall k' f, on_buf w k' f = Ret w' -> (forall x, f b <> Ret x) ->
    views w' !! j = Some v /\ bufs w' !! k = Some b) as Hbuf.
  { intros k' f Hf Hn. destruct (on_buf_keeps _ _ _ _ _ _ Hf Hb Hn) as [? ->]. done. }
  destruct o as [k' src|k'|k' src|k' n|i i'|k'|k'|i i'|j']; cbn [wstep touches] in *.
  1-4, 6: apply (Hbuf _ _ H); unfold write, reset, fill, commit; by rewrite Hr.
  - destruct (bufs w !! i) as [d|] eqn:Ed; [|done]. destruct (bufs w !! i') as [s|] eqn:Es; [|done].
    unfold buf_move in H. destruct (released s) eqn:Ers; [done|]. destruct (released d) eqn:Erd; [done|].
    injection H as <-. case_if; [done|]. cbn. rewrite !list_lookup_insert_ne by congruence. done.
  - destruct (bufs w !! k') as [b'|] eqn:Eb; [|done]. unfold release in H.
    destruct (released b') eqn:Er; [done|].
    destruct (ptr b'); injection H as <-; cbn; rewrite list_lookup_insert_ne by congruence;
      (split; [by apply lookup_app_l_Some | done]).
  - destruct (views w !! i) as [d|] eqn:Ed; [|done]. destruct (views w !! i') as [s|] eqn:Es; [|done].
    injection H as <-. destruct (Nat.eqb_spec i i') as [->|Hne]; [done|]. cbn.
    rewrite !list_lookup_insert_ne by (intros ->; apply Ht; auto). split; [done|].
    rewrite restore_owner_keeps; [done|]. intros Hd. apply Ht. split; [done|]. left.
    by eapply (wi_unique w Hw).
  - destruct (views w !! j') as [v'|] eqn:Ev; [|done]. injection H as <-. cbn.
    rewrite list_lookup_insert_ne by done. split; [done|].
    rewrite restore_owner_keeps; [done|]. intros Hd. apply Ht. by eapply (wi_unique w Hw).
Qed.

Lemma wrun_inv w os w' : world_inv w -> wrun w os = Ret w' -> world_inv w'.
Proof.
  unfold wrun. revert w'. induction os as [|o os IH] using rev_ind; intros w' Hw; cbn.
  - by intros [= <-].
  - rewrite foldl_app. cbn. destruct (foldl _ _ os) as [w1| |] eqn:E; try done. cbn. intros H.
    eapply wstep_inv; [|done]. by apply IH.
Qed.

Lemma fresh_world_inv bs : Forall (fun b => buf_ok b /\ released b = false) bs -> world_inv (mkWorld bs []).
Proof.
  intros H. rewrite Forall_lookup in H. constructor; cbn; try done.
  - intros k b Hb. exact (proj1 (H _ _ Hb)).
  - intros k b Hb Hr. apply H in Hb as [_ ?]. congruence.
Qed.


Definition world_ex : world :=
  mkWorld [mkBuffer (Some [104; 105; 0; 0]) 2 4 true; bound_buffer (replicate 4 0) 4]
    [mkView (Some 0%nat) 2 (Some 0%nat)].


(** Bounded writes.  A write to a bound, unreleased buffer appends the
    longest prefix of the source that fits and returns its length; it never
    leaves the storage, and reading back returns the contents. *)
Theorem write_appends b src :
  writable b ->
  exists b', write b src = Ret (Z.min (Z.of_nat (length src)) (room b), b') /\ writable b' /\
    contents b' = contents b ++ take (Z.to_nat (room b)) src /\
    (forall max, len b' < max -> read b' max = Ret (contents b')).
Proof.
  intros Hw. destruct (write_spec b src Hw) as (b' & Hb' & Hw' & Hc & Hct & Hl).
  exists b'. split_and!; [done | done | |].
  - rewrite Hct. f_equal. destruct (Z.min_spec (Z.of_nat (length src)) (room b)) as [[? ->]|[? ->]]; [|done].
    rewrite !take_ge by lia. done.
  - intros max Hm. destruct Hw' as ((Hl' & _ & Hp) & _ & Hn). unfold read, read_out, contents.
    destruct (ptr b') as [s|]; [|done]. destruct (Z.eqb_spec max 0); [lia|].
    destruct (Z.ltb_spec (len b') max); [|lia]. destruct (Z.ltb_spec 0 (len b')).
    + rewrite load_ok by lia. done.
    + by replace (len b') with 0 by lia.
Qed.

Lemma write_appends_witness :
  exists b', write (bound_buffer (replicate 4 0) 4) (bs "hello") = Ret (4, b') /\ writable b' /\
    contents b' = bs "hell" /\ (forall max, len b' < max -> read b' max = Ret (contents b')).
Proof.
  assert (writable (bound_buffer (replicate 4 0) 4)) as Hw by (repeat split; cbn; done || lia).
  destruct (write_appends (bound_buffer (replicate 4 0) 4) (bs "hello") Hw) as (b' & H1 & H2 & H3 & H4).
  exists b'. split_and!; [exact H1 | exact H2 | exact H3 | exact H4].
Defined.

(** The capacity test of [commit] adds in 32 bits, so a count close to 2^32
    passes it and moves the end of the data backwards instead of trapping; a
    count within the capacity is never accepted wrongly. *)
Theorem commit_wraps :
  (exists b b', writable b /\ commit b 4294967290 = Ret b' /\ len b' < len b) /\
  (forall b n, writable b -> 0 <= n <= cap b -> cap b < 2 ^ 31 ->
     match commit b n with Ret b' => len b' = len b + n /\ len b' <= cap b | _ => cap b < len b + n end).
Proof.
  split.
  - exists (mkBuffer (Some (replicate 16 0)) 10 16 false), (mkBuffer (Some (replicate 16 0)) 4 16 false).
    split_and!; [repeat split; cbn; done || lia | reflexivity | cbn; lia].
  - intros b n ((Hl & _ & _) & Hr & Hn) ? ?. unfold commit. rewrite Hr. destruct (ptr b); [|done].
    change (2 ^ 31) with 2147483648 in *. rewrite u32_small by lia.
    destruct (Z.ltb_spec (cap b) (len b + n)); cbn; lia.
Qed.
