(* ===== verification/Connection.v ===== *)
(** * Connection record

    Model of include/rut/runtime/connection_base.h (and connection.h, the limits
    of common/wait_limits.h and the context header of jit/handler_abi.h): the
    per-connection state the callbacks share.  A callback slot holds the name of
    a callback or null.  Left out are the intrusive list nodes (see TimerWheel),
    the TLS session and the io_uring timespec, which no callback reads, and the
    slice pointers, whose bytes the buffers carry. *)

From S2P Require Import Prelude HttpParser ChunkedParser RouteMethod RouteTrie RouteTable HandlerAbi Buffer.

Inductive BodyMode := BNone | BContentLength | BChunked | BUntilClose.
Inductive ConnState := Idle | ReadingHeader | ReadingBody | ExecHandler | Proxying | Sending.

#[global] Instance BodyMode_eq_dec : EqDecision BodyMode.
Proof. solve_decision. Defined.
#[global] Instance ConnState_eq_dec : EqDecision ConnState.
Proof. solve_decision. Defined.

Inductive Callback :=
  | CHeaderReceived | CResponseSent | CUpstreamConnected | CUpstreamRequestSent | CUpstreamResponse
  | CProxyResponseSent | CResponseHeaderSent | CResponseBodyRecvd | CResponseBodySent
  | CRequestBodySent | CRequestBodyRecvd | CJitRequestBodyRecvd | CEarlyUpstreamRecvd
  | CEarlyUpstreamRecvdSendInflight | CBodySendWithEarlyResponse.

#[global] Instance Callback_eq_dec : EqDecision Callback.
Proof. solve_decision. Defined.

Definition kMaxReqPathLen : nat := 64.
Definition kMaxUpstreamNameLen : nat := 24.
Definition kMaxRouteWaits : nat := 4.
Definition kMaxJitHandlerSlots : nat := kMaxRouteWaits * 2.

(** The context a compiled handler runs in: its slots are 8-byte words. *)
Record HandlerCtx := mkCtx {
  ctx_state : Z;
  ctx_resume_event_kind : YieldKind;
  ctx_resume_event_result : Z;
  ctx_route_params : list RouteParam;
  ctx_slots : list Z
}.

(** [a[off .. off+|l|) = l] on a fixed array. *)
Definition store_at (a : list Z) (off : nat) (l : list Z) : list Z :=
  take off a ++ l ++ drop (off + length l) a.

(** The bytes of a C string: up to the terminator. *)
Fixpoint c_string (a : list Z) : list Z :=
  match a with
  | [] => []
  | b :: a' => if b =? 0 then [] else b :: c_string a'
  end.

Record Connection := mkConnection {
  on_recv : option Callback;
  on_send : option Callback;
  on_upstream_recv : option Callback;
  on_upstream_send : option Callback;
  fd : Z;
  id : Z;
  state : ConnState;
  shard_id : Z;
  upstream_fd : Z;
  upstream_idx : Z;
  handler_state : Z;
  pending_yield_kind : YieldKind;
  resume_event_kind : YieldKind;
  resume_event_result : Z;
  handler_ctx : option HandlerCtx;
  pending_handler_fn : option Z;
  handler_gen : Z;
  request_config : option RouteConfig;
  yield_timer_gen : Z;
  keep_alive : bool;
  pipeline_depth : Z;
  pipeline_stash_len : Z;
  req_header_end : Z;
  req_content_length : Z;
  req_initial_send_len : Z;
  req_malformed : bool;
  req_body_mode : BodyMode;
  req_body_remaining : Z;
  req_chunk_parser : ChunkedParser;
  resp_body_mode : BodyMode;
  resp_body_remaining : Z;
  resp_chunk_parser : ChunkedParser;
  resp_body_sent : Z;
  upstream_send_len : Z;
  recv_armed : bool;
  send_armed : bool;
  upstream_recv_armed : bool;
  upstream_send_armed : bool;
  yield_armed : bool;
  yield_timeout_armed : bool;
  resp_status : Z;
  req_method : LogHttpMethod;
  req_size : Z;
  peer_addr : Z;
  req_path : list Z;
  req_path_canon : option (nat * nat);
  upstream_us : Z;
  upstream_name : list Z;
  upstream_start_us : Z;
  capture_buf : option (list Z);
  capture_header_len : Z;
  req_start_us : Z;
  pending_ops : Z;
  recv_buf : Buffer;
  send_buf : Buffer;
  upstream_recv_buf : Buffer
}.

(** Field update: [with_f v c] is [c] with field [f] set to [v]. *)
Definition conn_eta (c : Connection) : Connection := mkConnection
  (on_recv c) (on_send c) (on_upstream_recv c) (on_upstream_send c) (fd c) (id c) (state c)
  (shard_id c) (upstream_fd c) (upstream_idx c) (handler_state c) (pending_yield_kind c)
  (resume_event_kind c) (resume_event_result c) (handler_ctx c) (pending_handler_fn c)
  (handler_gen c) (request_config c) (yield_timer_gen c) (keep_alive c) (pipeline_depth c)
  (pipeline_stash_len c) (req_header_end c) (req_content_length c) (req_initial_send_len c)
  (req_malformed c) (req_body_mode c) (req_body_remaining c) (req_chunk_parser c)
  (resp_body_mode c) (resp_body_remaining c) (resp_chunk_parser c) (resp_body_sent c)
  (upstream_send_len c) (recv_armed c) (send_armed c) (upstream_recv_armed c)
  (upstream_send_armed c) (yield_armed c) (yield_timeout_armed c) (resp_status c) (req_method c)
  (req_size c) (peer_addr c) (req_path c) (req_path_canon c) (upstream_us c) (upstream_name c)
  (upstream_start_us c) (capture_buf c) (capture_header_len c) (req_start_us c) (pending_ops c)
  (recv_buf c) (send_buf c) (upstream_recv_buf c).

Ltac setter P v :=
  let e := eval cbv delta [conn_eta] in conn_eta in
  match eval pattern P in e with
  | ?F _ => let t := eval cbv beta in (fun c : Connection => F (fun _ => v) c) in exact t
  end.

Definition with_on_recv (v : option Callback) : Connection -> Connection := ltac:(setter on_recv v).
Definition with_on_send (v : option Callback) : Connection -> Connection := ltac:(setter on_send v).
Definition with_on_upstream_recv (v : option Callback) : Connection -> Connection := ltac:(setter on_upstream_recv v).
Definition with_on_upstream_send (v : option Callback) : Connection -> Connection := ltac:(setter on_upstream_send v).
Definition with_fd (v : Z) : Connection -> Connection := ltac:(setter fd v).
Definition with_id (v : Z) : Connection -> Connection := ltac:(setter id v).
Definition with_state (v : ConnState) : Connection -> Connection := ltac:(setter state v).
Definition with_shard_id (v : Z) : Connection -> Connection := ltac:(setter shard_id v).
Definition with_upstream_fd (v : Z) : Connection -> Connection := ltac:(setter upstream_fd v).
Definition with_upstream_idx (v : Z) : Connection -> Connection := ltac:(setter upstream_idx v).
Definition with_handler_state (v : Z) : Connection -> Connection := ltac:(setter handler_state v).
Definition with_pending_yield_kind (v : YieldKind) : Connection -> Connection := ltac:(setter pending_yield_kind v).
Definition with_resume_event_kind (v : YieldKind) : Connection -> Connection := ltac:(setter resume_event_kind v).
Definition with_resume_event_result (v : Z) : Connection -> Connection := ltac:(setter resume_event_result v).
Definition with_handler_ctx (v : option HandlerCtx) : Connection -> Connection := ltac:(setter handler_ctx v).
Definition with_pending_handler_fn (v : option Z) : Connection -> Connection := ltac:(setter pending_handler_fn v).
Definition with_handler_gen (v : Z) : Connection -> Connection := ltac:(setter handler_gen v).
Definition with_request_config (v : option RouteConfig) : Connection -> Connection := ltac:(setter request_config v).
Definition with_yield_timer_gen (v : Z) : Connection -> Connection := ltac:(setter yield_timer_gen v).
Definition with_keep_alive (v : bool) : Connection -> Connection := ltac:(setter keep_alive v).
Definition with_pipeline_depth (v : Z) : Connection -> Connection := ltac:(setter pipeline_depth v).
Definition with_pipeline_stash_len (v : Z) : Connection -> Connection := ltac:(setter pipeline_stash_len v).
Definition with_req_header_end (v : Z) : Connection -> Connection := ltac:(setter req_header_end v).
Definition with_req_content_length (v : Z) : Connection -> Connection := ltac:(setter req_content_length v).
Definition with_req_initial_send_len (v : Z) : Connection -> Connection := ltac:(setter req_initial_send_len v).
Definition with_req_malformed (v : bool) : Connection -> Connection := ltac:(setter req_malformed v).
Definition with_req_body_mode (v : BodyMode) : Connection -> Connection := ltac:(setter req_body_mode v).
Definition with_req_body_remaining (v : Z) : Connection -> Connection := ltac:(setter req_body_remaining v).
Definition with_req_chunk_parser (v : ChunkedParser) : Connection -> Connection := ltac:(setter req_chunk_parser v).
Definition with_resp_body_mode (v : BodyMode) : Connection -> Connection := ltac:(setter resp_body_mode v).
Definition with_resp_body_remaining (v : Z) : Connection -> Connection := ltac:(setter resp_body_remaining v).
Definition with_resp_chunk_parser (v : ChunkedParser) : Connection -> Connection := ltac:(setter resp_chunk_parser v).
Definition with_resp_body_sent (v : Z) : Connection -> Connection := ltac:(setter resp_body_sent v).
Definition with_upstream_send_len (v : Z) : Connection -> Connection := ltac:(setter upstream_send_len v).
Definition with_recv_armed (v : bool) : Connection -> Connection := ltac:(setter recv_armed v).
Definition with_send_armed (v : bool) : Connection -> Connection := ltac:(setter send_armed v).
Definition with_upstream_recv_armed (v : bool) : Connection -> Connection := ltac:(setter upstream_recv_armed v).
Definition with_upstream_send_armed (v : bool) : Connection -> Connection := ltac:(setter upstream_send_armed v).
Definition with_yield_armed (v : bool) : Connection -> Connection := ltac:(setter yield_armed v).
Definition with_yield_timeout_armed (v : bool) : Connection -> Connection := ltac:(setter yield_timeout_armed v).
Definition with_resp_status (v : Z) : Connection -> Connection := ltac:(setter resp_status v).
Definition with_req_method (v : LogHttpMethod) : Connection -> Connection := ltac:(setter req_method v).
Definition with_req_size (v : Z) : Connection -> Connection := ltac:(setter req_size v).
Definition with_peer_addr (v : Z) : Connection -> Connection := ltac:(setter peer_addr v).
Definition with_req_path (v : list Z) : Connection -> Connection := ltac:(setter req_path v).
Definition with_req_path_canon (v : option (nat * nat)) : Connection -> Connection := ltac:(setter req_path_canon v).
Definition with_upstream_us (v : Z) : Connection -> Connection := ltac:(setter upstream_us v).
Definition with_upstream_name (v : list Z) : Connection -> Connection := ltac:(setter upstream_name v).
Definition with_upstream_start_us (v : Z) : Connection -> Connection := ltac:(setter upstream_start_us v).
Definition with_capture_buf (v : option (list Z)) : Connection -> Connection := ltac:(setter capture_buf v).
Definition with_capture_header_len (v : Z) : Connection -> Connection := ltac:(setter capture_header_len v).
Definition with_req_start_us (v : Z) : Connection -> Connection := ltac:(setter req_start_us v).
Definition with_pending_ops (v : Z) : Connection -> Connection := ltac:(setter pending_ops v).
Definition with_recv_buf (v : Buffer) : Connection -> Connection := ltac:(setter recv_buf v).
Definition with_send_buf (v : Buffer) : Connection -> Connection := ltac:(setter send_buf v).
Definition with_upstream_recv_buf (v : Buffer) : Connection -> Connection := ltac:(setter upstream_recv_buf v).

Definition set_slots (r s ur us : option Callback) (c : Connection) : Connection :=
  with_on_upstream_send us (with_on_upstream_recv ur (with_on_send s (with_on_recv r c))).

Definition has_active_slot (c : Connection) : bool :=
  match on_recv c, on_send c, on_upstream_recv c, on_upstream_send c with
  | None, None, None, None => false
  | _, _, _, _ => true
  end.

(** [reset_jit_ctx]: all slots zero. *)
Definition reset_jit_ctx : HandlerCtx := mkCtx 0 YHttpGet 0 [] (replicate kMaxJitHandlerSlots 0).

Definition jit_ctx (c : Connection) : HandlerCtx :=
  match handler_ctx c with Some x => x | None => reset_jit_ctx end.

(** [reset]: the request generation survives. *)
Definition conn_reset (c : Connection) : Connection :=
  mkConnection
    None None None None (-1) 0 Idle 0 (-1) 0 0 YTimer YTimer 0 None None (handler_gen c) None 0
    false 0 0 0 0 0 false BNone 0 ChunkedParser.reset BNone 0 ChunkedParser.reset 0 0 false false
    false false false false 0 LGet 0 0 (store_at (req_path c) 0 [0]) None 0
    (store_at (upstream_name c) 0 [0]) 0 None 0 0 0 null_buffer null_buffer null_buffer.

(** A slot of the connection table before its first use. *)
Definition conn_zero : Connection :=
  mkConnection
    None None None None (-1) 0 Idle 0 (-1) 0 0 YTimer YTimer 0 None None 0 None 0 false 0 0 0 0 0
    false BNone 0 ChunkedParser.reset BNone 0 ChunkedParser.reset 0 0 false false false false false
    false 0 LGet 0 0 (replicate kMaxReqPathLen 0) None 0 (replicate kMaxUpstreamNameLen 0) 0 None 0
    0 0 null_buffer null_buffer null_buffer.
