(* ===== verification/SpscRing.v ===== *)
(** * Single-producer single-consumer rings

    Model of AccessLogRing (src/runtime/access_log.cc) and CaptureRing
    (include/rut/runtime/traffic_capture.h), two copies of one lock-free ring:
    a shard thread pushes, a flusher thread pops.  First the operations as the
    code of one thread, then every interleaving of the two threads' memory
    accesses.  An atomic position is the history of the values stored to it; an
    acquire load returns any of them not older than what the thread saw before,
    so late visibility of the other side is part of the model. *)

From S2P Require Import Prelude.

Section ring.
Context {A : Type} (k : Z).

(** [kCapacity] is a power of two, [kMask = kCapacity - 1]. *)
Definition kCapacity : Z := 2 ^ k.
Definition kMask : Z := kCapacity - 1.

Record Ring := mkRing { write_pos : Z; read_pos : Z; entries : list A }.

(** ** The operations *)

Definition ring_init (junk : list A) : Ring := mkRing 0 0 junk.

(** [wp - rp >= kCapacity] and [entries[wp & kMask]]. *)
Definition is_full (wp rp : Z) : bool := kCapacity <=? u32 (wp - rp).
Definition slot_of (pos : Z) : nat := Z.to_nat (Z.land pos kMask).

Definition ring_push (r : Ring) (e : A) : bool * Ring :=
  if is_full (write_pos r) (read_pos r) then (false, r)
  else (true, mkRing (u32 (write_pos r + 1)) (read_pos r) (<[slot_of (write_pos r) := e]> (entries r))).

Definition ring_pop (r : Ring) : option A * Ring :=
  if read_pos r =? write_pos r then (None, r)
  else match entries r !! slot_of (read_pos r) with
  | Some e => (Some e, mkRing (write_pos r) (u32 (read_pos r + 1)) (entries r))
  | None => (None, r)
  end.

Definition available (r : Ring) : Z := u32 (write_pos r - read_pos r).

(** ** The two threads *)

(** Where a thread is inside its operation: after each load, and after the slot
    access. *)
Inductive producer :=
  | PReady
  | PLoadedWrite (e : A) (wp : Z)
  | PLoadedRead (e : A) (wp rp : Z)
  | PStoredEntry (e : A) (wp : Z).

Inductive consumer :=
  | CReady
  | CLoadedRead (rp : Z)
  | CLoadedWrite (rp wp : Z)
  | CCopied (rp : Z) (out : A).

(** [w_hist] and [r_hist] are the values stored to the two positions, in order;
    [seen_r] and [seen_w] the last index the other thread has loaded. *)
Record Shared := mkShared {
  w_hist : list Z; r_hist : list Z; seen_w : nat; seen_r : nat;
  slots : list A; prod : producer; cons : consumer
}.

Inductive event := Pushed (e : A) | Dropped (e : A) | Popped (e : A) | Empty | Silent.

Definition shared_init (junk : list A) : Shared := mkShared [0] [0] 0 0 junk PReady CReady.

Inductive step : Shared -> event -> Shared -> Prop :=
  | p_call e wp W R sw sr m c :
      last W = Some wp ->
      step (mkShared W R sw sr m PReady c) Silent (mkShared W R sw sr m (PLoadedWrite e wp) c)
  | p_load e wp rp i W R sw sr m c :
      (sr <= i)%nat -> R !! i = Some rp ->
      step (mkShared W R sw sr m (PLoadedWrite e wp) c) Silent (mkShared W R sw i m (PLoadedRead e wp rp) c)
  | p_full e wp rp W R sw sr m c :
      is_full wp rp = true ->
      step (mkShared W R sw sr m (PLoadedRead e wp rp) c) (Dropped e) (mkShared W R sw sr m PReady c)
  | p_entry e wp rp W R sw sr m c :
      is_full wp rp = false ->
      step (mkShared W R sw sr m (PLoadedRead e wp rp) c) Silent
        (mkShared W R sw sr (<[slot_of wp := e]> m) (PStoredEntry e wp) c)
  | p_publish e wp W R sw sr m c :
      step (mkShared W R sw sr m (PStoredEntry e wp) c) (Pushed e)
        (mkShared (W ++ [u32 (wp + 1)]) R sw sr m PReady c)
  | c_call rp W R sw sr m p :
      last R = Some rp ->
      step (mkShared W R sw sr m p CReady) Silent (mkShared W R sw sr m p (CLoadedRead rp))
  | c_load rp wp i W R sw sr m p :
      (sw <= i)%nat -> W !! i = Some wp ->
      step (mkShared W R sw sr m p (CLoadedRead rp)) Silent (mkShared W R i sr m p (CLoadedWrite rp wp))
  | c_empty rp wp W R sw sr m p :
      rp = wp ->
      step (mkShared W R sw sr m p (CLoadedWrite rp wp)) Empty (mkShared W R sw sr m p CReady)
  | c_copy rp wp e W R sw sr m p :
      rp <> wp -> m !! slot_of rp = Some e ->
      step (mkShared W R sw sr m p (CLoadedWrite rp wp)) Silent (mkShared W R sw sr m p (CCopied rp e))
  | c_release rp e W R sw sr m p :
      step (mkShared W R sw sr m p (CCopied rp e)) (Popped e)
        (mkShared W (R ++ [u32 (rp + 1)]) sw sr m p CReady).

(** Executions with their events, latest last. *)
Inductive runs (s0 : Shared) : list event -> Shared -> Prop :=
  | runs_nil : runs s0 [] s0
  | runs_snoc tr s e s' : runs s0 tr s -> step s e s' -> runs s0 (tr ++ [e]) s'.

Definition pushed_of (tr : list event) : list A :=
  omap (fun e => match e with Pushed x => Some x | _ => None end) tr.
Definition popped_of (tr : list event) : list A :=
  omap (fun e => match e with Popped x => Some x | _ => None end) tr.

(** Both threads are about to touch the same slot, one of them to write it. *)
Definition races (s : Shared) : Prop :=
  exists e wp rp rp' wp', prod s = PLoadedRead e wp rp /\ is_full wp rp = false /\
    cons s = CLoadedWrite rp' wp' /\ rp' <> wp' /\ slot_of wp = slot_of rp'.

(** ** Positions *)

Hypothesis Hk : 0 <= k < 32.

Lemma cap_pos : 0 < kCapacity < 4294967296.
Proof using Hk.
  unfold kCapacity. split; [apply Z.pow_pos_nonneg; lia|].
  change 4294967296 with (2 ^ 32). apply Z.pow_lt_mono_r; lia.
Qed.

Lemma u32_sub_pos (a b : Z) : 0 <= a - b < 4294967296 -> u32 (u32 a - u32 b) = a - b.
Proof using.
  intros H. unfold u32, wrap. rewrite <- Zminus_mod. by apply Z.mod_small.
Qed.

Lemma u32_succ (a : Z) : u32 (u32 a + 1) = u32 (a + 1).
Proof using. unfold u32, wrap. by rewrite Zplus_mod_idemp_l. Qed.

Lemma slot_of_pos (n : nat) : slot_of (u32 (Z.of_nat n)) = Z.to_nat (Z.of_nat n mod kCapacity).
Proof using Hk.
  unfold slot_of, kMask. replace (kCapacity - 1) with (Z.ones k) by (rewrite Z.ones_equiv; unfold kCapacity; lia).
  rewrite Z.land_ones by lia. f_equal. unfold u32, wrap, kCapacity.
  assert (2 ^ k <> 0) by (apply Z.pow_nonzero; lia).
  replace (2 ^ 32) with (2 ^ k * 2 ^ (32 - k)) by (rewrite <- Z.pow_add_r by lia; f_equal; lia).
  rewrite Z.rem_mul_r by (first [done | apply Z.pow_pos_nonneg; lia]).
  rewrite (Z.mul_comm (2 ^ k)), Z.mod_add by done. by apply Z.mod_mod.
Qed.

(** Two positions less than a round apart have different slots. *)
Lemma slot_of_inj (m n : nat) :
  slot_of (u32 (Z.of_nat m)) = slot_of (u32 (Z.of_nat n)) ->
  Z.of_nat m <= Z.of_nat n < Z.of_nat m + kCapacity -> m = n.
Proof using Hk.
  rewrite !slot_of_pos. pose proof cap_pos as Hc. intros H Hr.
  pose proof (Z.mod_pos_bound (Z.of_nat m) kCapacity ltac:(lia)) as Hm.
  pose proof (Z.mod_pos_bound (Z.of_nat n) kCapacity ltac:(lia)) as Hn.
  assert (Z.of_nat m mod kCapacity = Z.of_nat n mod kCapacity) as E by lia.
  pose proof (Z.div_mod (Z.of_nat m) kCapacity ltac:(lia)) as Dm.
  pose proof (Z.div_mod (Z.of_nat n) kCapacity ltac:(lia)) as Dn.
  assert (kCapacity * (Z.of_nat n / kCapacity - Z.of_nat m / kCapacity) = Z.of_nat n - Z.of_nat m) by lia.
  assert (Z.of_nat n / kCapacity - Z.of_nat m / kCapacity = 0) by nia. nia.
Qed.

Lemma slot_of_bound (n : nat) (m : list A) :
  Z.of_nat (length m) = kCapacity -> (slot_of (u32 (Z.of_nat n)) < length m)%nat.
Proof using Hk.
  intros Hl. rewrite slot_of_pos. pose proof cap_pos.
  pose proof (Z.mod_pos_bound (Z.of_nat n) kCapacity ltac:(lia)). lia.
Qed.

(** ** The invariant *)

(** [n] stores: the history counts from 0 modulo 2^32. *)
Definition counts (H : list Z) (n : nat) : Prop :=
  length H = S n /\ forall i v, H !! i = Some v -> v = u32 (Z.of_nat i).

Lemma counts_last H n v : counts H n -> last H = Some v -> v = u32 (Z.of_nat n).
Proof using. intros [Hl Hv]. rewrite last_lookup, Hl. apply Hv. Qed.

Lemma counts_snoc H n : counts H n -> counts (H ++ [u32 (u32 (Z.of_nat n) + 1)]) (S n).
Proof using.
  intros [Hl Hv]. split; [simp_len; lia|]. intros i v. rewrite lookup_app_Some.
  intros [Hi | [Hi Hs]]; [by apply Hv|]. apply list_lookup_singleton_Some in Hs as [Hi0 <-].
  assert (i = S n) as -> by lia. rewrite u32_succ. f_equal. lia.
Qed.

Lemma counts_bound H n i v : counts H n -> H !! i = Some v -> (i <= n)%nat /\ v = u32 (Z.of_nat i).
Proof using. intros [Hl Hv] Hi. split; [apply lookup_lt_Some in Hi; lia | by apply Hv]. Qed.

(** [W] entries were pushed and [R] popped; the producer knows of [seen_r] pops,
    the consumer of [seen_w] pushes. *)
Record ring_inv (tr : list event) (s : Shared) : Prop := {
  inv_w : counts (w_hist s) (length (pushed_of tr));
  inv_r : counts (r_hist s) (length (popped_of tr));
  inv_slots : Z.of_nat (length (slots s)) = kCapacity;
  inv_fifo : popped_of tr = take (length (popped_of tr)) (pushed_of tr);
  inv_seen_r : (seen_r s <= length (popped_of tr))%nat;
  inv_seen_w : (length (popped_of tr) <= seen_w s <= length (pushed_of tr))%nat;
  inv_room : Z.of_nat (length (pushed_of tr)) <= Z.of_nat (seen_r s) + kCapacity;
  inv_kept : forall i e, (length (popped_of tr) <= i)%nat -> pushed_of tr !! i = Some e ->
    slots s !! slot_of (u32 (Z.of_nat i)) = Some e;
  inv_prod :
    match prod s with
    | PReady => True
    | PLoadedWrite _ wp => wp = u32 (Z.of_nat (length (pushed_of tr)))
    | PLoadedRead _ wp rp => wp = u32 (Z.of_nat (length (pushed_of tr))) /\ rp = u32 (Z.of_nat (seen_r s))
    | PStoredEntry e wp => wp = u32 (Z.of_nat (length (pushed_of tr))) /\
        Z.of_nat (length (pushed_of tr)) < Z.of_nat (seen_r s) + kCapacity /\ slots s !! slot_of wp = Some e
    end;
  inv_cons :
    match cons s with
    | CReady => True
    | CLoadedRead rp => rp = u32 (Z.of_nat (length (popped_of tr)))
    | CLoadedWrite rp wp => rp = u32 (Z.of_nat (length (popped_of tr))) /\ wp = u32 (Z.of_nat (seen_w s))
    | CCopied rp e => rp = u32 (Z.of_nat (length (popped_of tr))) /\
        (length (popped_of tr) < seen_w s)%nat /\ pushed_of tr !! length (popped_of tr) = Some e
    end
}.

Lemma is_full_pos (w r : nat) :
  Z.of_nat r <= Z.of_nat w <= Z.of_nat r + kCapacity ->
  is_full (u32 (Z.of_nat w)) (u32 (Z.of_nat r)) = (kCapacity <=? Z.of_nat w - Z.of_nat r).
Proof using Hk. intros H. unfold is_full. pose proof cap_pos. rewrite u32_sub_pos; [done | lia]. Qed.

Lemma pos_eq (r w : nat) :
  Z.of_nat r <= Z.of_nat w <= Z.of_nat r + kCapacity -> u32 (Z.of_nat r) = u32 (Z.of_nat w) -> r = w.
Proof using Hk.
  intros H E. pose proof cap_pos. pose proof (u32_sub_pos (Z.of_nat w) (Z.of_nat r) ltac:(lia)) as Hs.
  rewrite E, Z.sub_diag in Hs. change (u32 0) with 0 in Hs. lia.
Qed.

Lemma init_inv junk : Z.of_nat (length junk) = kCapacity -> ring_inv [] (shared_init junk).
Proof using.
  intros Hl. assert (counts [0] 0) as Hc.
  { split; [done|]. intros i v Hi. apply list_lookup_singleton_Some in Hi as [-> <-]. done. }
  split; cbn; try done; try lia.
Qed.

Lemma traces_snoc tr e :
  pushed_of (tr ++ [e]) = pushed_of tr ++ match e with Pushed x => [x] | _ => [] end /\
  popped_of (tr ++ [e]) = popped_of tr ++ match e with Popped x => [x] | _ => [] end.
Proof using. unfold pushed_of, popped_of. rewrite !omap_app. by destruct e. Qed.

(** The entry is written outside the part of the ring in use. *)
Lemma write_keeps tr s e i x :
  ring_inv tr s -> Z.of_nat (length (pushed_of tr)) < Z.of_nat (seen_r s) + kCapacity ->
  (length (popped_of tr) <= i)%nat -> pushed_of tr !! i = Some x ->
  <[slot_of (u32 (Z.of_nat (length (pushed_of tr)))) := e]> (slots s) !! slot_of (u32 (Z.of_nat i)) = Some x.
Proof using Hk.
  intros [] Hroom Hi Hx. pose proof (lookup_lt_Some _ _ _ Hx) as Hlt.
  rewrite list_lookup_insert_ne; [by apply inv_kept0|]. intros E. symmetry in E.
  apply slot_of_inj in E; lia.
Qed.

Lemma push_fifo tr (x : A) :
  popped_of tr = take (length (popped_of tr)) (pushed_of tr) ->
  popped_of tr = take (length (popped_of tr)) (pushed_of tr ++ [x]).
Proof using.
  intros H. assert (length (popped_of tr) <= length (pushed_of tr))%nat by (rewrite H, length_take; lia).
  by rewrite take_app_le.
Qed.

(** Publishing makes the stored entry the newest of the ring. *)
Lemma publish_inv tr e wp W R sw sr m c :
  ring_inv tr (mkShared W R sw sr m (PStoredEntry e wp) c) ->
  ring_inv (tr ++ [Pushed e]) (mkShared (W ++ [u32 (wp + 1)]) R sw sr m PReady c).
Proof using Hk.
  intros []. cbn in *. destruct inv_prod0 as (-> & Hroom & Hm). destruct (traces_snoc tr (Pushed e)) as [E1 E2].
  split; cbn; rewrite ?E1, ?E2, ?app_nil_r, ?length_app; cbn [length]; try done; try lia.
  - rewrite Nat.add_comm. by apply counts_snoc.
  - by apply push_fifo.
  - intros i x Hi. rewrite lookup_app_Some. intros [Hx | [Hge Hx]]; [by apply inv_kept0|].
    apply list_lookup_singleton_Some in Hx as [Hz <-].
    assert (i = length (pushed_of tr)) as -> by lia. done.
  - destruct c as [| | |rp out]; try done. destruct inv_cons0 as (-> & ? & Hl). split_and!; [done | done|].
    by apply lookup_app_l_Some.
Qed.

(** Releasing hands out the oldest entry. *)
Lemma release_inv tr rp e W R sw sr m p :
  ring_inv tr (mkShared W R sw sr m p (CCopied rp e)) ->
  ring_inv (tr ++ [Popped e]) (mkShared W (R ++ [u32 (rp + 1)]) sw sr m p CReady).
Proof using Hk.
  intros []. cbn in *. destruct inv_cons0 as (-> & Hlt & He). destruct (traces_snoc tr (Popped e)) as [E1 E2].
  split; cbn; rewrite ?E1, ?E2, ?app_nil_r, ?length_app; cbn [length]; try done; try lia.
  - rewrite Nat.add_comm. by apply counts_snoc.
  - rewrite Nat.add_comm. cbn. erewrite take_S_r by exact He. by rewrite <- inv_fifo0.
  - intros i x Hi Hx. apply inv_kept0; [lia | done].
Qed.

Lemma step_inv tr s e s' : ring_inv tr s -> step s e s' -> ring_inv (tr ++ [e]) s'.
Proof using Hk.
  intros I Hs. destruct Hs; try (by apply publish_inv); try (by apply release_inv).
  all: pose proof I as []; cbn in *;
    match goal with |- ring_inv (?t ++ [?ev]) _ => destruct (traces_snoc t ev) as [E1 E2] end;
    rewrite ?app_nil_r in E1, E2.
  all: split; cbn; rewrite ?E1, ?E2; try done; try lia.
  - by eapply counts_last.
  - by destruct (counts_bound _ _ _ _ inv_r0 H0).
  - split; [done|]. by destruct (counts_bound _ _ _ _ inv_r0 H0).
  - by rewrite length_insert.
  - destruct inv_prod0 as [-> ->]. rewrite is_full_pos in H by lia. zify_bool.
    intros i x Hi Hx. by apply (write_keeps tr _ e i x I); [cbn; lia | |].
  - destruct inv_prod0 as [-> ->]. rewrite is_full_pos in H by lia. zify_bool. split_and!; [done | lia|].
    apply list_lookup_insert_eq. by apply slot_of_bound.
  - by eapply counts_last.
  - destruct (counts_bound _ _ _ _ inv_w0 H0). lia.
  - split; [done|]. by destruct (counts_bound _ _ _ _ inv_w0 H0).
  - destruct inv_cons0 as [-> ->]. assert (length (popped_of tr) <> sw) by (intros Heq; by rewrite Heq in H).
    split_and!; [done | lia|].
    destruct (lookup_lt_is_Some_2 (pushed_of tr) (length (popped_of tr))) as [x Hx]; [lia|].
    rewrite (inv_kept0 _ _ (Nat.le_refl _) Hx) in H0. by rewrite Hx.
Qed.

Lemma runs_inv junk tr s :
  Z.of_nat (length junk) = kCapacity -> runs (shared_init junk) tr s -> ring_inv tr s.
Proof using Hk. intros Hj. induction 1; [by apply init_inv | by eapply step_inv]. Qed.

Lemma inv_no_race tr s : ring_inv tr s -> ~ races s.
Proof using Hk.
  intros [] (e & wp & rp & rp' & wp' & Hp & Hf & Hc & Hne & Hs). rewrite Hp in inv_prod0. rewrite Hc in inv_cons0.
  destruct inv_prod0 as [-> ->], inv_cons0 as [-> ->]. rewrite is_full_pos in Hf by lia. zify_bool.
  symmetry in Hs. apply slot_of_inj in Hs; [|lia]. assert (seen_w s = length (popped_of tr)) as E by lia.
  by rewrite E in Hne.
Qed.

(** ** What the two threads can rely on *)

(** C14: in every interleaving of a producer and a consumer thread, with any delay
    in what one sees of the other and with positions wrapping at 2^32, entries
    come out in the order they went in, each once and whole; never more than the
    capacity are inside; the two threads never access one slot at the same time;
    a push is refused only when the ring is full as far as the producer can know,
    and a pop only when it is empty as far as the consumer can know. *)
Theorem ring_fifo junk tr s :
  Z.of_nat (length junk) = kCapacity -> runs (shared_init junk) tr s ->
  popped_of tr `prefix_of` pushed_of tr /\
  Z.of_nat (length (pushed_of tr)) <= Z.of_nat (length (popped_of tr)) + kCapacity /\
  ~ races s /\
  (forall e s', step s (Dropped e) s' ->
     (seen_r s <= length (popped_of tr))%nat /\ Z.of_nat (length (pushed_of tr)) = Z.of_nat (seen_r s) + kCapacity) /\
  (forall s', step s Empty s' ->
     (seen_w s <= length (pushed_of tr))%nat /\ length (popped_of tr) = seen_w s).
Proof using Hk.
  intros Hj Hr. pose proof (runs_inv _ _ _ Hj Hr) as I. pose proof (inv_no_race _ _ I) as Hrace. destruct I.
  split_and!; [rewrite inv_fifo0; apply prefix_take | lia | done | |].
  - intros e s' Hs. inversion Hs; subst; cbn in *. destruct inv_prod0 as [-> ->].
    match goal with Hf : is_full _ _ = true |- _ => rewrite is_full_pos in Hf by lia end. zify_bool. lia.
  - intros s' Hs. inversion Hs; subst; cbn in *. destruct inv_cons0 as [-> E].
    split; [lia|]. apply pos_eq in E; lia.
Qed.

(** ** One thread at a time *)

(** The ring holds the queue [q] after [n] pops. *)
Record holds (n : nat) (q : list A) (r : Ring) : Prop := {
  holds_w : write_pos r = u32 (Z.of_nat (n + length q));
  holds_r : read_pos r = u32 (Z.of_nat n);
  holds_len : Z.of_nat (length (entries r)) = kCapacity;
  holds_room : Z.of_nat (length q) <= kCapacity;
  holds_q : forall i e, q !! i = Some e -> entries r !! slot_of (u32 (Z.of_nat (n + i))) = Some e
}.

Lemma holds_init junk : Z.of_nat (length junk) = kCapacity -> holds 0 [] (ring_init junk).
Proof using Hk. intros. pose proof cap_pos. split; cbn; done || lia. Qed.

Lemma push_holds n q r e :
  holds n q r ->
  if Z.of_nat (length q) <? kCapacity
  then exists r', ring_push r e = (true, r') /\ holds n (q ++ [e]) r' else ring_push r e = (false, r).
Proof using Hk.
  intros []. unfold ring_push. rewrite holds_w0, holds_r0, is_full_pos by lia.
  replace (Z.of_nat (n + length q) - Z.of_nat n) with (Z.of_nat (length q)) by lia.
  destruct (Z.ltb_spec (Z.of_nat (length q)) kCapacity); [rewrite (proj2 (Z.leb_gt _ _)) by lia
    | rewrite (proj2 (Z.leb_le _ _)) by lia; done].
  eexists. split; [done|]. split; cbn; rewrite ?length_app, ?length_insert; cbn [length]; try done; try lia.
  - rewrite u32_succ. f_equal. lia.
  - intros i x. rewrite lookup_app_Some. intros [Hx | [Hge Hx]].
    + pose proof (lookup_lt_Some _ _ _ Hx). rewrite list_lookup_insert_ne; [by apply holds_q0|].
      intros E. symmetry in E. apply slot_of_inj in E; lia.
    + apply list_lookup_singleton_Some in Hx as [Hz <-]. replace (n + i)%nat with (n + length q)%nat by lia.
      apply list_lookup_insert_eq. by apply slot_of_bound.
Qed.

Lemma pop_holds n q r :
  holds n q r ->
  match q with
  | [] => ring_pop r = (None, r)
  | e :: q' => exists r', ring_pop r = (Some e, r') /\ holds (S n) q' r'
  end.
Proof using Hk.
  intros []. unfold ring_pop. rewrite holds_w0, holds_r0. destruct q as [|e q].
  - rewrite Nat.add_0_r, Z.eqb_refl. done.
  - cbn [length] in *. rewrite (proj2 (Z.eqb_neq _ _)) by (intros E; apply pos_eq in E; lia).
    pose proof (holds_q0 0%nat e eq_refl) as H0. rewrite Nat.add_0_r in H0. rewrite H0.
    eexists. split; [done|]. split; cbn; try done; try lia.
    + f_equal. lia.
    + rewrite u32_succ. f_equal. lia.
    + intros i x Hx. rewrite <- (holds_q0 (S i) x) by done. do 3 f_equal. lia.
Qed.

Lemma available_holds n q r : holds n q r -> available r = Z.of_nat (length q).
Proof using Hk.
  intros []. unfold available. rewrite holds_w0, holds_r0. pose proof cap_pos. rewrite u32_sub_pos; lia.
Qed.

(** The memory of the threads as one ring, when the producer sees all of it. *)
Definition memory (s : Shared) (r : Ring) : Prop :=
  last (w_hist s) = Some (write_pos r) /\ last (r_hist s) = Some (read_pos r) /\ slots s = entries r /\
  S (seen_r s) = length (r_hist s) /\ S (seen_w s) = length (w_hist s).

(** An uninterrupted push of the threads is [ring_push]. *)
Lemma push_is_run s0 tr s r e :
  runs s0 tr s -> memory s r -> prod s = PReady ->
  exists tr' s', runs s0 (tr ++ tr') s' /\ prod s' = PReady /\ cons s' = cons s /\
    slots s' = entries (ring_push r e).2 /\ last (w_hist s') = Some (write_pos (ring_push r e).2) /\
    pushed_of tr' = if (ring_push r e).1 then [e] else [].
Proof using.
  intros Hr (HW & HR & Hm & Hsr & _) Hp. destruct s as [W R sw sr m p c]. cbn in *. subst p m.
  assert (R !! sr = Some (read_pos r)) as HRs.
  { rewrite last_lookup in HR. by replace (pred (length R)) with sr in HR by lia. }
  assert (runs s0 ((tr ++ [Silent]) ++ [Silent])
    (mkShared W R sw sr (entries r) (PLoadedRead e (write_pos r) (read_pos r)) c)) as H2.
  { eapply runs_snoc; [eapply runs_snoc; [exact Hr|]; by apply p_call|]. by apply p_load. }
  rewrite <- !app_assoc in H2. unfold ring_push. destruct (is_full (write_pos r) (read_pos r)) eqn:Hf.
  - eexists ([Silent] ++ [Silent] ++ [Dropped e]), _. rewrite !app_assoc. rewrite !app_assoc in H2.
    split; [eapply runs_snoc; [exact H2|]; by apply p_full|]. by cbn.
  - eexists ([Silent] ++ [Silent] ++ [Silent] ++ [Pushed e]), _. rewrite !app_assoc. rewrite !app_assoc in H2.
    split; [eapply runs_snoc; [eapply runs_snoc; [exact H2|]; by apply p_entry|]; by apply p_publish|].
    cbn. by rewrite last_snoc.
Qed.
End ring.

(** A push and a pop on an access-log ring. *)
Definition ex_ring : list Z := replicate 512 0.
Definition ex_events : list (@event Z) := [Silent; Silent; Silent; Pushed 7; Silent; Silent; Silent; Popped 7].

Definition ex_end : @Shared Z := mkShared [0; 1] [0; 1] 1 0 (<[0%nat := 7]> ex_ring) PReady CReady.

Lemma ex_run : runs 9 (shared_init ex_ring) ex_events ex_end.
Proof.
  change ex_events with ((((((((([] ++ [Silent]) ++ [Silent]) ++ [Silent]) ++ [Pushed 7]) ++ [Silent]) ++ [Silent]) ++
    [Silent]) ++ [Popped 7]) : list (@event Z)).
  eapply runs_snoc; [|exact (c_release 9 0 7 [0; 1] [0] 1 0 (<[0%nat := 7]> ex_ring) PReady)].
  eapply runs_snoc; [|eapply (c_copy 9 0 1 7); [done | reflexivity]].
  eapply runs_snoc; [|exact (c_load 9 0 1 1 [0; 1] [0] 0 0 (<[0%nat := 7]> ex_ring) PReady (Nat.le_succ_diag_r 0) eq_refl)].
  eapply runs_snoc; [|apply c_call; reflexivity].
  eapply runs_snoc; [|exact (p_publish 9 7 0 [0] [0] 0 0 (<[0%nat := 7]> ex_ring) CReady)].
  eapply runs_snoc; [|exact (p_entry 9 7 0 0 [0] [0] 0 0 ex_ring CReady eq_refl)].
  eapply runs_snoc; [|exact (p_load 9 7 0 0 0 [0] [0] 0 0 ex_ring CReady (Nat.le_refl 0) eq_refl)].
  eapply runs_snoc; [|apply p_call; reflexivity].
  apply runs_nil.
Qed.

Lemma ring_fifo_witness :
  popped_of ex_events = [7] /\ popped_of ex_events `prefix_of` pushed_of ex_events /\ ~ races 9 ex_end.
Proof.
  split; [reflexivity|].
  destruct (ring_fifo 9 ltac:(lia) ex_ring ex_events ex_end eq_refl ex_run) as (H1 & _ & H2 & _). by split.
Defined.
