(* ===== verification/AccessLog.v ===== *)
(** * The access log

    Model of src/runtime/access_log.cc: the text of a log line, the write loop of
    the flusher and the flush of all rings.  [gmtime_r] is modelled as the
    Gregorian calendar, and proved to be it.  The answers of [poll] and [write]
    are an argument.  The zstd stream and the start of the flusher thread are
    left out. *)

From S2P Require Import Prelude HttpParser RouteMethod Connection SpscRing.

(** ** Entries *)

Record AccessLogEntry := mkEntry {
  timestamp_us : Z; duration_us : Z; le_req_size : Z; le_resp_size : Z; le_upstream_us : Z;
  le_addr : Z; le_status : Z; le_method : LogHttpMethod; le_shard_id : Z;
  le_path : list Z; le_upstream : list Z
}.

Definition kPathSize : nat := 64.
Definition kUpstreamSize : nat := 24.

(** ** Text *)

Definition dig (n : Z) : Z := 48 + n.

(** [while (val > 0) tmp[n++] = '0' + val % 10]: a write outside the [size] bytes
    of [tmp] is [None]. *)
Fixpoint dec_loop (size fuel : nat) (val : Z) (tmp : list Z) : option (list Z) :=
  match fuel with
  | O => None
  | S fuel' =>
      if 0 <? val then
        if Nat.ltb (length tmp) size then dec_loop size fuel' (val / 10) (tmp ++ [dig (val mod 10)]) else None
      else Some tmp
  end.

(** The digits, most significant first. *)
Definition dec_digits (size : nat) (val : Z) : option (list Z) :=
  if val =? 0 then Some [dig 0] else reverse <$> dec_loop size (S size) val [].

Definition write_u64_dec (val : Z) : option (list Z) := dec_digits 20 val.

Definition method_str (m : LogHttpMethod) : list Z :=
  match m with
  | LGet => bs "GET" | LPost => bs "POST" | LPut => bs "PUT" | LDelete => bs "DELETE"
  | LPatch => bs "PATCH" | LHead => bs "HEAD" | LOptions => bs "OPTIONS"
  | LConnect => bs "CONNECT" | LTrace => bs "TRACE" | LOther => bs "OTHER"
  end.

(** *** The calendar of [gmtime_r] *)

Record Tm := mkTm { tm_year : Z; tm_mon : Z; tm_mday : Z; tm_hour : Z; tm_min : Z; tm_sec : Z }.

(** Days before a year and in a month, counted from 0001-01-01. *)
Definition is_leap (y : Z) : bool := (y mod 4 =? 0) && (negb (y mod 100 =? 0) || (y mod 400 =? 0)).
Definition days_before_year (y : Z) : Z := 365 * (y - 1) + (y - 1) / 4 - (y - 1) / 100 + (y - 1) / 400.
Definition month_lengths (y : Z) : list Z := [31; if is_leap y then 29 else 28; 31; 30; 31; 30; 31; 31; 30; 31; 30; 31].

(** An estimate of the year, then its correction by one. *)
Definition year_of (n : Z) : Z :=
  let y := n * 400 / 146097 + 1 in
  if n <? days_before_year y then y - 1 else if days_before_year (y + 1) <=? n then y + 1 else y.

(** Months are walked through from January. *)
Fixpoint month_of (lengths : list Z) (m day : Z) : Z * Z :=
  match lengths with
  | [] => (m, day)
  | len :: rest => if day <? len then (m, day) else month_of rest (m + 1) (day - len)
  end.

Definition kUnixEpochDay : Z := 719162.

Definition civil_from_days (days : Z) : Z * Z * Z :=
  let n := days + kUnixEpochDay in
  let y := year_of n in
  let '(m, d) := month_of (month_lengths y) 1 (n - days_before_year y) in
  (y, m, d + 1).

(** The fields are those of [struct tm]: years from 1900, months from 0. *)
Definition gmtime_r (t : Z) : Tm :=
  let '(y, m, d) := civil_from_days (t / 86400) in
  let s := t mod 86400 in
  mkTm (y - 1900) (m - 1) d (s / 3600) (s / 60 mod 60) (s mod 60).

Definition two (n : Z) : list Z := [dig (n / 10); dig (n mod 10)].

Definition format_timestamp (timestamp : Z) : list Z :=
  let secs := timestamp / 1000000 in
  let millis := (timestamp mod 1000000) / 1000 in
  let tm := gmtime_r secs in
  let year := u32 (tm_year tm + 1900) in
  let mon := u32 (tm_mon tm + 1) in
  [dig (year / 1000); dig (year / 100 mod 10); dig (year / 10 mod 10); dig (year mod 10); ch "-"] ++
  two mon ++ [ch "-"] ++ two (tm_mday tm) ++ [ch "T"] ++ two (tm_hour tm) ++ [ch ":"] ++
  two (tm_min tm) ++ [ch ":"] ++ two (tm_sec tm) ++ [ch "."] ++
  [dig (millis / 100); dig (millis / 10 mod 10); dig (millis mod 10); ch "Z"].

(** *** Addresses: the bytes of the word as they lie in memory *)

Definition octet (addr : Z) (i : Z) : Z := u8 (Z.shiftr addr (8 * i)).

Definition octet_text (o : Z) : list Z :=
  (if 100 <=? o then [dig (o / 100)] else []) ++ (if 10 <=? o then [dig (o / 10 mod 10)] else []) ++ [dig (o mod 10)].

Definition format_ipv4 (addr : Z) : list Z :=
  octet_text (octet addr 0) ++ [ch "."] ++ octet_text (octet addr 1) ++ [ch "."] ++
  octet_text (octet addr 2) ++ [ch "."] ++ octet_text (octet addr 3).

(** [for (i = 0; i < path_len && w + 80 < buf_size; i++) buf[w++] = path[i]] *)
Fixpoint copy_path (path : list Z) (w buf_size : Z) : list Z :=
  match path with
  | [] => []
  | b :: rest => if w + 80 <? buf_size then b :: copy_path rest (w + 1) buf_size else []
  end.

Definition format_access_log_text (e : AccessLogEntry) (buf_size : Z) : option (list Z) :=
  if buf_size <? 256 then Some []
  else
    let head := format_timestamp (timestamp_us e) ++ [SP] ++ method_str (le_method e) ++ [SP] in
    let path := copy_path (c_string (le_path e)) (Z.of_nat (length head)) buf_size in
    status ← write_u64_dec (le_status e);
    duration ← write_u64_dec (duration_us e);
    req ← write_u64_dec (le_req_size e);
    resp ← write_u64_dec (le_resp_size e);
    up ← write_u64_dec (le_upstream_us e);
    shard ← write_u64_dec (le_shard_id e);
    let upstream :=
      if nth 0 (le_upstream e) 0 =? 0 then []
      else [SP] ++ c_string (le_upstream e) ++ [SP] ++ up ++ bs "us" in
    Some (head ++ path ++ [SP] ++ status ++ [SP] ++ duration ++ bs "us " ++ req ++ [SP] ++ resp ++ [SP] ++
          format_ipv4 (le_addr e) ++ upstream ++ bs " s=" ++ shard ++ [LF]).

(** ** Writing to the descriptor *)

(** An answer of [poll], and of the [write] that follows a ready one. *)
Inductive WriteAnswer := Wrote (n : Z) | Transient | WriteFailed.
Inductive PollAnswer := PollTimeout (running : bool) | PollIntr | PollFailed | PollHangup | PollReady (w : WriteAnswer).

Definition kChunkSize : Z := 4096.

(** [None]: still polling when the answers end. *)
Fixpoint write_with_poll (answers : list PollAnswer) (buf : list Z) (written stall max_stall : Z)
    : option bool * list Z * list PollAnswer :=
  if negb (written <? Z.of_nat (length buf)) then (Some true, take (Z.to_nat written) buf, answers)
  else match answers with
  | [] => (None, take (Z.to_nat written) buf, [])
  | PollTimeout running :: rest =>
      if running then write_with_poll rest buf written stall max_stall
      else if max_stall <=? stall + 1 then (Some false, take (Z.to_nat written) buf, rest)
      else write_with_poll rest buf written (stall + 1) max_stall
  | PollIntr :: rest => write_with_poll rest buf written stall max_stall
  | PollFailed :: rest | PollHangup :: rest => (Some false, take (Z.to_nat written) buf, rest)
  | PollReady w :: rest =>
      let to_write := Z.min (Z.of_nat (length buf) - written) kChunkSize in
      match w with
      | Wrote n =>
          if 0 <? n then write_with_poll rest buf (written + Z.min n to_write) 0 max_stall
          else (Some false, take (Z.to_nat written) buf, rest)
      | Transient => write_with_poll rest buf written stall max_stall
      | WriteFailed => (Some false, take (Z.to_nat written) buf, rest)
      end
  end.

(** ** Flushing the rings *)

(** A flush in progress: what it put on the descriptor, the answers left, the
    batch, the entries counted. *)
Record Flush := mkFlush { out : list Z; io : list PollAnswer; batch : list Z; total : Z }.

Inductive flush_end := FlushOk | FlushFailed | FlushBlocked | FlushFault.

Definition kBatchSize : Z := 65536.

(** [flush_batch] without compression. *)
Definition flush_batch (f : Flush) : flush_end * Flush :=
  let '(r, sent, rest) := write_with_poll (io f) (batch f) 0 0 50 in
  let f' := mkFlush (out f ++ sent) rest (batch f) (total f) in
  (match r with Some true => FlushOk | Some false => FlushFailed | None => FlushBlocked end, f').

(** One entry: its line joins the batch, which is written first when it is full. *)
Definition flush_entry (e : AccessLogEntry) (f : Flush) : flush_end * Flush :=
  match format_access_log_text e 512 with
  | None => (FlushFault, f)
  | Some line =>
      let count f := mkFlush (out f) (io f) (batch f) (u32 (total f + 1)) in
      match line with
      | [] => (FlushOk, count f)
      | _ :: _ =>
          let append f := count (mkFlush (out f) (io f) (batch f ++ line) (total f)) in
          if kBatchSize <? Z.of_nat (length (batch f)) + Z.of_nat (length line) then
            match flush_batch f with
            | (FlushOk, f') => (FlushOk, append (mkFlush (out f') (io f') [] (total f')))
            | (x, f') => (x, f')
            end
          else (FlushOk, append f)
      end
  end.

(** [while (rings[i]->pop(entry))] *)
Fixpoint flush_ring (fuel : nat) (r : @Ring AccessLogEntry) (f : Flush) : flush_end * @Ring AccessLogEntry * Flush :=
  match fuel with
  | O => (FlushFault, r, f)
  | S fuel' =>
      match ring_pop 9 r with
      | (None, r') => (FlushOk, r', f)
      | (Some e, r') =>
          match flush_entry e f with
          | (FlushOk, f') => flush_ring fuel' r' f'
          | (x, f') => (x, r', f')
          end
      end
  end.

Fixpoint flush_rings (rs : list (@Ring AccessLogEntry)) (f : Flush) : flush_end * list (@Ring AccessLogEntry) * Flush :=
  match rs with
  | [] => (FlushOk, [], f)
  | r :: rest =>
      match flush_ring 513 r f with
      | (FlushOk, r', f') => let '(x, rest', f'') := flush_rings rest f' in (x, r' :: rest', f'')
      | (x, r', f') => (x, r' :: rest, f')
      end
  end.

Definition flush_once (rs : list (@Ring AccessLogEntry)) (answers : list PollAnswer)
    : flush_end * list (@Ring AccessLogEntry) * Flush :=
  match flush_rings rs (mkFlush [] answers [] 0) with
  | (FlushOk, rs', f) =>
      match batch f with
      | [] => (FlushOk, rs', f)
      | _ :: _ => let '(x, f') := flush_batch f in (x, rs', f')
      end
  | other => other
  end.

(** ** Decimal text *)

Lemma dec_value_snoc acc l d : dec_value acc (l ++ [d]) = dec_value acc l * 10 + (d - 48).
Proof. unfold dec_value. rewrite foldl_app. done. Qed.

(** A value below [10^n] takes at most [n] digits, least significant first. *)
Lemma dec_loop_spec size n : forall fuel v tmp,
  (n < fuel)%nat -> (length tmp + n <= size)%nat -> 0 <= v < 10 ^ Z.of_nat n ->
  exists ds, dec_loop size fuel v tmp = Some (tmp ++ ds) /\ (length ds <= n)%nat /\ Forall is_dec ds /\
    dec_value 0 (reverse ds) = v /\ (0 < v -> ds <> []).
Proof.
  induction n as [|n IH]; intros fuel v tmp Hf Ht Hv; (destruct fuel as [|fuel]; [lia|]); cbn [dec_loop].
  - change (10 ^ Z.of_nat 0) with 1 in Hv. rewrite (proj2 (Z.ltb_ge 0 v)) by lia. exists []. rewrite app_nil_r.
    split_and!; [done | done | done | cbn; lia | lia].
  - destruct (Z.ltb_spec 0 v); [|exists []; rewrite app_nil_r; split_and!; [done | cbn; lia | done | cbn; lia | lia]].
    rewrite (proj2 (Nat.ltb_lt _ _)) by lia.
    rewrite Nat2Z.inj_succ, Z.pow_succ_r in Hv by lia.
    destruct (IH fuel (v / 10) (tmp ++ [dig (v mod 10)])) as (ds & Hd & Hl & Hds & Hval & _);
      [lia | simp_len; lia | split; [apply Z.div_pos; lia | apply Z.div_lt_upper_bound; lia] |].
    exists (dig (v mod 10) :: ds). rewrite Hd, <- app_assoc. pose proof (Z.mod_pos_bound v 10 ltac:(lia)).
    split_and!; [done | cbn; lia | constructor; [|done] | | done].
    + unfold is_dec, dig. change (ch "0") with 48; change (ch "9") with 57; lia.
    + rewrite reverse_cons, dec_value_snoc, Hval. unfold dig. pose proof (Z.div_mod v 10 ltac:(lia)). lia.
Qed.

Lemma dec_digits_spec size n v :
  (0 < n <= size)%nat -> 0 <= v < 10 ^ Z.of_nat n ->
  exists ds, dec_digits size v = Some ds /\ (length ds <= n)%nat /\ ds <> [] /\ Forall is_dec ds /\ dec_value 0 ds = v.
Proof.
  intros Hn Hv. unfold dec_digits. destruct (Z.eqb_spec v 0) as [->|].
  - exists [dig 0]. split_and!; [done | cbn; lia | done | by repeat constructor | done].
  - destruct (dec_loop_spec size n (S size) v []) as (ds & -> & Hl & Hd & Hval & Hne); [lia | cbn; lia | lia |].
    exists (reverse ds). cbn [fmap option_fmap option_map app]. rewrite length_reverse. split_and!; try done.
    + intros E. apply Hne; [lia|]. rewrite <- (reverse_involutive ds), E. done.
    + by apply Forall_reverse.
Qed.

Lemma write_u64_dec_spec n v :
  (0 < n <= 20)%nat -> 0 <= v < 10 ^ Z.of_nat n ->
  exists ds, write_u64_dec v = Some ds /\ (length ds <= n)%nat /\ ds <> [] /\ Forall is_dec ds /\ dec_value 0 ds = v.
Proof. apply dec_digits_spec. Qed.

(** ** Every line is written whole *)

Record entry_ok (e : AccessLogEntry) : Prop := {
  ok_ts : 0 <= timestamp_us e < 2 ^ 64;
  ok_duration : 0 <= duration_us e < 2 ^ 32;
  ok_req : 0 <= le_req_size e < 2 ^ 32;
  ok_resp : 0 <= le_resp_size e < 2 ^ 32;
  ok_up : 0 <= le_upstream_us e < 2 ^ 32;
  ok_addr : 0 <= le_addr e < 2 ^ 32;
  ok_status : 0 <= le_status e < 2 ^ 16;
  ok_shard : 0 <= le_shard_id e < 2 ^ 8;
  ok_path : length (le_path e) = kPathSize;
  ok_upstream : length (le_upstream e) = kUpstreamSize
}.

(** The fields of a line, in order. *)
Definition line_fields (e : AccessLogEntry) (status duration req resp up shard : list Z) : list (list Z) :=
  [format_timestamp (timestamp_us e); method_str (le_method e); c_string (le_path e); status;
   duration ++ bs "us"; req; resp; format_ipv4 (le_addr e)] ++
  (if nth 0 (le_upstream e) 0 =? 0 then [] else [c_string (le_upstream e); up ++ bs "us"]) ++ [bs "s=" ++ shard].

(** Fields with a separator between them. *)
Fixpoint joined (sep : Z) (fs : list (list Z)) : list Z :=
  match fs with
  | [] => []
  | [f] => f
  | f :: rest => f ++ [sep] ++ joined sep rest
  end.

Lemma c_string_length a : (length (c_string a) <= length a)%nat.
Proof. induction a as [|b a IH]; cbn; [lia|]. case_if; cbn; lia. Qed.

Lemma copy_path_all path w buf_size :
  w + Z.of_nat (length path) + 79 < buf_size -> copy_path path w buf_size = path.
Proof.
  revert w. induction path as [|b path IH]; intros w H; cbn in *; [done|].
  rewrite (proj2 (Z.ltb_lt _ _)) by lia. rewrite IH by lia. done.
Qed.

Lemma timestamp_length t : length (format_timestamp t) = 24%nat.
Proof. done. Qed.

Lemma method_str_length m : (length (method_str m) <= 7)%nat.
Proof. destruct m; cbn; lia. Qed.

Lemma ipv4_length a : (length (format_ipv4 a) <= 15)%nat.
Proof.
  unfold format_ipv4. rewrite !length_app. cbn [length].
  assert (forall o, length (octet_text o) <= 3)%nat as H.
  { intros o. unfold octet_text. rewrite !length_app. do 2 case_if; cbn; lia. }
  pose proof (H (octet a 0)). pose proof (H (octet a 1)). pose proof (H (octet a 2)). pose proof (H (octet a 3)). lia.
Qed.

Lemma joined_cons sep f g rest : joined sep (f :: g :: rest) = f ++ [sep] ++ joined sep (g :: rest).
Proof. done. Qed.

(** In a buffer of 256 bytes or more, a line is all its fields, and fits. *)
Lemma format_line e n :
  entry_ok e -> 256 <= n ->
  exists status duration req resp up shard,
    format_access_log_text e n = Some (joined SP (line_fields e status duration req resp up shard) ++ [LF]) /\
    write_u64_dec (le_status e) = Some status /\ write_u64_dec (duration_us e) = Some duration /\
    write_u64_dec (le_req_size e) = Some req /\ write_u64_dec (le_resp_size e) = Some resp /\
    write_u64_dec (le_upstream_us e) = Some up /\ write_u64_dec (le_shard_id e) = Some shard /\
    (length (joined SP (line_fields e status duration req resp up shard)) < 199)%nat.
Proof.
  intros [] Hn. unfold format_access_log_text. rewrite (proj2 (Z.ltb_ge n 256)) by lia.
  destruct (write_u64_dec_spec 5 (le_status e)) as (status & Hs & Ls & _); [lia | lia |].
  destruct (write_u64_dec_spec 10 (duration_us e)) as (duration & Hd & Ld & _); [lia | lia |].
  destruct (write_u64_dec_spec 10 (le_req_size e)) as (req & Hq & Lq & _); [lia | lia |].
  destruct (write_u64_dec_spec 10 (le_resp_size e)) as (resp & Hr & Lr & _); [lia | lia |].
  destruct (write_u64_dec_spec 10 (le_upstream_us e)) as (up & Hu & Lu & _); [lia | lia |].
  destruct (write_u64_dec_spec 3 (le_shard_id e)) as (shard & Hh & Lh & _); [lia | lia |].
  exists status, duration, req, resp, up, shard. rewrite Hs, Hd, Hq, Hr, Hu, Hh. cbn [mbind option_bind].
  pose proof (c_string_length (le_path e)) as Lp. rewrite ok_path0 in Lp. unfold kPathSize in Lp.
  pose proof (c_string_length (le_upstream e)) as Lup. rewrite ok_upstream0 in Lup. unfold kUpstreamSize in Lup.
  pose proof (method_str_length (le_method e)) as Lm. pose proof (ipv4_length (le_addr e)) as Li.
  pose proof (timestamp_length (timestamp_us e)) as Lt.
  rewrite copy_path_all by (rewrite !length_app; cbn [length]; lia).
  change (bs " s=") with ([SP] ++ bs "s="). change (bs "us ") with (bs "us" ++ [SP]).
  split_and!; try done; unfold line_fields; destruct (nth 0 (le_upstream e) 0 =? 0);
    cbn [app]; rewrite !joined_cons; cbn [joined].
  1,2: f_equal; repeat first [rewrite <- app_assoc | progress cbn [app]]; reflexivity.
  all: change (length (bs "us")) with 2%nat in *; change (length (bs "s=")) with 2%nat in *;
    rewrite !length_app; change (length (bs "us")) with 2%nat; change (length (bs "s=")) with 2%nat;
    cbn [length]; lia.
Qed.

(** ** The flusher writes the lines *)

Definition line_of (e : AccessLogEntry) : list Z := default [] (format_access_log_text e 512).
Definition text_of (q : list AccessLogEntry) : list Z := mjoin (line_of <$> q).

(** An answer that neither fails nor is the timeout of a flusher being stopped. *)
Definition patient (a : PollAnswer) : Prop :=
  match a with
  | PollTimeout running => running = true
  | PollFailed | PollHangup => False
  | PollReady (Wrote n) => 0 < n
  | PollReady WriteFailed => False
  | PollIntr | PollReady Transient => True
  end.

(** What a write loop may have done: written a prefix of the buffer, all of it
    when it says so, and not given up while the answers were patient. *)
Definition written_well (buf : list Z) (answers : list PollAnswer) (x : option bool * list Z * list PollAnswer) : Prop :=
  let '(r, sent, rest) := x in
  sent `prefix_of` buf /\ (r = Some true -> sent = buf) /\
  (Forall patient answers -> r <> Some false /\ Forall patient rest).

Lemma written_more buf a answers x : written_well buf answers x -> written_well buf (a :: answers) x.
Proof. destruct x as [[r sent] rest]. intros (H1 & H2 & H3). split_and!; try done; intros [_ Hp]%Forall_cons; auto. Qed.

Lemma written_fail buf a answers w :
  ~ patient a -> written_well buf (a :: answers) (Some false, take w buf, answers).
Proof. intros Ha. split_and!; [apply prefix_take | done|]. by intros [? _]%Forall_cons. Qed.

Lemma write_with_poll_spec answers : forall buf w stall ms,
  0 <= w <= Z.of_nat (length buf) -> written_well buf answers (write_with_poll answers buf w stall ms).
Proof.
  induction answers as [|a answers IH]; intros buf w stall ms Hw; cbn [write_with_poll].
  all: destruct (Z.ltb_spec w (Z.of_nat (length buf))); cbn [negb].
  1,2,4: split_and!; [apply prefix_take | intros; try done; apply take_ge; lia | done].
  destruct a as [running| | | |[n| |]].
  - destruct running; [by apply written_more, IH|]. destruct (_ <=? _); [by apply written_fail | by apply written_more, IH].
  - by apply written_more, IH.
  - apply written_fail. cbn. tauto.
  - apply written_fail. cbn. tauto.
  - destruct (Z.ltb_spec 0 n); [apply written_more, IH; unfold kChunkSize; lia | apply written_fail; cbn; lia].
  - by apply written_more, IH.
  - apply written_fail. cbn. tauto.
Qed.

(** The text [P] is on the descriptor or in the batch, and [t] entries counted. *)
Definition flushed (P : list Z) (t : Z) (f : Flush) : Prop :=
  out f ++ batch f = P /\ Z.of_nat (length (batch f)) <= kBatchSize /\ total f = u32 t.

(** A step of the flush: on success it has taken in the text [Q] of [n] entries;
    otherwise a prefix of all the text is written.  Patient answers never fail. *)
Definition flushes (P Q : list Z) (t n : Z) (f0 : Flush) (x : flush_end) (f : Flush) : Prop :=
  match x with
  | FlushOk => flushed (P ++ Q) (t + n) f
  | FlushFault => False
  | FlushFailed | FlushBlocked => out f `prefix_of` P ++ Q
  end /\ (Forall patient (io f0) -> x <> FlushFailed /\ Forall patient (io f)).

Lemma flush_batch_spec P t f :
  flushed P t f ->
  let '(x, f') := flush_batch f in
  flushes P [] t 0 f x (mkFlush (out f') (io f') [] (total f')) /\ (x = FlushOk -> out f' = P) /\ total f' = total f.
Proof.
  intros (HP & Hb & Ht). unfold flush_batch.
  pose proof (write_with_poll_spec (io f) (batch f) 0 0 50 ltac:(lia)) as Hw.
  destruct (write_with_poll (io f) (batch f) 0 0 50) as [[r sent] rest]. destruct Hw as (Hpre & Hall & Hpat).
  assert (out f ++ sent `prefix_of` P) by (rewrite <- HP; by apply prefix_app).
  destruct r as [[]|]; cbn; unfold flushes; cbn; rewrite ?app_nil_r, ?Z.add_0_r.
  - rewrite (Hall eq_refl) in *. split_and!; try done; [by split_and!; rewrite ?app_nil_r | by intros [_ ?]%Hpat].
  - split_and!; try done. by intros [? _]%Hpat.
  - split_and!; try done. by intros [_ ?]%Hpat.
Qed.

Lemma flush_entry_spec P t e f :
  entry_ok e -> flushed P t f ->
  let '(x, f') := flush_entry e f in flushes P (line_of e) t 1 f x f'.
Proof.
  intros He Hf. destruct (format_line e 512 He ltac:(lia)) as (? & ? & ? & ? & ? & ? & Hl & _ & _ & _ & _ & _ & _ & Hlen).
  unfold flush_entry, line_of. rewrite Hl. cbn [default]. revert Hlen.
  generalize (joined SP (line_fields e x x0 x1 x2 x3 x4)). intros l Hlen.
  assert (Z.of_nat (length (l ++ [LF])) <= 199) as Hll by (rewrite length_app; cbn; lia).
  destruct (l ++ [LF]) as [|b line] eqn:E; [by destruct l|]. clear E Hlen l.
  pose proof Hf as (HP & Hb & Ht). destruct (Z.ltb_spec kBatchSize (Z.of_nat (length (batch f)) + Z.of_nat (length (b :: line)))).
  - pose proof (flush_batch_spec P t f Hf) as Hs. destruct (flush_batch f) as [x' f'].
    destruct Hs as ([Hx Hp] & Hout & Htot). destruct x'; try done.
    + split; [|done]. unfold flushed. cbn [out io batch total app]. rewrite Hout by done.
      split_and!; [done | unfold kBatchSize; lia|]. rewrite Htot, Ht. apply u32_succ.
    + split; [|done]. cbn. rewrite app_nil_r in Hx. by apply prefix_app_r.
    + split; [|done]. cbn. rewrite app_nil_r in Hx. by apply prefix_app_r.
  - split; [|done]. unfold flushed. cbn [out io batch total].
    split_and!; [by rewrite app_assoc, HP | rewrite length_app; lia|]. rewrite Ht. apply u32_succ.
Qed.

Lemma flushes_trans P Q1 Q2 t n1 n2 f0 f1 x f2 :
  flushes P Q1 t n1 f0 FlushOk f1 -> flushes (P ++ Q1) Q2 (t + n1) n2 f1 x f2 ->
  flushes P (Q1 ++ Q2) t (n1 + n2) f0 x f2.
Proof.
  intros [H1 H2] [H3 H4]. unfold flushes in *. rewrite app_assoc, Z.add_assoc. split; [done|].
  intros Hp. destruct (H2 Hp) as [_ Hp']. by apply H4.
Qed.

Lemma flushes_stop P Q1 Q2 t n1 n2 f0 x f :
  x <> FlushOk -> flushes P Q1 t n1 f0 x f -> flushes P (Q1 ++ Q2) t n2 f0 x f.
Proof.
  intros Hx [H1 H2]. split; [|done]. destruct x; try done; rewrite app_assoc; by apply prefix_app_r.
Qed.

Lemma flush_ring_spec q : forall fuel n r P t f,
  (length q < fuel)%nat -> holds 9 n q r -> Forall entry_ok q -> flushed P t f ->
  let '(x, r', f') := flush_ring fuel r f in
  flushes P (text_of q) t (Z.of_nat (length q)) f x f' /\ (x = FlushOk -> exists n', holds 9 n' [] r').
Proof.
  induction q as [|e q IH]; intros fuel n r P t f Hfuel Hh Hq Hf; (destruct fuel as [|fuel]; [lia|]); cbn [flush_ring];
    pose proof (pop_holds 9 ltac:(lia) n _ r Hh) as Hpop; cbn in Hpop.
  - rewrite Hpop. split; [|eauto]. split; [|done]. by rewrite app_nil_r, Z.add_0_r.
  - destruct Hpop as (r' & -> & Hh'). apply Forall_cons in Hq as [He Hq].
    pose proof (flush_entry_spec P t e f He Hf) as Hs. destruct (flush_entry e f) as [x f'].
    change (text_of (e :: q)) with (line_of e ++ text_of q). cbn [length] in *.
    destruct x; try (split; [by eapply flushes_stop; [|exact Hs] | done]).
    pose proof (IH fuel (S n) r' (P ++ line_of e) (t + 1) f' ltac:(lia) Hh' Hq (proj1 Hs)) as Hr.
    destruct (flush_ring fuel r' f') as [[x r2] f2]. destruct Hr as [Hr Hr2]. split; [|done].
    rewrite Nat2Z.inj_succ, <- Z.add_1_l. by eapply flushes_trans.
Qed.

Lemma text_of_app a b : text_of (a ++ b) = text_of a ++ text_of b.
Proof. unfold text_of. by rewrite fmap_app, join_app. Qed.

(** The rings hold the queues. *)
Definition hold_all (qs : list (list AccessLogEntry)) (rs : list (@Ring AccessLogEntry)) : Prop :=
  Forall2 (fun q r => exists n, holds 9 n q r) qs rs.

Lemma flush_rings_spec qs : forall rs P t f,
  hold_all qs rs -> Forall entry_ok (mjoin qs) -> flushed P t f ->
  let '(x, rs', f') := flush_rings rs f in
  flushes P (text_of (mjoin qs)) t (Z.of_nat (length (mjoin qs))) f x f' /\
  (x = FlushOk -> hold_all (replicate (length qs) []) rs').
Proof.
  induction qs as [|q qs IH]; intros rs P t f Hh Hq Hf; inversion Hh as [|? r ? rs0 [n Hn] Hh']; subst; cbn [flush_rings].
  - split; [|constructor]. split; [|done]. by rewrite app_nil_r, Z.add_0_r.
  - cbn [mjoin list_join] in *. apply Forall_app in Hq as [Hq1 Hq2].
    assert (length q < 513)%nat as Hlen by (pose proof (holds_room _ _ _ _ Hn) as H; change (kCapacity 9) with 512 in H; lia).
    pose proof (flush_ring_spec q 513 n r P t f Hlen Hn Hq1 Hf) as Hs.
    destruct (flush_ring 513 r f) as [[x r'] f']. destruct Hs as [Hs Hs2].
    rewrite text_of_app, length_app, Nat2Z.inj_add. cbn [length replicate].
    destruct x; try (split; [by eapply flushes_stop; [|exact Hs] | done]).
    pose proof (IH rs0 _ _ f' Hh' Hq2 (proj1 Hs)) as Hr. destruct (flush_rings rs0 f') as [[x rs2] f2].
    destruct Hr as [Hr Hr2]. split; [by eapply flushes_trans|]. intros Hx. constructor; [by apply Hs2 | by apply Hr2].
Qed.

(** A flush writes the lines of all entries of all rings, in order and each
    once, and empties the rings; when it is cut short by the descriptor it has
    written a prefix of that text.  It never fails while the descriptor only
    makes it wait, and no line or batch outgrows its buffer. *)
Theorem flush_writes_all qs rs answers :
  hold_all qs rs -> Forall entry_ok (mjoin qs) ->
  let '(x, rs', f) := flush_once rs answers in
  match x with
  | FlushOk => out f = text_of (mjoin qs) /\ total f = u32 (Z.of_nat (length (mjoin qs))) /\
      hold_all (replicate (length qs) []) rs'
  | FlushFault => False
  | FlushFailed | FlushBlocked => out f `prefix_of` text_of (mjoin qs)
  end /\ (Forall patient answers -> x <> FlushFailed).
Proof.
  intros Hh Hq. unfold flush_once.
  pose proof (flush_rings_spec qs rs [] 0 (mkFlush [] answers [] 0) Hh Hq ltac:(by split_and!)) as Hs.
  destruct (flush_rings rs _) as [[x rs'] f]. destruct Hs as [[Hs Hp] Hs2]. cbn [app io] in *.
  rewrite Z.add_0_l in Hs. destruct x; try (by split; [|intros [? _]%Hp]).
  pose proof Hs as (HP & _ & Ht). destruct (batch f) as [|b l] eqn:Eb.
  - rewrite app_nil_r in HP. split; [by split_and!; auto | done].
  - pose proof (flush_batch_spec _ _ f Hs) as Hb. destruct (flush_batch f) as [y f'].
    destruct Hb as ([Hy Hyp] & Hout & Htot). rewrite app_nil_r in Hy. split.
    + destruct y; try done. split_and!; [by apply Hout | by rewrite Htot | by apply Hs2].
    + intros Ha. destruct (Hp Ha) as [_ Ha']. by destruct (Hyp Ha').
Qed.

(** One logged request. *)
Definition entry_ex : AccessLogEntry :=
  mkEntry 1774279800123000 1234 256 1024 0 83886090 200 LGet 3
    (bs "/path" ++ replicate 59 0) (replicate 24 0).

Definition ring_ex : @Ring AccessLogEntry := (ring_push 9 (ring_init (replicate 512 entry_ex)) entry_ex).2.

Lemma entry_ex_ok : entry_ok entry_ex.
Proof. split; vm_compute; try (split; congruence); done. Qed.

Example entry_ex_line :
  line_of entry_ex = bs "2026-03-23T15:30:00.123Z GET /path 200 1234us 256 1024 10.0.0.5 s=3" ++ [LF].
Proof. vm_compute. reflexivity. Qed.

Lemma ring_ex_holds : hold_all [[entry_ex]] [ring_ex].
Proof.
  constructor; [|constructor]. exists 0%nat.
  destruct (push_holds 9 ltac:(lia) 0 [] (ring_init (replicate 512 entry_ex)) entry_ex (holds_init 9 ltac:(lia) (replicate 512 entry_ex) eq_refl))
    as (r' & Hr & Hh). unfold ring_ex. by rewrite Hr.
Qed.

Lemma flush_writes_all_witness :
  let '(x, rs', f) := flush_once [ring_ex] [PollIntr; PollReady (Wrote 10); PollReady (Wrote 4096)] in
  match x with
  | FlushOk => out f = text_of [entry_ex] /\ total f = 1 /\ hold_all [[]] rs'
  | FlushFault => False
  | FlushFailed | FlushBlocked => out f `prefix_of` text_of [entry_ex]
  end.
Proof.
  pose proof (flush_writes_all [[entry_ex]] [ring_ex] [PollIntr; PollReady (Wrote 10); PollReady (Wrote 4096)]
    ring_ex_holds ltac:(constructor; [apply entry_ex_ok | constructor])) as H.
  destruct (flush_once _ _) as [[x rs'] f]. exact (proj1 H).
Defined.

Example flush_ex_ok :
  (flush_once [ring_ex] [PollIntr; PollReady (Wrote 10); PollReady (Wrote 4096)]).1.1 = FlushOk.
Proof. vm_compute. reflexivity. Qed.
