(* ===== verification/AccessLogText.v ===== *)
(** * Log lines can be read back

    The calendar used for timestamps is the Gregorian one, and the line of an
    entry determines every field of it: a reader of lines gives them back. *)

From S2P Require Import Prelude HttpParser RouteMethod Connection SpscRing AccessLog.

(** ** The calendar *)

Lemma days_bounds y :
  146097 * (y - 1) - 700 <= 400 * days_before_year y <= 146097 * (y - 1) + 400 * 2 /\
  days_before_year y + 365 <= days_before_year (y + 1) <= days_before_year y + 366.
Proof. unfold days_before_year. Z.div_mod_to_equations. lia. Qed.

Lemma year_of_spec n :
  0 <= n -> days_before_year (year_of n) <= n < days_before_year (year_of n + 1).
Proof.
  intros Hn. unfold year_of. set (y := n * 400 / 146097 + 1).
  assert (146097 * (y - 1) <= n * 400 < 146097 * y) as Hy by (subst y; Z.div_mod_to_equations; lia). clearbody y.
  pose proof (days_bounds y). pose proof (days_bounds (y - 1)). pose proof (days_bounds (y + 1)).
  pose proof (days_bounds (y + 2)). pose proof (days_bounds (y - 2)).
  replace (y - 1 + 1) with y in * by lia. replace (y + 1 + 1) with (y + 2) in * by lia.
  destruct (Z.ltb_spec n (days_before_year y)); [replace (y - 1 + 1) with y by lia; lia|].
  destruct (Z.leb_spec (days_before_year (y + 1)) n); replace (y + 1 + 1) with (y + 2) by lia; lia.
Qed.

Lemma year_length y : days_before_year (y + 1) - days_before_year y = foldr Z.add 0 (month_lengths y).
Proof.
  unfold days_before_year, month_lengths, is_leap. cbn [foldr]. replace (y + 1 - 1) with y by lia.
  destruct (Z.eqb_spec (y mod 4) 0), (Z.eqb_spec (y mod 100) 0), (Z.eqb_spec (y mod 400) 0);
    cbn [andb orb negb]; Z.div_mod_to_equations; lia.
Qed.

(** Days before a month of a year. *)
Definition days_before_month (lengths : list Z) (m : Z) : Z := foldr Z.add 0 (take (Z.to_nat (m - 1)) lengths).

Lemma month_of_spec lengths : forall m day,
  0 <= day < foldr Z.add 0 lengths ->
  exists k len, month_of lengths m day = (m + Z.of_nat k, day - foldr Z.add 0 (take k lengths)) /\
    lengths !! k = Some len /\ 0 <= day - foldr Z.add 0 (take k lengths) < len.
Proof.
  induction lengths as [|len lengths IH]; intros m day Hd; cbn [month_of foldr] in *; [lia|].
  destruct (Z.ltb_spec day len).
  - exists 0%nat, len. cbn. split_and!; [f_equal; lia | done | lia | lia].
  - destruct (IH (m + 1) (day - len) ltac:(lia)) as (k & l & -> & Hk & Hr). exists (S k), l. cbn [take foldr].
    split_and!; [f_equal; lia | done | lia | lia].
Qed.

(** The date of a day is a date of the calendar, and counts back to the day. *)
Lemma civil_from_days_spec days y m d :
  - kUnixEpochDay <= days -> civil_from_days days = (y, m, d) ->
  1 <= m <= 12 /\ 1 <= d <= nth (Z.to_nat (m - 1)) (month_lengths y) 0 /\
  days_before_year y + days_before_month (month_lengths y) m + (d - 1) = days + kUnixEpochDay /\
  y = year_of (days + kUnixEpochDay).
Proof.
  intros Hd. unfold civil_from_days. set (n := days + kUnixEpochDay). assert (0 <= n) as Hn by lia. clearbody n.
  pose proof (year_of_spec n Hn) as Hy. pose proof (year_length (year_of n)) as Hlen.
  destruct (month_of_spec (month_lengths (year_of n)) 1 (n - days_before_year (year_of n)) ltac:(lia))
    as (k & len & -> & Hk & Hr). intros [= <- <- <-].
  pose proof (lookup_lt_Some _ _ _ Hk) as Hk12. change (length (month_lengths (year_of n))) with 12%nat in Hk12.
  unfold days_before_month. replace (Z.to_nat (1 + Z.of_nat k - 1)) with k by lia.
  rewrite (nth_lookup_Some _ _ _ _ Hk). split_and!; lia || done.
Qed.

(** ** Timestamps *)

Definition num4 (a b c d : Z) : Z := (a - 48) * 1000 + (b - 48) * 100 + (c - 48) * 10 + (d - 48).
Definition num3 (a b c : Z) : Z := (a - 48) * 100 + (b - 48) * 10 + (c - 48).
Definition num2 (a b : Z) : Z := (a - 48) * 10 + (b - 48).

(** Milliseconds since 1970 of the text [YYYY-MM-DDThh:mm:ss.mmmZ]. *)
Definition read_timestamp (l : list Z) : option Z :=
  match l with
  | [y1; y2; y3; y4; _; m1; m2; _; d1; d2; _; h1; h2; _; n1; n2; _; s1; s2; _; f1; f2; f3; _] =>
      let y := num4 y1 y2 y3 y4 in
      let days := days_before_year y + days_before_month (month_lengths y) (num2 m1 m2) + (num2 d1 d2 - 1) - kUnixEpochDay in
      Some ((((days * 24 + num2 h1 h2) * 60 + num2 n1 n2) * 60 + num2 s1 s2) * 1000 + num3 f1 f2 f3)
  | _ => None
  end.

Lemma num4_dig n : 0 <= n < 10000 -> num4 (dig (n / 1000)) (dig (n / 100 mod 10)) (dig (n / 10 mod 10)) (dig (n mod 10)) = n.
Proof. intros. unfold num4, dig. Z.div_mod_to_equations. lia. Qed.

Lemma num3_dig n : 0 <= n < 1000 -> num3 (dig (n / 100)) (dig (n / 10 mod 10)) (dig (n mod 10)) = n.
Proof. intros. unfold num3, dig. Z.div_mod_to_equations. lia. Qed.

Lemma num2_dig n : 0 <= n < 100 -> num2 (dig (n / 10)) (dig (n mod 10)) = n.
Proof. intros. unfold num2, dig. Z.div_mod_to_equations. lia. Qed.

(** 10000-01-01 in microseconds. *)
Definition kYear10000 : Z := 253402300800000000.

Lemma days_before_year_mono y y' : y <= y' -> days_before_year y <= days_before_year y'.
Proof. intros. unfold days_before_year. Z.div_mod_to_equations. lia. Qed.

Lemma year_before_10000 n : kUnixEpochDay <= n < 3652059 -> 1970 <= year_of n < 10000.
Proof.
  unfold kUnixEpochDay. intros Hn. pose proof (year_of_spec n ltac:(lia)) as Hy. split.
  - destruct (Z_lt_le_dec (year_of n) 1970); [|done].
    pose proof (days_before_year_mono (year_of n + 1) 1970 ltac:(lia)) as H. change (days_before_year 1970) with 719162 in H. lia.
  - destruct (Z_lt_le_dec (year_of n) 10000); [done|].
    pose proof (days_before_year_mono 10000 (year_of n) ltac:(lia)) as H. change (days_before_year 10000) with 3652059 in H. lia.
Qed.

Lemma month_length_bound y k : nth k (month_lengths y) 0 <= 31.
Proof. do 12 (destruct k as [|k]; [cbn; try case_if; lia|]). destruct k; cbn; lia. Qed.

(** Up to the year 9999 a timestamp reads back to its millisecond. *)
Lemma timestamp_reads t : 0 <= t < kYear10000 -> read_timestamp (format_timestamp t) = Some (t / 1000).
Proof.
  unfold kYear10000. intros Ht. unfold format_timestamp, gmtime_r.
  set (secs := t / 1000000). assert (0 <= secs < 253402300800) as Hs by (subst secs; Z.div_mod_to_equations; lia).
  destruct (civil_from_days (secs / 86400)) as [[y m] d] eqn:E.
  set (days := secs / 86400) in *. assert (0 <= days < 2932897) as Hd by (subst days; Z.div_mod_to_equations; lia).
  destruct (civil_from_days_spec days y m d) as (Hm & Hdd & Hsum & Hy); [unfold kUnixEpochDay; lia | done |].
  pose proof (year_before_10000 (days + kUnixEpochDay) ltac:(unfold kUnixEpochDay; lia)) as Hyy. rewrite <- Hy in Hyy.
  pose proof (month_length_bound y (Z.to_nat (m - 1))) as H31.
  cbn [tm_year tm_mon tm_mday tm_hour tm_min tm_sec]. rewrite !u32_small by lia.
  replace (y - 1900 + 1900) with y by lia. replace (m - 1 + 1) with m by lia.
  cbn [app two read_timestamp]. unfold two. cbn [app read_timestamp]. rewrite num4_dig by lia.
  rewrite !num2_dig by (subst days secs; Z.div_mod_to_equations; lia).
  rewrite num3_dig by (Z.div_mod_to_equations; lia). f_equal.
  replace (days_before_year y + days_before_month (month_lengths y) m + (d - 1) - kUnixEpochDay) with days by lia.
  clear -Ht. subst days secs. Z.div_mod_to_equations. lia.
Qed.

(** ** A reader of log lines *)

Fixpoint split_on (sep : Z) (l : list Z) : list (list Z) :=
  match l with
  | [] => [[]]
  | b :: l' =>
      if b =? sep then [] :: split_on sep l'
      else match split_on sep l' with
      | f :: fs => (b :: f) :: fs
      | [] => [[b]]
      end
  end.

Definition is_digit (b : Z) : bool := (48 <=? b) && (b <=? 57).

Definition read_num (l : list Z) : option Z :=
  match l with [] => None | _ => if forallb is_digit l then Some (dec_value 0 l) else None end.

(** A number followed by a unit. *)
Definition read_us (l : list Z) : option Z :=
  let n := (length l - 2)%nat in
  if str_eq (drop n l) (bs "us") then read_num (take n l) else None.

Definition all_methods : list LogHttpMethod :=
  [LGet; LPost; LPut; LDelete; LPatch; LHead; LOptions; LConnect; LTrace; LOther].

Definition read_method (l : list Z) : option LogHttpMethod := List.find (fun m => str_eq (method_str m) l) all_methods.

Definition read_ipv4 (l : list Z) : option Z :=
  match split_on (ch ".") l with
  | [a; b; c; d] =>
      a ← read_num a; b ← read_num b; c ← read_num c; d ← read_num d;
      Some (a + 256 * (b + 256 * (c + 256 * d)))
  | _ => None
  end.

Record LogLine := mkLine {
  ll_time_ms : Z; ll_method : LogHttpMethod; ll_path : list Z; ll_status : Z; ll_duration_us : Z;
  ll_req_size : Z; ll_resp_size : Z; ll_addr : Z; ll_upstream : option (list Z * Z); ll_shard : Z
}.

Definition read_line (l : list Z) : option LogLine :=
  match split_on LF l with
  | [body; []] =>
      match split_on SP body with
      | ts :: m :: path :: status :: dur :: req :: resp :: ip :: rest =>
          ts ← read_timestamp ts; m ← read_method m; status ← read_num status; dur ← read_us dur;
          req ← read_num req; resp ← read_num resp; ip ← read_ipv4 ip;
          match rest with
          | [shard] =>
              shard ← read_num (drop 2 shard);
              Some (mkLine ts m path status dur req resp ip None shard)
          | [up; us; shard] =>
              us ← read_us us; shard ← read_num (drop 2 shard);
              Some (mkLine ts m path status dur req resp ip (Some (up, us)) shard)
          | _ => None
          end
      | _ => None
      end
  | _ => None
  end.

(** ** The reader reads the lines *)

Definition free_of (sep : Z) (l : list Z) : Prop := Forall (fun b => b <> sep) l.

Lemma split_free sep l : free_of sep l -> split_on sep l = [l].
Proof.
  induction 1 as [|b l Hb _ IH]; [done|]. cbn. rewrite (proj2 (Z.eqb_neq _ _)), IH by done. done.
Qed.

Lemma split_app sep l l' : free_of sep l -> split_on sep (l ++ [sep] ++ l') = l :: split_on sep l'.
Proof.
  induction 1 as [|b l Hb _ IH]; cbn; [by rewrite Z.eqb_refl|].
  rewrite (proj2 (Z.eqb_neq _ _)) by done. cbn in IH. by rewrite IH.
Qed.

Lemma split_last sep l : free_of sep l -> split_on sep (l ++ [sep]) = [l; []].
Proof. intros H. by apply (split_app sep l []). Qed.

Lemma split_joined sep fs : fs <> [] -> Forall (free_of sep) fs -> split_on sep (joined sep fs) = fs.
Proof.
  intros Hne H. induction H as [|f fs Hf Hfs IH]; [done|]. destruct fs as [|g fs].
  - by apply split_free.
  - rewrite joined_cons, split_app by done. by rewrite IH.
Qed.

Lemma joined_free sep sep' fs : sep <> sep' -> Forall (free_of sep') fs -> free_of sep' (joined sep fs).
Proof.
  intros Hne H. induction H as [|f fs Hf Hfs IH]; [constructor|]. destruct fs as [|g fs]; [done|].
  rewrite joined_cons. apply Forall_app; split; [done|]. by constructor.
Qed.

Lemma free_app sep a b : free_of sep a -> free_of sep b -> free_of sep (a ++ b).
Proof. intros. by apply Forall_app. Qed.

Lemma digits_free sep l : ~ is_dec sep -> Forall is_dec l -> free_of sep l.
Proof. intros Hs Hl. eapply Forall_impl; [exact Hl|]. by intros b Hb ->. Qed.

(** Literals are free of a separator they do not contain. *)
Definition free_ofb (sep : Z) (l : list Z) : bool := forallb (fun b => negb (b =? sep)) l.

Lemma free_ofb_free sep l : free_ofb sep l = true -> free_of sep l.
Proof.
  unfold free_ofb. rewrite forallb_forall. intros H. apply Forall_forall. intros b Hb.
  apply list_elem_of_In, H in Hb. by zify_bool.
Qed.

Lemma read_num_digits l : l <> [] -> Forall is_dec l -> read_num l = Some (dec_value 0 l).
Proof.
  intros Hne H. unfold read_num. replace (forallb is_digit l) with true; [by destruct l|]. symmetry.
  apply forallb_forall. intros b Hb%list_elem_of_In. rewrite Forall_forall in H. apply H in Hb.
  unfold is_dec in Hb. unfold is_digit. change (ch "0") with 48 in Hb. change (ch "9") with 57 in Hb. lia.
Qed.

Lemma read_us_digits l : read_us (l ++ bs "us") = read_num l.
Proof.
  unfold read_us. rewrite length_app. change (length (bs "us")) with 2%nat.
  replace (length l + 2 - 2)%nat with (length l) by lia. by rewrite drop_app_length, take_app_length.
Qed.

Lemma read_method_str m : read_method (method_str m) = Some m.
Proof. by destruct m. Qed.

Lemma octet_text_digits o : 0 <= o < 256 -> octet_text o <> [] /\ Forall is_dec (octet_text o) /\ dec_value 0 (octet_text o) = o.
Proof.
  intros Ho. unfold octet_text. split; [by destruct (100 <=? o), (10 <=? o)|].
  assert (forall x, 0 <= x <= 9 -> is_dec (dig x)) as Hdig by (intros x Hx; unfold is_dec, dig; change (ch "0") with 48; change (ch "9") with 57; lia).
  destruct (Z.leb_spec 100 o), (Z.leb_spec 10 o); cbn [app]; try lia.
  all: split; [repeat constructor; apply Hdig; Z.div_mod_to_equations; lia|].
  all: unfold dec_value, dig; cbn [foldl]; change (ch "0") with 48; Z.div_mod_to_equations; lia.
Qed.

Lemma octets_sum a :
  0 <= a < 2 ^ 32 -> octet a 0 + 256 * (octet a 1 + 256 * (octet a 2 + 256 * octet a 3)) = a.
Proof.
  intros Ha. unfold octet, u8, wrap. rewrite !Z.shiftr_div_pow2 by lia.
  change (2 ^ (8 * 0)) with 1. change (2 ^ (8 * 1)) with 256. change (2 ^ (8 * 2)) with 65536.
  change (2 ^ (8 * 3)) with 16777216. change (2 ^ 8) with 256. change (2 ^ 32) with 4294967296 in Ha.
  Z.div_mod_to_equations. lia.
Qed.

Lemma octet_range a i : 0 <= octet a i < 256.
Proof. unfold octet, u8. apply wrap_range. lia. Qed.

Lemma ipv4_joined a :
  format_ipv4 a = joined (ch ".") [octet_text (octet a 0); octet_text (octet a 1); octet_text (octet a 2); octet_text (octet a 3)].
Proof. done. Qed.

Lemma read_ipv4_text a : 0 <= a < 2 ^ 32 -> read_ipv4 (format_ipv4 a) = Some a.
Proof.
  intros Ha. unfold read_ipv4. rewrite ipv4_joined.
  assert (forall i, octet_text (octet a i) <> [] /\ Forall is_dec (octet_text (octet a i)) /\
    dec_value 0 (octet_text (octet a i)) = octet a i) as Ho by (intros i; apply octet_text_digits, octet_range).
  rewrite split_joined; [|done|].
  - rewrite !read_num_digits by apply Ho. cbn [mbind option_bind].
    rewrite !(proj2 (proj2 (Ho _))). by rewrite octets_sum.
  - repeat constructor; (apply digits_free; [unfold is_dec; vm_compute; intros []; congruence | apply Ho]).
Qed.

(** Everything a field is made of is free of the separators. *)
Lemma timestamp_free t : 0 <= t < kYear10000 -> free_of SP (format_timestamp t) /\ free_of LF (format_timestamp t).
Proof.
  unfold kYear10000. intros Ht. unfold format_timestamp, gmtime_r.
  set (secs := t / 1000000). assert (0 <= secs < 253402300800) as Hs by (subst secs; Z.div_mod_to_equations; lia).
  destruct (civil_from_days (secs / 86400)) as [[y m] d] eqn:E.
  set (days := secs / 86400) in *. assert (0 <= days < 2932897) as Hd by (subst days; Z.div_mod_to_equations; lia).
  destruct (civil_from_days_spec days y m d) as (Hm & Hdd & _ & Hy); [unfold kUnixEpochDay; lia | done |].
  pose proof (year_before_10000 (days + kUnixEpochDay) ltac:(unfold kUnixEpochDay; lia)) as Hyy. rewrite <- Hy in Hyy.
  cbn [tm_year tm_mon tm_mday tm_hour tm_min tm_sec]. rewrite !u32_small by lia. unfold two. cbn [app].
  unfold SP, LF, dig, free_of. split; repeat constructor; try done; Z.div_mod_to_equations; lia.
Qed.

Lemma method_free m : free_of SP (method_str m) /\ free_of LF (method_str m).
Proof. split; apply free_ofb_free; by destruct m. Qed.

Lemma not_dec_seps : ~ is_dec SP /\ ~ is_dec LF.
Proof. split; vm_compute; intros []; congruence. Qed.

Lemma ipv4_free a : free_of SP (format_ipv4 a) /\ free_of LF (format_ipv4 a).
Proof.
  rewrite ipv4_joined. split; (apply joined_free; [done|]); repeat constructor;
    (apply digits_free; [apply not_dec_seps | apply octet_text_digits, octet_range]).
Qed.

(** The texts a line needs to be unambiguous: printable paths and names. *)
Definition clean (l : list Z) : Prop := free_of SP l /\ free_of LF l.

Lemma clean_digits l : Forall is_dec l -> clean l.
Proof. intros H. destruct not_dec_seps. split; by apply digits_free. Qed.

Lemma clean_app a b : clean a -> clean b -> clean (a ++ b).
Proof. intros [] []. split; by apply free_app. Qed.

Lemma clean_fields e status duration req resp up shard :
  0 <= timestamp_us e < kYear10000 -> clean (c_string (le_path e)) -> clean (c_string (le_upstream e)) ->
  Forall (Forall is_dec) [status; duration; req; resp; up; shard] ->
  Forall clean (line_fields e status duration req resp up shard).
Proof.
  intros Ht Hp Hu Hd. repeat (apply Forall_cons in Hd as [? Hd]).
  assert (clean (bs "us")) by (split; by apply free_ofb_free). assert (clean (bs "s=")) by (split; by apply free_ofb_free).
  unfold line_fields. repeat apply Forall_app_2; [| destruct (_ =? 0) |].
  all: repeat (apply Forall_cons_2; [first [by auto using clean_digits, clean_app | apply timestamp_free, Ht |
    apply method_free | apply ipv4_free]|]); by apply Forall_nil_2.
Qed.

(** C32: the line of an entry says everything the entry does.  For times before
    the year 10000 and paths and upstream names without spaces and line feeds,
    reading the line gives the timestamp to the millisecond, the method, the
    path, the status, the durations, the sizes, the client address, the upstream
    and the shard of the entry. *)
Theorem log_line_roundtrip e :
  entry_ok e -> timestamp_us e < kYear10000 -> clean (c_string (le_path e)) -> clean (c_string (le_upstream e)) ->
  read_line (line_of e) =
    Some (mkLine (timestamp_us e / 1000) (le_method e) (c_string (le_path e)) (le_status e) (duration_us e)
      (le_req_size e) (le_resp_size e) (le_addr e)
      (if nth 0 (le_upstream e) 0 =? 0 then None else Some (c_string (le_upstream e), le_upstream_us e)) (le_shard_id e)).
Proof.
  intros Hok Ht Hp Hu. destruct (format_line e 512 Hok ltac:(lia)) as
    (status & duration & req & resp & up & shard & Hl & E1 & E2 & E3 & E4 & E5 & E6 & _).
  assert (forall v l, 0 <= v < 2 ^ 32 -> write_u64_dec v = Some l -> l <> [] /\ Forall is_dec l /\ dec_value 0 l = v) as Hd.
  { intros v l Hv El. destruct (write_u64_dec_spec 10 v ltac:(lia) ltac:(lia)) as (l' & El' & _ & H). by simplify_eq. }
  destruct Hok. apply Hd in E1 as (N1 & D1 & V1), E2 as (N2 & D2 & V2), E3 as (N3 & D3 & V3), E4 as (N4 & D4 & V4),
    E5 as (N5 & D5 & V5), E6 as (N6 & D6 & V6); try lia.
  pose proof (clean_fields e status duration req resp up shard ltac:(lia) Hp Hu ltac:(by repeat constructor)) as Hc.
  unfold line_of. rewrite Hl. cbn [from_option]; unfold Datatypes.id. unfold read_line.
  rewrite split_last; [|apply joined_free; [done|]; eapply Forall_impl; [exact Hc|]; by intros ? []].
  rewrite split_joined; [|by destruct (nth 0 (le_upstream e) 0 =? 0)|eapply Forall_impl; [exact Hc|]; by intros ? []].
  unfold line_fields. cbn [app]. rewrite timestamp_reads, read_method_str by lia. rewrite !read_us_digits, read_ipv4_text by lia.
  rewrite !read_num_digits by done. cbn [mbind option_bind].
  destruct (nth 0 (le_upstream e) 0 =? 0); cbn [app];
    change (drop 2 (bs "s=" ++ shard)) with shard; rewrite ?read_us_digits, !read_num_digits by done; cbn [mbind option_bind];
    by rewrite V1, V2, V3, V4, ?V5, V6.
Qed.

Lemma log_line_roundtrip_witness :
  read_line (line_of entry_ex) = Some (mkLine 1774279800123 LGet (bs "/path") 200 1234 256 1024 83886090 None 3).
Proof.
  apply (log_line_roundtrip entry_ex entry_ex_ok); [vm_compute; reflexivity | |];
    split; apply free_ofb_free; vm_compute; reflexivity.
Defined.
