(* ===== verification/TrafficCapture.v ===== *)
(** * Traffic capture

    Model of include/rut/runtime/traffic_capture.h and
    src/runtime/traffic_capture.cc: the capture entry with its layout in memory
    (little endian, no padding), the file header, and the loops that write and
    read an entry through a descriptor.  The capture ring is [SpscRing] with a
    capacity of 256.  The answers of [write] and [read] are an argument. *)

From S2P Require Import Prelude RouteMethod.

(** ** Words in memory *)

Fixpoint le_bytes (n : nat) (v : Z) : list Z :=
  match n with O => [] | S n' => v mod 256 :: le_bytes n' (v / 256) end.

Fixpoint le_value (l : list Z) : Z :=
  match l with [] => 0 | b :: l' => b + 256 * le_value l' end.

(** ** Entries *)

(** The value of the method byte. *)
Definition log_method_code (m : LogHttpMethod) : Z :=
  match m with
  | LGet => 0 | LPost => 1 | LPut => 2 | LDelete => 3 | LPatch => 4 | LHead => 5 | LOptions => 6
  | LConnect => 7 | LTrace => 8 | LOther => 9
  end.

Definition kMaxCaptureHeader : nat := Z.to_nat 8192.
Definition kCaptureNameSize : nat := 32.

Definition kCaptureFlagTruncated : Z := 1.

Record CaptureEntry := mkCapture {
  ce_timestamp_us : Z; ce_req_content_length : Z; ce_resp_content_length : Z; ce_resp_status : Z;
  ce_raw_header_len : Z; ce_method : Z; ce_shard_id : Z; ce_flags : Z; ce_pad : Z;
  ce_upstream_name : list Z; ce_reserved : list Z; ce_raw_headers : list Z
}.

(** The bytes of an entry, [sizeof(CaptureEntry)] of them. *)
Definition entry_bytes (e : CaptureEntry) : list Z :=
  le_bytes 8 (ce_timestamp_us e) ++ le_bytes 4 (ce_req_content_length e) ++ le_bytes 4 (ce_resp_content_length e) ++
  le_bytes 2 (ce_resp_status e) ++ le_bytes 2 (ce_raw_header_len e) ++ [ce_method e] ++ [ce_shard_id e] ++
  [ce_flags e] ++ [ce_pad e] ++ ce_upstream_name e ++ ce_reserved e ++ ce_raw_headers e.

Definition kEntrySize : Z := 8256.

(** The entry at the start of a run of bytes. *)
Definition entry_of_bytes (l : list Z) : CaptureEntry :=
  mkCapture (le_value (sub l 0 8)) (le_value (sub l 8 4)) (le_value (sub l 12 4)) (le_value (sub l 16 2))
    (le_value (sub l 18 2)) (rd l 20) (rd l 21) (rd l 22) (rd l 23) (sub l 24 32) (sub l 56 8) (drop 64 l).

(** ** The file header *)

Record CaptureFileHeader := mkFileHeader {
  fh_magic : list Z; fh_version : Z; fh_flags : Z; fh_entry_count : Z; fh_entry_size : Z; fh_reserved : list Z
}.

Definition capture_file_header_init : CaptureFileHeader :=
  mkFileHeader (bs "RUTCAP01") 1 0 0 kEntrySize (replicate 36 0).

Definition capture_file_header_valid (h : CaptureFileHeader) : bool :=
  (rd (fh_magic h) 0 =? ch "R") && (rd (fh_magic h) 1 =? ch "U") && (rd (fh_magic h) 2 =? ch "T") &&
  (rd (fh_magic h) 3 =? ch "C") && (rd (fh_magic h) 4 =? ch "A") && (rd (fh_magic h) 5 =? ch "P") &&
  (rd (fh_magic h) 6 =? ch "0") && (rd (fh_magic h) 7 =? ch "1") && (fh_version h =? 1) && (fh_entry_size h =? kEntrySize).

(** ** Reading and writing *)

(** An answer of [write] or [read]: bytes moved, an interruption, another error.
    The kernel moves at most what it is asked to. *)
Inductive IoAnswer := Moved (n : Z) | Interrupted | IoFailed.

(** [p] are the bytes left; the result is the return value, [None] while the
    answers run out, and what reached the file. *)
Fixpoint write_loop (answers : list IoAnswer) (p file : list Z) : option Z * list Z :=
  match p with
  | [] => (Some 0, file)
  | _ :: _ =>
      match answers with
      | [] => (None, file)
      | Interrupted :: rest => write_loop rest p file
      | IoFailed :: _ => (Some (-1), file)
      | Moved n :: rest =>
          let k := Nat.min (Z.to_nat n) (length p) in
          if Nat.eqb k 0 then (Some (-1), file) else write_loop rest (drop k p) (file ++ take k p)
      end
  end.

Definition capture_write_entry (answers : list IoAnswer) (e : CaptureEntry) (file : list Z) : option Z * list Z :=
  write_loop answers (entry_bytes e) file.

(** [got] bytes of the entry are filled, [file] is what is left of the file. *)
Fixpoint read_loop (answers : list IoAnswer) (remaining : nat) (got file : list Z) : option Z * list Z * list Z :=
  match remaining with
  | O => (Some 0, got, file)
  | S _ =>
      match answers with
      | [] => (None, got, file)
      | Interrupted :: rest => read_loop rest remaining got file
      | IoFailed :: _ => (Some (-1), got, file)
      | Moved n :: rest =>
          let k := Nat.min (Nat.min (Z.to_nat n) remaining) (length file) in
          if Nat.eqb k 0 then (Some (-1), got, file)
          else read_loop rest (remaining - k) (got ++ take k file) (drop k file)
      end
  end.

Definition capture_read_entry (answers : list IoAnswer) (file : list Z) : option Z * CaptureEntry * list Z :=
  let '(r, got, rest) := read_loop answers (Z.to_nat kEntrySize) [] file in (r, entry_of_bytes got, rest).

(** ** Words round trip *)

Lemma length_le_bytes n v : length (le_bytes n v) = n.
Proof. revert v. induction n as [|n IH]; intros v; cbn; [done|]. by rewrite IH. Qed.

Lemma le_value_bytes n v : 0 <= v < 256 ^ Z.of_nat n -> le_value (le_bytes n v) = v.
Proof.
  revert v. induction n as [|n IH]; intros v Hv; cbn [le_bytes le_value].
  - change (256 ^ Z.of_nat 0) with 1 in Hv. lia.
  - rewrite Nat2Z.inj_succ, Z.pow_succ_r in Hv by lia. rewrite IH.
    + pose proof (Z.div_mod v 256 ltac:(lia)). lia.
    + split; [apply Z.div_pos; lia | apply Z.div_lt_upper_bound; lia].
Qed.

Record capture_ok (e : CaptureEntry) : Prop := {
  cok_ts : 0 <= ce_timestamp_us e < 2 ^ 64;
  cok_req : 0 <= ce_req_content_length e < 2 ^ 32;
  cok_resp : 0 <= ce_resp_content_length e < 2 ^ 32;
  cok_status : 0 <= ce_resp_status e < 2 ^ 16;
  cok_len : 0 <= ce_raw_header_len e < 2 ^ 16;
  cok_name : length (ce_upstream_name e) = kCaptureNameSize;
  cok_reserved : length (ce_reserved e) = 8%nat;
  cok_raw : length (ce_raw_headers e) = kMaxCaptureHeader
}.

Lemma entry_bytes_length e : capture_ok e -> length (entry_bytes e) = Z.to_nat kEntrySize.
Proof.
  intros []. unfold entry_bytes. rewrite !length_app, !length_le_bytes, cok_name0, cok_reserved0, cok_raw0.
  unfold kCaptureNameSize, kMaxCaptureHeader, kEntrySize. cbn [length]. lia.
Qed.

Lemma entry_bytes_roundtrip e : capture_ok e -> entry_of_bytes (entry_bytes e) = e.
Proof.
  intros []. destruct e as [ts rq rs st hl m sh fl pad name res raw]. cbn in *.
  unfold entry_of_bytes, entry_bytes.
  cbn [ce_timestamp_us ce_req_content_length ce_resp_content_length ce_resp_status ce_raw_header_len ce_method
    ce_shard_id ce_flags ce_pad ce_upstream_name ce_reserved ce_raw_headers].
  f_equal.
  - by apply (le_value_bytes 8).
  - by apply (le_value_bytes 4).
  - by apply (le_value_bytes 4).
  - by apply (le_value_bytes 2).
  - by apply (le_value_bytes 2).
  - change (take 32 (name ++ res ++ raw) = name). by rewrite take_app_length'.
  - change (take 8 (drop 32 (name ++ res ++ raw)) = res). by rewrite drop_app_length', take_app_length'.
  - change (drop 40 (name ++ res ++ raw) = raw). by rewrite app_assoc, drop_app_length' by (by rewrite length_app, cok_name0, cok_reserved0).
Qed.

(** ** The loops move all of an entry *)

Lemma write_loop_spec answers : forall p file,
  let '(r, file') := write_loop answers p file in
  exists sent, file' = file ++ sent /\ sent `prefix_of` p /\ (r = Some 0 -> sent = p) /\ (r = Some 0 \/ r = Some (-1) \/ r = None).
Proof.
  induction answers as [|a answers IH]; intros p file; (destruct p as [|b p]; cbn [write_loop];
    [exists []; rewrite app_nil_r; split_and!; [done | apply prefix_nil | done | auto]|]).
  - exists []. rewrite app_nil_r. split_and!; [done | apply prefix_nil | done | auto].
  - destruct a as [n| |].
    + destruct (Nat.eqb_spec (Nat.min (Z.to_nat n) (length (b :: p))) 0) as [E|E].
      { exists []. rewrite app_nil_r. split_and!; [done | apply prefix_nil | done | auto]. }
      set (k := Nat.min _ _) in *. specialize (IH (drop k (b :: p)) (file ++ take k (b :: p))).
      destruct (write_loop answers _ _) as [r file']. destruct IH as (sent & -> & Hp & Hr & Hc).
      exists (take k (b :: p) ++ sent). rewrite <- app_assoc. split_and!; [done | | | done].
      * rewrite <- (take_drop k (b :: p)) at 2. by apply prefix_app.
      * intros Hz. by rewrite (Hr Hz), take_drop.
    + apply IH.
    + exists []. rewrite app_nil_r. split_and!; [done | apply prefix_nil | done | auto].
Qed.

Lemma read_loop_spec answers : forall n got file,
  let '(r, got', rest) := read_loop answers n got file in
  exists x, got' = got ++ x /\ file = x ++ rest /\ (length x <= n)%nat /\ (r = Some 0 -> length x = n).
Proof.
  induction answers as [|a answers IH]; intros n got file; (destruct n as [|n]; cbn [read_loop];
    [exists []; rewrite app_nil_r; by split_and!|]).
  - exists []. rewrite app_nil_r. split_and!; [done | done | cbn; lia | done].
  - destruct a as [m| |].
    + destruct (Nat.eqb_spec (Nat.min (Nat.min (Z.to_nat m) (S n)) (length file)) 0) as [E|E].
      { exists []. rewrite app_nil_r. split_and!; [done | done | cbn; lia | done]. }
      set (k := Nat.min _ _) in *. specialize (IH (S n - k)%nat (got ++ take k file) (drop k file)).
      destruct (read_loop answers _ _ _) as [[r got'] rest]. destruct IH as (x & -> & Hf & Hl & Hr).
      exists (take k file ++ x). assert (length (take k file) = k) as Hk by (rewrite length_take; lia).
      rewrite length_app, Hk, <- !app_assoc, <- Hf, take_drop. split_and!; [done | done | lia|].
      intros Hz. rewrite (Hr Hz). lia.
    + apply IH.
    + exists []. rewrite app_nil_r. split_and!; [done | done | cbn; lia | done].
Qed.


Definition capture_ex : CaptureEntry :=
  mkCapture 1774279800123000 0 2 200 18 0 3 0 0 (replicate 32 0) (replicate 8 0)
    (bs "GET / HTTP/1.1" ++ CRLF ++ CRLF ++ replicate (Z.to_nat 8174) 0).

Lemma capture_ex_ok : capture_ok capture_ex.
Proof. split; vm_compute; try (split; congruence); reflexivity. Qed.

Definition capture_wa : list IoAnswer := [Moved 100; Interrupted; Moved 10000].


Example capture_header_ex : capture_file_header_valid capture_file_header_init = true.
Proof. reflexivity. Qed.
