(* ===== verification/Response.v ===== *)
(** * Response formatting

    Model of the response formatters of src/runtime/callbacks.cc: the reason
    phrases, the shared header writer, the default, custom-body and
    custom-header formatters with the size computation that makes the last one
    fail closed.  All of them write to the send buffer of the connection. *)

From S2P Require Import Prelude HeaderValidation HttpParser RouteMethod RouteTable Buffer Connection.

Definition send_write (l : list Z) (c : Connection) : res Connection :=
  r ← write (send_buf c) l; Ret (with_send_buf r.2 c).

Definition send_reset (c : Connection) : res Connection :=
  b ← Buffer.reset (send_buf c); Ret (with_send_buf b c).

Definition status_reason (code : Z) : list Z :=
  if code =? 200 then bs "OK"
  else if code =? 201 then bs "Created"
  else if code =? 204 then bs "No Content"
  else if code =? 301 then bs "Moved Permanently"
  else if code =? 302 then bs "Found"
  else if code =? 304 then bs "Not Modified"
  else if code =? 400 then bs "Bad Request"
  else if code =? 401 then bs "Unauthorized"
  else if code =? 403 then bs "Forbidden"
  else if code =? 404 then bs "Not Found"
  else if code =? 405 then bs "Method Not Allowed"
  else if code =? 429 then bs "Too Many Requests"
  else if code =? 500 then bs "Internal Server Error"
  else if code =? 502 then bs "Bad Gateway"
  else if code =? 503 then bs "Service Unavailable"
  else bs "Unknown".

(** [static_cast<char>('0' + d)] *)
Definition digit (d : Z) : Z := ch "0" + d.

Definition code_buf (code : Z) : list Z :=
  [digit ((code / 100) mod 10); digit ((code / 10) mod 10); digit (code mod 10)].

(** The cascade of thresholds, then the last digit. *)
Definition thresholds : list Z :=
  [1000000000; 100000000; 10000000; 1000000; 100000; 10000; 1000; 100; 10].

Fixpoint write_digits_above (ts : list Z) (n : Z) (c : Connection) : res Connection :=
  match ts with
  | [] => Ret c
  | t :: ts' =>
      if t <=? n then c ← send_write [digit ((n / t) mod 10)] c; write_digits_above ts' n c
      else write_digits_above ts' n c
  end.

Definition write_content_length_digits (n : Z) (c : Connection) : res Connection :=
  c ← write_digits_above thresholds n c;
  send_write [digit (n mod 10)] c.

Definition conn_line (keep : bool) : list Z :=
  if keep then bs "Connection: keep-alive" ++ CRLF else bs "Connection: close" ++ CRLF.

Definition write_response_headers (code : Z) (reason : list Z) (body_len : Z) (keep : bool)
    (content_type : list Z) (c : Connection) : res Connection :=
  c ← send_reset c;
  c ← send_write (bs "HTTP/1.1 ") c;
  c ← send_write (code_buf code) c;
  c ← send_write [SP] c;
  c ← send_write reason c;
  c ← send_write CRLF c;
  c ← send_write (bs "Content-Length: ") c;
  c ← write_content_length_digits body_len c;
  c ← send_write CRLF c;
  c ← (if Nat.ltb 0 (length content_type) then
         c ← send_write (bs "Content-Type: ") c;
         c ← send_write content_type c;
         send_write CRLF c
       else Ret c);
  c ← send_write (conn_line keep) c;
  send_write CRLF c.

Definition no_body_code (code : Z) : bool := (code <? 200) || (code =? 204) || (code =? 304).

Definition format_static_response (code : Z) (keep : bool) (c : Connection) : res Connection :=
  let reason := status_reason code in
  let body := if no_body_code code then [] else reason in
  c ← write_response_headers code reason (Z.of_nat (length body)) keep [] c;
  if Nat.ltb 0 (length body) then send_write body c else Ret c.

Definition kDefaultContentType : list Z := bs "text/plain; charset=utf-8".

Definition format_response_with_body (code : Z) (body : list Z) (keep : bool) (c : Connection)
    : res Connection :=
  if no_body_code code then format_static_response code keep c
  else
    c ← write_response_headers code (status_reason code) (Z.of_nat (length body)) keep
          kDefaultContentType c;
    if Nat.ltb 0 (length body) then send_write body c else Ret c.

(** [ResponseHeaderKV]: a header name and value. *)
Definition ResponseHeaderKV : Type := list Z * list Z.

(** [while (v >= 10) { v /= 10; n++; }]: a 32-bit value has ten digits at most. *)
Fixpoint digit_count_loop (fuel : nat) (v : Z) (n : nat) : option nat :=
  match fuel with
  | O => None
  | S fuel' => if 10 <=? v then digit_count_loop fuel' (v / 10) (S n) else Some n
  end.

Definition decimal_digit_count (v : Z) : option nat := digit_count_loop 11 v 1.

Definition is_content_length (h : ResponseHeaderKV) : bool :=
  http_header_name_eq_ci (fst h) (bs "Content-Length").
Definition is_content_type (h : ResponseHeaderKV) : bool :=
  http_header_name_eq_ci (fst h) (bs "Content-Type").

Definition kDefaultContentTypeLine : list Z := bs "Content-Type: text/plain; charset=utf-8" ++ CRLF.

(** The size pass: 32-bit line lengths summed in 64 bits over the headers that
    will be written. *)
Fixpoint headers_needed (hs : list ResponseHeaderKV) (needed : Z) : Z :=
  match hs with
  | [] => needed
  | h :: hs' =>
      if is_content_length h then headers_needed hs' needed
      else headers_needed hs'
             (u64 (needed + u32 (Z.of_nat (length (fst h)) + 2 + Z.of_nat (length (snd h)) + 2)))
  end.

Fixpoint write_user_headers (hs : list ResponseHeaderKV) (c : Connection) : res Connection :=
  match hs with
  | [] => Ret c
  | h :: hs' =>
      if is_content_length h then write_user_headers hs' c
      else
        c ← send_write (fst h) c;
        c ← send_write (bs ": ") c;
        c ← send_write (snd h) c;
        c ← send_write CRLF c;
        write_user_headers hs' c
  end.

Definition response_needed (code : Z) (body : list Z) (hs : list ResponseHeaderKV) (keep : bool)
    (default_ct : bool) : option Z :=
  match decimal_digit_count (Z.of_nat (length body)) with
  | None => None
  | Some dc =>
      let needed := 15 + Z.of_nat (length (status_reason code)) + 16 + Z.of_nat dc + 2 in
      let needed := if default_ct then u64 (needed + Z.of_nat (length kDefaultContentTypeLine)) else needed in
      let needed := headers_needed hs needed in
      let needed := u64 (needed + (if keep then 24 else 19)) in
      let needed := u64 (needed + 2) in
      Some (u64 (needed + Z.of_nat (length body)))
  end.

Definition format_response_with_body_and_headers (code : Z) (body0 : list Z)
    (hs : list ResponseHeaderKV) (keep fallback : bool) (c : Connection) : res Connection :=
  let body := if no_body_code code then [] else body0 in
  let reason := status_reason code in
  let default_ct := negb (existsb is_content_type hs) && Nat.ltb 0 (length body) && negb fallback in
  match response_needed code body hs keep default_ct with
  | None => Fault
  | Some needed =>
      if cap (send_buf c) <? needed then
        format_static_response 500 false (with_keep_alive false (with_resp_status 500 c))
      else
        c ← send_reset c;
        c ← send_write (bs "HTTP/1.1 ") c;
        c ← send_write (code_buf code) c;
        c ← send_write [SP] c;
        c ← send_write reason c;
        c ← send_write CRLF c;
        c ← send_write (bs "Content-Length: ") c;
        c ← write_content_length_digits (Z.of_nat (length body)) c;
        c ← send_write CRLF c;
        c ← (if default_ct then send_write kDefaultContentTypeLine c else Ret c);
        c ← write_user_headers hs c;
        c ← send_write (conn_line keep) c;
        c ← send_write CRLF c;
        if Nat.ltb 0 (length body) then send_write body c else Ret c
  end.

(** ** What a formatter appends *)

(** [f] appends [l] to the send buffer when it fits, and changes nothing else. *)
Definition Emits (f : Connection -> res Connection) (l : list Z) : Prop :=
  forall c, writable (send_buf c) -> Z.of_nat (length l) <= room (send_buf c) ->
  exists b, f c = Ret (with_send_buf b c) /\ writable b /\ cap b = cap (send_buf c) /\
    contents b = contents (send_buf c) ++ l.

Lemma emits_write l : Emits (send_write l) l.
Proof.
  intros c Hw Hr. destruct (write_spec (send_buf c) l Hw) as (b & Hb & Hw' & Hc & Hct & _).
  exists b. unfold send_write. rewrite Hb. cbn. split_and!; try done.
  rewrite Hct. f_equal. apply take_ge. lia.
Qed.

Lemma emits_ret : Emits Ret [].
Proof. intros c Hw _. exists (send_buf c). rewrite app_nil_r. split_and!; try done. by destruct c. Qed.

Lemma emits_bind f g l1 l2 :
  Emits f l1 -> Emits g l2 -> Emits (fun c => f c ≫= g) (l1 ++ l2).
Proof.
  intros Hf Hg c Hw Hr. rewrite length_app in Hr.
  destruct (Hf c Hw) as (b & Hb & Hw' & Hc & Hct); [lia|]. rewrite Hb. cbn.
  destruct (Hg (with_send_buf b c)) as (b2 & Hb2 & Hw2 & Hc2 & Hct2); [done| |].
  - cbn. pose proof (length_contents _ Hw). pose proof (length_contents _ Hw') as Hl.
    rewrite Hct, length_app in Hl. unfold room in *. lia.
  - exists b2. rewrite Hb2. cbn in *. split_and!; try done; [congruence|].
    by rewrite Hct2, Hct, app_assoc.
Qed.

Lemma emits_if (t : bool) f g l1 l2 :
  Emits f l1 -> Emits g l2 -> Emits (fun c => if t then f c else g c) (if t then l1 else l2).
Proof. intros. by destruct t. Qed.

Create HintDb emits.
#[export] Hint Resolve emits_write emits_ret emits_bind emits_if : emits.

Fixpoint digits_above (ts : list Z) (n : Z) : list Z :=
  match ts with
  | [] => []
  | t :: ts' => if t <=? n then digit ((n / t) mod 10) :: digits_above ts' n else digits_above ts' n
  end.

(** The decimal text of a 32-bit number. *)
Definition dec (n : Z) : list Z := digits_above thresholds n ++ [digit (n mod 10)].

Lemma emits_digits_above ts n : Emits (write_digits_above ts n) (digits_above ts n).
Proof.
  induction ts as [|t ts IH]; cbn [write_digits_above digits_above]; [apply emits_ret|].
  destruct (t <=? n); [|done]. apply (emits_bind _ _ [_] _); [apply emits_write | apply IH].
Qed.

Lemma emits_digits n : Emits (write_content_length_digits n) (dec n).
Proof. apply emits_bind; [apply emits_digits_above | apply emits_write]. Qed.

Definition header_text (h : ResponseHeaderKV) : list Z := fst h ++ bs ": " ++ snd h ++ CRLF.

Definition kept_headers (hs : list ResponseHeaderKV) : list ResponseHeaderKV :=
  filter (fun h => is_content_length h = false) hs.

Lemma emits_user_headers hs :
  Emits (write_user_headers hs) (mjoin (header_text <$> kept_headers hs)).
Proof.
  unfold kept_headers. induction hs as [|h hs IH]; cbn [write_user_headers]; [apply emits_ret|].
  rewrite filter_cons. destruct (is_content_length h) eqn:E; [by rewrite decide_False by done|].
  rewrite decide_True by done. cbn. unfold header_text. rewrite <- !app_assoc.
  repeat (apply emits_bind; [apply emits_write|]). apply IH.
Qed.

(** The bytes of a response. *)
Definition status_text (code : Z) : list Z :=
  bs "HTTP/1.1 " ++ code_buf code ++ [SP] ++ status_reason code ++ CRLF.

Definition response_text (code : Z) (ct : list Z) (hs : list ResponseHeaderKV) (keep : bool)
    (body : list Z) : list Z :=
  status_text code ++ bs "Content-Length: " ++ dec (Z.of_nat (length body)) ++ CRLF ++
  ct ++ mjoin (header_text <$> hs) ++ conn_line keep ++ CRLF ++ body.

Lemma emits_body body :
  Emits (fun c => if Nat.ltb 0 (length body) then send_write body c else Ret c) body.
Proof.
  destruct body as [|x body]; cbn; [apply emits_ret | apply (emits_write (x :: body))].
Qed.

(** From an empty buffer: a formatter that starts with a reset. *)
Lemma reset_then f l c :
  Emits f l -> writable (send_buf c) -> Z.of_nat (length l) <= cap (send_buf c) ->
  exists b, (send_reset c ≫= f) = Ret (with_send_buf b c) /\ writable b /\
    cap b = cap (send_buf c) /\ contents b = l.
Proof.
  intros Hf Hw Hl. destruct (reset_spec _ Hw) as (b0 & Hb0 & Hw0 & Hc0 & Hct0 & Hl0 & _).
  unfold send_reset. rewrite Hb0. cbn.
  destruct (Hf (with_send_buf b0 c)) as (b & Hb & Hw' & Hc & Hct); [done | unfold room; cbn; lia |].
  exists b. cbn in *. rewrite Hb, Hct0 in *. split_and!; try done. congruence.
Qed.

Lemma res_bind_assoc {A B C} (m : res A) (f : A -> res B) (g : B -> res C) :
  (m ≫= f) ≫= g = m ≫= (fun x => f x ≫= g).
Proof. by destruct m. Qed.

Definition ct_line (content_type : list Z) : list Z :=
  if Nat.ltb 0 (length content_type) then bs "Content-Type: " ++ content_type ++ CRLF else [].

Lemma headers_then_body code body keep ctype c :
  let text := response_text code (ct_line ctype) [] keep body in
  writable (send_buf c) -> Z.of_nat (length text) <= cap (send_buf c) ->
  exists b, (c ← write_response_headers code (status_reason code) (Z.of_nat (length body)) keep ctype c;
             if Nat.ltb 0 (length body) then send_write body c else Ret c) = Ret (with_send_buf b c) /\
    writable b /\ cap b = cap (send_buf c) /\ contents b = text.
Proof.
  cbv zeta. intros Hw Hl. unfold write_response_headers. rewrite res_bind_assoc.
  apply reset_then; [|done|done].
  replace (response_text _ _ _ _ _) with
    ((bs "HTTP/1.1 " ++ code_buf code ++ [SP] ++ status_reason code ++ CRLF ++ bs "Content-Length: " ++
      dec (Z.of_nat (length body)) ++ CRLF ++ ct_line ctype ++ conn_line keep ++ CRLF) ++ body)
    by (unfold response_text, status_text; by rewrite <- !app_assoc).
  apply emits_bind; [|apply emits_body].
  do 6 (apply emits_bind; [apply emits_write|]). apply emits_bind; [apply emits_digits|].
  apply emits_bind; [apply emits_write|]. apply emits_bind.
  - unfold ct_line. apply emits_if; [|apply emits_ret].
    do 2 (apply emits_bind; [apply emits_write|]). apply emits_write.
  - apply emits_bind; apply emits_write.
Qed.

Definition static_body (code : Z) : list Z := if no_body_code code then [] else status_reason code.

Lemma format_static_spec code keep c :
  let text := response_text code [] [] keep (static_body code) in
  writable (send_buf c) -> Z.of_nat (length text) <= cap (send_buf c) ->
  exists b, format_static_response code keep c = Ret (with_send_buf b c) /\ writable b /\
    cap b = cap (send_buf c) /\ contents b = text.
Proof. apply (headers_then_body code (static_body code) keep []). Qed.

Lemma format_body_spec code body keep c :
  no_body_code code = false ->
  let text := response_text code (ct_line kDefaultContentType) [] keep body in
  writable (send_buf c) -> Z.of_nat (length text) <= cap (send_buf c) ->
  exists b, format_response_with_body code body keep c = Ret (with_send_buf b c) /\ writable b /\
    cap b = cap (send_buf c) /\ contents b = text.
Proof.
  intros Hn. unfold format_response_with_body. rewrite Hn.
  apply (headers_then_body code body keep kDefaultContentType).
Qed.

(** ** Decimal numbers *)

Fixpoint dec_k (k : nat) (n : Z) : list Z :=
  match k with
  | O => []
  | S k' => digit ((n / 10 ^ Z.of_nat k') mod 10) :: dec_k k' n
  end.

Lemma length_dec_k k n : length (dec_k k n) = k.
Proof. induction k; cbn; congruence. Qed.

Fixpoint thr (k : nat) : list Z :=
  match k with O => [] | S k' => 10 ^ Z.of_nat (S k') :: thr k' end.

Lemma digits_above_full k n :
  (k = 0%nat \/ 10 ^ Z.of_nat k <= n) -> digits_above (thr k) n ++ [digit (n mod 10)] = dec_k (S k) n.
Proof.
  induction k as [|k IH]; intros Hk; cbn [thr digits_above dec_k].
  - by rewrite Z.div_1_r.
  - destruct Hk as [|Hk]; [done|]. destruct (Z.leb_spec (10 ^ Z.of_nat (S k)) n); [|lia].
    cbn [app]. rewrite IH; [done|]. right. etransitivity; [|exact Hk].
    apply Z.pow_le_mono_r; lia.
Qed.

(** A number below 10^(k+1) has at most k+1 digits and [dec] writes just them. *)
Lemma digits_above_dec k n :
  0 <= n < 10 ^ Z.of_nat (S k) ->
  exists j, (j <= k)%nat /\ (j = 0%nat \/ 10 ^ Z.of_nat j <= n) /\ n < 10 ^ Z.of_nat (S j) /\
    digits_above (thr k) n ++ [digit (n mod 10)] = dec_k (S j) n.
Proof.
  induction k as [|k IH]; intros Hn.
  - exists 0%nat. split_and!; [done | by left | apply Hn | by apply digits_above_full; left].
  - cbn [thr digits_above]. destruct (Z.leb_spec (10 ^ Z.of_nat (S k)) n).
    + exists (S k). split_and!; [done | by right | apply Hn |].
      rewrite <- (digits_above_full (S k)) by (by right). cbn [thr digits_above].
      destruct (Z.leb_spec (10 ^ Z.of_nat (S k)) n); [done|lia].
    + destruct IH as (j & ? & ?); [lia|]. exists j. split; [lia|done].
Qed.

Lemma dec_spec n :
  0 <= n < 2 ^ 32 ->
  exists j, (j <= 9)%nat /\ (j = 0%nat \/ 10 ^ Z.of_nat j <= n) /\ n < 10 ^ Z.of_nat (S j) /\
    dec n = dec_k (S j) n.
Proof. intros Hn. apply (digits_above_dec 9). cbn. lia. Qed.

Lemma digit_count_spec fuel j v n :
  (j < fuel)%nat -> (j = 0%nat \/ 10 ^ Z.of_nat j <= v) -> 0 <= v < 10 ^ Z.of_nat (S j) ->
  digit_count_loop fuel v n = Some (n + j)%nat.
Proof.
  revert fuel v n. induction j as [|j IH]; intros [|fuel] v n Hf Hl Hu; try lia; cbn [digit_count_loop].
  - destruct (Z.leb_spec 10 v); [cbn in Hu; lia|]. f_equal. lia.
  - destruct Hl as [|Hl]; [done|].
    rewrite (Nat2Z.inj_succ (S j)), Z.pow_succ_r, Nat2Z.inj_succ, Z.pow_succ_r in Hu by lia.
    rewrite Nat2Z.inj_succ, Z.pow_succ_r in Hl by lia.
    pose proof (Z.pow_pos_nonneg 10 (Z.of_nat j)).
    destruct (Z.leb_spec 10 v); [|lia].
    rewrite (IH fuel (v / 10) (S n)).
    + f_equal. lia.
    + lia.
    + right. apply Z.div_le_lower_bound; lia.
    + rewrite Nat2Z.inj_succ, Z.pow_succ_r by lia. split; [apply Z.div_pos; lia|].
      apply Z.div_lt_upper_bound; lia.
Qed.

Lemma digit_count_dec n : 0 <= n < 2 ^ 32 -> decimal_digit_count n = Some (length (dec n)).
Proof.
  intros Hn. destruct (dec_spec n Hn) as (j & Hj & Hl & Hu & ->). rewrite length_dec_k.
  unfold decimal_digit_count. rewrite (digit_count_spec 11 j); try done; [lia | lia].
Qed.

(** Reading the digits back. *)
Lemma parse_digits k v n :
  0 <= v -> 0 <= n -> v * 10 ^ Z.of_nat k + n mod 10 ^ Z.of_nat k < 2 ^ 32 ->
  parse_uint_loop v (dec_k k n) = UOk (v * 10 ^ Z.of_nat k + n mod 10 ^ Z.of_nat k).
Proof.
  revert v. induction k as [|k IH]; intros v Hv Hn Hb; cbn [dec_k parse_uint_loop].
  - change (10 ^ Z.of_nat 0) with 1. rewrite Z.mod_1_r. f_equal. lia.
  - rewrite Nat2Z.inj_succ, Z.pow_succ_r in * by lia.
    set (p := 10 ^ Z.of_nat k) in *. assert (0 < p) by (apply Z.pow_pos_nonneg; lia).
    set (d := (n / p) mod 10). assert (0 <= d < 10) by (apply Z.mod_pos_bound; lia).
    assert (n mod (10 * p) = d * p + n mod p) as Hm.
    { rewrite (Z.mul_comm 10), Z.rem_mul_r by lia. subst d. lia. }
    rewrite Hm in *. pose proof (Z.mod_pos_bound n p ltac:(done)).
    assert (v * 10 + d < 2 ^ 32) by nia.
    replace (digit d - ch "0") with d by (unfold digit; lia). rewrite u32_small by lia.
    destruct (Z.ltb_spec 9 d); [lia|].
    destruct (Z.ltb_spec ((4294967295 - d) / 10) v) as [Hov|_].
    { exfalso. pose proof (Z.div_le_lower_bound (4294967295 - d) 10 v). lia. }
    rewrite u32_small by lia. rewrite IH by lia. f_equal. lia.
Qed.

Lemma parse_dec n : 0 <= n < 2 ^ 32 -> parse_uint (dec n) = UOk n.
Proof.
  intros Hn. destruct (dec_spec n Hn) as (j & _ & _ & Hu & ->).
  unfold parse_uint. rewrite length_dec_k. cbn [Nat.eqb].
  rewrite parse_digits; rewrite ?Z.mod_small by lia; [f_equal; lia | lia..].
Qed.

(** ** The size computation *)

Lemma length_header_text h :
  Z.of_nat (length (header_text h)) = Z.of_nat (length (fst h)) + 2 + Z.of_nat (length (snd h)) + 2.
Proof. unfold header_text, CRLF. simp_len. change (length (bs ": ")) with 2%nat. lia. Qed.

Lemma length_headers_cons h hs :
  Z.of_nat (length (mjoin (header_text <$> h :: hs))) =
  Z.of_nat (length (fst h)) + 2 + Z.of_nat (length (snd h)) + 2 +
  Z.of_nat (length (mjoin (header_text <$> hs))).
Proof. rewrite fmap_cons. cbn [mjoin list_join]. by rewrite length_app, Nat2Z.inj_add, length_header_text. Qed.

Lemma headers_needed_spec hs n :
  0 <= n -> n < 2 ^ 33 -> Z.of_nat (length (mjoin (header_text <$> hs))) < 2 ^ 32 ->
  headers_needed hs n = n + Z.of_nat (length (mjoin (header_text <$> kept_headers hs))).
Proof.
  assert (forall hs n, 0 <= n -> n + Z.of_nat (length (mjoin (header_text <$> hs))) < 2 ^ 34 ->
    Z.of_nat (length (mjoin (header_text <$> hs))) < 2 ^ 32 ->
    headers_needed hs n = n + Z.of_nat (length (mjoin (header_text <$> kept_headers hs)))) as H.
  { clear. unfold kept_headers. induction hs as [|h hs IH]; intros n Hn Hb Hh; cbn [headers_needed].
    - cbn. lia.
    - rewrite length_headers_cons in Hb, Hh. rewrite filter_cons.
      destruct (is_content_length h).
      + rewrite decide_False by done. apply IH; lia.
      + rewrite decide_True by done. rewrite u32_small, u64_small by lia. rewrite IH by lia.
        rewrite length_headers_cons. lia. }
  intros. apply H; lia.
Qed.

Lemma length_status_reason code : (length (status_reason code) <= 21)%nat.
Proof. unfold status_reason. repeat (case_if; [cbn; lia|]). cbn. lia. Qed.

Lemma length_kept hs :
  (length (mjoin (header_text <$> kept_headers hs)) <= length (mjoin (header_text <$> hs)))%nat.
Proof.
  unfold kept_headers. induction hs as [|h hs IH]; [done|]. rewrite filter_cons.
  apply Nat2Z.inj_le in IH. apply Nat2Z.inj_le. case_decide; rewrite !length_headers_cons; lia.
Qed.

Lemma length_conn_line keep : Z.of_nat (length (conn_line keep)) = if keep then 24 else 19.
Proof. by destruct keep. Qed.

Lemma length_response_text code ct hs keep body :
  Z.of_nat (length (response_text code ct hs keep body)) =
  15 + Z.of_nat (length (status_reason code)) + 16 + Z.of_nat (length (dec (Z.of_nat (length body)))) + 2 +
  Z.of_nat (length ct) + Z.of_nat (length (mjoin (header_text <$> hs))) + (if keep then 24 else 19) + 2 +
  Z.of_nat (length body).
Proof.
  rewrite <- length_conn_line. unfold response_text, status_text, CRLF, code_buf. simp_len.
  change (length (bs "HTTP/1.1 ")) with 9%nat. change (length (bs "Content-Length: ")) with 16%nat. lia.
Qed.

Lemma length_dec n : 0 <= n < 2 ^ 32 -> (length (dec n) <= 10)%nat.
Proof. intros Hn. destruct (dec_spec n Hn) as (j & ? & _ & _ & ->). rewrite length_dec_k. lia. Qed.

(** Remove in-range 64-bit wraps, innermost first. *)
Ltac drop_u64 :=
  repeat match goal with
  | |- context [u64 ?x] =>
      lazymatch x with context [u64 _] => fail | _ => rewrite (u64_small x) by lia end
  end.

(** The bytes announced by the size pass are the bytes of the response. *)
Lemma response_needed_spec code body hs keep dct :
  Z.of_nat (length body) < 2 ^ 32 -> Z.of_nat (length (mjoin (header_text <$> hs))) < 2 ^ 32 ->
  response_needed code body hs keep dct =
  Some (Z.of_nat (length (response_text code (if dct then kDefaultContentTypeLine else [])
                            (kept_headers hs) keep body))).
Proof.
  intros Hb Hh. unfold response_needed. rewrite digit_count_dec by lia.
  rewrite length_response_text.
  pose proof (length_status_reason code). pose proof (length_dec (Z.of_nat (length body)) ltac:(lia)).
  pose proof (length_kept hs). f_equal.
  assert (length kDefaultContentTypeLine = 41%nat) as Hct by reflexivity. rewrite Hct.
  rewrite (u64_small (_ + Z.of_nat 41)) by lia.
  rewrite headers_needed_spec; [|destruct dct; lia..|done].
  destruct dct, keep; cbn [length]; rewrite ?Hct; drop_u64; lia.
Qed.

Lemma emits_full code body hs keep (dct : bool) :
  Emits (fun c =>
    c ← send_write (bs "HTTP/1.1 ") c;
    c ← send_write (code_buf code) c;
    c ← send_write [SP] c;
    c ← send_write (status_reason code) c;
    c ← send_write CRLF c;
    c ← send_write (bs "Content-Length: ") c;
    c ← write_content_length_digits (Z.of_nat (length body)) c;
    c ← send_write CRLF c;
    c ← (if dct then send_write kDefaultContentTypeLine c else Ret c);
    c ← write_user_headers hs c;
    c ← send_write (conn_line keep) c;
    c ← send_write CRLF c;
    if Nat.ltb 0 (length body) then send_write body c else Ret c)
  (response_text code (if dct then kDefaultContentTypeLine else []) (kept_headers hs) keep body).
Proof.
  unfold response_text, status_text. rewrite <- !app_assoc.
  do 6 (apply emits_bind; [apply emits_write|]). apply emits_bind; [apply emits_digits|].
  apply emits_bind; [apply emits_write|].
  apply emits_bind; [apply (emits_if dct (send_write kDefaultContentTypeLine)); auto with emits|].
  apply emits_bind; [apply emits_user_headers|].
  do 2 (apply emits_bind; [apply emits_write|]). apply emits_body.
Qed.

Definition body_of (code : Z) (body0 : list Z) : list Z := if no_body_code code then [] else body0.

Definition default_ct (hs : list ResponseHeaderKV) (body : list Z) (fallback : bool) : bool :=
  negb (existsb is_content_type hs) && Nat.ltb 0 (length body) && negb fallback.

(** The response the custom-header formatter means to send. *)
Definition full_text (code : Z) (body0 : list Z) (hs : list ResponseHeaderKV) (keep fallback : bool) : list Z :=
  let body := body_of code body0 in
  response_text code (if default_ct hs body fallback then kDefaultContentTypeLine else [])
    (kept_headers hs) keep body.

Definition text_500 : list Z := response_text 500 [] [] false (bs "Internal Server Error").

Lemma format_full_spec code body0 hs keep fallback c :
  let text := full_text code body0 hs keep fallback in
  writable (send_buf c) -> 128 <= cap (send_buf c) ->
  Z.of_nat (length body0) < 2 ^ 32 -> Z.of_nat (length (mjoin (header_text <$> hs))) < 2 ^ 32 ->
  exists b, writable b /\ cap b = cap (send_buf c) /\
    if Z.of_nat (length text) <=? cap (send_buf c) then
      format_response_with_body_and_headers code body0 hs keep fallback c = Ret (with_send_buf b c) /\
      contents b = text
    else
      format_response_with_body_and_headers code body0 hs keep fallback c =
        Ret (with_send_buf b (with_keep_alive false (with_resp_status 500 c))) /\
      contents b = text_500.
Proof.
  cbv zeta. intros Hw Hcap Hb Hh. unfold format_response_with_body_and_headers. fold (body_of code body0).
  fold (default_ct hs (body_of code body0) fallback).
  assert (Z.of_nat (length (body_of code body0)) < 2 ^ 32) as Hb' by (unfold body_of; case_if; [done|lia]).
  rewrite response_needed_spec by done. fold (full_text code body0 hs keep fallback).
  destruct (Z.leb_spec (Z.of_nat (length (full_text code body0 hs keep fallback))) (cap (send_buf c))) as [Hf|Hf].
  - destruct (Z.ltb_spec (cap (send_buf c)) (Z.of_nat (length (full_text code body0 hs keep fallback)))); [lia|].
    destruct (reset_then _ _ c (emits_full code (body_of code body0) hs keep (default_ct hs (body_of code body0) fallback)) Hw)
      as (b & Hr & ? & ? & ?); [exact Hf|]. exists b. split_and!; done.
  - destruct (Z.ltb_spec (cap (send_buf c)) (Z.of_nat (length (full_text code body0 hs keep fallback)))); [|lia].
    destruct (format_static_spec 500 false (with_keep_alive false (with_resp_status 500 c))) as (b & ? & ? & ? & ?);
      [done | cbn [send_buf with_keep_alive with_resp_status]; etransitivity; [|exact Hcap]; by vm_compute |].
    exists b. split_and!; done.
Qed.
