(* ===== verification/ResponseWire.v ===== *)
(** * Formatted responses on the wire

    The responses of [Response] read back by the response parser of
    [HttpParser]: the status, the framing and the connection semantics that were
    asked for, and the body right behind the reported end of the head. *)

From S2P Require Import Prelude HeaderValidation Simd HttpParser HttpGrammar HttpFraming Buffer Connection Response.

(** ** The header loop on well-formed fields *)

Definition push_header (resp : ParsedResponse) (h : Header) : ParsedResponse :=
  if Nat.ltb (length (r_headers resp)) kMaxHeaders then r_set_headers resp (r_headers resp ++ [h]) else resp.

Lemma response_loop_step buf fuel pos resp f rest resp2 :
  Forall is_byte buf -> field_ok f -> drop pos buf = field_text f ++ rest ->
  apply_semantic_header_response (f_name f) (f_value f) (push_header resp (field_views pos f)) = (Complete, resp2) ->
  response_header_loop (S := scalar_scanners) (S fuel) buf pos resp =
  response_header_loop (S := scalar_scanners) fuel buf (pos + length (field_text f)) resp2.
Proof.
  intros Hb Hf Hd Hs. cbn [response_header_loop]. unfold response_header_line.
  rewrite (header_line_field buf Hb pos f rest Hf Hd). destruct (field_bytes buf pos f rest Hd) as [-> ->].
  unfold push_header in Hs. destruct (field_views pos f) as [n v]. cbn [h_name h_value].
  by rewrite Hs.
Qed.

Lemma response_loop_end buf fuel pos resp rest :
  drop pos buf = CRLF ++ rest ->
  response_header_loop (S := scalar_scanners) (S fuel) buf pos resp =
  Some (POut Complete (pos + 2) (r_set_header_count resp (length (r_headers resp)))).
Proof.
  intros Hd. cbn [response_header_loop]. unfold response_header_line.
  by rewrite (header_line_end buf pos rest Hd).
Qed.

(** The fields that decide framing and reuse. *)
Definition framing (r : ParsedResponse) : Z * Z * bool * bool * bool :=
  (r_status_code r, r_content_length r, r_has_content_length r, r_chunked r, r_keep_alive r).

Lemma push_header_framing resp h : framing (push_header resp h) = framing resp.
Proof. unfold push_header. by destruct (Nat.ltb _ _). Qed.

Definition plain_field (f : field) : Prop :=
  ~ HttpFraming.is_content_length f /\ ~ is_connection f /\ ~ is_transfer_encoding f.

Lemma semantic_plain f resp :
  field_ok f -> plain_field f ->
  apply_semantic_header_response (f_name f) (f_value f) resp = (Complete, resp).
Proof.
  intros (Hne & Ht & _) (H1 & H2 & H3). unfold apply_semantic_header_response.
  pose proof (name_test (f_name f) (ch "c") "ontent-length" 14 Hne Ht) as E1.
  pose proof (name_test (f_name f) (ch "c") "onnection" 10 Hne Ht) as E2.
  pose proof (name_test (f_name f) (ch "t") "ransfer-encoding" 17 Hne Ht) as E3.
  rewrite bool_decide_eq_false_2 in E1 by exact H1. rewrite bool_decide_eq_false_2 in E2 by exact H2.
  rewrite bool_decide_eq_false_2 in E3 by exact H3.
  specialize (E1 eq_refl ltac:(by repeat constructor) eq_refl).
  specialize (E2 eq_refl ltac:(by repeat constructor) eq_refl).
  specialize (E3 eq_refl ltac:(by repeat constructor) eq_refl).
  destruct (Z.lor (rd (f_name f) 0) 32 =? ch "c"); cbn [andb] in *.
  - by rewrite E1, E2.
  - destruct (Z.lor (rd (f_name f) 0) 32 =? ch "t"); cbn [andb] in *; [by rewrite E3 | done].
Qed.

Lemma response_loop_plain buf fuel pos resp fs rest :
  Forall is_byte buf -> Forall field_ok fs -> Forall plain_field fs ->
  drop pos buf = fields_text fs ++ rest ->
  exists resp', framing resp' = framing resp /\
    response_header_loop (S := scalar_scanners) (length fs + fuel) buf pos resp =
    response_header_loop (S := scalar_scanners) fuel buf (pos + length (fields_text fs)) resp'.
Proof.
  intros Hb. revert pos resp. induction fs as [|f fs IH]; intros pos resp Hok Hpl Hd.
  - exists resp. split; [done|]. cbn. by rewrite Nat.add_0_r.
  - apply Forall_cons in Hok as [Hf Hok]. apply Forall_cons in Hpl as [Hp Hpl].
    rewrite fields_text_cons, <- app_assoc in Hd.
    destruct (IH (pos + length (field_text f))%nat (push_header resp (field_views pos f)) Hok Hpl)
      as (resp' & Hfr & Hl).
    { by rewrite <- drop_drop, Hd, drop_app_length. }
    exists resp'. rewrite Hfr, push_header_framing. split; [done|].
    cbn [length Nat.add]. rewrite (response_loop_step _ _ _ _ _ _ _ Hb Hf Hd (semantic_plain _ _ Hf Hp)).
    rewrite Hl, fields_text_cons, length_app. f_equal. lia.
Qed.

(** ** User headers as fields *)

Lemma ows_split v :
  exists a m b, v = a ++ m ++ b /\ Forall (fun x => is_ows x = true) a /\ Forall (fun x => is_ows x = true) b /\
    (forall x, head m = Some x -> is_ows x = false) /\ (forall x, last m = Some x -> is_ows x = false) /\
    (m = [] -> b = []).
Proof.
  assert (forall v, exists m b, v = m ++ b /\ Forall (fun x => is_ows x = true) b /\
    (forall x, last m = Some x -> is_ows x = false)) as Hr.
  { clear. intros v. induction v as [|x v IH] using rev_ind; [by exists [], []|].
    destruct (is_ows x) eqn:E.
    - destruct IH as (m & b & -> & Hb & Hl). exists m, (b ++ [x]). rewrite <- app_assoc.
      split_and!; [done | apply Forall_app; by repeat constructor | done].
    - exists (v ++ [x]), []. rewrite app_nil_r, last_snoc. split_and!; [done | done | by intros ? [= <-]]. }
  induction v as [|x v IH]; [by exists [], [], []|]. destruct (is_ows x) eqn:E.
  - destruct IH as (a & m & b & -> & Ha & Hb & Hh & Hl & Hn). exists (x :: a), m, b. split_and!; try done.
    by constructor.
  - destruct (Hr (x :: v)) as (m & b & Hv & Hb & Hl). exists [], m, b.
    destruct m as [|y m].
    + cbn in Hv. subst b. inversion Hb. congruence.
    + injection Hv as <- Hv. split_and!; try done; [by rewrite Hv | by intros ? [= <-]].
Qed.

Definition header_ok (h : ResponseHeaderKV) : Prop :=
  Forall is_byte (fst h) /\ Forall is_byte (snd h) /\ validate_response_header (fst h) (snd h) = Ok.

Lemma header_field h :
  header_ok h -> exists f, field_ok f /\ plain_field f /\ field_text f = header_text h /\ f_name f = fst h.
Proof.
  intros (Hk & Hv & Hval). apply validate_accepts in Hval as (Hne & Ht & Hres & Hch).
  destruct (ows_split (snd h)) as (a & m & b & Em & Ha & Hb & Hh & Hl & Hn).
  exists (Field (fst h) (SP :: a) m b). unfold field_ok, plain_field, field_text, header_text.
  cbn [f_name f_ows1 f_value f_ows2].
  rewrite Em in Hv, Hch. rewrite !Forall_app in Hv, Hch.
  split_and!; try done.
  - apply Forall_and; done.
  - by constructor.
  - apply Forall_and. split; [apply Hv | apply Hch].
  - apply (Hres (bs "Content-Length")). set_solver.
  - apply (Hres (bs "Connection")). set_solver.
  - apply (Hres (bs "Transfer-Encoding")). set_solver.
  - rewrite Em. change (bs ": ") with [ch ":"; SP]. by rewrite <- !app_assoc.
Qed.

Lemma headers_fields hs :
  Forall header_ok hs ->
  exists fs, Forall field_ok fs /\ Forall plain_field fs /\ fields_text fs = mjoin (header_text <$> hs).
Proof.
  induction 1 as [|h hs Hh _ (fs & Hok & Hpl & Ht)]; [by exists []|].
  destruct (header_field h Hh) as (f & Hf & Hp & Hft & _). exists (f :: fs).
  split_and!; [by constructor.. |]. rewrite fields_text_cons, Hft, Ht. done.
Qed.

(** ** The status line *)

Lemma status_reason_no_cr code : Forall (fun b => is_byte b /\ b <> CR) (status_reason code).
Proof.
  unfold status_reason.
  repeat (case_if; [by apply Forall_fmap; repeat constructor|]). by apply Forall_fmap; repeat constructor.
Qed.

Lemma scan_cr_run pos l rest :
  Forall (fun b => b <> CR) l -> scan_cr pos (l ++ CR :: rest) = (pos + length l)%nat.
Proof.
  intros H. revert pos. induction H as [|b l Hb _ IH]; intros pos; cbn [app scan_cr length].
  - rewrite Z.eqb_refl. lia.
  - rewrite (proj2 (Z.eqb_neq b CR) Hb), IH. lia.
Qed.

Lemma code_digits code : 100 <= code <= 599 ->
  (code / 100) mod 10 * 100 + (code / 10) mod 10 * 10 + code mod 10 = code.
Proof.
  intros H. pose proof (Z.div_mod code 10). pose proof (Z.div_mod (code / 10) 10).
  pose proof (Z.mod_pos_bound code 10). pose proof (Z.mod_pos_bound (code / 10) 10).
  assert (code / 100 = code / 10 / 10) as E by (rewrite Z.div_div by lia; done).
  rewrite (Z.mod_small (code / 100)); [lia|].
  split; [apply Z.div_pos; lia | apply Z.div_lt_upper_bound; lia].
Qed.

Lemma u32_digit d : 0 <= d < 10 -> u32 (digit d - ch "0") = d.
Proof. intros. unfold digit. rewrite u32_small; lia. Qed.

Lemma status_line_parses code rest r0 :
  100 <= code <= 599 -> rest <> [] ->
  parse_status_line (status_text code ++ rest) r0 =
  inr (length (status_text code), r_set_status (r_set_keep_alive (r_reset r0) true) code).
Proof.
  intros Hc Hr. set (tl := [SP] ++ status_reason code ++ CR :: LF :: rest).
  assert (status_text code ++ rest = bs "HTTP/1.1 " ++ code_buf code ++ tl) as ->.
  { unfold status_text, tl, CRLF. by rewrite <- !app_assoc. }
  assert (length (status_text code) = (12 + (1 + length (status_reason code)) + 2)%nat) as ->.
  { unfold status_text, CRLF. simp_len. change (length (bs "HTTP/1.1 ")) with 9%nat. cbn. lia. }
  assert (scan_cr 12 tl = (12 + (1 + length (status_reason code)))%nat) as Hscan.
  { subst tl. rewrite app_assoc, scan_cr_run; [by simp_len|]. constructor; [done|].
    eapply Forall_impl; [apply status_reason_no_cr|]. by intros ? []. }
  assert (length tl = (1 + length (status_reason code) + 2 + length rest)%nat) as Hlen.
  { subst tl. simp_len. lia. }
  assert (rd tl (1 + length (status_reason code) + 1) = LF) as Hlf.
  { subst tl. rewrite app_assoc.
    replace (1 + length (status_reason code) + 1)%nat with (length ([SP] ++ status_reason code) + 1)%nat
      by (simp_len; lia). by rewrite rd_app_r. }
  clearbody tl.
  pose proof (code_digits code Hc) as Hd.
  pose proof (Z.mod_pos_bound (code / 100) 10 ltac:(lia)) as B0.
  pose proof (Z.mod_pos_bound (code / 10) 10 ltac:(lia)) as B1.
  pose proof (Z.mod_pos_bound code 10 ltac:(lia)) as B2.
  unfold code_buf. set (d0 := (code / 100) mod 10) in *. set (d1 := (code / 10) mod 10) in *.
  set (d2 := code mod 10) in *. unfold parse_status_line.
  set (buf := bs "HTTP/1.1 " ++ [digit d0; digit d1; digit d2] ++ tl).
  assert (length buf = (12 + length tl)%nat) as Hbl by reflexivity.
  rewrite !(proj2 (Nat.ltb_ge _ _)) by lia.
  change (Z.land (load_u64 buf) 72057594037927935) with (Z.land (u64_lit "HTTP/1.0") 72057594037927935).
  rewrite Z.eqb_refl. cbn [negb].
  change (rd buf 7) with (ch "1"). change (rd buf 8) with SP.
  change (rd buf 9) with (digit d0). change (rd buf (9 + 1)) with (digit d1).
  change (rd buf (9 + 2)) with (digit d2). change (drop 12 buf) with (drop 0 tl). rewrite drop_0, Hscan.
  rewrite !Z.eqb_refl. cbn [orb negb]. rewrite !u32_digit by done.
  rewrite !(proj2 (Z.ltb_ge 9 _)) by lia. cbn [orb]. rewrite Hd, u16_small by lia.
  rewrite (proj2 (Z.ltb_ge code 100)), (proj2 (Z.ltb_ge 599 code)) by lia. cbn [orb].
  rewrite !(proj2 (Nat.leb_gt _ _)) by (destruct rest; [done | cbn in Hlen; lia]).
  replace (rd buf (12 + (1 + length (status_reason code)) + 1)) with LF.
  by rewrite Z.eqb_refl.
Qed.

(** ** Reading a response back *)

Lemma dec_k_digits k n : Forall (fun b => 48 <= b <= 57) (dec_k k n).
Proof.
  induction k as [|k IH]; cbn [dec_k]; constructor; [|done].
  unfold digit. change (ch "0") with 48. pose proof (Z.mod_pos_bound (n / 10 ^ Z.of_nat k) 10). lia.
Qed.

Lemma dec_digits n : 0 <= n < 2 ^ 32 -> dec n <> [] /\ Forall (fun b => 48 <= b <= 57) (dec n).
Proof.
  intros Hn. destruct (dec_spec n Hn) as (j & _ & _ & _ & ->). split; [done | apply dec_k_digits].
Qed.

Lemma field_ok_simple nm v :
  nm <> [] -> Forall tchar nm -> v <> [] -> Forall vchar v -> Forall (fun b => is_ows b = false) v ->
  field_ok (Field nm [SP] v []).
Proof.
  intros Hne Ht Hv Hvc Hns. unfold field_ok. cbn [f_name f_ows1 f_value f_ows2].
  rewrite Forall_forall in Hns. split_and!; try done; [by repeat constructor | |].
  - intros b Hb. apply Hns. destruct v; [done|]. injection Hb as ->. left.
  - intros b Hb. apply Hns. apply last_Some in Hb as [l ->]. set_solver.
Qed.

Definition length_field (n : Z) : field := Field (bs "Content-Length") [SP] (dec n) [].
Definition conn_field (keep : bool) : field :=
  Field (bs "Connection") [SP] (if keep then bs "keep-alive" else bs "close") [].

Lemma tchars_ok l : forallb (fun b => (0 <=? b) && (b <? 256) && is_http_tchar b) l = true -> Forall tchar l.
Proof.
  rewrite forallb_forall. intros H. apply Forall_forall. intros b Hb. apply list_elem_of_In, H in Hb.
  unfold tchar, is_byte. zify_bool. split; [lia | done].
Qed.

Lemma vchars_ok l : forallb (fun b => (32 <=? b) && (b <? 127)) l = true -> Forall vchar l.
Proof.
  rewrite forallb_forall. intros H. apply Forall_forall. intros b Hb. apply list_elem_of_In, H in Hb.
  unfold vchar, is_byte. zify_bool. lia.
Qed.

Lemma length_field_ok n : 0 <= n < 2 ^ 32 -> field_ok (length_field n).
Proof.
  intros Hn. destruct (dec_digits n Hn) as [Hne Hd].
  apply field_ok_simple; [done | by apply tchars_ok | done | |].
  - eapply Forall_impl; [exact Hd|]. unfold vchar, is_byte. intros b Hb. cbn in Hb. lia.
  - eapply Forall_impl; [exact Hd|]. intros b Hb. cbn in Hb. unfold is_ows, SP, HT.
    apply orb_false_iff. split; apply Z.eqb_neq; lia.
Qed.

Lemma conn_field_ok keep : field_ok (conn_field keep).
Proof.
  apply field_ok_simple; [done | by apply tchars_ok | by destruct keep | |].
  - destruct keep; by apply vchars_ok.
  - destruct keep; by repeat constructor.
Qed.

Lemma length_field_semantic n resp :
  0 <= n < 2 ^ 32 -> r_has_content_length resp = false ->
  apply_semantic_header_response (f_name (length_field n)) (f_value (length_field n)) resp =
  (Complete, r_set_content_length resp n).
Proof.
  intros Hn Hh. cbn [f_name f_value length_field].
  change (apply_semantic_header_response (bs "Content-Length") (dec n) resp) with
    (match parse_uint (dec n) with
     | UOk cl => if r_has_content_length resp then
                   if negb (r_content_length resp =? cl) then (Error, resp) else (Complete, resp)
                 else (Complete, r_set_content_length resp cl)
     | _ => (Error, resp)
     end). by rewrite parse_dec, Hh.
Qed.

Lemma conn_field_semantic keep resp :
  r_keep_alive resp = true ->
  exists resp', apply_semantic_header_response (f_name (conn_field keep)) (f_value (conn_field keep)) resp =
    (Complete, resp') /\
  framing resp' = (r_status_code resp, r_content_length resp, r_has_content_length resp, r_chunked resp, keep).
Proof. intros Hk. destruct keep; eexists; (split; [reflexivity|]); by unfold framing. Qed.

Lemma length_field_text n : field_text (length_field n) = bs "Content-Length: " ++ dec n ++ CRLF.
Proof. unfold field_text. cbn [f_name f_ows1 f_value f_ows2 length_field]. done. Qed.

Lemma conn_field_text keep : field_text (conn_field keep) = conn_line keep.
Proof. by destruct keep. Qed.

Lemma code_buf_bytes code : Forall is_byte (code_buf code).
Proof.
  unfold code_buf, digit, is_byte. change (ch "0") with 48.
  pose proof (Z.mod_pos_bound (code / 100) 10). pose proof (Z.mod_pos_bound (code / 10) 10).
  pose proof (Z.mod_pos_bound code 10). repeat constructor; lia.
Qed.

Lemma header_text_bytes h : header_ok h -> Forall is_byte (header_text h).
Proof.
  intros (Hk & Hv & _). unfold header_text. rewrite !Forall_app.
  split_and!; [done | by apply bytes_ok_Forall | done | by apply bytes_ok_Forall].
Qed.

Lemma headers_bytes hs : Forall header_ok hs -> Forall is_byte (mjoin (header_text <$> hs)).
Proof.
  induction 1 as [|h hs Hh _ IH]; [constructor|]. apply Forall_app.
  split; [by apply header_text_bytes | exact IH].
Qed.

Lemma response_text_bytes code ct hs keep body :
  Forall is_byte ct -> Forall header_ok hs -> Forall is_byte body -> Z.of_nat (length body) < 2 ^ 32 ->
  Forall is_byte (response_text code ct hs keep body).
Proof.
  intros Hct Hhs Hb Hl. unfold response_text, status_text. rewrite !Forall_app.
  destruct (dec_digits (Z.of_nat (length body)) ltac:(lia)) as [_ Hd].
  split_and!; try done; try (by apply bytes_ok_Forall); try apply code_buf_bytes.
  - eapply Forall_impl; [apply status_reason_no_cr|]. by intros ? [].
  - eapply Forall_impl; [exact Hd|]. unfold is_byte. intros ?; cbn; lia.
  - by apply headers_bytes.
  - destruct keep; by apply bytes_ok_Forall.
Qed.

(** What it means for a response to say what it should: the parser of either
    side of the proxy reads back the status, the length of the body, no other
    framing, the connection option, and a head that ends where the body starts. *)
Definition reads_as (text : list Z) (code : Z) (keep : bool) (body : list Z) : Prop :=
  forall (Sc : Scanners) (HS : ScannersOk Sc) r0,
  exists he r, parse_response (S := Sc) text r0 = Some (POut Complete he r) /\
    framing r = (code, Z.of_nat (length body), true, false, keep) /\ drop he text = body.

Lemma response_text_reads code cths hs keep body :
  100 <= code <= 599 -> Forall header_ok cths -> Forall header_ok hs -> Forall is_byte body ->
  Z.of_nat (length body) < 2 ^ 32 ->
  reads_as (response_text code (mjoin (header_text <$> cths)) hs keep body) code keep body.
Proof.
  intros Hc Hct Hhs Hb Hl Sc HS r0. set (text := response_text _ _ _ _ _).
  assert (Forall is_byte text) as Htb by (apply response_text_bytes; try done; by apply headers_bytes).
  rewrite parse_response_scalar by done. unfold parse_response.
  destruct (headers_fields (cths ++ hs)) as (fs & Hok & Hpl & Hft); [by apply Forall_app|].
  rewrite fmap_app, join_app in Hft.
  set (n := Z.of_nat (length body)) in *.
  assert (text = status_text code ++ field_text (length_field n) ++ fields_text fs ++
            field_text (conn_field keep) ++ CRLF ++ body) as Htext.
  { subst text. unfold response_text. rewrite length_field_text, conn_field_text, Hft.
    by rewrite <- !app_assoc. }
  clearbody text. set (p0 := length (status_text code)).
  assert (parse_status_line text r0 =
    inr (p0, r_set_status (r_set_keep_alive (r_reset r0) true) code)) as -> by (rewrite Htext; by apply status_line_parses).
  assert (exists k, S (length text) = (1 + (length fs + (1 + S k)))%nat) as (k & ->).
  { exists (length text - length fs - 2)%nat. rewrite Htext.
    assert (length fs <= length (fields_text fs))%nat.
    { clear -Hok. induction Hok as [|f fs Hf _ IH]; [done|]. rewrite fields_text_cons, length_app.
      pose proof (field_text_pos f Hf). cbn. lia. }
    rewrite !length_app. pose proof (field_text_pos _ (conn_field_ok keep)). lia. }
  assert (drop p0 text = field_text (length_field n) ++ fields_text fs ++ field_text (conn_field keep) ++ CRLF ++ body)
    as Hd0 by (rewrite Htext; apply drop_app_length).
  set (r1 := r_set_status _ _).
  set (r1' := push_header r1 (field_views p0 (length_field n))).
  cbn [Nat.add]. rewrite (response_loop_step text _ p0 r1 (length_field n) _ _ Htb
    (length_field_ok n ltac:(lia)) Hd0 (length_field_semantic n r1' ltac:(lia) eq_refl)).
  set (r2 := r_set_content_length _ _).
  assert (framing r2 = (code, n, true, false, true)) as Hr2 by reflexivity.
  set (p1 := (_ + length (field_text (length_field n)))%nat).
  assert (drop p1 text = fields_text fs ++ field_text (conn_field keep) ++ CRLF ++ body) as Hd1
    by (subst p1; rewrite <- drop_drop; fold p0; by rewrite Hd0, drop_app_length).
  destruct (response_loop_plain text (S (S k)) p1 r2 fs _ Htb Hok Hpl Hd1) as (r3 & Hr3 & ->).
  set (p2 := (p1 + length (fields_text fs))%nat).
  assert (drop p2 text = field_text (conn_field keep) ++ CRLF ++ body) as Hd2
    by (subst p2; by rewrite <- drop_drop, Hd1, drop_app_length).
  rewrite Hr2, <- (push_header_framing r3 (field_views p2 (conn_field keep))) in Hr3.
  set (r3' := push_header _ _) in Hr3. unfold framing in Hr3. injection Hr3 as E1 E2 E3 E4 E5.
  destruct (conn_field_semantic keep r3' E5) as (r4 & Hs4 & Hr4). rewrite E1, E2, E3, E4 in Hr4.
  rewrite (response_loop_step text _ p2 r3 (conn_field keep) _ _ Htb (conn_field_ok keep) Hd2 Hs4).
  set (p3 := (p2 + length (field_text (conn_field keep)))%nat).
  assert (drop p3 text = CRLF ++ body) as Hd3
    by (subst p3; by rewrite <- drop_drop, Hd2, drop_app_length).
  rewrite (response_loop_end text k p3 r4 body Hd3). eexists _, _. split; [done|]. split.
  - exact Hr4.
  - by rewrite <- drop_drop, Hd3.
Qed.

(** ** Properties *)

Lemma kept_all hs : Forall header_ok hs -> kept_headers hs = hs.
Proof.
  unfold kept_headers. induction 1 as [|h hs Hh _ IH]; [done|]. rewrite filter_cons.
  destruct Hh as (_ & _ & Hv). apply validate_accepts in Hv as (_ & _ & Hr & _).
  rewrite decide_True; [by rewrite IH|]. apply not_true_iff_false. unfold Response.is_content_length.
  rewrite eq_ci_spec. apply Hr. set_solver.
Qed.

Definition content_type_header : ResponseHeaderKV := (bs "Content-Type", kDefaultContentType).

Lemma content_type_header_ok : header_ok content_type_header.
Proof. split_and!; [by apply bytes_ok_Forall.. | by vm_compute]. Qed.

Lemma default_line_header (t : bool) :
  (if t then kDefaultContentTypeLine else []) =
  mjoin (header_text <$> (if t then [content_type_header] else [])).
Proof. by destruct t. Qed.

Lemma text_500_reads : reads_as text_500 500 false (bs "Internal Server Error").
Proof.
  apply (response_text_reads 500 [] []); [lia | constructor | constructor | by apply bytes_ok_Forall | cbn; lia].
Qed.

(** C27: custom responses.  With validated headers the formatter always succeeds,
    and what it leaves in the send buffer reads back, with every scanner back
    end, as the status, body length, connection option and body asked for (no
    body for 1xx, 204 and 304); if it does not fit the buffer, as a 500 that
    closes, and the connection record says so too. *)
Theorem custom_response_roundtrip code body0 hs keep fallback c :
  writable (send_buf c) -> 128 <= cap (send_buf c) -> 100 <= code <= 599 ->
  Forall is_byte body0 -> Forall header_ok hs ->
  Z.of_nat (length body0) < 2 ^ 32 -> Z.of_nat (length (mjoin (header_text <$> hs))) < 2 ^ 32 ->
  exists c', format_response_with_body_and_headers code body0 hs keep fallback c = Ret c' /\
    if Z.of_nat (length (full_text code body0 hs keep fallback)) <=? cap (send_buf c) then
      reads_as (contents (send_buf c')) code keep (body_of code body0) /\
      resp_status c' = resp_status c /\ Connection.keep_alive c' = Connection.keep_alive c
    else
      reads_as (contents (send_buf c')) 500 false (bs "Internal Server Error") /\
      resp_status c' = 500 /\ Connection.keep_alive c' = false.
Proof.
  intros Hw Hcap Hc Hb Hhs Hbl Hhl.
  destruct (format_full_spec code body0 hs keep fallback c Hw Hcap Hbl Hhl) as (b & _ & _ & H).
  destruct (_ <=? _); destruct H as [-> Ht]; eexists; (split; [done|]);
    cbn [send_buf with_send_buf resp_status Connection.keep_alive with_keep_alive with_resp_status];
    (split; [|done]); rewrite Ht; [|apply text_500_reads].
  unfold full_text. rewrite default_line_header, kept_all by done.
  apply response_text_reads; try done.
  - case_if; [|constructor]. constructor; [apply content_type_header_ok | constructor].
  - unfold body_of. by case_if.
  - unfold body_of. case_if; [cbn; lia | done].
Qed.

Definition conn_ex (n : Z) : Connection :=
  with_send_buf (bound_buffer (replicate (Z.to_nat n) 0) n)
    (with_keep_alive true (with_resp_status 200 conn_zero)).

Lemma conn_ex_writable n : 0 <= n < 2 ^ 32 -> writable (send_buf (conn_ex n)).
Proof.
  intros Hn. unfold writable, buf_ok. cbn [send_buf conn_ex with_send_buf bound_buffer ptr len cap released].
  rewrite length_replicate. split_and!; try done; lia.
Qed.

Lemma custom_response_roundtrip_witness :
  exists c', format_response_with_body_and_headers 404 (bs "gone") [(bs "X-Id", bs "7")] true false (conn_ex 256) = Ret c' /\
    reads_as (contents (send_buf c')) 404 true (bs "gone") /\ resp_status c' = 200 /\
    Connection.keep_alive c' = true.
Proof.
  refine (custom_response_roundtrip 404 (bs "gone") [(bs "X-Id", bs "7")] true false (conn_ex 256) _ _ _ _ _ _ _).
  - apply conn_ex_writable. lia.
  - cbn. lia.
  - lia.
  - by apply bytes_ok_Forall.
  - constructor; [|constructor]. split_and!; [by apply bytes_ok_Forall.. | by vm_compute].
  - cbn. lia.
  - cbn. lia.
Defined.

(** Default responses.  In a 16 KB send buffer the reason-phrase response of
    every status and every custom body of a route table (at most 8 KB) is
    written whole and reads back as the status, body and connection option
    asked for; a body given for 1xx, 204 or 304 is dropped. *)
Theorem default_response_roundtrip code body keep c :
  writable (send_buf c) -> 16384 <= cap (send_buf c) -> 100 <= code <= 599 ->
  Forall is_byte body -> Z.of_nat (length body) <= 8192 ->
  (exists b, format_static_response code keep c = Ret (with_send_buf b c) /\
     reads_as (contents b) code keep (static_body code)) /\
  (exists b, format_response_with_body code body keep c = Ret (with_send_buf b c) /\
     reads_as (contents b) code keep (body_of code body)).
Proof.
  intros Hw Hcap Hc Hb Hl.
  assert (forall body, Z.of_nat (length body) <= 8192 -> forall ct, (length ct <= 41)%nat ->
    Z.of_nat (length (response_text code ct [] keep body)) <= cap (send_buf c)) as Hfit.
  { intros bd Hbd ct Hct. rewrite length_response_text. pose proof (length_status_reason code).
    pose proof (length_dec (Z.of_nat (length bd)) ltac:(lia)). cbn [fmap list_fmap mjoin list_join length].
    destruct keep; lia. }
  assert (Forall is_byte (static_body code) /\ Z.of_nat (length (static_body code)) <= 21) as [Hsb Hsl].
  { unfold static_body. pose proof (length_status_reason code). case_if; [split; [constructor | cbn; lia]|].
    split; [|lia]. eapply Forall_impl; [apply status_reason_no_cr|]. by intros ? []. }
  assert (exists b, format_static_response code keep c = Ret (with_send_buf b c) /\
     reads_as (contents b) code keep (static_body code)) as Hst.
  { destruct (format_static_spec code keep c Hw) as (b & Hf & _ & _ & Ht); [apply Hfit; cbn; lia|].
    exists b. rewrite Ht. split; [done|]. apply (response_text_reads code [] []); try done; lia. }
  split; [done|]. destruct (no_body_code code) eqn:E.
  - unfold format_response_with_body, body_of. rewrite E. unfold static_body in Hst. by rewrite E in Hst.
  - destruct (format_body_spec code body keep c E Hw) as (b & Hf & _ & _ & Ht).
    { apply Hfit; [done | vm_compute; lia]. }
    exists b. rewrite Ht. split; [done|]. unfold body_of. rewrite E.
    apply (response_text_reads code [content_type_header] []); try done; [|lia].
    constructor; [apply content_type_header_ok | constructor].
Qed.

Lemma default_response_roundtrip_witness :
  (exists b, format_static_response 503 false (conn_ex 16384) = Ret (with_send_buf b (conn_ex 16384)) /\
     reads_as (contents b) 503 false (bs "Service Unavailable")) /\
  (exists b, format_response_with_body 503 (bs "later") false (conn_ex 16384) = Ret (with_send_buf b (conn_ex 16384)) /\
     reads_as (contents b) 503 false (bs "later")).
Proof.
  refine (default_response_roundtrip 503 (bs "later") false (conn_ex 16384) _ _ _ _ _).
  - apply conn_ex_writable. by vm_compute.
  - by vm_compute.
  - lia.
  - by apply bytes_ok_Forall.
  - by vm_compute.
Defined.
