(* ===== verification/RequestMeta.v ===== *)
(** * Request metadata and pipelining

    Model of the request side of src/runtime/callbacks.cc: the metadata captured
    from the bytes of a request (method, path, canonical path, body framing and
    the extent of the request in the receive buffer), the shifting and stashing
    of pipelined bytes, and the bookkeeping of partially sent upstream data. *)

From S2P Require Import Prelude HeaderValidation Simd RouteCanon HttpParser ChunkedParser RouteMethod HandlerAbi.
From S2P Require Import HttpGrammar HttpFraming Buffer Connection Response.

Definition map_log_method (m : HttpMethod) : LogHttpMethod :=
  match m with
  | GET => LGet | POST => LPost | PUT => LPut | DELETE => LDelete | PATCH => LPatch
  | HEAD => LHead | OPTIONS => LOptions | CONNECT => LConnect | TRACE => LTrace
  | UnknownMethod => LOther
  end.

(** The method and its length, 0 when none is recognised. *)
Definition parse_log_method_fallback (data : list Z) : LogHttpMethod * nat :=
  if is_prefix (bs "GET ") data then (LGet, 3%nat)
  else if is_prefix (bs "POST ") data then (LPost, 4%nat)
  else if is_prefix (bs "PUT ") data then (LPut, 3%nat)
  else if is_prefix (bs "DELETE ") data then (LDelete, 6%nat)
  else if is_prefix (bs "PATCH ") data then (LPatch, 5%nat)
  else if is_prefix (bs "HEAD ") data then (LHead, 4%nat)
  else if is_prefix (bs "OPTIONS ") data then (LOptions, 7%nat)
  else if is_prefix (bs "CONNECT ") data then (LConnect, 7%nat)
  else if is_prefix (bs "TRACE ") data then (LTrace, 5%nat)
  else (LOther, 0%nat).

(** The defaults a request starts from. *)
Definition metadata_defaults (c : Connection) : Connection :=
  let c := with_req_method LOther c in
  let c := with_req_size (len (recv_buf c)) c in
  let c := with_req_path (store_at (req_path c) 0 [slash; 0]) c in
  let c := with_req_path_canon (Some (1%nat, 0%nat)) c in
  let c := with_upstream_us 0 c in
  let c := with_upstream_name (store_at (upstream_name c) 0 [0]) c in
  let c := with_capture_header_len 0 c in
  let c := with_req_body_mode BNone c in
  let c := with_req_body_remaining 0 c in
  let c := with_req_chunk_parser ChunkedParser.reset c in
  let c := with_req_malformed false c in
  let c := with_req_header_end 0 c in
  let c := with_req_initial_send_len 0 c in
  with_req_content_length 0 c.

(** [if (copy_len >= sizeof(conn.req_path)) copy_len = sizeof(conn.req_path) - 1] *)
Definition copy_len_of (n : nat) : nat :=
  if Nat.leb kMaxReqPathLen n then (kMaxReqPathLen - 1)%nat else n.

Definition set_req_path (path : list Z) (c : Connection) : Connection :=
  with_req_path (store_at (req_path c) 0 (take (copy_len_of (length path)) path ++ [0])) c.

(** The parser's canonical view, clamped to the copied part of the path. *)
Definition canon_of_view (copy_len : nat) (p cv : view) : nat * nat :=
  let canon_off := (v_off cv - v_off p)%nat in
  let canon_len := v_len cv in
  if Nat.leb copy_len canon_off then (copy_len, 0%nat)
  else if Nat.ltb copy_len (canon_off + canon_len) then (canon_off, (copy_len - canon_off)%nat)
  else (canon_off, canon_len).

Definition body_in_buf (klen he : Z) : Z := if he <? klen then u32 (klen - he) else 0.

(** The body of a request whose head was parsed. *)
Definition chunked_body (data : list Z) (he : Z) (c : Connection) : res Connection :=
  let c := with_req_chunk_parser ChunkedParser.reset
             (with_req_body_remaining 0 (with_req_body_mode BChunked c)) in
  let n := body_in_buf (Z.of_nat (length data)) he in
  match drain (req_chunk_parser c) (sub data (Z.to_nat he) (Z.to_nat n)) with
  | None => Fault
  | Some r =>
      let consumed := if 0 <? n then Z.of_nat (dr_consumed r) else n in
      let bad := match dr_end r with DrainError => true | _ => false end in
      let c := with_req_malformed bad (with_req_chunk_parser (dr_parser r) c) in
      Ret (if bad then with_req_initial_send_len 0 c
           else with_req_initial_send_len (u32 (he + consumed)) c)
  end.

Definition length_body (data : list Z) (he cl : Z) (c : Connection) : Connection :=
  let n := body_in_buf (Z.of_nat (length data)) he in
  let remaining := if cl <=? n then 0 else u32 (cl - n) in
  with_req_body_remaining remaining (with_req_content_length cl (with_req_body_mode BContentLength c)).

(** The bytes of this request to forward first, and the size for the log. *)
Definition set_initial_extent (he : Z) (c : Connection) : Connection :=
  let c := match req_body_mode c with
           | BNone => with_req_initial_send_len he c
           | BContentLength =>
               with_req_initial_send_len
                 (u32 (he + u32 (req_content_length c - req_body_remaining c))) c
           | _ => c
           end in
  if 0 <? req_initial_send_len c then with_req_size (req_initial_send_len c) c else c.

(** What a complete parse records. *)
Definition captured_request (data : list Z) (he : Z) (req : ParsedRequest) (c : Connection) : res Connection :=
  match HttpParser.path req with
  | None => Fault
  | Some p =>
      let c := with_req_header_end he c in
      let c := with_req_method (map_log_method (HttpParser.method req)) c in
      let path := bytes_of data p in
      let c := set_req_path path c in
      let copy_len := copy_len_of (v_len p) in
      let c := with_req_path_canon (canon_of_view copy_len p <$> path_canon req) c in
      c ← (if HttpParser.chunked req then chunked_body data he c
           else if has_content_length req && (0 <? content_length req)
           then Ret (length_body data he (content_length req) c)
           else Ret c);
      Ret (set_initial_extent he c)
  end.

(** [while (... data[k] != ' ' && != '\r' && != '\n') path_len++] *)
Fixpoint fallback_path (l : list Z) : list Z :=
  match l with
  | [] => []
  | b :: l' => if (b =? SP) || (b =? CR) || (b =? LF) then [] else b :: fallback_path l'
  end.

(** What is recorded of bytes the parser does not accept. *)
Definition captured_fallback (data : list Z) (c : Connection) : Connection :=
  let '(m, method_len) := parse_log_method_fallback data in
  let c := with_req_method m c in
  if Nat.eqb method_len 0 || Nat.leb (length data) (method_len + 1) || negb (rd data method_len =? SP)
  then c
  else
    let path := fallback_path (drop (method_len + 1) data) in
    if Nat.eqb (length path) 0 || negb (rd data (method_len + 1) =? slash)
    then with_req_path_canon None c
    else
      let copied := take (copy_len_of (length path)) path in
      let c := set_req_path path c in
      with_req_path_canon (Some (finalize_view (take (query_start copied) copied))) c.

(** The request record before a parse; every field is overwritten or unread. *)
Definition blank_request : ParsedRequest :=
  mkParsedRequest UnknownMethod None None UnknownVersion [] 0 0 false false false.

Section metadata.
Context `{Sc : Scanners}.

Definition capture_request_metadata (c : Connection) : res Connection :=
  let c := metadata_defaults c in
  if released (recv_buf c) then Trap
  else match ptr (recv_buf c) with
  | None => Ret c
  | Some _ =>
      if len (recv_buf c) =? 0 then Ret c
      else
        data ← data_at (recv_buf c) 0 (len (recv_buf c));
        match parse (S := Sc) data blank_request with
        | None => Fault
        | Some (POut HttpParser.Complete he req) => captured_request data (Z.of_nat he) req c
        | Some _ => Ret (captured_fallback data c)
        end
  end.

End metadata.

(** ** Pipelining *)

Definition pipeline_leftover (c : Connection) : Z :=
  let req_end := req_initial_send_len c in
  let buf_len := len (recv_buf c) in
  if (req_end =? 0) || (buf_len <=? req_end) then 0 else u32 (buf_len - req_end).

(** [memmove] of [src] to the start of a reset buffer, and its commit. *)
Definition refill (b : Buffer) (src : list Z) : res Buffer :=
  b ← Buffer.reset b;
  b ← fill b src;
  commit b (Z.of_nat (length src)).

Definition pipeline_shift (c : Connection) : res (bool * Connection) :=
  let leftover := pipeline_leftover c in
  if leftover =? 0 then Ret (false, c)
  else
    src ← data_at (recv_buf c) (req_initial_send_len c) leftover;
    b ← refill (recv_buf c) src;
    Ret (true, with_pipeline_depth (u16 (pipeline_depth c + 1)) (with_recv_buf b c)).

Definition pipeline_stash (c : Connection) : res Connection :=
  let leftover := pipeline_leftover c in
  if leftover =? 0 then Ret (with_pipeline_stash_len 0 c)
  else
    b ← Buffer.reset (send_buf c);
    let c := with_send_buf b c in
    avail ← write_avail b;
    if avail <? leftover then Ret (with_pipeline_stash_len 0 c)
    else
      src ← data_at (recv_buf c) (req_initial_send_len c) leftover;
      c ← send_write src c;
      Ret (with_pipeline_stash_len (u16 leftover) c).

Definition pipeline_recover (c : Connection) : res (bool * Connection) :=
  let stash_len := pipeline_stash_len c in
  let c := with_pipeline_stash_len 0 c in
  if stash_len =? 0 then Ret (false, c)
  else
    src ← data_at (send_buf c) 0 stash_len;
    b ← refill (recv_buf c) src;
    sb ← Buffer.reset (send_buf c);
    Ret (true, with_pipeline_depth (u16 (pipeline_depth c + 1)) (with_send_buf sb (with_recv_buf b c))).

Definition kMaxHeaderLen : Z := 8192.

Definition capture_stage_headers (c : Connection) : res Connection :=
  let c := with_capture_header_len 0 c in
  match capture_buf c with
  | None => Ret c
  | Some cap =>
      if released (recv_buf c) then Trap
      else match ptr (recv_buf c) with
      | None => Ret c
      | Some _ =>
          let n := if req_header_end c =? 0 then len (recv_buf c) else req_header_end c in
          if n =? 0 then Ret c
          else
            let copy_len := if kMaxHeaderLen <? n then kMaxHeaderLen else n in
            src ← data_at (recv_buf c) 0 copy_len;
            cap' ← store cap 0 src;
            Ret (with_capture_header_len (u16 copy_len) (with_capture_buf (Some cap') c))
      end
  end.

(** ** Early responses and partially sent upstream data *)

Definition request_body_left (c : Connection) : bool :=
  match req_body_mode c with
  | BContentLength => 0 <? req_body_remaining c
  | BChunked => match ChunkedParser.state (req_chunk_parser c) with ChunkedParser.Complete => false | _ => true end
  | _ => false
  end.

Definition recv_reset (c : Connection) : res Connection :=
  b ← Buffer.reset (recv_buf c); Ret (with_recv_buf b c).
Definition upstream_recv_reset (c : Connection) : res Connection :=
  b ← Buffer.reset (upstream_recv_buf c); Ret (with_upstream_recv_buf b c).

(** [now] is the clock reading of [monotonic_us]. *)
Definition prepare_early_response_state (now : Z) (c : Connection) : res Connection :=
  c ← (if request_body_left c then c ← recv_reset c; Ret (with_keep_alive false c)
       else c ← pipeline_stash c; recv_reset c);
  Ret (if upstream_start_us c =? 0 then with_upstream_start_us now c else c).

Definition consume_upstream_sent (c : Connection) : res (Z * Connection) :=
  let sent := upstream_send_len c in
  let total := len (upstream_recv_buf c) in
  let c := with_upstream_send_len 0 c in
  if total <=? sent then c ← upstream_recv_reset c; Ret (0, c)
  else
    let remaining := u32 (total - sent) in
    src ← data_at (upstream_recv_buf c) sent remaining;
    b ← refill (upstream_recv_buf c) src;
    Ret (remaining, with_upstream_recv_buf b c).

(** ** Buffer moves *)

Lemma refill_spec b src :
  writable b -> Z.of_nat (length src) <= cap b ->
  exists b', refill b src = Ret b' /\ writable b' /\ cap b' = cap b /\ contents b' = src /\
    len b' = Z.of_nat (length src).
Proof.
  intros Hw Hl. destruct (reset_spec b Hw) as (b0 & H0 & Hw0 & Hc0 & Hct0 & Hl0 & _).
  destruct (fill_commit_spec b0 src Hw0) as (b1 & b2 & H1 & H2 & Hw2 & Hc2 & Hct2 & Hl2);
    [unfold room; lia|].
  exists b2. unfold refill. rewrite H0. cbn. rewrite H1. cbn. rewrite H2, Hct2, Hct0.
  split_and!; try done; [congruence | lia].
Qed.

Lemma data_at_tail b off :
  writable b -> 0 <= off <= len b ->
  data_at b off (len b - off) = Ret (drop (Z.to_nat off) (contents b)).
Proof.
  intros Hw Ho. rewrite data_at_spec by (done || lia). f_equal. unfold sub. apply take_ge.
  rewrite length_drop. pose proof (length_contents b Hw). lia.
Qed.

Lemma pipeline_leftover_spec c :
  writable (recv_buf c) -> 0 < req_initial_send_len c ->
  pipeline_leftover c = Z.max 0 (len (recv_buf c) - req_initial_send_len c).
Proof.
  intros ((Hl & Hc & _) & _) Hp. unfold pipeline_leftover.
  destruct (Z.eqb_spec (req_initial_send_len c) 0); [lia|]. cbn [orb].
  destruct (Z.leb_spec (len (recv_buf c)) (req_initial_send_len c)); [lia|].
  change (2 ^ 32) with 4294967296 in *. rewrite u32_small by lia. lia.
Qed.

(** The bytes of the receive buffer behind the current request. *)
Definition next_bytes (c : Connection) : list Z :=
  drop (Z.to_nat (req_initial_send_len c)) (contents (recv_buf c)).

Lemma next_bytes_nil c :
  writable (recv_buf c) -> 0 < req_initial_send_len c ->
  pipeline_leftover c = Z.of_nat (length (next_bytes c)).
Proof.
  intros Hw Hp. rewrite pipeline_leftover_spec by done. unfold next_bytes. rewrite length_drop.
  pose proof (length_contents _ Hw). lia.
Qed.

Lemma leftover_src c :
  writable (recv_buf c) -> 0 < req_initial_send_len c -> pipeline_leftover c <> 0 ->
  data_at (recv_buf c) (req_initial_send_len c) (pipeline_leftover c) = Ret (next_bytes c).
Proof.
  intros Hw Hp Hn. pose proof (pipeline_leftover_spec c Hw Hp) as E.
  rewrite E in *. rewrite Z.max_r by lia. by apply data_at_tail; [|lia].
Qed.

Lemma pipeline_shift_spec c :
  writable (recv_buf c) -> 0 < req_initial_send_len c ->
  if decide (next_bytes c = []) then pipeline_shift c = Ret (false, c)
  else exists b, pipeline_shift c =
      Ret (true, with_pipeline_depth (u16 (pipeline_depth c + 1)) (with_recv_buf b c)) /\
    writable b /\ cap b = cap (recv_buf c) /\ contents b = next_bytes c.
Proof.
  intros Hw Hp. unfold pipeline_shift. pose proof (next_bytes_nil c Hw Hp) as Hlen.
  case_decide as Hn.
  - rewrite Hn in Hlen. by rewrite Hlen.
  - destruct (Z.eqb_spec (pipeline_leftover c) 0) as [E|E].
    { destruct (next_bytes c); [done | cbn in Hlen; lia]. }
    rewrite leftover_src by done. cbn.
    destruct (refill_spec (recv_buf c) (next_bytes c) Hw) as (b & -> & Hb & Hc & Hct & _).
    { rewrite <- Hlen, pipeline_leftover_spec by done. destruct Hw as ((? & _) & _). lia. }
    cbn. by exists b.
Qed.

Lemma pipeline_stash_spec c :
  writable (recv_buf c) -> writable (send_buf c) -> 0 < req_initial_send_len c ->
  Z.of_nat (length (next_bytes c)) <= cap (send_buf c) -> cap (send_buf c) < 2 ^ 16 ->
  exists b, pipeline_stash c =
      Ret (with_pipeline_stash_len (Z.of_nat (length (next_bytes c))) (with_send_buf b c)) /\
    writable b /\ cap b = cap (send_buf c) /\
    (next_bytes c <> [] -> contents b = next_bytes c).
Proof.
  intros Hw Hs Hp Hfit H16. unfold pipeline_stash. pose proof (next_bytes_nil c Hw Hp) as Hlen.
  rewrite <- Hlen in *. destruct (Z.eqb_spec (pipeline_leftover c) 0) as [E|E].
  - rewrite E. exists (send_buf c). split_and!; try done.
    intros Hn. destruct (next_bytes c); [done | cbn in Hlen; lia].
  - destruct (reset_spec _ Hs) as (b0 & Hb0 & Hw0 & Hc0 & Hct0 & Hl0 & Hp0). rewrite Hb0. cbn [mbind res_bind].
    assert (write_avail b0 = Ret (cap (send_buf c))) as ->.
    { unfold write_avail. destruct Hw0 as ((? & ? & _) & -> & Hn). destruct (ptr b0); [|done].
      rewrite Hl0, Hc0, u32_small; [f_equal; lia|]. change (2 ^ 32) with 4294967296 in *. lia. }
    cbn [mbind res_bind]. destruct (Z.ltb_spec (cap (send_buf c)) (pipeline_leftover c)); [lia|].
    cbn [recv_buf with_send_buf req_initial_send_len]. rewrite leftover_src by done. cbn [mbind res_bind].
    destruct (emits_write (next_bytes c) (with_send_buf b0 c)) as (b & Hb & Hwb & Hcb & Hctb);
      [done | unfold room; cbn; lia |].
    rewrite Hb. cbn [mbind res_bind]. exists b. rewrite u16_small by lia. cbn in *. rewrite Hct0 in Hctb.
    split_and!; try done. congruence.
Qed.

Lemma pipeline_recover_spec c bytes :
  writable (recv_buf c) -> writable (send_buf c) -> contents (send_buf c) = bytes -> bytes <> [] ->
  pipeline_stash_len c = Z.of_nat (length bytes) -> Z.of_nat (length bytes) <= cap (recv_buf c) ->
  exists b sb, pipeline_recover c =
      Ret (true, with_pipeline_depth (u16 (pipeline_depth c + 1))
                   (with_send_buf sb (with_recv_buf b (with_pipeline_stash_len 0 c)))) /\
    writable b /\ contents b = bytes /\ writable sb /\ contents sb = [].
Proof.
  intros Hw Hs Hct Hne Hl Hfit. unfold pipeline_recover. rewrite Hl.
  destruct (Z.eqb_spec (Z.of_nat (length bytes)) 0); [destruct bytes; [done | cbn in *; lia]|].
  cbn [send_buf recv_buf with_pipeline_stash_len].
  pose proof (length_contents _ Hs) as Hsl. rewrite Hct in Hsl.
  rewrite data_at_spec by (done || lia). rewrite Hct. unfold sub. rewrite drop_0, take_ge by lia.
  cbn [mbind res_bind]. destruct (refill_spec (recv_buf c) bytes Hw Hfit) as (b & -> & Hb & _ & Hcb & _).
  cbn [mbind res_bind]. destruct (reset_spec _ Hs) as (sb & -> & Hsb & _ & Hcs & _). cbn.
  exists b, sb. split_and!; done.
Qed.

(** ** The extent of a request in the buffer *)

(** The message of a parsed request ends at [n]. *)
Definition message_ends (data : list Z) (he : nat) (r : ParsedRequest) (n : nat) : Prop :=
  if HttpParser.chunked r then exists body, ChunkedParser.chunked (sub data he (n - he)) body
  else n = (he + (if has_content_length r then Z.to_nat (content_length r) else 0))%nat.

Lemma body_in_buf_spec (data : list Z) (he : nat) :
  (he <= length data)%nat -> Z.of_nat (length data) < 2 ^ 32 ->
  body_in_buf (Z.of_nat (length data)) (Z.of_nat he) = Z.of_nat (length data - he).
Proof.
  intros. unfold body_in_buf. destruct (Z.ltb_spec (Z.of_nat he) (Z.of_nat (length data))); [|lia].
  rewrite u32_small by lia. lia.
Qed.

Lemma reset_parser_wf : wf ChunkedParser.reset.
Proof. split; [cbn; lia | done]. Qed.

(** What the drain of a body from a fresh decoder tells. *)
Lemma drain_fresh body :
  exists e p k b, drain ChunkedParser.reset body = Some (DrainResult e p k b) /\ (k <= length body)%nat /\
    wf p /\
    match e with
    | DrainMore => k = length body /\ ChunkedParser.state p <> Complete
    | DrainDone => ChunkedParser.state p = Complete /\ ChunkedParser.chunked (take k body) b
    | DrainError => True
    end.
Proof.
  destruct (drain_run ChunkedParser.reset body reset_parser_wf) as (e & p & k & b & Hd & Hk & Hwf & Hrun).
  exists e, p, k, b. split_and!; [done | done | done |].
  pose proof (run_end_state ChunkedParser.reset body ltac:(done)) as Hs. rewrite Hrun in Hs. cbn in Hs.
  destruct e; [|split; [done|]|done].
  - split; [|done]. pose proof (run_more_rest _ _ _ Hrun eq_refl) as Hr. cbn in Hr.
    apply (f_equal length) in Hr. rewrite length_drop in Hr. cbn in Hr. lia.
  - by apply (drain_done_iff body k b); exists p.
Qed.

#[local] Opaque parse drain.

Section extent.
Context (Sc : Scanners) (HS : ScannersOk Sc).

Lemma recv_buf_defaults c : recv_buf (metadata_defaults c) = recv_buf c.
Proof. reflexivity. Qed.

Lemma capture_unfold c :
  writable (recv_buf c) -> contents (recv_buf c) <> [] ->
  capture_request_metadata (Sc := Sc) c =
  match parse (S := Sc) (contents (recv_buf c)) blank_request with
  | None => Fault
  | Some (POut HttpParser.Complete he req) =>
      captured_request (contents (recv_buf c)) (Z.of_nat he) req (metadata_defaults c)
  | Some _ => Ret (captured_fallback (contents (recv_buf c)) (metadata_defaults c))
  end.
Proof.
  intros Hw Hne. unfold capture_request_metadata. cbv zeta. rewrite !recv_buf_defaults.
  pose proof (length_contents _ Hw) as Hl.
  assert (data_at (recv_buf c) 0 (len (recv_buf c)) = Ret (contents (recv_buf c))) as Hd.
  { pose proof (data_at_tail (recv_buf c) 0 Hw) as H. rewrite Z.sub_0_r, drop_0 in H. apply H. lia. }
  destruct Hw as (_ & -> & Hn). destruct (ptr (recv_buf c)) as [s|]; [|by destruct Hn].
  destruct (Z.eqb_spec (len (recv_buf c)) 0) as [E|_].
  { exfalso. apply Hne, nil_length_inv. lia. }
  rewrite Hd. reflexivity.
Qed.

(** What a capture leaves alone: buffers, descriptors, slots, handler state. *)
Definition io_part (c : Connection) :=
  (recv_buf c, send_buf c, upstream_recv_buf c, fd c, upstream_fd c,
   (on_recv c, on_send c, on_upstream_recv c, on_upstream_send c),
   pending_handler_fn c, pipeline_depth c, pipeline_stash_len c, Connection.keep_alive c,
   (resp_body_mode c, resp_body_remaining c, resp_chunk_parser c, upstream_send_len c),
   request_config c, req_start_us c, capture_buf c, Connection.id c).

(** The decoder and the remaining count of a request body are in range. *)
Definition body_state_ok (c : Connection) : Prop :=
  wf (req_chunk_parser c) /\ 0 <= req_body_remaining c < 2 ^ 32.

(** The fields the body pass leaves alone. *)
Definition same_head (c c' : Connection) : Prop :=
  io_part c' = io_part c /\
  req_header_end c' = req_header_end c /\ req_method c' = req_method c /\
  req_path c' = req_path c /\ req_path_canon c' = req_path_canon c.

Lemma chunked_body_spec (data : list Z) (he : nat) (c : Connection) :
  (he <= length data)%nat -> Z.of_nat (length data) < 2 ^ 32 ->
  exists c', chunked_body data (Z.of_nat he) c = Ret c' /\ req_body_mode c' = BChunked /\ same_head c c' /\
    wf (req_chunk_parser c') /\ req_body_remaining c' = 0 /\
    if req_malformed c' then req_initial_send_len c' = 0
    else exists k, (k <= length data - he)%nat /\ req_initial_send_len c' = Z.of_nat (he + k) /\
      if request_body_left c' then k = (length data - he)%nat
      else exists body, ChunkedParser.chunked (sub data he k) body.
Proof.
  intros Hhe Hlen. unfold chunked_body. cbn [req_chunk_parser with_req_chunk_parser].
  rewrite body_in_buf_spec by done. rewrite !Nat2Z.id.
  set (body := sub data he (length data - he)).
  assert (length body = (length data - he)%nat) as Hbl by (apply length_sub; lia).
  destruct (drain_fresh body) as (e & p & k & b & Hd & Hk & Hwf & He). rewrite Hd.
  assert ((if 0 <? Z.of_nat (length data - he) then Z.of_nat k else Z.of_nat (length data - he)) = Z.of_nat k) as Hc.
  { destruct (Z.ltb_spec 0 (Z.of_nat (length data - he))); lia. }
  cbn [dr_consumed dr_end dr_parser]. rewrite Hc. eexists. split; [done|].
  destruct e; cbn; (split_and!; try done).
  - destruct He as [He1 He2]. exists k. rewrite u32_small by lia. split_and!; [lia | lia |].
    unfold request_body_left. cbn. destruct (ChunkedParser.state p); done || lia.
  - destruct He as [He1 He2]. exists k. rewrite u32_small by lia. split_and!; [lia | lia |].
    unfold request_body_left. cbn. rewrite He1. exists b.
    revert He2. subst body. unfold sub. by rewrite take_take, Nat.min_l by lia.
Qed.

Lemma length_body_spec (data : list Z) (he : nat) (cl : Z) (c : Connection) :
  (he <= length data)%nat -> Z.of_nat (length data) < 2 ^ 32 -> 0 < cl < 2 ^ 32 ->
  exists c' k, length_body data (Z.of_nat he) cl c = c' /\ k = Z.min cl (Z.of_nat (length data - he)) /\
  req_body_mode c' = BContentLength /\ same_head c c' /\ req_malformed c' = req_malformed c /\
  req_chunk_parser c' = req_chunk_parser c /\ req_body_remaining c' = cl - k /\
  u32 (Z.of_nat he + u32 (req_content_length c' - req_body_remaining c')) = Z.of_nat he + k.
Proof.
  intros Hhe Hlen Hcl. eexists _, _. split; [done|]. split; [done|]. unfold length_body, same_head. cbn.
  rewrite body_in_buf_spec by done.
  destruct (Z.leb_spec cl (Z.of_nat (length data - he))).
  - rewrite (u32_small (cl - 0)), (u32_small (_ + _)) by lia. split_and!; try done; lia.
  - rewrite (u32_small (cl - Z.of_nat _)), (u32_small (cl - (_ - _))), (u32_small (_ + _)) by lia.
    split_and!; try done; lia.
Qed.

Lemma set_initial_extent_spec he c :
  let c' := set_initial_extent he c in
  same_head c c' /\ req_malformed c' = req_malformed c /\
    req_chunk_parser c' = req_chunk_parser c /\ req_body_remaining c' = req_body_remaining c /\
    request_body_left c' = request_body_left c /\
    req_initial_send_len c' =
      match req_body_mode c with
      | BNone => he
      | BContentLength => u32 (he + u32 (req_content_length c - req_body_remaining c))
      | _ => req_initial_send_len c
      end.
Proof.
  cbv zeta. unfold set_initial_extent, same_head, request_body_left.
  destruct (req_body_mode c) eqn:Em; case_if; cbn; rewrite ?Em; split_and!; done.
Qed.

(** The part of the path that fits the record, with its terminator. *)
Definition copied_path (data : list Z) (p : view) : list Z :=
  take (copy_len_of (v_len p)) (bytes_of data p) ++ [0].

Lemma set_req_path_prefix path c :
  take (length (take (copy_len_of (length path)) path ++ [0])) (req_path (set_req_path path c)) =
  take (copy_len_of (length path)) path ++ [0].
Proof.
  unfold set_req_path, store_at. cbn [req_path with_req_path]. rewrite take_0, app_nil_l.
  apply take_app_length.
Qed.

Lemma length_store_at (a l : list Z) (off : nat) :
  (off + length l <= length a)%nat -> length (store_at a off l) = length a.
Proof. intros. unfold store_at. simp_len. lia. Qed.

Lemma copy_len_min n : copy_len_of n = Nat.min n 63.
Proof. unfold copy_len_of, kMaxReqPathLen. destruct (Nat.leb_spec 64 n); lia. Qed.

Lemma set_req_path_length path c :
  length (req_path c) = kMaxReqPathLen -> length (req_path (set_req_path path c)) = kMaxReqPathLen.
Proof.
  intros H. unfold set_req_path. cbn [req_path with_req_path]. rewrite length_store_at; [done|].
  rewrite copy_len_min, H. unfold kMaxReqPathLen. simp_len. lia.
Qed.

(** What the record says of a complete request. *)
Definition captured (data : list Z) (he : nat) (r : ParsedRequest) (p : view) (c c' : Connection) : Prop :=
  io_part c' = io_part c /\ body_state_ok c' /\
  req_header_end c' = Z.of_nat he /\ req_method c' = map_log_method (HttpParser.method r) /\
  take (length (copied_path data p)) (req_path c') = copied_path data p /\
  length (req_path c') = kMaxReqPathLen /\
  req_path_canon c' = canon_of_view (copy_len_of (v_len p)) p <$> path_canon r /\
  if req_malformed c' then req_initial_send_len c' = 0
  else exists n, (he <= n <= length data)%nat /\ req_initial_send_len c' = Z.of_nat n /\
    if request_body_left c' then n = length data else message_ends data he r n.

(** The body pass on a record whose head is filled in. *)
Lemma body_pass_spec (data : list Z) (he : nat) (r : ParsedRequest) (c : Connection) :
  (0 < he <= length data)%nat -> Z.of_nat (length data) < 2 ^ 32 -> 0 <= content_length r < 2 ^ 32 ->
  req_body_mode c = BNone -> req_malformed c = false -> body_state_ok c ->
  exists c2, (if HttpParser.chunked r then chunked_body data (Z.of_nat he) c
    else if has_content_length r && (0 <? content_length r)
    then Ret (length_body data (Z.of_nat he) (content_length r) c) else Ret c) = Ret c2 /\
    let c3 := set_initial_extent (Z.of_nat he) c2 in
    same_head c c3 /\ body_state_ok c3 /\
    if req_malformed c3 then req_initial_send_len c3 = 0
    else exists n, (he <= n <= length data)%nat /\ req_initial_send_len c3 = Z.of_nat n /\
      if request_body_left c3 then n = length data else message_ends data he r n.
Proof.
  intros Hhe Hlen Hcl Hmode Hmal [Hbw Hbr]. unfold message_ends, body_state_ok.
  assert (forall c2, same_head c c2 -> same_head c2 (set_initial_extent (Z.of_nat he) c2) ->
    same_head c (set_initial_extent (Z.of_nat he) c2)) as Htrans.
  { unfold same_head. intros c2 (-> & -> & -> & -> & ->) (-> & -> & -> & -> & ->). done. }
  destruct (HttpParser.chunked r); [|destruct (has_content_length r && (0 <? content_length r)) eqn:Eh].
  - destruct (chunked_body_spec data he c) as (c2 & -> & Hm & Hh & Hwf & Hr0 & E5); [lia | done |].
    exists c2. split; [done|]. cbv zeta.
    destruct (set_initial_extent_spec (Z.of_nat he) c2) as (Hh3 & -> & -> & -> & -> & ->).
    split; [by apply Htrans|]. split; [split; [done | lia]|]. rewrite Hm.
    destruct (req_malformed c2); [done|]. destruct E5 as (k & Hk & -> & Hl). exists (he + k)%nat.
    split_and!; [lia.. |]. destruct (request_body_left c2); [lia|].
    by replace (he + k - he)%nat with k by lia.
  - zify_bool. eexists. split; [done|]. cbv zeta.
    destruct (length_body_spec data he (content_length r) c) as (c2 & k & -> & Hk & Hm & Hh & Hmal2 & Hcp & Hrem & Hext);
      [lia | done | lia |].
    destruct (set_initial_extent_spec (Z.of_nat he) c2) as (Hh3 & -> & -> & -> & -> & ->).
    split; [by apply Htrans|]. split; [rewrite Hcp; split; [done | lia]|]. rewrite Hmal2, Hmal, Hm, Hext.
    exists (he + Z.to_nat k)%nat. split_and!; [lia.. |]. unfold request_body_left. rewrite Hm, Hrem.
    match goal with H : has_content_length r = true |- _ => rewrite H end.
    destruct (Z.ltb_spec 0 (content_length r - k)); lia.
  - exists c. split; [done|]. cbv zeta.
    destruct (set_initial_extent_spec (Z.of_nat he) c) as (Hh3 & -> & -> & -> & -> & ->).
    split; [by apply Htrans|]. split; [done|]. rewrite Hmal, Hmode.
    exists he. split_and!; [lia.. |]. unfold request_body_left. rewrite Hmode.
    destruct (has_content_length r); [|lia]. cbn in Eh. zify_bool. lia.
Qed.

Lemma captured_request_spec (data : list Z) (he : nat) (r : ParsedRequest) (p : view) (c : Connection) :
  (0 < he <= length data)%nat -> Z.of_nat (length data) < 2 ^ 32 -> 0 <= content_length r < 2 ^ 32 ->
  HttpParser.path r = Some p -> (v_off p + v_len p <= length data)%nat ->
  req_body_mode c = BNone -> req_malformed c = false -> body_state_ok c -> length (req_path c) = kMaxReqPathLen ->
  exists c', captured_request data (Z.of_nat he) r c = Ret c' /\ captured data he r p c c'.
Proof.
  intros Hhe Hlen Hcl Hp Hpb Hmode Hmal Hbs Hrp. unfold captured_request. rewrite Hp.
  assert (length (bytes_of data p) = v_len p) as Hpl by by apply length_sub.
  set (c1 := with_req_path_canon _ _).
  destruct (body_pass_spec data he r c1 Hhe Hlen Hcl Hmode Hmal Hbs) as (c2 & -> & (E0 & E1 & E2 & E3 & E4) & Hbs' & Hn).
  cbn [mbind res_bind]. eexists. split; [done|]. unfold captured. rewrite E0, E1, E2, E3, E4.
  split_and!; try done.
  - unfold copied_path. rewrite <- Hpl. apply (set_req_path_prefix (bytes_of data p)).
  - cbn [c1 req_path with_req_path_canon]. by apply set_req_path_length.
Qed.

(** ** Properties *)

Definition conn_bytes (c : Connection) : list Z := contents (recv_buf c).

(** The canonical path of a capture, as bytes of the record's path. *)
Definition canon_bytes (c : Connection) : option (list Z) :=
  (fun '(off, n) => sub (req_path c) off n) <$> req_path_canon c.

Lemma defaults_path_length c :
  length (req_path c) = kMaxReqPathLen -> length (req_path (metadata_defaults c)) = kMaxReqPathLen.
Proof.
  intros H. change (req_path (metadata_defaults c)) with (store_at (req_path c) 0 [slash; 0]).
  rewrite length_store_at; [done|]. rewrite H. unfold kMaxReqPathLen. cbn. lia.
Qed.

Lemma defaults_body_ok c : body_state_ok (metadata_defaults c).
Proof. split; [apply reset_parser_wf | change (0 <= 0 < 2 ^ 32); lia]. Qed.

Lemma writable_bound b : writable b -> Z.of_nat (length (contents b)) < 2 ^ 32.
Proof. intros Hw. pose proof (length_contents b Hw). destruct Hw as ((? & ? & _) & _). lia. Qed.

(** The extent of a request.  When the receive buffer starts with a complete
    head, capturing its metadata succeeds; the record has the end of the head
    and the method, and unless the chunked body is malformed (nothing is sent
    then) the initial extent covers the head and stays in the buffer: if the
    body is not finished every byte of the buffer belongs to this request, and
    otherwise the extent ends exactly where the message ends, at the
    Content-Length or at the last byte of a well-formed chunked body. *)
Theorem request_extent (c : Connection) he r :
  writable (recv_buf c) -> Forall is_byte (conn_bytes c) -> length (req_path c) = kMaxReqPathLen ->
  parse (S := Sc) (conn_bytes c) blank_request = Some (POut HttpParser.Complete he r) ->
  exists c', capture_request_metadata (Sc := Sc) c = Ret c' /\
    req_header_end c' = Z.of_nat he /\ req_method c' = map_log_method (HttpParser.method r) /\
    if req_malformed c' then req_initial_send_len c' = 0
    else exists n, (he <= n <= length (conn_bytes c))%nat /\ req_initial_send_len c' = Z.of_nat n /\
      if request_body_left c' then n = length (conn_bytes c)
      else message_ends (conn_bytes c) he r n.
Proof.
  unfold conn_bytes. intros Hw Hb Hrp Hp. destruct (parsed_extent Sc HS _ _ _ _ Hb Hp) as (Hhe & Hcl & _).
  destruct (parsed_views Sc HS _ _ _ _ Hb Hp) as (p & Hpath & _ & Hpb & _).
  rewrite capture_unfold, Hp by (done || by intros E; rewrite E in Hhe; cbn in Hhe; lia).
  destruct (captured_request_spec (contents (recv_buf c)) he r p (metadata_defaults c))
    as (c' & Hc & _ & _ & H1 & H2 & _ & _ & _ & H3); try done.
  - by apply writable_bound.
  - by apply defaults_path_length.
  - by exists c'.
Qed.

Lemma c_string_run l rest : Forall (fun b => b <> 0) l -> c_string (l ++ 0 :: rest) = l.
Proof.
  induction 1 as [|b l Hb _ IH]; cbn [app c_string]; [done|].
  by rewrite (proj2 (Z.eqb_neq b 0) Hb), IH.
Qed.

(** The canonical bytes survive as far as the path was copied. *)
Lemma canon_of_view_bytes (data a : list Z) (p cv : view) :
  let m := copy_len_of (v_len p) in
  (v_off p + v_len p <= length data)%nat -> (v_off p <= v_off cv)%nat ->
  (v_off cv + v_len cv <= v_off p + v_len p)%nat ->
  take m a = take m (bytes_of data p) -> (m <= length a)%nat ->
  let '(off, n) := canon_of_view m p cv in
  (off + n <= m)%nat /\ sub a off n = take (m - (v_off cv - v_off p)) (bytes_of data cv).
Proof.
  cbv zeta. intros Hp Ho Hl Ha Hm. set (m := copy_len_of (v_len p)) in *.
  assert (m <= v_len p)%nat as Hmp by (subst m; rewrite copy_len_min; lia).
  set (o := (v_off cv - v_off p)%nat) in *.
  assert (forall k, (o + k <= m)%nat -> sub a o k = take k (drop (v_off cv) data)) as Hsub.
  { intros k Hk. unfold sub.
    assert (take k (drop o a) = take k (drop o (take m a))) as ->.
    { rewrite skipn_firstn_comm, take_take. f_equal. lia. }
    rewrite Ha. unfold bytes_of, sub. rewrite take_take, skipn_firstn_comm, take_take, drop_drop.
    f_equal; [lia|]. f_equal. lia. }
  unfold canon_of_view. fold o. destruct (Nat.leb_spec m o); [|destruct (Nat.ltb_spec m (o + v_len cv))].
  - split; [lia|]. replace (m - o)%nat with 0%nat by lia. done.
  - split; [lia|]. rewrite Hsub by lia. unfold bytes_of, sub. rewrite take_take. f_equal. lia.
  - split; [lia|]. rewrite Hsub by lia. unfold bytes_of, sub. rewrite take_take. f_equal. lia.
Qed.

(** The path that is dispatched.  For a complete head the record keeps the
    first 63 bytes of the target as its path, inside its 64-byte array.  A target that does not start with
    a slash has no canonical path, so it can match no route; otherwise the
    canonical path is that of the target, cut where the copy was cut, and whole
    when the target has at most 63 bytes. *)
Theorem request_path (c : Connection) he r p :
  writable (recv_buf c) -> Forall is_byte (conn_bytes c) -> length (req_path c) = kMaxReqPathLen ->
  parse (S := Sc) (conn_bytes c) blank_request = Some (POut HttpParser.Complete he r) ->
  HttpParser.path r = Some p ->
  let target := bytes_of (conn_bytes c) p in
  exists c', capture_request_metadata (Sc := Sc) c = Ret c' /\
    length (req_path c') = kMaxReqPathLen /\ c_string (req_path c') = take 63 target /\
    if rd target 0 =? slash then
      exists canon k, canonicalize_request (Some target) = Some canon /\
        canon_bytes c' = Some (take k canon) /\ ((length target <= 63)%nat -> take k canon = canon)
    else canon_bytes c' = None.
Proof.
  unfold conn_bytes. cbv zeta. intros Hw Hb Hrp Hp Hpath.
  destruct (parsed_extent Sc HS _ _ _ _ Hb Hp) as (Hhe & Hcl & _).
  destruct (parsed_views Sc HS _ _ _ _ Hb Hp) as (p' & Hpath' & Hpos & Hpb & Hcv).
  destruct (parsed_target Sc HS _ _ _ _ Hb Hp) as (p'' & rest & Hpath'' & _ & Huri & Hcanon).
  rewrite Hpath in Hpath', Hpath''. injection Hpath' as <-. injection Hpath'' as <-.
  rewrite capture_unfold, Hp by (done || by intros E; rewrite E in Hhe; cbn in Hhe; lia).
  set (data := contents (recv_buf c)) in *.
  destruct (captured_request_spec data he r p (metadata_defaults c))
    as (c' & Hc & _ & _ & _ & _ & Hpre & Hpl & Hcv' & _); try done;
    [by apply writable_bound | by apply defaults_path_length |].
  exists c'. split; [done|]. set (target := bytes_of data p) in *.
  assert (length target = v_len p) as Htl by by apply length_sub.
  unfold copied_path in Hpre. fold target in Hpre. rewrite copy_len_min in Hpre.
  assert (take (Nat.min (v_len p) 63) target = take 63 target) as Htk.
  { rewrite <- Htl. destruct (Nat.le_ge_cases (length target) 63);
      [rewrite Nat.min_l, !take_ge by lia; done | by rewrite Nat.min_r by lia]. }
  rewrite Htk in Hpre. split; [done|]. split.
  - rewrite <- (take_drop (length (take 63 target ++ [0])) (req_path c')), Hpre, <- app_assoc. cbn [app].
    apply c_string_run, Forall_take. eapply Forall_impl; [exact Huri|]. unfold uchar. intros b Hb'. cbn in Hb'. lia.
  - destruct (rd target 0 =? slash); [|by unfold canon_bytes; rewrite Hcv', Hcanon].
    destruct Hcanon as (cv & Hcv1 & Hcv2). destruct (Hcv cv Hcv1) as [Hb1 Hb2].
    pose proof (canon_of_view_bytes data (req_path c') p cv Hpb Hb1 Hb2) as Hcb. cbv zeta in Hcb.
    fold target in Hcb. rewrite copy_len_min in Hcb at 1 2 3.
    assert (length (take 63 target) = Nat.min (v_len p) 63) as Hl63 by (rewrite length_take, Htl; lia).
    assert (take (Nat.min (v_len p) 63) (req_path c') = take 63 target) as Hpre2.
    { rewrite <- Hl63. rewrite length_app in Hpre. cbn in Hpre.
      apply (f_equal (take (length (take 63 target)))) in Hpre.
      rewrite take_take, Nat.min_l, take_app_length in Hpre by lia. done. }
    rewrite Htk in Hcb. specialize (Hcb Hpre2).
    assert (Nat.min (v_len p) 63 <= length (req_path c'))%nat as Hlen.
    { rewrite <- Hl63, <- Hpre2, length_take. lia. }
    specialize (Hcb Hlen). unfold canon_bytes. rewrite Hcv', Hcv1. cbn [fmap option_fmap option_map].
    destruct (canon_of_view _ p cv) as [off n]. destruct Hcb as [_ ->].
    eexists _, _. split; [symmetry; exact Hcv2|]. split; [done|]. intros H63.
    apply take_ge. unfold bytes_of. rewrite length_sub by lia. rewrite copy_len_min. lia.
Qed.

(** The record stays well-formed whatever the bytes. *)
Definition meta_ok (c : Connection) : Prop :=
  length (req_path c) = kMaxReqPathLen /\
  match req_path_canon c with Some (off, n) => (off + n <= kMaxReqPathLen - 1)%nat | None => True end /\
  0 <= req_initial_send_len c <= len (recv_buf c) /\ 0 <= req_header_end c <= len (recv_buf c) /\
  body_state_ok c.

Lemma captured_fallback_ok data c :
  meta_ok c -> req_initial_send_len c = 0 ->
  meta_ok (captured_fallback data c) /\ io_part (captured_fallback data c) = io_part c.
Proof.
  intros (Hp & Hc & Hi & He & Hbs) H0. unfold captured_fallback. destruct (parse_log_method_fallback data) as [m ml].
  case_if; [by split_and!|]. set (path := fallback_path _). case_if; [by split_and!|].
  split; [|done]. unfold meta_ok. set (copied := take (copy_len_of (length path)) path).
  pose proof (finalize_in_bounds (take (query_start copied) copied)) as Hf.
  assert (length copied <= 63)%nat as Hcl by (subst copied; rewrite length_take, copy_len_min; lia).
  destruct (finalize_view _) as [lo n]. cbn [fst snd] in Hf. rewrite length_take in Hf.
  cbn [req_path req_path_canon with_req_path_canon]. split_and!.
  - by apply set_req_path_length.
  - unfold kMaxReqPathLen. lia.
  - apply Hi.
  - apply Hi.
  - apply He.
  - apply He.
  - exact Hbs.
Qed.

Lemma defaults_ok c :
  writable (recv_buf c) -> length (req_path c) = kMaxReqPathLen -> meta_ok (metadata_defaults c).
Proof.
  intros ((Hl & _) & _) Hp. split_and!.
  - by apply defaults_path_length.
  - change (1 + 0 <= 63)%nat. lia.
  - change (0 <= 0). lia.
  - change (0 <= len (recv_buf c)). lia.
  - change (0 <= 0). lia.
  - change (0 <= len (recv_buf c)). lia.
  - apply defaults_body_ok.
Qed.

Lemma canon_of_view_bound m p cv : let '(off, n) := canon_of_view m p cv in (off + n <= m)%nat.
Proof. unfold canon_of_view. case_if; [lia|]. case_if; zify_bool; lia. Qed.

Lemma captured_meta_ok data he r p c c' :
  captured data he r p c c' -> Z.of_nat (length data) = len (recv_buf c) -> (he <= length data)%nat -> meta_ok c'.
Proof.
  intros (Hio & Hbs & Hhe & _ & _ & Hpl & Hcv & Hn) Hl Hle. unfold meta_ok. rewrite Hhe.
  assert (recv_buf c' = recv_buf c) as -> by (unfold io_part in Hio; by injection Hio).
  split_and!; [done | |..].
  - rewrite Hcv. destruct (path_canon r) as [cv|]; cbn; [|done].
    pose proof (canon_of_view_bound (copy_len_of (v_len p)) p cv) as Hb. rewrite copy_len_min in *.
    destruct (canon_of_view _ p cv). unfold kMaxReqPathLen. lia.
  - destruct (req_malformed c'); [lia|]. destruct Hn as (n & ? & -> & _). lia.
  - destruct (req_malformed c'); [lia|]. destruct Hn as (n & ? & -> & _). lia.
  - lia.
  - lia.
  - done.
Qed.

Lemma io_defaults c : io_part (metadata_defaults c) = io_part c.
Proof. reflexivity. Qed.

Lemma capture_total (c : Connection) :
  writable (recv_buf c) -> Forall is_byte (conn_bytes c) -> length (req_path c) = kMaxReqPathLen ->
  exists c', capture_request_metadata (Sc := Sc) c = Ret c' /\ meta_ok c' /\ io_part c' = io_part c.
Proof.
  unfold conn_bytes. intros Hw Hb Hrp. pose proof (defaults_ok c Hw Hrp) as Hdef.
  pose proof (length_contents _ Hw) as Hl.
  destruct (decide (contents (recv_buf c) = [])) as [E|Hne].
  - exists (metadata_defaults c). split; [|done]. rewrite E in Hl.
    destruct Hw as (_ & Hr & Hn). unfold capture_request_metadata. cbv zeta. rewrite !recv_buf_defaults, Hr.
    destruct (ptr (recv_buf c)); [|by destruct Hn]. by rewrite <- Hl.
  - rewrite capture_unfold by done.
    destruct (parse_total Sc HS (contents (recv_buf c)) blank_request Hb) as [[st he r] Hp]. rewrite Hp.
    rewrite <- (io_defaults c).
    destruct st; [|eexists; (split; [reflexivity|]); by apply captured_fallback_ok..].
    destruct (parsed_extent Sc HS _ _ _ _ Hb Hp) as (Hhe & Hcl & _).
    destruct (parsed_views Sc HS _ _ _ _ Hb Hp) as (p & Hpath & Hpos & Hpb & Hcv).
    destruct (captured_request_spec (contents (recv_buf c)) he r p (metadata_defaults c))
      as (c' & Hc & Hcap); try done;
      [by apply writable_bound | by apply defaults_path_length |].
    exists c'. split; [done|]. split; [by eapply captured_meta_ok; [..|apply Hhe] | apply Hcap].
Qed.

End extent.

(** C28: pipelined bytes survive.  After a request whose extent is known, the
    bytes behind it are moved to the front of the receive buffer (local
    responses), or stashed in the send buffer and brought back after the
    upstream exchange (proxied responses); nothing is lost, reordered or added,
    and the answer says whether there were any. *)
Theorem pipelined_bytes_kept c :
  writable (recv_buf c) -> writable (send_buf c) -> 0 < req_initial_send_len c ->
  cap (send_buf c) = cap (recv_buf c) -> cap (recv_buf c) < 2 ^ 16 ->
  let rest := next_bytes c in
  let more := bool_decide (rest <> []) in
  (exists c', pipeline_shift c = Ret (more, c') /\ (rest <> [] -> conn_bytes c' = rest)) /\
  (exists c1 c2 c3, pipeline_stash c = Ret c1 /\ recv_reset c1 = Ret c2 /\
     pipeline_recover c2 = Ret (more, c3) /\ (rest <> [] -> conn_bytes c3 = rest)).
Proof.
  cbv zeta. intros Hw Hs Hp Hcap H16.
  assert (Z.of_nat (length (next_bytes c)) <= cap (recv_buf c)) as Hfit.
  { rewrite <- next_bytes_nil, pipeline_leftover_spec by done. destruct Hw as ((? & _) & _). lia. }
  split.
  - pose proof (pipeline_shift_spec c Hw Hp) as H. case_decide as E.
    + exists c. rewrite bool_decide_eq_false_2 by (intros H'; by apply H'). done.
    + destruct H as (b & -> & _ & _ & Hb). eexists. rewrite bool_decide_eq_true_2 by done. done.
  - destruct (pipeline_stash_spec c Hw Hs Hp) as (b & -> & Hb & Hbc & Hct); [lia | lia |].
    destruct (reset_spec _ Hw) as (rb & Hreset & Hrb & Hrc & _).
    set (c1 := with_pipeline_stash_len _ _). set (c2 := with_recv_buf rb c1).
    assert (recv_reset c1 = Ret c2) as Hr2.
    { unfold recv_reset. change (recv_buf c1) with (recv_buf c). by rewrite Hreset. }
    destruct (decide (next_bytes c = [])) as [E|E].
    + rewrite bool_decide_eq_false_2 by (intros H'; by apply H'). exists c1, c2, (with_pipeline_stash_len 0 c2).
      split_and!; try done. unfold pipeline_recover. subst c2 c1.
      cbn [pipeline_stash_len with_recv_buf with_pipeline_stash_len]. by rewrite E.
    + destruct (pipeline_recover_spec c2 (next_bytes c)) as (b3 & sb & H3 & _ & Hc3 & _);
        try done; [by apply Hct | cbn; lia |].
      rewrite bool_decide_eq_true_2 by done. eexists c1, c2, _. split_and!; done.
Qed.

(** A connection with bytes received and an idle send buffer. *)
Definition conn_with (data : list Z) : Connection :=
  with_recv_buf (mkBuffer (Some (data ++ replicate 256 0)) (Z.of_nat (length data)) (Z.of_nat (length data + 256)) false)
    (with_send_buf (bound_buffer (replicate (length data + 256) 0) (Z.of_nat (length data + 256)))
       (with_keep_alive true conn_zero)).

Lemma conn_with_ok data :
  Z.of_nat (length data) < 2 ^ 31 ->
  writable (recv_buf (conn_with data)) /\ writable (send_buf (conn_with data)) /\ conn_bytes (conn_with data) = data.
Proof.
  intros H. unfold writable, buf_ok, conn_bytes, contents.
  cbn [conn_with recv_buf send_buf with_recv_buf with_send_buf with_keep_alive bound_buffer ptr len cap released].
  rewrite length_app, !length_replicate, Nat2Z.id, take_app_length. split_and!; try done; lia.
Qed.

Definition pipelined_ex : list Z :=
  bs "POST /up HTTP/1.1" ++ CRLF ++ bs "Content-Length: 3" ++ CRLF ++ CRLF ++ bs "abc" ++
  bs "GET /next HTTP/1.1" ++ CRLF ++ CRLF.

Lemma pipelined_bytes_kept_witness :
  let c := with_req_initial_send_len 43 (conn_with pipelined_ex) in
  let rest := bs "GET /next HTTP/1.1" ++ CRLF ++ CRLF in
  (exists c', pipeline_shift c = Ret (true, c') /\ (rest <> [] -> conn_bytes c' = rest)) /\
  (exists c1 c2 c3, pipeline_stash c = Ret c1 /\ recv_reset c1 = Ret c2 /\
     pipeline_recover c2 = Ret (true, c3) /\ (rest <> [] -> conn_bytes c3 = rest)).
Proof.
  destruct (conn_with_ok pipelined_ex) as (Hr & Hs & _); [by vm_compute|].
  refine (pipelined_bytes_kept (with_req_initial_send_len 43 (conn_with pipelined_ex)) Hr Hs _ eq_refl _);
    by vm_compute.
Defined.

Definition pipelined_req : ParsedRequest :=
  mkParsedRequest POST (Some (HttpParser.View 5 3)) (Some (HttpParser.View 6 2)) Http11
    [mkHeader (HttpParser.View 19 14) (HttpParser.View 35 1)] 1 3 true false true.

Lemma request_extent_witness :
  exists c', capture_request_metadata (Sc := sse2_scanners) (conn_with pipelined_ex) = Ret c' /\
    req_header_end c' = 40 /\ req_method c' = LPost /\
    if req_malformed c' then req_initial_send_len c' = 0
    else exists n, (40 <= n <= length pipelined_ex)%nat /\ req_initial_send_len c' = Z.of_nat n /\
      if request_body_left c' then n = length pipelined_ex
      else message_ends pipelined_ex 40 pipelined_req n.
Proof.
  destruct (conn_with_ok pipelined_ex) as (Hr & Hs & Hb); [by vm_compute|].
  pose proof (request_extent sse2_scanners sse2_ok (conn_with pipelined_ex) 40 pipelined_req) as H. rewrite Hb in H.
  apply H; [done | by apply bytes_ok_Forall | done | vm_compute; reflexivity].
Defined.

Lemma request_path_witness :
  let target := bytes_of pipelined_ex (HttpParser.View 5 3) in
  exists c', capture_request_metadata (Sc := sse2_scanners) (conn_with pipelined_ex) = Ret c' /\
    length (req_path c') = kMaxReqPathLen /\ c_string (req_path c') = take 63 target /\
    if rd target 0 =? slash then
      exists canon k, canonicalize_request (Some target) = Some canon /\
        canon_bytes c' = Some (take k canon) /\ ((length target <= 63)%nat -> take k canon = canon)
    else canon_bytes c' = None.
Proof.
  destruct (conn_with_ok pipelined_ex) as (Hr & Hs & Hb); [by vm_compute|].
  pose proof (request_path sse2_scanners sse2_ok (conn_with pipelined_ex) 40 pipelined_req (HttpParser.View 5 3)) as H.
  rewrite Hb in H. apply H; [done | by apply bytes_ok_Forall | done | vm_compute; reflexivity | reflexivity].
Defined.
