(* ===== verification/RequestHelpers.v ===== *)
(** * Request helpers of compiled handlers

    Model of the request and string functions of src/jit/runtime_helpers.cc that
    compiled handlers call: the target, its path and query, headers, cookies,
    query and route parameters, the body, and prefix and comparison of strings.
    A result view is given as its bytes, an absent value as [None]. *)

From S2P Require Import Prelude Scan HeaderValidation HttpParser HttpGrammar HttpFraming RouteCanon RouteTrie Connection RequestMeta.

Definition marks (c : Z) : bool := (c =? ch "?") || (c =? ch "#").

Section helpers.
Context `{Sc : Scanners}.

Definition parsed (data : list Z) : option (nat * ParsedRequest) :=
  match parse (S := Sc) data blank_request with
  | Some (POut HttpParser.Complete he r) => Some (he, r)
  | _ => None
  end.

Definition view_bytes (data : list Z) (v : option view) : list Z :=
  match v with Some v => bytes_of data v | None => [] end.

(** ** Target *)

Definition rut_helper_req_path (data : list Z) : list Z :=
  match parsed data with
  | Some (_, r) => view_bytes data (path r)
  | None =>
      let i := skip_while data (fun c => negb (c =? SP)) 0 in
      if Nat.leb (length data) i then bs "/"
      else
        let path_start := S i in
        let e := skip_while data (fun c => negb (c =? SP) && negb (c =? CR)) path_start in
        sub data path_start (e - path_start)
  end.

(** The first [?] or [#], or the end. *)
Definition first_mark (p : list Z) : nat := skip_while p (fun c => negb (marks c)) 0.

Definition rut_helper_req_path_only (data : list Z) : list Z :=
  let p := rut_helper_req_path data in take (first_mark p) p.

(** The query of a target: behind the first [?], up to a [#]. *)
Definition query_part (p : list Z) : option (list Z) :=
  let pos := first_mark p in
  if at_is p pos (ch "?") then
    let query := drop (S pos) p in
    Some (take (skip_while query (fun c => negb (c =? ch "#")) 0) query)
  else None.

Definition rut_helper_req_query_string (data : list Z) : option (list Z) :=
  match parsed data with
  | None => None
  | Some (_, r) => match view_bytes data (path r) with [] => None | p => query_part p end
  end.

(** ** Query parameters *)

Fixpoint query_loop (fuel : nat) (name query : list Z) (pos : nat) : option (list Z) :=
  match fuel with
  | O => None
  | S fuel' =>
      if Nat.leb (length query) pos then None
      else
        let key_start := skip_while query (fun c => c =? ch "&") pos in
        let key_end := skip_while query (fun c => negb (c =? ch "&") && negb (c =? ch "=")) key_start in
        let '(val_start, val_end) :=
          if at_is query key_end (ch "=")
          then (S key_end, skip_while query (fun c => negb (c =? ch "&")) (S key_end))
          else (key_end, key_end) in
        if Nat.eqb (key_end - key_start) (length name) && str_eq (sub query key_start (length name)) name
        then Some (sub query val_start (val_end - val_start))
        else query_loop fuel' name query val_end
  end.

Definition rut_helper_req_query (data name : list Z) : option (list Z) :=
  match name with
  | [] => None
  | _ =>
      match parsed data with
      | None => None
      | Some (_, r) =>
          match view_bytes data (path r) with
          | [] => None
          | p =>
              let pos := first_mark p in
              if negb (at_is p pos (ch "?")) then None
              else if Nat.leb (length p) (S pos) then None
              else
                let query := drop (S pos) p in
                let query := take (skip_while query (fun c => negb (c =? ch "#")) 0) query in
                query_loop (S (length query)) name query 0
          end
      end
  end.

(** ** Headers and cookies *)

Definition ascii_header_name_eq (h name : list Z) : bool :=
  if negb (Nat.eqb (length h) (length name)) then false else eq_ci_loop h name.

Definition parsed_headers (data : list Z) : list (list Z * list Z) :=
  match parsed data with
  | None => []
  | Some (_, r) => (fun h => (bytes_of data (h_name h), bytes_of data (h_value h))) <$> take (header_count r) (headers r)
  end.

Definition rut_helper_req_header (data name : list Z) : option (list Z) :=
  snd <$> List.find (fun h => ascii_header_name_eq h.1 name) (parsed_headers data).

Fixpoint cookie_loop (fuel : nat) (name p : list Z) (pos : nat) : option (list Z) :=
  match fuel with
  | O => None
  | S fuel' =>
      if Nat.leb (length p) pos then None
      else
        let key_start := skip_while p (fun c => is_ows c || (c =? ch ";")) pos in
        let pos := skip_while p (fun c => negb (c =? ch "=") && negb (c =? ch ";")) key_start in
        let key_end := trim_ows p key_start pos in
        if negb (at_is p pos (ch "=")) then cookie_loop fuel' name p (skip_while p (fun c => negb (c =? ch ";")) pos)
        else
          let value_start := S pos in
          let pos := skip_while p (fun c => negb (c =? ch ";")) value_start in
          let value_end := trim_ows p value_start pos in
          if Nat.eqb (key_end - key_start) (length name) && str_eq (sub p key_start (length name)) name
          then Some (sub p value_start (value_end - value_start))
          else cookie_loop fuel' name p pos
  end.

(** The headers in order, the first match ends the search. *)
Fixpoint cookie_headers (name : list Z) (hs : list (list Z * list Z)) : option (list Z) :=
  match hs with
  | [] => None
  | h :: hs' =>
      if ascii_header_name_eq h.1 (bs "Cookie") then
        match cookie_loop (S (length h.2)) name h.2 0 with
        | Some v => Some v
        | None => cookie_headers name hs'
        end
      else cookie_headers name hs'
  end.

Definition rut_helper_req_cookie (data name : list Z) : option (list Z) :=
  match name with [] => None | _ => cookie_headers name (parsed_headers data) end.

(** ** The rest of a request *)

Definition rut_helper_req_body (data : list Z) : list Z :=
  match parsed data with
  | None => []
  | Some (header_end, r) =>
      if negb (has_content_length r) || Nat.leb (length data) header_end || (content_length r =? 0) then []
      else if Z.of_nat (length data - header_end) <? content_length r then []
      else sub data header_end (Z.to_nat (content_length r))
  end.

Definition rut_helper_req_http_version (data : list Z) : list Z :=
  match parsed data with
  | Some (_, r) => match version r with Http10 => bs "HTTP/1.0" | Http11 => bs "HTTP/1.1" | UnknownVersion => [] end
  | None => []
  end.

Definition rut_helper_req_flag (data : list Z) (flag : Z) : Z :=
  match parsed data with
  | None => 0
  | Some (_, r) =>
      if flag =? 0 then Z.b2z (HttpParser.keep_alive r)
      else if flag =? 1 then Z.b2z (chunked r)
      else if flag =? 2 then Z.b2z (has_content_length r)
      else if flag =? 3 then match version r with Http10 => 1 | _ => 0 end
      else if flag =? 4 then match version r with Http11 => 1 | _ => 0 end
      else 0
  end.

Definition rut_helper_req_method (data : list Z) : HttpMethod :=
  match parsed data with Some (_, r) => HttpParser.method r | None => UnknownMethod end.

Definition rut_helper_req_content_length (data : list Z) : Z :=
  match parsed data with
  | Some (_, r) => if has_content_length r then content_length r else 0
  | None => 0
  end.
End helpers.

(** The parameters of the matched route; the array holds sixteen. *)
Definition rut_helper_req_param (ctx : HandlerCtx) (name : list Z) : list Z :=
  match List.find (fun p => str_eq (p_name p) name) (take kMaxRouteParams (ctx_route_params ctx)) with
  | Some p => p_value p
  | None => []
  end.

(** ** Strings *)

Definition rut_helper_str_has_prefix (s pfx : list Z) : bool :=
  if Nat.ltb (length s) (length pfx) then false else is_prefix pfx s.

Fixpoint cmp_loop (a b : list Z) : Z :=
  match a, b with
  | x :: a', y :: b' => if x <? y then -1 else if y <? x then 1 else cmp_loop a' b'
  | _, _ => 0
  end.

Definition rut_helper_str_cmp (a b : list Z) : Z :=
  let n := Nat.min (length a) (length b) in
  let r := cmp_loop (take n a) (take n b) in
  if negb (r =? 0) then r
  else if Nat.ltb (length a) (length b) then -1 else if Nat.ltb (length b) (length a) then 1 else 0.

Definition rut_helper_str_trim_prefix (s pfx : list Z) : list Z :=
  if Nat.leb (length pfx) (length s) && is_prefix pfx s then drop (length pfx) s else s.

(** ** What they promise: lists of pairs *)

Fixpoint split_on (sep : Z) (l : list Z) : list (list Z) :=
  match l with
  | [] => [[]]
  | c :: l' =>
      if c =? sep then [] :: split_on sep l'
      else match split_on sep l' with p :: ps => (c :: p) :: ps | [] => [[c]] end
  end.

(** Key and value of a piece; no value without a [=]. *)
Fixpoint cut (l : list Z) : list Z * option (list Z) :=
  match l with
  | [] => ([], None)
  | c :: l' => if c =? ch "=" then ([], Some l') else let '(k, v) := cut l' in (c :: k, v)
  end.

Fixpoint ltrim (l : list Z) : list Z :=
  match l with c :: l' => if is_ows c then ltrim l' else l | [] => [] end.
Definition rtrim (l : list Z) : list Z := reverse (ltrim (reverse l)).

Definition query_piece (name piece : list Z) : option (list Z) :=
  let '(k, v) := cut piece in if str_eq k name then Some (default [] v) else None.

Definition cookie_piece (name piece : list Z) : option (list Z) :=
  match cut (ltrim piece) with
  | (k, Some v) => if str_eq (rtrim k) name then Some (rtrim v) else None
  | _ => None
  end.

(** The value of the first piece that has the key. *)
Definition query_value (name query : list Z) : option (list Z) := head (omap (query_piece name) (split_on (ch "&") query)).
Definition cookie_value (name header : list Z) : option (list Z) := head (omap (cookie_piece name) (split_on (ch ";") header)).

(** ** Lemmas *)

Lemma split_on_sep sep a l :
  Forall (fun c => c <> sep) a -> split_on sep (a ++ sep :: l) = a :: split_on sep l.
Proof.
  induction 1 as [|c a Hc _ IH]; cbn; [by rewrite Z.eqb_refl|]. by rewrite (proj2 (Z.eqb_neq _ _) Hc), IH.
Qed.

Lemma split_on_end sep a : Forall (fun c => c <> sep) a -> split_on sep a = [a].
Proof. induction 1 as [|c a Hc _ IH]; cbn; [done|]. by rewrite (proj2 (Z.eqb_neq _ _) Hc), IH. Qed.

Lemma cut_pair k v : Forall (fun c => c <> ch "=") k -> cut (k ++ ch "=" :: v) = (k, Some v).
Proof. induction 1 as [|c k Hc _ IH]; [done|]. cbn [cut app]. by rewrite (proj2 (Z.eqb_neq _ _) Hc), IH. Qed.

Lemma cut_key k : Forall (fun c => c <> ch "=") k -> cut k = (k, None).
Proof. induction 1 as [|c k Hc _ IH]; [done|]. cbn [cut]. by rewrite (proj2 (Z.eqb_neq _ _) Hc), IH. Qed.

(** [l] is a first piece [a] and what follows it. *)
Lemma first_piece {B} (f : list Z -> option B) sep a r :
  Forall (fun c => c <> sep) a -> ends (fun c => negb (c =? sep)) r -> f [] = None ->
  head (omap f (split_on sep (a ++ r))) = match f a with Some b => Some b | None => head (omap f (split_on sep r)) end.
Proof.
  intros Ha Hr Hf. destruct r as [|c r]; cbn in Hr.
  - rewrite app_nil_r, split_on_end by done. cbn. rewrite Hf. by destruct (f a).
  - zify_bool. subst c. rewrite split_on_sep by done. cbn. rewrite Z.eqb_refl. cbn. rewrite Hf. by destruct (f a).
Qed.

Lemma class_ne (p : Z -> bool) c l : p c = false -> Forall (fun x => p x = true) l -> Forall (fun x => x <> c) l.
Proof. intros Hc Hl. eapply Forall_impl; [exact Hl|]. intros x Hx ->. congruence. Qed.

(** The test of key and name by length and bytes. *)
Lemma key_test buf i e k r name :
  drop i buf = k ++ r -> e = (i + length k)%nat ->
  Nat.eqb (e - i) (length name) && str_eq (sub buf i (length name)) name = str_eq k name.
Proof.
  intros Hd ->. replace (i + length k - i)%nat with (length k) by lia. unfold sub. rewrite Hd.
  destruct (Nat.eqb_spec (length k) (length name)) as [E|E].
  - rewrite <- E, take_app_length. done.
  - cbn. symmetry. unfold str_eq. apply bool_decide_eq_false. congruence.
Qed.

Lemma sub_slice buf i a r : drop i buf = a ++ r -> sub buf i (i + length a - i) = a.
Proof. intros Hd. replace (i + length a - i)%nat with (length a) by lia. unfold sub. by rewrite Hd, take_app_length. Qed.

Lemma head_cases c (r : list Z) : (exists r', r = c :: r') \/ ends (fun x => x =? c) r.
Proof. destruct r as [|x r]; [by right|]. cbn. destruct (Z.eqb_spec x c) as [->|]; eauto. Qed.

(** ** Query parameters *)

Lemma query_piece_nil name : name <> [] -> query_piece name [] = None.
Proof. intros Hn. unfold query_piece, str_eq. cbn. by rewrite bool_decide_false. Qed.

Lemma query_value_nil name : name <> [] -> query_value name [] = None.
Proof. intros Hn. unfold query_value. cbn [split_on omap list_omap]. by rewrite query_piece_nil. Qed.

Lemma query_skip_amps name a l :
  name <> [] -> Forall (fun c => (c =? ch "&") = true) a -> query_value name (a ++ l) = query_value name l.
Proof.
  intros Hn. unfold query_value. induction 1 as [|c a Hc _ IH]; [done|]. zify_bool. subst c. cbn [app split_on]. rewrite Z.eqb_refl.
  cbn [omap list_omap]. by rewrite query_piece_nil.
Qed.

Lemma query_loop_spec fuel name query pos :
  name <> [] -> (length (drop pos query) < fuel)%nat ->
  query_loop fuel name query pos = query_value name (drop pos query).
Proof.
  intros Hn. revert pos. induction fuel as [|fuel IH]; intros pos Hf; [lia|]. cbn [query_loop].
  destruct (Nat.leb_spec (length query) pos) as [Hp|Hp].
  { rewrite drop_ge by done. by rewrite query_value_nil. }
  destruct (split_while (fun c => c =? ch "&") (drop pos query)) as (a & l & Hd & Ha & Hl).
  rewrite (skip_while_eq query _ pos a l Hd Ha Hl). pose proof (drop_further query pos a l Hd) as Hd1.
  rewrite Hd, (query_skip_amps name a l Hn Ha).
  destruct (split_while (fun c => negb (c =? ch "&") && negb (c =? ch "=")) l) as (k & r & El & Hk & Hr).
  rewrite El in Hd1. rewrite (skip_while_eq query _ _ k r Hd1 Hk Hr).
  pose proof (drop_further query _ k r Hd1) as Hd2.
  assert (Forall (fun c => c <> ch "&") k) as Hka by (by apply (class_ne (fun c => negb (c =? ch "&") && negb (c =? ch "=")))).
  assert (Forall (fun c => c <> ch "=") k) as Hke by (by apply (class_ne (fun c => negb (c =? ch "&") && negb (c =? ch "=")))).
  set (key_end := (pos + length a + length k)%nat) in *.
  assert (at_is query key_end (ch "=") = match r with c :: _ => c =? ch "=" | [] => false end) as ->.
  { rewrite <- (Nat.add_0_r key_end), (at_is_drop query key_end r 0 _ Hd2). by destruct r. }
  assert (length (drop pos query) = (length a + (length k + length r))%nat) as Hlen by (rewrite Hd, El, !length_app; lia).
  assert (length a + length k + length r > 0)%nat as Hpos by (rewrite length_drop in Hlen; lia).
  destruct (head_cases (ch "=") r) as [(r' & ->)|Hno].
  - rewrite Z.eqb_refl. destruct (split_while (fun c => negb (c =? ch "&")) r') as (v & r2 & -> & Hv & Hr2).
    pose proof (drop_cons query _ _ _ Hd2) as Hd3. rewrite (skip_while_eq query _ (S key_end) v r2 Hd3 Hv Hr2).
    rewrite (key_test query _ key_end k _ name Hd1 eq_refl), (sub_slice query (S key_end) v r2 Hd3).
    rewrite IH by (rewrite (drop_further query (S key_end) v r2 Hd3); cbn in Hlen; rewrite length_app in Hlen; lia).
    rewrite (drop_further query (S key_end) v r2 Hd3). subst l. unfold query_value.
    replace (k ++ ch "=" :: v ++ r2) with ((k ++ ch "=" :: v) ++ r2) by (by rewrite <- app_assoc).
    rewrite (first_piece _ (ch "&") (k ++ ch "=" :: v) r2); [| | done | by apply query_piece_nil].
    + unfold query_piece at 2. rewrite cut_pair by done. by destruct (str_eq k name).
    + apply Forall_app. split; [done|]. constructor; [done|]. by apply (class_ne (fun c => negb (c =? ch "&"))).
  - assert (match r with c :: _ => c =? ch "=" | [] => false end = false) as ->.
    { by destruct r. }
    rewrite (key_test query _ key_end k r name Hd1 eq_refl), Nat.sub_diag. subst l. unfold query_value.
    rewrite (first_piece _ (ch "&") k r); [| done | | by apply query_piece_nil].
    2: { destruct r as [|c r]; [done|]. cbn [ends] in *. rewrite Hno, andb_true_r in Hr. done. }
    unfold query_piece at 1. rewrite cut_key by done. destruct (str_eq k name); [done|].
    destruct r as [|c r].
    + destruct fuel; [lia|]. cbn [query_loop]. rewrite (proj2 (Nat.leb_le _ _)); [symmetry; by apply query_value_nil|].
      apply (f_equal length) in Hd2. rewrite length_drop in Hd2. cbn in Hd2. lia.
    + rewrite IH; [by rewrite Hd2|]. rewrite Hd2. cbn in Hlen |- *.
      destruct a as [|? a], k as [|? k]; cbn in *; try lia; congruence.
Qed.

(** ** Cookies *)

Lemma ltrim_id l : ends is_ows l -> ltrim l = l.
Proof. destruct l as [|c l]; [done|]. cbn. by intros ->. Qed.

Lemma ltrim_app o l : Forall (fun b => is_ows b = true) o -> ltrim (o ++ l) = ltrim l.
Proof. induction 1 as [|c o Hc _ IH]; [done|]. cbn. by rewrite Hc. Qed.

Lemma rtrim_split v o :
  Forall (fun b => is_ows b = true) o -> (forall b, last v = Some b -> is_ows b = false) -> rtrim (v ++ o) = v.
Proof.
  intros Ho Hv. unfold rtrim. rewrite reverse_app, ltrim_app by (by apply Forall_reverse).
  rewrite ltrim_id; [apply reverse_involutive|]. destruct v as [|x v _] using rev_ind; [done|].
  rewrite reverse_snoc. cbn. apply Hv, last_snoc.
Qed.

(** Trimming at the end of a run by index. *)
Lemma trim_run buf i w r : drop i buf = w ++ r -> sub buf i (trim_ows buf i (i + length w) - i) = rtrim w /\
  drop i buf = rtrim w ++ drop (length (rtrim w)) w ++ r /\ trim_ows buf i (i + length w) = (i + length (rtrim w))%nat.
Proof.
  intros Hd. destruct (strip_tail w) as (v & o & -> & Ho & Hv). rewrite (rtrim_split v o Ho Hv), drop_app_length.
  rewrite <- app_assoc in Hd. rewrite (trim_ows_split buf i v o r Hd Ho Hv). split_and!; [|done|done].
  by apply (sub_slice buf i v (o ++ r)).
Qed.

Lemma cookie_piece_blank name : cookie_piece name [] = None.
Proof. done. Qed.

Lemma cookie_skip name a l :
  Forall (fun c => is_ows c || (c =? ch ";") = true) a -> cookie_value name (a ++ l) = cookie_value name l.
Proof.
  unfold cookie_value. induction 1 as [|c a Hc _ IH]; [done|]. cbn [app split_on].
  destruct (Z.eqb_spec c (ch ";")) as [->|Hne]; [exact IH|]. rewrite orb_false_r in Hc. rewrite <- IH.
  destruct (split_on (ch ";") (a ++ l)) as [|p ps] eqn:E.
  - cbn [omap list_omap]. unfold cookie_piece. cbn [ltrim]. by rewrite Hc.
  - cbn [omap list_omap]. unfold cookie_piece at 1. cbn [ltrim]. rewrite Hc. done.
Qed.

Lemma cookie_loop_spec fuel name p pos :
  (length (drop pos p) < fuel)%nat -> cookie_loop fuel name p pos = cookie_value name (drop pos p).
Proof.
  revert pos. induction fuel as [|fuel IH]; intros pos Hf; [lia|]. cbn [cookie_loop].
  destruct (Nat.leb_spec (length p) pos) as [Hp|Hp]; [by rewrite drop_ge|].
  destruct (split_while (fun c => is_ows c || (c =? ch ";")) (drop pos p)) as (a & l & Hd & Ha & Hl).
  rewrite (skip_while_eq p _ pos a l Hd Ha Hl). pose proof (drop_further p pos a l Hd) as Hd1.
  rewrite Hd, (cookie_skip name a l Ha).
  destruct (split_while (fun c => negb (c =? ch "=") && negb (c =? ch ";")) l) as (k & r & El & Hk & Hr).
  rewrite El in Hd1. rewrite (skip_while_eq p _ _ k r Hd1 Hk Hr).
  pose proof (drop_further p _ k r Hd1) as Hd2.
  assert (Forall (fun c => c <> ch ";") k) as Hks by (by apply (class_ne (fun c => negb (c =? ch "=") && negb (c =? ch ";")))).
  assert (Forall (fun c => c <> ch "=") k) as Hke by (by apply (class_ne (fun c => negb (c =? ch "=") && negb (c =? ch ";")))).
  set (i := (pos + length a)%nat) in *. destruct (trim_run p i k r Hd1) as (_ & Hkd & ->).
  assert (at_is p (i + length k) (ch "=") = match r with c :: _ => c =? ch "=" | [] => false end) as ->.
  { rewrite <- (Nat.add_0_r (i + length k)), (at_is_drop p _ r 0 _ Hd2). by destruct r. }
  assert (length (drop pos p) = (length a + (length k + length r))%nat) as Hlen by (rewrite Hd, El, !length_app; lia).
  assert (forall x, ends is_ows (k ++ x) \/ k = []) as Hkl.
  { intros x. destruct k as [|c k]; [by right|]. left. subst l. cbn in Hl |- *. by apply orb_false_iff in Hl as [? _]. }
  destruct (head_cases (ch "=") r) as [(r' & ->)|Hno].
  - rewrite Z.eqb_refl. cbn [negb]. destruct (split_while (fun c => negb (c =? ch ";")) r') as (v & r2 & -> & Hv & Hr2).
    pose proof (drop_cons p _ _ _ Hd2) as Hd3. rewrite (skip_while_eq p _ (S (i + length k)) v r2 Hd3 Hv Hr2).
    destruct (trim_run p (S (i + length k)) v r2 Hd3) as (-> & _ & _).
    rewrite (key_test p i _ (rtrim k) _ name Hkd eq_refl).
    rewrite IH by (rewrite (drop_further p _ v r2 Hd3); cbn in Hlen; rewrite length_app in Hlen; lia).
    rewrite (drop_further p _ v r2 Hd3). subst l. unfold cookie_value.
    replace (k ++ ch "=" :: v ++ r2) with ((k ++ ch "=" :: v) ++ r2) by (by rewrite <- app_assoc).
    rewrite (first_piece _ (ch ";") (k ++ ch "=" :: v) r2); [| | done | done].
    + unfold cookie_piece at 2. rewrite ltrim_id, cut_pair by (done || (destruct (Hkl (ch "=" :: v)) as [| ->]; done)).
      by destruct (str_eq (rtrim k) name).
    + apply Forall_app. split; [done|]. constructor; [done|]. by apply (class_ne (fun c => negb (c =? ch ";"))).
  - assert (match r with c :: _ => c =? ch "=" | [] => false end = false) as -> by (by destruct r). cbn [negb].
    assert (ends (fun c => negb (c =? ch ";")) r) as Hrs.
    { destruct r as [|c r]; [done|]. cbn [ends] in *. rewrite Hno in Hr. done. }
    rewrite (skip_while_eq p _ _ [] r) by done. cbn [length]. rewrite Nat.add_0_r. subst l. unfold cookie_value at 1.
    rewrite (first_piece _ (ch ";") k r) by done.
    assert (cookie_piece name k = None) as ->.
    { unfold cookie_piece. destruct (Hkl []) as [H| ->]; [|done]. rewrite app_nil_r in H. by rewrite ltrim_id, cut_key. }
    rewrite IH; [by rewrite Hd2|]. rewrite Hd2. destruct a as [|x a]; [|cbn in Hlen; lia].
    destruct k as [|y k]; [|cbn in Hlen; lia]. destruct r as [|c r].
    { rewrite Hd in Hf. cbn in *. rewrite length_drop in Hlen. lia. }
    cbn in Hl, Hrs. rewrite orb_comm in Hl. by destruct (c =? ch ";").
Qed.

(** ** Properties *)

Lemma query_part_split p :
  exists frag, p = take (first_mark p) p ++ (match query_part p with Some q => ch "?" :: q | None => [] end) ++ frag /\
    ends (fun c => negb (c =? ch "#")) frag /\ Forall (fun c => marks c = false) (take (first_mark p) p) /\
    (forall q, query_part p = Some q -> Forall (fun c => c <> ch "#") q).
Proof.
  unfold query_part, first_mark. destruct (split_while (fun c => negb (marks c)) p) as (a & r & -> & Ha & Hr).
  rewrite (skip_while_eq (a ++ r) _ 0 a r) by done. rewrite Nat.add_0_l, take_app_length.
  assert (Forall (fun c => marks c = false) a) as Ha' by (eapply Forall_impl; [exact Ha|]; intros c Hc; by apply negb_true_iff in Hc).
  replace (at_is (a ++ r) (length a) (ch "?")) with (match r with c :: _ => c =? ch "?" | [] => false end)
    by (unfold at_is; rewrite lookup_app_r, Nat.sub_diag by lia; by destruct r).
  destruct (head_cases (ch "?") r) as [(r' & ->)|Hno].
  - rewrite Z.eqb_refl. replace (S (length a)) with (length a + 1)%nat by lia. rewrite <- drop_drop, drop_app_length.
    cbn [drop]. destruct (split_while (fun c => negb (c =? ch "#")) r') as (q & f & -> & Hq & Hf).
    rewrite (skip_while_eq (q ++ f) _ 0 q f) by done. rewrite drop_0, Nat.add_0_l, take_app_length. exists f.
    split_and!; [done | done | done |]. intros ? [= <-]. by apply (class_ne (fun c => negb (c =? ch "#"))).
  - exists r. assert (match r with c :: _ => c =? ch "?" | [] => false end = false) as -> by (by destruct r).
    split_and!; [done | | done | done]. destruct r as [|c r]; [done|]. cbn in *. unfold marks in Hr. rewrite Hno in Hr. done.
Qed.

Section properties.
Context `{Sc : Scanners}.

(** C31: query parameters and cookies are found as pairs.  For any request bytes,
    a query parameter of a complete request is the value of the first piece of
    its query, cut at [&], whose part before [=] is the name; a cookie is the
    value of the first piece of its [Cookie] headers, cut at [;], whose key
    without blanks around it is the name. *)
Theorem helpers_find_pairs data name :
  name <> [] ->
  rut_helper_req_query (Sc := Sc) data name =
    match parsed (Sc := Sc) data with
    | Some (_, r) => query_part (view_bytes data (path r)) ≫= query_value name
    | None => None
    end /\
  rut_helper_req_cookie (Sc := Sc) data name =
    head (omap (fun h => if http_header_name_eq_ci h.1 (bs "Cookie") then cookie_value name h.2 else None)
      (parsed_headers (Sc := Sc) data)).
Proof.
  intros Hn. split.
  - unfold rut_helper_req_query. destruct name as [|x name]; [done|]. destruct (parsed data) as [[he r]|]; [|done].
    destruct (view_bytes data (path r)) as [|c p0] eqn:Ep; [done|]. rewrite <- Ep. set (p := view_bytes data (path r)).
    unfold query_part. destruct (at_is p (first_mark p) (ch "?")) eqn:E; cbn [negb mbind option_bind]; [|done].
    destruct (Nat.leb_spec (length p) (S (first_mark p))) as [Hle|Hle].
    + rewrite (drop_ge p) by done. cbn [take]. by rewrite query_value_nil.
    + rewrite query_loop_spec; [done | done |]. rewrite drop_0. lia.
  - unfold rut_helper_req_cookie. destruct name as [|x name]; [done|]. generalize (parsed_headers (Sc := Sc) data).
    intros hs. induction hs as [|h hs IH]; [done|]. cbn [cookie_headers omap list_omap].
    change (ascii_header_name_eq h.1 (bs "Cookie")) with (http_header_name_eq_ci h.1 (bs "Cookie")).
    destruct (http_header_name_eq_ci h.1 (bs "Cookie")); [|done].
    rewrite cookie_loop_spec by (rewrite drop_0; lia). rewrite drop_0, IH. by destruct (cookie_value (x :: name) h.2).
Qed.

(** The views of a target make it up.  The target of a complete request is
    its path, its query behind a [?] when it has one, and a fragment that is
    empty or starts with [#]; the path has no mark, the query no [#]. *)
Theorem target_decomposition data he r :
  parsed (Sc := Sc) data = Some (he, r) ->
  exists frag,
    rut_helper_req_path (Sc := Sc) data = rut_helper_req_path_only (Sc := Sc) data ++
      (match rut_helper_req_query_string (Sc := Sc) data with Some q => ch "?" :: q | None => [] end) ++ frag /\
    ends (fun c => negb (c =? ch "#")) frag /\
    Forall (fun c => marks c = false) (rut_helper_req_path_only (Sc := Sc) data) /\
    (forall q, rut_helper_req_query_string (Sc := Sc) data = Some q -> Forall (fun c => c <> ch "#") q).
Proof.
  intros Hp. unfold rut_helper_req_path_only, rut_helper_req_query_string, rut_helper_req_path. rewrite Hp.
  destruct (query_part_split (view_bytes data (path r))) as (frag & Hsplit & H).
  exists frag. destruct (view_bytes data (path r)) as [|c p]; [|done]. done.
Qed.
End properties.

Definition request_ex : list Z :=
  bs "GET /a/b?x=1&y=2#z HTTP/1.1" ++ CRLF ++ bs "Cookie: sid = 7 ; t=8" ++ CRLF ++ CRLF.

Lemma helpers_find_pairs_witness :
  rut_helper_req_query (Sc := sse2_scanners) request_ex (bs "y") = Some (bs "2") /\
  rut_helper_req_cookie (Sc := sse2_scanners) request_ex (bs "sid") = Some (bs " 7").
Proof.
  destruct (helpers_find_pairs (Sc := sse2_scanners) request_ex (bs "y") ltac:(discriminate)) as [-> _].
  destruct (helpers_find_pairs (Sc := sse2_scanners) request_ex (bs "sid") ltac:(discriminate)) as [_ ->].
  split; vm_compute; reflexivity.
Defined.

Lemma target_decomposition_witness :
  exists frag,
    rut_helper_req_path (Sc := sse2_scanners) request_ex = rut_helper_req_path_only (Sc := sse2_scanners) request_ex ++
      (match rut_helper_req_query_string (Sc := sse2_scanners) request_ex with Some q => ch "?" :: q | None => [] end) ++ frag /\
    ends (fun c => negb (c =? ch "#")) frag /\
    Forall (fun c => marks c = false) (rut_helper_req_path_only (Sc := sse2_scanners) request_ex) /\
    (forall q, rut_helper_req_query_string (Sc := sse2_scanners) request_ex = Some q -> Forall (fun c => c <> ch "#") q).
Proof.
  destruct (parsed (Sc := sse2_scanners) request_ex) as [[he r]|] eqn:E; [|vm_compute in E; discriminate].
  exact (target_decomposition (Sc := sse2_scanners) request_ex he r E).
Defined.

(** ** Strings *)

(** Trimming undoes prefixing, and the comparison is equality exactly at zero. *)
Lemma trim_prefix_app pfx s : rut_helper_str_trim_prefix (pfx ++ s) pfx = s /\ rut_helper_str_has_prefix (pfx ++ s) pfx = true.
Proof.
  assert (is_prefix pfx (pfx ++ s) = true) as Hp by (apply is_prefix_spec; eauto).
  unfold rut_helper_str_trim_prefix, rut_helper_str_has_prefix. rewrite Hp, length_app.
  rewrite (proj2 (Nat.leb_le _ _)), (proj2 (Nat.ltb_ge _ _)) by lia. cbn. by rewrite drop_app_length.
Qed.

Lemma str_cmp_zero a b : rut_helper_str_cmp a b = 0 <-> a = b.
Proof.
  unfold rut_helper_str_cmp. split.
  - intros H. case_if_in H; [zify_bool; done|]. zify_bool.
    case_if_in H; [done|]. case_if_in H; [done|]. zify_bool. assert (length a = length b) as Hlen by lia.
    rewrite Hlen, Nat.min_id, firstn_all, <- Hlen, firstn_all in E. clear - E Hlen. revert b E Hlen.
    induction a as [|x a IH]; intros [|y b] E Hlen; try done. cbn in E. case_if_in E; [done|]. case_if_in E; [done|].
    zify_bool. f_equal; [lia|]. apply IH; [done|]. by injection Hlen.
  - intros ->. rewrite Nat.min_id, firstn_all, Nat.ltb_irrefl.
    assert (cmp_loop b b = 0) as ->; [|done]. induction b as [|x b IH]; [done|]. cbn. by rewrite Z.ltb_irrefl.
Qed.
