(* ===== verification/EventLoop.v ===== *)
(** * The event loop as the callbacks see it

    Model of the loop operations of include/rut/runtime/epoll_event_loop.h and
    include/rut/runtime/event_loop.h that the connection callbacks use, for one
    connection: a state-passing monad over the connection record, the trace of
    the operations handed to the kernel and to the other components, and a
    counter of the questions asked of the outside world.  What the kernel, the
    clock, the slice pool and the compiled handlers answer is the environment
    [Env], an argument indexed by that counter, so no two answers are tied. *)

From S2P Require Import Prelude HttpParser RouteMethod RouteTrie RouteTable HandlerAbi Buffer Connection.
From S2P Require Import SpscRing AccessLog TrafficCapture.

(** ** Operations handed out *)

Inductive Eff :=
  | ESubmitRecv | ESubmitSend (bytes : list Z)
  | ESubmitConnect (addr port : Z) | ESubmitSendUpstream (bytes : list Z) | ESubmitRecvUpstream
  | ECloseClient (fd : Z) | ECloseUpstream (fd : Z) | EClearUpstreamFd | EClearDownstreamFd
  | EEpochEnter | EEpochLeave
  | ERequestStart | ERequestComplete (duration : Z) | ERequestAborted | EConnClosed
  | ELog (e : AccessLogEntry) | ECapture (e : CaptureEntry)
  | ETimerRefresh | ETimerAdd | ETimerRemove | EPauseRecv | EYieldTimer (ms : Z) | EYieldCancel
  | ESliceAlloc | ESliceFree | EAccepted | EAllocConn | EFreeConn (cid : Z).

(** ** Answers of the outside world *)

Record Env := mkEnv {
  e_now : nat -> Z;
  e_realtime : nat -> Z;
  e_draining : nat -> bool;
  e_socket : nat -> Z;
  e_submit : nat -> bool;
  e_slice : nat -> option (list Z);
  e_capture_slice : nat -> option (list Z);
  e_peer : nat -> option Z;
  e_schedule : nat -> bool;
  e_recv : nat -> list Z;
  e_handler : nat -> Z -> HandlerCtx -> list Z -> Z * HandlerCtx;
  e_config : nat -> option RouteConfig;
  e_metrics : bool;
  e_access_log : bool;
  e_capture : bool
}.

Record Sys := mkSys { sconn : Connection; trace : list Eff; asked : nat }.

Definition M (A : Type) : Type := Sys -> res (A * Sys).

#[global] Instance M_ret : MRet M := fun A a s => Ret (a, s).
#[global] Instance M_bind : MBind M := fun A B f m s =>
  match m s with Ret (a, s') => f a s' | Trap => Trap | Fault => Fault end.

Definition bindM {A B} (m : M A) (f : A -> M B) : M B := m ≫= f.
Notation "'let*' x := m 'in' k" := (bindM m (fun x => k))
  (at level 200, x name, k at level 200, right associativity, only parsing).

Definition skip : M unit := mret tt.
Definition get : M Connection := fun s => Ret (sconn s, s).
Definition modify (f : Connection -> Connection) : M unit :=
  fun s => Ret (tt, mkSys (f (sconn s)) (trace s) (asked s)).
Definition emit (e : Eff) : M unit :=
  fun s => Ret (tt, mkSys (sconn s) (trace s ++ [e]) (asked s)).
Definition ask {A} (f : nat -> A) : M A :=
  fun s => Ret (f (asked s), mkSys (sconn s) (trace s) (S (asked s))).
Definition lift {A} (m : res A) : M A :=
  fun s => match m with Ret a => Ret (a, s) | Trap => Trap | Fault => Fault end.

(** A connection function that can trap. *)
Definition step_conn (f : Connection -> res Connection) : M unit :=
  c ← get; c' ← lift (f c); modify (fun _ => c').
Definition step_conn_val {A} (f : Connection -> res (A * Connection)) : M A :=
  c ← get; r ← lift (f c); modify (fun _ => r.2);; mret r.1.

Definition when (b : bool) (m : M unit) : M unit := if b then m else skip.

Section loop.
Context (env : Env).

(** ** Loop operations *)

Definition submit_recv : M bool := emit ESubmitRecv;; ask (e_submit env).
Definition submit_send (bytes : list Z) : M unit := emit (ESubmitSend bytes).
Definition submit_connect (t : UpstreamTarget) : M bool :=
  emit (ESubmitConnect (u_addr t) (u_port t));; ask (e_submit env).
Definition submit_send_upstream (bytes : list Z) : M bool :=
  emit (ESubmitSendUpstream bytes);; ask (e_submit env).
Definition submit_recv_upstream : M bool := emit ESubmitRecvUpstream;; ask (e_submit env).

Definition kSliceSize : Z := 16384.

(** A slice is held exactly when its buffer is bound to it. *)
Definition bound (b : Buffer) : bool := match ptr b with Some _ => true | None => false end.

Definition alloc_upstream_buf : M bool :=
  c ← get;
  if bound (upstream_recv_buf c) then mret true
  else
    s ← ask (e_slice env);
    match s with
    | None => mret false
    | Some bytes =>
        emit ESliceAlloc;;
        modify (with_upstream_recv_buf (Buffer.bind (upstream_recv_buf c) (Some bytes) kSliceSize));;
        mret true
    end.

(** [::close(conn.upstream_fd); conn.upstream_fd = -1] under its guard. *)
Definition close_upstream : M unit :=
  c ← get;
  when (0 <=? upstream_fd c) (emit (ECloseUpstream (upstream_fd c));; modify (with_upstream_fd (-1))).

(** [free_conn_impl]: the slices go back to the pool and the slot to the table. *)
Definition free_conn : M unit :=
  let* c := get in
  emit ETimerRemove;;
  when (bound (recv_buf c)) (emit ESliceFree);;
  when (bound (send_buf c)) (emit ESliceFree);;
  when (bound (upstream_recv_buf c)) (emit ESliceFree);;
  modify conn_reset;;
  emit (EFreeConn (id c)).

(** [alloc_conn_impl] when the table has a free slot: it is [slot]. *)
Definition alloc_conn (slot shard : Z) : M bool :=
  let* rs := ask (e_slice env) in
  let* ss := ask (e_slice env) in
  when (match rs with Some _ => true | None => false end) (emit ESliceAlloc);;
  when (match ss with Some _ => true | None => false end) (emit ESliceAlloc);;
  match rs, ss with
  | Some r, Some s =>
      emit EAllocConn;;
      modify conn_reset;;
      modify (with_id slot);;
      modify (with_shard_id (u8 shard));;
      modify (fun c => with_recv_buf (Buffer.bind (recv_buf c) (Some r) kSliceSize) c);;
      modify (fun c => with_send_buf (Buffer.bind (send_buf c) (Some s) kSliceSize) c);;
      let* region := ask (e_capture_slice env) in
      when (match region with Some _ => true | None => false end) (modify (with_capture_buf region));;
      mret true
  | _, _ =>
      when (match rs with Some _ => true | None => false end) (emit ESliceFree);;
      when (match ss with Some _ => true | None => false end) (emit ESliceFree);;
      mret false
  end.

Definition close_conn : M unit :=
  c ← get;
  when (negb (req_start_us c =? 0)) (emit EEpochLeave);;
  when (match pending_handler_fn c with Some _ => true | None => false end) (emit EYieldCancel);;
  when (0 <=? fd c) (emit (ECloseClient (fd c));; modify (with_fd (-1)));;
  close_upstream;;
  emit EClearUpstreamFd;;
  emit EClearDownstreamFd;;
  when (e_metrics env)
    (when (negb (req_start_us c =? 0)) (emit ERequestAborted);; emit EConnClosed);;
  free_conn.

(** [on_accept] of a plain-text listener, with a free slot in the table. *)
Definition on_accept (slot shard result : Z) : M unit :=
  if result <? 0 then skip
  else
    let* ok := alloc_conn slot shard in
    if negb ok then emit (ECloseClient result)
    else
      modify (with_fd result);;
      let* peer := ask (e_peer env) in
      match peer with Some a => modify (with_peer_addr a) | None => skip end;;
      modify (with_state ReadingHeader);;
      let* draining := ask (e_draining env) in
      modify (with_keep_alive (negb draining));;
      modify (with_on_recv (Some CHeaderReceived));;
      emit ETimerAdd;;
      when (e_metrics env) (emit EAccepted);;
      submit_recv;; skip.

(** [schedule_yield_timer]: see YieldHeap for the choice it makes. *)
Definition schedule_yield_timer (ms : Z) : M bool :=
  emit ETimerRemove;; emit EPauseRecv;; emit (EYieldTimer ms);;
  ok ← ask (e_schedule env);
  when ok (modify (with_yield_armed true));;
  mret ok.

Definition disarm_yield_timer : M unit :=
  c ← get;
  when (yield_armed c)
    (modify (with_yield_armed false);;
     modify (with_yield_timer_gen (u32 (yield_timer_gen c + 1)));;
     emit ETimerRemove;; emit EYieldCancel).

(** [invoke_jit_handler] on the connection's context and request bytes. *)
Definition invoke_jit_handler (fn : option Z) (ctx : HandlerCtx) : M JitDispatchOutcome :=
  match fn with
  | None => mret (decode_result None)
  | Some f =>
      c ← get;
      data ← lift (data_at (recv_buf c) 0 (len (recv_buf c)));
      r ← ask (fun n => e_handler env n f ctx data);
      modify (with_handler_ctx (Some r.2));;
      mret (decode_result (Some r.1))
  end.

End loop.
