(* ===== verification/Metrics.v ===== *)
(** * Per-shard metrics

    Model of include/rut/runtime/metrics.h: the latency histogram, the counters
    of a shard with the recording helpers, and the aggregation over shards.  The
    recording is driven by the operations that connections hand out ([EventLoop]);
    the counters are 64 bits wide. *)

From S2P Require Import Prelude HttpParser RouteTable HandlerAbi Buffer Connection EventLoop.

(** ** Latency histogram *)

Definition kBucketCount : nat := 11.
Definition kBounds : list Z := [100; 500; 1000; 5000; 10000; 50000; 100000; 500000; 1000000; 5000000; 4294967295].

Record LatencyHistogram := mkHist { buckets : list Z; sum_us : Z; count : Z }.

Definition hist_init : LatencyHistogram := mkHist (replicate kBucketCount 0) 0 0.

Definition find_bucket (d : Z) : nat :=
  if d <? 100 then 0
  else if d <? 500 then 1
  else if d <? 1000 then 2
  else if d <? 5000 then 3
  else if d <? 10000 then 4
  else if d <? 50000 then 5
  else if d <? 100000 then 6
  else if d <? 500000 then 7
  else if d <? 1000000 then 8
  else if d <? 5000000 then 9
  else 10.

Definition record (d : Z) (h : LatencyHistogram) : LatencyHistogram :=
  mkHist (alter (fun b => u64 (b + 1)) (find_bucket d) (buckets h)) (u64 (sum_us h + d)) (u64 (count h + 1)).

(** ** Counters *)

Record ShardMetrics := mkMetrics {
  requests_total : Z; requests_active : Z;
  connections_total : Z; connections_active : Z; connections_closed : Z;
  request_latency : LatencyHistogram;
  memory_arena_used : Z; memory_slices_used : Z; memory_slices_free : Z; memory_connections_used : Z
}.

Definition metrics_init : ShardMetrics := mkMetrics 0 0 0 0 0 hist_init 0 0 0 0.

Definition metrics_on_accept (m : ShardMetrics) : ShardMetrics :=
  mkMetrics (requests_total m) (requests_active m) (u64 (connections_total m + 1)) (u64 (connections_active m + 1))
    (connections_closed m) (request_latency m) (memory_arena_used m) (memory_slices_used m) (memory_slices_free m)
    (memory_connections_used m).

Definition metrics_on_close (m : ShardMetrics) : ShardMetrics :=
  mkMetrics (requests_total m) (requests_active m) (connections_total m)
    (if 0 <? connections_active m then connections_active m - 1 else connections_active m)
    (u64 (connections_closed m + 1)) (request_latency m) (memory_arena_used m) (memory_slices_used m)
    (memory_slices_free m) (memory_connections_used m).

Definition set_requests (total active : Z) (h : LatencyHistogram) (m : ShardMetrics) : ShardMetrics :=
  mkMetrics total active (connections_total m) (connections_active m) (connections_closed m) h (memory_arena_used m)
    (memory_slices_used m) (memory_slices_free m) (memory_connections_used m).

Definition metrics_on_request_start (m : ShardMetrics) : ShardMetrics :=
  set_requests (requests_total m) (u64 (requests_active m + 1)) (request_latency m) m.

Definition less_active (m : ShardMetrics) : Z :=
  if 0 <? requests_active m then requests_active m - 1 else requests_active m.

Definition metrics_on_request_complete (d : Z) (m : ShardMetrics) : ShardMetrics :=
  set_requests (u64 (requests_total m + 1)) (less_active m) (record d (request_latency m)) m.

(** The close of a connection with a request in progress. *)
Definition metrics_on_request_aborted (m : ShardMetrics) : ShardMetrics :=
  set_requests (requests_total m) (less_active m) (request_latency m) m.

Definition apply_eff (m : ShardMetrics) (e : Eff) : ShardMetrics :=
  match e with
  | EAccepted => metrics_on_accept m
  | EConnClosed => metrics_on_close m
  | ERequestStart => metrics_on_request_start m
  | ERequestComplete d => metrics_on_request_complete d m
  | ERequestAborted => metrics_on_request_aborted m
  | _ => m
  end.

Definition metrics_of (tr : list Eff) : ShardMetrics := foldl apply_eff metrics_init tr.

(** ** Aggregation *)

Definition add_shard (agg s : ShardMetrics) : ShardMetrics :=
  let add f := u64 (f agg + f s) in
  mkMetrics (add requests_total) (add requests_active) (add connections_total) (add connections_active)
    (add connections_closed)
    (mkHist (zip_with (fun a b => u64 (a + b)) (buckets (request_latency agg)) (buckets (request_latency s)))
       (u64 (sum_us (request_latency agg) + sum_us (request_latency s)))
       (u64 (count (request_latency agg) + count (request_latency s))))
    (add memory_arena_used) (add memory_slices_used) (add memory_slices_free) (add memory_connections_used).

Definition aggregate_metrics (shards : list ShardMetrics) : ShardMetrics := foldl add_shard metrics_init shards.

(** ** What is counted *)

Definition is_accept (e : Eff) : bool := match e with EAccepted => true | _ => false end.
Definition is_close (e : Eff) : bool := match e with EConnClosed => true | _ => false end.
Definition is_start (e : Eff) : bool := match e with ERequestStart => true | _ => false end.
Definition is_complete (e : Eff) : bool := match e with ERequestComplete _ => true | _ => false end.
Definition is_abort (e : Eff) : bool := match e with ERequestAborted => true | _ => false end.
Definition in_bucket (i : nat) (e : Eff) : bool :=
  match e with ERequestComplete d => Nat.eqb (find_bucket d) i | _ => false end.
Definition duration (e : Eff) : Z := match e with ERequestComplete d => d | _ => 0 end.

Definition number (p : Eff -> bool) (tr : list Eff) : Z := Z.of_nat (length (List.filter p tr)).

(** Nothing ends before it began, at any time. *)
Definition paired (tr : list Eff) : Prop :=
  forall tr' tr'', tr = tr' ++ tr'' ->
    number is_close tr' <= number is_accept tr' /\
    number is_complete tr' + number is_abort tr' <= number is_start tr'.

Lemma number_snoc p tr e : number p (tr ++ [e]) = number p tr + (if p e then 1 else 0).
Proof. unfold number. rewrite List.filter_app, length_app. cbn. destruct (p e); cbn; lia. Qed.

Lemma number_nonneg p tr : 0 <= number p tr.
Proof. unfold number. lia. Qed.

Lemma paired_snoc tr e : paired (tr ++ [e]) -> paired tr.
Proof. intros H tr' tr'' ->. apply (H tr' (tr'' ++ [e])). by rewrite <- app_assoc. Qed.

Lemma u64_step x b : u64 (u64 x + b) = u64 (x + b).
Proof. unfold u64, wrap. by rewrite Z.add_mod_idemp_l. Qed.

Lemma length_buckets tr : length (buckets (request_latency (metrics_of tr))) = kBucketCount.
Proof.
  induction tr as [|e tr IH] using rev_ind; [done|]. unfold metrics_of in *. rewrite foldl_app. cbn [foldl].
  set (m := foldl _ _ tr) in *. destruct e; cbn; try exact IH. by rewrite length_alter.
Qed.

Lemma bucket_step tr i d :
  (i < kBucketCount)%nat -> buckets (request_latency (metrics_of tr)) !! i = Some (u64 (number (in_bucket i) tr)) ->
  alter (fun b => u64 (b + 1)) (find_bucket d) (buckets (request_latency (metrics_of tr))) !! i =
    Some (u64 (number (in_bucket i) tr + (if Nat.eqb (find_bucket d) i then 1 else 0))).
Proof.
  intros Hi IH. destruct (Nat.eqb_spec (find_bucket d) i) as [->|Hne].
  - rewrite list_lookup_alter_eq, IH. cbn. by rewrite u64_step.
  - by rewrite list_lookup_alter_ne, Z.add_0_r.
Qed.

Lemma counters_of tr :
  let m := metrics_of tr in let n p := number p tr in
  connections_total m = u64 (n is_accept) /\ connections_closed m = u64 (n is_close) /\
  requests_total m = u64 (n is_complete) /\ count (request_latency m) = u64 (n is_complete) /\
  sum_us (request_latency m) = u64 (foldr Z.add 0 (duration <$> tr)) /\
  forall i, (i < kBucketCount)%nat -> buckets (request_latency m) !! i = Some (u64 (n (in_bucket i))).
Proof.
  assert (forall l x, foldr Z.add 0 (l ++ [x]) = foldr Z.add 0 l + x) as Hsum.
  { intros l x. induction l as [|y l IH]; cbn; [lia|]. rewrite IH. lia. }
  cbv zeta. induction tr as [|e tr IH] using rev_ind.
  { split_and!; try done. intros i Hi. cbn. unfold kBucketCount in Hi. do 11 (destruct i as [|i]; [done|]). lia. }
  destruct IH as (h1 & h2 & h3 & h4 & h5 & h6). rewrite !number_snoc, fmap_app. cbn [fmap list_fmap]. rewrite Hsum.
  setoid_rewrite number_snoc. unfold metrics_of in *. rewrite foldl_app. cbn [foldl]. set (m := foldl _ _ tr) in *.
  destruct e; cbn [apply_eff is_accept is_close is_complete in_bucket duration]; rewrite ?Z.add_0_r;
    try (split_and!; try done; intros i Hi; rewrite Z.add_0_r; by apply h6).
  - cbn. rewrite h3, h4, h5, !u64_step. split_and!; try done. intros i Hi. apply bucket_step; [done|]. by apply h6.
  - cbn. rewrite h2, u64_step. split_and!; try done. intros i Hi. rewrite Z.add_0_r. by apply h6.
  - cbn. rewrite h1, u64_step. split_and!; try done. intros i Hi. rewrite Z.add_0_r. by apply h6.
Qed.

(** The gauges do not saturate when nothing ends before it began. *)
Lemma gauges_of tr :
  paired tr -> number is_accept tr < 2 ^ 64 -> number is_start tr < 2 ^ 64 ->
  connections_active (metrics_of tr) = number is_accept tr - number is_close tr /\
  requests_active (metrics_of tr) = number is_start tr - number is_complete tr - number is_abort tr.
Proof.
  induction tr as [|e tr IH] using rev_ind; [done|]. intros Hp. pose proof (Hp (tr ++ [e]) [] ltac:(by rewrite app_nil_r)) as Hb.
  pose proof (Hp tr [e] eq_refl) as Hb'. rewrite !number_snoc in *. intros Ha Hs.
  pose proof (number_nonneg is_close tr). pose proof (number_nonneg is_complete tr). pose proof (number_nonneg is_abort tr).
  destruct IH as [h1 h2]; [by apply (paired_snoc tr e) | destruct (is_accept e); lia | destruct (is_start e); lia |].
  unfold metrics_of in *. rewrite foldl_app. cbn [foldl]. set (m := foldl _ _ tr) in *.
  destruct e; cbn [apply_eff is_accept is_close is_start is_complete is_abort] in *; rewrite ?Z.add_0_r; try done;
    cbn; unfold less_active; rewrite ?h1, ?h2; repeat case_if; zify_bool; rewrite ?u64_small by lia; lia.
Qed.

(** ** Aggregation *)

Definition total {A} (f : A -> Z) (l : list A) : Z := foldr Z.add 0 (f <$> l).

Lemma total_snoc {A} (f : A -> Z) l x : total f (l ++ [x]) = total f l + f x.
Proof. unfold total. rewrite fmap_app. cbn. induction (f <$> l) as [|y l' IH]; cbn; [lia|]. rewrite IH. lia. Qed.

Lemma aggregate_snoc ms m : aggregate_metrics (ms ++ [m]) = add_shard (aggregate_metrics ms) m.
Proof. unfold aggregate_metrics. by rewrite foldl_app. Qed.

Lemma aggregate_field (f : ShardMetrics -> Z) ms :
  f metrics_init = 0 -> (forall a s, f (add_shard a s) = u64 (f a + f s)) -> f (aggregate_metrics ms) = u64 (total f ms).
Proof.
  intros H0 Ha. induction ms as [|m ms IH] using rev_ind; [cbn; by rewrite H0|].
  by rewrite aggregate_snoc, Ha, total_snoc, IH, u64_step.
Qed.

Lemma aggregate_bucket i ms :
  (i < kBucketCount)%nat -> Forall (fun m => length (buckets (request_latency m)) = kBucketCount) ms ->
  buckets (request_latency (aggregate_metrics ms)) !! i =
    Some (u64 (total (fun m => nth i (buckets (request_latency m)) 0) ms)).
Proof.
  intros Hi. induction ms as [|m ms IH] using rev_ind; intros Hl.
  { cbn. unfold kBucketCount in Hi. do 11 (destruct i as [|i]; [done|]). lia. }
  apply Forall_app in Hl as [Hl Hm]. apply Forall_cons in Hm as [Hm _]. rewrite aggregate_snoc, total_snoc. cbn.
  rewrite lookup_zip_with, IH by done. cbn. destruct (lookup_lt_is_Some_2 (buckets (request_latency m)) i) as [b Hb]; [by rewrite Hm|].
  rewrite Hb. cbn. by rewrite (nth_lookup_Some _ _ _ _ Hb), u64_step.
Qed.

Lemma total_ext {A B} (f : A -> Z) (g : B -> Z) (h : B -> A) l :
  Forall (fun x => f (h x) = g x) l -> total f (h <$> l) = total g l.
Proof. unfold total. induction 1 as [|x l Hx _ IH]; [done|]. cbn. by rewrite Hx, IH. Qed.

Lemma total_bound {A} (f : A -> Z) l x : Forall (fun y => 0 <= f y) l -> x ∈ l -> f x <= total f l.
Proof.
  unfold total. induction 1 as [|y l Hy Hl IH]; intros Hx; [by apply elem_of_nil in Hx|].
  assert (0 <= foldr Z.add 0 (f <$> l)) by (clear -Hl; induction Hl; cbn in *; lia).
  apply elem_of_cons in Hx as [->|Hx]; cbn; [lia|]. specialize (IH Hx). lia.
Qed.

Lemma total_le {A} (f g : A -> Z) l : Forall (fun x => f x <= g x) l -> total f l <= total g l.
Proof. unfold total. induction 1 as [|x l Hx _ IH]; cbn; [done | lia]. Qed.

Lemma total_nonneg {A} (f : A -> Z) l : Forall (fun x => 0 <= f x) l -> 0 <= total f l.
Proof. unfold total. induction 1 as [|x l Hx _ IH]; cbn; [done | lia]. Qed.

Lemma total_sub {A} (f g : A -> Z) l : total (fun x => f x - g x) l = total f l - total g l.
Proof. unfold total. induction l as [|x l IH]; cbn; [done | lia]. Qed.

(** A counter that every shard has right is right in the aggregate. *)
Lemma aggregate_counts (f : ShardMetrics -> Z) (g : list Eff -> Z) trs :
  f metrics_init = 0 -> (forall a s, f (add_shard a s) = u64 (f a + f s)) ->
  Forall (fun tr => f (metrics_of tr) = g tr) trs -> 0 <= total g trs < 2 ^ 64 ->
  f (aggregate_metrics (metrics_of <$> trs)) = total g trs.
Proof.
  intros H0 Hadd Hg Hb. rewrite (aggregate_field f) by done.
  rewrite (total_ext f g metrics_of trs) by done. by apply u64_small.
Qed.

Lemma number_le p q tr : (forall e, p e = true -> q e = true) -> number p tr <= number q tr.
Proof.
  intros H. induction tr as [|e tr IH] using rev_ind; [done|]. rewrite !number_snoc. specialize (H e).
  destruct (p e), (q e); lia.
Qed.

(** One shard, with counters that do not wrap. *)
Lemma shard_exact tr :
  paired tr -> number is_accept tr < 2 ^ 64 -> number is_start tr < 2 ^ 64 ->
  let m := metrics_of tr in let n p := number p tr in
  connections_total m = n is_accept /\ connections_closed m = n is_close /\
  connections_active m = n is_accept - n is_close /\
  requests_total m = n is_complete /\ count (request_latency m) = n is_complete /\
  requests_active m = n is_start - n is_complete - n is_abort /\
  forall i, (i < kBucketCount)%nat -> nth i (buckets (request_latency m)) 0 = n (in_bucket i).
Proof.
  intros Hp Ha Hs. cbv zeta. destruct (gauges_of tr Hp Ha Hs) as [-> ->]. destruct (counters_of tr) as (-> & -> & -> & -> & _ & Hb).
  destruct (Hp tr [] ltac:(by rewrite app_nil_r)). pose proof (fun p => number_nonneg p tr) as Hn.
  pose proof (Hn is_accept). pose proof (Hn is_close). pose proof (Hn is_complete). pose proof (Hn is_abort).
  rewrite !u64_small by lia. split_and!; try done. intros i Hi. rewrite (nth_lookup_Some _ _ _ _ (Hb i Hi)).
  pose proof (Hn (in_bucket i)). pose proof (number_le (in_bucket i) is_complete tr ltac:(by intros [])). apply u64_small. lia.
Qed.

(** Sums over the shards. *)
Lemma total_pairs trs :
  Forall paired trs ->
  total (number is_close) trs <= total (number is_accept) trs /\
  total (number is_complete) trs + total (number is_abort) trs <= total (number is_start) trs.
Proof.
  intros Hp. assert (Forall (fun tr => number is_close tr <= number is_accept tr /\
    number is_complete tr <= number is_start tr - number is_abort tr) trs) as Hpair.
  { eapply Forall_impl; [exact Hp|]. intros tr Htr. destruct (Htr tr []); [by rewrite app_nil_r | lia]. }
  split; [apply total_le; eapply Forall_impl; [exact Hpair|]; cbn; lia|].
  cut (total (number is_complete) trs <= total (number is_start) trs - total (number is_abort) trs); [lia|].
  rewrite <- total_sub. apply total_le. eapply Forall_impl; [exact Hpair|]. cbn. lia.
Qed.

(** ** Properties *)


(** A request lasts at least the bound below its bucket and less than its own. *)
Lemma find_bucket_spec d i :
  0 <= d < 2 ^ 32 ->
  find_bucket d = i <->
  (i < kBucketCount)%nat /\ (if Nat.eqb i 0 then 0 else nth (i - 1) kBounds 0) <= d /\
    (i = 10%nat \/ d < nth i kBounds 0).
Proof.
  intros Hd. unfold find_bucket, kBucketCount. split.
  - intros <-. repeat case_if; zify_bool; cbn; lia.
  - intros (Hi & Hlo & Hhi). do 11 (destruct i as [|i]; [cbn in Hlo, Hhi; repeat case_if; zify_bool; lia|]). lia.
Qed.

(** ** Example *)

Definition trace_ex : list Eff :=
  [EAccepted; EAccepted; ERequestStart; ERequestComplete 250; ERequestStart; EConnClosed; ERequestAborted].

Lemma trace_ex_paired : paired trace_ex.
Proof.
  intros tr' tr'' E. unfold trace_ex in E. do 7 (destruct tr' as [|? tr']; [vm_compute; by split | injection E as <- E]).
  destruct tr' as [|? tr']; [vm_compute; by split | done].
Qed.

