(* ===== verification/Callbacks.v ===== *)
(** * Connection callbacks

    Model of include/rut/runtime/callbacks_impl.h for the epoll loop: every
    callback of a connection, from the first request byte to the end of the
    response, over the loop operations of [EventLoop].  An event is its result;
    the bytes it stands for are already in the buffer the backend read into.
    The two self-recursive callbacks skip one interim response per call and
    carry fuel. *)

From S2P Require Import Prelude HeaderValidation HttpParser ChunkedParser RouteMethod RouteTrie RouteTable.
From S2P Require Import HandlerAbi Buffer Connection Response RequestMeta AccessLog TrafficCapture EventLoop.

Definition kStatusOK : Z := 200.
Definition kStatusBadGateway : Z := 502.
Definition kConnCloseLen : Z := 19.
Definition kHeaderEndLen : Z := 4.

Definition kResponse200 : list Z :=
  bs "HTTP/1.1 200 OK" ++ CRLF ++ bs "Content-Length: 2" ++ CRLF ++ bs "Connection: keep-alive" ++ CRLF ++
  CRLF ++ bs "OK".
Definition kResponse200Close : list Z :=
  bs "HTTP/1.1 200 OK" ++ CRLF ++ bs "Content-Length: 2" ++ CRLF ++ bs "Connection: close" ++ CRLF ++
  CRLF ++ bs "OK".
Definition k502 : list Z :=
  bs "HTTP/1.1 502 Bad Gateway" ++ CRLF ++ bs "Content-Length: 11" ++ CRLF ++ bs "Connection: close" ++
  CRLF ++ CRLF ++ bs "Bad Gateway".

(** [resp.reset()] before a response parse. *)
Definition blank_response : ParsedResponse := mkParsedResponse 0 0 [] 0 false false true false.

Section callbacks.
Context (env : Env) `{Sc : Scanners}.

#[local] Abbreviation submit_recv := (submit_recv env).
#[local] Abbreviation submit_connect := (submit_connect env).
#[local] Abbreviation submit_send_upstream := (submit_send_upstream env).
#[local] Abbreviation submit_recv_upstream := (submit_recv_upstream env).
#[local] Abbreviation close_conn := (close_conn env).
#[local] Abbreviation is_draining := (ask (e_draining env)).
#[local] Abbreviation monotonic_us := (ask (e_now env)).

(** ** Shared steps *)

Definition to_slots (r s ur us : option Callback) : M unit := modify (set_slots r s ur us).

Definition send_all : M unit :=
  let* c := get in
  let* bytes := lift (data_at (send_buf c) 0 (len (send_buf c))) in
  submit_send bytes.

(** Fail the request with a reason-phrase response and close after it. *)
Definition fail_with (code : Z) : M unit :=
  modify (with_state Sending);;
  modify (with_resp_status code);;
  step_conn (format_static_response code false);;
  modify (with_keep_alive false);;
  to_slots None (Some CResponseSent) None None;;
  send_all.

(** The canned 502 of the upstream callbacks. *)
Definition send_502 : M unit :=
  step_conn send_reset;;
  step_conn (send_write k502);;
  modify (with_keep_alive false);;
  modify (with_resp_status kStatusBadGateway);;
  modify (with_state Sending);;
  to_slots None (Some CResponseSent) None None;;
  send_all.

(** A NUL-terminated string copied into a zeroed array of [n] bytes: the copy
    stops after the NUL or at the end of the array. *)
Definition copy_name (n : nat) (src : list Z) : list Z :=
  let s := take n (c_string src) in s ++ replicate (n - length s) 0.

Definition log_entry (c : Connection) (now duration status resp_size : Z) : AccessLogEntry :=
  mkEntry now duration (req_size c) resp_size (upstream_us c) (peer_addr c) status (req_method c) (shard_id c)
    (copy_name kPathSize (req_path c)) (copy_name kUpstreamSize (upstream_name c)).

Definition capture_entry (c : Connection) (now status resp_size : Z) (cap : list Z) : CaptureEntry :=
  let n := Z.to_nat (capture_header_len c) in
  mkCapture now (req_content_length c) resp_size status (capture_header_len c) (log_method_code (req_method c))
    (shard_id c) (if capture_header_len c =? Z.of_nat kMaxCaptureHeader then kCaptureFlagTruncated else 0) 0
    (copy_name kMaxUpstreamNameLen (upstream_name c) ++ replicate (kCaptureNameSize - kMaxUpstreamNameLen) 0)
    (replicate 8 0) (take n cap ++ replicate (kMaxCaptureHeader - n) 0).

Definition on_request_complete (status resp_size : Z) : M unit :=
  let* c := get in
  let* now := monotonic_us in
  let duration := u32 (now - req_start_us c) in
  modify (with_req_start_us 0);;
  when (e_metrics env) (emit (ERequestComplete duration));;
  when (e_access_log env)
    (let* t := ask (e_realtime env) in emit (ELog (log_entry c t duration status resp_size)));;
  match capture_buf c with
  | Some cap =>
      when (e_capture env && (0 <? capture_header_len c))
        (let* t := ask (e_realtime env) in emit (ECapture (capture_entry c t status resp_size cap)))
  | None => skip
  end.

(** The end of an exchange with the upstream. *)
Definition drop_upstream : M unit :=
  close_upstream;;
  emit EClearUpstreamFd;;
  modify (with_upstream_recv_armed false);;
  modify (with_upstream_send_armed false).

Definition copy_upstream_name (name : list Z) (c : Connection) : Connection :=
  let n := Nat.min kMaxUpstreamNameLen (length name) in
  let a := store_at (upstream_name c) 0 (take n name) in
  let nul := if Nat.ltb (length name) kMaxUpstreamNameLen then length name else (kMaxUpstreamNameLen - 1)%nat in
  with_upstream_name (store_at a nul [0]) c.

(** ** Compiled handlers *)

Definition upstream_target_matches (c : Connection) (payload : Z) : bool :=
  if upstream_fd c <? 0 then false
  else if payload =? 0 then true
  else upstream_idx c =? u16 (payload - 1).

(** [send_bad_gateway] and [send_internal_error]. *)
Definition fail_handler (code : Z) : M unit :=
  modify (with_pending_handler_fn None);;
  fail_with code.

(** The upstream operation an event wait starts: [false] when it failed the request. *)
Definition event_yield_upstream (o : JitDispatchOutcome) : M bool :=
  let* c := get in
  match o_yield_kind o with
  | YUpstreamConnect =>
      if timer_ms o =? 0 then mret true
      else
        let upstream_id := u32 (timer_ms o - 1) in
        match request_config c ≫= (fun cfg => upstreams cfg !! Z.to_nat upstream_id) with
        | None => fail_handler kStatusBadGateway;; mret false
        | Some target =>
            let* sock := ask (e_socket env) in
            if sock <? 0 then fail_handler kStatusBadGateway;; mret false
            else
              when (0 <=? upstream_fd c) (close_upstream;; modify (with_upstream_idx 0);; emit EClearUpstreamFd;;
                modify (with_upstream_recv_armed false);; modify (with_upstream_send_armed false));;
              modify (with_upstream_fd sock);;
              modify (with_upstream_idx (u16 upstream_id));;
              let* now := monotonic_us in
              modify (with_upstream_start_us now);;
              let* ok := submit_connect target in
              if ok then mret true
              else
                emit (ECloseUpstream sock);;
                modify (with_upstream_fd (-1));;
                modify (with_upstream_idx 0);;
                emit EClearUpstreamFd;;
                fail_handler kStatusBadGateway;; mret false
        end
  | YUpstreamSend =>
      if upstream_target_matches c (timer_ms o) then
        let* bytes := lift (data_at (recv_buf c) 0 (len (recv_buf c))) in
        let* ok := submit_send_upstream bytes in
        if ok then mret true else fail_handler kStatusBadGateway;; mret false
      else fail_handler kStatusBadGateway;; mret false
  | YUpstreamRecv =>
      if upstream_target_matches c (timer_ms o) then
        let* ok := submit_recv_upstream in
        if ok then mret true else fail_handler kStatusBadGateway;; mret false
      else fail_handler kStatusBadGateway;; mret false
  | _ => mret true
  end.

Definition handle_return_status (o : JitDispatchOutcome) (keep : bool) : M unit :=
  modify (with_pending_handler_fn None);;
  modify (with_state Sending);;
  modify (with_resp_status (o_status_code o));;
  let* c := get in
  let body := request_config c ≫= (fun cfg => body_at cfg (response_body_idx o)) in
  let headers := request_config c ≫= (fun cfg => header_set_at cfg (response_headers_idx o)) in
  let body_idx_invalid :=
    negb (response_body_idx o =? 0) && match body with None => true | Some _ => false end in
  match headers with
  | Some kvs =>
      let '(bytes, fallback) :=
        match body with
        | Some b => (b, false)
        | None => if body_idx_invalid then (status_reason (o_status_code o), true) else ([], false)
        end in
      step_conn (format_response_with_body_and_headers (o_status_code o) bytes kvs keep fallback)
  | None =>
      match body with
      | Some b => step_conn (format_response_with_body (o_status_code o) b keep)
      | None => step_conn (format_static_response (o_status_code o) keep)
      end
  end;;
  to_slots None (Some CResponseSent) None None;;
  send_all.

Definition handle_timer_yield (o : JitDispatchOutcome) (fn : option Z) : M unit :=
  modify (with_pending_handler_fn fn);;
  modify (with_handler_state (o_next_state o));;
  modify (with_pending_yield_kind YTimer);;
  modify (with_state ExecHandler);;
  to_slots None None None None;;
  let* ok := schedule_yield_timer env (timer_ms o) in
  if ok then skip
  else
    modify (with_pending_handler_fn None);;
    modify (with_state Sending);;
    modify (with_resp_status 500);;
    step_conn (format_static_response 500 false);;
    modify (with_keep_alive false);;
    to_slots None (Some CResponseSent) None None;;
    emit ETimerAdd;;
    send_all.

Definition handle_event_yield (o : JitDispatchOutcome) (fn : option Z) : M unit :=
  modify (with_pending_handler_fn fn);;
  modify (with_handler_state (o_next_state o));;
  modify (with_pending_yield_kind (o_yield_kind o));;
  modify (with_state ExecHandler);;
  to_slots None None None None;;
  match o_yield_kind o with
  | YSend => fail_handler 500
  | _ =>
      let* go := event_yield_upstream o in
      if negb go then skip
      else
        let waits_recv := match o_yield_kind o with YAny | YRecv => true | _ => false end in
        let is_any := match o_yield_kind o with YAny => true | _ => false end in
        when (negb waits_recv) (emit EPauseRecv);;
        let* sched := (if is_any && negb (timer_ms o =? 0) then schedule_yield_timer env (timer_ms o)
                 else mret true) in
        if negb sched then fail_handler 500;; emit ETimerRefresh
        else
          let* c := get in
          if waits_recv && (0 <=? fd c) && negb (recv_armed c) then
            let* ok := submit_recv in
            if ok then skip
            else
              when (yield_armed c) (disarm_yield_timer;; emit ETimerRefresh);;
              fail_handler 500
          else skip
  end.

Definition handle_forward (o : JitDispatchOutcome) : M unit :=
  modify (with_pending_handler_fn None);;
  let* c := get in
  match request_config c ≫= (fun cfg => upstreams cfg !! Z.to_nat (o_upstream_id o)) with
  | None => fail_with kStatusBadGateway
  | Some target =>
      modify (with_state Proxying);;
      modify (copy_upstream_name (u_name target));;
      when (0 <=? upstream_fd c) (close_upstream;; modify (with_upstream_idx 0);; emit EClearUpstreamFd;;
        modify (with_upstream_recv_armed false);; modify (with_upstream_send_armed false));;
      let* sock := ask (e_socket env) in
      if sock <? 0 then fail_with kStatusBadGateway
      else
        modify (with_upstream_fd sock);;
        let* now := monotonic_us in
        modify (with_upstream_start_us now);;
        to_slots None None None (Some CUpstreamConnected);;
        submit_connect target;; skip
  end.

Definition handle_jit_outcome (o : JitDispatchOutcome) (fn : option Z) (keep : bool) : M unit :=
  match kind o with
  | KReturnStatus => handle_return_status o keep
  | KTimerYield => handle_timer_yield o fn
  | KEventYield => handle_event_yield o fn
  | KForward => handle_forward o
  | KError => modify (with_pending_handler_fn None);; fail_with 500
  end.

(** Enter a handler at its first state. *)
Definition start_handler (fn : Z) (params : list RouteParam) (keep : bool) : M unit :=
  modify (with_state ExecHandler);;
  modify (with_handler_state 0);;
  let ctx := mkCtx 0 YTimer 0 params (replicate kMaxJitHandlerSlots 0) in
  modify (with_handler_ctx (Some ctx));;
  let* o := invoke_jit_handler env (Some fn) ctx in
  handle_jit_outcome o (Some fn) keep.

Definition resume_jit_handler : M unit :=
  emit ETimerRefresh;;
  let* c := get in
  let fn := pending_handler_fn c in
  let x := jit_ctx c in
  let ctx := mkCtx (handler_state c) (resume_event_kind c) (resume_event_result c)
               (ctx_route_params x) (ctx_slots x) in
  modify (with_handler_ctx (Some ctx));;
  let* o := invoke_jit_handler env fn ctx in
  handle_jit_outcome o fn (keep_alive c).

(** ** Requests *)

Definition match_route (c : Connection) : M (option RouteEntry * list RouteParam) :=
  match request_config c with
  | None => mret (None, [])
  | Some cfg =>
      match match_canonical_cfg cfg (canon_bytes c) (log_route_method_key (req_method c)) kMaxRouteParams with
      | None => lift Fault
      | Some r => mret r
      end
  end.

(** The proxy branch: socket, connect, or a 502. *)
Definition start_proxy (r : RouteEntry) (target : UpstreamTarget) : M unit :=
  modify (with_state Proxying);;
  modify (copy_upstream_name (u_name target));;
  let* sock := ask (e_socket env) in
  if sock <? 0 then fail_with kStatusBadGateway
  else
    modify (with_upstream_fd sock);;
    modify (with_upstream_idx (re_upstream_id r));;
    let* now := monotonic_us in
    modify (with_upstream_start_us now);;
    to_slots None None None (Some CUpstreamConnected);;
    let* ok := submit_connect target in
    if ok then skip
    else
      emit (ECloseUpstream sock);;
      modify (with_upstream_fd (-1));;
      modify (with_upstream_idx 0);;
      emit EClearUpstreamFd;;
      fail_with kStatusBadGateway.

Definition respond_default (keep : bool) : M unit :=
  modify (with_state Sending);;
  modify (with_resp_status kStatusOK);;
  step_conn send_reset;;
  step_conn (send_write (if keep then kResponse200 else kResponse200Close));;
  to_slots None (Some CResponseSent) None None;;
  send_all.

Definition respond_static (code : Z) (keep : bool) : M unit :=
  modify (with_state Sending);;
  modify (with_resp_status code);;
  step_conn (format_static_response code keep);;
  to_slots None (Some CResponseSent) None None;;
  send_all.

(** Dispatch of a captured request to its route. *)
Definition dispatch_request (keep : bool) : M unit :=
  let* c := get in
  let* m := match_route c in
  match m.1 with
  | None => respond_default keep
  | Some r =>
      match re_action r with
      | Proxy =>
          match request_config c ≫= (fun cfg => upstreams cfg !! Z.to_nat (re_upstream_id r)) with
          | None => lift Fault
          | Some target => start_proxy r target
          end
      | Static => respond_static (re_status_code r) keep
      | JitHandler =>
          if re_fn r =? 0 then respond_default keep
          else if re_needs_req_body r && bool_decide (req_body_mode c = BChunked) then fail_with 400
          else if re_needs_req_body r && bool_decide (req_body_mode c = BContentLength) &&
                  (0 <? req_body_remaining c) then
            modify (with_state ReadingBody);;
            to_slots (Some CJitRequestBodyRecvd) None None None;;
            submit_recv;; skip
          else start_handler (re_fn r) m.2 keep
      end
  end.

(** A pipelined request that is not complete yet waits for more bytes. *)
Definition incomplete_pipelined (c : Connection) : M bool :=
  if 0 <? pipeline_depth c then
    let* data := lift (data_at (recv_buf c) 0 (len (recv_buf c))) in
    match parse (S := Sc) data blank_request with
    | None => lift Fault
    | Some out => mret match po_status out with HttpParser.Incomplete => true | _ => false end
    end
  else mret false.

Definition on_header_received (result : Z) : M unit :=
  if result <=? 0 then close_conn
  else
    let* c := get in
    let* wait := incomplete_pipelined c in
    if wait then
      modify (with_state ReadingHeader);;
      to_slots (Some CHeaderReceived) None None None;;
      submit_recv;; skip
    else
      step_conn (capture_request_metadata (Sc := Sc));;
      let* c := get in
      modify (with_handler_gen (u32 (handler_gen c + 1)));;
      let* now := monotonic_us in
      modify (with_req_start_us now);;
      when (e_capture env) (step_conn capture_stage_headers);;
      emit EEpochEnter;;
      when (e_metrics env) (emit ERequestStart);;
      let* draining := is_draining in
      let keep := negb draining in
      modify (with_keep_alive keep);;
      let* config := ask (e_config env) in
      modify (with_request_config config);;
      dispatch_request keep.

Definition pipeline_dispatch : M unit :=
  modify (with_state ReadingHeader);;
  emit ETimerRefresh;;
  let* c := get in
  on_header_received (len (recv_buf c)).

(** Wait for the next request on an idle connection. *)
Definition await_request : M unit :=
  modify (with_pipeline_depth 0);;
  step_conn recv_reset;;
  modify (with_state ReadingHeader);;
  to_slots (Some CHeaderReceived) None None None;;
  submit_recv;; skip.

Definition on_jit_request_body_recvd (result : Z) : M unit :=
  if result <=? 0 then close_conn
  else
    let* c := get in
    if negb (bool_decide (req_body_mode c = BContentLength)) || (req_body_remaining c =? 0) then close_conn
    else
      let consume := Z.min result (req_body_remaining c) in
      modify (with_req_body_remaining (u32 (req_body_remaining c - consume)));;
      modify (with_req_size (u32 (req_size c + consume)));;
      let* c := get in
      modify (with_req_initial_send_len
        (u32 (req_header_end c + u32 (req_content_length c - req_body_remaining c))));;
      if 0 <? req_body_remaining c then
        modify (with_state ReadingBody);;
        to_slots (Some CJitRequestBodyRecvd) None None None;;
        submit_recv;; skip
      else
        let* m := match_route c in
        match m.1 with
        | Some r =>
            if match re_action r with JitHandler => true | _ => false end && negb (re_fn r =? 0)
            then start_handler (re_fn r) m.2 (keep_alive c)
            else close_conn
        | None => close_conn
        end.

Definition on_response_sent (result : Z) : M unit :=
  to_slots None None None None;;
  let* c := get in
  if result <? 0 then close_conn
  else if negb (u32 result =? len (send_buf c)) then close_conn
  else
    on_request_complete (resp_status c) (len (send_buf c));;
    emit EEpochLeave;;
    close_upstream;;
    modify (with_upstream_idx 0);;
    emit EClearUpstreamFd;;
    modify (with_upstream_recv_armed false);;
    modify (with_upstream_send_armed false);;
    let* c := get in
    if negb (keep_alive c) then close_conn
    else
      let* more := step_conn_val pipeline_shift in
      if more then pipeline_dispatch else await_request.

(** ** Responses of the upstream *)

(** The tail of a proxied exchange: what the client sent meanwhile is the next
    request.  [kStashLen] bytes wait in the send buffer, the late ones in the
    receive buffer. *)
Definition next_after_proxy : M unit :=
  let* c := get in
  if (0 <? pipeline_stash_len c) && (0 <? len (recv_buf c)) then
    let stash_len := pipeline_stash_len c in
    let late_len := len (recv_buf c) in
    if cap (recv_buf c) <? u32 (stash_len + late_len) then
      modify (with_pipeline_stash_len 0);;
      step_conn send_reset;;
      close_conn
    else
      modify (with_pipeline_stash_len 0);;
      step_conn upstream_recv_reset;;
      let* late := lift (data_at (recv_buf c) 0 late_len) in
      step_conn (fun c => r ← write (upstream_recv_buf c) late; Ret (with_upstream_recv_buf r.2 c));;
      step_conn recv_reset;;
      let* stash := lift (data_at (send_buf c) 0 stash_len) in
      step_conn (fun c => r ← write (recv_buf c) stash; Ret (with_recv_buf r.2 c));;
      let* c := get in
      let* late2 := lift (data_at (upstream_recv_buf c) 0 late_len) in
      step_conn (fun c => r ← write (recv_buf c) late2; Ret (with_recv_buf r.2 c));;
      step_conn upstream_recv_reset;;
      step_conn send_reset;;
      modify (fun c => with_pipeline_depth (u16 (pipeline_depth c + 1)) c);;
      pipeline_dispatch
  else
    let* more := step_conn_val pipeline_recover in
    if more then pipeline_dispatch
    else
      let* c := get in
      if 0 <? len (recv_buf c) then
        modify (with_pipeline_depth (u16 (pipeline_depth c + 1)));;
        pipeline_dispatch
      else await_request.

Definition on_proxy_response_sent (result : Z) : M unit :=
  to_slots None None None None;;
  let* c := get in
  if result <? 0 then close_conn
  else
    on_request_complete (resp_status c) (resp_body_sent c);;
    emit EEpochLeave;;
    let* draining := is_draining in
    if draining then close_conn
    else
      step_conn upstream_recv_reset;;
      drop_upstream;;
      next_after_proxy.

(** The drain loop over a chunked response body: the bytes consumed and whether
    the body ended; [None] is a malformed body. *)
Definition drain_response (data : list Z) (c : Connection) : res (option (nat * bool) * Connection) :=
  match drain (resp_chunk_parser c) data with
  | None => Fault
  | Some r =>
      let c := with_resp_chunk_parser (dr_parser r) c in
      Ret (match dr_end r with
           | DrainError => None
           | DrainDone => Some (dr_consumed r, true)
           | DrainMore => Some (dr_consumed r, false)
           end, c)
  end.

Definition on_response_body_recvd (result : Z) : M unit :=
  let* c := get in
  if result <=? 0 then
    if bool_decide (resp_body_mode c = BUntilClose) then
      on_request_complete (resp_status c) (resp_body_sent c);;
      emit EEpochLeave;;
      close_conn
    else close_conn
  else
    let data_len := len (upstream_recv_buf c) in
    let* send_len :=
      match resp_body_mode c with
      | BContentLength =>
          let consume := Z.min data_len (resp_body_remaining c) in
          modify (with_resp_body_remaining (u32 (resp_body_remaining c - consume)));;
          mret (Some consume)
      | BChunked =>
          let* data := lift (data_at (upstream_recv_buf c) 0 data_len) in
          let* r := step_conn_val (drain_response data) in
          mret match r with None => None | Some (n, _) => Some (Z.of_nat n) end
      | _ => mret (Some data_len)
      end in
    match send_len with
    | None => close_conn
    | Some n =>
        modify (fun c => with_resp_body_sent (u32 (resp_body_sent c + n)) c);;
        modify (with_upstream_send_len n);;
        to_slots None (Some CResponseBodySent) None None;;
        modify (with_state Sending);;
        let* bytes := lift (data_at (upstream_recv_buf c) 0 n) in
        submit_send bytes
    end.

(** Continue with the upstream bytes that were not part of the last send. *)
Definition continue_body (remaining : Z) : M unit :=
  to_slots None None (Some CResponseBodyRecvd) None;;
  if 0 <? remaining then on_response_body_recvd remaining
  else submit_recv_upstream;; skip.

Definition on_response_header_sent (result : Z) : M unit :=
  if result <=? 0 then close_conn
  else
    to_slots None None (Some CResponseBodyRecvd) None;;
    let* remaining := step_conn_val consume_upstream_sent in
    if 0 <? remaining then on_response_body_recvd remaining
    else submit_recv_upstream;; skip.

Definition response_body_done (c : Connection) : bool :=
  match resp_body_mode c with
  | BContentLength => resp_body_remaining c =? 0
  | BChunked => match ChunkedParser.state (resp_chunk_parser c) with ChunkedParser.Complete => true | _ => false end
  | _ => false
  end.

Definition on_response_body_sent (result : Z) : M unit :=
  if result <=? 0 then close_conn
  else
    to_slots None None None None;;
    let* remaining := step_conn_val consume_upstream_sent in
    let* c := get in
    if response_body_done c then
      step_conn upstream_recv_reset;;
      on_request_complete (resp_status c) (resp_body_sent c);;
      emit EEpochLeave;;
      drop_upstream;;
      let* draining := (if negb (keep_alive c) then mret true else is_draining) in
      if draining then close_conn
      else next_after_proxy
    else continue_body remaining.

(** Skip an interim response that is followed by more bytes. *)
Definition drop_interim (n : Z) (c : Connection) : res Connection :=
  let total := len (upstream_recv_buf c) in
  src ← data_at (upstream_recv_buf c) n (u32 (total - n));
  b ← refill (upstream_recv_buf c) src;
  Ret (with_upstream_recv_buf b c).

Definition is_interim (resp : ParsedResponse) : bool :=
  (100 <=? r_status_code resp) && (r_status_code resp <? 200) && negb (r_status_code resp =? 101).

Definition parse_upstream (c : Connection) : M (parse_out ParsedResponse) :=
  let* data := lift (data_at (upstream_recv_buf c) 0 (len (upstream_recv_buf c))) in
  match parse_response (S := Sc) data blank_response with
  | None => lift Fault
  | Some out => mret out
  end.

(** *** Rewriting the Connection header of a drained response *)

(** [ascii_ci_eq(d + j + 2, "connection", 10)] and its surroundings. *)
Definition conn_header_at (d : list Z) (j : nat) : bool :=
  (rd d j =? CR) && (rd d (j + 1) =? LF) && eq_ci_loop (sub d (j + 2) 10) (bs "connection") &&
  (rd d (j + 12) =? ch ":").

Fixpoint find_conn_header (fuel : nat) (d : list Z) (j hdr_end : nat) : option nat :=
  match fuel with
  | O => None
  | S fuel' =>
      if Nat.leb (j + 14) hdr_end then
        if conn_header_at d j then Some j else find_conn_header fuel' d (S j) hdr_end
      else None
  end.

Fixpoint skip_spaces (fuel : nat) (d : list Z) (i hdr_end : nat) : nat :=
  match fuel with
  | O => i
  | S fuel' => if Nat.ltb i hdr_end && (rd d i =? SP) then skip_spaces fuel' d (S i) hdr_end else i
  end.

Fixpoint value_end (fuel : nat) (d : list Z) (i hdr_end : nat) : nat :=
  match fuel with
  | O => i
  | S fuel' =>
      if Nat.ltb (i + 1) hdr_end && (negb (rd d i =? CR) || negb (rd d (i + 1) =? LF))
      then value_end fuel' d (S i) hdr_end else i
  end.

(** The rewritten bytes, when there is such a header with room for [close]. *)
Definition rewrite_connection (d : list Z) (hdr_end : nat) : option (list Z) :=
  match find_conn_header (S hdr_end) d 0 hdr_end with
  | None => None
  | Some j =>
      let val_start := skip_spaces hdr_end d (j + 13) hdr_end in
      let val_end := value_end hdr_end d val_start hdr_end in
      let val_len := (val_end - val_start)%nat in
      if Nat.leb 5 val_len
      then Some (store_at d val_start (bs "close" ++ replicate (val_len - 5) SP))
      else None
  end.

(** *** The body mode of a response *)

Definition set_resp_mode (resp : ParsedResponse) (c : Connection) : Connection :=
  let head := bool_decide (req_method c = LHead) in
  let no_body := (r_status_code resp =? 204) || (r_status_code resp =? 205) || (r_status_code resp =? 304) in
  if head || no_body then with_resp_body_remaining 0 (with_resp_body_mode BNone c)
  else if r_chunked resp then
    with_resp_body_remaining 0 (with_resp_chunk_parser ChunkedParser.reset (with_resp_body_mode BChunked c))
  else if r_has_content_length resp then
    with_resp_body_remaining (r_content_length resp) (with_resp_body_mode BContentLength c)
  else with_resp_body_remaining 0 (with_resp_body_mode BUntilClose c).

(** The response gets its [Connection: close] while draining; [true] when the
    response was rebuilt in the send buffer and handed out from there. *)
Definition drain_rewrite (resp : ParsedResponse) (header_end : Z) (chunked_done : bool) : M bool :=
  let* c := get in
  let klen := len (upstream_recv_buf c) in
  let hdr_end := if kHeaderEndLen <=? header_end then header_end - kHeaderEndLen else 0 in
  let* d := lift (data_at (upstream_recv_buf c) 0 klen) in
  if negb (0 <? hdr_end) then mret false
  else match rewrite_connection d (Z.to_nat hdr_end) with
  | Some d' =>
      step_conn (fun c =>
        match ptr (upstream_recv_buf c) with
        | None => Fault
        | Some s => s' ← store s 0 d'; Ret (with_upstream_recv_buf (set_storage (upstream_recv_buf c) s') c)
        end);;
      mret false
  | None =>
      let body_start := hdr_end + kHeaderEndLen in
      let raw := if body_start <? klen then u32 (klen - body_start) else 0 in
      let body_len :=
        match resp_body_mode c with
        | BNone => 0
        | BContentLength => if r_content_length resp <? raw then r_content_length resp else raw
        | _ => raw
        end in
      if u32 (hdr_end + kConnCloseLen + kHeaderEndLen + body_len) <=? cap (send_buf c) then
        step_conn send_reset;;
        step_conn (send_write (take (Z.to_nat (hdr_end + 2)) d));;
        step_conn (send_write (bs "Connection: close" ++ CRLF));;
        step_conn (send_write (sub d (Z.to_nat (hdr_end + 2)) (Z.to_nat (2 + body_len))));;
        modify (with_keep_alive false);;
        let* c := get in
        modify (with_resp_body_sent (len (send_buf c)));;
        let body_done :=
          match resp_body_mode c with
          | BNone => true
          | BContentLength => resp_body_remaining c =? 0
          | BChunked => chunked_done
          | BUntilClose => false
          end in
        to_slots None (Some (if body_done then CResponseSent else CResponseHeaderSent)) None None;;
        modify (with_state Sending);;
        modify (with_upstream_send_len (len (upstream_recv_buf c)));;
        send_all;;
        mret true
      else mret false
  end.

(** Forward the head and the part of the body that came with it. *)
Definition forward_response (resp : ParsedResponse) (header_len : Z) (chunk : option (nat * bool)) : M unit :=
  let* c := get in
  let total := len (upstream_recv_buf c) in
  let initial_body := if header_len <? total then u32 (total - header_len) else 0 in
  let body_complete :=
    match resp_body_mode c with
    | BNone => true
    | BContentLength => resp_body_remaining c =? 0
    | BChunked => match chunk with Some (_, d) => d | None => false end
    | BUntilClose => false
    end in
  let actual_body :=
    match resp_body_mode c with
    | BNone => 0
    | BContentLength => if r_content_length resp <? initial_body then r_content_length resp else initial_body
    | BChunked => match chunk with Some (n, _) => Z.of_nat n | None => initial_body end
    | BUntilClose => initial_body
    end in
  let initial_send_len := u32 (header_len + actual_body) in
  modify (with_resp_body_sent initial_send_len);;
  modify (with_upstream_send_len initial_send_len);;
  modify (with_state Sending);;
  to_slots None (Some (if body_complete then CProxyResponseSent else CResponseHeaderSent)) None None;;
  let* bytes := lift (data_at (upstream_recv_buf c) 0 initial_send_len) in
  submit_send bytes.

Definition response_complete (resp : ParsedResponse) (header_len : Z) : M unit :=
  modify (set_resp_mode resp);;
  let* c := get in
  let total := len (upstream_recv_buf c) in
  let initial_body := if header_len <? total then u32 (total - header_len) else 0 in
  when (bool_decide (resp_body_mode c = BContentLength) && (0 <? initial_body))
    (modify (with_resp_body_remaining
       (u32 (resp_body_remaining c - Z.min initial_body (resp_body_remaining c)))));;
  let* chunk :=
    (if bool_decide (resp_body_mode c = BChunked) && (0 <? initial_body) then
       let* data := lift (data_at (upstream_recv_buf c) header_len initial_body) in
       let* r := step_conn_val (drain_response data) in
       mret (match r with None => None | Some x => Some (Some x) end)
     else mret (Some None)) in
  match chunk with
  | None => close_upstream;; send_502
  | Some chunk =>
      let* draining := is_draining in
      let* done := (if draining then
                      drain_rewrite resp header_len (match chunk with Some (_, d) => d | None => false end)
                    else mret false) in
      if done then skip else forward_response resp header_len chunk
  end.

Fixpoint upstream_response_loop (fuel : nat) (result : Z) : M unit :=
  match fuel with
  | O => lift Fault
  | S fuel' =>
      let* c := get in
      when (negb (upstream_start_us c =? 0))
        (let* now := monotonic_us in
         modify (with_upstream_us (u32 (now - upstream_start_us c)));;
         modify (with_upstream_start_us 0));;
      if (result <=? 0) && (len (upstream_recv_buf c) =? 0) then close_conn
      else
        let* out := parse_upstream c in
        match po_status out with
        | HttpParser.Incomplete =>
            if result <=? 0 then close_upstream;; send_502
            else submit_recv_upstream;; skip
        | HttpParser.Error => close_upstream;; send_502
        | HttpParser.Complete =>
            let resp := po_req out in
            let header_len := Z.of_nat (po_header_end out) in
            modify (with_resp_status (r_status_code resp));;
            if is_interim resp then
              if header_len <? len (upstream_recv_buf c) then
                step_conn (drop_interim header_len);;
                upstream_response_loop fuel' result
              else
                step_conn upstream_recv_reset;;
                submit_recv_upstream;; skip
            else response_complete resp header_len
        end
  end.

(** Every interim response is at least 12 bytes long. *)
Definition on_upstream_response (result : Z) : M unit :=
  let* c := get in
  upstream_response_loop (S (Z.to_nat (len (upstream_recv_buf c)))) result.

(** ** Request bodies and early responses *)

Fixpoint early_recv_loop (fuel : nat) (result : Z) (send_in_flight : bool) : M unit :=
  match fuel with
  | O => lift Fault
  | S fuel' =>
      let* c := get in
      let settle := modify (with_on_upstream_send (Some CBodySendWithEarlyResponse));;
                    modify (with_on_upstream_recv None) in
      if (result <=? 0) && (len (upstream_recv_buf c) =? 0) then close_conn
      else if result <=? 0 then settle
      else
        let* out := parse_upstream c in
        let can_rearm := negb (upstream_recv_armed c) && negb send_in_flight in
        match po_status out with
        | HttpParser.Incomplete => when can_rearm (submit_recv_upstream;; skip)
        | HttpParser.Complete =>
            if is_interim (po_req out) then
              let interim_end := Z.of_nat (po_header_end out) in
              if interim_end <? len (upstream_recv_buf c) then
                step_conn (drop_interim interim_end);;
                early_recv_loop fuel' result send_in_flight
              else
                step_conn upstream_recv_reset;;
                when can_rearm (submit_recv_upstream;; skip)
            else settle
        | HttpParser.Error => settle
        end
  end.

Definition handle_early_upstream_recv (result : Z) (send_in_flight : bool) : M unit :=
  let* c := get in
  early_recv_loop (S (Z.to_nat (len (upstream_recv_buf c)))) result send_in_flight.

(** [prepare_early_response_state] with its clock reading. *)
Definition prepare_early : M unit :=
  let* now := monotonic_us in
  step_conn (prepare_early_response_state now).

Definition on_body_send_with_early_response (result : Z) : M unit :=
  prepare_early;;
  to_slots None None (Some CUpstreamResponse) None;;
  let* c := get in
  let* out := parse_upstream c in
  on_upstream_response
    (match po_status out with HttpParser.Incomplete => 0 | _ => len (upstream_recv_buf c) end).

Definition on_early_upstream_recvd (result : Z) : M unit :=
  handle_early_upstream_recv result false;;
  let* c := get in
  if bool_decide (on_upstream_send c = Some CBodySendWithEarlyResponse)
  then on_body_send_with_early_response result else skip.

Definition on_early_upstream_recvd_send_inflight (result : Z) : M unit :=
  handle_early_upstream_recv result true.

(** The upstream send failed: whatever response is there or can still be read
    is used. *)
Definition early_response_or_close : M unit :=
  let* c := get in
  if 0 <? len (upstream_recv_buf c) then
    prepare_early;;
    to_slots None None (Some CUpstreamResponse) None;;
    on_upstream_response (len (upstream_recv_buf c))
  else if upstream_recv_armed c then
    prepare_early;;
    to_slots None None (Some CUpstreamResponse) None;;
    submit_recv_upstream;; skip
  else
    let* avail := (if 0 <=? upstream_fd c then lift (write_avail (upstream_recv_buf c)) else mret 0) in
    if 0 <? avail then
      let* bytes := ask (e_recv env) in
      let got := take (Z.to_nat avail) bytes in
      if Nat.ltb 0 (length got) then
        step_conn (fun c =>
          b ← fill (upstream_recv_buf c) got;
          b ← commit b (Z.of_nat (length got));
          Ret (with_upstream_recv_buf b c));;
        prepare_early;;
        to_slots None None (Some CUpstreamResponse) None;;
        on_upstream_response (Z.of_nat (length got))
      else close_conn
    else close_conn.

(** The request is out: wait for its response, or use the one already there. *)
Definition await_response : M unit :=
  step_conn pipeline_stash;;
  step_conn recv_reset;;
  let* now := monotonic_us in
  modify (with_upstream_start_us now);;
  to_slots None None (Some CUpstreamResponse) None;;
  let* c := get in
  if 0 <? len (upstream_recv_buf c) then on_upstream_response (len (upstream_recv_buf c))
  else submit_recv_upstream;; skip.

Definition read_more_body : M unit :=
  step_conn recv_reset;;
  to_slots (Some CRequestBodyRecvd) None (Some CEarlyUpstreamRecvd) None;;
  submit_recv;;
  submit_recv_upstream;; skip.

Definition on_upstream_request_sent (result : Z) : M unit :=
  if result <? 0 then early_response_or_close
  else
    let* c := get in
    if request_body_left c then read_more_body else await_response.

Definition request_body_done (c : Connection) : bool :=
  match req_body_mode c with
  | BContentLength => req_body_remaining c =? 0
  | BChunked => match ChunkedParser.state (req_chunk_parser c) with ChunkedParser.Complete => true | _ => false end
  | _ => false
  end.

Definition on_request_body_sent (result : Z) : M unit :=
  if result <=? 0 then early_response_or_close
  else
    let* c := get in
    if request_body_done c then await_response else read_more_body.

Definition on_request_body_recvd (result : Z) : M unit :=
  if result <=? 0 then close_conn
  else
    let* c := get in
    let data_len := len (recv_buf c) in
    let* send_len :=
      match req_body_mode c with
      | BContentLength =>
          let consume := Z.min data_len (req_body_remaining c) in
          modify (with_req_body_remaining (u32 (req_body_remaining c - consume)));;
          mret (Some consume)
      | BChunked =>
          let* data := lift (data_at (recv_buf c) 0 data_len) in
          match drain (req_chunk_parser c) data with
          | None => lift Fault
          | Some r =>
              modify (with_req_chunk_parser (dr_parser r));;
              mret match dr_end r with DrainError => None | _ => Some (Z.of_nat (dr_consumed r)) end
          end
      | _ => mret (Some data_len)
      end in
    match send_len with
    | None => close_conn
    | Some n =>
        modify (fun c => with_req_size (u32 (req_size c + n)) c);;
        modify (with_req_initial_send_len n);;
        to_slots None None (Some CEarlyUpstreamRecvdSendInflight) (Some CRequestBodySent);;
        let* bytes := lift (data_at (recv_buf c) 0 n) in
        submit_send_upstream bytes;; skip
    end.

Definition on_upstream_connected (result : Z) : M unit :=
  if result <? 0 then send_502
  else
    let* c := get in
    if req_malformed c then close_conn
    else
      let* ok := alloc_upstream_buf env in
      if negb ok then close_conn
      else
        modify (with_state Proxying);;
        let* c := get in
        let want := if 0 <? req_initial_send_len c then req_initial_send_len c else len (recv_buf c) in
        let n := if len (recv_buf c) <? want then len (recv_buf c) else want in
        to_slots None None (Some CEarlyUpstreamRecvdSendInflight) (Some CUpstreamRequestSent);;
        let* bytes := lift (data_at (recv_buf c) 0 n) in
        submit_send_upstream bytes;; skip.

(** ** Dispatch *)

Definition run_callback (cb : Callback) (result : Z) : M unit :=
  match cb with
  | CHeaderReceived => on_header_received result
  | CResponseSent => on_response_sent result
  | CUpstreamConnected => on_upstream_connected result
  | CUpstreamRequestSent => on_upstream_request_sent result
  | CUpstreamResponse => on_upstream_response result
  | CProxyResponseSent => on_proxy_response_sent result
  | CResponseHeaderSent => on_response_header_sent result
  | CResponseBodyRecvd => on_response_body_recvd result
  | CResponseBodySent => on_response_body_sent result
  | CRequestBodySent => on_request_body_sent result
  | CRequestBodyRecvd => on_request_body_recvd result
  | CJitRequestBodyRecvd => on_jit_request_body_recvd result
  | CEarlyUpstreamRecvd => on_early_upstream_recvd result
  | CEarlyUpstreamRecvdSendInflight => on_early_upstream_recvd_send_inflight result
  | CBodySendWithEarlyResponse => on_body_send_with_early_response result
  end.

Definition handle_unhandled_recv (result : Z) : M unit :=
  if 0 <? result then
    let* c := get in
    when (negb (keep_alive c)) (step_conn recv_reset);;
    when (negb (recv_armed c) && match on_send c with None => true | Some _ => false end)
      (submit_recv;; skip)
  else if result <? 0 then close_conn
  else skip.

Definition dispatch_event (t : IoEventType) (result : Z) : M unit :=
  let* c := get in
  match t with
  | Recv =>
      match on_recv c with Some cb => run_callback cb result | None => handle_unhandled_recv result end
  | Send => match on_send c with Some cb => run_callback cb result | None => skip end
  | UpstreamRecv =>
      match on_upstream_recv c with
      | Some cb => run_callback cb result
      | None => if (result <? 0) && negb (bool_decide (state c = ReadingHeader)) then close_conn else skip
      end
  | UpstreamSend | UpstreamConnect =>
      match on_upstream_send c with Some cb => run_callback cb result | None => skip end
  | _ => skip
  end.

(** The connection part of [EpollEventLoop::dispatch]. *)
Definition dispatch (t : IoEventType) (result : Z) : M unit :=
  let* c := get in
  if has_active_slot c then emit ETimerRefresh;; dispatch_event t result
  else match pending_handler_fn c with
  | None => skip
  | Some _ =>
      if yield_kind_matches_event (pending_yield_kind c) t then
        disarm_yield_timer;;
        modify (with_resume_event_kind (yield_kind_from_event t));;
        modify (with_resume_event_result result);;
        resume_jit_handler
      else when (bool_decide (t = Recv) && (result <=? 0)) close_conn
  end.

(** A timer of the wheel or of the yield heap fires for the connection. *)
Definition on_timer (wheel : bool) : M unit :=
  let* c := get in
  let resumes :=
    match pending_handler_fn c with
    | None => false
    | Some _ =>
        bool_decide (pending_yield_kind c = YTimer) ||
        ((negb wheel || yield_armed c) &&
         yield_kind_matches_event (pending_yield_kind c) (if wheel then Timeout else HandlerTimer))
    end in
  if resumes then
    modify (with_yield_armed false);;
    modify (with_resume_event_kind YTimer);;
    modify (with_resume_event_result 0);;
    resume_jit_handler
  else when wheel close_conn.

End callbacks.
