(* ===== verification/EpollBackend.v ===== *)
(** * The epoll back end

    Model of the data path of src/runtime/epoll_backend.cc for plain-text
    connections: the immediate send and its continuation on EPOLLOUT, the queue
    of synthetic completions, the connect, the receive into a connection buffer
    and the encoding of the epoll user data.  What the kernel answers to [send],
    [recv], [connect] and [epoll_ctl] is an argument; the bytes it accepts are
    collected per descriptor. *)

From S2P Require Import Prelude HandlerAbi Buffer.

Record IoEvent := mkEvent { ev_conn : Z; ev_type : IoEventType; ev_result : Z }.

Definition ENOBUFS : Z := 105.
Definition EPIPE : Z := 32.
Definition kMaxFdMap : Z := 16384.
Definition kMaxPending : nat := 64.

(** ** User data of an epoll registration *)

Definition type_code (t : IoEventType) : Z :=
  match t with
  | Accept => 0 | Recv => 1 | Send => 2 | UpstreamConnect => 3 | UpstreamRecv => 4
  | UpstreamSend => 5 | Timeout => 6 | HandlerTimer => 7
  end.

Definition encode_data (conn_id : Z) (t : IoEventType) : Z := Z.lor (Z.shiftl conn_id 8) (type_code t).
Definition decode_data (data : Z) : Z * Z := (u32 (Z.shiftr data 8), Z.land data 255).

(** ** State *)

(** The bytes to send are kept from the start of the buffer handed in. *)
Record SendState := mkSend {
  ss_src : option (list Z); ss_fd : Z; ss_offset : Z; ss_remaining : Z; ss_type : IoEventType
}.

Definition no_send : SendState := mkSend None (-1) 0 0 Send.

Record Backend := mkBackend {
  pending : list IoEvent;
  send_state : Z -> SendState;
  downstream_fd_map : Z -> Z;
  upstream_fd_map : Z -> Z;
  wire : list (Z * list Z)
}.

Definition set_pending (p : list IoEvent) (b : Backend) : Backend :=
  mkBackend p (send_state b) (downstream_fd_map b) (upstream_fd_map b) (wire b).
Definition set_send (conn : Z) (s : SendState) (b : Backend) : Backend :=
  mkBackend (pending b) (fun i => if i =? conn then s else send_state b i)
    (downstream_fd_map b) (upstream_fd_map b) (wire b).
Definition set_downstream (conn fd : Z) (b : Backend) : Backend :=
  mkBackend (pending b) (send_state b) (fun i => if i =? conn then fd else downstream_fd_map b i)
    (upstream_fd_map b) (wire b).
Definition set_upstream (conn fd : Z) (b : Backend) : Backend :=
  mkBackend (pending b) (send_state b) (downstream_fd_map b)
    (fun i => if i =? conn then fd else upstream_fd_map b i) (wire b).
Definition accepted (fd : Z) (bytes : list Z) (b : Backend) : Backend :=
  mkBackend (pending b) (send_state b) (downstream_fd_map b) (upstream_fd_map b) (wire b ++ [(fd, bytes)]).

(** [if (pending_count < 64) pending_completions[pending_count++] = ...] *)
Definition queue_completion (e : IoEvent) (b : Backend) : Backend :=
  if Nat.ltb (length (pending b)) kMaxPending then set_pending (pending b ++ [e]) b else b.

(** [if (pending_count >= 64) pending_count = 63; pending_completions[pending_count++] = ...] *)
Definition force_completion (e : IoEvent) (b : Backend) : Backend :=
  set_pending (take (kMaxPending - 1) (pending b) ++ [e]) b.

(** ** Sending *)

(** An answer of [send]: bytes accepted, [EAGAIN], or another error. *)
Inductive SendAnswer := Sent (n : Z) | Again | SendErrno (e : Z).

(** [add_send] ([t = Send]) and [add_send_upstream] ([t = UpstreamSend]); [ctl]
    is the error of the epoll registration, 0 when it succeeds. *)
Definition add_send (t : IoEventType) (fd conn : Z) (buf : list Z) (a : SendAnswer) (ctl : Z) (b : Backend)
    : Backend :=
  let n := Z.of_nat (length buf) in
  let out := match a with Sent k => accepted fd (take (Z.to_nat k) buf) b | _ => b end in
  match a with
  | SendErrno e => queue_completion (mkEvent conn t (- e)) out
  | _ =>
      let nw := match a with Sent k => k | _ => -1 end in
      if nw =? n then queue_completion (mkEvent conn t nw) out
      else
        let sent := if 0 <? nw then u32 nw else 0 in
        let b := if conn <? kMaxFdMap
                 then set_send conn (mkSend (Some buf) fd sent (u32 (n - sent)) t) out else out in
        if ctl =? 0 then b
        else
          let b := if conn <? kMaxFdMap then set_send conn no_send b else b in
          force_completion (mkEvent conn t (- ctl)) b
  end.

(** The send loop of EPOLLOUT over the kernel's answers: [None] waits for the
    next readiness, [Some r] is the result to report. *)
Fixpoint send_loop (s : SendState) (src : list Z) (answers : list SendAnswer) (b : Backend)
    : option Z * SendState * Backend :=
  if ss_remaining s =? 0 then (Some (ss_offset s), s, b)
  else match answers with
  | [] => (None, s, b)
  | Sent k :: rest =>
      if 0 <? k then
        let chunk := take (Z.to_nat k) (drop (Z.to_nat (ss_offset s)) src) in
        send_loop (mkSend (ss_src s) (ss_fd s) (u32 (ss_offset s + k)) (u32 (ss_remaining s - k)) (ss_type s))
          src rest (accepted (ss_fd s) chunk b)
      else (Some (- EPIPE), mkSend (ss_src s) (ss_fd s) (ss_offset s) 0 (ss_type s), b)
  | Again :: _ => (None, s, b)
  | SendErrno e :: _ => (Some (- e), mkSend (ss_src s) (ss_fd s) (ss_offset s) 0 (ss_type s), b)
  end.

(** EPOLLOUT on a connection: the event to emit, if the send ended. *)
Definition handle_epollout (conn : Z) (answers : list SendAnswer) (b : Backend) : option IoEvent * Backend :=
  if kMaxFdMap <=? conn then (None, b)
  else
    let s := send_state b conn in
    match ss_src s with
    | Some src =>
        if (ss_remaining s =? 0) || (ss_fd s <? 0) then (None, b)
        else
          let '(r, s', b) := send_loop s src answers b in
          match r with
          | None => (None, set_send conn s' b)
          | Some res => (Some (mkEvent conn (ss_type s') res), set_send conn no_send b)
          end
    | None => (None, b)
    end.

(** ** Connecting and receiving *)

Inductive ConnectAnswer := Connected | InProgress | ConnectErrno (e : Z).

Definition add_connect (fd conn : Z) (a : ConnectAnswer) (b : Backend) : Backend :=
  let b := if conn <? kMaxFdMap then set_upstream conn fd b else b in
  match a with
  | Connected => queue_completion (mkEvent conn UpstreamConnect 0) b
  | InProgress => b
  | ConnectErrno e => queue_completion (mkEvent conn UpstreamConnect (- e)) b
  end.

Definition add_recv (fd conn : Z) (b : Backend) : Backend :=
  if conn <? kMaxFdMap then set_downstream conn fd b else b.
Definition add_recv_upstream (fd conn : Z) (b : Backend) : Backend :=
  if conn <? kMaxFdMap then set_upstream conn fd b else b.

(** An answer of [recv]; no bytes is the end of the stream. *)
Inductive RecvAnswer := Got (bytes : list Z) | RecvErrno (e : Z).

(** The receive of EPOLLIN into the buffer of a connection: the result of the
    event and the buffer. *)
Definition recv_into (buf : Buffer) (a : RecvAnswer) : res (Z * Buffer) :=
  avail ← write_avail buf;
  if 0 <? avail then
    match a with
    | Got l =>
        let l := take (Z.to_nat avail) l in
        if Nat.ltb 0 (length l) then
          buf ← fill buf l;
          buf ← commit buf (Z.of_nat (length l));
          Ret (Z.of_nat (length l), buf)
        else Ret (0, buf)
    | RecvErrno e => Ret (- e, buf)
    end
  else Ret (- ENOBUFS, buf).

(** The completions handed out first by [wait], last queued first. *)
Definition drain_pending (max : nat) (b : Backend) : list IoEvent * Backend :=
  let n := Nat.min max (length (pending b)) in
  (take n (reverse (pending b)), set_pending (take (length (pending b) - n) (pending b)) b).

(** ** The registration data *)

Lemma encode_decode conn t : 0 <= conn < 2 ^ 32 -> decode_data (encode_data conn t) = (conn, type_code t).
Proof.
  intros Hc. unfold encode_data, decode_data. assert (0 <= type_code t < 2 ^ 8) as Ht by (destruct t; cbn; lia).
  assert (Z.land (Z.shiftl conn 8) (type_code t) = 0) as Hd.
  { apply Z.bits_inj'. intros i Hi. rewrite Z.land_spec, Z.bits_0.
    destruct (Z_lt_le_dec i 8); [rewrite Z.shiftl_spec_low by lia; done|].
    rewrite (Z.bits_above_log2 (type_code t)), andb_false_r; [done | lia |].
    destruct (Z.eq_dec (type_code t) 0) as [-> | ?]; [cbn; lia|].
    apply Z.log2_lt_pow2; [lia|]. eapply Z.lt_le_trans; [apply Ht|]. apply Z.pow_le_mono_r; lia. }
  assert (Z.lor (Z.shiftl conn 8) (type_code t) = conn * 256 + type_code t) as ->.
  { pose proof (Z.add_lor_land (Z.shiftl conn 8) (type_code t)) as H.
    rewrite Hd, Z.shiftl_mul_pow2 in H by lia. rewrite Z.shiftl_mul_pow2 by lia. lia. }
  rewrite Z.shiftr_div_pow2 by lia. change (2 ^ 8) with 256 in *. change 255 with (Z.ones 8).
  rewrite Z.land_ones by lia. change (2 ^ 8) with 256.
  rewrite Z.div_add_l, (Z.div_small (type_code t)), Z.add_0_r, u32_small by lia.
  rewrite Z.add_comm, Z.mod_add, Z.mod_small by lia. done.
Qed.

(** ** A send reaches the wire *)

(** The bytes a descriptor has accepted, in order. *)
Definition wire_of (fd : Z) (b : Backend) : list Z :=
  mjoin ((fun x : Z * list Z => if x.1 =? fd then x.2 else []) <$> wire b).

Lemma wire_accepted_at fd fd' l b : wire_of fd (accepted fd' l b) = wire_of fd b ++ if fd' =? fd then l else [].
Proof. unfold wire_of, accepted. cbn [wire]. rewrite fmap_app, join_app. cbn. by rewrite app_nil_r. Qed.

Lemma wire_accepted fd l b : wire_of fd (accepted fd l b) = wire_of fd b ++ l.
Proof. by rewrite wire_accepted_at, Z.eqb_refl. Qed.

(** The kernel takes at most what it is given, and its errors are positive. *)
Fixpoint answers_ok (remaining : Z) (l : list SendAnswer) : Prop :=
  match l with
  | [] => True
  | Sent k :: l' => 0 <= k <= remaining /\ answers_ok (remaining - k) l'
  | Again :: l' => True
  | SendErrno e :: l' => 0 < e
  end.

(** A send in progress: the wire has the bytes up to the offset. *)
Definition in_flight (conn fd : Z) (t : IoEventType) (buf w0 : list Z) (b : Backend) : Prop :=
  exists off, 0 <= off < Z.of_nat (length buf) /\
    send_state b conn = mkSend (Some buf) fd off (Z.of_nat (length buf) - off) t /\
    wire_of fd b = w0 ++ take (Z.to_nat off) buf.

(** The end of a send. *)
Definition ended (fd : Z) (buf w0 : list Z) (r : Z) (b : Backend) : Prop :=
  exists sent, wire_of fd b = w0 ++ sent /\ sent `prefix_of` buf /\
    (r = Z.of_nat (length buf) /\ sent = buf \/ r < 0).

Lemma take_more (buf : list Z) (off k : Z) :
  0 <= off -> 0 <= k ->
  take (Z.to_nat off) buf ++ take (Z.to_nat k) (drop (Z.to_nat off) buf) = take (Z.to_nat (off + k)) buf.
Proof. intros. rewrite take_take_drop. f_equal. lia. Qed.

Lemma send_loop_spec answers : forall fd t buf w0 off b,
  Z.of_nat (length buf) < 2 ^ 32 -> 0 <= off <= Z.of_nat (length buf) ->
  answers_ok (Z.of_nat (length buf) - off) answers -> wire_of fd b = w0 ++ take (Z.to_nat off) buf ->
  exists r s' b', send_loop (mkSend (Some buf) fd off (Z.of_nat (length buf) - off) t) buf answers b = (r, s', b') /\
    pending b' = pending b /\ ss_type s' = t /\
    match r with
    | Some r => ended fd buf w0 r b'
    | None => exists off', 0 <= off' < Z.of_nat (length buf) /\
        s' = mkSend (Some buf) fd off' (Z.of_nat (length buf) - off') t /\
        wire_of fd b' = w0 ++ take (Z.to_nat off') buf
    end.
Proof.
  induction answers as [|a answers IH]; intros fd t buf w0 off b Hl Ho Ha Hw; cbn [send_loop ss_remaining ss_offset ss_fd ss_src ss_type].
  all: destruct (Z.eqb_spec (Z.of_nat (length buf) - off) 0) as [E|E].
  1,3: eexists _, _, _; (split; [done|]); (split_and!; [done.. |]); exists buf;
    rewrite Hw, take_ge by lia; (split_and!; [done.. |]); left; split; [lia | done].
  - eexists _, _, _. split; [done|]. split_and!; [done.. |]. exists off. split_and!; [lia | lia | done | done].
  - assert (forall r, r < 0 -> ended fd buf w0 r b) as Hend.
    { intros r Hr. exists (take (Z.to_nat off) buf). split_and!; [done | apply prefix_take | by right]. }
    destruct a as [k| |e]; cbn [answers_ok] in Ha.
    + destruct Ha as [Hk Ha]. change (2 ^ 32) with 4294967296 in *. destruct (Z.ltb_spec 0 k).
      * rewrite !u32_small by lia.
        replace (Z.of_nat (length buf) - off - k) with (Z.of_nat (length buf) - (off + k)) in * by lia.
        set (b1 := accepted _ _ b).
        destruct (IH fd t buf w0 (off + k) b1) as (r & s' & b' & Hs & Hr); [lia | lia | done | |].
        { subst b1. rewrite wire_accepted, Hw, <- app_assoc. by rewrite take_more by lia. }
        exists r, s', b'. by rewrite Hs.
      * eexists _, _, _. split; [done|]. split_and!; [done.. |]. apply Hend. unfold EPIPE. lia.
    + eexists _, _, _. split; [done|]. split_and!; [done.. |]. exists off. split_and!; [lia | lia | done | done].
    + eexists _, _, _. split; [done|]. split_and!; [done.. |]. apply Hend. lia.
Qed.

Lemma handle_epollout_spec conn fd t buf w0 answers b :
  0 <= conn < kMaxFdMap -> 0 <= fd -> Z.of_nat (length buf) < 2 ^ 32 ->
  in_flight conn fd t buf w0 b -> answers_ok (ss_remaining (send_state b conn)) answers ->
  exists e b', handle_epollout conn answers b = (e, b') /\ pending b' = pending b /\
    match e with
    | None => in_flight conn fd t buf w0 b'
    | Some ev => exists r, ev = mkEvent conn t r /\ ended fd buf w0 r b' /\ send_state b' conn = no_send
    end.
Proof.
  intros Hc Hfd Hl (off & Ho & Hs & Hw) Ha. rewrite Hs in Ha. cbn [ss_remaining] in Ha.
  destruct (send_loop_spec answers fd t buf w0 off b Hl ltac:(lia) Ha Hw) as (r & s' & b' & Hloop & Hp & Ht & Hr).
  unfold handle_epollout. rewrite (proj2 (Z.leb_gt _ _)), Hs by lia. cbn [ss_src ss_remaining ss_fd].
  rewrite (proj2 (Z.eqb_neq _ _)), (proj2 (Z.ltb_ge _ _)) by lia. cbn [orb]. rewrite Hloop.
  destruct r as [r|]; (eexists _, _; split; [done|]; split; [exact Hp|]).
  - exists r. rewrite Ht. split; [done|]. split; [exact Hr|]. cbn. by rewrite Z.eqb_refl.
  - destruct Hr as (off' & Ho' & -> & Hw'). exists off'. split; [done|]. split; [cbn; by rewrite Z.eqb_refl | exact Hw'].
Qed.

(** Successive writability events of a connection, and what they emit. *)
Fixpoint epollouts (conn : Z) (rounds : list (list SendAnswer)) (b : Backend) : list IoEvent * Backend :=
  match rounds with
  | [] => ([], b)
  | answers :: rounds' =>
      let '(e, b) := handle_epollout conn answers b in
      let '(es, b) := epollouts conn rounds' b in
      ((match e with Some ev => [ev] | None => [] end) ++ es, b)
  end.

(** The kernel keeps its contract on every send the rounds make. *)
Fixpoint rounds_ok (conn : Z) (rounds : list (list SendAnswer)) (b : Backend) : Prop :=
  match rounds with
  | [] => True
  | answers :: rounds' =>
      answers_ok (ss_remaining (send_state b conn)) answers /\
      rounds_ok conn rounds' (snd (handle_epollout conn answers b))
  end.

Lemma epollouts_idle conn rounds b : ss_src (send_state b conn) = None -> epollouts conn rounds b = ([], b).
Proof.
  intros Hs. induction rounds as [|a rounds IH]; [done|]. cbn [epollouts]. unfold handle_epollout.
  rewrite Hs. by destruct (_ <=? _); rewrite IH.
Qed.

Lemma epollouts_spec conn fd t buf w0 rounds b :
  0 <= conn < kMaxFdMap -> 0 <= fd -> Z.of_nat (length buf) < 2 ^ 32 ->
  in_flight conn fd t buf w0 b -> rounds_ok conn rounds b ->
  exists es b', epollouts conn rounds b = (es, b') /\ pending b' = pending b /\
    (es = [] /\ in_flight conn fd t buf w0 b' \/ exists r, es = [mkEvent conn t r] /\ ended fd buf w0 r b').
Proof.
  intros Hc Hfd Hl. revert b. induction rounds as [|a rounds IH]; intros b Hf Hr; cbn [epollouts rounds_ok] in *.
  { eexists _, _. split; [done|]. split; [done|]. by left. }
  destruct Hr as [Ha Hr].
  destruct (handle_epollout_spec conn fd t buf w0 a b Hc Hfd Hl Hf Ha) as (e & b1 & He & Hp & Hcase).
  rewrite He in Hr |- *. cbn [snd] in Hr. destruct e as [ev|].
  - destruct Hcase as (r & -> & Hend & Hidle). rewrite epollouts_idle by by rewrite Hidle.
    eexists _, _. split; [done|]. split; [done|]. right. by exists r.
  - destruct (IH b1 Hcase Hr) as (es & b' & -> & Hp' & H). eexists _, _. split; [done|]. split; [congruence | done].
Qed.

(** From [b1] on, the send of [buf] that started in [b] is in progress, or has
    ended with one completion. *)
Definition one_completion (conn fd : Z) (t : IoEventType) (buf : list Z) (b : Backend)
    (rounds : list (list SendAnswer)) (b1 : Backend) : Prop :=
  exists es b', epollouts conn rounds b1 = (es, b') /\
    let completions := drop (length (pending b)) (pending b') ++ es in
    (completions = [] /\ in_flight conn fd t buf (wire_of fd b) b') \/
    (exists r, completions = [mkEvent conn t r] /\ ended fd buf (wire_of fd b) r b').

Lemma completed_at_once conn fd t buf b rounds r b0 :
  (length (pending b) < kMaxPending)%nat -> ss_src (send_state b conn) = None ->
  pending b0 = pending b -> send_state b0 conn = send_state b conn -> ended fd buf (wire_of fd b) r b0 ->
  one_completion conn fd t buf b rounds (queue_completion (mkEvent conn t r) b0).
Proof.
  intros Hq Hidle Hp Hs Hend. unfold one_completion, queue_completion. rewrite Hp, (proj2 (Nat.ltb_lt _ _) Hq).
  rewrite epollouts_idle by (cbn; by rewrite Hs). eexists _, _. split; [done|]. right. exists r.
  cbn [pending set_pending]. rewrite drop_app_length. done.
Qed.

Lemma continued_later conn fd t buf b rounds off b0 :
  0 <= conn < kMaxFdMap -> 0 <= fd -> Z.of_nat (length buf) < 2 ^ 32 ->
  0 <= off < Z.of_nat (length buf) -> pending b0 = pending b ->
  wire_of fd b0 = wire_of fd b ++ take (Z.to_nat off) buf ->
  let b1 := set_send conn (mkSend (Some buf) fd off (Z.of_nat (length buf) - off) t) b0 in
  rounds_ok conn rounds b1 -> one_completion conn fd t buf b rounds b1.
Proof.
  intros Hc Hfd Hl Ho Hp Hw b1 Hr.
  destruct (epollouts_spec conn fd t buf (wire_of fd b) rounds b1) as (es & b' & He & Hp' & H); [done.. | | done |].
  - exists off. split_and!; [lia | lia | cbn; by rewrite Z.eqb_refl | exact Hw].
  - exists es, b'. split; [done|]. assert (pending b' = pending b) as -> by (rewrite Hp'; exact Hp). by rewrite drop_all.
Qed.


Definition idle_backend : Backend := mkBackend [] (fun _ => no_send) (fun _ => -1) (fun _ => -1) [].


(** Sends of one buffer on connections [0 .. n-1], all accepted at once. *)
Fixpoint send_batch (n : nat) (buf : list Z) (b : Backend) : Backend :=
  match n with
  | O => b
  | S k => let b := send_batch k buf b in
           add_send Send (Z.of_nat k) (Z.of_nat k) buf (Sent (Z.of_nat (length buf))) 0 b
  end.

Definition kMaxEventsPerWait : nat := 256.

Lemma send_batch_spec n buf :
  let b := send_batch n buf idle_backend in
  pending b = (fun k => mkEvent (Z.of_nat k) Send (Z.of_nat (length buf))) <$> seq 0 (Nat.min n kMaxPending) /\
  (forall fd, wire_of fd b = if (0 <=? fd) && (fd <? Z.of_nat n) then buf else []).
Proof.
  induction n as [|n IH]; cbv zeta in *; cbn [send_batch].
  { split; [done|]. intros fd. destruct (0 <=? fd) eqn:E1, (fd <? Z.of_nat 0) eqn:E2; try done. zify_bool. lia. }
  destruct IH as [Hp Hw]. set (b := send_batch n buf idle_backend) in *. unfold add_send. rewrite Z.eqb_refl.
  rewrite Nat2Z.id, take_ge by lia. split.
  - unfold queue_completion. cbn [pending accepted]. rewrite Hp, length_fmap, length_seq. unfold kMaxPending in *.
    destruct (Nat.ltb_spec (Nat.min n 64) 64).
    + cbn [pending set_pending accepted]. rewrite !Nat.min_l, seq_S, fmap_app by lia. done.
    + cbn [pending accepted]. rewrite Hp. do 2 f_equal. lia.
  - intros fd. assert (forall e b0, wire_of fd (queue_completion e b0) = wire_of fd b0) as ->.
    { intros e b0. unfold queue_completion. by destruct (Nat.ltb _ _). }
    rewrite wire_accepted_at, Hw. destruct (Z.eqb_spec (Z.of_nat n) fd) as [<-|Hne].
    + rewrite Z.ltb_irrefl, andb_false_r, (proj2 (Z.leb_le _ _)), (proj2 (Z.ltb_lt _ _)) by lia. done.
    + rewrite app_nil_r. destruct (0 <=? fd) eqn:E1; [|done]. cbn [andb]. zify_bool.
      destruct (Z.ltb_spec fd (Z.of_nat n)), (Z.ltb_spec fd (Z.of_nat (S n))); try done; lia.
Qed.

(** Completions are lost.  When the events of one [wait] (up to 256) make more
    than 64 connections send, every byte is on the wire but only 64
    completions are queued: the connections behind them never learn that their
    response was sent. *)
Theorem completions_lost (n : nat) buf :
  (kMaxPending < n <= kMaxEventsPerWait)%nat ->
  let b := send_batch n buf idle_backend in
  length (pending b) = kMaxPending /\
  forall k, (kMaxPending <= k < n)%nat ->
    wire_of (Z.of_nat k) b = buf /\ forall t r, mkEvent (Z.of_nat k) t r ∉ pending b.
Proof.
  intros Hn. destruct (send_batch_spec n buf) as [Hp Hw]. cbv zeta in *. rewrite Nat.min_r in Hp by lia.
  rewrite Hp. split; [by rewrite length_fmap, length_seq|]. intros k Hk. split.
  - by rewrite Hw, (proj2 (Z.leb_le _ _)), (proj2 (Z.ltb_lt _ _)) by lia.
  - intros t r Hin. apply list_elem_of_fmap in Hin as (j & [= Hj _ _] & Hin). apply elem_of_seq in Hin. lia.
Qed.

Lemma completions_lost_witness :
  let b := send_batch 65 (bs "HTTP/1.1 200 OK") idle_backend in
  length (pending b) = kMaxPending /\
  forall k, (kMaxPending <= k < 65)%nat ->
    wire_of (Z.of_nat k) b = bs "HTTP/1.1 200 OK" /\ forall t r, mkEvent (Z.of_nat k) t r ∉ pending b.
Proof. apply completions_lost. unfold kMaxPending, kMaxEventsPerWait. lia. Defined.
