(* ===== verification/ConnLogic.v ===== *)
(** * A program logic for the connection callbacks

    Triples for the state-passing monad of [EventLoop]: [ok m c k Q] says that
    [m], started on the connection [c] after operations that add up to [k], does
    not trap or fault whatever the outside world answers, and ends with [Q].
    The tally of a trace counts what has to balance: epoch entries, active
    requests, pool slices.  The buffer and formatter lemmas the callbacks need
    are stated here as totality of the connection steps. *)

From S2P Require Import Prelude HeaderValidation Simd HttpParser ChunkedParser RouteMethod RouteTrie RouteTable.
From S2P Require Import HttpGrammar HttpFraming HandlerAbi Buffer Connection Response RequestMeta EventLoop Callbacks.

(** ** Tallies *)

(** The slot of the connection table the connection lives in. *)
Class Slot := slot_id : Z.

(** Epoch entries, active requests, slices, the slot itself, the gauge of open
    connections; and frees of a slot that is not this one. *)
Record Tally := mkTally { t_epoch : Z; t_active : Z; t_slices : Z; t_slot : Z; t_open : Z; t_stray : Z }.

Definition tadd (a b : Tally) : Tally :=
  mkTally (t_epoch a + t_epoch b) (t_active a + t_active b) (t_slices a + t_slices b)
    (t_slot a + t_slot b) (t_open a + t_open b) (t_stray a + t_stray b).

Definition tzero : Tally := mkTally 0 0 0 0 0 0.

Section triples.
Context {SL : Slot}.

Definition tally_of (e : Eff) : Tally :=
  match e with
  | EEpochEnter => mkTally 1 0 0 0 0 0
  | EEpochLeave => mkTally (-1) 0 0 0 0 0
  | ERequestStart => mkTally 0 1 0 0 0 0
  | ERequestComplete _ | ERequestAborted => mkTally 0 (-1) 0 0 0 0
  | ESliceAlloc => mkTally 0 0 1 0 0 0
  | ESliceFree => mkTally 0 0 (-1) 0 0 0
  | EAllocConn => mkTally 0 0 0 1 0 0
  | EFreeConn cid => if cid =? slot_id then mkTally 0 0 0 (-1) 0 0 else mkTally 0 0 0 0 0 1
  | EAccepted => mkTally 0 0 0 0 1 0
  | EConnClosed => mkTally 0 0 0 0 (-1) 0
  | _ => tzero
  end.

Definition tally (tr : list Eff) : Tally := foldl (fun k e => tadd k (tally_of e)) tzero tr.

Lemma tally_snoc tr e : tally (tr ++ [e]) = tadd (tally tr) (tally_of e).
Proof. unfold tally. by rewrite foldl_app. Qed.

Lemma tadd_zero k : tadd k tzero = k.
Proof. destruct k. unfold tadd. cbn. f_equal; lia. Qed.

(** ** Triples *)

Definition ok {A} (m : M A) (c : Connection) (k : Tally) (Q : A -> Connection -> Tally -> Prop) : Prop :=
  forall tr n, tally tr = k ->
  exists a s', m (mkSys c tr n) = Ret (a, s') /\ Q a (sconn s') (tally (trace s')).

Section rules.
Context {A : Type}.
Implicit Types (Q : A -> Connection -> Tally -> Prop).

Lemma ok_ret (a : A) c k Q : Q a c k -> ok (mret a) c k Q.
Proof. intros H tr n <-. by eexists _, _. Qed.

Lemma ok_bind {B} (m : M B) (f : B -> M A) c k Q :
  ok m c k (fun b c' k' => ok (f b) c' k' Q) -> ok (m ≫= f) c k Q.
Proof.
  intros H tr n Hk. destruct (H tr n Hk) as (b & [c1 tr1 n1] & Hm & Hf).
  destruct (Hf tr1 n1 eq_refl) as (a & s' & Hf' & HQ). exists a, s'. split; [|done].
  unfold mbind, M_bind. by rewrite Hm.
Qed.

Lemma ok_bindM {B} (m : M B) (f : B -> M A) c k Q :
  ok m c k (fun b c' k' => ok (f b) c' k' Q) -> ok (bindM m f) c k Q.
Proof. apply ok_bind. Qed.

Lemma ok_mono (m : M A) c k Q Q' :
  ok m c k Q -> (forall a c' k', Q a c' k' -> Q' a c' k') -> ok m c k Q'.
Proof. intros H HQ tr n Hk. destruct (H tr n Hk) as (a & s' & Hm & Hq). eauto 10. Qed.

Lemma ok_ask (f : nat -> A) c k Q : (forall n, Q (f n) c k) -> ok (ask f) c k Q.
Proof. intros H tr n <-. by eexists _, _. Qed.

Lemma ok_lift (m : res A) a c k Q : m = Ret a -> Q a c k -> ok (lift m) c k Q.
Proof. intros -> H tr n <-. by eexists _, _. Qed.

Lemma ok_if (b : bool) (m m' : M A) c k Q :
  (b = true -> ok m c k Q) -> (b = false -> ok m' c k Q) -> ok (if b then m else m') c k Q.
Proof. destruct b; auto. Qed.

Lemma ok_step_conn_val (f : Connection -> res (A * Connection)) a c c' k Q :
  f c = Ret (a, c') -> Q a c' k -> ok (step_conn_val f) c k Q.
Proof.
  intros Hf HQ tr n <-. exists a, (mkSys c' tr n). split; [|done].
  unfold step_conn_val, get, lift, modify, mbind, M_bind, mret, M_ret. cbn [sconn]. by rewrite Hf.
Qed.

End rules.

Lemma ok_get c k Q : Q c c k -> ok get c k Q.
Proof. intros H tr n <-. by eexists _, _. Qed.

Lemma ok_modify f c k Q : Q tt (f c) k -> ok (modify f) c k Q.
Proof. intros H tr n <-. by eexists _, _. Qed.

Lemma ok_skip c k (Q : unit -> Connection -> Tally -> Prop) : Q tt c k -> ok skip c k Q.
Proof. apply ok_ret. Qed.

Lemma ok_emit e c k Q : Q tt c (tadd k (tally_of e)) -> ok (emit e) c k Q.
Proof. intros H tr n <-. eexists _, _. split; [done|]. cbn [sconn trace]. by rewrite tally_snoc. Qed.

(** An operation that nothing has to balance. *)
Lemma ok_note e c k (Q : unit -> Connection -> Tally -> Prop) :
  tally_of e = tzero -> Q tt c k -> ok (emit e) c k Q.
Proof. intros He H. apply ok_emit. by rewrite He, tadd_zero. Qed.

Lemma ok_when b m c k Q :
  (b = true -> ok m c k Q) -> (b = false -> Q tt c k) -> ok (when b m) c k Q.
Proof. destruct b; intros H H'; [by apply H | by apply ok_skip, H']. Qed.

Lemma ok_when_note b e c k Q : tally_of e = tzero -> Q tt c k -> ok (when b (emit e)) c k Q.
Proof. intros He H. apply ok_when; [|done]. intros _. by apply ok_note. Qed.

Lemma ok_when_emit b e c k Q :
  Q tt c (if b : bool then tadd k (tally_of e) else k) -> ok (when b (emit e)) c k Q.
Proof. intros H. apply ok_when; intros ->; [by apply ok_emit | done]. Qed.

(** A note that first reads something from outside. *)
Lemma ok_when_stamped {A} b (f : nat -> A) (e : A -> Eff) c k Q :
  (forall a, tally_of (e a) = tzero) -> Q tt c k -> ok (when b (bindM (ask f) (fun t => emit (e t)))) c k Q.
Proof.
  intros He H. apply ok_when; [|done]. intros _. apply ok_bindM, ok_ask. intros n. by apply ok_note.
Qed.

Lemma ok_close_upstream c k Q :
  (forall v, v < 0 -> Q tt (with_upstream_fd v c) k) -> ok close_upstream c k Q.
Proof.
  intros H. unfold close_upstream. apply ok_bind, ok_get, ok_when; intros E; zify_bool.
  - apply ok_bind, ok_note; [done|]. apply ok_modify. apply H. lia.
  - replace c with (with_upstream_fd (upstream_fd c) c) by (by destruct c). apply H. lia.
Qed.

Lemma ok_step_conn f c c' k Q : f c = Ret c' -> Q tt c' k -> ok (step_conn f) c k Q.
Proof.
  intros Hf HQ tr n <-. exists tt, (mkSys c' tr n). split; [|done].
  unfold step_conn, get, lift, modify, mbind, M_bind. cbn [sconn]. by rewrite Hf.
Qed.

End triples.

(** One step through a program, never opening the user's own tests. *)
Ltac ok_step :=
  cbv beta; lazymatch goal with
  | |- ok (bindM _ _) _ _ _ => apply ok_bindM
  | |- ok (_ ≫= _) _ _ _ => apply ok_bind
  | |- ok (mret _) _ _ _ => apply ok_ret
  | |- ok skip _ _ _ => apply ok_skip
  | |- ok get _ _ _ => apply ok_get
  | |- ok (modify _) _ _ _ => apply ok_modify
  | |- ok (emit _) _ _ _ => apply ok_note; [reflexivity|]
  | |- ok (when _ (emit _)) _ _ _ => apply ok_when_note; [reflexivity|]
  | |- ok (when _ (bindM (ask _) (fun _ => emit _))) _ _ _ => apply ok_when_stamped; [reflexivity|]
  | |- ok (to_slots _ _ _ _) _ _ _ => apply ok_modify
  | |- ok close_upstream _ _ _ => apply ok_close_upstream; intros ? ?
  | |- ok (submit_send _) _ _ _ => apply ok_note; [reflexivity|]
  | |- ok (submit_recv _) _ _ _ => unfold submit_recv
  | |- ok (submit_recv_upstream _) _ _ _ => unfold submit_recv_upstream
  | |- ok (submit_send_upstream _ _) _ _ _ => unfold submit_send_upstream
  | |- ok (submit_connect _ _) _ _ _ => unfold submit_connect
  | |- ok (ask _) _ _ _ => apply ok_ask; intros ?
  end.
Ltac ok_steps := repeat ok_step.

(** ** Buffers of a connection *)

(** A receive buffer: bound to a whole slice and holding bytes. *)
Definition rbuf (b : Buffer) : Prop := writable b /\ cap b = kSliceSize /\ Forall is_byte (contents b).
Definition sbuf (b : Buffer) : Prop := writable b /\ cap b = kSliceSize.
(** The upstream buffer is allocated on first use. *)
Definition ubuf (b : Buffer) : Prop := b = null_buffer \/ rbuf b.

Lemma rbuf_len b : rbuf b -> 0 <= len b <= 16384.
Proof. intros (((? & _) & _) & Hc & _). unfold kSliceSize in Hc. lia. Qed.

Lemma rbuf_bound b : rbuf b -> bound b = true.
Proof. intros ((_ & _ & Hp) & _). unfold bound. by destruct (ptr b). Qed.

Lemma sbuf_bound b : sbuf b -> bound b = true.
Proof. intros ((_ & _ & Hp) & _). unfold bound. by destruct (ptr b). Qed.

Lemma rbuf_contents b : rbuf b -> Z.of_nat (length (contents b)) = len b.
Proof. intros [Hw _]. by apply length_contents. Qed.

Lemma fresh_rbuf s b : Z.of_nat (length s) = kSliceSize -> rbuf (Buffer.bind b (Some s) kSliceSize).
Proof.
  intros Hs. unfold rbuf, writable, buf_ok, contents. cbn. rewrite Hs. unfold kSliceSize.
  split_and!; try done; lia.
Qed.

Lemma rbuf_sbuf b : rbuf b -> sbuf b.
Proof. intros (? & ? & _). by split. Qed.

Lemma rbuf_reset b : rbuf b -> exists b', Buffer.reset b = Ret b' /\ rbuf b' /\ len b' = 0.
Proof.
  intros (Hw & Hc & _). destruct (reset_spec b Hw) as (b' & Hr & Hw' & Hc' & Hct & Hl & _).
  exists b'. split; [done|]. split; [|done]. split_and!; [done | congruence | rewrite Hct; constructor].
Qed.

Lemma sbuf_reset b : sbuf b -> exists b', Buffer.reset b = Ret b' /\ sbuf b' /\ contents b' = [] /\ len b' = 0.
Proof.
  intros (Hw & Hc). destruct (reset_spec b Hw) as (b' & Hr & Hw' & Hc' & Hct & Hl & _).
  exists b'. split; [done|]. split_and!; [split; [done | congruence] | done | done].
Qed.

Lemma rbuf_refill b src :
  rbuf b -> Forall is_byte src -> Z.of_nat (length src) <= 16384 ->
  exists b', refill b src = Ret b' /\ rbuf b' /\ contents b' = src /\ len b' = Z.of_nat (length src).
Proof.
  intros (Hw & Hc & _) Hs Hl. destruct (refill_spec b src Hw) as (b' & H & Hw' & Hc' & Hct & Hl').
  { unfold kSliceSize in Hc. lia. }
  exists b'. split_and!; try done. split_and!; [done | congruence | by rewrite Hct].
Qed.

Lemma rbuf_write b src :
  rbuf b -> Forall is_byte src ->
  exists n b', write b src = Ret (n, b') /\ rbuf b' /\
    contents b' = contents b ++ take (Z.to_nat n) src /\ n = Z.min (Z.of_nat (length src)) (16384 - len b).
Proof.
  intros (Hw & Hc & Hb) Hs. destruct (write_spec b src Hw) as (b' & H & Hw' & Hc' & Hct & _).
  unfold kSliceSize in *. eexists _, b'. split; [exact H|]. split_and!; try done.
  - split_and!; [done | by rewrite Hc' |]. rewrite Hct. apply Forall_app. split; [done|]. by apply Forall_take.
  - unfold room. by rewrite Hc.
Qed.

Lemma sbuf_write b src : sbuf b -> exists n b', write b src = Ret (n, b') /\ sbuf b'.
Proof.
  intros (Hw & Hc). destruct (write_spec b src Hw) as (b' & H & Hw' & Hc' & _).
  eexists _, b'. split; [exact H|]. split; [done | congruence].
Qed.

(** Bytes that arrive. *)
Lemma rbuf_fill b src :
  rbuf b -> Forall is_byte src -> Z.of_nat (length src) <= 16384 - len b ->
  exists b1 b2, fill b src = Ret b1 /\ commit b1 (Z.of_nat (length src)) = Ret b2 /\ rbuf b2 /\
    contents b2 = contents b ++ src.
Proof.
  intros (Hw & Hc & Hb) Hs Hl. destruct (fill_commit_spec b src Hw) as (b1 & b2 & H1 & H2 & Hw' & Hc' & Hct & _).
  { unfold room. rewrite Hc. exact Hl. }
  exists b1, b2. split_and!; try done. split_and!; [done | congruence |]. rewrite Hct. by apply Forall_app.
Qed.

Lemma data_prefix b n : writable b -> 0 <= n <= len b -> data_at b 0 n = Ret (take (Z.to_nat n) (contents b)).
Proof. intros Hw Hn. by rewrite data_at_spec by (done || lia). Qed.

Lemma data_all b : writable b -> data_at b 0 (len b) = Ret (contents b).
Proof.
  intros Hw. pose proof (length_contents b Hw). rewrite data_prefix by (done || lia).
  f_equal. apply take_ge. lia.
Qed.

Lemma rbuf_data b off :
  rbuf b -> 0 <= off <= len b ->
  exists src, data_at b off (u32 (len b - off)) = Ret src /\ Forall is_byte src /\
    Z.of_nat (length src) = len b - off.
Proof.
  intros Hb Ho. pose proof (rbuf_len b Hb). rewrite u32_small by lia. destruct Hb as (Hw & _ & Hby).
  rewrite data_at_tail by done. eexists. split; [done|]. split; [by apply Forall_drop|].
  rewrite length_drop. pose proof (length_contents b Hw). lia.
Qed.

(** ** Connection steps that always succeed *)

Lemma recv_reset_total c : rbuf (recv_buf c) ->
  exists b, recv_reset c = Ret (with_recv_buf b c) /\ rbuf b /\ len b = 0.
Proof.
  intros Hb. destruct (rbuf_reset _ Hb) as (b & H & Hb' & Hl). exists b. unfold recv_reset. by rewrite H.
Qed.

Lemma upstream_reset_total c : rbuf (upstream_recv_buf c) ->
  exists b, upstream_recv_reset c = Ret (with_upstream_recv_buf b c) /\ rbuf b /\ len b = 0.
Proof.
  intros Hb. destruct (rbuf_reset _ Hb) as (b & H & Hb' & Hl). exists b. unfold upstream_recv_reset. by rewrite H.
Qed.

Lemma send_reset_total c : sbuf (send_buf c) ->
  exists b, send_reset c = Ret (with_send_buf b c) /\ sbuf b /\ contents b = [] /\ len b = 0.
Proof.
  intros Hb. destruct (sbuf_reset _ Hb) as (b & H & Hb' & Hl). exists b. unfold send_reset. by rewrite H.
Qed.

Lemma send_write_total l c : sbuf (send_buf c) ->
  exists b, send_write l c = Ret (with_send_buf b c) /\ sbuf b.
Proof.
  intros Hb. destruct (sbuf_write _ l Hb) as (n & b & H & Hb'). exists b. unfold send_write. by rewrite H.
Qed.

Lemma response_text_fits code ct keep body :
  Z.of_nat (length body) <= 8192 -> (length ct <= 41)%nat ->
  Z.of_nat (length (response_text code ct [] keep body)) <= 16384.
Proof.
  intros Hb Hct. rewrite length_response_text. pose proof (length_status_reason code).
  pose proof (length_dec (Z.of_nat (length body)) ltac:(lia)). cbn [fmap list_fmap mjoin list_join length].
  destruct keep; lia.
Qed.

Lemma format_static_total code keep c : sbuf (send_buf c) ->
  exists b, format_static_response code keep c = Ret (with_send_buf b c) /\ sbuf b.
Proof.
  intros [Hw Hc]. destruct (format_static_spec code keep c Hw) as (b & H & Hb & Hcb & _).
  - rewrite Hc. apply response_text_fits; [|cbn; lia]. unfold static_body.
    pose proof (length_status_reason code). case_if; cbn; lia.
  - exists b. split; [done|]. split; [done | congruence].
Qed.

Lemma format_body_total code body keep c :
  sbuf (send_buf c) -> Z.of_nat (length body) <= 8192 ->
  exists b, format_response_with_body code body keep c = Ret (with_send_buf b c) /\ sbuf b.
Proof.
  intros Hs Hl. destruct (no_body_code code) eqn:E.
  - unfold format_response_with_body. rewrite E. by apply format_static_total.
  - destruct Hs as [Hw Hc]. destruct (format_body_spec code body keep c E Hw) as (b & H & Hb & Hcb & _).
    + rewrite Hc. apply response_text_fits; [done | vm_compute; lia].
    + exists b. split; [done|]. split; [done | congruence].
Qed.

Lemma format_full_total code body hs keep fb c :
  sbuf (send_buf c) -> Z.of_nat (length body) <= 8192 -> Z.of_nat (length (mjoin (header_text <$> hs))) < 2 ^ 32 ->
  exists b, sbuf b /\
    (format_response_with_body_and_headers code body hs keep fb c = Ret (with_send_buf b c) \/
     format_response_with_body_and_headers code body hs keep fb c =
       Ret (with_send_buf b (with_keep_alive false (with_resp_status 500 c)))).
Proof.
  intros [Hw Hc] Hb Hh. destruct (format_full_spec code body hs keep fb c Hw) as (b & Hwb & Hcb & H); try lia.
  { rewrite Hc. unfold kSliceSize. lia. }
  exists b. split; [split; [done | congruence]|]. destruct (_ <=? _); destruct H as [H _]; auto.
Qed.

(** Pipelining, whatever the extent of the request. *)
Lemma leftover_bounds c :
  rbuf (recv_buf c) -> 0 <= req_initial_send_len c -> pipeline_leftover c <> 0 ->
  0 < req_initial_send_len c <= len (recv_buf c) /\
  pipeline_leftover c = len (recv_buf c) - req_initial_send_len c.
Proof.
  intros Hb Hi. pose proof (rbuf_len _ Hb). unfold pipeline_leftover.
  destruct (Z.eqb_spec (req_initial_send_len c) 0); [done|]. cbn [orb].
  destruct (Z.leb_spec (len (recv_buf c)) (req_initial_send_len c)); [done|]. rewrite u32_small by lia. lia.
Qed.

Lemma pipeline_shift_total c :
  rbuf (recv_buf c) -> 0 <= req_initial_send_len c ->
  pipeline_shift c = Ret (false, c) \/
  exists b, pipeline_shift c = Ret (true, with_pipeline_depth (u16 (pipeline_depth c + 1)) (with_recv_buf b c)) /\ rbuf b.
Proof.
  intros Hb Hi. unfold pipeline_shift. destruct (Z.eqb_spec (pipeline_leftover c) 0) as [|E]; [by left|]. right.
  destruct (leftover_bounds c Hb Hi E) as [Hr Hl]. rewrite Hl.
  pose proof (rbuf_len _ Hb). destruct (rbuf_data _ (req_initial_send_len c) Hb ltac:(lia)) as (src & Hd & Hs & Hsl).
  rewrite u32_small in Hd by lia. rewrite Hd. cbn [mbind res_bind].
  destruct (rbuf_refill (recv_buf c) src Hb Hs ltac:(lia)) as (b & -> & Hb' & _). by exists b.
Qed.

(** Stashed bytes are at the front of the send buffer. *)
Definition stash_ok (c : Connection) : Prop :=
  pipeline_stash_len c = 0 \/
  (0 <= pipeline_stash_len c <= len (send_buf c) /\ Forall is_byte (contents (send_buf c))).

Lemma pipeline_stash_total c :
  rbuf (recv_buf c) -> sbuf (send_buf c) -> 0 <= req_initial_send_len c ->
  exists b n, pipeline_stash c = Ret (with_pipeline_stash_len n (with_send_buf b c)) /\ sbuf b /\
    stash_ok (with_pipeline_stash_len n (with_send_buf b c)).
Proof.
  intros Hb Hs Hi. unfold pipeline_stash. destruct (Z.eqb_spec (pipeline_leftover c) 0) as [|E].
  { exists (send_buf c), 0. split_and!; [by destruct c | done | by left]. }
  destruct (leftover_bounds c Hb Hi E) as [Hr Hl]. pose proof (rbuf_len _ Hb).
  destruct (sbuf_reset _ Hs) as (b & Hrs & Hsb & Hct & Hl0). rewrite Hrs. cbn [mbind res_bind].
  assert (write_avail b = Ret 16384) as ->.
  { unfold write_avail. destruct Hsb as [((_ & _ & _) & -> & Hp) Hcp]. destruct (ptr b); [|done].
    rewrite Hl0, Hcp. reflexivity. }
  cbn [mbind res_bind]. destruct (Z.ltb_spec 16384 (pipeline_leftover c)).
  { exists b, 0. split_and!; [done | done | by left]. }
  change (recv_buf (with_send_buf b c)) with (recv_buf c). rewrite Hl.
  change (req_initial_send_len (with_send_buf b c)) with (req_initial_send_len c).
  destruct (rbuf_data _ (req_initial_send_len c) Hb ltac:(lia)) as (src & Hd & Hsrc & Hsl).
  rewrite u32_small in Hd by lia. rewrite Hd. cbn [mbind res_bind].
  destruct Hsb as [Hwb Hcb]. unfold kSliceSize in Hcb.
  destruct (emits_write src (with_send_buf b c) Hwb) as (b2 & -> & Hw2 & Hc2 & Hct2).
  { unfold room. cbn. lia. }
  cbn [mbind res_bind]. rewrite u16_small by lia. exists b2, (len (recv_buf c) - req_initial_send_len c).
  cbn [send_buf with_send_buf] in *. rewrite Hct in Hct2. cbn [app] in Hct2. pose proof (length_contents _ Hw2) as Hl2. rewrite Hct2 in Hl2.
  split; [done|]. split; [split; [done | unfold kSliceSize; congruence]|].
  right. cbn [pipeline_stash_len with_pipeline_stash_len send_buf with_send_buf]. rewrite Hct2. split; [lia | done].
Qed.

Lemma pipeline_recover_total c :
  rbuf (recv_buf c) -> sbuf (send_buf c) -> stash_ok c ->
  pipeline_recover c = Ret (false, with_pipeline_stash_len 0 c) \/
  exists b sb, pipeline_recover c =
      Ret (true, with_pipeline_depth (u16 (pipeline_depth c + 1))
                   (with_send_buf sb (with_recv_buf b (with_pipeline_stash_len 0 c)))) /\ rbuf b /\ sbuf sb.
Proof.
  intros Hb Hs Hst. unfold pipeline_recover. destruct (Z.eqb_spec (pipeline_stash_len c) 0) as [|E]; [by left|].
  right. destruct Hst as [?|[Hl Hby]]; [done|]. cbn [send_buf recv_buf with_pipeline_stash_len].
  assert (len (send_buf c) <= 16384) as Hcap.
  { destruct Hs as [((? & _) & _) Hc]. unfold kSliceSize in Hc. lia. }
  rewrite data_prefix by (done || apply Hs). cbn [mbind res_bind].
  destruct (rbuf_refill (recv_buf c) (take (Z.to_nat (pipeline_stash_len c)) (contents (send_buf c))) Hb)
    as (b & -> & Hb' & _); [by apply Forall_take | rewrite length_take; lia |].
  cbn [mbind res_bind]. destruct (sbuf_reset _ Hs) as (sb & -> & Hsb & _). by exists b, sb.
Qed.

Lemma consume_upstream_total c :
  rbuf (upstream_recv_buf c) -> 0 <= upstream_send_len c ->
  exists n b, consume_upstream_sent c = Ret (n, with_upstream_recv_buf b (with_upstream_send_len 0 c)) /\ rbuf b.
Proof.
  intros Hb Hs. unfold consume_upstream_sent. destruct (Z.leb_spec (len (upstream_recv_buf c)) (upstream_send_len c)).
  - destruct (upstream_reset_total (with_upstream_send_len 0 c) Hb) as (b & -> & Hb' & _). by exists 0, b.
  - cbn [upstream_recv_buf with_upstream_send_len].
    destruct (rbuf_data _ (upstream_send_len c) Hb ltac:(lia)) as (src & -> & Hsrc & Hl). cbn [mbind res_bind].
    pose proof (rbuf_len _ Hb). destruct (rbuf_refill _ src Hb Hsrc ltac:(lia)) as (b & -> & Hb' & _). by eexists _, b.
Qed.
