(* ===== verification/ConnInv.v ===== *)
(** * The connection state machine is safe

    The invariant of a connection under every event: its buffers are usable, its
    callback slots are one of fourteen combinations, each with the facts its
    callbacks rely on, and the operations handed out so far balance (one epoch
    and one active request exactly while a request is being served, one pool
    slice per bound buffer).  Every callback keeps it, so that no event sequence
    can trap, read out of bounds, leak a slice or unbalance an epoch. *)

From S2P Require Import Prelude HeaderValidation Simd HttpParser ChunkedParser RouteMethod RouteTrie RouteTable.
From S2P Require Import HttpGrammar HttpFraming HandlerAbi Buffer Connection Response RequestMeta.
From S2P Require Import EventLoop Callbacks ConnLogic.

(** ** What the callbacks rely on *)

(** A route configuration that can serve requests: every lookup answers, a proxy
    route has its upstream, bodies and header sets stay within their pools. *)
Class Serving (cfg : RouteConfig) : Prop := {
  sv_lookup : forall canon m cap, exists r ps,
    match_canonical_cfg cfg canon (log_route_method_key m) cap = Some (r, ps) /\
    (forall e, r = Some e -> re_action e = Proxy -> is_Some (upstreams cfg !! Z.to_nat (re_upstream_id e)));
  sv_body : forall i b, body_at cfg i = Some b -> Z.of_nat (length b) <= 8192;
  sv_headers : forall i kvs, header_set_at cfg i = Some kvs ->
    Z.of_nat (length (mjoin (header_text <$> kvs))) < 2 ^ 32
}.

Record env_ok (env : Env) : Prop := {
  eo_now : forall n, e_now env n <> 0;
  eo_slice : forall n s, e_slice env n = Some s -> Z.of_nat (length s) = kSliceSize;
  eo_capture : forall n s, e_capture_slice env n = Some s -> kMaxHeaderLen <= Z.of_nat (length s);
  eo_recv : forall n, Forall is_byte (e_recv env n);
  eo_config : forall n cfg, e_config env n = Some cfg -> Serving cfg
}.

(** ** The invariant *)

Definition capture_ok (b : option (list Z)) : Prop :=
  match b with Some s => kMaxHeaderLen <= Z.of_nat (length s) | None => True end.
Definition config_ok (o : option RouteConfig) : Prop :=
  match o with Some cfg => Serving cfg | None => True end.

(** What holds of every open connection. *)
Definition base {SL : Slot} (c : Connection) : Prop :=
  rbuf (recv_buf c) /\ sbuf (send_buf c) /\ ubuf (upstream_recv_buf c) /\
  length (req_path c) = kMaxReqPathLen /\ body_state_ok c /\
  wf (resp_chunk_parser c) /\ 0 <= resp_body_remaining c /\ 0 <= req_initial_send_len c /\
  0 <= upstream_send_len c /\ capture_ok (capture_buf c) /\ config_ok (request_config c) /\ 0 <= fd c /\ Connection.id c = slot_id.

Definition busy (c : Connection) : Prop := req_start_us c <> 0.
Definition calm (c : Connection) : Prop := pending_handler_fn c = None.
Definition no_stash (c : Connection) : Prop := pipeline_stash_len c = 0.
Definition has_upstream (c : Connection) : Prop := rbuf (upstream_recv_buf c).

(** What a connection is doing, by its callback slots. *)
Inductive phase :=
  | Waiting | ReadingHandlerBody | Connecting | Responding | SendingRequest | SendingBody | EarlyResponse
  | ReadingRequestBody | AwaitingResponse | SendingResponse | SendingHead | SendingResponseBody
  | ReadingResponseBody | Suspended.

Definition phase_of (r s ur us : option Callback) : option phase :=
  match r, s, ur, us with
  | Some CHeaderReceived, None, None, None => Some Waiting
  | Some CJitRequestBodyRecvd, None, None, None => Some ReadingHandlerBody
  | None, None, None, Some CUpstreamConnected => Some Connecting
  | None, Some CResponseSent, None, None => Some Responding
  | None, None, Some CEarlyUpstreamRecvdSendInflight, Some CUpstreamRequestSent => Some SendingRequest
  | None, None, Some CEarlyUpstreamRecvdSendInflight, Some CRequestBodySent => Some SendingBody
  | None, None, None, Some CBodySendWithEarlyResponse => Some EarlyResponse
  | Some CRequestBodyRecvd, None, Some CEarlyUpstreamRecvd, None => Some ReadingRequestBody
  | None, None, Some CUpstreamResponse, None => Some AwaitingResponse
  | None, Some CProxyResponseSent, None, None => Some SendingResponse
  | None, Some CResponseHeaderSent, None, None => Some SendingHead
  | None, Some CResponseBodySent, None, None => Some SendingResponseBody
  | None, None, Some CResponseBodyRecvd, None => Some ReadingResponseBody
  | None, None, None, None => Some Suspended
  | _, _, _, _ => None
  end.

(** The slots of a phase. *)
Definition slots_of (p : phase) : option Callback * option Callback * option Callback * option Callback :=
  match p with
  | Waiting => (Some CHeaderReceived, None, None, None)
  | ReadingHandlerBody => (Some CJitRequestBodyRecvd, None, None, None)
  | Connecting => (None, None, None, Some CUpstreamConnected)
  | Responding => (None, Some CResponseSent, None, None)
  | SendingRequest => (None, None, Some CEarlyUpstreamRecvdSendInflight, Some CUpstreamRequestSent)
  | SendingBody => (None, None, Some CEarlyUpstreamRecvdSendInflight, Some CRequestBodySent)
  | EarlyResponse => (None, None, None, Some CBodySendWithEarlyResponse)
  | ReadingRequestBody => (Some CRequestBodyRecvd, None, Some CEarlyUpstreamRecvd, None)
  | AwaitingResponse => (None, None, Some CUpstreamResponse, None)
  | SendingResponse => (None, Some CProxyResponseSent, None, None)
  | SendingHead => (None, Some CResponseHeaderSent, None, None)
  | SendingResponseBody => (None, Some CResponseBodySent, None, None)
  | ReadingResponseBody => (None, None, Some CResponseBodyRecvd, None)
  | Suspended => (None, None, None, None)
  end.

Lemma phase_of_inv r s ur us p : phase_of r s ur us = Some p -> (r, s, ur, us) = slots_of p.
Proof.
  destruct r as [[]|]; try discriminate; destruct s as [[]|]; try discriminate;
    destruct ur as [[]|]; try discriminate; destruct us as [[]|]; try discriminate; by intros [= <-].
Qed.

Definition conn_phase (c : Connection) : option phase :=
  phase_of (on_recv c) (on_send c) (on_upstream_recv c) (on_upstream_send c).

(** What the callbacks of a phase rely on. *)
Definition phase_facts (p : phase) (c : Connection) : Prop :=
  match p with
  | Waiting => ~ busy c /\ calm c /\ no_stash c
  | ReadingHandlerBody | Connecting => busy c /\ calm c /\ no_stash c
  | Responding => busy c /\ calm c /\ (no_stash c \/ Connection.keep_alive c = false)
  | SendingRequest | SendingBody | EarlyResponse | ReadingRequestBody =>
      busy c /\ calm c /\ no_stash c /\ has_upstream c
  | AwaitingResponse | SendingResponse => busy c /\ calm c /\ stash_ok c /\ has_upstream c
  | SendingHead | SendingResponseBody | ReadingResponseBody =>
      busy c /\ calm c /\ (stash_ok c \/ Connection.keep_alive c = false) /\ has_upstream c
  | Suspended => busy c /\ ~ calm c /\ no_stash c
  end.

Definition phase_ok (c : Connection) : Prop := exists p, conn_phase c = Some p /\ phase_facts p c.

Definition closed (c : Connection) : Prop :=
  on_recv c = None /\ on_send c = None /\ on_upstream_recv c = None /\ on_upstream_send c = None /\
  calm c /\ req_start_us c = 0 /\ fd c = -1 /\ upstream_fd c = -1 /\
  recv_buf c = null_buffer /\ send_buf c = null_buffer /\ upstream_recv_buf c = null_buffer /\
  length (req_path c) = kMaxReqPathLen.

(** What the operations of an open connection add up to; [mt]: metrics are on. *)
Definition due (mt : bool) (c : Connection) : Tally :=
  let b := if req_start_us c =? 0 then 0 else 1 in
  mkTally b (if mt then b else 0) (2 + Z.b2z (bound (upstream_recv_buf c))) 1 (if mt then 1 else 0) 0.

Definition conn_inv {SL : Slot} (mt : bool) (c : Connection) (k : Tally) : Prop :=
  (closed c /\ k = tzero) \/ (base c /\ phase_ok c /\ k = due mt c).

(** ** Lemmas on the invariant *)

Lemma u32_nonneg z : 0 <= u32 z.
Proof. unfold u32, wrap. apply Z.mod_pos_bound. lia. Qed.
Lemma u32_range z : 0 <= u32 z < 2 ^ 32.
Proof. unfold u32, wrap. apply Z.mod_pos_bound. lia. Qed.

(** Read the fields of an updated connection. *)
Ltac conn_simpl :=
  cbn [on_recv on_send on_upstream_recv on_upstream_send fd Connection.id Connection.state shard_id
       upstream_fd upstream_idx handler_state pending_yield_kind resume_event_kind resume_event_result
       handler_ctx pending_handler_fn handler_gen request_config yield_timer_gen Connection.keep_alive
       pipeline_depth pipeline_stash_len req_header_end req_content_length req_initial_send_len req_malformed
       req_body_mode req_body_remaining req_chunk_parser resp_body_mode resp_body_remaining resp_chunk_parser
       resp_body_sent upstream_send_len recv_armed send_armed upstream_recv_armed upstream_send_armed
       yield_armed yield_timeout_armed resp_status req_method req_size peer_addr req_path req_path_canon
       upstream_us upstream_name upstream_start_us capture_buf capture_header_len req_start_us pending_ops
       recv_buf send_buf upstream_recv_buf with_on_recv with_on_send with_on_upstream_recv
       with_on_upstream_send with_fd with_id with_state with_shard_id with_upstream_fd with_upstream_idx
       with_handler_state with_pending_yield_kind with_resume_event_kind with_resume_event_result
       with_handler_ctx with_pending_handler_fn with_handler_gen with_request_config with_yield_timer_gen
       with_keep_alive with_pipeline_depth with_pipeline_stash_len with_req_header_end
       with_req_content_length with_req_initial_send_len with_req_malformed with_req_body_mode
       with_req_body_remaining with_req_chunk_parser with_resp_body_mode with_resp_body_remaining
       with_resp_chunk_parser with_resp_body_sent with_upstream_send_len with_recv_armed with_send_armed
       with_upstream_recv_armed with_upstream_send_armed with_yield_armed with_yield_timeout_armed
       with_resp_status with_req_method with_req_size with_peer_addr with_req_path with_req_path_canon
       with_upstream_us with_upstream_name with_upstream_start_us with_capture_buf with_capture_header_len
       with_req_start_us with_pending_ops with_recv_buf with_send_buf with_upstream_recv_buf set_slots].

(** Split a hypothesis [base c]; prove the base of an updated connection from
    the parts at hand. *)
Ltac base_parts H :=
  destruct H as (?Hrb & ?Hsb & ?Hub & ?Hrp & (?Hqw & ?Hqr) & ?Hrc & ?Hrr & ?Hri & ?Hul & ?Hcb & ?Hcf & ?Hfd & ?Hid).
Ltac base_join :=
  unfold base, body_state_ok, ubuf, capture_ok, config_ok in *; conn_simpl; split_and!;
  first [assumption | right; assumption | apply u32_range | lia | idtac].

(** The invariant of an updated connection. *)
Lemma inv_open {SL : Slot} mt c k p :
  base c -> conn_phase c = Some p -> phase_facts p c -> k = due mt c -> conn_inv mt c k.
Proof. intros. right. split_and!; [done | by exists p | done]. Qed.

Ltac facts_simpl :=
  unfold phase_facts, busy, calm, no_stash, has_upstream, stash_ok in *; conn_simpl; split_and!;
  try assumption; try tauto.
Ltac to_phase p :=
  apply (inv_open _ _ _ p); [base_join | first [assumption | reflexivity] | facts_simpl |
    try first [reflexivity | unfold due; conn_simpl; by rewrite !rbuf_bound by assumption]].

Lemma due_upstream mt c b :
  bound b = bound (upstream_recv_buf c) -> due mt (with_upstream_recv_buf b c) = due mt c.
Proof. intros H. unfold due. cbn [upstream_recv_buf with_upstream_recv_buf req_start_us]. by rewrite H. Qed.

Lemma length_terminated a : length a = kMaxReqPathLen -> length (store_at a 0 [0]) = kMaxReqPathLen.
Proof. intros H. rewrite length_store_at; [done|]. rewrite H. unfold kMaxReqPathLen. cbn. lia. Qed.

(** Name the current connection; what is due is unchanged by the last updates. *)
Ltac now_at x :=
  lazymatch goal with
  | |- ok _ ?X (due ?m ?c) _ =>
      assert (due m c = due m X) as -> by (unfold due; conn_simpl; first [reflexivity | by rewrite !rbuf_bound by assumption]); set (x := X)
  end.

Section callbacks_inv.
Context {SL : Slot} (env : Env) (Henv : env_ok env) (Sc : Scanners) (HS : ScannersOk Sc).

#[local] Abbreviation mt := (e_metrics env).
#[local] Abbreviation inv := (fun _ : unit => conn_inv mt).

Lemma closed_reset c : length (req_path c) = kMaxReqPathLen -> closed (conn_reset c).
Proof. intros H. unfold closed. split_and!; try done. by apply length_terminated. Qed.

Lemma free_conn_ok c k :
  rbuf (recv_buf c) -> sbuf (send_buf c) -> length (req_path c) = kMaxReqPathLen -> Connection.id c = slot_id ->
  k = mkTally 0 0 (2 + Z.b2z (bound (upstream_recv_buf c))) 1 0 0 ->
  ok free_conn c k (fun _ c' k' => closed c' /\ k' = tzero).
Proof.
  intros Hr Hs Hp Hid ->. unfold free_conn. ok_steps. rewrite (rbuf_bound _ Hr), (sbuf_bound _ Hs).
  do 2 (apply ok_when_emit; ok_steps). apply ok_when_emit. ok_steps. apply ok_emit.
  split; [by apply closed_reset|]. cbn [tally_of]. rewrite Hid, Z.eqb_refl. by destruct (bound (upstream_recv_buf c)).
Qed.

(** Closing is always possible and gives everything back. *)
Lemma close_conn_closed c :
  base c -> ok (close_conn env) c (due mt c) (fun _ c' k' => closed c' /\ k' = tzero).
Proof.
  intros H. base_parts H. unfold close_conn. ok_steps. apply ok_when_emit. ok_steps.
  apply ok_when; [intros _; ok_steps | lia].
  apply ok_when; intros Hm; [ok_steps; apply ok_when_emit; apply ok_emit|];
    apply free_conn_ok; try assumption; unfold due; rewrite Hm; destruct (req_start_us c =? 0);
    unfold tadd; cbn; f_equal; lia.
Qed.

Lemma close_conn_ok c : base c -> ok (close_conn env) c (due mt c) inv.
Proof. intros H. eapply ok_mono; [by apply close_conn_closed|]. intros ? c' k' Hc. by left. Qed.

(** ** Local responses *)

Lemma send_all_ok c k Q : sbuf (send_buf c) -> Q tt c k -> ok send_all c k Q.
Proof.
  intros [Hw _] HQ. unfold send_all. ok_steps. eapply ok_lift; [by apply data_all|]. by ok_steps.
Qed.

Lemma static_step code keep c k Q :
  sbuf (send_buf c) -> (forall b, sbuf b -> Q tt (with_send_buf b c) k) ->
  ok (step_conn (format_static_response code keep)) c k Q.
Proof.
  intros H HQ. destruct (format_static_total code keep c H) as (b & Hf & Hb).
  eapply ok_step_conn; [exact Hf | by apply HQ].
Qed.

Lemma write_step l c k Q :
  sbuf (send_buf c) -> (forall b, sbuf b -> Q tt (with_send_buf b c) k) -> ok (step_conn (send_write l)) c k Q.
Proof.
  intros H HQ. destruct (send_write_total l c H) as (b & Hf & Hb). eapply ok_step_conn; [exact Hf | by apply HQ].
Qed.

Lemma send_reset_step c k Q :
  sbuf (send_buf c) -> (forall b, sbuf b -> Q tt (with_send_buf b c) k) -> ok (step_conn send_reset) c k Q.
Proof.
  intros H HQ. destruct (send_reset_total c H) as (b & Hf & Hb & _).
  eapply ok_step_conn; [exact Hf | by apply HQ].
Qed.

Lemma fail_with_ok code c : base c -> busy c -> calm c -> ok (fail_with code) c (due mt c) inv.
Proof.
  intros H Hb Hc. base_parts H. unfold fail_with. ok_steps. apply static_step; [exact Hsb|]. intros b Hsb'.
  ok_steps. apply send_all_ok; [exact Hsb'|]. to_phase Responding.
Qed.

Lemma fail_handler_ok code c : base c -> busy c -> ok (fail_handler code) c (due mt c) inv.
Proof. intros H Hb. unfold fail_handler. ok_steps. by apply (fail_with_ok code (with_pending_handler_fn None c)). Qed.

Lemma respond_static_ok code keep c :
  base c -> busy c -> calm c -> no_stash c -> ok (respond_static code keep) c (due mt c) inv.
Proof.
  intros H Hb Hc Hs. base_parts H. unfold respond_static. ok_steps. apply static_step; [exact Hsb|]. intros b Hsb'.
  ok_steps. apply send_all_ok; [exact Hsb'|]. to_phase Responding.
Qed.

Lemma respond_default_ok keep c :
  base c -> busy c -> calm c -> no_stash c -> ok (respond_default keep) c (due mt c) inv.
Proof.
  intros H Hb Hc Hs. base_parts H. unfold respond_default. ok_steps. apply send_reset_step; [exact Hsb|].
  intros b Hsb1. ok_steps. apply write_step; [exact Hsb1|]. intros b2 Hsb2. ok_steps.
  apply send_all_ok; [exact Hsb2|]. to_phase Responding.
Qed.

Lemma send_502_ok c : base c -> busy c -> calm c -> ok send_502 c (due mt c) inv.
Proof.
  intros H Hb Hc. base_parts H. unfold send_502. ok_steps. apply send_reset_step; [exact Hsb|].
  intros b Hsb1. ok_steps. apply write_step; [exact Hsb1|]. intros b2 Hsb2. ok_steps.
  apply send_all_ok; [exact Hsb2|]. to_phase Responding.
Qed.

(** ** Compiled handlers *)

Definition at_phase (p : phase) (c : Connection) (k : Tally) : Prop :=
  base c /\ conn_phase c = Some p /\ phase_facts p c /\ k = due mt c.

Lemma at_phase_inv p c k : at_phase p c k -> conn_inv mt c k.
Proof. intros (? & ? & ? & ?). by eapply inv_open. Qed.

Lemma schedule_step ms c k Q :
  (forall r v, Q r (with_yield_armed v c) k) -> ok (schedule_yield_timer env ms) c k Q.
Proof.
  intros H. unfold schedule_yield_timer. ok_steps. apply ok_when; intros _; ok_steps; [apply H|].
  replace c with (with_yield_armed (yield_armed c) c) by (by destruct c). apply H.
Qed.

Lemma disarm_step c k Q :
  (forall v g, Q tt (with_yield_timer_gen g (with_yield_armed v c)) k) -> ok disarm_yield_timer c k Q.
Proof.
  intros H. unfold disarm_yield_timer. ok_steps. apply ok_when; intros _; [ok_steps; apply H|].
  replace c with (with_yield_timer_gen (yield_timer_gen c) (with_yield_armed (yield_armed c) c)) by (by destruct c).
  apply H.
Qed.

Lemma timer_yield_ok o f c :
  base c -> busy c -> no_stash c -> ok (handle_timer_yield env o (Some f)) c (due mt c) inv.
Proof.
  intros H Hb Hs. base_parts H. unfold handle_timer_yield. ok_steps. apply schedule_step. intros r v.
  destruct r; ok_steps; [to_phase Suspended; done|]. apply static_step; [exact Hsb|]. intros b Hsb'.
  ok_steps. apply send_all_ok; [exact Hsb'|]. to_phase Responding.
Qed.

(** The formatter a return status picks: with headers, with a body, or plain. *)
Lemma format_step code body headers (invalid keep : bool) c k Q :
  sbuf (send_buf c) -> (forall x, body = Some x -> Z.of_nat (length x) <= 8192) ->
  (forall x, headers = Some x -> Z.of_nat (length (mjoin (header_text <$> x))) < 2 ^ 32) ->
  (forall b st ka, sbuf b -> Q tt (with_send_buf b (with_keep_alive ka (with_resp_status st c))) k) ->
  ok (match headers with
      | Some kvs =>
          let '(bytes, fallback) :=
            match body with
            | Some b => (b, false)
            | None => if invalid then (status_reason code, true) else ([], false)
            end in
          step_conn (format_response_with_body_and_headers code bytes kvs keep fallback)
      | None =>
          match body with
          | Some b => step_conn (format_response_with_body code b keep)
          | None => step_conn (format_static_response code keep)
          end
      end) c k Q.
Proof.
  intros Hs Hb Hh HQ.
  assert (forall b, sbuf b -> Q tt (with_send_buf b c) k) as HQ'.
  { intros b Hb'. specialize (HQ b (resp_status c) (Connection.keep_alive c) Hb').
    by replace (with_keep_alive _ _) with c in HQ by (by destruct c). }
  destruct headers as [kvs|].
  - set (p := match body with Some _ => _ | None => _ end).
    assert (Z.of_nat (length p.1) <= 8192) as Hp.
    { subst p. destruct body as [x|]; [by apply Hb|]. pose proof (length_status_reason code).
      destruct invalid; cbn [fst]; [lia | cbn; lia]. }
    destruct p as [bytes fb]. cbn [fst] in Hp.
    destruct (format_full_total code bytes kvs keep fb c Hs Hp (Hh _ eq_refl)) as (b & Hb' & [Hf|Hf]);
      (eapply ok_step_conn; [exact Hf|]); auto.
  - destruct body as [x|].
    + destruct (format_body_total code x keep c Hs (Hb _ eq_refl)) as (b & Hf & Hb').
      eapply ok_step_conn; [exact Hf|]. auto.
    + apply static_step; auto.
Qed.

Lemma return_status_ok o keep c :
  base c -> busy c -> no_stash c -> ok (handle_return_status o keep) c (due mt c) inv.
Proof.
  intros H Hb Hs. base_parts H. unfold handle_return_status. ok_steps. conn_simpl.
  apply format_step; [exact Hsb | | |].
  - intros x. destruct (request_config c) as [cfg|]; [|done]. cbn. apply Hcf.
  - intros x. destruct (request_config c) as [cfg|]; [|done]. cbn. apply Hcf.
  - intros b st ka Hsb'. ok_steps. apply send_all_ok; [exact Hsb'|]. to_phase Responding.
Qed.

(** Dropping an upstream connection touches nothing the invariant sees. *)
Definition redial (v : Z) (r s : bool) (i : Z) (c : Connection) : Connection :=
  with_upstream_send_armed s (with_upstream_recv_armed r (with_upstream_idx i (with_upstream_fd v c))).

Lemma redial_step b c k Q :
  (forall v r s i, Q tt (redial v r s i c) k) ->
  ok (when b (close_upstream;; modify (with_upstream_idx 0);; emit EClearUpstreamFd;;
        modify (with_upstream_recv_armed false);; modify (with_upstream_send_armed false))) c k Q.
Proof.
  intros H. apply ok_when; intros _; [ok_steps; apply H|].
  specialize (H (upstream_fd c) (upstream_recv_armed c) (upstream_send_armed c) (upstream_idx c)).
  by replace (redial _ _ _ _ _) with c in H by (by destruct c).
Qed.

Lemma forward_ok o c : base c -> busy c -> no_stash c -> ok (handle_forward env o) c (due mt c) inv.
Proof.
  intros H Hb Hs. unfold handle_forward. ok_steps. conn_simpl.
  destruct (_ ≫= _) as [target|].
  2: { by apply (fail_with_ok kStatusBadGateway (with_pending_handler_fn None c)). }
  ok_steps. apply redial_step. intros v r s i. ok_steps.
  apply ok_if; intros _.
  - now_at c1. apply fail_with_ok; [|done..].
    subst c1. unfold redial, copy_upstream_name. base_parts H. base_join.
  - base_parts H. ok_steps. unfold redial, copy_upstream_name. to_phase Connecting.
Qed.

(** A handler that waits for an event is suspended, or the request has failed. *)
Lemma event_upstream_ok o c :
  at_phase Suspended c (due mt c) ->
  ok (event_yield_upstream env o) c (due mt c)
    (fun go c' k' => if go then at_phase Suspended c' k' else conn_inv mt c' k').
Proof.
  intros Hat. pose proof Hat as (H & Hp & (Hb & Hc & Hs) & _).
  assert (forall code c1, base c1 -> busy c1 -> due mt c1 = due mt c ->
    ok (fail_handler code) c1 (due mt c) (fun _ c' k' => ok (mret false) c' k'
      (fun go c' k' => if go : bool then at_phase Suspended c' k' else conn_inv mt c' k'))) as Hfail.
  { intros code c1 H1 Hb1 <-. eapply ok_mono; [by apply fail_handler_ok|].
    intros ? c' k' Hinv. ok_steps. exact Hinv. }
  unfold event_yield_upstream. ok_steps. destruct (o_yield_kind o); try (ok_steps; exact Hat).
  - apply ok_if; intros _; ok_steps; [exact Hat|].
    destruct (_ ≫= _) as [target|]; ok_steps; [|by apply Hfail].
    apply ok_if; intros _; ok_steps; [by apply Hfail|]. apply redial_step. intros v r s i. ok_steps.
    base_parts H. apply ok_if; intros _; ok_steps.
    + unfold at_phase. split_and!; [unfold redial; base_join | exact Hp | by split_and! | done].
    + apply Hfail; [unfold redial; base_join | exact Hb | done].
  - apply ok_if; intros _; ok_steps; [|by apply Hfail].
    apply ok_if; intros _; ok_steps; [exact Hat | by apply Hfail].
  - apply ok_if; intros _; ok_steps; [|by apply Hfail]. eapply ok_lift; [apply data_all, H|]. ok_steps.
    apply ok_if; intros _; ok_steps; [exact Hat | by apply Hfail].
Qed.

Lemma event_yield_ok o f c :
  base c -> busy c -> no_stash c -> ok (handle_event_yield env o (Some f)) c (due mt c) inv.
Proof.
  intros H Hb Hs. unfold handle_event_yield. ok_steps. set (c0 := set_slots _ _ _ _ _).
  change (due mt c) with (due mt c0).
  assert (base c0 /\ busy c0) as [H0 Hb0] by (split; [subst c0; base_parts H; base_join | exact Hb]).
  assert (at_phase Suspended c0 (due mt c0)) as Hat.
  { split_and!; [exact H0 | reflexivity | by split_and! | reflexivity]. }
  clearbody c0. set (m := bindM _ _).
  assert (ok m c0 (due mt c0) inv) as Hm.
  { subst m. ok_steps. eapply ok_mono; [by apply event_upstream_ok|]. intros go c1 k1 Hgo.
    destruct go; cbn [negb]; [|ok_steps; exact Hgo]. destruct Hgo as (H1 & Hp1 & (Hb1 & Hc1 & Hs1) & ->).
    ok_steps. set (waits := match o_yield_kind o with YAny | YRecv => true | _ => false end).
    assert (forall v, ok (let* c := get in
        if waits && (0 <=? fd c) && negb (recv_armed c) then
          let* ok := submit_recv env in
          if ok then skip
          else when (yield_armed c) (disarm_yield_timer;; emit ETimerRefresh);; fail_handler 500
        else skip) (with_yield_armed v c1) (due mt c1) inv) as Hlast.
    { intros v. base_parts H1. ok_steps. apply ok_if; intros _; ok_steps.
      - apply ok_if; intros _; ok_steps; [by to_phase Suspended|].
        apply ok_when; intros _.
        + ok_steps. apply disarm_step. intros v' g. ok_steps.
          apply (fail_handler_ok 500 (with_yield_timer_gen g (with_yield_armed v' (with_yield_armed v c1))));
            [base_join | exact Hb1].
        + apply (fail_handler_ok 500 (with_yield_armed v c1)); [base_join | exact Hb1].
      - by to_phase Suspended. }
    assert (forall v, ok (fail_handler 500;; emit ETimerRefresh) (with_yield_armed v c1) (due mt c1) inv) as Hfail.
    { intros v. apply ok_bind. eapply ok_mono; [apply (fail_handler_ok 500 (with_yield_armed v c1))|].
      - base_parts H1. base_join.
      - exact Hb1.
      - intros ? ? ? ?. by ok_steps. }
    apply ok_if; intros _.
    - apply schedule_step. intros r v. destruct r; [apply Hlast | apply Hfail].
    - ok_steps. cbn [negb]. replace c1 with (with_yield_armed (yield_armed c1) c1) at 1 by (by destruct c1). apply Hlast. }
  destruct (o_yield_kind o); try exact Hm. by apply fail_handler_ok.
Qed.

Lemma handle_outcome_ok o f keep c :
  base c -> busy c -> no_stash c -> ok (handle_jit_outcome env o (Some f) keep) c (due mt c) inv.
Proof.
  intros H Hb Hs. unfold handle_jit_outcome. destruct (kind o).
  - by apply return_status_ok.
  - by apply forward_ok.
  - by apply timer_yield_ok.
  - by apply event_yield_ok.
  - by apply fail_handler_ok.
Qed.

Lemma start_handler_ok fn ps keep c :
  base c -> busy c -> no_stash c -> ok (start_handler env fn ps keep) c (due mt c) inv.
Proof.
  intros H Hb Hs. unfold start_handler. ok_steps. unfold invoke_jit_handler. ok_steps.
  eapply ok_lift; [apply data_all, H|]. ok_steps. now_at c1. apply handle_outcome_ok; [|done..].
  subst c1. base_parts H. base_join.
Qed.

Lemma resume_ok c :
  base c -> busy c -> ~ calm c -> no_stash c -> ok (resume_jit_handler env) c (due mt c) inv.
Proof.
  intros H Hb Hc Hs. unfold resume_jit_handler. ok_steps. unfold calm in Hc.
  destruct (pending_handler_fn c) as [fn|]; [|done]. unfold invoke_jit_handler. ok_steps.
  eapply ok_lift; [apply data_all, H|]. ok_steps. now_at c1. apply handle_outcome_ok; [|done..].
  subst c1. base_parts H. base_join.
Qed.

(** ** Requests *)

Lemma match_route_ok c c1 k :
  config_ok (request_config c) ->
  ok (match_route c) c1 k (fun m c' k' => c' = c1 /\ k' = k /\
    forall e, m.1 = Some e -> re_action e = Proxy ->
      exists cfg, request_config c = Some cfg /\ is_Some (upstreams cfg !! Z.to_nat (re_upstream_id e))).
Proof.
  intros Hcf. unfold match_route. destruct (request_config c) as [cfg|].
  - cbn [config_ok] in Hcf. destruct (sv_lookup (cfg := cfg) (canon_bytes c) (req_method c) kMaxRouteParams) as (r & ps & -> & Hr).
    ok_steps. split_and!; [done..|]. cbn. intros e He Ha. exists cfg. eauto.
  - ok_steps. done.
Qed.

Lemma start_proxy_ok r t c :
  base c -> busy c -> calm c -> no_stash c -> ok (start_proxy env r t) c (due mt c) inv.
Proof.
  intros H Hb Hc Hs. unfold start_proxy. ok_steps. apply ok_if; intros _.
  - now_at c1. apply fail_with_ok; [|done..].
    subst c1. unfold copy_upstream_name. base_parts H. base_join.
  - base_parts H. ok_steps. apply ok_if; intros _; ok_steps.
    + unfold copy_upstream_name. to_phase Connecting.
    + now_at c1. apply fail_with_ok; [|done..].
      subst c1. unfold copy_upstream_name. base_join.
Qed.

Lemma dispatch_request_ok keep c :
  base c -> busy c -> calm c -> no_stash c -> ok (dispatch_request env keep) c (due mt c) inv.
Proof.
  intros H Hb Hc Hs. unfold dispatch_request. ok_steps.
  eapply ok_mono; [apply match_route_ok, H|]. intros m c' k' (-> & -> & Hm). cbv beta.
  destruct m as [[r|] ps]; cbn [fst snd] in *; [|by apply respond_default_ok].
  destruct (re_action r) eqn:Ea.
  - by apply respond_static_ok.
  - destruct (Hm r eq_refl Ea) as (cfg & Hcfg & [t Ht]). rewrite Hcfg. cbn [mbind option_bind]. rewrite Ht.
    by apply start_proxy_ok.
  - apply ok_if; intros _; [by apply respond_default_ok|]. apply ok_if; intros _; [by apply fail_with_ok|].
    apply ok_if; intros _; [|by apply start_handler_ok]. base_parts H. ok_steps. to_phase ReadingHandlerBody.
Qed.

(** What capturing the metadata of a request leaves alone. *)
Definition kept (c c' : Connection) : Prop :=
  pending_handler_fn c' = pending_handler_fn c /\ pipeline_stash_len c' = pipeline_stash_len c /\
  upstream_recv_buf c' = upstream_recv_buf c /\ req_start_us c' = req_start_us c.

Lemma capture_step c k Q :
  base c ->
  (forall c', base c' -> 0 <= req_header_end c' <= len (recv_buf c') -> kept c c' -> Q tt c' k) ->
  ok (step_conn (capture_request_metadata (Sc := Sc))) c k Q.
Proof.
  intros H HQ. base_parts H. pose proof Hrb as (Hw & _ & Hby).
  destruct (capture_total Sc HS c Hw Hby Hrp) as (c' & Hc & (Hp' & _ & Hi & He & Hbo) & Hio).
  eapply ok_step_conn; [exact Hc|].
  unfold io_part in Hio. injection Hio as E1 E2 E3 E4 E5 E6 E7 E8 E9 E10 E11 E12 E13 E14 E15 E16 E17 E18 E19 E20 E21.
  apply HQ; [|done|by split_and!].
  unfold base. rewrite E1, E2, E3, E4, E15, E16, E17, E18, E20, E21. split_and!; try assumption; lia || apply Hbo.
Qed.

Lemma stage_total c :
  rbuf (recv_buf c) -> capture_ok (capture_buf c) -> 0 <= req_header_end c <= len (recv_buf c) ->
  exists n o, capture_stage_headers c = Ret (with_capture_buf o (with_capture_header_len n c)) /\ capture_ok o.
Proof.
  intros Hr Hc He. pose proof (rbuf_len _ Hr). destruct Hr as (Hw & _).
  assert (forall n, with_capture_header_len n c = with_capture_buf (capture_buf c) (with_capture_header_len n c)) as Heta
    by by destruct c.
  unfold capture_stage_headers. conn_simpl. destruct (capture_buf c) as [s|] eqn:Es; [|exists 0, None; by rewrite <- Heta].
  pose proof Hw as (_ & -> & Hp). destruct (ptr (recv_buf c)); [|done].
  set (n := if req_header_end c =? 0 then _ else _).
  assert (0 <= n <= len (recv_buf c)) as Hn by (subst n; case_if; lia).
  destruct (n =? 0); [exists 0, (Some s); by rewrite <- Heta|].
  set (m := if kMaxHeaderLen <? n then kMaxHeaderLen else n).
  assert (0 <= m <= n /\ m <= kMaxHeaderLen) as [Hm1 Hm2].
  { subst m. unfold kMaxHeaderLen in *. destruct (Z.ltb_spec 8192 n); lia. }
  rewrite data_prefix by (done || lia). cbn [mbind res_bind].
  pose proof (length_contents _ Hw). cbn [capture_ok] in Hc.
  assert (length (take (Z.to_nat m) (contents (recv_buf c))) = Z.to_nat m) as Hl by (rewrite length_take; lia).
  rewrite store_ok by lia. cbn [mbind res_bind]. set (s' := take 0 s ++ _).
  assert (length s' = length s) as Hs' by (subst s'; simp_len; lia).
  exists (u16 m), (Some s'). split; [by destruct c | cbn [capture_ok]; lia].
Qed.

Lemma stage_step b c k Q :
  base c -> 0 <= req_header_end c <= len (recv_buf c) ->
  (forall c', base c' -> kept c c' -> Q tt c' k) -> ok (when b (step_conn capture_stage_headers)) c k Q.
Proof.
  intros H He HQ. apply ok_when; intros _; [|by apply HQ].
  destruct (stage_total c) as (n & o & Hs & Ho); [apply H | apply H | done |].
  eapply ok_step_conn; [exact Hs|]. apply HQ; [|by split_and!]. base_parts H. base_join.
Qed.

Lemma incomplete_ok c k :
  rbuf (recv_buf c) -> ok (incomplete_pipelined (Sc := Sc) c) c k (fun _ c' k' => c' = c /\ k' = k).
Proof.
  intros (Hw & _ & Hb). unfold incomplete_pipelined. apply ok_if; intros _; ok_steps; [|done].
  eapply ok_lift; [by apply data_all|].
  destruct (parse_total Sc HS _ blank_request Hb) as [out ->]. by ok_steps.
Qed.

(** A request arrives, or the connection ends, on an idle connection. *)
Lemma header_received_ok result c :
  base c -> ~ busy c -> calm c -> no_stash c ->
  ok (on_header_received env (Sc := Sc) result) c (due mt c) inv.
Proof.
  intros H Hb Hc Hs. unfold on_header_received. apply ok_if; intros _; [by apply close_conn_ok|].
  ok_steps. eapply ok_mono; [apply incomplete_ok, H|]. intros wait ? ? [-> ->]. cbv beta.
  apply ok_if; intros _; ok_steps.
  { base_parts H. to_phase Waiting. }
  apply capture_step; [exact H|]. intros c1 H1 He (Kp & Ks & Ku & Kt). ok_steps.
  apply stage_step; [base_parts H1; base_join | exact He |]. conn_simpl. intros c2 H2 (Kp2 & Ks2 & Ku2 & Kt2).
  revert Kp2 Ks2 Ku2 Kt2. conn_simpl. intros Kp2 Ks2 Ku2 Kt2.
  ok_step. apply ok_emit. ok_step. apply ok_when_emit. ok_steps.
  match goal with |- ok _ ?c3 ?k _ => assert (k = due mt c3) as -> end.
  { unfold due. conn_simpl. rewrite Ku2, Ku, Kt2, (proj2 (Z.eqb_neq _ _) (eo_now _ Henv n)).
    unfold busy in Hb. destruct (Z.eqb_spec (req_start_us c) 0); [|lia].
    unfold tadd. destruct mt; cbn [t_epoch t_active t_slices tally_of]; f_equal; lia. }
  apply dispatch_request_ok.
  - pose proof (eo_config _ Henv n1) as Hcfg. destruct (e_config env n1) as [cfg|];
      [specialize (Hcfg cfg eq_refl)|]; base_parts H2; base_join; done.
  - unfold busy. conn_simpl. rewrite Kt2. apply (eo_now _ Henv).
  - unfold calm in *. conn_simpl. congruence.
  - unfold no_stash in *. conn_simpl. congruence.
Qed.

Lemma pipeline_dispatch_ok c :
  base c -> ~ busy c -> calm c -> no_stash c -> ok (pipeline_dispatch env (Sc := Sc)) c (due mt c) inv.
Proof.
  intros H Hb Hc Hs. unfold pipeline_dispatch. ok_steps. now_at c1. by apply header_received_ok.
Qed.

Lemma recv_reset_step c k Q :
  rbuf (recv_buf c) -> (forall b, rbuf b -> len b = 0 -> Q tt (with_recv_buf b c) k) ->
  ok (step_conn recv_reset) c k Q.
Proof.
  intros H HQ. destruct (recv_reset_total c H) as (b & Hf & Hb & Hl). eapply ok_step_conn; [exact Hf | by apply HQ].
Qed.

Lemma upstream_reset_step c k Q :
  rbuf (upstream_recv_buf c) -> (forall b, rbuf b -> len b = 0 -> Q tt (with_upstream_recv_buf b c) k) ->
  ok (step_conn upstream_recv_reset) c k Q.
Proof.
  intros H HQ. destruct (upstream_reset_total c H) as (b & Hf & Hb & Hl). eapply ok_step_conn; [exact Hf | by apply HQ].
Qed.

Lemma await_request_ok c :
  base c -> ~ busy c -> calm c -> no_stash c -> ok (await_request env) c (due mt c) inv.
Proof.
  intros H Hb Hc Hs. base_parts H. unfold await_request. ok_steps. apply recv_reset_step; [exact Hrb|].
  intros b Hrb' _. ok_steps. to_phase Waiting.
Qed.

Lemma jit_body_ok result c :
  base c -> busy c -> calm c -> no_stash c -> ok (on_jit_request_body_recvd env result) c (due mt c) inv.
Proof.
  intros H Hb Hc Hs. unfold on_jit_request_body_recvd. apply ok_if; intros _; [by apply close_conn_ok|].
  ok_steps. apply ok_if; intros _; [by apply close_conn_ok|]. ok_steps. base_parts H.
  apply ok_if; intros _; ok_steps; [to_phase ReadingHandlerBody|].
  eapply ok_mono; [apply match_route_ok; exact Hcf|]. intros m ? ? (-> & -> & _). cbv beta. now_at c1.
  assert (base c1) as H1 by (subst c1; base_join).
  destruct m.1 as [r|]; [|by apply close_conn_ok]. apply ok_if; intros _; [by apply start_handler_ok | by apply close_conn_ok].
Qed.

(** The end of a request: the epoch is left and the request is no longer active. *)
Lemma complete_step status size c (rest : unit -> M unit) Q :
  busy c -> ok (rest tt) (with_req_start_us 0 c) (due mt (with_req_start_us 0 c)) Q ->
  ok (on_request_complete env status size ≫= fun _ => emit EEpochLeave ≫= rest) c (due mt c) Q.
Proof.
  intros Hb HQ. unfold on_request_complete. ok_steps. apply ok_when_emit. ok_steps.
  assert (tadd (if mt then tadd (due mt c) (mkTally 0 (-1) 0 0 0 0) else due mt c) (mkTally (-1) 0 0 0 0 0) =
    due mt (with_req_start_us 0 c)) as Hk.
  { unfold due, tadd. conn_simpl. unfold busy in Hb. destruct (Z.eqb_spec (req_start_us c) 0); [done|].
    destruct mt; cbn [t_epoch t_active t_slices t_slot t_open t_stray Z.eqb]; f_equal; lia. }
  rewrite <- Hk in HQ. conn_simpl. destruct (capture_buf c); ok_steps; by apply ok_emit.
Qed.

Lemma shift_step c k Q :
  rbuf (recv_buf c) -> 0 <= req_initial_send_len c ->
  (forall more d b, rbuf b -> Q more (with_pipeline_depth d (with_recv_buf b c)) k) ->
  ok (step_conn_val pipeline_shift) c k Q.
Proof.
  intros Hr Hi HQ. destruct (pipeline_shift_total c Hr Hi) as [Hs|(b & Hs & Hb)];
    (eapply ok_step_conn_val; [exact Hs|]); [|by apply HQ].
  specialize (HQ false (pipeline_depth c) (recv_buf c) Hr).
  by replace (with_pipeline_depth _ _) with c in HQ by (by destruct c).
Qed.

Lemma next_local_ok c :
  base c -> ~ busy c -> calm c -> no_stash c ->
  ok (let* more := step_conn_val pipeline_shift in
      if more then pipeline_dispatch env (Sc := Sc) else await_request env) c (due mt c) inv.
Proof.
  intros H Hb Hc Hs. ok_steps. apply shift_step; [apply H | apply H |]. intros more d b Hrb'. now_at c1.
  assert (base c1) as H1 by (subst c1; base_parts H; base_join).
  destruct more; [by apply pipeline_dispatch_ok | by apply await_request_ok].
Qed.

Lemma response_sent_ok result c :
  base c -> phase_facts Responding c -> ok (on_response_sent env (Sc := Sc) result) c (due mt c) inv.
Proof.
  intros H (Hb & Hc & Hs). unfold on_response_sent. ok_steps. conn_simpl.
  now_at c0. assert (base c0) as H0 by (subst c0; base_parts H; base_join).
  apply ok_if; intros _; [by apply close_conn_ok|]. apply ok_if; intros _; [by apply close_conn_ok|].
  apply complete_step; [exact Hb|]. clear H0. subst c0. base_parts H. ok_steps. conn_simpl. now_at c1.
  assert (base c1) as H1 by (subst c1; base_join).
  apply ok_if; intros Hka; zify_bool; [by apply close_conn_ok|].
  apply next_local_ok; [exact H1 | by intros [] | exact Hc |].
  destruct Hs as [Hs|Hs]; [exact Hs | congruence].
Qed.

(** ** Responses of the upstream *)

Lemma upstream_write_step src c k Q :
  rbuf (upstream_recv_buf c) -> Forall is_byte src -> Z.of_nat (length src) <= 16384 - len (upstream_recv_buf c) ->
  (forall b, rbuf b -> contents b = contents (upstream_recv_buf c) ++ src -> Q tt (with_upstream_recv_buf b c) k) ->
  ok (step_conn (fun c => r ← write (upstream_recv_buf c) src; Ret (with_upstream_recv_buf r.2 c))) c k Q.
Proof.
  intros Hu Hs Hl HQ. destruct (rbuf_write _ src Hu Hs) as (n & b & Hw & Hb & Hct & ->).
  apply (ok_step_conn _ _ (with_upstream_recv_buf b c)); [by rewrite Hw|]. apply HQ; [done|].
  rewrite Hct, take_ge by lia. done.
Qed.

Lemma recv_write_step src c k Q :
  rbuf (recv_buf c) -> Forall is_byte src ->
  (forall b, rbuf b -> Q tt (with_recv_buf b c) k) ->
  ok (step_conn (fun c => r ← write (recv_buf c) src; Ret (with_recv_buf r.2 c))) c k Q.
Proof.
  intros Hu Hs HQ. destruct (rbuf_write _ src Hu Hs) as (n & b & Hw & Hb & _).
  apply (ok_step_conn _ _ (with_recv_buf b c)); [by rewrite Hw|]. by apply HQ.
Qed.

(** The stash and the bytes behind it become the next request. *)
Lemma rejoin_ok c :
  base c -> ~ busy c -> calm c -> has_upstream c ->
  forall n, 0 <= n <= len (send_buf c) -> Forall is_byte (contents (send_buf c)) ->
  ok (modify (with_pipeline_stash_len 0);;
      step_conn upstream_recv_reset;;
      let* late := lift (data_at (recv_buf c) 0 (len (recv_buf c))) in
      step_conn (fun c => r ← write (upstream_recv_buf c) late; Ret (with_upstream_recv_buf r.2 c));;
      step_conn recv_reset;;
      let* stash := lift (data_at (send_buf c) 0 n) in
      step_conn (fun c => r ← write (recv_buf c) stash; Ret (with_recv_buf r.2 c));;
      let* c' := get in
      let* late2 := lift (data_at (upstream_recv_buf c') 0 (len (recv_buf c))) in
      step_conn (fun c => r ← write (recv_buf c) late2; Ret (with_recv_buf r.2 c));;
      step_conn upstream_recv_reset;;
      step_conn send_reset;;
      modify (fun c => with_pipeline_depth (u16 (pipeline_depth c + 1)) c);;
      pipeline_dispatch env (Sc := Sc)) c (due mt c) inv.
Proof.
  intros H Hb Hc Hu n Hn Hby. base_parts H. pose proof (rbuf_len _ Hrb) as Hrl. ok_steps.
  apply upstream_reset_step; [exact Hu|]. intros u1 Hu1 Hl1. ok_steps.
  eapply ok_lift; [apply data_all, Hrb|]. ok_steps.
  apply upstream_write_step; [exact Hu1 | apply Hrb | conn_simpl; rewrite (rbuf_contents _ Hrb); lia |].
  conn_simpl. intros u2 Hu2 Hct2. ok_steps.
  assert (len u2 = len (recv_buf c)) as Hl2.
  { rewrite <- (rbuf_contents _ Hu2), Hct2, length_app, Nat2Z.inj_add, (rbuf_contents _ Hu1), (rbuf_contents _ Hrb). lia. }
  apply recv_reset_step; [exact Hrb|]. intros r1 Hr1 _. ok_steps.
  eapply ok_lift; [by apply data_prefix; [apply Hsb|]|]. ok_steps.
  apply recv_write_step; [exact Hr1 | by apply Forall_take |]. intros r2 Hr2. ok_steps. conn_simpl.
  eapply ok_lift; [rewrite <- Hl2; apply data_all, Hu2|]. ok_steps.
  apply recv_write_step; [exact Hr2 | apply Hu2 |]. intros r3 Hr3. ok_steps.
  apply upstream_reset_step; [exact Hu2|]. intros u3 Hu3 _. ok_steps.
  apply send_reset_step; [exact Hsb|]. intros s1 Hs1. ok_steps.
  assert (rbuf (upstream_recv_buf c)) by exact Hu. now_at c1.
  apply pipeline_dispatch_ok; [subst c1; base_join | exact Hb | exact Hc | reflexivity].
Qed.

Lemma next_after_proxy_ok c :
  base c -> ~ busy c -> calm c -> stash_ok c -> has_upstream c ->
  ok (next_after_proxy env (Sc := Sc)) c (due mt c) inv.
Proof.
  intros H Hb Hc Hs Hu. unfold next_after_proxy. do 2 ok_step.
  destruct ((0 <? pipeline_stash_len c) && (0 <? len (recv_buf c))) eqn:E.
  - zify_bool. apply ok_if; intros Efit.
    + ok_steps. base_parts H. apply send_reset_step; [exact Hsb|]. intros b Hsb'. now_at c1.
      apply close_conn_ok. subst c1. base_join.
    + destruct Hs as [Hs|[Hs Hby]]; [lia|]. by apply rejoin_ok.
  - clear E. base_parts H. destruct (pipeline_recover_total c Hrb Hsb Hs) as [Hr|(b & sb & Hr & Hrb' & Hsb')]; ok_steps.
    + eapply ok_step_conn_val; [exact Hr|]. cbv beta iota. ok_steps. apply ok_if; intros _; ok_steps; now_at c1.
      * apply pipeline_dispatch_ok; [subst c1; base_join | exact Hb | exact Hc | reflexivity].
      * apply await_request_ok; [subst c1; base_join | exact Hb | exact Hc | reflexivity].
    + eapply ok_step_conn_val; [exact Hr|]. cbv beta iota. now_at c1.
      apply pipeline_dispatch_ok; [subst c1; base_join | exact Hb | exact Hc | reflexivity].
Qed.

Lemma drop_upstream_step c k Q :
  (forall v i, Q tt (redial v false false i c) k) -> ok drop_upstream c k Q.
Proof.
  intros H. unfold drop_upstream. ok_steps. specialize (H v (upstream_idx c)).
  unfold redial in H. by replace (with_upstream_idx (upstream_idx c) _) with (with_upstream_fd v c) in H by by destruct c.
Qed.

Lemma proxy_sent_ok result c :
  base c -> phase_facts SendingResponse c -> ok (on_proxy_response_sent env (Sc := Sc) result) c (due mt c) inv.
Proof.
  intros H (Hb & Hc & Hs & Hu). unfold on_proxy_response_sent. ok_steps. conn_simpl. base_parts H.
  apply ok_if; intros _.
  { now_at c0. apply close_conn_ok. subst c0. base_join. }
  now_at c0. apply complete_step; [exact Hb|]. subst c0. ok_steps. apply ok_if; intros _.
  { apply close_conn_ok. base_join. }
  ok_steps. apply upstream_reset_step; [exact Hu|]. intros u Hu' _. ok_steps. apply drop_upstream_step.
  intros v i. assert (rbuf (upstream_recv_buf c)) by exact Hu. now_at c1.
  apply next_after_proxy_ok; [subst c1; unfold redial; base_join | by intros [] | exact Hc | exact Hs | exact Hu'].
Qed.

Lemma drain_response_step data c k Q :
  wf (resp_chunk_parser c) ->
  (forall r p, wf p -> match r with Some (n, _) => (n <= length data)%nat | None => True end ->
     Q r (with_resp_chunk_parser p c) k) ->
  ok (step_conn_val (drain_response data)) c k Q.
Proof.
  intros Hw HQ. destruct (drain_run _ data Hw) as (e & p & n & b & Hd & Hn & Hwp & _).
  eapply ok_step_conn_val; [unfold drain_response; rewrite Hd; reflexivity|]. cbn [dr_parser dr_end dr_consumed].
  apply HQ; [done|]. by destruct e.
Qed.

(** The facts a connection that streams a response body keeps. *)
Lemma body_recvd_ok result c :
  base c -> busy c -> calm c -> stash_ok c \/ Connection.keep_alive c = false -> has_upstream c ->
  ok (on_response_body_recvd env result) c (due mt c) inv.
Proof.
  intros H Hb Hc Hs Hu. unfold on_response_body_recvd. ok_steps. apply ok_if; intros _.
  { apply ok_if; intros _; [|by apply close_conn_ok]. apply complete_step; [exact Hb|].
    apply close_conn_ok. base_parts H. base_join. }
  base_parts H. pose proof (rbuf_len _ Hu) as Hl. assert (writable (upstream_recv_buf c)) as Hw by apply Hu.
  ok_steps. destruct (resp_body_mode c); ok_steps.
  3: { eapply ok_lift; [by apply data_all|]. ok_steps. apply drain_response_step; [exact Hrc|].
       intros r p Hp Hr. ok_steps. rewrite <- (rbuf_contents _ Hu) in Hl. destruct r as [[n d]|]; ok_steps.
       - eapply ok_lift; [apply data_prefix; [exact Hw | rewrite <- (rbuf_contents _ Hu); lia]|]. ok_steps.
         to_phase SendingResponseBody.
       - now_at c1. apply close_conn_ok. subst c1. base_join. }
  all: eapply ok_lift; [apply data_prefix; [exact Hw | lia]|]; ok_steps; to_phase SendingResponseBody.
Qed.

Lemma continue_body_ok n c :
  base c -> busy c -> calm c -> stash_ok c \/ Connection.keep_alive c = false -> has_upstream c ->
  ok (continue_body env n) c (due mt c) inv.
Proof.
  intros H Hb Hc Hs Hu. unfold continue_body. base_parts H. ok_steps. apply ok_if; intros _.
  - now_at c1. apply body_recvd_ok; [subst c1; base_join | done..].
  - ok_steps. to_phase ReadingResponseBody.
Qed.

Lemma consume_step c k Q :
  rbuf (upstream_recv_buf c) -> 0 <= upstream_send_len c ->
  (forall n b, rbuf b -> Q n (with_upstream_recv_buf b (with_upstream_send_len 0 c)) k) ->
  ok (step_conn_val consume_upstream_sent) c k Q.
Proof.
  intros Hu Hs HQ. destruct (consume_upstream_total c Hu Hs) as (n & b & Hf & Hb).
  eapply ok_step_conn_val; [exact Hf | by apply HQ].
Qed.

Lemma header_sent_ok result c :
  base c -> phase_facts SendingHead c -> ok (on_response_header_sent env result) c (due mt c) inv.
Proof.
  intros H (Hb & Hc & Hs & Hu). unfold on_response_header_sent. apply ok_if; intros _; [by apply close_conn_ok|].
  base_parts H. assert (rbuf (upstream_recv_buf c)) as Hu0 by exact Hu. ok_steps.
  apply consume_step; [exact Hu | exact Hul |]. intros n b Hb'. cbv beta. now_at c1. apply ok_if; intros _.
  - apply body_recvd_ok; [subst c1; base_join | exact Hb | exact Hc | exact Hs | exact Hb'].
  - ok_steps. subst c1. to_phase ReadingResponseBody.
Qed.

Lemma body_sent_ok result c :
  base c -> phase_facts SendingResponseBody c -> ok (on_response_body_sent env (Sc := Sc) result) c (due mt c) inv.
Proof.
  intros H (Hb & Hc & Hs & Hu). unfold on_response_body_sent. apply ok_if; intros _; [by apply close_conn_ok|].
  base_parts H. assert (rbuf (upstream_recv_buf c)) as Hu0 by exact Hu. ok_steps.
  apply consume_step; [exact Hu | exact Hul |]. intros n b Hb'. ok_steps. now_at c1.
  apply ok_if; intros _; [|apply continue_body_ok; [subst c1; base_join | exact Hb | exact Hc | exact Hs | exact Hb']].
  ok_steps. apply upstream_reset_step; [exact Hb'|]. intros u Hu' _. subst c1. conn_simpl. now_at c2.
  apply complete_step; [exact Hb|]. subst c2. ok_steps. apply drop_upstream_step. intros v i. ok_steps.
  now_at c1. assert (base c1) as H1 by (subst c1; unfold redial; base_join).
  apply ok_if; intros Hka; ok_steps; [by apply close_conn_ok|]. apply ok_if; intros _; [by apply close_conn_ok|].
  zify_bool. apply next_after_proxy_ok; [done | by intros [] | exact Hc | | exact Hu'].
  destruct Hs as [Hs|Hs]; [exact Hs | congruence].
Qed.

(** *** Heads of responses *)

Lemma value_end_bound fuel d i he :
  (i <= value_end fuel d i he)%nat /\ (value_end fuel d i he = i \/ (value_end fuel d i he < he)%nat).
Proof.
  revert i. induction fuel as [|fuel IH]; intros i; cbn [value_end]; [lia|]. case_if; [|lia]. zify_bool.
  destruct (IH (S i)) as [H1 H2]. lia.
Qed.

Lemma rewrite_connection_ok d he d' :
  (he <= length d)%nat -> Forall is_byte d -> rewrite_connection d he = Some d' ->
  length d' = length d /\ Forall is_byte d'.
Proof.
  intros Hl Hb. unfold rewrite_connection. destruct (find_conn_header _ _ _ _) as [j|]; [|done].
  cbv zeta. pose proof (value_end_bound he d (skip_spaces he d (j + 13) he) he) as [H1 H2].
  set (vs := skip_spaces _ _ _ _) in *. set (ve := value_end _ _ _ _) in *. clearbody ve vs.
  destruct (Nat.leb_spec 5 (ve - vs)); [|done]. intros Hd. apply (inj Some) in Hd.
  subst d'. set (l := bs "close" ++ _).
  assert (length l = (ve - vs)%nat) as Hn
    by (subst l; rewrite length_app, length_replicate; change (length (bs "close")) with 5%nat; lia).
  assert (Forall is_byte l) as Hlb.
  { apply Forall_app. split; [by apply bytes_ok_Forall|]. apply Forall_replicate. unfold is_byte, SP. lia. }
  clearbody l. split; [apply length_store_at; lia|]. unfold store_at. rewrite !Forall_app.
  split_and!; [by apply Forall_take | done | by apply Forall_drop].
Qed.

Lemma parse_upstream_ok c c1 k Q :
  rbuf (upstream_recv_buf c) ->
  (forall out, (po_status out = HttpParser.Complete ->
      (0 < po_header_end out)%nat /\ Z.of_nat (po_header_end out) <= len (upstream_recv_buf c) /\
      r_length_ok (po_req out)) -> Q out c1 k) ->
  ok (parse_upstream (Sc := Sc) c) c1 k Q.
Proof.
  intros Hu HQ. pose proof Hu as (Hw & _ & Hb). unfold parse_upstream. ok_steps.
  eapply ok_lift; [by apply data_all|].
  destruct (parse_response_spec Sc HS _ blank_response Hb) as (out & -> & Ho). ok_steps.
  apply HQ. intros Hc. destruct (Ho Hc) as (_ & Hln & line & fs & rest & Hbuf & _ & ->).
  rewrite <- (rbuf_contents _ Hu), Hbuf. unfold CRLF. simp_len. split_and!; [lia | lia | done].
Qed.

Lemma drop_interim_step n c k Q :
  rbuf (upstream_recv_buf c) -> 0 <= n <= len (upstream_recv_buf c) ->
  (forall b, rbuf b -> len b = len (upstream_recv_buf c) - n -> Q tt (with_upstream_recv_buf b c) k) ->
  ok (step_conn (drop_interim n)) c k Q.
Proof.
  intros Hu Hn HQ. pose proof (rbuf_len _ Hu). destruct (rbuf_data _ n Hu Hn) as (src & Hd & Hs & Hl).
  destruct (rbuf_refill _ src Hu Hs ltac:(lia)) as (b & Hr & Hb & _ & Hlb).
  apply (ok_step_conn _ _ (with_upstream_recv_buf b c)).
  { unfold drop_interim. rewrite Hd. cbn [mbind res_bind]. by rewrite Hr. }
  apply HQ; [done | lia].
Qed.

Lemma u32_sum_small a b : 0 <= a -> 0 <= b -> a + b <= 16384 -> u32 (a + b) = a + b.
Proof. intros. apply u32_small. lia. Qed.

(** The head and the first part of the body go out from the upstream buffer. *)
Lemma forward_response_ok resp n chunk c :
  base c -> phase_facts AwaitingResponse c -> 0 <= n <= len (upstream_recv_buf c) -> r_length_ok resp ->
  match chunk with Some (m, _) => n + Z.of_nat m <= len (upstream_recv_buf c) | None => True end ->
  ok (forward_response resp n chunk) c (due mt c) inv.
Proof.
  intros H (Hb & Hc & Hs & Hu) Hn [Hcl _] Hm. base_parts H. pose proof (rbuf_len _ Hu) as Hl.
  unfold forward_response. ok_steps. set (done := match resp_body_mode c with BNone => true | _ => _ end).
  set (init := if n <? _ then _ else _).
  assert (0 <= init /\ n + init <= len (upstream_recv_buf c)) as [Hi1 Hi2].
  { subst init. destruct (Z.ltb_spec n (len (upstream_recv_buf c))); [rewrite u32_small by lia|]; lia. }
  set (body := match resp_body_mode c with BNone => 0 | _ => _ end).
  assert (0 <= body /\ n + body <= len (upstream_recv_buf c)) as [Hb1 Hb2].
  { subst body. destruct (resp_body_mode c); [lia | case_if; zify_bool; lia | | lia].
    destruct chunk as [[m d]|]; lia. }
  rewrite u32_sum_small by lia.
  eapply ok_lift; [apply data_prefix; [apply Hu | lia]|]. ok_steps. clearbody done.
  destruct done; [to_phase SendingResponse | to_phase SendingHead].
Qed.

(** Overwriting the contents of a buffer in place. *)
Lemma rbuf_overwrite b d :
  rbuf b -> length d = length (contents b) -> Forall is_byte d ->
  exists s s', ptr b = Some s /\ store s 0 d = Ret s' /\ rbuf (set_storage b s').
Proof.
  intros (((Hl & Hc & Hp) & Hr & Hn) & Hcap & _) Hd Hb.
  assert (Z.of_nat (length (contents b)) = len b) as Hlc by (apply length_contents; by split_and!).
  destruct (ptr b) as [s|] eqn:Es; [|done]. exists s. rewrite store_ok by lia. eexists. split; [done|]. split; [done|].
  unfold rbuf, writable, buf_ok, contents. cbn [ptr len cap released set_storage].
  rewrite take_0, app_nil_l, take_app_le, take_ge by (simp_len; lia).
  split_and!; try done; try lia. simp_len. lia.
Qed.

Lemma drain_rewrite_ok resp n cd c :
  base c -> phase_facts AwaitingResponse c -> 0 <= n <= len (upstream_recv_buf c) ->
  ok (drain_rewrite resp n cd) c (due mt c) (fun done c' k' =>
    if done : bool then conn_inv mt c' k'
    else base c' /\ phase_facts AwaitingResponse c' /\ k' = due mt c' /\
      len (upstream_recv_buf c') = len (upstream_recv_buf c)).
Proof.
  intros H (Hb & Hc & Hs & Hu) Hn. assert (rbuf (upstream_recv_buf c)) as Hu0 by exact Hu.
  assert (base c /\ phase_facts AwaitingResponse c /\ due mt c = due mt c /\
    len (upstream_recv_buf c) = len (upstream_recv_buf c)) as Hsame by by split_and!.
  base_parts H. unfold drain_rewrite. ok_steps. eapply ok_lift; [apply data_all, Hu|]. ok_steps.
  set (he := if kHeaderEndLen <=? n then n - kHeaderEndLen else 0).
  apply ok_if; intros Hhe; [ok_steps; exact Hsame|]. destruct (rewrite_connection _ _) as [d'|] eqn:Er.
  - apply rewrite_connection_ok in Er as [Hl Hby]; [|subst he; unfold kHeaderEndLen in *|apply Hu].
    2: { pose proof (rbuf_contents _ Hu). destruct (Z.leb_spec 4 n); lia. }
    destruct (rbuf_overwrite _ d' Hu Hl Hby) as (s & s' & Hp & Hst & Hb').
    ok_steps. apply (ok_step_conn _ _ (with_upstream_recv_buf (set_storage (upstream_recv_buf c) s') c)).
    { rewrite Hp, Hst. done. }
    ok_steps. split_and!; [base_join | split_and!; [exact Hb | exact Hc | exact Hs | exact Hb'] | | done].
    unfold due. conn_simpl. by rewrite !rbuf_bound.
  - apply ok_if; intros _; [|ok_steps; exact Hsame]. ok_steps.
    apply send_reset_step; [exact Hsb|]. intros b1 Hb1. ok_steps.
    apply write_step; [exact Hb1|]. intros b2 Hb2. ok_steps.
    apply write_step; [exact Hb2|]. intros b3 Hb3. ok_steps.
    apply write_step; [exact Hb3|]. intros b4 Hb4. ok_steps. conn_simpl. pose proof (rbuf_len _ Hu0).
    set (fin := match resp_body_mode c with BNone => true | _ => _ end).
    apply send_all_ok; [exact Hb4|]. ok_steps. destruct fin; [to_phase Responding | to_phase SendingHead].
Qed.

Lemma set_resp_mode_frame resp c :
  r_length_ok resp -> wf (resp_chunk_parser c) ->
  exists m v p, set_resp_mode resp c =
      with_resp_body_remaining v (with_resp_chunk_parser p (with_resp_body_mode m c)) /\ 0 <= v /\ wf p.
Proof.
  intros [Hl _] Hw. unfold set_resp_mode.
  assert (forall m v, with_resp_body_remaining v (with_resp_body_mode m c) =
    with_resp_body_remaining v (with_resp_chunk_parser (resp_chunk_parser c) (with_resp_body_mode m c))) as Heta
    by by destruct c.
  case_if; [eexists _, _, _; rewrite Heta; split_and!; done|].
  case_if; [eexists _, _, _; split_and!; [done | done | apply reset_parser_wf]|].
  case_if; eexists _, _, _; rewrite Heta; split_and!; done.
Qed.

Lemma drain_or_forward_ok resp n chunk c :
  base c -> phase_facts AwaitingResponse c -> 0 <= n <= len (upstream_recv_buf c) -> r_length_ok resp ->
  match chunk with Some (m, _) => n + Z.of_nat m <= len (upstream_recv_buf c) | None => True end ->
  forall draining : bool,
  ok (if draining then drain_rewrite resp n (match chunk with Some (_, d) => d | None => false end) else mret false)
    c (due mt c) (fun done c' k' => ok (if done : bool then skip else forward_response resp n chunk) c' k' inv).
Proof.
  intros H Hf Hn Hr Hm draining. apply ok_if; intros _; ok_steps.
  - eapply ok_mono; [by apply drain_rewrite_ok|]. intros [] c' k' Hd; ok_steps; [exact Hd|].
    destruct Hd as (H' & Hf' & -> & Hl). apply forward_response_ok; rewrite ?Hl; done.
  - by apply forward_response_ok.
Qed.

Lemma response_complete_ok resp n c :
  base c -> phase_facts AwaitingResponse c -> 0 <= n <= len (upstream_recv_buf c) -> r_length_ok resp ->
  ok (response_complete env resp n) c (due mt c) inv.
Proof.
  intros H (Hb & Hc & Hs & Hu) Hn Hr. base_parts H. unfold response_complete. do 2 ok_step.
  destruct (set_resp_mode_frame resp c Hr Hrc) as (m & v & p & -> & Hv & Hp). ok_steps. conn_simpl.
  pose proof (rbuf_len _ Hu) as Hl. set (init := if n <? _ then _ else _).
  set (cond := bool_decide (m = BContentLength) && (0 <? init)).
  set (v' := if cond then u32 (v - init `min` v) else v).
  apply (ok_mono _ _ _ (fun _ c' k' => c' = with_resp_body_remaining v' (with_resp_chunk_parser p (with_resp_body_mode m c)) /\ k' = due mt c)).
  { subst v'. apply ok_when; intros ->; [by ok_steps | done]. }
  assert (0 <= v') as Hv' by (subst v'; case_if; [apply u32_nonneg | done]). clearbody v'.
  intros [] ? ? [-> ->]. ok_steps. apply ok_if; intros Echk; ok_steps.
  2: { now_at c1. apply (drain_or_forward_ok resp n None c1);
         [subst c1; base_join | split_and!; [exact Hb | exact Hc | exact Hs | exact Hu] | exact Hn | exact Hr | exact I]. }
  zify_bool. assert (init = u32 (len (upstream_recv_buf c) - n)) as Hinit.
  { subst init. destruct (Z.ltb_spec n (len (upstream_recv_buf c))); [done | lia]. }
  rewrite Hinit. destruct (rbuf_data _ n Hu Hn) as (src & Hd & _ & Hsl).
  eapply ok_lift; [exact Hd|]. ok_steps. apply drain_response_step; [exact Hp|]. intros r q Hq Hrn. ok_steps.
  destruct r as [[k d]|]; ok_steps; now_at c1; (assert (base c1) as Hbase by (subst c1; base_join)).
  - apply (drain_or_forward_ok resp n (Some (k, d)) c1);
      [done | split_and!; [exact Hb | exact Hc | exact Hs | exact Hu] | exact Hn | exact Hr |].
    subst c1. conn_simpl. lia.
  - by apply send_502_ok.
Qed.

Lemma clock_step b x c k Q :
  (forall v w, Q tt (with_upstream_start_us v (with_upstream_us w c)) k) ->
  ok (when b (let* now := ask (e_now env) in
              modify (with_upstream_us (u32 (now - x)));; modify (with_upstream_start_us 0))) c k Q.
Proof.
  intros H. apply ok_when; intros _; [ok_steps; apply H|].
  specialize (H (upstream_start_us c) (upstream_us c)).
  by replace (with_upstream_start_us _ _) with c in H by by destruct c.
Qed.

(** Waiting for the head of a response, whatever has arrived. *)
Lemma response_loop_ok fuel result c :
  at_phase AwaitingResponse c (due mt c) -> (Z.to_nat (len (upstream_recv_buf c)) < fuel)%nat ->
  ok (upstream_response_loop env (Sc := Sc) fuel result) c (due mt c) inv.
Proof.
  revert c. induction fuel as [|fuel IH]; intros c (H & Hp & (Hb & Hc & Hs & Hu) & _) Hf; [lia|].
  cbn [upstream_response_loop]. base_parts H. assert (rbuf (upstream_recv_buf c)) as Hu0 by exact Hu. ok_steps.
  apply clock_step. intros v w. now_at c1.
  assert (base c1) as Hbase by (subst c1; base_join).
  assert (phase_facts AwaitingResponse c1) as Hf1 by (split_and!; [exact Hb | exact Hc | exact Hs | exact Hu]).
  assert (ok (close_upstream;; send_502) c1 (due mt c1) inv) as H502.
  { ok_steps. now_at c2. apply send_502_ok; [subst c2 c1; base_join | exact Hb | exact Hc]. }
  apply ok_if; intros _; [by apply close_conn_ok|]. ok_step. apply parse_upstream_ok; [exact Hu|].
  intros out Hout. destruct (po_status out).
  - destruct (Hout eq_refl) as (He1 & He2 & Hr). clear Hout. ok_steps.
    assert (base (with_resp_status (r_status_code (po_req out)) c1)) as Hbase2 by exact Hbase.
    apply ok_if; intros _; [|now_at c2; apply response_complete_ok; [done | exact Hf1 | | done]; subst c2 c1; conn_simpl; lia].
    apply ok_if; intros Hlen; zify_bool; ok_steps; subst c1.
    + apply drop_interim_step; [exact Hu | conn_simpl; lia |]. intros b Hb' Hl. revert Hl. conn_simpl. intros Hl.
      now_at c2. apply IH; [|subst c2; conn_simpl; lia]. split_and!; [subst c2; base_join | exact Hp | | done].
      split_and!; [exact Hb | exact Hc | exact Hs | exact Hb'].
    + apply upstream_reset_step; [exact Hu|]. intros b Hb' _. ok_steps. to_phase AwaitingResponse.
  - apply ok_if; intros _; [exact H502|]. ok_steps. subst c1. to_phase AwaitingResponse.
  - exact H502.
Qed.

Lemma upstream_response_ok result c :
  base c -> phase_facts AwaitingResponse c -> conn_phase c = Some AwaitingResponse ->
  ok (on_upstream_response env (Sc := Sc) result) c (due mt c) inv.
Proof. intros H Hf Hp. unfold on_upstream_response. ok_steps. apply response_loop_ok; [by split_and! | lia]. Qed.

(** ** Request bodies and early responses *)

Definition slots (c : Connection) := (on_recv c, on_send c, on_upstream_recv c, on_upstream_send c).
Definition settled (c : Connection) := (on_recv c, on_send c, @None Callback, Some CBodySendWithEarlyResponse).

(** An early look at the upstream leaves the slots alone, settles on a response
    or closes. *)
Lemma early_loop_ok fuel result b c :
  base c -> phase_facts SendingRequest c -> (Z.to_nat (len (upstream_recv_buf c)) < fuel)%nat ->
  ok (early_recv_loop env (Sc := Sc) fuel result b) c (due mt c) (fun _ c' k' =>
    (closed c' /\ k' = tzero) \/
    (base c' /\ phase_facts SendingRequest c' /\ k' = due mt c' /\ (slots c' = slots c \/ slots c' = settled c))).
Proof.
  revert c. induction fuel as [|fuel IH]; intros c H (Hb & Hc & Hs & Hu) Hf; [lia|].
  cbn [early_recv_loop]. assert (rbuf (upstream_recv_buf c)) as Hu0 by exact Hu.
  assert (forall c', base c' -> phase_facts SendingRequest c' -> due mt c' = due mt c -> slots c' = slots c ->
    (closed c' /\ due mt c = tzero) \/ (base c' /\ phase_facts SendingRequest c' /\ due mt c = due mt c' /\
      (slots c' = slots c \/ slots c' = settled c))) as Hsame by (intros c' ? ? -> ->; right; by split_and!; [..|left]).
  ok_step. ok_step. cbv zeta. set (settle := modify _ ≫= _).
  assert (ok settle c (due mt c) (fun _ c' k' => (closed c' /\ k' = tzero) \/
    (base c' /\ phase_facts SendingRequest c' /\ k' = due mt c' /\ (slots c' = slots c \/ slots c' = settled c)))) as Hset.
  { subst settle. ok_steps. right. base_parts H. split_and!; [base_join | by split_and! | done | by right]. }
  clearbody settle. apply ok_if; intros _.
  { eapply ok_mono; [by apply close_conn_closed|]. intros ? c' k' Hcl. by left. }
  apply ok_if; intros _; [exact Hset|]. ok_step. apply parse_upstream_ok; [exact Hu|].
  intros out Hout. base_parts H. destruct (po_status out); [|apply ok_when; intros _; ok_steps; apply Hsame; done || by split_and!|exact Hset].
  destruct (Hout eq_refl) as (He1 & He2 & _). apply ok_if; intros _; [|exact Hset].
  apply ok_if; intros Hlen; zify_bool; ok_steps.
  - apply drop_interim_step; [exact Hu | lia |]. intros u Hu' Hl. cbv beta. now_at c1.
    eapply ok_mono; [apply IH; [subst c1; base_join | split_and!; [exact Hb | exact Hc | exact Hs | exact Hu'] |]|].
    + subst c1. conn_simpl. lia.
    + done.
  - apply upstream_reset_step; [exact Hu|]. intros u Hu' _. ok_steps.
    assert (due mt (with_upstream_recv_buf u c) = due mt c) as Hd
      by (unfold due; conn_simpl; by rewrite !rbuf_bound by assumption).
    apply ok_when; intros _; ok_steps; (apply Hsame;
      [base_join | split_and!; [exact Hb | exact Hc | exact Hs | exact Hu'] | done | done]).
Qed.

Lemma send_inflight_ok result c p :
  base c -> phase_facts p c -> conn_phase c = Some p -> p = SendingRequest \/ p = SendingBody ->
  ok (on_early_upstream_recvd_send_inflight env (Sc := Sc) result) c (due mt c) inv.
Proof.
  intros H Hf Hp Hor. unfold on_early_upstream_recvd_send_inflight, handle_early_upstream_recv. ok_steps.
  assert (phase_facts SendingRequest c) as Hf' by (by destruct Hor as [-> | ->]).
  eapply ok_mono; [apply early_loop_ok; [done | done | lia]|].
  intros _ c' k' [[? ->]|(H' & Hf'' & -> & Hsl)]; [by left|].
  apply phase_of_inv in Hp as Hsl0.
  assert (exists q, conn_phase c' = Some q /\ phase_facts q c') as (q & Hq & Hfq); [|by eapply inv_open].
  unfold conn_phase. destruct Hsl as [Hsl|Hsl]; injection Hsl as -> -> -> ->.
  - exists p. split; [done|]. by destruct Hor as [-> | ->].
  - exists EarlyResponse. split; [|done].
    destruct Hor as [-> | ->]; injection Hsl0 as -> -> _ _; done.
Qed.

Lemma prepare_early_step c Q :
  base c -> phase_facts SendingRequest c ->
  (forall c', base c' -> phase_facts AwaitingResponse c' -> upstream_recv_buf c' = upstream_recv_buf c ->
     Q tt c' (due mt c')) ->
  ok (prepare_early env) c (due mt c) Q.
Proof.
  intros H (Hb & Hc & Hs & Hu) HQ. unfold prepare_early. ok_steps.
  assert (exists c', prepare_early_response_state (e_now env n) c = Ret c' /\ base c' /\
    phase_facts AwaitingResponse c' /\ upstream_recv_buf c' = upstream_recv_buf c /\ due mt c' = due mt c)
    as (c' & Hf & H' & Hf' & Hu' & Hd).
  { assert (forall c1, base c1 -> phase_facts AwaitingResponse c1 -> upstream_recv_buf c1 = upstream_recv_buf c ->
      due mt c1 = due mt c -> exists c',
      Ret (if upstream_start_us c1 =? 0 then with_upstream_start_us (e_now env n) c1 else c1) = Ret c' /\ base c' /\
      phase_facts AwaitingResponse c' /\ upstream_recv_buf c' = upstream_recv_buf c /\ due mt c' = due mt c) as Hlast.
    { intros c1 H1 Hf1 Hu1 Hd1. case_if; eexists; (split; [done|]); by split_and!. }
    unfold prepare_early_response_state. case_if.
    - destruct (recv_reset_total c) as (b & -> & Hb' & _); [apply H|]. cbn [mbind res_bind].
      apply Hlast; [base_parts H; base_join | split_and!; [exact Hb | exact Hc | by left | exact Hu] | done | done].
    - destruct (pipeline_stash_total c) as (sb & m & Hst & Hsb' & Hso); [apply H | apply H | apply H |].
      rewrite Hst. cbn [mbind res_bind].
      destruct (recv_reset_total (with_pipeline_stash_len m (with_send_buf sb c))) as (b & -> & Hb' & _); [apply H|].
      cbn [mbind res_bind].
      apply Hlast; [base_parts H; base_join | split_and!; [exact Hb | exact Hc | exact Hso | exact Hu] | done | done]. }
  rewrite <- Hd. eapply ok_step_conn; [exact Hf|]. by apply HQ.
Qed.

(** The response is awaited, with what has arrived of it. *)
Lemma to_await_ok m c :
  base c -> phase_facts AwaitingResponse c ->
  (forall c', base c' -> phase_facts AwaitingResponse c' -> conn_phase c' = Some AwaitingResponse ->
     upstream_recv_buf c' = upstream_recv_buf c -> ok (m tt) c' (due mt c') inv) ->
  ok (to_slots None None (Some CUpstreamResponse) None ≫= m) c (due mt c) inv.
Proof.
  intros H Hf Hm. ok_step. ok_step. cbv beta. now_at c1. apply Hm; [|exact Hf | done | done].
  subst c1. base_parts H. base_join.
Qed.

Lemma early_response_ok result c :
  base c -> phase_facts SendingRequest c ->
  ok (on_body_send_with_early_response env (Sc := Sc) result) c (due mt c) inv.
Proof.
  intros H Hf. unfold on_body_send_with_early_response. ok_step. apply prepare_early_step; [done..|].
  intros c1 H1 Hf1 _. apply to_await_ok; [done..|]. intros c2 H2 Hf2 Hp2 _. ok_step. ok_step. ok_step.
  apply parse_upstream_ok; [apply Hf2|]. intros out _. by apply upstream_response_ok.
Qed.

Lemma early_recvd_ok result c :
  base c -> phase_facts ReadingRequestBody c -> conn_phase c = Some ReadingRequestBody ->
  ok (on_early_upstream_recvd env (Sc := Sc) result) c (due mt c) inv.
Proof.
  intros H Hf Hp. unfold on_early_upstream_recvd, handle_early_upstream_recv. ok_steps.
  eapply ok_mono; [apply early_loop_ok; [done | done | lia]|]. apply phase_of_inv in Hp as Hsl.
  intros _ c' k' [[Hcl ->]|(H' & Hf' & -> & Hs')]; ok_steps.
  - destruct Hcl as (h1 & h2 & h3 & h4 & hrest). apply ok_if; intros E; [by rewrite h4 in E|].
    ok_steps. left. by split_and!.
  - injection Hsl as E1 E2 E3 E4. unfold slots, settled in Hs'. rewrite E1, E2, E3, E4 in Hs'.
    apply ok_if; intros E; [by apply early_response_ok|]. ok_steps.
    destruct Hs' as [Hs'|Hs']; injection Hs' as F1 F2 F3 F4; [|by rewrite F4 in E].
    apply (inv_open _ _ _ ReadingRequestBody); [done | | done | done].
    unfold conn_phase. by rewrite F1, F2, F3, F4.
Qed.

Lemma early_or_close_ok c :
  base c -> phase_facts SendingRequest c -> ok (early_response_or_close env (Sc := Sc)) c (due mt c) inv.
Proof.
  intros H Hf. pose proof Hf as (Hb & Hc & Hs & Hu). unfold early_response_or_close. ok_steps.
  assert (forall c0 r, base c0 -> phase_facts SendingRequest c0 -> due mt c0 = due mt c ->
    ok (prepare_early env ≫= fun _ => to_slots None None (Some CUpstreamResponse) None ≫= fun _ =>
        on_upstream_response env (Sc := Sc) r) c0 (due mt c) inv) as Hresp.
  { intros c0 r H0 Hf0 <-. ok_step. apply prepare_early_step; [done..|]. intros c1 H1 Hf1 _.
    apply to_await_ok; [done..|]. intros c2 H2 Hf2 Hp2 _. by apply upstream_response_ok. }
  apply ok_if; intros _; [by apply Hresp|]. apply ok_if; intros _.
  { ok_step. apply prepare_early_step; [done..|]. intros c1 H1 Hf1 _. apply to_await_ok; [done..|].
    intros c2 H2 Hf2 Hp2 _. ok_steps. by eapply inv_open. }
  pose proof (rbuf_len _ Hu) as Hl. ok_step.
  apply (ok_mono _ _ _ (fun n c' k' => c' = c /\ k' = due mt c /\ 0 <= n <= 16384 - len (upstream_recv_buf c))).
  { apply ok_if; intros _; [|ok_steps; split_and!; [done | done | lia | lia]].
    apply (ok_lift _ (16384 - len (upstream_recv_buf c))); [|split_and!; [done | done | lia | lia]].
    unfold write_avail. destruct Hu as ((_ & -> & Hp) & -> & _). destruct (ptr _); [|done].
    unfold kSliceSize. by rewrite u32_small by lia. }
  intros n ? ? (-> & -> & Hn). cbv beta. apply ok_if; intros _; [|by apply close_conn_ok]. ok_step. ok_step.
  apply ok_if; intros _; [|by apply close_conn_ok].
  set (got := take _ _). assert (Forall is_byte got) as Hg by (apply Forall_take, (eo_recv _ Henv)).
  assert (Z.of_nat (length got) <= 16384 - len (upstream_recv_buf c)) as Hgl by (subst got; rewrite length_take; lia).
  destruct (rbuf_fill _ got Hu Hg Hgl) as (b1 & b2 & H1 & H2 & Hb2 & _).
  ok_step. apply (ok_step_conn _ _ (with_upstream_recv_buf b2 c)).
  { rewrite H1. cbn [mbind res_bind]. rewrite H2. done. }
  base_parts H. assert (rbuf (upstream_recv_buf c)) as Hu0 by exact Hu.
  apply Hresp; [base_join | split_and!; [exact Hb | exact Hc | exact Hs | exact Hb2] |].
  unfold due. conn_simpl. by rewrite !rbuf_bound by assumption.
Qed.

Lemma await_response_ok c :
  base c -> phase_facts SendingRequest c -> ok (await_response env (Sc := Sc)) c (due mt c) inv.
Proof.
  intros H Hf. pose proof Hf as (Hb & Hc & Hs & Hu). unfold await_response. ok_step.
  destruct (pipeline_stash_total c) as (sb & m & Hst & Hsb' & Hso); [apply H | apply H | apply H |].
  eapply ok_step_conn; [exact Hst|]. ok_step. base_parts H. apply recv_reset_step; [exact Hrb|]. intros b Hb' _.
  do 4 ok_step. cbv beta. now_at c1.
  assert (base c1) as H1 by (subst c1; base_join).
  apply to_await_ok; [done | split_and!; [exact Hb | exact Hc | exact Hso | exact Hu] |].
  intros c2 H2 Hf2 Hp2 _. ok_steps. apply ok_if; intros _; [by apply upstream_response_ok|]. ok_steps. by eapply inv_open.
Qed.

Lemma read_more_ok c :
  base c -> phase_facts SendingRequest c -> ok (read_more_body env) c (due mt c) inv.
Proof.
  intros H (Hb & Hc & Hs & Hu). base_parts H. unfold read_more_body. ok_step. apply recv_reset_step; [exact Hrb|].
  intros b Hb' _. ok_steps. to_phase ReadingRequestBody.
Qed.

Lemma request_sent_ok result c :
  base c -> phase_facts SendingRequest c -> ok (on_upstream_request_sent env (Sc := Sc) result) c (due mt c) inv.
Proof.
  intros H Hf. unfold on_upstream_request_sent. apply ok_if; intros _; [by apply early_or_close_ok|]. ok_steps.
  apply ok_if; intros _; [by apply read_more_ok | by apply await_response_ok].
Qed.

Lemma request_body_sent_ok result c :
  base c -> phase_facts SendingRequest c -> ok (on_request_body_sent env (Sc := Sc) result) c (due mt c) inv.
Proof.
  intros H Hf. unfold on_request_body_sent. apply ok_if; intros _; [by apply early_or_close_ok|]. ok_steps.
  apply ok_if; intros _; [by apply await_response_ok | by apply read_more_ok].
Qed.

Lemma request_body_recvd_ok result c :
  base c -> phase_facts ReadingRequestBody c -> ok (on_request_body_recvd env result) c (due mt c) inv.
Proof.
  intros H (Hb & Hc & Hs & Hu). unfold on_request_body_recvd. apply ok_if; intros _; [by apply close_conn_ok|].
  base_parts H. pose proof (rbuf_len _ Hrb) as Hl. assert (writable (recv_buf c)) as Hw by apply Hrb.
  ok_steps. destruct (req_body_mode c); ok_steps.
  3: { eapply ok_lift; [by apply data_all|].
       destruct (drain_run _ (contents (recv_buf c)) Hqw) as (e & p & n & b & -> & Hn & Hwp & _). cbn [dr_parser dr_end dr_consumed].
       ok_steps. pose proof (rbuf_contents _ Hrb).
       destruct e; ok_steps; [| |now_at c1; apply close_conn_ok; subst c1; base_join];
         (eapply ok_lift; [apply data_prefix; [exact Hw | lia]|]; ok_steps; to_phase SendingBody). }
  all: eapply ok_lift; [apply data_prefix; [exact Hw | lia]|]; ok_steps; to_phase SendingBody.
Qed.

Lemma alloc_step c Q :
  base c -> (forall r c', base c' -> (r = true -> has_upstream c') -> busy c' = busy c -> calm c' = calm c ->
     no_stash c' = no_stash c -> req_malformed c' = req_malformed c -> Q r c' (due mt c')) ->
  ok (alloc_upstream_buf env) c (due mt c) Q.
Proof.
  intros H HQ. unfold alloc_upstream_buf. ok_steps. apply ok_if; intros Hbd.
  { ok_steps. apply HQ; try done. intros _. base_parts H. destruct Hub as [Hn|Hr]; [by rewrite Hn in Hbd | done]. }
  ok_steps. destruct (e_slice env n) as [s|] eqn:Es; [|ok_steps; by apply HQ].
  ok_steps. apply ok_emit. ok_steps.
  assert (rbuf (Buffer.bind (upstream_recv_buf c) (Some s) kSliceSize)) as Hf by by apply fresh_rbuf, (eo_slice _ Henv n).
  match goal with |- Q _ ?c1 ?k => assert (k = due mt c1) as -> end.
  { unfold due, tadd. conn_simpl. rewrite Hbd. cbn. f_equal; lia. }
  apply HQ; [base_parts H; base_join | intros _; exact Hf | done..].
Qed.

Lemma connected_ok result c :
  base c -> phase_facts Connecting c -> ok (on_upstream_connected env result) c (due mt c) inv.
Proof.
  intros H (Hb & Hc & Hs). unfold on_upstream_connected. apply ok_if; intros _; [by apply send_502_ok|].
  ok_steps. apply ok_if; intros _; [by apply close_conn_ok|]. ok_steps. apply alloc_step; [done|].
  intros r c1 H1 Hu1 Eb Ec Es _. cbv beta. apply ok_if; intros Hr; [by apply close_conn_ok|]. zify_bool.
  rewrite <- Eb in Hb. rewrite <- Ec in Hc. rewrite <- Es in Hs. specialize (Hu1 Hr). clear Eb Ec Es H.
  base_parts H1. ok_steps. conn_simpl. pose proof (rbuf_len _ Hrb) as Hl.
  set (want := if 0 <? _ then _ else _). assert (0 <= want) as Hwant by (subst want; case_if; lia).
  eapply ok_lift; [apply data_prefix; [apply Hrb | case_if; zify_bool; lia]|]. ok_steps. to_phase SendingRequest.
Qed.

(** ** Dispatch *)

Lemma run_recv_ok p cb result c :
  base c -> phase_facts p c -> conn_phase c = Some p -> on_recv c = Some cb ->
  ok (run_callback env (Sc := Sc) cb result) c (due mt c) inv.
Proof.
  intros H Hf Hp Hcb. apply phase_of_inv in Hp as Hs. rewrite Hcb in Hs.
  destruct p; try discriminate; injection Hs as -> _ _ _; cbn [run_callback].
  - apply header_received_ok; apply Hf || done.
  - apply jit_body_ok; apply Hf || done.
  - by apply request_body_recvd_ok.
Qed.

Lemma run_send_ok p cb result c :
  base c -> phase_facts p c -> conn_phase c = Some p -> on_send c = Some cb ->
  ok (run_callback env (Sc := Sc) cb result) c (due mt c) inv.
Proof.
  intros H Hf Hp Hcb. apply phase_of_inv in Hp as Hs. rewrite Hcb in Hs.
  destruct p; try discriminate; injection Hs as _ -> _ _; cbn [run_callback].
  - by apply response_sent_ok.
  - by apply proxy_sent_ok.
  - by apply header_sent_ok.
  - by apply body_sent_ok.
Qed.

Lemma run_upstream_recv_ok p cb result c :
  base c -> phase_facts p c -> conn_phase c = Some p -> on_upstream_recv c = Some cb ->
  ok (run_callback env (Sc := Sc) cb result) c (due mt c) inv.
Proof.
  intros H Hf Hp Hcb. apply phase_of_inv in Hp as Hs. rewrite Hcb in Hs.
  destruct p; try discriminate; injection Hs as _ _ -> _; cbn [run_callback].
  - eapply send_inflight_ok; [done.. |]. by left.
  - eapply send_inflight_ok; [done.. |]. by right.
  - by apply early_recvd_ok.
  - by apply upstream_response_ok.
  - destruct Hf as (? & ? & ? & ?). by apply body_recvd_ok.
Qed.

Lemma run_upstream_send_ok p cb result c :
  base c -> phase_facts p c -> conn_phase c = Some p -> on_upstream_send c = Some cb ->
  ok (run_callback env (Sc := Sc) cb result) c (due mt c) inv.
Proof.
  intros H Hf Hp Hcb. apply phase_of_inv in Hp as Hs. rewrite Hcb in Hs.
  destruct p; try discriminate; injection Hs as _ _ _ ->; cbn [run_callback].
  - by apply connected_ok.
  - by apply request_sent_ok.
  - by apply request_body_sent_ok.
  - by apply early_response_ok.
Qed.

Lemma unhandled_ok p result c :
  base c -> phase_facts p c -> conn_phase c = Some p ->
  ok (handle_unhandled_recv env result) c (due mt c) inv.
Proof.
  intros H Hf Hp. unfold handle_unhandled_recv. apply ok_if; intros _.
  - ok_steps. apply (ok_mono _ _ _ (fun _ c' k' => at_phase p c' k')).
    + apply ok_when; intros _; [|by split_and!]. apply recv_reset_step; [apply H|]. intros b Hb' _.
      split_and!; [base_parts H; base_join | exact Hp | by destruct p | done].
    + intros ? c' k' Hat. apply at_phase_inv in Hat. apply ok_when; intros _; by ok_steps.
  - apply ok_if; intros _; [by apply close_conn_ok|]. ok_steps. by eapply inv_open.
Qed.

(** Only a suspended connection has a pending handler. *)
Lemma pending_phase p c :
  phase_facts p c -> pending_handler_fn c <> None -> p = Suspended /\ phase_facts Suspended c.
Proof. intros Hf Hn. destruct p; try (exfalso; apply Hn, Hf). by split. Qed.

Lemma dispatch_ok t result c k :
  conn_inv mt c k -> ok (dispatch env (Sc := Sc) t result) c k inv.
Proof.
  intros [[Hcl ->]|(H & (p & Hp & Hf) & ->)].
  { pose proof Hcl as (h1 & h2 & h3 & h4 & h5 & _). unfold dispatch. ok_steps. unfold has_active_slot.
    rewrite h1, h2, h3, h4. unfold calm in h5. rewrite h5. ok_steps. left. done. }
  unfold dispatch. ok_steps. apply ok_if; intros _.
  - ok_steps. unfold dispatch_event. ok_steps.
    assert (conn_inv mt c (due mt c)) as Hinv by by eapply inv_open.
    destruct t; try (ok_steps; exact Hinv).
    + destruct (on_recv c) eqn:E; [by eapply run_recv_ok | by eapply unhandled_ok].
    + destruct (on_send c) eqn:E; [by eapply run_send_ok | by ok_steps].
    + destruct (on_upstream_send c) eqn:E; [by eapply run_upstream_send_ok | by ok_steps].
    + destruct (on_upstream_recv c) eqn:E; [by eapply run_upstream_recv_ok|].
      apply ok_if; intros _; [by apply close_conn_ok | by ok_steps].
    + destruct (on_upstream_send c) eqn:E; [by eapply run_upstream_send_ok | by ok_steps].
  - destruct (pending_handler_fn c) as [f|] eqn:Ep; [|ok_steps; by eapply inv_open].
    destruct (pending_phase p c Hf) as [-> (Hb & Hc & Hs)]; [by rewrite Ep|].
    apply ok_if; intros _.
    + ok_steps. apply disarm_step. intros v g. ok_steps. now_at c1.
      apply resume_ok; [subst c1; base_parts H; base_join | exact Hb | exact Hc | exact Hs].
    + apply ok_when; intros _; [by apply close_conn_ok | by eapply inv_open].
Qed.

Lemma on_timer_ok wheel c :
  base c -> phase_ok c -> ok (on_timer env wheel) c (due mt c) inv.
Proof.
  intros H (p & Hp & Hf). unfold on_timer. ok_steps. apply ok_if; intros E.
  - destruct (pending_phase p c Hf) as [-> (Hb & Hc & Hs)]; [by destruct (pending_handler_fn c)|].
    ok_steps. now_at c1. apply resume_ok; [subst c1; base_parts H; base_join | exact Hb | exact Hc | exact Hs].
  - apply ok_when; intros _; [by apply close_conn_ok | by eapply inv_open].
Qed.

Lemma on_accept_ok shard result c :
  closed c -> ok (on_accept env slot_id shard result) c tzero inv.
Proof.
  intros Hcl. pose proof Hcl as (_ & _ & _ & _ & _ & _ & _ & _ & _ & _ & _ & Hrp).
  unfold on_accept. apply ok_if; intros Hres; [ok_steps; by left|]. zify_bool.
  unfold alloc_conn. ok_steps. apply ok_when_emit. ok_step. apply ok_when_emit. cbv beta.
  pose proof (eo_slice _ Henv n) as Hn. pose proof (eo_slice _ Henv n0) as Hn0.
  destruct (e_slice env n) as [r|], (e_slice env n0) as [s|].
  2-4: ok_step; apply ok_when_emit; ok_step; apply ok_when_emit; ok_steps; cbn [negb]; ok_steps; left; done.
  specialize (Hn r eq_refl). specialize (Hn0 s eq_refl). ok_steps. apply ok_emit. ok_steps.
  match goal with |- ok _ ?X ?k _ => set (c1 := X);
    apply (ok_mono _ _ _ (fun _ c' k' => exists o, capture_ok o /\ c' = with_capture_buf o c1 /\ k' = k)) end.
  { pose proof (eo_capture _ Henv n1) as Hcap. destruct (e_capture_slice env n1) as [o|]; cbn [when]; ok_steps.
    - exists (Some o). split_and!; [by apply Hcap | done | done].
    - exists None. by split_and!. }
  intros _ ? ? (o & Ho & -> & ->). ok_steps. cbn [negb]. ok_steps.
  pose proof (fresh_rbuf r null_buffer Hn) as Hr. pose proof (rbuf_sbuf _ (fresh_rbuf s null_buffer Hn0)) as Hs.
  pose proof (length_terminated _ Hrp) as Hp.
  destruct (e_peer env n2); ok_steps; (apply ok_when_emit; ok_steps; subst c1;
     apply (inv_open _ _ _ Waiting);
       [unfold conn_reset; base_join; apply reset_parser_wf || by left | reflexivity
       | split_and!; [by intros [] | done | done] | by destruct mt]).
Qed.
End callbacks_inv.
