(* ===== verification/ConnSafety.v ===== *)
(** * Connections under the event loop

    A connection slot as the epoll loop drives it (dispatch, timers, accept and
    forced close of include/rut/runtime/epoll_event_loop.h over the receives of
    src/runtime/epoll_backend.cc), as a step relation on the connection, the
    trace of its operations and the questions asked so far.  Every event gets
    its own environment, so nothing is assumed between events except that
    metrics are not switched on or off. *)

From S2P Require Import Prelude Simd HttpParser RouteMethod RouteTrie RouteTable HandlerAbi Buffer Connection.
From S2P Require Import Response RequestMeta EventLoop Callbacks EpollBackend ConnLogic ConnInv.

(** ** Tables that can serve *)

Lemma length_span_le pool s : (length (span_bytes pool s) <= length pool)%nat.
Proof. unfold span_bytes, sub. rewrite length_take, length_drop. lia. Qed.

Lemma length_header_texts (kvs : list (list Z * list Z)) (n : Z) :
  0 <= n ->
  Forall (fun kv : list Z * list Z => Z.of_nat (length kv.1) <= n /\ Z.of_nat (length kv.2) <= n) kvs ->
  Z.of_nat (length (mjoin (header_text <$> kvs))) <= Z.of_nat (length kvs) * (n + n + 4).
Proof.
  intros Hn. induction 1 as [|[k v] kvs [Hk Hv] _ IH]; [cbn; lia|]. rewrite fmap_cons. cbn [mjoin list_join length].
  rewrite length_app, Nat2Z.inj_add, length_header_text. cbn [fst snd] in *.
  rewrite Nat2Z.inj_succ, Z.mul_succ_l, (Z.add_comm (_ * _)). apply Z.add_le_mono; [lia | exact IH].
Qed.

(** A consistent segment-dispatched table whose proxy routes have their upstream. *)
Lemma table_serving c :
  table_inv c -> bodies_inv c -> headers_inv c ->
  Forall (fun r => re_action r = Proxy -> is_Some (upstreams c !! Z.to_nat (re_upstream_id r))) (routes c) ->
  Serving c.
Proof.
  intros Ht Hb Hh Hp. split.
  - intros [p|] m cap; [|by exists None, []].
    destruct (table_lookup_spec c p (log_route_method_key m) cap Ht) as (r & ps & Hm & Hr); [by destruct m|].
    exists r, ps. split; [done|]. intros e -> Ha. rewrite Forall_forall in Hp. apply Hp; [apply Hr | done].
  - intros i b. unfold body_at. destruct (i =? 0); [done|].
    destruct (response_bodies c !! _) as [s|]; [|done]. intros [= <-]. pose proof (length_span_le (body_pool c) s).
    pose proof (bi_pool _ Hb). unfold kResponseBodyPoolBytes in *. lia.
  - intros i kvs. unfold header_set_at. destruct (i =? 0); [done|].
    destruct (response_header_sets c !! _) as [s|]; [|done]. intros [= <-].
    set (ks := take _ (drop _ (header_keys c))). set (vs := take _ (drop _ (header_values c))).
    pose proof (hi_pool _ Hh) as Hpool. pose proof (hi_cap _ Hh) as Hcap.
    unfold kResponseHeaderBytesPoolBytes, kMaxHeaderPoolEntries in *.
    assert (length ks <= 512)%nat as Hk by (subst ks; rewrite length_take, length_drop; lia).
    set (kvs := zip _ _). assert (length kvs <= 512)%nat as Hkv.
    { subst kvs. rewrite length_zip_with, length_fmap. lia. }
    assert (Z.of_nat (length (header_bytes_pool c)) <= 8192) as Hpool' by lia.
    assert (Z.of_nat (length (mjoin (header_text <$> kvs))) <= Z.of_nat (length kvs) * (8192 + 8192 + 4)); [|lia].
    apply length_header_texts; [lia|].
    apply Forall_forall. intros [k v] Hin. cbn. apply list_elem_of_lookup in Hin as [j Hj].
    apply lookup_zip_with_Some in Hj as (a & b & [= -> ->] & Ha & Hb').
    rewrite list_lookup_fmap in Ha, Hb'. destruct (ks !! j); [|done]. destruct (vs !! j); [|done].
    injection Ha as <-. injection Hb' as <-.
    split; (etransitivity; [apply inj_le, length_span_le | done]).
Qed.

(** ** Events of a slot *)

Inductive Event :=
  | Accepted (shard fd : Z)
  | Readable (upstream : bool) (answer : RecvAnswer)
  | Completed (t : IoEventType) (result : Z)
  | WheelExpired
  | YieldExpired
  | ForceClosed
  | CaptureAttached (region : list Z).

Section loop.
Context {SL : Slot} (env : Env) `{Sc : Scanners}.

(** EPOLLIN: receive into the buffer of the descriptor, then dispatch. *)
Definition on_readable (upstream : bool) (a : RecvAnswer) : M unit :=
  let* c := get in
  if (if upstream then upstream_fd c else fd c) <? 0 then skip
  else
    let* r := step_conn_val (fun c =>
      x ← recv_into (if upstream then upstream_recv_buf c else recv_buf c) a;
      Ret (x.1, if upstream then with_upstream_recv_buf x.2 c else with_recv_buf x.2 c)) in
    dispatch env (Sc := Sc) (if upstream then UpstreamRecv else Recv) r.

(** [force_close_all] and the drain of idle connections. *)
Definition force_close : M unit :=
  let* c := get in when (0 <=? fd c) (close_conn env).

(** [set_capture] on one slot. *)
Definition attach_capture (region : list Z) : M unit :=
  let* c := get in
  when ((0 <=? fd c) && match capture_buf c with Some _ => false | None => true end)
    (modify (with_capture_buf (Some region))).

(** The accept takes this slot when it is free, and the wheel holds open connections only. *)
Definition react (ev : Event) : M unit :=
  match ev with
  | Accepted shard fd' => let* c := get in when (fd c <? 0) (on_accept env slot_id shard fd')
  | Readable upstream a => on_readable upstream a
  | Completed t result => dispatch env (Sc := Sc) t result
  | WheelExpired => let* c := get in when (0 <=? fd c) (on_timer env true)
  | YieldExpired => on_timer env false
  | ForceClosed => force_close
  | CaptureAttached region => attach_capture region
  end.

End loop.

Definition event_ok (ev : Event) : Prop :=
  match ev with
  | Readable _ (Got bytes) => Forall is_byte bytes
  | CaptureAttached region => kMaxHeaderLen <= Z.of_nat (length region)
  | _ => True
  end.

Section reachable.
Context {SL : Slot} (mt : bool) (Sc : Scanners) (HS : ScannersOk Sc).

Definition fresh (shard : Z) : Sys := mkSys (with_shard_id (u8 shard) (with_id slot_id conn_zero)) [] 0.

(** The states of a slot; [mt]: metrics are on. *)
Inductive reachable : Sys -> Prop :=
  | reach_fresh shard : reachable (fresh shard)
  | reach_step env ev s s' :
      reachable s -> env_ok env -> e_metrics env = mt -> event_ok ev ->
      react env (Sc := Sc) ev s = Ret (tt, s') -> reachable s'.

Lemma recv_into_total b a :
  ubuf b -> match a with Got l => Forall is_byte l | _ => True end ->
  exists r b', recv_into b a = Ret (r, b') /\ ubuf b' /\ bound b' = bound b /\ (rbuf b -> rbuf b').
Proof.
  intros [->|Hb] Ha; [eexists _, _; split; [done|]; split_and!; [by left | done | done]|].
  pose proof (rbuf_len b Hb) as Hl. unfold recv_into.
  assert (write_avail b = Ret (16384 - len b)) as ->.
  { unfold write_avail. destruct Hb as ((_ & -> & Hp) & -> & _). destruct (ptr b); [|done].
    unfold kSliceSize. by rewrite u32_small by lia. }
  cbn [mbind res_bind].
  assert (forall r, exists r' b', (Ret (r, b) : res (Z * Buffer)) = Ret (r', b') /\ ubuf b' /\ bound b' = bound b /\ (rbuf b -> rbuf b')) as Hsame
    by (intros r; exists r, b; split_and!; [done | by right | done | done]).
  destruct (Z.ltb_spec 0 (16384 - len b)); [|apply Hsame]. destruct a as [l|e]; [|apply Hsame].
  set (l' := take _ l). destruct (Nat.ltb 0 (length l')); [|apply Hsame].
  destruct (rbuf_fill b l' Hb) as (b1 & b2 & H1 & H2 & Hb2 & _).
  { by apply Forall_take. }
  { subst l'. rewrite length_take. lia. }
  rewrite H1. cbn [mbind res_bind]. rewrite H2. cbn [mbind res_bind].
  eexists _, b2. split_and!; [done | by right | by rewrite !rbuf_bound | done].
Qed.

Lemma readable_ok env upstream a c k :
  env_ok env -> e_metrics env = mt -> event_ok (Readable upstream a) -> conn_inv mt c k ->
  ok (on_readable env (Sc := Sc) upstream a) c k (fun _ => conn_inv mt).
Proof.
  intros He <- Ha Hinv. unfold on_readable. ok_steps. apply ok_if; intros Hfd; [by ok_steps|].
  destruct Hinv as [[Hcl ->]|(H & (p & Hp & Hf) & ->)].
  { exfalso. destruct Hcl as (_ & _ & _ & _ & _ & _ & h1 & h2 & _). destruct upstream; zify_bool; lia. }
  ok_steps. pose proof H as H'. base_parts H'.
  destruct (recv_into_total (if upstream then upstream_recv_buf c else recv_buf c) a) as (r & b' & Hr & Hu & Hbd & Hrb');
    [destruct upstream; [done | by right] | done |].
  eapply ok_step_conn_val; [rewrite Hr; reflexivity|]. cbn [fst snd]. cbv beta. apply dispatch_ok; [done|done|].
  destruct upstream.
  - apply (inv_open _ _ _ p); [base_join; exact Hu | exact Hp | | unfold due; conn_simpl; by rewrite Hbd].
    destruct p; try exact Hf; destruct Hf as (? & ? & ? & Hh); split_and!; try assumption; by apply Hrb'.
  - apply (inv_open _ _ _ p); [base_join; by apply Hrb' | exact Hp | by destruct p | done].
Qed.

Lemma react_ok env ev c k :
  env_ok env -> e_metrics env = mt -> event_ok ev -> conn_inv mt c k ->
  ok (react env (Sc := Sc) ev) c k (fun _ => conn_inv mt).
Proof.
  intros He Hm Hev Hinv. destruct ev as [shard fd'|up a|t result| | | |region]; cbn [react].
  2: by apply readable_ok.
  2: by subst mt; apply dispatch_ok.
  all: subst mt; pose proof Hinv as Hinv'; destruct Hinv' as [[Hcl ->]|(H & Hp & ->)];
    [pose proof Hcl as (_ & _ & _ & _ & h0 & _ & h1 & _) | pose proof H as (_ & _ & _ & _ & _ & _ & _ & _ & _ & _ & _ & h1 & _)].
  - ok_steps. apply ok_when; intros E; [by apply on_accept_ok | done].
  - ok_steps. apply ok_when; intros E; [zify_bool; lia | done].
  - ok_steps. apply ok_when; intros E; [zify_bool; lia | done].
  - ok_steps. apply ok_when; intros E; [by apply on_timer_ok | done].
  - unfold on_timer. ok_steps. unfold calm in h0. rewrite h0. cbv iota. by apply ok_when; intros E.
  - by apply on_timer_ok.
  - unfold force_close. ok_steps. apply ok_when; intros E; [zify_bool; lia | done].
  - unfold force_close. ok_steps. apply ok_when; intros E; [by apply close_conn_ok | done].
  - unfold attach_capture. ok_steps. apply ok_when; intros E; [zify_bool; lia | done].
  - unfold attach_capture. ok_steps. apply ok_when; intros E; [|done]. ok_steps. destruct Hp as (p & Hp & Hf).
    apply (inv_open _ _ _ p); [base_parts H; base_join; exact Hev | exact Hp | by destruct p | done].
Qed.

Lemma fresh_inv shard : conn_inv mt (sconn (fresh shard)) tzero.
Proof. left. split; [|done]. by split_and!. Qed.

(** The invariant holds in every state, and every event can be handled. *)
Lemma reachable_inv s : reachable s -> conn_inv mt (sconn s) (tally (trace s)).
Proof.
  induction 1 as [shard|env ev [c tr n] s' _ IH He Hm Hev Hs]; [apply fresh_inv|].
  destruct (react_ok env ev c (tally tr) He Hm Hev IH tr n eq_refl) as ([] & s1 & Hs1 & Hinv).
  rewrite Hs in Hs1. injection Hs1 as <-. done.
Qed.

Lemma reachable_progress s env ev :
  reachable s -> env_ok env -> e_metrics env = mt -> event_ok ev ->
  exists s', react env (Sc := Sc) ev s = Ret (tt, s') /\ reachable s'.
Proof.
  intros Hr He Hm Hev. pose proof (reachable_inv s Hr) as Hinv. destruct s as [c tr n].
  destruct (react_ok env ev c (tally tr) He Hm Hev Hinv tr n eq_refl) as ([] & s1 & Hs1 & _).
  exists s1. split; [done|]. by eapply reach_step.
Qed.

(** ** Properties *)

(** C2: no event can fault a connection.  From a free slot, whatever events
    arrive in whatever order, with whatever bytes, results, clock readings,
    handler outcomes and pool failures, handling the next event always ends: no
    buffer is used after its release or out of its bounds, no slice of a slice
    reads past its end, no loop runs out of its bound; and afterwards the
    connection is closed with everything handed back, or open with its receive
    and send buffers bound to whole slices. *)
Theorem connection_never_faults s env ev :
  reachable s -> env_ok env -> e_metrics env = mt -> event_ok ev ->
  exists s', react env (Sc := Sc) ev s = Ret (tt, s') /\
    (closed (sconn s') \/ base (sconn s')).
Proof.
  intros Hr He Hm Hev. destruct (reachable_progress s env ev Hr He Hm Hev) as (s' & Hs & Hr').
  exists s'. split; [done|]. destruct (reachable_inv s' Hr') as [[? _]|[? _]]; auto.
Qed.

(** C7: the callback slots are typed.  In every reachable state of an open
    connection the four slots are exactly those of one phase, each slot holds a
    callback for the events it receives, and what the callbacks of the phase
    rely on holds: a request is timed exactly when one is being served, an
    upstream buffer is there when an upstream is talked to, stashed bytes are in
    the send buffer, and a pending handler means the connection is suspended
    with no callback. *)
Theorem slots_are_typed s :
  reachable s -> 0 <= fd (sconn s) ->
  exists p, slots (sconn s) = slots_of p /\ phase_facts p (sconn s) /\
    (busy (sconn s) <-> p <> Waiting) /\ (calm (sconn s) <-> p <> Suspended).
Proof.
  intros Hr Hfd. destruct (reachable_inv s Hr) as [[Hcl _]|(_ & (p & Hp & Hf) & _)].
  { destruct Hcl as (_ & _ & _ & _ & _ & _ & h & _). lia. }
  exists p. split; [by apply phase_of_inv|]. split; [done|].
  destruct p; cbn [phase_facts] in Hf; split; split; intros; try done; try tauto.
Qed.

(** C4: everything taken is given back.  In every reachable state the operations
    so far balance: one epoch entry (and with metrics one active request) is
    outstanding exactly while a request is being served, and the slices taken
    from the pool and not returned are those of the bound buffers; the slot of the
    connection table is taken (and with metrics counted as open) exactly while
    the connection is open, no other slot is ever freed, and when the connection
    is closed nothing is outstanding. *)
Theorem connection_accounts_balance s :
  reachable s ->
  let b := if req_start_us (sconn s) =? 0 then 0 else 1 in
  let held x := Z.b2z (bound x) in
  t_epoch (tally (trace s)) = b /\
  t_active (tally (trace s)) = (if mt then b else 0) /\
  t_slices (tally (trace s)) =
    held (recv_buf (sconn s)) + held (send_buf (sconn s)) + held (upstream_recv_buf (sconn s)) /\
  t_slot (tally (trace s)) = (if fd (sconn s) <? 0 then 0 else 1) /\
  t_open (tally (trace s)) = (if mt then t_slot (tally (trace s)) else 0) /\
  t_stray (tally (trace s)) = 0 /\
  (fd (sconn s) < 0 -> tally (trace s) = tzero).
Proof.
  intros Hr. cbv zeta. destruct (reachable_inv s Hr) as [[Hcl ->]|(H & _ & ->)].
  - destruct Hcl as (_ & _ & _ & _ & _ & -> & -> & _ & -> & -> & -> & _). by destruct mt.
  - base_parts H. rewrite (rbuf_bound _ Hrb), (sbuf_bound _ Hsb). cbn [due t_epoch t_active t_slices t_slot t_open t_stray].
    rewrite (proj2 (Z.ltb_ge _ _)) by lia. split_and!; first [done | lia | by destruct mt].
Qed.
End reachable.

(** ** Runs *)

(** Events in order, under one environment. *)
Fixpoint run_events {SL : Slot} (env : Env) (Sc : Scanners) (evs : list Event) (s : Sys) : res Sys :=
  match evs with
  | [] => Ret s
  | ev :: evs' => match react env (Sc := Sc) ev s with
                  | Ret (_, s') => run_events env Sc evs' s'
                  | Trap => Trap
                  | Fault => Fault
                  end
  end.

Lemma run_reachable {SL : Slot} env Sc evs s s' :
  env_ok env -> Forall event_ok evs -> reachable (e_metrics env) Sc s ->
  run_events env Sc evs s = Ret s' -> reachable (e_metrics env) Sc s'.
Proof.
  intros He Hev. revert s. induction Hev as [|ev evs Hok _ IH]; intros s Hr; cbn [run_events]; [by intros [= <-]|].
  destruct (react env ev s) as [[[] s1]| |] eqn:Es; [|done..]. apply IH. by eapply reach_step.
Qed.

(** The example runs happen in slot 5. *)
#[local] Instance slot_ex : Slot := 5.

Definition run_end (r : res Sys) : Sys := match r with Ret s => s | _ => fresh 0 end.

(** A table with a proxied and a static route, and a world where everything
    succeeds. *)
Definition proxy_config : RouteConfig :=
  snd (add_static (snd (add_proxy (snd (add_upstream seg_config (bs "api") 2130706433 8080))
    (Some (bs "/up")) 0 0)) (Some (bs "/ok")) 0 204).

Definition slice_bytes : list Z := replicate (Z.to_nat kSliceSize) 0.

Definition env_ex : Env :=
  mkEnv (fun n => 1000 + Z.of_nat n) (fun _ => 1774279800123000) (fun _ => false) (fun _ => 9) (fun _ => true) (fun _ => Some slice_bytes)
    (fun _ => None) (fun _ => None) (fun _ => true) (fun _ => []) (fun _ _ ctx _ => (0, ctx))
    (fun _ => Some proxy_config) true true false.

Definition evs_static : list Event :=
  [Accepted 0 7; Readable false (Got (bs "GET /ok HTTP/1.1" ++ CRLF ++ CRLF))].

Example static_run :
  match run_events env_ex sse2_scanners evs_static (fresh 0) with
  | Ret s => conn_phase (sconn s) = Some Responding /\ resp_status (sconn s) = 204
  | _ => False
  end.
Proof. vm_compute. split; reflexivity. Qed.

Definition evs_proxied (first early : list Z) : list Event :=
  [Accepted 0 7; Readable false (Got first); Completed UpstreamConnect 0;
   Completed UpstreamSend (Z.of_nat (length first)); Readable true (Got early)].

Lemma upstreams_proxy_config : table_inv proxy_config /\ bodies_inv proxy_config /\ headers_inv proxy_config.
Proof.
  set (c1 := snd (add_upstream seg_config (bs "api") 2130706433 8080)).
  assert (table_inv c1) as H1.
  { destruct seg_config_inv as [h1 h2 h3 h4 h5]. split; done. }
  set (c2 := snd (add_proxy c1 (Some (bs "/up")) 0 0)).
  assert (table_inv c2) as H2.
  { apply (add_entry_spec c1 (Some (bs "/up")) 0 Proxy 0 0 0 false true c2 H1);
      [apply Nat.ltb_lt; vm_compute; reflexivity | lia | vm_compute; reflexivity]. }
  split_and!.
  - apply (add_entry_spec c2 (Some (bs "/ok")) 0 Static 0 204 0 false true proxy_config H2);
      [apply Nat.ltb_lt; vm_compute; reflexivity | lia | vm_compute; reflexivity].
  - split; [apply Nat.leb_le; vm_compute; reflexivity.. | vm_compute; constructor].
  - split; try (apply Nat.leb_le; vm_compute; reflexivity); vm_compute; done || constructor.
Qed.

Lemma proxy_config_serving : Serving proxy_config.
Proof.
  destruct upstreams_proxy_config as (H1 & H2 & H3). apply table_serving; try done.
  vm_compute. repeat constructor; intros; try done. by eexists.
Qed.

Lemma env_ex_ok : env_ok env_ex.
Proof.
  split; cbn [env_ex e_now e_slice e_capture_slice e_recv e_config].
  - intros n. lia.
  - intros n s [= <-]. unfold slice_bytes. rewrite length_replicate. unfold kSliceSize. lia.
  - done.
  - constructor.
  - intros n cfg [= <-]. apply proxy_config_serving.
Qed.

(** A proxied POST whose body is still arriving when the upstream answers. *)
Definition post_head (path : string) : list Z :=
  bs "POST " ++ bs path ++ bs " HTTP/1.1" ++ CRLF ++ bs "Content-Length: 26" ++ CRLF ++ CRLF ++ bs "abc".
Definition body_rest : list Z := bs "GET /admin HTTP/1.1" ++ CRLF ++ CRLF.
Definition early_413 : list Z := bs "HTTP/1.1 413 Too Large" ++ CRLF ++ bs "Content-Length: 0" ++ CRLF ++ CRLF.

Definition evs_early : list Event := evs_proxied (post_head "/up") early_413.
Definition mid_run : Sys := run_end (run_events env_ex sse2_scanners evs_early (fresh 0)).

Lemma evs_early_ok : Forall event_ok evs_early.
Proof. unfold evs_early, evs_proxied. repeat (constructor; try done); by apply bytes_ok_Forall. Qed.

Lemma mid_run_reachable : reachable true sse2_scanners mid_run.
Proof.
  apply (run_reachable env_ex sse2_scanners evs_early (fresh 0)); [apply env_ex_ok | apply evs_early_ok | apply reach_fresh |].
  vm_compute. reflexivity.
Qed.

Lemma connection_never_faults_witness :
  exists s', react env_ex (Sc := sse2_scanners) (Completed Send 45) mid_run = Ret (tt, s') /\
    (closed (sconn s') \/ base (sconn s')).
Proof.
  apply (connection_never_faults true sse2_scanners sse2_ok mid_run env_ex (Completed Send 45) mid_run_reachable env_ex_ok);
    done.
Defined.

Lemma slots_are_typed_witness :
  exists p, slots (sconn mid_run) = slots_of p /\ phase_facts p (sconn mid_run) /\
    (busy (sconn mid_run) <-> p <> Waiting) /\ (calm (sconn mid_run) <-> p <> Suspended).
Proof.
  apply (slots_are_typed true sse2_scanners sse2_ok mid_run mid_run_reachable). vm_compute. done.
Defined.

Lemma connection_accounts_balance_witness :
  let b := if req_start_us (sconn mid_run) =? 0 then 0 else 1 in
  let held x := Z.b2z (bound x) in
  t_epoch (tally (trace mid_run)) = b /\ t_active (tally (trace mid_run)) = b /\
  t_slices (tally (trace mid_run)) =
    held (recv_buf (sconn mid_run)) + held (send_buf (sconn mid_run)) + held (upstream_recv_buf (sconn mid_run)) /\
  t_slot (tally (trace mid_run)) = (if fd (sconn mid_run) <? 0 then 0 else 1) /\
  t_open (tally (trace mid_run)) = t_slot (tally (trace mid_run)) /\ t_stray (tally (trace mid_run)) = 0 /\
  (fd (sconn mid_run) < 0 -> tally (trace mid_run) = tzero).
Proof. exact (connection_accounts_balance true sse2_scanners sse2_ok mid_run mid_run_reachable). Defined.

(** ** Bodies that are read as requests *)

Definition requests_started (tr : list Eff) : nat :=
  length (List.filter (fun e => match e with EEpochEnter => true | _ => false end) tr).

(** The bytes of both reads are one request, all of it: a POST with a body of
    26 bytes. *)
Example one_request path :
  path = "/up"%string \/ path = "/ok"%string ->
  let all := post_head path ++ body_rest in
  match parse (S := sse2_scanners) all blank_request with
  | Some (POut HttpParser.Complete he r) =>
      HttpParser.method r = POST /\ message_ends all he r (length all)
  | _ => False
  end.
Proof. intros [-> | ->]; vm_compute; by split. Qed.

(** A local response to a request whose body has not been read keeps the
    connection: the rest of the body is served as a second request. *)
Example unread_body_is_next_request :
  let evs := [Accepted 0 7; Readable false (Got (post_head "/ok")); Completed Send 70; Readable false (Got body_rest)] in
  match run_events env_ex sse2_scanners evs (fresh 0) with
  | Ret s => requests_started (trace s) = 2%nat /\ conn_phase (sconn s) = Some Responding /\
      c_string (req_path (sconn s)) = bs "/admin" /\ req_method (sconn s) = LGet
  | _ => False
  end.
Proof. vm_compute. by split_and!. Qed.

(** The same after an early response of the upstream: the connection was marked
    to close, and is kept. *)
Example early_response_keeps_connection :
  Connection.keep_alive (sconn mid_run) = false /\ 0 < req_body_remaining (sconn mid_run) /\
  match run_events env_ex sse2_scanners [Completed Send 45; Readable false (Got body_rest)] mid_run with
  | Ret s => requests_started (trace s) = 2%nat /\ conn_phase (sconn s) = Some Responding /\
      c_string (req_path (sconn s)) = bs "/admin" /\ req_method (sconn s) = LGet
  | _ => False
  end.
Proof. vm_compute. by split_and!. Qed.

(** While draining, a [Connection] header that is the last of the head keeps the
    last byte of its value. *)
Example drained_last_header :
  let head v := bs "HTTP/1.1 200 OK" ++ CRLF ++ bs "Connection: " ++ bs v in
  rewrite_connection (head "keep-alive"%string ++ CRLF ++ CRLF) (length (head "keep-alive"%string)) =
    Some (head "close    e"%string ++ CRLF ++ CRLF).
Proof. vm_compute. reflexivity. Qed.
