(* ===== verification/ConnEffects.v ===== *)
(** * What the callbacks of a connection do not do

    The operations a connection hands out are only ever added to its trace, and
    no callback takes a slot of the connection table: only the accept does. *)

From S2P Require Import Prelude HttpParser ChunkedParser RouteMethod RouteTrie RouteTable HandlerAbi Buffer Connection.
From S2P Require Import Response RequestMeta EventLoop Callbacks EpollBackend ConnLogic ConnInv ConnSafety.

(** [m] adds operations that satisfy [P]. *)
Definition emits {A} (P : Eff -> Prop) (m : M A) : Prop :=
  forall s a s', m s = Ret (a, s') -> exists l, trace s' = trace s ++ l /\ Forall P l.

Section rules.
Context {A : Type} (P : Eff -> Prop).

Lemma emits_quiet (m : M A) : (forall s a s', m s = Ret (a, s') -> trace s' = trace s) -> emits P m.
Proof. intros H s a s' Hm. exists []. rewrite app_nil_r. eauto. Qed.

Lemma eff_ret (a : A) : emits P (mret a).
Proof. apply emits_quiet. by intros s b s' [= _ <-]. Qed.

Lemma eff_bind {B} (m : M B) (f : B -> M A) : emits P m -> (forall b, emits P (f b)) -> emits P (m ≫= f).
Proof.
  intros Hm Hf s a s' H. unfold mbind, M_bind in H. destruct (m s) as [[b s1]| |] eqn:E; [|done..].
  destruct (Hm _ _ _ E) as (l & Hl & Hp), (Hf _ _ _ _ H) as (l' & Hl' & Hp'). exists (l ++ l').
  rewrite Hl', Hl, app_assoc. split; [done|]. by apply Forall_app.
Qed.

Lemma emits_bindM {B} (m : M B) (f : B -> M A) : emits P m -> (forall b, emits P (f b)) -> emits P (bindM m f).
Proof. apply eff_bind. Qed.

Lemma emits_ask (f : nat -> A) : emits P (ask f).
Proof. apply emits_quiet. by intros s a s' [= _ <-]. Qed.

Lemma emits_lift (m : res A) : emits P (lift m).
Proof. apply emits_quiet. unfold lift. intros s a s'. destruct m; [|done..]. by intros [= _ <-]. Qed.
End rules.

Lemma emits_get P : emits P get.
Proof. apply emits_quiet. by intros s a s' [= _ <-]. Qed.

Lemma emits_modify P f : emits P (modify f).
Proof. apply emits_quiet. by intros s a s' [= _ <-]. Qed.

Lemma emits_emit P e : P e -> emits P (emit e).
Proof. intros He s a s' [= _ <-]. by exists [e]; split; [|constructor]. Qed.

Lemma emits_step_conn P f : emits P (step_conn f).
Proof.
  apply eff_bind; [apply emits_get|]. intros c. apply eff_bind; [apply emits_lift|]. intros c'. apply emits_modify.
Qed.

Lemma emits_step_conn_val {A} P (f : Connection -> res (A * Connection)) : emits P (step_conn_val f).
Proof.
  apply eff_bind; [apply emits_get|]. intros c. apply eff_bind; [apply emits_lift|]. intros r.
  apply eff_bind; [apply emits_modify|]. intros _. apply eff_ret.
Qed.

(** Everything but the slot of a new connection. *)
Definition no_alloc (e : Eff) : Prop := match e with EAllocConn => False | _ => True end.

Create HintDb effects discriminated.
#[export] Hint Constants Opaque : effects.
#[export] Hint Resolve eff_ret emits_ask emits_lift emits_get emits_modify emits_step_conn emits_step_conn_val : effects.

(** Walk through a program; known parts are in the hint database, other names
    are opened. *)
Ltac emits_step :=
  lazymatch goal with
  | |- emits _ (bindM _ _) => apply emits_bindM; [|intros ?]
  | |- emits _ (_ ≫= _) => apply eff_bind; [|intros ?]
  | |- emits _ (emit _) => apply emits_emit; exact I
  | |- emits _ (when ?b _) => unfold when
  | |- emits _ (if ?b then _ else _) => destruct b
  | |- emits _ (let '_ := ?x in _) => destruct x
  | |- emits _ (match ?x with _ => _ end) => destruct x
  | |- emits _ _ => solve [eauto with effects nocore]
  end.
Ltac emits_open :=
  lazymatch goal with
  | |- emits _ ?m =>
      let rec head t := lazymatch t with ?f _ => head f | _ => t end in
      let h := head m in unfold h
  end.
Ltac emits_tac := repeat first [progress cbv beta zeta | emits_step | emits_open].

Section callbacks.
Context (env : Env) `{Sc : Scanners}.

Lemma close_conn_emits : emits no_alloc (close_conn env).
Proof. emits_tac. Qed.

Lemma fail_with_emits code : emits no_alloc (fail_with code).
Proof. emits_tac. Qed.

Lemma send_502_emits : emits no_alloc send_502.
Proof. emits_tac. Qed.

Lemma complete_emits status size : emits no_alloc (on_request_complete env status size).
Proof. emits_tac. Qed.
#[local] Hint Resolve close_conn_emits fail_with_emits send_502_emits complete_emits : effects.

Lemma jit_outcome_emits o fn keep : emits no_alloc (handle_jit_outcome env o fn keep).
Proof. emits_tac. Qed.
#[local] Hint Resolve jit_outcome_emits : effects.

Lemma header_received_emits result : emits no_alloc (on_header_received env (Sc := Sc) result).
Proof. emits_tac. Qed.
#[local] Hint Resolve header_received_emits : effects.

Lemma next_after_proxy_emits : emits no_alloc (next_after_proxy env (Sc := Sc)).
Proof. emits_tac. Qed.

Lemma body_recvd_emits result : emits no_alloc (on_response_body_recvd env result).
Proof. emits_tac. Qed.

Lemma response_complete_emits resp header_len : emits no_alloc (response_complete env resp header_len).
Proof. emits_tac. Qed.
#[local] Hint Resolve next_after_proxy_emits body_recvd_emits response_complete_emits : effects.

Lemma upstream_loop_emits fuel : forall result, emits no_alloc (upstream_response_loop env (Sc := Sc) fuel result).
Proof. induction fuel as [|fuel IH]; intros result; cbn [upstream_response_loop]; emits_tac. Qed.

Lemma early_loop_emits fuel : forall result inflight, emits no_alloc (early_recv_loop env (Sc := Sc) fuel result inflight).
Proof. induction fuel as [|fuel IH]; intros result inflight; cbn [early_recv_loop]; emits_tac. Qed.
#[local] Hint Resolve upstream_loop_emits early_loop_emits : effects.

Lemma upstream_response_emits result : emits no_alloc (on_upstream_response env (Sc := Sc) result).
Proof. emits_tac. Qed.
#[local] Hint Resolve upstream_response_emits : effects.

Lemma run_callback_emits cb result : emits no_alloc (run_callback env (Sc := Sc) cb result).
Proof. destruct cb; cbn [run_callback]; emits_tac. Qed.

Lemma resume_emits : emits no_alloc (resume_jit_handler env).
Proof. emits_tac. Qed.
#[local] Hint Resolve run_callback_emits resume_emits : effects.

Lemma dispatch_emits t result : emits no_alloc (dispatch env (Sc := Sc) t result).
Proof. emits_tac. Qed.
#[local] Hint Resolve dispatch_emits : effects.

(** Only an accept takes a slot. *)
Lemma react_emits {SL : Slot} ev :
  (forall shard fd, ev <> Accepted shard fd) -> emits no_alloc (react env (Sc := Sc) ev).
Proof.
  intros Hev. destruct ev as [shard fd'|up a|t result| | | |region]; cbn [react];
    [by destruct (Hev shard fd') | emits_tac ..].
Qed.

(** An accept frees nothing. *)
Definition no_free (e : Eff) : Prop := match e with EFreeConn _ => False | _ => True end.

Lemma accept_emits slot shard fd' : emits no_free (on_accept env slot shard fd').
Proof. emits_tac. Qed.
End callbacks.
