(* ===== verification/EpollLoop.v ===== *)
(** * The connection table and the run loop

    Model of EpollEventLoop (include/rut/runtime/epoll_event_loop.h) above the
    single connection: the table of slots with its free stack, the dispatch of a
    batch of events to the slots, the drain of a shard (include/rut/runtime/
    drain.h) and the end of the run loop.  A slot is a connection with its own
    trace ([ConnSafety]); what a callback does to the free stack is read off the
    operations it hands out.  Which connections a tick of the wheel or a due
    yield timer concerns is an argument (see TimerWheel and YieldHeap).  Every
    slot has its own environment in every event. *)

From S2P Require Import Prelude HttpParser RouteMethod RouteTrie RouteTable HandlerAbi Buffer Connection.
From S2P Require Import EventLoop Callbacks EpollBackend ConnLogic ConnInv ConnSafety ConnEffects.

(** ** Drain schedule *)

Definition should_drain_close (conn_id drain_start now period_secs : Z) : bool :=
  if period_secs =? 0 then true
  else
    let elapsed := u64 (now - drain_start) in
    if period_secs <=? elapsed then true
    else
      let hash := u32 (conn_id * 2654435761) in
      let threshold := hash mod period_secs in
      threshold <? u32 elapsed.

(** ** State *)

Record Loop := mkLoop {
  conns : list Sys;
  free_stack : list nat;
  draining : option (Z * Z);
  refused : list Z;
  listening : bool;
  running : bool
}.

Definition set_slot (i : nat) (s : Sys) (fs : list nat) (L : Loop) : Loop :=
  mkLoop (<[i := s]> (conns L)) fs (draining L) (refused L) (listening L) (running L).
Definition set_running (b : bool) (L : Loop) : Loop :=
  mkLoop (conns L) (free_stack L) (draining L) (refused L) (listening L) b.

(** The top of the stack is the head of the list. *)
Definition loop_init (kMaxConns : nat) (shard : Z) : Loop :=
  mkLoop ((fun i => fresh (SL := Z.of_nat i) shard) <$> seq 0 kMaxConns) (reverse (seq 0 kMaxConns)) None [] true true.

Definition active_count (L : Loop) : nat := length (conns L) - length (free_stack L).

(** [free_stack[--free_top]] and [free_stack[free_top++] = cid]. *)
Definition stack_effect (fs : list nat) (e : Eff) : list nat :=
  match e with
  | EAllocConn => tail fs
  | EFreeConn cid => Z.to_nat cid :: fs
  | _ => fs
  end.

Definition loop_drain (now period : Z) (L : Loop) : Loop :=
  mkLoop (conns L) (free_stack L) (Some (now, period)) (refused L) (listening L) (running L).

Section loop.
Context `{Sc : Scanners}.

(** ** Events *)

(** An event of slot [i]; [ev.conn_id < kMaxConns] guards the access. *)
Definition on_slot (env : Env) (i : nat) (ev : Event) (L : Loop) : res Loop :=
  match conns L !! i with
  | None => Ret L
  | Some s =>
      match react (SL := Z.of_nat i) env (Sc := Sc) ev s with
      | Ret (_, s') =>
          Ret (set_slot i s' (foldl stack_effect (free_stack L) (drop (length (trace s)) (trace s'))) L)
      | Trap => Trap
      | Fault => Fault
      end
  end.

(** [alloc_conn_impl] looks at the top of the free stack; without a slot the new
    descriptor is closed. *)
Definition loop_accept (envs : nat -> Env) (shard fd : Z) (L : Loop) : res Loop :=
  match free_stack L with
  | [] => Ret (if fd <? 0 then L
               else mkLoop (conns L) [] (draining L) (refused L ++ [fd]) (listening L) (running L))
  | i :: _ => on_slot (envs i) i (Accepted shard fd) L
  end.

(** An event on several slots, in order. *)
Fixpoint on_slots (envs : nat -> Env) (ids : list nat) (ev : nat -> Event) (L : Loop) : res Loop :=
  match ids with
  | [] => Ret L
  | i :: ids' => L' ← on_slot (envs i) i (ev i) L; on_slots envs ids' ev L'
  end.

(** An idle connection the drain schedule closes at this tick. *)
Definition drained (start now period : Z) (L : Loop) (i : nat) : bool :=
  match conns L !! i with
  | Some s => (0 <=? fd (sconn s)) && bool_decide (state (sconn s) = ReadingHeader) &&
              should_drain_close (Z.of_nat i) start now period
  | None => false
  end.

Fixpoint drain_idle (envs : nat -> Env) (ids : list nat) (start now period : Z) (L : Loop) : res Loop :=
  match ids with
  | [] => Ret L
  | i :: ids' =>
      L' ← (if drained start now period L i then on_slot (envs i) i ForceClosed L else Ret L);
      drain_idle envs ids' start now period L'
  end.

Definition on_tick (envs : nat -> Env) (expired : list nat) (now : Z) (L : Loop) : res Loop :=
  L ← on_slots envs expired (fun _ => WheelExpired) L;
  match draining L with
  | Some (start, period) => drain_idle envs (seq 0 (length (conns L))) start now period L
  | None => Ret L
  end.

Inductive LoopEvent :=
  | EvAccept (shard fd : Z)
  | EvReadable (i : nat) (upstream : bool) (a : RecvAnswer)
  | EvCompleted (i : nat) (t : IoEventType) (result : Z)
  | EvTick (expired : list nat) (now : Z)
  | EvYield (due : list nat)
  | EvCapture (regions : nat -> list Z).

Definition loop_dispatch (envs : nat -> Env) (ev : LoopEvent) (L : Loop) : res Loop :=
  match ev with
  | EvAccept shard fd => loop_accept envs shard fd L
  | EvReadable i up a => on_slot (envs i) i (Readable up a) L
  | EvCompleted i t r => on_slot (envs i) i (Completed t r) L
  | EvTick expired now => on_tick envs expired now L
  | EvYield due => on_slots envs due (fun _ => YieldExpired) L
  | EvCapture regions => on_slots envs (seq 0 (length (conns L))) (fun i => CaptureAttached (regions i)) L
  end.

Definition force_close_all (envs : nat -> Env) (L : Loop) : res Loop :=
  on_slots envs (seq 0 (length (conns L))) (fun _ => ForceClosed) L.

(** The end of an iteration of [run]: the drain test. *)
Definition drain_check (envs : nat -> Env) (now : Z) (L : Loop) : res Loop :=
  match draining L with
  | None => Ret L
  | Some (start, period) =>
      let L := mkLoop (conns L) (free_stack L) (draining L) (refused L) false (running L) in
      if Nat.eqb (active_count L) 0 then Ret (set_running false L)
      else if u64 (start + period) <=? now then
        L ← force_close_all envs L; Ret (set_running false L)
      else Ret L
  end.

(** One iteration: a batch of events, then the drain test. *)
Fixpoint dispatch_all (evs : list ((nat -> Env) * LoopEvent)) (L : Loop) : res Loop :=
  match evs with
  | [] => Ret L
  | (envs, ev) :: evs' => L' ← loop_dispatch envs ev L; dispatch_all evs' L'
  end.

Record Iteration := mkIter { it_events : list ((nat -> Env) * LoopEvent); it_envs : nat -> Env; it_now : Z }.

Definition iterate (it : Iteration) (L : Loop) : res Loop :=
  L ← dispatch_all (it_events it) L; drain_check (it_envs it) (it_now it) L.

(** [run], over the iterations the world offers. *)
Fixpoint run_loop (its : list Iteration) (L : Loop) : res Loop :=
  match its with
  | [] => Ret L
  | it :: its' => if running L then L' ← iterate it L; run_loop its' L' else Ret L
  end.

End loop.

(** ** Operations of one event on the free stack *)

Section effects.
Context {SL : Slot}.

Lemma tadd_assoc a b c : tadd a (tadd b c) = tadd (tadd a b) c.
Proof. unfold tadd. cbn. f_equal; lia. Qed.

Lemma tadd_zero_l k : tadd tzero k = k.
Proof. destruct k. reflexivity. Qed.

Lemma tally_app l l' : tally (l ++ l') = tadd (tally l) (tally l').
Proof.
  induction l' as [|e l' IH] using rev_ind; [by rewrite app_nil_r, tadd_zero|].
  by rewrite app_assoc, !tally_snoc, IH, tadd_assoc.
Qed.

(** Operations without an allocation push this slot as often as it is freed. *)
Lemma frees_push l i :
  slot_id = Z.of_nat i -> Forall no_alloc l ->
  t_slot (tally l) <= 0 /\ 0 <= t_stray (tally l) /\
  (t_stray (tally l) = 0 -> forall fs,
    foldl stack_effect fs l = replicate (Z.to_nat (- t_slot (tally l))) i ++ fs).
Proof.
  intros Hi. induction l as [|e l IH] using rev_ind; intros Hl; [by vm_compute; split_and!|].
  apply Forall_app in Hl as [Hl He]. apply Forall_cons in He as [He _]. destruct (IH Hl) as (Hs & Hy & Hf). rewrite tally_snoc.
  destruct e; cbn [no_alloc] in He; try done; cbn [tally_of];
    try (cbn [tadd t_slot t_stray tzero]; rewrite !Z.add_0_r; split_and!; [done..|];
         intros H fs; rewrite foldl_app; cbn [foldl stack_effect]; by apply Hf).
  match goal with |- context [?x =? slot_id] => destruct (Z.eqb_spec x slot_id) as [->|Hne] end; cbn [tadd t_slot t_stray]; split_and!; try lia.
  rewrite Z.add_0_r. intros H fs. rewrite foldl_app, Hf by done. cbn [foldl stack_effect].
  rewrite Hi, Nat2Z.id. replace (- (t_slot (tally l) + -1)) with (Z.succ (- t_slot (tally l))) by lia. by rewrite Z2Nat.inj_succ by lia.
Qed.

(** Operations without a free pop as often as the slot is taken. *)
Lemma allocs_pop l :
  Forall no_free l ->
  0 <= t_slot (tally l) /\ forall fs, foldl stack_effect fs l = drop (Z.to_nat (t_slot (tally l))) fs.
Proof.
  induction l as [|e l IH] using rev_ind; intros Hl; [by vm_compute|].
  apply Forall_app in Hl as [Hl He]. apply Forall_cons in He as [He _]. destruct (IH Hl) as (Hs & Hf). rewrite tally_snoc.
  destruct e; cbn [no_free] in He; try done; cbn [tally_of tadd t_slot tzero]; rewrite ?Z.add_0_r;
    (split; [lia|]; intros fs; rewrite foldl_app, Hf; cbn [foldl stack_effect]; try done).
  rewrite Z2Nat.inj_add by lia. change (Z.to_nat 1) with 1%nat. rewrite <- drop_drop. by destruct (drop _ fs).
Qed.
End effects.

(** ** The table *)

Definition loop_event_ok (ev : LoopEvent) : Prop :=
  match ev with
  | EvReadable _ up a => event_ok (Readable up a)
  | EvCapture regions => forall i, event_ok (CaptureAttached (regions i))
  | _ => True
  end.

Section table.
Context (mt : bool) (Sc : Scanners) (HS : ScannersOk Sc).

(** A slot is on the free stack exactly when its connection is closed, once. *)
Record loop_inv (L : Loop) : Prop := {
  li_slots : forall i s, conns L !! i = Some s -> reachable (SL := Z.of_nat i) mt Sc s;
  li_nodup : NoDup (free_stack L);
  li_free : forall i, i ∈ free_stack L <-> exists s, conns L !! i = Some s /\ fd (sconn s) < 0
}.

Definition envs_ok (envs : nat -> Env) : Prop := forall i, env_ok (envs i) /\ e_metrics (envs i) = mt.

Definition iter_ok (it : Iteration) : Prop :=
  Forall (fun x => envs_ok x.1 /\ loop_event_ok x.2) (it_events it) /\ envs_ok (it_envs it).

(** What the loop keeps but for the slots and the free stack. *)
Definition same_frame (L L' : Loop) : Prop :=
  length (conns L') = length (conns L) /\ draining L' = draining L /\ listening L' = listening L /\ running L' = running L.

Lemma table_init_inv n shard : loop_inv (loop_init n shard).
Proof.
  split; cbn [conns free_stack loop_init].
  - intros i s. rewrite list_lookup_fmap. destruct (seq 0 n !! i) as [j|] eqn:E; [|done].
    apply lookup_seq in E as [-> _]. intros [= <-]. apply reach_fresh.
  - rewrite reverse_Permutation. apply NoDup_seq.
  - intros i. rewrite elem_of_reverse, elem_of_seq. split.
    + intros [_ Hi]. eexists. rewrite list_lookup_fmap, lookup_seq_lt by lia. by split.
    + intros (s & Hs & _). apply lookup_lt_Some in Hs. rewrite length_fmap, length_seq in Hs. lia.
Qed.

Lemma slot_account {SL : Slot} s :
  reachable mt Sc s ->
  t_slot (tally (trace s)) = (if fd (sconn s) <? 0 then 0 else 1) /\ t_stray (tally (trace s)) = 0.
Proof.
  intros Hr. destruct (reachable_inv mt Sc HS s Hr) as [[Hcl ->]|(H & _ & ->)].
  - destruct Hcl as (_ & _ & _ & _ & _ & _ & -> & _). done.
  - base_parts H. by rewrite (proj2 (Z.ltb_ge _ _)) by lia.
Qed.

(** A callback keeps the slot as it was, gives it back, or takes it; only an
    accept takes it. *)
Lemma slot_delta i s s' env ev fs :
  reachable (SL := Z.of_nat i) mt Sc s -> reachable (SL := Z.of_nat i) mt Sc s' ->
  react (SL := Z.of_nat i) env (Sc := Sc) ev s = Ret (tt, s') ->
  let fs' := foldl stack_effect fs (drop (length (trace s)) (trace s')) in
  (fd (sconn s) < 0 <-> fd (sconn s') < 0) /\ fs' = fs \/
  0 <= fd (sconn s) /\ fd (sconn s') < 0 /\ fs' = i :: fs \/
  fd (sconn s) < 0 /\ 0 <= fd (sconn s') /\ fs' = tail fs /\ exists shard fd', ev = Accepted shard fd'.
Proof.
  intros Hr Hr' Hs. cbv zeta.
  destruct (slot_account (SL := Z.of_nat i) s Hr) as [Ha Hy], (slot_account (SL := Z.of_nat i) s' Hr') as [Ha' Hy'].
  assert ((exists shard fd', ev = Accepted shard fd') \/ forall shard fd', ev <> Accepted shard fd') as [(shard & fd' & ->)|Hev]
    by (destruct ev; eauto).
  - assert (emits no_free (react (SL := Z.of_nat i) env (Sc := Sc) (Accepted shard fd'))) as Hem.
    { cbn [react]. apply emits_bindM; [apply emits_get|]. intros c. unfold when.
      destruct (fd c <? 0); [apply accept_emits | apply eff_ret]. }
    destruct (Hem _ _ _ Hs) as (l & Hl & Hp). rewrite Hl, drop_app_length in *.
    destruct (allocs_pop (SL := Z.of_nat i) l Hp) as (Hpos & Hfs). rewrite tally_app in Ha', Hy'. cbn [tadd t_slot t_stray] in *.
    rewrite Hfs.
    destruct (Z.ltb_spec (fd (sconn s)) 0), (Z.ltb_spec (fd (sconn s')) 0); try lia.
    + left. replace (t_slot _) with 0 by lia. split; [lia | done].
    + right. right. replace (t_slot _) with 1 by lia. split_and!; [lia..| by destruct fs | eauto].
    + left. replace (t_slot _) with 0 by lia. split; [lia | done].
  - destruct (react_emits env (SL := Z.of_nat i) ev Hev _ _ _ Hs) as (l & Hl & Hp). rewrite Hl, drop_app_length in *.
    destruct (frees_push (SL := Z.of_nat i) l i eq_refl Hp) as (Hneg & _ & Hfs).
    rewrite tally_app in Ha', Hy'. cbn [tadd t_slot t_stray] in *. rewrite Hfs by lia.
    destruct (Z.ltb_spec (fd (sconn s)) 0), (Z.ltb_spec (fd (sconn s')) 0); try lia.
    + left. replace (t_slot _) with 0 by lia. split; [lia | done].
    + right. left. replace (t_slot _) with (-1) by lia. split_and!; [lia..| done].
    + left. replace (t_slot _) with 0 by lia. split; [lia | done].
Qed.

(** An event of a slot, the accept of the slot on top included, keeps the table. *)
Lemma on_slot_inv envs i ev L :
  loop_inv L -> envs_ok envs -> event_ok ev ->
  (forall shard fd', ev = Accepted shard fd' -> head (free_stack L) = Some i) ->
  exists L', on_slot (envs i) i ev (Sc := Sc) L = Ret L' /\ loop_inv L' /\ same_frame L L'.
Proof.
  intros [Hsl Hnd Hfr] Henv Hev Hacc. unfold on_slot. destruct (conns L !! i) as [s|] eqn:Hi; [|by exists L].
  destruct (Henv i) as [He Hm]. pose proof (Hsl i s Hi) as Hr.
  destruct (reachable_progress (SL := Z.of_nat i) mt Sc HS s (envs i) ev Hr He Hm Hev) as (s' & Hs & Hr').
  rewrite Hs. eexists. split; [done|]. pose proof (slot_delta i s s' _ _ (free_stack L) Hr Hr' Hs) as Hd. cbv zeta in Hd.
  set (fs' := foldl _ _ _) in *. pose proof (lookup_lt_Some _ _ _ Hi) as Hlt.
  split; [|by split_and!; cbn; rewrite ?length_insert].
  assert (forall j, (exists s, <[i:=s']> (conns L) !! j = Some s /\ fd (sconn s) < 0) <->
                    if decide (j = i) then fd (sconn s') < 0 else j ∈ free_stack L) as Hj.
  { intros j. case_decide as E; [subst j|].
    - rewrite list_lookup_insert_eq by done. split; [by intros (? & [= <-] & ?) | eauto].
    - rewrite list_lookup_insert_ne by done. by rewrite Hfr. }
  assert (i ∈ free_stack L <-> fd (sconn s) < 0) as Hown.
  { rewrite Hfr, Hi. split; [by intros (? & [= <-] & ?) | eauto]. }
  split; cbn [conns free_stack set_slot].
  - intros j t. destruct (decide (j = i)) as [->|Hne].
    + rewrite list_lookup_insert_eq by done. by intros [= <-].
    + rewrite list_lookup_insert_ne by done. apply Hsl.
  - destruct Hd as [[_ ->]|[(Ho & _ & ->)|(_ & _ & -> & _)]]; [done | |].
    + constructor; [rewrite Hown; lia | done].
    + destruct Hnd; [constructor | done].
  - intros j. rewrite Hj. destruct Hd as [[Hsame ->]|[(Ho & Hc & ->)|(Hc & Ho & -> & shard & fd' & ->)]].
    + case_decide; [subst j; tauto | done].
    + rewrite elem_of_cons. case_decide; [subst j; tauto | naive_solver].
    + specialize (Hacc shard fd' eq_refl). destruct (free_stack L) as [|k fs]; [done|]. cbn in Hacc. injection Hacc as ->.
      cbn [tail]. inversion Hnd; subst. case_decide; [subst j; split; [done | lia] |].
      rewrite elem_of_cons. naive_solver.
Qed.

Lemma same_frame_trans L1 L2 L3 : same_frame L1 L2 -> same_frame L2 L3 -> same_frame L1 L3.
Proof. unfold same_frame. intuition congruence. Qed.

(** ** Several slots *)

Lemma on_slots_inv envs ids ev L :
  loop_inv L -> envs_ok envs -> (forall i, event_ok (ev i) /\ forall shard fd', ev i <> Accepted shard fd') ->
  exists L', on_slots envs ids ev (Sc := Sc) L = Ret L' /\ loop_inv L' /\ same_frame L L'.
Proof.
  intros HL Henv Hev. revert L HL. induction ids as [|i ids IH]; intros L HL; [by exists L|]. cbn [on_slots].
  destruct (Hev i) as [Hok Hna].
  destruct (on_slot_inv envs i (ev i) L HL Henv Hok) as (L1 & -> & H1 & F1); [by intros shard fd' E; destruct (Hna shard fd')|].
  destruct (IH L1 H1) as (L2 & H2 & HL2 & F2). exists L2. split_and!; [exact H2 | done | by eapply same_frame_trans].
Qed.

(** Closed by force: this slot is closed, the others are as they were. *)
Lemma on_slot_force envs i L :
  loop_inv L -> envs_ok envs ->
  exists L', on_slot (envs i) i ForceClosed (Sc := Sc) L = Ret L' /\ loop_inv L' /\ same_frame L L' /\
    (forall s, conns L' !! i = Some s -> fd (sconn s) < 0) /\ (forall j, j <> i -> conns L' !! j = conns L !! j).
Proof.
  intros HL Henv. destruct (on_slot_inv envs i ForceClosed L HL Henv) as (L' & H & HL' & F); [done|done|].
  exists L'. split_and!; try done; unfold on_slot in H; destruct (conns L !! i) as [s|] eqn:Hi;
    [| injection H as <-; congruence | | by injection H as <-].
  2: { intros j Hne. destruct (react _ _) as [[u s']| |]; [|done..]. injection H as <-. cbn. by rewrite list_lookup_insert_ne. }
  intros t Ht. destruct (Henv i) as [He Hm]. pose proof (li_slots L HL i s Hi) as Hr.
  destruct s as [c tr n]. pose proof (reachable_inv (SL := Z.of_nat i) mt Sc HS _ Hr) as Hinv. cbn [sconn trace] in Hinv.
  assert (ok (SL := Z.of_nat i) (react (SL := Z.of_nat i) (envs i) (Sc := Sc) ForceClosed) c
            (tally (SL := Z.of_nat i) tr) (fun _ c' _ => fd c' < 0)) as Hok.
  { cbn [react]. unfold force_close. ok_steps. apply ok_when; intros E; [|zify_bool; lia].
    destruct Hinv as [[Hcl _]|(Hb & _ & ->)].
    - destruct Hcl as (_ & _ & _ & _ & _ & _ & h & _). zify_bool. lia.
    - rewrite <- Hm. eapply ok_mono; [by apply close_conn_closed|].
      intros ? c' k' [(_ & _ & _ & _ & _ & _ & h & _) _]. lia. }
  destruct (Hok tr n eq_refl) as (u & s' & Hs & Hfd). rewrite Hs in H. injection H as <-. cbn in Ht.
  rewrite list_lookup_insert_eq in Ht by (by eapply lookup_lt_Some). by injection Ht as <-.
Qed.

Lemma force_all_closed envs ids L :
  loop_inv L -> envs_ok envs ->
  exists L', on_slots envs ids (fun _ => ForceClosed) (Sc := Sc) L = Ret L' /\ loop_inv L' /\ same_frame L L' /\
    (forall i s, conns L' !! i = Some s -> i ∈ ids \/ (exists s0, conns L !! i = Some s0 /\ fd (sconn s0) < 0) -> fd (sconn s) < 0).
Proof.
  intros HL Henv. revert L HL. induction ids as [|i ids IH]; intros L HL.
  { exists L. split_and!; try done. intros i s Hs [H|(s0 & Hs0 & ?)]; [by apply elem_of_nil in H|]. congruence. }
  cbn [on_slots]. destruct (on_slot_force envs i L HL Henv) as (L1 & -> & H1 & F1 & Hi & Hoth).
  destruct (IH L1 H1) as (L2 & H2 & HL2 & F2 & Hall). exists L2.
  split_and!; [exact H2 | done | by eapply same_frame_trans |]. intros j s Hj Hor. apply (Hall j s Hj).
  destruct (decide (j = i)) as [->|Hne].
  - right. destruct (lookup_lt_is_Some_2 (conns L1) i) as [s1 Hs1]; [|eauto].
    destruct F2 as (<- & _). by eapply lookup_lt_Some.
  - rewrite Hoth by done. destruct Hor as [[|]%elem_of_cons|]; tauto.
Qed.

Lemma drain_idle_inv envs ids start now period L :
  loop_inv L -> envs_ok envs ->
  exists L', drain_idle envs ids start now period (Sc := Sc) L = Ret L' /\ loop_inv L' /\ same_frame L L' /\
    (forall i, i ∈ ids \/ drained start now period L i = false -> drained start now period L' i = false).
Proof.
  intros HL Henv. revert L HL. induction ids as [|i ids IH]; intros L HL.
  { exists L. split_and!; try done. intros i [H|H]; [by apply elem_of_nil in H | done]. }
  cbn [drain_idle]. assert (exists L1, (if drained start now period L i then on_slot (envs i) i ForceClosed (Sc := Sc) L else Ret L) = Ret L1 /\
    loop_inv L1 /\ same_frame L L1 /\ drained start now period L1 i = false /\ (forall j, j <> i -> conns L1 !! j = conns L !! j))
    as (L1 & -> & H1 & F1 & Hi & Hoth).
  { destruct (drained start now period L i) eqn:E; [|by exists L].
    destruct (on_slot_force envs i L HL Henv) as (L1 & H & H1 & F1 & Hi & Hoth). exists L1. split_and!; try done.
    unfold drained. destruct (conns L1 !! i) as [s|] eqn:Es; [|done].
    by rewrite (proj2 (Z.leb_gt _ _)) by (by apply Hi). }
  destruct (IH L1 H1) as (L2 & H2 & HL2 & F2 & Hall). exists L2.
  split_and!; [exact H2 | done | by eapply same_frame_trans |]. intros j Hor. apply Hall.
  destruct (decide (j = i)) as [->|Hne]; [by right|]. unfold drained at 1. rewrite Hoth by done.
  destruct Hor as [[|]%elem_of_cons|]; auto; done.
Qed.

(** ** The loop *)

Lemma on_tick_inv envs expired now L :
  loop_inv L -> envs_ok envs ->
  exists L', on_tick envs expired now (Sc := Sc) L = Ret L' /\ loop_inv L' /\ same_frame L L' /\
    (forall start period i, draining L = Some (start, period) -> drained start now period L' i = false).
Proof.
  intros HL Henv. unfold on_tick. destruct (on_slots_inv envs expired (fun _ => WheelExpired) L HL Henv) as (L1 & -> & H1 & F1); [done|].
  cbn [mbind res_bind]. pose proof F1 as (Hlen & Hd & _). rewrite Hd.
  destruct (draining L) as [[start period]|] eqn:E; [|by exists L1].
  destruct (drain_idle_inv envs (seq 0 (length (conns L1))) start now period L1 H1 Henv) as (L2 & H2 & HL2 & F2 & Hall).
  exists L2. split_and!; [exact H2 | done | by eapply same_frame_trans |].
  intros ? ? i [= <- <-]. destruct (decide (i < length (conns L1))%nat) as [Hi|Hi].
  - apply Hall. left. apply elem_of_seq. lia.
  - unfold drained. destruct F2 as (Hl2 & _). rewrite (proj2 (lookup_ge_None _ _)); [done | lia].
Qed.

Lemma loop_dispatch_inv envs ev L :
  loop_inv L -> envs_ok envs -> loop_event_ok ev ->
  exists L', loop_dispatch envs ev (Sc := Sc) L = Ret L' /\ loop_inv L' /\ same_frame L L'.
Proof.
  intros HL Henv Hev. destruct ev as [shard fd'|i up a|i t r|expired now|due|regions]; cbn [loop_dispatch].
  - unfold loop_accept. destruct (free_stack L) as [|i fs] eqn:Hfs.
    + destruct (fd' <? 0); [by exists L|]. eexists. split; [done|]. split; [|by split_and!].
      destruct HL as [h1 h2 h3]. split; cbn; [done | constructor | by rewrite <- Hfs].
    + apply on_slot_inv; [done..|]. intros; by rewrite Hfs.
  - by apply on_slot_inv.
  - by apply on_slot_inv.
  - destruct (on_tick_inv envs expired now L HL Henv) as (L' & ? & ? & ? & _). eauto.
  - by apply on_slots_inv.
  - apply on_slots_inv; [done..|]. by split; [apply Hev|].
Qed.

Lemma dispatch_all_inv evs L :
  loop_inv L -> Forall (fun x => envs_ok x.1 /\ loop_event_ok x.2) evs ->
  exists L', dispatch_all evs (Sc := Sc) L = Ret L' /\ loop_inv L' /\ same_frame L L'.
Proof.
  intros HL Hevs. revert L HL. induction Hevs as [|[envs ev] evs [He Hok] _ IH]; intros L HL; [by exists L|].
  cbn [dispatch_all]. destruct (loop_dispatch_inv envs ev L HL He Hok) as (L1 & -> & H1 & F1).
  destruct (IH L1 H1) as (L2 & H2 & HL2 & F2). exists L2. split_and!; [exact H2 | done | by eapply same_frame_trans].
Qed.

(** Every connection is closed and every slot is free. *)
Definition all_closed (L : Loop) : Prop :=
  (forall i s, conns L !! i = Some s -> fd (sconn s) < 0) /\ free_stack L ≡ₚ seq 0 (length (conns L)).

Definition open_slots (L : Loop) : list nat :=
  List.filter (fun i => match conns L !! i with Some s => 0 <=? fd (sconn s) | None => false end) (seq 0 (length (conns L))).

(** Open slots and free slots make up the table. *)
Lemma slots_split L : loop_inv L -> free_stack L ++ open_slots L ≡ₚ seq 0 (length (conns L)).
Proof.
  intros [_ Hnd Hfr]. apply NoDup_Permutation.
  - apply NoDup_app. split_and!; [done | | apply NoDup_ListNoDup, List.NoDup_filter, NoDup_ListNoDup, NoDup_seq].
    intros i Hi Ho. apply Hfr in Hi as (s & Hs & Hc). apply list_elem_of_In, filter_In in Ho as [_ Ho]. rewrite Hs in Ho. zify_bool. lia.
  - apply NoDup_seq.
  - intros i. rewrite elem_of_app, elem_of_seq, Hfr. unfold open_slots. rewrite list_elem_of_In, filter_In, <- list_elem_of_In, elem_of_seq.
    split.
    + intros [(s & Hs & _)|[? _]]; [|done]. apply lookup_lt_Some in Hs. lia.
    + intros [_ Hi]. destruct (lookup_lt_is_Some_2 (conns L) i) as [s Hs]; [lia|]. rewrite Hs.
      destruct (Z.leb_spec 0 (fd (sconn s))); [right; split; [lia | done] | left; eauto].
Qed.

Lemma active_count_open L : loop_inv L -> active_count L = length (open_slots L).
Proof.
  intros HL. pose proof (Permutation_length (slots_split L HL)) as H. rewrite length_app, length_seq in H.
  unfold active_count. lia.
Qed.

Lemma closed_all L : loop_inv L -> (forall i s, conns L !! i = Some s -> fd (sconn s) < 0) -> all_closed L.
Proof.
  intros HL H. split; [done|]. rewrite <- (slots_split L HL).
  destruct (open_slots L) as [|i l] eqn:E; [by rewrite app_nil_r|].
  assert (In i (open_slots L)) as Hi by (rewrite E; by left). apply filter_In in Hi as [_ Hi].
  destruct (conns L !! i) as [s|] eqn:Hs; [|done]. specialize (H i s Hs). zify_bool. lia.
Qed.

Lemma idle_all L : loop_inv L -> active_count L = 0%nat -> all_closed L.
Proof.
  intros HL Ha. rewrite (active_count_open L HL) in Ha. apply closed_all; [done|]. intros i s Hs.
  assert (i ∈ free_stack L) as Hi.
  { apply nil_length_inv in Ha. pose proof (slots_split L HL) as Hp. rewrite Ha, app_nil_r in Hp. rewrite Hp, elem_of_seq.
    apply lookup_lt_Some in Hs. lia. }
  apply (li_free L HL) in Hi as (s' & Hs' & ?). congruence.
Qed.

Definition deadline_passed (L : Loop) (now : Z) : Prop :=
  exists start period, draining L = Some (start, period) /\ u64 (start + period) <= now.

Lemma drain_check_inv envs now L :
  loop_inv L -> envs_ok envs ->
  exists L', drain_check envs now (Sc := Sc) L = Ret L' /\ loop_inv L' /\ draining L' = draining L /\
    length (conns L') = length (conns L) /\
    (running L' = running L \/ running L' = false /\ all_closed L' /\ listening L' = false) /\
    (deadline_passed L now -> running L' = false /\ all_closed L' /\ listening L' = false).
Proof.
  intros HL Henv. unfold drain_check. destruct (draining L) as [[start period]|] eqn:Hd.
  2: { exists L. split_and!; try done; [by left|]. intros (st & pe & E & _). congruence. }
  set (L0 := mkLoop _ _ _ _ _ _). assert (loop_inv L0) as H0 by (by destruct HL).
  destruct (Nat.eqb_spec (active_count L0) 0) as [Ha|Ha].
  { pose proof (idle_all L0 H0 Ha) as Hc. eexists. split; [done|].
    split_and!; [by destruct H0 | done | done | right; by split_and! | intros _; by split_and!]. }
  destruct (Z.leb_spec (u64 (start + period)) now) as [Hn|Hn].
  - unfold force_close_all. destruct (force_all_closed envs (seq 0 (length (conns L0))) L0 H0 Henv) as (L1 & -> & H1 & F1 & Hall).
    pose proof F1 as (Hlen & Hdr & Hli & Hru). eexists. split; [done|].
    assert (all_closed L1) as Hc.
    { apply closed_all; [done|]. intros i s Hs. apply (Hall i s Hs). left. apply elem_of_seq. apply lookup_lt_Some in Hs. lia. }
    split_and!; [by destruct H1 | done | done | right | intros _]; split_and!; done || apply Hc.
  - eexists. split; [done|]. split_and!; [done.. | by left |]. intros (st & pe & E & Hle). rewrite Hd in E. injection E as <- <-. lia.
Qed.

Lemma run_inv its L :
  loop_inv L -> Forall iter_ok its ->
  exists L', run_loop its (Sc := Sc) L = Ret L' /\ loop_inv L' /\ draining L' = draining L /\
    length (conns L') = length (conns L) /\
    (running L = true -> Exists (fun it => deadline_passed L (it_now it)) its \/ running L' = false ->
     running L' = false /\ all_closed L' /\ listening L' = false).
Proof.
  intros HL Hits. revert L HL. induction Hits as [|it its [Hev He] Hits IH]; intros L HL; cbn [run_loop].
  { exists L. split_and!; try done. intros Hr [H|H]; [by apply Exists_nil in H | congruence]. }
  destruct (running L) eqn:Hr; [|by exists L]. unfold iterate.
  destruct (dispatch_all_inv (it_events it) L HL Hev) as (L1 & -> & H1 & Hl1 & Hd1 & _ & Hr1). cbn [mbind res_bind].
  destruct (drain_check_inv (it_envs it) (it_now it) L1 H1 He) as (L2 & -> & H2 & Hd2 & Hl2 & Hor & Hdead). cbn [mbind res_bind].
  destruct (IH L2 H2) as (L3 & H3 & HL3 & Hd3 & Hl3 & Hend).
  exists L3. split_and!; [done | done | congruence | congruence |]. intros _ Hw.
  destruct (running L2) eqn:Hr2.
  - apply Hend; [done|]. destruct Hw as [Hw|]; [|by right]. left. apply Exists_cons in Hw as [Hw|Hw].
    + exfalso. destruct Hdead as (? & _); [|done]. destruct Hw as (st & pe & E & ?). exists st, pe. by rewrite Hd1.
    + eapply Exists_impl; [exact Hw|]. intros it' (st & pe & E & ?). exists st, pe. split; [congruence | done].
  - assert (L3 = L2) as -> by (destruct its; cbn [run_loop] in H3; [|rewrite Hr2 in H3]; congruence).
    destruct Hor as [Hor|(_ & Hor)]; [congruence | by split].
Qed.

Lemma drain_inv now period L : loop_inv L -> loop_inv (loop_drain now period L).
Proof. by intros []. Qed.

(** ** Properties *)

(** C10: the connection table is consistent.  A shard that starts with [n] free
    slots, serves any events, is told to drain, and serves any further events
    never faults, and at both points a slot is on the free stack exactly when its
    connection is closed, no slot is on it twice, and the count of active
    connections is the number of open slots: no two connections share a slot and
    none is lost. *)
Theorem table_is_consistent n shard its now period its' :
  Forall iter_ok its -> Forall iter_ok its' ->
  exists L1 L2, run_loop its (Sc := Sc) (loop_init n shard) = Ret L1 /\
    run_loop its' (Sc := Sc) (loop_drain now period L1) = Ret L2 /\
    Forall (fun L => length (conns L) = n /\ NoDup (free_stack L) /\
      (forall i, i ∈ free_stack L <-> exists s, conns L !! i = Some s /\ fd (sconn s) < 0) /\
      active_count L = length (open_slots L)) [L1; L2].
Proof.
  intros Hits Hits'. destruct (run_inv its _ (table_init_inv n shard) Hits) as (L1 & H1 & HL1 & _ & Hl1 & _).
  destruct (run_inv its' _ (drain_inv now period L1 HL1) Hits') as (L2 & H2 & HL2 & _ & Hl2 & _).
  cbn in Hl1, Hl2. rewrite length_fmap, length_seq in Hl1.
  exists L1, L2. split; [done|]. split; [done|].
  repeat constructor; try (by apply li_nodup || by apply li_free || by apply active_count_open); congruence || apply li_free; done.
Qed.

(** C16: a drain ends.  Once told to drain, a running shard that reaches the
    deadline in one of its iterations stops, whatever events come in between:
    every connection is closed, every slot is free and it no longer listens.  It
    never stops before all its connections are closed. *)
Theorem drain_ends n shard its now period its' L1 :
  Forall iter_ok its -> Forall iter_ok its' ->
  run_loop its (Sc := Sc) (loop_init n shard) = Ret L1 -> running L1 = true ->
  exists L2, run_loop its' (Sc := Sc) (loop_drain now period L1) = Ret L2 /\
    (Exists (fun it => u64 (now + period) <= it_now it) its' -> running L2 = false) /\
    (running L2 = false -> all_closed L2 /\ active_count L2 = 0%nat /\ listening L2 = false).
Proof.
  intros Hits Hits' H1 Hr. destruct (run_inv its _ (table_init_inv n shard) Hits) as (L1' & H1' & HL1 & _).
  rewrite H1 in H1'. injection H1' as <-.
  destruct (run_inv its' _ (drain_inv now period L1 HL1) Hits') as (L2 & H2 & HL2 & _ & _ & Hend).
  exists L2. split; [done|]. split.
  - intros Hex. apply (Hend Hr). left. eapply Exists_impl; [exact Hex|]. intros it Hle. by exists now, period.
  - intros Hstop. destruct (Hend Hr) as (_ & Hc & Hli); [by right|]. split_and!; [apply Hc.. | | done].
    unfold active_count. rewrite (Permutation_length (proj2 Hc)), length_seq. lia.
Qed.

(** The drain of idle connections is a ramp.  After a tick at [now] of a
    shard that drains since [start], an idle connection is still open only while
    the period is not over and the seconds gone by do not exceed the share its
    slot is hashed to: each idle connection is closed within the period, and
    none is left at its end. *)
Theorem tick_drains_idle n shard its start period envs expired now L :
  Forall iter_ok its -> envs_ok envs ->
  run_loop its (Sc := Sc) (loop_init n shard) = Ret L ->
  0 <= start <= now -> now < 2 ^ 64 -> 0 <= period < 2 ^ 32 ->
  exists L', on_tick envs expired now (Sc := Sc) (loop_drain start period L) = Ret L' /\
    forall i s, conns L' !! i = Some s -> 0 <= fd (sconn s) -> state (sconn s) = ReadingHeader ->
      0 < period /\ now - start < period /\ now - start <= u32 (Z.of_nat i * 2654435761) mod period.
Proof.
  intros Hits He H1 Hs Hn Hp. destruct (run_inv its _ (table_init_inv n shard) Hits) as (L0 & H1' & HL & _).
  rewrite H1 in H1'. injection H1' as <-.
  destruct (on_tick_inv envs expired now _ (drain_inv start period L HL) He) as (L' & H' & _ & _ & Hall).
  exists L'. split; [done|]. intros i s Hi Hfd Hst. specialize (Hall start period i eq_refl).
  unfold drained in Hall. rewrite Hi, bool_decide_eq_true_2, (proj2 (Z.leb_le _ _) Hfd) in Hall by done. cbn in Hall.
  unfold should_drain_close in Hall. destruct (Z.eqb_spec period 0); [done|].
  rewrite (u64_small (now - start)) in Hall by lia. destruct (Z.leb_spec period (now - start)); [done|].
  rewrite (u32_small (now - start)) in Hall by lia. apply Z.ltb_ge in Hall. lia.
Qed.
End table.

(** ** Examples *)

Definition envs_ex : nat -> Env := fun _ => env_ex.

Lemma envs_ex_ok : envs_ok true envs_ex.
Proof. intros i. split; [apply env_ex_ok | done]. Qed.

Definition iter_ex (evs : list LoopEvent) (now : Z) : Iteration := mkIter (pair envs_ex <$> evs) envs_ex now.

(** Three accepts on two slots, a request, a hang-up and a further accept. *)
Definition its_ex : list Iteration :=
  [iter_ex [EvAccept 0 7; EvAccept 0 8; EvAccept 0 9] 100;
   iter_ex [EvReadable 1 false (Got (bs "GET /ok HTTP/1.1" ++ CRLF ++ CRLF)); EvReadable 0 false (Got []); EvAccept 0 11] 101].

Example its_ex_run :
  match run_loop its_ex (Sc := sse2_scanners) (loop_init 2 0) with
  | Ret L => ((fun s => fd (sconn s)) <$> conns L) = [11; 7] /\ refused L = [9] /\ free_stack L = []
  | _ => False
  end.
Proof. vm_compute. by split_and!. Qed.

Lemma iter_ex_ok evs now : Forall loop_event_ok evs -> iter_ok true (iter_ex evs now).
Proof.
  intros H. split; [|apply envs_ex_ok]. apply Forall_fmap. eapply Forall_impl; [exact H|].
  intros ev Hev. split; [apply envs_ex_ok | done].
Qed.

Lemma its_ex_ok : Forall (iter_ok true) its_ex.
Proof.
  unfold its_ex. rewrite !Forall_cons. split_and!; [apply iter_ex_ok .. | done]; rewrite !Forall_cons; split_and!; try done.
  all: by apply bytes_ok_Forall.
Qed.

(** The drain begins at 200; the first iteration is early, the second late. *)
Definition its_drain : list Iteration := [iter_ex [EvTick [] 205] 205; iter_ex [] 231].

Lemma its_drain_ok : Forall (iter_ok true) its_drain.
Proof. unfold its_drain. rewrite !Forall_cons. split_and!; [apply iter_ex_ok; by repeat constructor .. | done]. Qed.

Definition loop_ex : Loop := match run_loop its_ex (Sc := sse2_scanners) (loop_init 2 0) with Ret L => L | _ => loop_init 2 0 end.

Lemma table_is_consistent_witness :
  exists L1 L2, run_loop its_ex (Sc := sse2_scanners) (loop_init 2 0) = Ret L1 /\
    run_loop its_drain (Sc := sse2_scanners) (loop_drain 200 30 L1) = Ret L2 /\
    Forall (fun L => length (conns L) = 2%nat /\ NoDup (free_stack L) /\
      (forall i, i ∈ free_stack L <-> exists s, conns L !! i = Some s /\ fd (sconn s) < 0) /\
      active_count L = length (open_slots L)) [L1; L2].
Proof. exact (table_is_consistent true sse2_scanners sse2_ok 2 0 its_ex 200 30 its_drain its_ex_ok its_drain_ok). Defined.

Lemma drain_ends_witness :
  exists L2, run_loop its_drain (Sc := sse2_scanners) (loop_drain 200 30 loop_ex) = Ret L2 /\
    (Exists (fun it => u64 (200 + 30) <= it_now it) its_drain -> running L2 = false) /\
    (running L2 = false -> all_closed L2 /\ active_count L2 = 0%nat /\ listening L2 = false).
Proof.
  apply (drain_ends true sse2_scanners sse2_ok 2 0 its_ex 200 30 its_drain loop_ex its_ex_ok its_drain_ok);
    vm_compute; reflexivity.
Defined.

Lemma tick_drains_idle_witness :
  exists L', on_tick envs_ex [] 205 (Sc := sse2_scanners) (loop_drain 200 30 loop_ex) = Ret L' /\
    forall i s, conns L' !! i = Some s -> 0 <= fd (sconn s) -> state (sconn s) = ReadingHeader ->
      0 < 30 /\ 205 - 200 < 30 /\ 205 - 200 <= u32 (Z.of_nat i * 2654435761) mod 30.
Proof.
  apply (tick_drains_idle true sse2_scanners sse2_ok 2 0 its_ex 200 30 envs_ex [] 205 loop_ex its_ex_ok envs_ex_ok);
    [vm_compute; reflexivity | lia | lia | lia].
Defined.
