(* ===== verification/Pools.v ===== *)
(** * Fixed-capacity pools

    Models of include/rut/runtime/slab_pool.h, slice_pool.h and
    upstream_pool.h: the object slab, the 16 KB slice allocator with lazy
    commit, and the upstream connection table.  All three keep a stack of free
    slot numbers next to a per-slot in-use mark; [slots_ok] is the invariant
    they share.  The live part of a free stack is a list whose head is the top.
    The outcome of mprotect is an argument of the operations that call it, and
    the file descriptors an operation closes are part of its result. *)

From S2P Require Import Prelude.

(** ** Free stacks *)

(** The free stack lists, once each, exactly the slots below [cap] that are
    not in use. *)
Record slots_ok (cap : nat) (free : list nat) (used : list bool) : Prop := {
  so_len : length used = cap;
  so_nodup : NoDup free;
  so_free i : i ∈ free <-> used !! i = Some false
}.

Section slots.
Context (cap : nat) (free : list nat) (used : list bool).
Hypothesis (Hok : slots_ok cap free used).

Lemma slots_lt i : i ∈ free -> (i < cap)%nat.
Proof. intros Hi. apply (so_free _ _ _ Hok) in Hi. rewrite <- (so_len _ _ _ Hok). by eapply lookup_lt_Some. Qed.

(** Popping the top and marking it. *)
Lemma slots_pop i rest : free = i :: rest -> slots_ok cap rest (<[i := true]> used).
Proof.
  intros ->. destruct Hok as [Hl Hn Hf]. apply NoDup_cons in Hn as [Hi Hn]. split.
  - by rewrite length_insert.
  - done.
  - intros j. assert (i < length used)%nat as Hlt.
    { assert (used !! i = Some false) as E by (apply Hf; left). by eapply lookup_lt_Some. }
    destruct (decide (j = i)) as [->|Hne].
    + rewrite list_lookup_insert_eq by done. naive_solver.
    + rewrite list_lookup_insert_ne by done. rewrite <- Hf, elem_of_cons. naive_solver.
Qed.

(** Unmarking a slot in use and pushing it. *)
Lemma slots_push i : used !! i = Some true -> slots_ok cap (i :: free) (<[i := false]> used).
Proof.
  intros Hi. destruct Hok as [Hl Hn Hf]. apply lookup_lt_Some in Hi as Hlt. split.
  - by rewrite length_insert.
  - apply NoDup_cons. split; [|done]. rewrite Hf. congruence.
  - intros j. rewrite elem_of_cons. destruct (decide (j = i)) as [->|Hne].
    + rewrite list_lookup_insert_eq by done. naive_solver.
    + rewrite list_lookup_insert_ne by done. rewrite <- Hf. naive_solver.
Qed.

Lemma slots_count : (length free <= cap)%nat.
Proof.
  rewrite <- (length_seq cap 0). apply submseteq_length, NoDup_submseteq; [apply (so_nodup _ _ _ Hok)|].
  intros x Hx. apply elem_of_seq. apply slots_lt in Hx. lia.
Qed.

(** A slot in use leaves room on the stack for it. *)
Lemma slots_room i : used !! i = Some true -> (length free < cap)%nat.
Proof.
  intros Hi. apply lookup_lt_Some in Hi as Hlt. rewrite (so_len _ _ _ Hok) in Hlt.
  assert (length (i :: free) <= cap)%nat; [|cbn in *; lia].
  rewrite <- (length_seq cap 0). apply submseteq_length, NoDup_submseteq.
  - apply NoDup_cons. split; [|apply (so_nodup _ _ _ Hok)]. rewrite (so_free _ _ _ Hok). congruence.
  - intros x Hx. apply elem_of_seq. apply elem_of_cons in Hx as [->|Hx]; [lia|]. apply slots_lt in Hx. lia.
Qed.
End slots.

Lemma slots_full cap : slots_ok cap (rev (seq 0 cap)) (replicate cap false).
Proof.
  split.
  - apply length_replicate.
  - rewrite rev_alt, <- rev_alt. apply NoDup_ListNoDup, NoDup_rev, NoDup_ListNoDup, NoDup_seq.
  - intros i. rewrite list_elem_of_In, <- in_rev, <- list_elem_of_In, elem_of_seq, lookup_replicate. naive_solver lia.
Qed.

(** ** SlabPool *)

(** [None]: before [init], after [destroy] or when a mapping failed.  [objects]
    is the base address of the object array. *)
Record SlabPool := mkSlab {
  sl_objects : Z;
  sl_free : list nat;
  sl_in_use : list bool
}.

Section slab.
Context (Cap : nat) (size : Z).

(** [init]: the address of each of the three mappings, [None] for a failed
    one; the error path unmaps what was mapped and leaves the pool empty. *)
Definition slab_init (obj_mem stk_mem map_mem : option Z) : option SlabPool :=
  match obj_mem, stk_mem, map_mem with
  | Some o, Some _, Some _ => Some (mkSlab o (rev (seq 0 Cap)) (replicate Cap false))
  | _, _, _ => None
  end.

Definition slab_alloc_with_id (p : SlabPool) : option (Z * nat) * SlabPool :=
  match sl_free p with
  | [] => (None, p)
  | idx :: rest =>
      (Some (sl_objects p + Z.of_nat idx * size, idx),
       mkSlab (sl_objects p) rest (<[idx := true]> (sl_in_use p)))
  end.

Definition slab_alloc (p : SlabPool) : option Z * SlabPool :=
  let '(r, p') := slab_alloc_with_id p in (fst <$> r, p').

Definition slab_free (p : SlabPool) (idx : nat) : SlabPool :=
  if Nat.leb Cap idx || Nat.leb Cap (length (sl_free p)) then p
  else if negb (nth idx (sl_in_use p) false) then p
  else mkSlab (sl_objects p) (idx :: sl_free p) (<[idx := false]> (sl_in_use p)).

(** [free(T* obj)]: pointer subtraction divides by the object size. *)
Definition slab_free_ptr (p : SlabPool) (obj : Z) : SlabPool :=
  if (obj =? 0) || (obj <? sl_objects p) || (sl_objects p + Z.of_nat Cap * size <=? obj) then p
  else
    let idx := Z.to_nat ((obj - sl_objects p) / size) in
    if Nat.leb Cap (length (sl_free p)) then p
    else if negb (nth idx (sl_in_use p) false) then p
    else mkSlab (sl_objects p) (idx :: sl_free p) (<[idx := false]> (sl_in_use p)).

Definition slab_index_of (p : SlabPool) (obj : Z) : nat := Z.to_nat ((obj - sl_objects p) / size).
Definition slab_available (p : SlabPool) : nat := length (sl_free p).
Definition slab_used (p : SlabPool) : nat := Cap - length (sl_free p).

(** The operations as steps on the pool and the slots handed out. *)
Inductive slab_step : SlabPool -> SlabPool -> Prop :=
  | slab_do_alloc p r p' : slab_alloc_with_id p = (r, p') -> slab_step p p'
  | slab_do_free p idx : slab_step p (slab_free p idx)
  | slab_do_free_ptr p obj : slab_step p (slab_free_ptr p obj).

Definition slab_ok (p : SlabPool) : Prop :=
  0 < sl_objects p /\ slots_ok Cap (sl_free p) (sl_in_use p).

Lemma nth_used p idx : nth idx (sl_in_use p) false = true -> sl_in_use p !! idx = Some true.
Proof. rewrite nth_lookup. destruct (sl_in_use p !! idx) as [[]|]; done. Qed.

Lemma slab_step_ok p p' : slab_ok p -> slab_step p p' -> slab_ok p'.
Proof.
  intros [Hb Hok]. destruct 1 as [p r p' H|p idx|p obj].
  - unfold slab_alloc_with_id in H. destruct (sl_free p) as [|i rest] eqn:E; injection H as <- <-.
    + split; [done | by rewrite E].
    + split; [done|]. by eapply slots_pop.
  - unfold slab_free. case_if; [by split|]. destruct (nth idx (sl_in_use p) false) eqn:E'; [|by split].
    split; [done|]. apply slots_push; [done | by apply nth_used].
  - unfold slab_free_ptr. case_if; [by split|]. case_if; [by split|].
    destruct (nth _ (sl_in_use p) false) eqn:E'; [|by split].
    split; [done|]. apply slots_push; [done | by apply nth_used].
Qed.

Lemma slab_reach_ok o p :
  0 < o -> rtc slab_step (mkSlab o (rev (seq 0 Cap)) (replicate Cap false)) p -> slab_ok p.
Proof.
  intros Ho H. remember (mkSlab o _ _) as q eqn:Hq.
  assert (slab_ok q) as Hqok by (subst q; split; [done | apply slots_full]). clear Hq.
  induction H as [|a b c Hab _ IH]; [done|]. apply IH. by eapply slab_step_ok.
Qed.

Lemma slab_all_used p : slab_ok p -> sl_free p = [] <-> forall i, (i < Cap)%nat -> sl_in_use p !! i = Some true.
Proof.
  intros [_ Hok]. split.
  - intros E i Hi. destruct (sl_in_use p !! i) as [[]|] eqn:Eu; [done| |].
    + apply (so_free _ _ _ Hok) in Eu. rewrite E in Eu. by apply not_elem_of_nil in Eu.
    + apply lookup_ge_None in Eu. rewrite (so_len _ _ _ Hok) in Eu. lia.
  - intros H. destruct (sl_free p) as [|i rest] eqn:E; [done|]. exfalso.
    assert (i ∈ i :: rest) as Hi by left.
    pose proof (slots_lt _ _ _ Hok i Hi) as Hlt. apply (so_free _ _ _ Hok) in Hi. rewrite H in Hi by done. done.
Qed.

End slab.

(** The slab never hands out a slot twice.  From [init] through any
    sequence of allocations and frees (valid, repeated or out of range): an
    allocation fails exactly when every slot is in use; otherwise the slot was
    free, is the only one whose mark changes, its address is inside the array
    and maps back to its index, and freeing it restores the pool; freeing a
    slot that is not in use changes nothing. *)
Theorem slab_pool_safe Cap size o p r p' :
  0 < o -> 0 < size ->
  rtc (slab_step Cap size) (mkSlab o (rev (seq 0 Cap)) (replicate Cap false)) p ->
  slab_alloc_with_id size p = (r, p') ->
  match r with
  | None => p' = p /\ forall i, (i < Cap)%nat -> sl_in_use p !! i = Some true
  | Some (addr, idx) =>
      sl_in_use p !! idx = Some false /\ sl_in_use p' = <[idx := true]> (sl_in_use p) /\
      sl_objects p <= addr /\ addr + size <= sl_objects p + Z.of_nat Cap * size /\
      slab_index_of size p addr = idx /\ slab_free Cap p' idx = p
  end /\
  (forall i, sl_in_use p !! i <> Some true -> slab_free Cap p i = p).
Proof.
  intros Ho Hsz Hr Ha. pose proof (slab_reach_ok Cap size o p Ho Hr) as Hok. split.
  - unfold slab_alloc_with_id in Ha. destruct (sl_free p) as [|idx rest] eqn:E; injection Ha as <- <-.
    + split; [done|]. by apply slab_all_used.
    + pose proof (proj2 Hok) as Hs. assert (idx ∈ sl_free p) as Hin by (rewrite E; left).
      pose proof (slots_lt _ _ _ Hs idx Hin) as Hlt. apply (so_free _ _ _ Hs) in Hin as Hf.
      cbn [sl_in_use sl_objects]. split_and!; try done; try nia.
      * unfold slab_index_of. replace (sl_objects p + Z.of_nat idx * size - sl_objects p)
          with (Z.of_nat idx * size) by lia. rewrite Z.div_mul by lia. lia.
      * unfold slab_free. cbn [sl_free sl_in_use sl_objects].
        assert (length rest < Cap)%nat as Hroom.
        { pose proof (slots_count _ _ _ Hs) as Hc. rewrite E in Hc. cbn in Hc. lia. }
        rewrite (proj2 (Nat.leb_gt Cap idx)), (proj2 (Nat.leb_gt Cap (length rest))) by lia. cbn [orb].
        assert (idx < length (sl_in_use p))%nat by by eapply lookup_lt_Some.
        rewrite nth_lookup, list_lookup_insert_eq by done. cbn.
        rewrite list_insert_insert_eq, list_insert_id by done. rewrite <- E. by destruct p.
  - intros i Hi. unfold slab_free. case_if; [done|].
    destruct (nth i (sl_in_use p) false) eqn:En; [|done]. by apply nth_used in En.
Qed.

Lemma slab_pool_safe_witness :
  let p := mkSlab 4096 [0%nat; 1%nat] [false; false] in
  slab_alloc_with_id 64 p = (Some (4096, 0%nat), mkSlab 4096 [1%nat] [true; false]) /\
  (forall i, sl_in_use p !! i <> Some true -> slab_free 2 p i = p).
Proof.
  split; [reflexivity|].
  apply (slab_pool_safe 2 64 4096 (mkSlab 4096 [0%nat; 1%nat] [false; false])
    (Some (4096, 0%nat)) (mkSlab 4096 [1%nat] [true; false]) ltac:(lia) ltac:(lia)); [|reflexivity].
  apply (rtc_l _ _ (mkSlab 4096 [0%nat] [false; true])).
  { by apply (slab_do_alloc 2 64 _ (Some (4160, 1%nat))). }
  apply (rtc_l _ _ (mkSlab 4096 [] [true; true])).
  { by apply (slab_do_alloc 2 64 _ (Some (4096, 0%nat))). }
  apply (rtc_l _ _ (mkSlab 4096 [1%nat] [true; false])).
  { apply (slab_do_free 2 64 (mkSlab 4096 [] [true; true]) 1). }
  apply rtc_once. apply (slab_do_free 2 64 (mkSlab 4096 [1%nat] [true; false]) 0).
Defined.

(** ** SlicePool *)

Definition kSliceSize : Z := 16384.
Definition kGrowStep : nat := 256.

Record SlicePool := mkSlice {
  sp_base : Z;
  sp_free : list nat;
  sp_in_use : list bool;
  sp_count : nat;
  sp_max : nat
}.

Definition pool0 (base : Z) (n : nat) : SlicePool := mkSlice base [] (replicate n false) 0 n.

(** [grow]; [ok] is the outcome of mprotect. *)
Definition grow_slices (ok : bool) (p : SlicePool) : bool * SlicePool :=
  if Nat.leb (sp_max p) (sp_count p) then (false, p)
  else
    let step := if Nat.ltb (sp_max p) (sp_count p + kGrowStep)
                then (sp_max p - sp_count p)%nat else kGrowStep in
    if negb ok then (false, p)
    else (true, mkSlice (sp_base p) (rev (seq (sp_count p) step) ++ sp_free p) (sp_in_use p)
                  (sp_count p + step) (sp_max p)).

(** The pre-commit loop of [init]: [None] when a growth step fails. *)
Fixpoint prealloc_loop (steps : nat) (oks : nat -> bool) (s : nat) (p : SlicePool) : option SlicePool :=
  match steps with
  | O => Some p
  | S steps' =>
      if Nat.ltb (sp_count p) (sp_max p) then
        let '(ok, p') := grow_slices (oks s) p in
        if negb ok then None else prealloc_loop steps' oks (S s) p'
      else Some p
  end.

Definition slice_init (base_mem stack_mem map_mem : option Z) (n prealloc : nat) (oks : nat -> bool)
    : option SlicePool :=
  match base_mem, stack_mem, map_mem with
  | Some b, Some _, Some _ =>
      let p := pool0 b n in
      if Nat.ltb 0 prealloc then
        let pre := if Nat.ltb n prealloc then n else prealloc in
        prealloc_loop ((pre + kGrowStep - 1) / kGrowStep) oks 0 p
      else Some p
  | _, _, _ => None
  end.

Definition slice_pop (p : SlicePool) : option Z * SlicePool :=
  match sp_free p with
  | [] => (None, p)
  | idx :: rest =>
      (Some (sp_base p + Z.of_nat idx * kSliceSize),
       mkSlice (sp_base p) rest (<[idx := true]> (sp_in_use p)) (sp_count p) (sp_max p))
  end.

Definition slice_alloc (ok : bool) (p : SlicePool) : option Z * SlicePool :=
  match sp_free p with
  | [] => let '(g, p') := grow_slices ok p in if negb g then (None, p') else slice_pop p'
  | _ => slice_pop p
  end.

Definition slice_free (p : SlicePool) (ptr : Z) : SlicePool :=
  if (ptr =? 0) || Nat.eqb (sp_count p) 0 then p
  else if (ptr <? sp_base p) || (sp_base p + Z.of_nat (sp_count p) * kSliceSize <=? ptr) then p
  else
    let offset := ptr - sp_base p in
    if negb (offset mod kSliceSize =? 0) then p
    else if Nat.leb (sp_max p) (length (sp_free p)) then p
    else
      let idx := Z.to_nat (offset / kSliceSize) in
      if negb (nth idx (sp_in_use p) false) then p
      else mkSlice (sp_base p) (idx :: sp_free p) (<[idx := false]> (sp_in_use p)) (sp_count p) (sp_max p).

Inductive slice_step : SlicePool -> SlicePool -> Prop :=
  | slice_do_alloc ok p r p' : slice_alloc ok p = (r, p') -> slice_step p p'
  | slice_do_free p ptr : slice_step p (slice_free p ptr).

(** The committed slots obey [slots_ok]; the others are unused. *)
Record slice_ok (p : SlicePool) : Prop := {
  sk_base : 0 < sp_base p;
  sk_count : (sp_count p <= sp_max p)%nat;
  sk_map : length (sp_in_use p) = sp_max p;
  sk_slots : slots_ok (sp_count p) (sp_free p) (take (sp_count p) (sp_in_use p));
  sk_rest : Forall (fun b => b = false) (drop (sp_count p) (sp_in_use p))
}.

Lemma slice_grow_ok ok p g p' : slice_ok p -> grow_slices ok p = (g, p') ->
  slice_ok p' /\ sp_in_use p' = sp_in_use p /\ sp_base p' = sp_base p /\ sp_max p' = sp_max p /\
  (g = true -> sp_free p = [] -> sp_free p' <> []) /\
  (g = false -> p' = p /\ ((sp_max p <= sp_count p)%nat \/ ok = false)).
Proof.
  intros [Hb Hc Hm Hs Hr]. unfold grow_slices.
  destruct (Nat.leb_spec (sp_max p) (sp_count p)) as [H|H]; [intros [= <- <-]; split_and!; by (try split; auto)|].
  destruct ok; cbn [negb]; [|intros [= <- <-]; split_and!; by (try split; auto)].
  set (step := if Nat.ltb _ _ then _ else _).
  assert (0 < step /\ sp_count p + step <= sp_max p)%nat as [Hst Hle].
  { subst step. unfold kGrowStep. destruct (Nat.ltb_spec (sp_max p) (sp_count p + 256)); lia. }
  intros [= <- <-]. cbn [sp_in_use sp_base sp_max sp_free sp_count]. split_and!; try done.
  - split; cbn [sp_in_use sp_base sp_max sp_free sp_count]; [done | lia | done | |].
    + split.
      * rewrite length_take. lia.
      * apply NoDup_app. split_and!.
        -- apply NoDup_ListNoDup, NoDup_rev, NoDup_ListNoDup, NoDup_seq.
        -- intros i Hi Hf. apply list_elem_of_In, in_rev, in_seq in Hi.
           apply (slots_lt _ _ _ Hs) in Hf. lia.
        -- apply (so_nodup _ _ _ Hs).
      * intros i. rewrite elem_of_app, (so_free _ _ _ Hs).
        rewrite list_elem_of_In, <- in_rev, in_seq.
        destruct (Nat.lt_ge_cases i (sp_count p)) as [Hi|Hi].
        -- rewrite !lookup_take_lt by lia. split; [intros [?|?]; [lia | done] | auto].
        -- rewrite (lookup_take_ge _ (sp_count p)) by lia.
           destruct (Nat.lt_ge_cases i (sp_count p + step)) as [Hi2|Hi2].
           ++ rewrite lookup_take_lt by lia. split; [|intros _; left; lia]. intros _.
              destruct (lookup_lt_is_Some_2 (sp_in_use p) i) as [b Hb']; [lia|]. rewrite Hb'.
              rewrite Forall_lookup in Hr. rewrite (Hr (i - sp_count p)%nat b); [done|].
              rewrite lookup_drop. by replace (sp_count p + (i - sp_count p))%nat with i by lia.
           ++ rewrite lookup_take_ge by lia. split; [intros [?|?]; [lia | done] | done].
    + rewrite <- drop_drop. by apply Forall_drop.
  - intros _ -> Hnil. apply app_eq_nil in Hnil as [Hnil _].
    apply (f_equal length) in Hnil. rewrite length_rev, length_seq in Hnil. cbn in Hnil. lia.
Qed.

Lemma slice_pop_ok p r p' : slice_ok p -> slice_pop p = (r, p') ->
  slice_ok p' /\
  match r with
  | Some ptr => exists idx, sp_in_use p !! idx = Some false /\ (idx < sp_count p)%nat /\
      ptr = sp_base p + Z.of_nat idx * kSliceSize /\ sp_in_use p' = <[idx := true]> (sp_in_use p) /\
      sp_base p' = sp_base p /\ sp_count p' = sp_count p /\ sp_max p' = sp_max p
  | None => p' = p /\ sp_free p = []
  end.
Proof.
  intros Hok H. unfold slice_pop in H. destruct (sp_free p) as [|idx rest] eqn:E; injection H as <- <-; [done|].
  destruct Hok as [Hb Hc Hm Hs Hr]. assert (idx ∈ sp_free p) as Hin by (rewrite E; left).
  pose proof (slots_lt _ _ _ Hs idx Hin) as Hlt. apply (so_free _ _ _ Hs) in Hin.
  rewrite lookup_take_lt in Hin by done. split.
  - split; cbn; [done | done | by rewrite length_insert | |].
    + rewrite take_insert_lt by done. by eapply slots_pop.
    + by rewrite drop_insert_lt by done.
  - exists idx. done.
Qed.

Lemma slice_free_ok p ptr : slice_ok p ->
  slice_ok (slice_free p ptr) /\
  (slice_free p ptr = p \/
   exists idx, sp_in_use p !! idx = Some true /\ ptr = sp_base p + Z.of_nat idx * kSliceSize /\
     sp_in_use (slice_free p ptr) = <[idx := false]> (sp_in_use p)).
Proof.
  intros Hok. unfold slice_free. case_if; [auto|]. case_if; [auto|]. case_if; [auto|]. case_if; [auto|].
  zify_bool. set (idx := Z.to_nat _).
  destruct (nth idx (sp_in_use p) false) eqn:En; [|auto]. cbn [negb].
  rewrite nth_lookup in En. destruct (sp_in_use p !! idx) as [b|] eqn:Eb; [|done]. cbn in En. subst b.
  destruct Hok as [Hb Hc Hm Hs Hr].
  assert (0 < kSliceSize) as Hk by (unfold kSliceSize; lia).
  assert (ptr - sp_base p = kSliceSize * ((ptr - sp_base p) / kSliceSize)) as Hdiv.
  { pose proof (Z.div_mod (ptr - sp_base p) kSliceSize ltac:(lia)). lia. }
  assert (idx < sp_count p)%nat as Hlt.
  { subst idx. assert ((ptr - sp_base p) / kSliceSize < Z.of_nat (sp_count p)); [|lia].
    apply Z.div_lt_upper_bound; lia. }
  split.
  - split; cbn; [done | done | by rewrite length_insert | |].
    + rewrite take_insert_lt by done. apply slots_push; [done|]. by rewrite lookup_take_lt.
    + by rewrite drop_insert_lt by done.
  - right. exists idx. split_and!; try done. subst idx.
    rewrite Z2Nat.id by (apply Z.div_pos; lia). lia.
Qed.

Lemma slice_step_ok p p' : slice_ok p -> slice_step p p' -> slice_ok p'.
Proof.
  intros Hok. destruct 1 as [ok p r p' H|p ptr]; [|by apply slice_free_ok].
  unfold slice_alloc in H. destruct (sp_free p) as [|i rest] eqn:E.
  - destruct (grow_slices ok p) as [g p1] eqn:Eg. destruct (slice_grow_ok _ _ _ _ Hok Eg) as [Hok1 _].
    destruct g; cbn [negb] in H; [by apply slice_pop_ok in H as [? _]|]. by injection H as <- <-.
  - by apply slice_pop_ok in H as [? _].
Qed.

Lemma pool0_ok base n : 0 < base -> slice_ok (pool0 base n).
Proof.
  intros Hb. split; cbn; [done | lia | apply length_replicate | |].
  - split; [done | constructor |]. intros i. rewrite take_0, lookup_nil. split; [by intros ?%not_elem_of_nil | done].
  - rewrite drop_0. apply Forall_replicate. done.
Qed.

(** C21: slices in use never overlap.  From [init] through any sequence of
    allocations (whatever mprotect answers) and frees of arbitrary pointers,
    an allocated slice lies in the reserved region, is aligned, and is disjoint
    from every slice in use; allocation fails only when no committed slice is
    free and none can be committed; a free changes the pool only for the
    address of a slice in use, which it releases. *)
Theorem slice_pool_safe base n p ok r p' :
  0 < base -> rtc slice_step (pool0 base n) p -> slice_alloc ok p = (r, p') ->
  match r with
  | Some ptr => exists idx, sp_in_use p !! idx = Some false /\
      ptr = sp_base p + Z.of_nat idx * kSliceSize /\ (idx < sp_max p)%nat /\
      sp_in_use p' = <[idx := true]> (sp_in_use p) /\
      (forall j, sp_in_use p !! j = Some true ->
         ptr + kSliceSize <= sp_base p + Z.of_nat j * kSliceSize \/
         sp_base p + Z.of_nat j * kSliceSize + kSliceSize <= ptr)
  | None => p' = p /\ sp_free p = [] /\ ((sp_max p <= sp_count p)%nat \/ ok = false)
  end /\
  (forall q, slice_free p q = p \/
     exists idx, sp_in_use p !! idx = Some true /\ q = sp_base p + Z.of_nat idx * kSliceSize /\
       sp_in_use (slice_free p q) = <[idx := false]> (sp_in_use p)).
Proof.
  intros Hb Hr Ha. assert (slice_ok p) as Hok.
  { pose proof (pool0_ok base n Hb) as H0. remember (pool0 base n) as q eqn:Hq. clear Hq.
    induction Hr as [|a b c Hab _ IH]; [done|]. apply IH; [done|]. by eapply slice_step_ok. }
  split; [|intros q; by apply slice_free_ok].
  assert (forall p1 r1 p2, slice_ok p1 -> sp_in_use p1 = sp_in_use p -> sp_base p1 = sp_base p ->
    sp_max p1 = sp_max p -> sp_free p1 <> [] -> slice_pop p1 = (r1, p2) -> exists ptr idx, r1 = Some ptr /\
      sp_in_use p !! idx = Some false /\ ptr = sp_base p + Z.of_nat idx * kSliceSize /\ (idx < sp_max p)%nat /\
      sp_in_use p2 = <[idx := true]> (sp_in_use p)) as Hpop.
  { intros p1 r1 p2 Hok1 Hu Hb1 Hm Hne H. apply slice_pop_ok in H as [_ H]; [|done].
    destruct r1 as [ptr|]; [|naive_solver]. destruct H as (idx & H1 & H2 & H3 & H4 & _).
    pose proof (sk_count _ Hok1). exists ptr, idx. rewrite Hu, Hb1 in *. split_and!; try done. lia. }
  assert (forall ptr idx, sp_in_use p !! idx = Some false -> ptr = sp_base p + Z.of_nat idx * kSliceSize ->
    forall j, sp_in_use p !! j = Some true ->
         ptr + kSliceSize <= sp_base p + Z.of_nat j * kSliceSize \/
         sp_base p + Z.of_nat j * kSliceSize + kSliceSize <= ptr) as Hdis.
  { intros ptr idx Hi -> j Hj. assert (idx <> j) by congruence. unfold kSliceSize. lia. }
  unfold slice_alloc in Ha. destruct (sp_free p) as [|i rest] eqn:E.
  - destruct (grow_slices ok p) as [g p1] eqn:Eg.
    destruct (slice_grow_ok _ _ _ _ Hok Eg) as (Hok1 & Hu & Hb1 & Hm & Hne & Hf).
    destruct g; cbn [negb] in Ha.
    + destruct (Hpop p1 r p' Hok1 Hu Hb1 Hm (Hne eq_refl E) Ha) as (ptr & idx & -> & ?). naive_solver.
    + injection Ha as <- <-. destruct (Hf eq_refl) as [-> ?]. done.
  - destruct (Hpop p r p' Hok eq_refl eq_refl eq_refl ltac:(by rewrite E) Ha) as (ptr & idx & -> & ?). naive_solver.
Qed.

Lemma slice_pool_safe_witness :
  exists p', slice_alloc true (pool0 65536 2) = (Some 81920, p') /\
  (forall q, slice_free (pool0 65536 2) q = pool0 65536 2 \/
     exists idx, sp_in_use (pool0 65536 2) !! idx = Some true /\
       q = sp_base (pool0 65536 2) + Z.of_nat idx * kSliceSize /\
       sp_in_use (slice_free (pool0 65536 2) q) = <[idx := false]> (sp_in_use (pool0 65536 2))).
Proof.
  eexists. split; [reflexivity|].
  eapply (slice_pool_safe 65536 2 (pool0 65536 2) true (Some 81920)); [lia | apply rtc_refl | reflexivity].
Defined.

(** ** UpstreamPool *)

Record UpstreamConn := mkConn { uc_fd : Z; uc_upstream_id : Z; uc_idle : bool; uc_allocated : bool }.

Definition kMaxConns : nat := 4096.

Definition free_conn : UpstreamConn := mkConn (-1) 0 false false.

Record UpstreamPool := mkUp { up_conns : list UpstreamConn; up_free_stack : list nat }.

Definition up_init : UpstreamPool :=
  mkUp (replicate kMaxConns free_conn) (rev (seq 0 kMaxConns)).

Definition up_alloc (p : UpstreamPool) : option nat * UpstreamPool :=
  match up_free_stack p with
  | [] => (None, p)
  | idx :: rest => (Some idx, mkUp (<[idx := mkConn (-1) 0 false true]> (up_conns p)) rest)
  end.

(** [free]: a connection is its slot number, [None] a null or foreign pointer;
    the result names the descriptor closed, if any. *)
Definition up_free (p : UpstreamPool) (c : option nat) : option Z * UpstreamPool :=
  match c with
  | None => (None, p)
  | Some i =>
      match up_conns p !! i with
      | None => (None, p)
      | Some x =>
          if negb (uc_allocated x) then (None, p)
          else
            let '(closed, fd) := if 0 <=? uc_fd x then (Some (uc_fd x), -1) else (None, uc_fd x) in
            let conns := <[i := mkConn fd (uc_upstream_id x) false false]> (up_conns p) in
            if Nat.leb kMaxConns (length (up_free_stack p)) then (closed, mkUp conns (up_free_stack p))
            else (closed, mkUp conns (i :: up_free_stack p))
      end
  end.

Fixpoint find_idle_loop (cs : list UpstreamConn) (i : nat) (upstream_id : Z) : option nat :=
  match cs with
  | [] => None
  | x :: cs' =>
      if uc_idle x && (uc_upstream_id x =? upstream_id) && (0 <=? uc_fd x) then Some i
      else find_idle_loop cs' (S i) upstream_id
  end.

Definition set_idle (p : UpstreamPool) (i : nat) (b : bool) : UpstreamPool :=
  match up_conns p !! i with
  | Some x => mkUp (<[i := mkConn (uc_fd x) (uc_upstream_id x) b (uc_allocated x)]> (up_conns p))
                (up_free_stack p)
  | None => p
  end.

Definition find_idle (p : UpstreamPool) (upstream_id : Z) : option nat * UpstreamPool :=
  match find_idle_loop (up_conns p) 0 upstream_id with
  | Some i => (Some i, set_idle p i false)
  | None => (None, p)
  end.

Definition return_idle (p : UpstreamPool) (c : option nat) : UpstreamPool :=
  match c with
  | None => p
  | Some i =>
      match up_conns p !! i with
      | None => p
      | Some x => if negb (uc_allocated x) || (uc_fd x <? 0) then p else set_idle p i true
      end
  end.

(** [shutdown]: the descriptors closed, and the pool as after [init]. *)
Definition up_shutdown (p : UpstreamPool) : list Z * UpstreamPool :=
  (omap (fun x => if 0 <=? uc_fd x then Some (uc_fd x) else None) (up_conns p),
   mkUp ((fun _ => free_conn) <$> up_conns p) (rev (seq 0 kMaxConns))).

(** The holder of a slot stores the socket and its target in it. *)
Definition up_assign (p : UpstreamPool) (i : nat) (fd upstream_id : Z) : UpstreamPool :=
  match up_conns p !! i with
  | Some x =>
      if uc_allocated x
      then mkUp (<[i := mkConn fd upstream_id (uc_idle x) true]> (up_conns p)) (up_free_stack p) else p
  | None => p
  end.

Inductive up_step : UpstreamPool -> UpstreamPool -> Prop :=
  | up_do_alloc p r p' : up_alloc p = (r, p') -> up_step p p'
  | up_do_free p c r p' : up_free p c = (r, p') -> up_step p p'
  | up_do_find p u r p' : find_idle p u = (r, p') -> up_step p p'
  | up_do_return p c : up_step p (return_idle p c)
  | up_do_assign p i fd u : up_step p (up_assign p i fd u)
  | up_do_shutdown p l p' : up_shutdown p = (l, p') -> up_step p p'.

#[local] Opaque kMaxConns.

(** A slot is free exactly when it is on the stack, and then holds no
    descriptor and is not idle. *)
Record up_ok (p : UpstreamPool) : Prop := {
  uk_slots : slots_ok kMaxConns (up_free_stack p) (uc_allocated <$> up_conns p);
  uk_free i x : up_conns p !! i = Some x -> uc_allocated x = false -> uc_fd x < 0 /\ uc_idle x = false
}.

(** Overwriting a slot without changing its mark. *)
Lemma up_ok_update p i x y :
  up_ok p -> up_conns p !! i = Some x -> uc_allocated y = uc_allocated x -> uc_allocated x = true ->
  up_ok (mkUp (<[i := y]> (up_conns p)) (up_free_stack p)).
Proof.
  intros [Hs Hf] Hi Hy Hx. split; cbn.
  - rewrite list_fmap_insert, Hy, list_insert_id; [done|]. by rewrite list_lookup_fmap, Hi.
  - intros j z Hj Hz. apply lookup_lt_Some in Hi as Hlt. destruct (decide (j = i)) as [->|Hne].
    + rewrite list_lookup_insert_eq in Hj by done. injection Hj as <-. congruence.
    + rewrite list_lookup_insert_ne in Hj by done. eauto.
Qed.

Lemma find_idle_spec cs k u i :
  find_idle_loop cs k u = Some i ->
  exists x, cs !! (i - k)%nat = Some x /\ (k <= i)%nat /\ uc_idle x = true /\ uc_upstream_id x = u /\ 0 <= uc_fd x.
Proof.
  revert k. induction cs as [|x cs IH]; intros k; cbn [find_idle_loop]; [done|]. case_if.
  - intros [= <-]. zify_bool. rewrite Nat.sub_diag. exists x. by split_and!.
  - intros H. apply IH in H as (y & Hy & Hle & ?). exists y.
    replace (i - k)%nat with (S (i - S k)) by lia. split; [done|]. split; [lia | done].
Qed.

Lemma find_idle_none cs k u :
  find_idle_loop cs k u = None ->
  Forall (fun x => ~ (uc_idle x = true /\ uc_upstream_id x = u /\ 0 <= uc_fd x)) cs.
Proof.
  revert k. induction cs as [|x cs IH]; intros k; cbn [find_idle_loop]; [constructor|]. case_if; [done|].
  intros H. constructor; [|eauto]. intros (H1 & <- & H3). rewrite H1, Z.eqb_refl in E. cbn in E. zify_bool. lia.
Qed.

Lemma up_init_ok : up_ok up_init.
Proof.
  split.
  - unfold up_init. cbn [up_free_stack up_conns]. rewrite fmap_replicate. apply slots_full.
  - intros i x Hi _. apply lookup_replicate in Hi as [-> _]. done.
Qed.

Lemma up_free_ok p c r p' : up_ok p -> up_free p c = (r, p') -> up_ok p'.
Proof.
  intros Hok H. unfold up_free in H. destruct c as [i|]; [|by injection H as <- <-].
  destruct (up_conns p !! i) as [x|] eqn:Hi; [|by injection H as <- <-].
  destruct (uc_allocated x) eqn:Ha; cbn [negb] in H; [|by injection H as <- <-].
  destruct Hok as [Hs Hf]. assert ((uc_allocated <$> up_conns p) !! i = Some true) as Hu
    by (rewrite list_lookup_fmap, Hi; cbn; by rewrite Ha).
  pose proof (slots_room _ _ _ Hs i Hu) as Hroom. apply lookup_lt_Some in Hi as Hlt.
  set (q := if 0 <=? uc_fd x then _ else _) in H.
  assert (exists cl fd, q = (cl, fd) /\ fd < 0) as (cl & fd & Hq & Hfd).
  { subst q. case_if; zify_bool; eexists _, _; split; try done; lia. }
  rewrite Hq in H. rewrite (proj2 (Nat.leb_gt _ _)) in H by lia. injection H as <- <-. split; cbn [up_conns up_free_stack].
  - rewrite list_fmap_insert. by apply slots_push.
  - intros j z Hj Hz. destruct (decide (j = i)) as [->|Hne].
    + rewrite list_lookup_insert_eq in Hj by done. by injection Hj as <-.
    + rewrite list_lookup_insert_ne in Hj by done. eauto.
Qed.

Lemma up_alloc_ok p r p' : up_ok p -> up_alloc p = (r, p') -> up_ok p'.
Proof.
  intros [Hs Hf] H. unfold up_alloc in H. destruct (up_free_stack p) as [|i rest] eqn:E; injection H as <- <-.
  { split; [by rewrite E | done]. }
  split; cbn [up_conns up_free_stack].
  - rewrite list_fmap_insert. by eapply slots_pop.
  - intros j z Hj Hz. destruct (decide (j = i)) as [->|Hne].
    + apply list_lookup_insert_Some in Hj as [(_ & <- & _)|[? _]]; done.
    + rewrite list_lookup_insert_ne in Hj by done. eauto.
Qed.

Lemma up_step_ok p p' : up_ok p -> up_step p p' -> up_ok p'.
Proof.
  intros Hok. destruct 1 as [p r p' H|p c r p' H|p u r p' H|p c|p i fd u|p l p' H].
  - by eapply up_alloc_ok.
  - by eapply up_free_ok.
  - unfold find_idle in H. destruct (find_idle_loop _ _ _) as [i|] eqn:Ef; injection H as <- <-; [|exact Hok].
    apply find_idle_spec in Ef as (x & Hx & _ & Hi & _). rewrite Nat.sub_0_r in Hx.
    unfold set_idle. rewrite Hx. eapply up_ok_update; [exact Hok | exact Hx | reflexivity |].
    destruct (uc_allocated x) eqn:Ha; [done|]. destruct (uk_free _ Hok i x Hx Ha). congruence.
  - unfold return_idle. destruct c as [i|]; [|exact Hok]. destruct (up_conns p !! i) as [x|] eqn:Hx; [|exact Hok].
    case_if; [exact Hok|]. zify_bool. unfold set_idle. rewrite Hx.
    eapply up_ok_update; [exact Hok | exact Hx | reflexivity | assumption].
  - unfold up_assign. destruct (up_conns p !! i) as [x|] eqn:Hx; [|exact Hok].
    destruct (uc_allocated x) eqn:Ha; [|exact Hok].
    eapply up_ok_update; [exact Hok | exact Hx | by rewrite Ha | exact Ha].
  - unfold up_shutdown in H. injection H as _ <-.
    assert (length (up_conns p) = kMaxConns) as Hlen.
    { rewrite <- (so_len _ _ _ (uk_slots _ Hok)). by rewrite length_fmap. }
    split; cbn [up_conns up_free_stack].
    + assert (uc_allocated <$> ((fun _ => free_conn) <$> up_conns p) = replicate kMaxConns false) as ->;
        [|apply slots_full]. rewrite <- Hlen. clear. induction (up_conns p); cbn; congruence.
    + intros i x Hi _. rewrite list_lookup_fmap in Hi. destruct (up_conns p !! i); [|done]. by injection Hi as <-.
Qed.

(** Upstream connections are handed out to one holder at a time and their
    descriptors are closed once.  After any sequence of operations: a slot from
    [alloc] was free, so it held no descriptor and was not idle; a slot from
    [find_idle] was allocated, idle, for that target and connected, is no longer
    idle, and [find_idle] fails only when there is none; [free] closes the
    descriptor of an allocated slot and only that one, after which freeing
    the slot again closes nothing. *)
Theorem upstream_pool_safe p :
  rtc up_step up_init p ->
  (forall i p', up_alloc p = (Some i, p') -> exists x, up_conns p !! i = Some x /\
     uc_allocated x = false /\ uc_fd x < 0 /\ uc_idle x = false) /\
  (forall u r p', find_idle p u = (r, p') ->
     match r with
     | Some i => exists x, up_conns p !! i = Some x /\ uc_allocated x = true /\ uc_idle x = true /\
         uc_upstream_id x = u /\ 0 <= uc_fd x /\
         up_conns p' = <[i := mkConn (uc_fd x) u false true]> (up_conns p)
     | None => Forall (fun x => ~ (uc_idle x = true /\ uc_upstream_id x = u /\ 0 <= uc_fd x)) (up_conns p)
     end) /\
  (forall i r p', up_free p (Some i) = (r, p') ->
     r = match up_conns p !! i with
         | Some x => if uc_allocated x && (0 <=? uc_fd x) then Some (uc_fd x) else None
         | None => None
         end /\ up_free p' (Some i) = (None, p')).
Proof.
  intros Hr. assert (up_ok p) as Hok.
  { pose proof up_init_ok as H0. remember up_init as q eqn:Hq. clear Hq.
    induction Hr as [|a b c Hab _ IH]; [done|]. apply IH. by eapply up_step_ok. }
  split_and!.
  - intros i p' H. unfold up_alloc in H. destruct (up_free_stack p) as [|k rest] eqn:E; [done|].
    injection H as -> _. assert (i ∈ up_free_stack p) as Hin by (rewrite E; left).
    apply (so_free _ _ _ (uk_slots _ Hok)) in Hin. rewrite list_lookup_fmap in Hin.
    destruct (up_conns p !! i) as [x|] eqn:Hx; [|done]. injection Hin as Ha. exists x.
    destruct (uk_free _ Hok i x Hx Ha). done.
  - intros u r p' H. unfold find_idle in H.
    destruct (find_idle_loop _ _ _) as [i|] eqn:Ef; injection H as <- <-; [|by eapply find_idle_none].
    apply find_idle_spec in Ef as (x & Hx & _ & Hi & <- & Hfd). rewrite Nat.sub_0_r in Hx.
    assert (uc_allocated x = true) as Ha.
    { destruct (uc_allocated x) eqn:Ha; [done|]. destruct (uk_free _ Hok i x Hx Ha). congruence. }
    exists x. split_and!; try done. unfold set_idle. rewrite Hx. cbn. by rewrite Ha.
  - intros i r p' H. unfold up_free in H. destruct (up_conns p !! i) as [x|] eqn:Hx.
    2: { injection H as <- <-. split; [done|]. unfold up_free. by rewrite Hx. }
    destruct (uc_allocated x) eqn:Ha; cbn [negb] in H.
    2: { injection H as <- <-. split; [done|]. unfold up_free. by rewrite Hx, Ha. }
    cbn [andb]. apply lookup_lt_Some in Hx as Hlt. revert H.
    destruct (0 <=? uc_fd x); destruct (Nat.leb _ _); intros [= <- <-]; split; try done;
      unfold up_free; cbn [up_conns]; by rewrite list_lookup_insert_eq.
Qed.

Lemma upstream_pool_safe_witness :
  up_free (snd (up_free up_init (Some 3%nat))) (Some 3%nat) = (None, snd (up_free up_init (Some 3%nat))).
Proof.
  destruct (upstream_pool_safe up_init (rtc_refl _ _)) as (_ & _ & H).
  destruct (H 3%nat _ _ (surjective_pairing (up_free up_init (Some 3%nat)))) as [_ E]. exact E.
Defined.
