(* ===== verification/Arena.v ===== *)
(** * The arena

    Model of include/rut/runtime/arena.h and src/runtime/arena.cc: a bump
    allocator over a chain of blocks that a back end supplies.  The back end is
    an interface, [Backend], with the two implementations of the source: fresh
    mappings of the kernel, and slices of the slice pool.  [BackendOk] is what
    a back end promises, and every theorem on the arena is proved against it.

    A pointer is an address; a block chain is the list of its blocks, the
    current one first, and [prev] is the rest of the list.  Sizes are 64-bit
    with their wrap-around written out. *)

From S2P Require Import Prelude Pools.

(** ** Back ends *)

(** [acquire(needed, &size)]: the address and the size of a block; [release]. *)
Class Backend (S : Type) := {
  acquire : S -> Z -> option (Z * Z) * S;
  release : S -> Z -> Z -> S
}.

(** An address range: start and length. *)
Definition region : Type := Z * Z.
Definition apart (p q : region) : Prop := fst p + snd p <= fst q \/ fst q + snd q <= fst p.

(** A back end hands out blocks that are big enough, aligned and apart from
    everything it handed out before, and takes them back one at a time. *)
Class BackendOk (S : Type) {B : Backend S} := {
  be_inv : S -> Prop;
  be_owned : S -> region -> Prop;
  be_acquire s n r s' : be_inv s -> 0 < n -> acquire s n = (r, s') ->
    be_inv s' /\
    match r with
    | Some (a, sz) =>
        0 < a /\ a mod 8 = 0 /\ n <= sz /\ a + sz <= 2 ^ 64 /\
        (forall q, be_owned s q -> apart (a, sz) q) /\
        (forall q, be_owned s' q <-> q = (a, sz) \/ be_owned s q)
    | None => forall q, be_owned s' q <-> be_owned s q
    end;
  be_release s a sz : be_inv s -> be_owned s (a, sz) ->
    be_inv (release s a sz) /\
    forall q, be_owned (release s a sz) q <-> be_owned s q /\ q <> (a, sz)
}.

(** *** MmapBackend

    The mappings of the process are part of the state; where the kernel puts a
    new one is a parameter. *)
Record MmapBackend := mkMmap { mb_default_block_size : Z; mb_mapped : list region }.

Definition mmap_init (block_size : Z) (mapped : list region) : MmapBackend :=
  mkMmap (if block_size <? 256 then 256 else block_size) mapped.

Section mmap_backend.
Context (mmap : list region -> Z -> option Z).

(** mmap(2): a page-aligned range of the requested length that overlaps no
    existing mapping. *)
Definition mmap_spec : Prop :=
  forall m size a, mmap m size = Some a ->
    0 < a /\ a mod 4096 = 0 /\ a + size <= 2 ^ 64 /\ Forall (apart (a, size)) m.

Definition mmap_acquire (s : MmapBackend) (needed : Z) : option (Z * Z) * MmapBackend :=
  let size := if needed <? mb_default_block_size s then mb_default_block_size s else needed in
  if 2 ^ 64 - 1 - 4095 <? size then (None, s)
  else
    let size := Z.land (size + 4095) (Z.lnot 4095) in
    match mmap (mb_mapped s) size with
    | None => (None, s)
    | Some p => (Some (p, size), mkMmap (mb_default_block_size s) ((p, size) :: mb_mapped s))
    end.

(** [munmap]. *)
Definition mmap_release (s : MmapBackend) (ptr size : Z) : MmapBackend :=
  mkMmap (mb_default_block_size s) (filter (fun q => q <> (ptr, size)) (mb_mapped s)).

#[local] Instance mmap_backend : Backend MmapBackend :=
  {| acquire := mmap_acquire; release := mmap_release |}.

(** Rounding up to a multiple of a power of two. *)
Lemma round_up k x :
  0 <= k -> 0 <= x ->
  x <= Z.land (x + (2 ^ k - 1)) (Z.lnot (2 ^ k - 1)) < x + 2 ^ k /\
  Z.land (x + (2 ^ k - 1)) (Z.lnot (2 ^ k - 1)) mod 2 ^ k = 0.
Proof.
  intros Hk Hx. replace (2 ^ k - 1) with (Z.ones k) by (rewrite Z.ones_equiv; lia).
  rewrite <- Z.ldiff_land, Z.ldiff_ones_r, Z.shiftl_mul_pow2, Z.shiftr_div_pow2 by done.
  assert (0 < 2 ^ k) as Hp by lia. set (y := x + Z.ones k). rewrite Z.mod_mul by lia.
  pose proof (Z.div_mod y (2 ^ k) ltac:(lia)). pose proof (Z.mod_pos_bound y (2 ^ k) Hp).
  assert (y = x + 2 ^ k - 1) by (subst y; rewrite Z.ones_equiv; lia). lia.
Qed.

Definition mmap_inv (s : MmapBackend) : Prop :=
  0 < mb_default_block_size s /\ Forall (fun q => 0 < snd q) (mb_mapped s).
Definition mmap_owned (s : MmapBackend) (q : region) : Prop := q ∈ mb_mapped s.

Definition mmap_ok : mmap_spec -> BackendOk MmapBackend.
Proof.
  intros Hmm. refine {| be_inv := mmap_inv; be_owned := mmap_owned |}; unfold mmap_inv, mmap_owned.
  - intros s n r s' [Hd Hpos] Hn. cbn. unfold mmap_acquire.
    set (size := if n <? mb_default_block_size s then mb_default_block_size s else n).
    assert (n <= size /\ 0 < size) as [Hns Hs0]
      by (subst size; destruct (Z.ltb_spec n (mb_default_block_size s)); lia).
    destruct (Z.ltb_spec (2 ^ 64 - 1 - 4095) size); [intros [= <- <-]; by split|].
    destruct (round_up 12 size) as [Hr _]; [lia..|].
    change (2 ^ 12 - 1) with 4095 in Hr.
    destruct (mmap _ _) as [p|] eqn:E; intros [= <- <-]; [|by split].
    apply Hmm in E as (Hp & Ha & He & Hf). cbn [mb_default_block_size mb_mapped]. split.
    + split; [done|]. constructor; [cbn; lia | done].
    + rewrite Forall_forall in Hf. split_and!; try done.
      * apply Z.mod_divide in Ha; [|lia]. apply Z.mod_divide; [lia|].
        by apply Z.divide_trans with 4096; [exists 512|].
      * lia.
      * intros q. by rewrite elem_of_cons.
  - intros s a sz [Hd Hpos] Hin. cbn. split.
    { split; [done|]. rewrite Forall_forall in Hpos |- *. intros q Hq.
      apply list_elem_of_filter in Hq as [_ Hq]. by apply Hpos. }
    intros q. rewrite list_elem_of_filter. tauto.
Defined.
End mmap_backend.

(** *** SlicePoolBackend

    The answer of mprotect, which the pool asks for when it has to commit more
    slices, is a parameter. *)
Section slice_backend.
Context (mprotect_ok : SlicePool -> bool).

Definition SlicePoolBackend : Type := option SlicePool.

Definition slice_acquire (s : SlicePoolBackend) (needed : Z) : option (Z * Z) * SlicePoolBackend :=
  match s with
  | None => (None, s)
  | Some pool =>
      if kSliceSize <? needed then (None, s)
      else
        let '(slice, pool') := slice_alloc (mprotect_ok pool) pool in
        match slice with
        | None => (None, Some pool')
        | Some p => (Some (p, kSliceSize), Some pool')
        end
  end.

Definition slice_release (s : SlicePoolBackend) (ptr size : Z) : SlicePoolBackend :=
  match s with
  | Some pool => Some (slice_free pool ptr)
  | None => None
  end.

#[local] Instance slice_backend : Backend SlicePoolBackend :=
  {| acquire := slice_acquire; release := slice_release |}.

(** The slices in use. *)
Definition slice_owned (s : SlicePoolBackend) (q : region) : Prop :=
  exists pool i, s = Some pool /\ sp_in_use pool !! i = Some true /\
    q = (sp_base pool + Z.of_nat i * kSliceSize, kSliceSize).

Definition slice_inv (s : SlicePoolBackend) : Prop :=
  match s with
  | Some p => slice_ok p /\ sp_base p mod 8 = 0 /\
      sp_base p + Z.of_nat (sp_max p) * kSliceSize <= 2 ^ 64
  | None => True
  end.
End slice_backend.

(** ** The arena *)

Definition kHeaderSize : Z := Z.land (24 + 15) (Z.lnot 15).

Record Block := mkBlock { b_at : Z; b_size : Z; b_used : Z }.

Definition data (b : Block) : Z := b_at b + kHeaderSize.
Definition capacity (b : Block) : Z := u64 (b_size b - kHeaderSize).
Definition remaining (b : Block) : Z := u64 (capacity b - b_used b).

Definition bump_block (b : Block) (size : Z) : Block :=
  mkBlock (b_at b) (b_size b) (u64 (b_used b + size)).

Section arena.
Context {S : Type} {B : Backend S}.

Record Arena := mkArena {
  ar_blocks : list Block;
  ar_backend : S;
  ar_total : Z
}.

Definition alloc_block (a : Arena) (needed : Z) : option Block * Arena :=
  let '(r, be) := acquire (ar_backend a) needed in
  match r with
  | None => (None, mkArena (ar_blocks a) be (ar_total a))
  | Some (mem, actual_size) =>
      (Some (mkBlock mem actual_size 0),
       mkArena (ar_blocks a) be (u64 (ar_total a + actual_size)))
  end.

(** [init], after the back end's own set-up; [false] is the error. *)
Definition arena_init (be : S) : bool * Arena :=
  let a := mkArena [] be 0 in
  let '(b, a') := alloc_block a kHeaderSize in
  match b with
  | None => (false, a')
  | Some b => (true, mkArena [b] (ar_backend a') (ar_total a'))
  end.

Definition alloc (a : Arena) (size : Z) : option Z * Arena :=
  match ar_blocks a with
  | [] => (None, a)
  | cur :: prev =>
      if 2 ^ 64 - 1 - 7 <? size then (None, a)
      else
        let size := Z.land (size + 7) (Z.lnot 7) in
        if size <=? remaining cur then
          (Some (data cur + b_used cur),
           mkArena (bump_block cur size :: prev) (ar_backend a) (ar_total a))
        else if 2 ^ 64 - 1 - kHeaderSize <? size then (None, a)
        else
          let '(b, a') := alloc_block a (kHeaderSize + size) in
          match b with
          | None => (None, a')
          | Some b =>
              if capacity b <? size then
                (None, mkArena (ar_blocks a') (release (ar_backend a') (b_at b) (b_size b))
                         (ar_total a'))
              else
                (Some (data b + b_used b),
                 mkArena (bump_block b size :: ar_blocks a') (ar_backend a') (ar_total a'))
          end
  end.

(** [alloc_array<T>(count)] with [sizeof(T)]. *)
Definition alloc_array (a : Arena) (sizeof_t count : Z) : option Z * Arena :=
  if (0 <? count) && ((2 ^ 64 - 1) / count <? sizeof_t) then (None, a)
  else alloc a (u64 (sizeof_t * count)).

(** [reset]: release every block but the first. *)
Fixpoint reset_loop (bs : list Block) (be : S) (total : Z) : list Block * S * Z :=
  match bs with
  | cur :: ((_ :: _) as prev) =>
      reset_loop prev (release be (b_at cur) (b_size cur)) (u64 (total - b_size cur))
  | _ => (bs, be, total)
  end.

Definition reset (a : Arena) : Arena :=
  match ar_blocks a with
  | [] => a
  | _ =>
      let '(bs, be, total) := reset_loop (ar_blocks a) (ar_backend a) (ar_total a) in
      mkArena ((fun b => mkBlock (b_at b) (b_size b) 0) <$> bs) be total
  end.

Fixpoint destroy_loop (bs : list Block) (be : S) : S :=
  match bs with
  | [] => be
  | cur :: prev => destroy_loop prev (release be (b_at cur) (b_size cur))
  end.

Definition destroy (a : Arena) : Arena :=
  mkArena [] (destroy_loop (ar_blocks a) (ar_backend a)) 0.

Definition space_used (a : Arena) : Z :=
  fold_left (fun t b => u64 (t + b_used b)) (ar_blocks a) 0.

Definition space_allocated (a : Arena) : Z := ar_total a.

End arena.
Arguments Arena : clear implicits.

(** ** Invariant

    [others] are the regions of the back end that belong to its other users;
    [live] are the allocations since the last reset, as rounded ranges. *)

Section arena_ok.
Context {S : Type} {B : Backend S} {BO : BackendOk S}.

Definition block_region (b : Block) : region := (b_at b, b_size b).

Record block_ok (b : Block) : Prop := {
  bo_at : 0 < b_at b;
  bo_align : b_at b mod 8 = 0;
  bo_used : 0 <= b_used b /\ kHeaderSize + b_used b <= b_size b;
  bo_used8 : b_used b mod 8 = 0;
  bo_end : b_at b + b_size b <= 2 ^ 64
}.

(** The part of a block that is allocated. *)
Definition carved (b : Block) (q : region) : Prop :=
  data b <= fst q /\ 0 <= snd q /\ fst q + snd q <= data b + b_used b.

Record arena_ok (others : region -> Prop) (a : Arena S) (live : list region) : Prop := {
  ao_be : be_inv (ar_backend a);
  ao_blocks : Forall block_ok (ar_blocks a);
  ao_apart : ForallOrdPairs apart (block_region <$> ar_blocks a);
  ao_owned q : be_owned (ar_backend a) q <-> q ∈ block_region <$> ar_blocks a \/ others q;
  ao_others b q : b ∈ ar_blocks a -> others q -> apart (block_region b) q;
  ao_total : ar_total a = u64 (foldr Z.add 0 (b_size <$> ar_blocks a));
  ao_live q : q ∈ live -> exists b, b ∈ ar_blocks a /\ carved b q;
  ao_disjoint : ForallOrdPairs apart live
}.

Lemma kHeaderSize_eq : kHeaderSize = 32.
Proof. reflexivity. Qed.

Lemma block_arith b :
  block_ok b ->
  capacity b = b_size b - kHeaderSize /\ remaining b = b_size b - kHeaderSize - b_used b.
Proof.
  intros [H1 _ H2 _ H5]. rewrite kHeaderSize_eq in *.
  assert (capacity b = b_size b - 32) as Hc
    by (unfold capacity, u64, wrap; rewrite kHeaderSize_eq, Z.mod_small; lia).
  split; [done|]. unfold remaining. rewrite Hc. unfold u64, wrap. rewrite Z.mod_small; lia.
Qed.

Lemma size_round size :
  0 <= size -> size <= Z.land (size + 7) (Z.lnot 7) < size + 8 /\
  Z.land (size + 7) (Z.lnot 7) mod 8 = 0.
Proof. intros H. by apply (round_up 3). Qed.

(** Bumping a block keeps it well formed, keeps what was carved out of it, and
    carves the new range behind it. *)
Lemma bump_ok b size :
  block_ok b -> 0 <= size -> size mod 8 = 0 -> size <= remaining b ->
  block_ok (bump_block b size) /\ (forall q, carved b q -> carved (bump_block b size) q) /\
  carved (bump_block b size) (data b + b_used b, size) /\
  (forall q, carved b q -> apart (data b + b_used b, size) q) /\
  (data b + b_used b) mod 8 = 0 /\ block_region (bump_block b size) = block_region b.
Proof.
  intros Hb Hs Hs8 Hr. destruct (block_arith b Hb) as [_ Hrem]. rewrite Hrem in Hr.
  destruct Hb as [H1 H2 H3 H4 H5]. rewrite kHeaderSize_eq in *.
  assert (u64 (b_used b + size) = b_used b + size) as Hu.
  { unfold u64, wrap. rewrite Z.mod_small; lia. }
  unfold bump_block, carved, apart, data, block_region. cbn [b_at b_used b_size fst snd].
  rewrite Hu, kHeaderSize_eq. split_and!; try done; try lia.
  - split; cbn [b_at b_used b_size]; rewrite ?kHeaderSize_eq; try done; try lia.
    Z.to_euclidean_division_equations; lia.
  - Z.to_euclidean_division_equations; lia.
Qed.

(** Ranges of different blocks are apart. *)
Lemma carved_apart b b' q q' :
  block_ok b -> block_ok b' -> apart (block_region b) (block_region b') ->
  carved b q -> carved b' q' -> apart q q'.
Proof.
  intros [_ _ Hu _ _] [_ _ Hu' _ _] Ha Hq Hq'. unfold apart, carved, block_region, data in *.
  rewrite !kHeaderSize_eq in *. cbn [fst snd] in *. lia.
Qed.

Lemma apart_sym p q : apart p q -> apart q p.
Proof. unfold apart. lia. Qed.

(** What [alloc] does with a block big enough: the head of the chain, old or
    fresh. *)
Lemma carve_ok others cur prev be total live size :
  arena_ok others (mkArena (cur :: prev) be total) live ->
  0 <= size -> size mod 8 = 0 -> size <= remaining cur ->
  (data cur + b_used cur) mod 8 = 0 /\
  (exists b, b ∈ bump_block cur size :: prev /\ carved b (data cur + b_used cur, size)) /\
  Forall (apart (data cur + b_used cur, size)) live /\
  arena_ok others (mkArena (bump_block cur size :: prev) be total)
    ((data cur + b_used cur, size) :: live).
Proof.
  intros [Hbe Hbl Hap How Hot Htot Hlive Hdis] Hs0 Hs8 Hr. cbn [ar_backend ar_blocks ar_total] in *.
  apply Forall_cons in Hbl as [Hcur Hprev].
  destruct (bump_ok cur size Hcur Hs0 Hs8 Hr) as (Hok & Hkeep & Hnew & Hap1 & H8 & Hreg).
  assert (Forall (apart (data cur + b_used cur, size)) live) as Hfresh.
  { apply Forall_forall. intros q Hq. destruct (Hlive q Hq) as (b & Hb & Hc).
    apply elem_of_cons in Hb as [->|Hb]; [by apply Hap1|].
    rewrite Forall_forall in Hprev. apply (carved_apart (bump_block cur size) b); auto.
    rewrite Hreg. inversion Hap as [|? ? Hf _]; subst. rewrite Forall_forall in Hf.
    apply Hf, list_elem_of_fmap. by exists b. }
  split_and!; [done | by exists (bump_block cur size); split; [left|] | done |].
  split; cbn [ar_backend ar_blocks ar_total]; try done.
  - by constructor.
  - intros b q Hb. apply elem_of_cons in Hb as [->|Hb].
    + rewrite Hreg. apply Hot. left.
    + apply Hot. by right.
  - intros q Hq. apply elem_of_cons in Hq as [->|Hq].
    + exists (bump_block cur size). split; [left | done].
    + destruct (Hlive q Hq) as (b & Hb & Hc). apply elem_of_cons in Hb as [->|Hb].
      * exists (bump_block cur size). split; [left | by apply Hkeep].
      * exists b. split; [by right | done].
  - by constructor.
Qed.

(** A fresh block in front of the chain. *)
Lemma alloc_block_ok others a live needed r a' :
  arena_ok others a live -> kHeaderSize <= needed -> alloc_block a needed = (r, a') ->
  match r with
  | None => arena_ok others a' live /\ ar_blocks a' = ar_blocks a
  | Some b => b_used b = 0 /\ needed <= b_size b /\ ar_blocks a' = ar_blocks a /\
      arena_ok others (mkArena (b :: ar_blocks a) (ar_backend a') (ar_total a')) live
  end.
Proof.
  intros [Hbe Hbl Hap How Hot Htot Hlive Hdis] Hn. unfold alloc_block.
  pose proof kHeaderSize_eq as Hk.
  destruct (acquire (ar_backend a) needed) as [r0 be] eqn:E.
  assert (0 < needed) as Hpos by lia.
  destruct (be_acquire _ _ _ _ Hbe Hpos E) as [Hbe' Hr].
  destruct r0 as [[mem sz]|]; intros [= <- <-]; cbn [ar_blocks ar_backend ar_total].
  - destruct Hr as (H0 & H8 & Hsz & Hend & Hfresh & Hown). split_and!; try done.
    split; cbn [ar_blocks ar_backend ar_total]; try done.
    + constructor; [|done]. split; cbn [b_at b_size b_used]; try done. lia.
    + rewrite fmap_cons. constructor; [|done]. apply Forall_forall. intros q Hq.
      apply Hfresh, How. by left.
    + intros q. rewrite Hown, How, fmap_cons, elem_of_cons. unfold block_region. cbn. tauto.
    + intros b q Hb Hq. apply elem_of_cons in Hb as [->|Hb]; [|by apply Hot].
      apply Hfresh, How. by right.
    + rewrite Htot. cbn [fmap list_fmap foldr b_size]. unfold u64, wrap.
      rewrite Z.add_mod_idemp_l by lia. f_equal. unfold fmap. lia.
    + intros q Hq. destruct (Hlive q Hq) as (b & Hb & Hc). exists b. split; [by right | done].
  - split; [|done]. split; cbn [ar_blocks ar_backend ar_total]; try done.
    intros q. rewrite Hr. apply How.
Qed.

Lemma arena_alloc_ok others a live size r a' :
  arena_ok others a live -> 0 <= size -> alloc a size = (r, a') ->
  match r with
  | Some p =>
      let n := Z.land (size + 7) (Z.lnot 7) in
      size <= n /\ p mod 8 = 0 /\ (exists b, b ∈ ar_blocks a' /\ carved b (p, n)) /\
      Forall (apart (p, n)) live /\ arena_ok others a' ((p, n) :: live)
  | None => arena_ok others a' live /\ ar_blocks a' = ar_blocks a
  end.
Proof.
  intros Ha Hsize. unfold alloc. destruct a as [[|cur prev] be total]; cbn [ar_blocks ar_backend ar_total].
  { intros [= <- <-]. done. }
  pose proof kHeaderSize_eq as Hk.
  destruct (Z.ltb_spec (2 ^ 64 - 1 - 7) size); [intros [= <- <-]; done|].
  destruct (size_round size Hsize) as [Hr Hr8]. set (n := Z.land (size + 7) (Z.lnot 7)) in *.
  destruct (Z.leb_spec n (remaining cur)) as [Hfit|].
  { intros [= <- <-]. cbn [ar_blocks].
    destruct (carve_ok others cur prev be total live n Ha ltac:(lia) Hr8 Hfit) as (?&?&?&?).
    split_and!; try done. lia. }
  destruct (Z.ltb_spec (2 ^ 64 - 1 - kHeaderSize) n); [intros [= <- <-]; done|].
  destruct (alloc_block _ _) as [b a1] eqn:E.
  apply (alloc_block_ok others _ live) in E; [|done|lia].
  destruct b as [b|]; [|intros [= <- <-]; exact E].
  cbn [ar_blocks] in E. destruct E as (Hu & Hb & Hbs & Hok). rewrite Hbs.
  assert (block_ok b) as Hbo by (destruct Hok as [_ Hf _ _ _ _ _ _]; by apply Forall_cons in Hf as [? _]).
  destruct (block_arith b Hbo) as [Hcap Hrem].
  destruct (Z.ltb_spec (capacity b) n); [lia|]. intros [= <- <-]. cbn [ar_blocks].
  destruct (carve_ok others b (cur :: prev) (ar_backend a1) (ar_total a1) live n Hok ltac:(lia) Hr8
    ltac:(lia)) as (?&?&?&?).
  split_and!; try done. lia.
Qed.

(** Releasing the current block. *)
Lemma release_head others cur prev be total live live' :
  arena_ok others (mkArena (cur :: prev) be total) live -> live' = [] ->
  arena_ok others (mkArena prev (release be (b_at cur) (b_size cur)) (u64 (total - b_size cur))) live'.
Proof.
  intros [Hbe Hbl Hap How Hot Htot Hlive Hdis] ->. cbn [ar_backend ar_blocks ar_total] in *.
  apply Forall_cons in Hbl as [Hcur Hprev]. rewrite fmap_cons in Hap.
  inversion Hap as [|? ? Hf Hap']; subst.
  assert (be_owned be (block_region cur)) as Hown by (apply How; left; by left).
  destruct (be_release _ _ _ Hbe Hown) as [Hbe' How'].
  assert (forall q, apart (block_region cur) q -> q <> block_region cur) as Hself.
  { intros q Ha ->. destruct Hcur as [_ _ Hu _ _]. rewrite kHeaderSize_eq in Hu.
    unfold apart, block_region in Ha. cbn in Ha. lia. }
  split; cbn [ar_backend ar_blocks ar_total]; try done.
  - intros q. change (b_at cur, b_size cur) with (block_region cur) in How'.
    rewrite How', How, fmap_cons, elem_of_cons. split.
    + intros [[[?|?]|?] ?]; [done | by left | by right].
    + intros [Hq|Hq]; (split; [tauto|]); apply Hself.
      * rewrite Forall_forall in Hf. by apply Hf.
      * by apply Hot; [left|].
  - intros b q Hb. apply Hot. by right.
  - cbn [fmap list_fmap foldr]. unfold u64, wrap. rewrite Zminus_mod_idemp_l. f_equal. unfold fmap. lia.
  - intros q Hq. by apply not_elem_of_nil in Hq.
  - constructor.
Qed.

Lemma forget_ok others a live : arena_ok others a live -> arena_ok others a [].
Proof.
  intros [Hbe Hbl Hap How Hot Htot Hlive Hdis]. split; try done; [|constructor].
  intros q Hq. by apply not_elem_of_nil in Hq.
Qed.

Lemma arena_reset_ok others a live : arena_ok others a live -> arena_ok others (reset a) [].
Proof.
  intros Ha. apply forget_ok in Ha. unfold reset. destruct a as [bs be total]. cbn [ar_blocks ar_backend ar_total].
  destruct bs as [|b0 bs0] eqn:Ebs; [done|]. rewrite <- Ebs in *. clear Ebs b0 bs0.
  assert (match reset_loop bs be total with (bs', be', total') =>
    arena_ok others (mkArena bs' be' total') [] end) as Hr.
  { revert be total Ha. induction bs as [|cur prev IH]; intros be total Ha; [done|].
    destruct prev as [|b prev]; [done|]. cbn [reset_loop]. apply IH. by eapply release_head. }
  destruct (reset_loop bs be total) as [[bs' be'] total'].
  destruct Hr as [Hbe Hbl Hap How Hot Htot Hlive Hdis]. cbn [ar_backend ar_blocks ar_total] in *.
  assert (block_region <$> ((fun b => mkBlock (b_at b) (b_size b) 0) <$> bs') = block_region <$> bs') as Hreg
    by (rewrite <- list_fmap_compose; done).
  split; cbn [ar_backend ar_blocks ar_total]; rewrite ?Hreg; try done.
  - apply Forall_fmap. eapply Forall_impl; [exact Hbl|]. intros b [H1 H2 H3 H4 H5].
    split; cbn; try done. lia.
  - intros b q Hb. apply list_elem_of_fmap in Hb as (b1 & -> & Hb). by apply (Hot b1).
  - by rewrite <- list_fmap_compose.
  - intros q Hq. by apply not_elem_of_nil in Hq.
Qed.

(** Afterwards the back end has what it had without the arena. *)
Lemma arena_destroy_ok others a live :
  arena_ok others a live ->
  arena_ok others (destroy a) [] /\ forall q, be_owned (ar_backend (destroy a)) q <-> others q.
Proof.
  intros Ha. apply forget_ok in Ha. unfold destroy. destruct a as [bs be total]. cbn [ar_blocks ar_backend].
  assert (arena_ok others (mkArena [] (destroy_loop bs be) 0) []) as Hd.
  { revert be total Ha. induction bs as [|cur prev IH]; intros be total Ha; cbn [destroy_loop].
    - destruct Ha as [Hbe Hbl Hap How Hot Htot Hlive Hdis]. by split.
    - eapply IH. by eapply release_head. }
  split; [done|]. intros q. rewrite (ao_owned _ _ _ Hd). cbn. split; [|by right].
  intros [Hq|?]; [by apply not_elem_of_nil in Hq | done].
Qed.

Lemma arena_init_ok be r a :
  be_inv be -> arena_init be = (r, a) -> arena_ok (be_owned be) a [].
Proof.
  intros Hbe. unfold arena_init.
  assert (arena_ok (be_owned be) (mkArena [] be 0) []) as H0.
  { split; cbn; try done; [constructor | | | | constructor].
    - intros q. split; [by right|]. intros [Hq|?]; [by apply not_elem_of_nil in Hq | done].
    - intros b q Hb. by apply not_elem_of_nil in Hb.
    - intros q Hq. by apply not_elem_of_nil in Hq. }
  destruct (alloc_block _ _) as [b a1] eqn:E. eapply alloc_block_ok in E; [|exact H0|done].
  destruct b as [b|]; intros [= <- <-]; [apply E | by destruct E].
Qed.

(** The operations as steps; the list is what the callers hold. *)
Inductive arena_step : Arena S * list region -> Arena S * list region -> Prop :=
  | do_alloc a live size p a' : 0 <= size -> alloc a size = (Some p, a') ->
      arena_step (a, live) (a', (p, Z.land (size + 7) (Z.lnot 7)) :: live)
  | do_alloc_fails a live size a' : 0 <= size -> alloc a size = (None, a') ->
      arena_step (a, live) (a', live)
  | do_reset a live : arena_step (a, live) (reset a, [])
  | do_destroy a live : arena_step (a, live) (destroy a, []).

Lemma arena_reach_ok others s s' :
  rtc arena_step s s' -> arena_ok others (fst s) (snd s) -> arena_ok others (fst s') (snd s').
Proof.
  induction 1 as [|s1 s2 s3 Hs _ IH]; [done|]. intros Hok. apply IH.
  destruct Hs as [a live size p a' Hsz E|a live size a' Hsz E| |]; cbn [fst snd] in *.
  - apply (arena_alloc_ok others _ live) in E; [|done..]. apply E.
  - apply (arena_alloc_ok others _ live) in E; [|done..]. apply E.
  - by eapply arena_reset_ok.
  - by eapply (arena_destroy_ok others _ _ Hok).
Qed.
End arena_ok.

(** ** The slice back end keeps its promise *)

Lemma slice_alloc_spec ok p r p' :
  slice_ok p -> slice_alloc ok p = (r, p') ->
  slice_ok p' /\ sp_base p' = sp_base p /\ sp_max p' = sp_max p /\
  match r with
  | Some ptr => exists idx, sp_in_use p !! idx = Some false /\ (idx < sp_max p)%nat /\
      ptr = sp_base p + Z.of_nat idx * kSliceSize /\ sp_in_use p' = <[idx := true]> (sp_in_use p)
  | None => sp_in_use p' = sp_in_use p
  end.
Proof.
  intros Hok Ha.
  assert (Hpop : forall p1, slice_ok p1 -> sp_in_use p1 = sp_in_use p -> sp_base p1 = sp_base p ->
    sp_max p1 = sp_max p -> slice_pop p1 = (r, p') ->
    slice_ok p' /\ sp_base p' = sp_base p /\ sp_max p' = sp_max p /\
    match r with
    | Some ptr => exists idx, sp_in_use p !! idx = Some false /\ (idx < sp_max p)%nat /\
        ptr = sp_base p + Z.of_nat idx * kSliceSize /\ sp_in_use p' = <[idx := true]> (sp_in_use p)
    | None => sp_in_use p' = sp_in_use p
    end).
  { intros p1 Hok1 Hu Hb Hm H. apply slice_pop_ok in H as [Hok' H]; [|done].
    pose proof (sk_count _ Hok1). split; [done|]. destruct r as [ptr|].
    - destruct H as (idx & H1 & H2 & H3 & H4 & H5 & H6 & H7). rewrite H5, H7.
      split_and!; [done..|]. exists idx. rewrite <- Hu, <- Hb, <- Hm. split_and!; try done. lia.
    - destruct H as [-> _]. done. }
  unfold slice_alloc in Ha. destruct (sp_free p) eqn:E; [|by apply (Hpop p)].
  destruct (grow_slices ok p) as [g p1] eqn:Eg.
  destruct (slice_grow_ok _ _ _ _ Hok Eg) as (Hok1 & Hu & Hb1 & Hm & _ & Hf).
  destruct g; cbn [negb] in Ha; [by apply (Hpop p1)|].
  injection Ha as <- <-. destruct (Hf eq_refl) as [-> _]. done.
Qed.

Lemma slices_apart base i j :
  i <> j -> apart (base + Z.of_nat i * kSliceSize, kSliceSize) (base + Z.of_nat j * kSliceSize, kSliceSize).
Proof. unfold apart, kSliceSize. cbn [fst snd]. lia. Qed.

Lemma slice_free_spec p i :
  slice_ok p -> sp_in_use p !! i = Some true ->
  let p' := slice_free p (sp_base p + Z.of_nat i * kSliceSize) in
  slice_ok p' /\ sp_base p' = sp_base p /\ sp_max p' = sp_max p /\
  sp_in_use p' = <[i := false]> (sp_in_use p).
Proof.
  intros Hok Hi. cbv zeta. destruct (slice_free_ok p (sp_base p + Z.of_nat i * kSliceSize) Hok) as [Hok' _].
  split; [done|]. destruct Hok as [Hb Hc Hm Hs Hr].
  assert (i < sp_count p)%nat as Hlt.
  { destruct (Nat.lt_ge_cases i (sp_count p)) as [|Hge]; [done|].
    rewrite Forall_lookup in Hr. specialize (Hr (i - sp_count p)%nat true).
    rewrite lookup_drop in Hr. replace (sp_count p + (i - sp_count p))%nat with i in Hr by lia.
    by apply Hr in Hi. }
  assert (length (sp_free p) < sp_count p)%nat as Hroom
    by (eapply slots_room; [exact Hs|]; rewrite lookup_take_lt by done; exact Hi).
  clear Hok'. unfold slice_free.
  set (ptr := sp_base p + Z.of_nat i * kSliceSize).
  assert (ptr - sp_base p = Z.of_nat i * kSliceSize) as Hoff by (subst ptr; lia).
  assert (0 < kSliceSize) as Hk by (unfold kSliceSize; lia).
  rewrite Hoff, Z.mod_mul, Z.div_mul, Nat2Z.id by lia.
  assert ((ptr =? 0) = false /\ Nat.eqb (sp_count p) 0 = false /\ (ptr <? sp_base p) = false /\
    (sp_base p + Z.of_nat (sp_count p) * kSliceSize <=? ptr) = false /\
    Nat.leb (sp_max p) (length (sp_free p)) = false) as (-> & -> & -> & -> & ->).
  { unfold kSliceSize in *. subst ptr. split_and!;
      [apply Z.eqb_neq | apply Nat.eqb_neq | apply Z.ltb_ge | apply Z.leb_gt | apply Nat.leb_gt]; lia. }
  rewrite nth_lookup, Hi. done.
Qed.

Definition slice_backend_ok mprotect_ok :
  @BackendOk SlicePoolBackend (slice_backend mprotect_ok).
Proof.
  refine {| be_inv := slice_inv; be_owned := slice_owned |}.
  - intros [pool|] n r s' Hinv Hn; cbn; unfold slice_acquire; [|intros [= <- <-]; done].
    destruct (Z.ltb_spec kSliceSize n); [intros [= <- <-]; done|].
    destruct (slice_alloc _ _) as [r0 pool'] eqn:E. destruct Hinv as (Hok & H8 & Hend).
    apply slice_alloc_spec in E as (Hok' & Hb & Hm & Hr); [|done].
    destruct r0 as [ptr|]; intros [= <- <-].
    + destruct Hr as (idx & Hf & Hlt & -> & Hu). split; [cbn; by rewrite Hb, Hm|].
      pose proof (sk_base _ Hok). unfold kSliceSize in *.
      split_and!; try lia; try (Z.to_euclidean_division_equations; lia).
      * intros q (? & j & [= <-] & Hj & ->). apply slices_apart. congruence.
      * intros q. unfold slice_owned. split.
        -- intros (? & j & [= <-] & Hj & ->). rewrite Hb, Hu in *.
           destruct (decide (j = idx)) as [->|Hne]; [by left|].
           rewrite list_lookup_insert_ne in Hj by done. right. by exists pool, j.
        -- intros [->|(? & j & [= <-] & Hj & ->)].
           ++ exists pool', idx. rewrite Hb, Hu. split_and!; try done.
              apply list_lookup_insert_eq. by eapply lookup_lt_Some.
           ++ exists pool', j. rewrite Hb, Hu. split_and!; try done.
              rewrite list_lookup_insert_ne; [done|]. congruence.
    + split; [cbn; by rewrite Hb, Hm|]. intros q. unfold slice_owned.
      split; intros (? & j & [= <-] & Hj & ->).
      * exists pool, j. by rewrite Hb, <- Hr.
      * exists pool', j. by rewrite Hb, Hr.
  - intros s a sz Hinv (pool & i & -> & Hi & [= -> ->]). destruct Hinv as (Hok & H8 & Hend). cbn.
    destruct (slice_free_spec pool i Hok Hi) as (Hok' & Hb & Hm & Hu). split; [by rewrite Hb, Hm|].
    intros q. unfold slice_owned. split.
    + intros (? & j & [= <-] & Hj & ->). rewrite Hb, Hu in *.
      destruct (decide (j = i)) as [->|Hne].
      * rewrite list_lookup_insert_eq in Hj by (by eapply lookup_lt_Some). done.
      * rewrite list_lookup_insert_ne in Hj by done. split; [by exists pool, j|].
        intros [= He]. unfold kSliceSize in He. lia.
    + intros [(? & j & [= <-] & Hj & ->) Hne]. exists (slice_free pool (sp_base pool + Z.of_nat i * kSliceSize)), j.
      rewrite Hb, Hu. split_and!; try done. rewrite list_lookup_insert_ne; [done|].
      intros ->. by apply Hne.
Defined.

(** ** Properties *)

(** A kernel that maps above everything mapped so far. *)
Definition mmap_above (m : list region) (size : Z) : option Z :=
  let top := foldr (fun q t => Z.max (fst q + snd q) t) 4096 m in
  let a := Z.land (top + 4095) (Z.lnot 4095) in
  if a + size <=? 2 ^ 64 then Some a else None.

Lemma mmap_above_ok : mmap_spec mmap_above.
Proof.
  intros m size a. unfold mmap_above. set (top := foldr _ _ _).
  assert (4096 <= top /\ Forall (fun q => fst q + snd q <= top) m) as [H0 Hf].
  { subst top. clear. induction m as [|q m [IH1 IH2]]; cbn; [done|]. split; [lia|].
    constructor; [lia|]. eapply Forall_impl; [exact IH2|]. cbn. lia. }
  destruct (round_up 12 top) as [Hr Hr12]; [lia..|]. change (2 ^ 12 - 1) with 4095 in *.
  destruct (Z.leb_spec (Z.land (top + 4095) (Z.lnot 4095) + size) (2 ^ 64)); intros [= <-].
  split_and!; [lia | done | done |]. eapply Forall_impl; [exact Hf|].
  intros q Hq. right. cbv beta in Hq. cbn [fst snd]. lia.
Qed.

(** C40: arena allocations never overlap and never leak.  For any back end that
    keeps its promise, through any sequence of allocations, resets and
    destructions from [init], an allocation returns an 8-byte aligned range at
    least as long as asked for, inside a block of the arena and past its
    header, apart from every allocation since the last reset; a failed one
    keeps the blocks; [space_allocated] is the sum of the block sizes; and
    destroying the arena leaves the back end with exactly what it owned before
    [init]. *)
Theorem arena_allocations_apart {S} {B : Backend S} {BO : BackendOk S} be r a0 a live size res a' :
  be_inv be -> arena_init be = (r, a0) -> rtc arena_step (a0, []) (a, live) -> 0 <= size ->
  alloc a size = (res, a') ->
  match res with
  | Some p => exists n b, size <= n /\ p mod 8 = 0 /\ b ∈ ar_blocks a' /\
      data b <= p /\ p + n <= b_at b + b_size b /\ Forall (apart (p, n)) live
  | None => ar_blocks a' = ar_blocks a
  end /\
  space_allocated a' = u64 (foldr Z.add 0 (b_size <$> ar_blocks a')) /\
  (forall q, be_owned (ar_backend (destroy a')) q <-> be_owned be q).
Proof.
  intros Hbe Hi Hr Hs Ha. pose proof (arena_init_ok be r a0 Hbe Hi) as H0.
  pose proof (arena_reach_ok (be_owned be) _ _ Hr H0) as Hok. cbn [fst snd] in Hok.
  pose proof (arena_alloc_ok _ _ _ _ _ _ Hok Hs Ha) as Hres.
  assert (exists live', arena_ok (be_owned be) a' live') as [live' Hok'].
  { destruct res; [eexists; apply Hres | exists live; apply Hres]. }
  split_and!; [| apply Hok' | by apply (arena_destroy_ok _ _ live')].
  destruct res as [p|]; [|apply Hres]. destruct Hres as (Hn & H8 & (b & Hb & Hc) & Hf & _).
  exists (Z.land (size + 7) (Z.lnot 7)), b. destruct Hc as (Hc1 & _ & Hc2). cbn [fst snd] in *.
  split_and!; try done. pose proof (ao_blocks _ _ _ Hok') as Hbl. rewrite Forall_forall in Hbl.
  destruct (Hbl b Hb) as [_ _ [_ Hu] _ _]. unfold data in Hc2. lia.
Qed.

Definition arena_ex : Arena MmapBackend :=
  snd (@arena_init MmapBackend (mmap_backend mmap_above) (mmap_init 4096 [])).

Lemma arena_allocations_apart_witness :
  exists a', @alloc MmapBackend (mmap_backend mmap_above) arena_ex 100 = (Some 4128, a') /\
  space_allocated a' = 4096 /\
  (forall q, @be_owned _ _ (mmap_ok mmap_above mmap_above_ok)
     (ar_backend (@destroy _ (mmap_backend mmap_above) a')) q <->
   @be_owned _ _ (mmap_ok mmap_above mmap_above_ok) (mmap_init 4096 []) q).
Proof.
  eexists. split; [vm_compute; reflexivity|]. split; [reflexivity|].
  eapply (@arena_allocations_apart MmapBackend (mmap_backend mmap_above)
    (mmap_ok mmap_above mmap_above_ok) (mmap_init 4096 []) true arena_ex arena_ex [] 100 (Some 4128)).
  - split; [reflexivity | constructor].
  - vm_compute; reflexivity.
  - apply rtc_refl.
  - lia.
  - vm_compute; reflexivity.
Defined.
