(* ===== verification/Rir.v ===== *)
(** * The route IR

    Model of include/rut/compiler/rir.h: types, SSA values, opcodes,
    instructions, blocks, functions and modules.  A [Str] is its bytes.  An
    arena array with its fill count is a [Vec]: the slots up to the capacity,
    of which the first [v_count] are in use, and the address of the array,
    which tells a pointer into it from a pointer into an array it replaced.
    A [StructDef*] is the position of the definition in the module's table,
    which only grows. *)

From S2P Require Import Prelude.

Inductive RirError := OutOfMemory | InvalidState | CapacityFull.

Record SourceLoc := mkLoc { line : Z; col : Z }.

Module TypeKind.
Inductive t :=
  | Void | Bool | I32 | I64 | U32 | U64 | F64 | Str
  | ByteSize | Duration | Time | IP | CIDR | MediaType | StatusCode | Method | Bytes
  | Optional | Struct | Array.

#[global] Instance t_eq_dec : EqDecision t.
Proof. solve_decision. Defined.

(** The enumerator's value. *)
Definition code (k : t) : nat :=
  match k with
  | Void => 0 | Bool => 1 | I32 => 2 | I64 => 3 | U32 => 4 | U64 => 5 | F64 => 6 | Str => 7
  | ByteSize => 8 | Duration => 9 | Time => 10 | IP => 11 | CIDR => 12 | MediaType => 13
  | StatusCode => 14 | Method => 15 | Bytes => 16 | Optional => 17 | Struct => 18 | Array => 19
  end.
End TypeKind.

(** [inner] is null outside Optional and Array, [struct_def] outside Struct. *)
Inductive Ty := MkTy (kind : TypeKind.t) (inner : option Ty) (struct_def : option nat).

Definition ty_kind (t : Ty) : TypeKind.t := let 'MkTy k _ _ := t in k.
Definition ty_inner (t : Ty) : option Ty := let 'MkTy _ i _ := t in i.
Definition ty_struct (t : Ty) : option nat := let 'MkTy _ _ s := t in s.

Record FieldDef := mkField { fd_name : list Z; fd_type : option Ty }.

Record StructDef := mkStruct { sd_name : list Z; sd_fields : list FieldDef }.

(** [ValueId] and [BlockId] are 32-bit indices. *)
Definition kNoValue : Z := 0xFFFFFFFF.
Definition kNoBlock : Z := 0xFFFFFFFF.

Record Value := mkValue { v_type : option Ty; v_def_block : Z; v_def_inst : Z }.

Module Opcode.
Inductive t :=
  | ConstStr | ConstI32 | ConstI64 | ConstBool | ConstDuration | ConstByteSize | ConstMethod
  | ConstStatus
  | ReqHeader | ReqParam | ReqQuery | ReqQueryString | ReqMethod | ReqPath | ReqPathOnly | ReqBody
  | ReqKeepAlive | ReqChunked | ReqHasContentLength | ReqHttp10 | ReqHttp11 | ReqHttpVersion
  | ResumeEventKind | ResumeEventResult | CtxLoadSlotI32 | ReqRemoteAddr | ReqContentLength
  | ReqCookie
  | ReqSetHeader | ReqSetPath | CtxStoreSlotI32
  | StrHasPrefix | StrTrimPrefix | StrRegexMatch | StrInterpolate
  | CmpEq | CmpNe | CmpLt | CmpGt | CmpLe | CmpGe
  | TimeNow | TimeDiff | IpInCidr | HashHmacSha256 | BytesHex
  | CounterIncr
  | StructField | StructCreate | BodyParse | ArrayLen | ArrayGet
  | OptNil | OptWrap | OptIsNil | OptUnwrap
  | Select
  | TraceFuncEnter | TraceFuncExit | TraceIoStart | TraceIoEnd | MetricHistRecord
  | MetricCounterIncr | AccessLogWrite
  | Br | Jmp | RetStatus | RetForward
  | YieldTimer | YieldHttpGet | YieldHttpPost | YieldForward.

#[global] Instance t_eq_dec : EqDecision t.
Proof. solve_decision. Defined.
End Opcode.

Definition kMaxInlineOperands : nat := 3.

(** The union of immediates: the member last written, or all zero bytes. *)
Inductive Immediate :=
  | ImmZero
  | ImmStr (str_val : list Z)
  | ImmI32 (i32_val : Z)
  | ImmI64 (i64_val : Z)
  | ImmBool (bool_val : bool)
  | ImmMethod (method_val : Z)
  | ImmTargets (then_block else_block : Z)
  | ImmStructRef (name : list Z) (type : option Ty).

Record Instruction := mkInst {
  i_op : Opcode.t;
  i_result : Z;
  i_loc : SourceLoc;
  i_operand_count : Z;
  i_operands : list Z;
  i_extra_operands : option (list Z);
  i_imm : Immediate
}.

(** Operand [i], inline or in the overflow array. *)
Definition operand (inst : Instruction) (i : nat) : option Z :=
  if Nat.ltb i kMaxInlineOperands then i_operands inst !! i
  else
    match i_extra_operands inst with
    | Some extra => extra !! (i - kMaxInlineOperands)%nat
    | None => None
    end.

Definition is_yield (op : Opcode.t) : bool :=
  match op with
  | Opcode.YieldHttpGet | Opcode.YieldHttpPost | Opcode.YieldForward | Opcode.YieldTimer => true
  | _ => false
  end.

Definition is_terminator (op : Opcode.t) : bool :=
  match op with
  | Opcode.Br | Opcode.Jmp | Opcode.RetStatus | Opcode.RetForward => true
  | _ => is_yield op
  end.

(** ** Arena arrays *)

Record Vec (A : Type) := mkVec { v_at : Z; v_slots : list A; v_count : nat }.
Arguments mkVec {A}.
Arguments v_at {A}.
Arguments v_slots {A}.
Arguments v_count {A}.

Definition v_cap {A} (v : Vec A) : Z := Z.of_nat (length (v_slots v)).
Definition vec_items {A} (v : Vec A) : list A := take (v_count v) (v_slots v).

(** [array[count++] = x]; [None]: a write past the array. *)
Definition vec_push {A} (v : Vec A) (x : A) : option (Vec A) :=
  if Nat.ltb (v_count v) (length (v_slots v))
  then Some (mkVec (v_at v) (<[v_count v := x]> (v_slots v)) (S (v_count v)))
  else None.

(** Copy into a new array of twice the capacity. *)
Definition vec_regrow {A} (dflt : A) (at_ : Z) (v : Vec A) : Vec A :=
  mkVec at_ (vec_items v ++ replicate (2 * length (v_slots v) - v_count v) dflt) (v_count v).

Record BasicBlock := mkBB {
  bb_id : Z;
  bb_label : list Z;
  bb_insts : Vec Instruction
}.

(** The terminator, if the block has one. *)
Definition terminator (b : BasicBlock) : option Instruction :=
  match last (vec_items (bb_insts b)) with
  | Some i => if is_terminator (i_op i) then Some i else None
  | None => None
  end.

Definition kMaxResumeBlocks : nat := 8.

Record Function := mkFn {
  fn_name : list Z;
  fn_route_pattern : list Z;
  fn_http_method : Z;
  fn_blocks : Vec BasicBlock;
  fn_values : Vec Value;
  fn_yield_count : Z;
  fn_state_zero_enters_entry : bool;
  fn_resume_terminal_block : Z;
  fn_has_explicit_resume_blocks : bool;
  fn_resume_blocks : list Z;
  fn_yield_payload : option (list Z);
  fn_yield_kinds : option (list Z)
}.

Definition entry (fn : Function) : option BasicBlock := vec_items (fn_blocks fn) !! 0%nat.

Definition kMaxResponseBodies : nat := 128.
Definition kMaxHeaderSets : nat := 128.
Definition kMaxHeaderPoolEntries : nat := 512.
Definition kMaxUpstreams : nat := 32.

Record HeaderSetRef := mkSetRef { hs_offset : Z; hs_count : Z }.

Record Upstream := mkUpstream {
  up_name : list Z;
  up_has_address : bool;
  up_ip : Z;
  up_port : Z
}.

(** [struct_defs] is [None] when the table was not allocated.  The response
    bodies, header sets and upstreams are filled in order, so a list is the
    used part of the array; the header pool keeps all its slots. *)
Record Module_ (A : Type) := mkModule {
  m_name : list Z;
  m_struct_defs : option (list StructDef);
  m_struct_cap : nat;
  m_functions : list Function;
  m_func_cap : nat;
  m_response_bodies : list (list Z);
  m_header_keys : list (list Z);
  m_header_values : list (list Z);
  m_header_pool_used : nat;
  m_header_sets : list HeaderSetRef;
  m_upstreams : list Upstream;
  m_arena : A
}.
Arguments mkModule {A}.
Arguments m_name {A}.
Arguments m_struct_defs {A}.
Arguments m_struct_cap {A}.
Arguments m_functions {A}.
Arguments m_func_cap {A}.
Arguments m_response_bodies {A}.
Arguments m_header_keys {A}.
Arguments m_header_values {A}.
Arguments m_header_pool_used {A}.
Arguments m_header_sets {A}.
Arguments m_upstreams {A}.
Arguments m_arena {A}.

(** The struct definitions; none without a table. *)
Definition m_structs {A} (m : Module_ A) : list StructDef := default [] (m_struct_defs m).
