(* ===== verification/RirBuilder.v ===== *)
(** * The IR builder

    Model of include/rut/compiler/rir_builder.h.  The builder's state is the
    module under construction, the insert point and the cache of primitive
    types.  An operation is a state transformer that ends with a value or a
    [RirError] and keeps what it changed in either case; [None] is a fault: an
    access outside an array, or through a pointer to a block array that has
    been replaced.

    A [Function*] is a position in the module's function table, which never
    moves.  The insert point caches a [Block*], an array address and a
    position; it is good as long as the array is the function's current one.

    The arena is an interface with the two calls the builder makes of it. *)

From S2P Require Import Prelude Arena HandlerAbi Rir.

Class Bump (A : Type) := {
  bump_alloc : A -> Z -> option Z * A;
  bump_array : A -> Z -> Z -> option Z * A
}.

#[export] Instance arena_bump {S} `{Backend S} : Bump (Arena S) :=
  {| bump_alloc := alloc; bump_array := alloc_array |}.

(** Sizes of the arena objects. *)
Definition sizeof_StructDef : Z := 24.
Definition sizeof_FieldDef : Z := 24.
Definition sizeof_Type : Z := 24.
Definition sizeof_Value : Z := 16.
Definition sizeof_Instruction : Z := 64.
Definition sizeof_Block : Z := 40.
Definition sizeof_ValueId : Z := 4.

(** Value-initialized array elements. *)
Definition value0 : Value := mkValue None 0 0.
Definition inst0 : Instruction := mkInst Opcode.ConstStr 0 (mkLoc 0 0) 0 [0; 0; 0] None ImmZero.
Definition vec0 {A} : Vec A := mkVec 0 [] 0.
Definition block0 : BasicBlock := mkBB 0 [] vec0.

(** A null pointer. *)
Definition null {R} (x : option R) : bool := match x with None => true | Some _ => false end.

Section monad.
Context {A : Type}.

Record Builder := mkBuilder {
  b_mod : Module_ A;
  b_cur_func : option nat;
  b_cur_block_id : Z;
  b_cur_block : option (Z * nat);
  b_type_cache : list (option Ty)
}.

Definition kTypeKindCount : nat := 20.

Definition init (m : Module_ A) : Builder :=
  mkBuilder m None kNoBlock None (replicate kTypeKindCount None).

(** ** Operations as state transformers *)

Definition M (R : Type) : Type := Builder -> option (Builder * (R + RirError)).

Definition ret {R} (x : R) : M R := fun b => Some (b, inl x).
Definition err {R} (e : RirError) : M R := fun b => Some (b, inr e).
Definition fault {R} : M R := fun _ => None.

(** [TRY]: an error ends the operation. *)
Definition bind {R T} (m : M R) (k : R -> M T) : M T := fun b =>
  match m b with
  | None => None
  | Some (b', inl x) => k x b'
  | Some (b', inr e) => Some (b', inr e)
  end.

Definition get : M Builder := fun b => Some (b, inl b).
Definition put (b : Builder) : M unit := fun _ => Some (b, inl tt).
Definition guard (c : bool) (e : RirError) : M unit := if c then ret tt else err e.
Definition some_or {R} (x : option R) (e : RirError) : M R :=
  match x with Some y => ret y | None => err e end.
(** A pointer the code follows without a test. *)
Definition deref {R} (x : option R) : M R :=
  match x with Some y => ret y | None => fault end.

End monad.
Arguments Builder : clear implicits.
Arguments M : clear implicits.

Declare Scope rir_scope.
Delimit Scope rir_scope with rir.
Notation "x <- m ;; k" := (bind m (fun x => k))
  (at level 100, m at next level, right associativity) : rir_scope.
Notation "' p <- m ;; k" := (bind m (fun p => k))
  (at level 100, p pattern, m at next level, right associativity) : rir_scope.
Notation "m ;;; k" := (bind m (fun _ => k)) (at level 100, right associativity) : rir_scope.
Open Scope rir_scope.

Section builder.
Context {A : Type} `{Bump A}.

(** ** Updates *)

Definition set_mod (b : Builder A) (m : Module_ A) : Builder A :=
  mkBuilder m (b_cur_func b) (b_cur_block_id b) (b_cur_block b) (b_type_cache b).
Definition set_cache (b : Builder A) (c : list (option Ty)) : Builder A :=
  mkBuilder (b_mod b) (b_cur_func b) (b_cur_block_id b) (b_cur_block b) c.
Definition set_point (b : Builder A) (f : option nat) (id : Z) (blk : option (Z * nat)) : Builder A :=
  mkBuilder (b_mod b) f id blk (b_type_cache b).

Definition set_arena (m : Module_ A) (a : A) : Module_ A :=
  mkModule (m_name m) (m_struct_defs m) (m_struct_cap m) (m_functions m) (m_func_cap m)
    (m_response_bodies m) (m_header_keys m) (m_header_values m) (m_header_pool_used m)
    (m_header_sets m) (m_upstreams m) a.
Definition set_structs (m : Module_ A) (l : list StructDef) : Module_ A :=
  mkModule (m_name m) (Some l) (m_struct_cap m) (m_functions m) (m_func_cap m)
    (m_response_bodies m) (m_header_keys m) (m_header_values m) (m_header_pool_used m)
    (m_header_sets m) (m_upstreams m) (m_arena m).
Definition set_functions (m : Module_ A) (l : list Function) : Module_ A :=
  mkModule (m_name m) (m_struct_defs m) (m_struct_cap m) l (m_func_cap m)
    (m_response_bodies m) (m_header_keys m) (m_header_values m) (m_header_pool_used m)
    (m_header_sets m) (m_upstreams m) (m_arena m).
Definition set_bodies (m : Module_ A) (l : list (list Z)) : Module_ A :=
  mkModule (m_name m) (m_struct_defs m) (m_struct_cap m) (m_functions m) (m_func_cap m)
    l (m_header_keys m) (m_header_values m) (m_header_pool_used m)
    (m_header_sets m) (m_upstreams m) (m_arena m).
Definition set_headers (m : Module_ A) (ks vs : list (list Z)) (used : nat) (sets : list HeaderSetRef)
    : Module_ A :=
  mkModule (m_name m) (m_struct_defs m) (m_struct_cap m) (m_functions m) (m_func_cap m)
    (m_response_bodies m) ks vs used sets (m_upstreams m) (m_arena m).

Definition set_blocks (fn : Function) (v : Vec BasicBlock) : Function :=
  mkFn (fn_name fn) (fn_route_pattern fn) (fn_http_method fn) v (fn_values fn) (fn_yield_count fn)
    (fn_state_zero_enters_entry fn) (fn_resume_terminal_block fn) (fn_has_explicit_resume_blocks fn)
    (fn_resume_blocks fn) (fn_yield_payload fn) (fn_yield_kinds fn).
Definition set_values (fn : Function) (v : Vec Value) : Function :=
  mkFn (fn_name fn) (fn_route_pattern fn) (fn_http_method fn) (fn_blocks fn) v (fn_yield_count fn)
    (fn_state_zero_enters_entry fn) (fn_resume_terminal_block fn) (fn_has_explicit_resume_blocks fn)
    (fn_resume_blocks fn) (fn_yield_payload fn) (fn_yield_kinds fn).
Definition set_yields (fn : Function) (count : Z) (payload kinds : option (list Z)) : Function :=
  mkFn (fn_name fn) (fn_route_pattern fn) (fn_http_method fn) (fn_blocks fn) (fn_values fn) count
    (fn_state_zero_enters_entry fn) (fn_resume_terminal_block fn) (fn_has_explicit_resume_blocks fn)
    (fn_resume_blocks fn) payload kinds.
Definition set_resume (fn : Function) (zero : bool) (terminal : Z) (explicit : bool) (blocks : list Z)
    : Function :=
  mkFn (fn_name fn) (fn_route_pattern fn) (fn_http_method fn) (fn_blocks fn) (fn_values fn)
    (fn_yield_count fn) zero terminal explicit blocks (fn_yield_payload fn) (fn_yield_kinds fn).

(** ** The arena *)

Definition lift_alloc (call : A -> option Z * A) : M A (option Z) :=
  b <- get ;;
  let '(p, a) := call (m_arena (b_mod b)) in
  put (set_mod b (set_arena (b_mod b) a)) ;;; ret p.

Definition arena_alloc (size : Z) : M A (option Z) := lift_alloc (fun a => bump_alloc a size).
Definition arena_array (size count : Z) : M A (option Z) := lift_alloc (fun a => bump_array a size count).

(** ** Functions and blocks behind their pointers *)

Definition get_fn (f : nat) : M A Function := b <- get ;; deref (m_functions (b_mod b) !! f).

Definition put_fn (f : nat) (fn : Function) : M A unit :=
  b <- get ;; put (set_mod b (set_functions (b_mod b) (<[f := fn]> (m_functions (b_mod b))))).

(** The function and block of the insert point, through the cached pointer. *)
Definition get_cur : M A (nat * Function * nat * BasicBlock) :=
  b <- get ;;
  f <- deref (b_cur_func b) ;;
  fn <- get_fn f ;;
  '(at_, i) <- deref (b_cur_block b) ;;
  blk <- deref (if at_ =? v_at (fn_blocks fn) then v_slots (fn_blocks fn) !! i else None) ;;
  ret (f, fn, i, blk).

Definition put_insts (insts : Vec Instruction) : M A unit :=
  '(f, fn, i, blk) <- get_cur ;;
  let v := fn_blocks fn in
  put_fn f (set_blocks fn
    (mkVec (v_at v) (<[i := mkBB (bb_id blk) (bb_label blk) insts]> (v_slots v)) (v_count v))).

(** ** Module level *)

Definition create_struct (name : list Z) (fields : list FieldDef) : M A nat :=
  b <- get ;;
  match m_struct_defs (b_mod b) with
  | None => err CapacityFull
  | Some l =>
      if Nat.leb (m_struct_cap (b_mod b)) (length l) then err CapacityFull
      else
        sd <- arena_alloc (u64 (sizeof_StructDef + sizeof_FieldDef * Z.of_nat (length fields))) ;;
        some_or sd OutOfMemory ;;;
        b <- get ;;
        put (set_mod b (set_structs (b_mod b) (l ++ [mkStruct name fields]))) ;;;
        ret (length l)
  end.

Definition make_type (kind : TypeKind.t) (inner : option Ty) (sd : option nat) : M A Ty :=
  guard (negb (bool_decide (kind = TypeKind.Optional \/ kind = TypeKind.Array) &&
    null inner)) InvalidState ;;;
  guard (negb (bool_decide (kind = TypeKind.Struct) && null sd)) InvalidState ;;;
  b <- get ;;
  let idx := TypeKind.code kind in
  let primitive := null inner && null sd &&
                   Nat.ltb idx kTypeKindCount in
  match (if primitive then mjoin (b_type_cache b !! idx) else None) with
  | Some t => ret t
  | None =>
      t <- arena_alloc sizeof_Type ;;
      some_or t OutOfMemory ;;;
      let t := MkTy kind inner sd in
      b <- get ;;
      put (if primitive then set_cache b (<[idx := Some t]> (b_type_cache b)) else b) ;;;
      ret t
  end.

(** A primitive type: no inner type, no struct. *)
Definition prim (kind : TypeKind.t) : M A Ty := make_type kind None None.

(** ** Functions and blocks *)

Definition kInitBlocks : nat := 32.
Definition kInitValues : nat := 256.
Definition kInitInsts : nat := 32.

Definition create_function (name route_pattern : list Z) (http_method : Z) : M A nat :=
  b <- get ;;
  guard (Nat.ltb (length (m_functions (b_mod b))) (m_func_cap (b_mod b))) CapacityFull ;;;
  blocks <- arena_array sizeof_Block (Z.of_nat kInitBlocks) ;;
  values <- arena_array sizeof_Value (Z.of_nat kInitValues) ;;
  blocks <- some_or blocks OutOfMemory ;;
  values <- some_or values OutOfMemory ;;
  b <- get ;;
  let fn := mkFn name route_pattern http_method (mkVec blocks (replicate kInitBlocks block0) 0)
    (mkVec values (replicate kInitValues value0) 0) 0 false 0 false
    (replicate kMaxResumeBlocks 0) None None in
  put (set_mod b (set_functions (b_mod b) (m_functions (b_mod b) ++ [fn]))) ;;;
  ret (length (m_functions (b_mod b))).

(** [YieldKind::Timer] as an ABI byte. *)
Definition kDefaultYieldKind : Z := yield_code YTimer.

Definition set_yield_payload (f : nat) (ms_list : list Z) (kind_list : option (list Z)) : M A unit :=
  fn <- get_fn f ;;
  if Nat.eqb (length ms_list) 0 then put_fn f (set_yields fn 0 None None)
  else
    buf <- arena_array 4 (Z.of_nat (length ms_list)) ;;
    kinds <- arena_array 1 (Z.of_nat (length ms_list)) ;;
    some_or buf OutOfMemory ;;; some_or kinds OutOfMemory ;;;
    let kinds := imap (fun i _ => match kind_list with
                                  | Some ks => nth i ks 0
                                  | None => kDefaultYieldKind end) ms_list in
    put_fn f (set_yields fn (Z.of_nat (length ms_list)) (Some ms_list) (Some kinds)).

Definition block_count (fn : Function) : Z := Z.of_nat (v_count (fn_blocks fn)).
Definition value_count (fn : Function) : Z := Z.of_nat (v_count (fn_values fn)).

Definition set_state_zero_entry_resume (f : option nat) (terminal_block : Z) : M A unit :=
  f <- some_or f InvalidState ;;
  fn <- get_fn f ;;
  guard (terminal_block <? block_count fn) InvalidState ;;;
  put_fn f (set_resume fn true terminal_block (fn_has_explicit_resume_blocks fn)
              (fn_resume_blocks fn)).

(** The copying loop of [set_explicit_resume_blocks] stops at the first bad
    block, after the ones before it were stored. *)
Fixpoint store_resume_blocks (count : Z) (i : nat) (blocks : list Z) (dst : list Z) : list Z * bool :=
  match blocks with
  | [] => (dst, true)
  | blk :: blocks' =>
      if count <=? blk then (dst, false)
      else store_resume_blocks count (S i) blocks' (<[i := blk]> dst)
  end.

Definition set_explicit_resume_blocks (f : option nat) (blocks : list Z) : M A unit :=
  f <- some_or f InvalidState ;;
  guard (Nat.leb (length blocks) kMaxResumeBlocks) InvalidState ;;;
  fn <- get_fn f ;;
  let '(dst, ok) := store_resume_blocks (block_count fn) 0 blocks (fn_resume_blocks fn) in
  if ok then
    let dst := take (length blocks) dst ++ replicate (kMaxResumeBlocks - length blocks) 0 in
    put_fn f (set_resume fn true (default 0 (last blocks)) true dst)
  else
    put_fn f (set_resume fn (fn_state_zero_enters_entry fn) (fn_resume_terminal_block fn)
                (fn_has_explicit_resume_blocks fn) dst) ;;; err InvalidState.

Definition kMaxCap : Z := 0x3FFFFFFF.

(** A replaced block array moves the insert point that pointed into it. *)
Definition grow_blocks (f : nat) : M A unit :=
  fn <- get_fn f ;;
  guard (v_cap (fn_blocks fn) <=? kMaxCap) CapacityFull ;;;
  p <- arena_array sizeof_Block (u32 (v_cap (fn_blocks fn) * 2)) ;;
  p <- some_or p OutOfMemory ;;
  put_fn f (set_blocks fn (vec_regrow block0 p (fn_blocks fn))) ;;;
  b <- get ;;
  if bool_decide (b_cur_func b = Some f) && (b_cur_block_id b <? block_count fn)
  then put (set_point b (b_cur_func b) (b_cur_block_id b) (Some (p, Z.to_nat (b_cur_block_id b))))
  else ret tt.

Definition create_block (f : nat) (label : list Z) : M A Z :=
  fn <- get_fn f ;;
  (if v_cap (fn_blocks fn) <=? block_count fn then grow_blocks f else ret tt) ;;;
  insts <- arena_array sizeof_Instruction (Z.of_nat kInitInsts) ;;
  insts <- some_or insts OutOfMemory ;;
  fn <- get_fn f ;;
  let bid := block_count fn in
  blocks <- deref (vec_push (fn_blocks fn)
              (mkBB bid label (mkVec insts (replicate kInitInsts inst0) 0))) ;;
  put_fn f (set_blocks fn blocks) ;;; ret bid.

Definition set_insert_point (f : option nat) (block : Z) : M A unit :=
  b <- get ;;
  match f with
  | None => put (set_point b None kNoBlock None)
  | Some i =>
      fn <- get_fn i ;;
      if block_count fn <=? block then put (set_point b None kNoBlock None)
      else put (set_point b (Some i) block (Some (v_at (fn_blocks fn), Z.to_nat block)))
  end.

Definition grow_values (f : nat) : M A unit :=
  fn <- get_fn f ;;
  guard (v_cap (fn_values fn) <=? kMaxCap) CapacityFull ;;;
  p <- arena_array sizeof_Value (u32 (v_cap (fn_values fn) * 2)) ;;
  p <- some_or p OutOfMemory ;;
  put_fn f (set_values fn (vec_regrow value0 p (fn_values fn))).

(** [grow_insts(cur_block)]. *)
Definition grow_insts : M A unit :=
  '(_, _, _, blk) <- get_cur ;;
  guard (v_cap (bb_insts blk) <=? kMaxCap) CapacityFull ;;;
  p <- arena_array sizeof_Instruction (u32 (v_cap (bb_insts blk) * 2)) ;;
  p <- some_or p OutOfMemory ;;
  put_insts (vec_regrow inst0 p (bb_insts blk)).

(** ** Values *)

Definition cur_fn (b : Builder A) : option Function :=
  match b_cur_func b with Some f => m_functions (b_mod b) !! f | None => None end.

Definition valid_val (b : Builder A) (v : Z) : bool :=
  negb (v =? kNoValue) &&
  match cur_fn b with Some fn => v <? value_count fn | None => false end.

(** [cur_func->values[v.id].type]. *)
Definition type_of (b : Builder A) (v : Z) : option Ty :=
  match cur_fn b with
  | Some fn => mbind v_type (v_slots (fn_values fn) !! Z.to_nat v)
  | None => None
  end.

Fixpoint ty_equal (a b : Ty) : bool :=
  let 'MkTy ka ia sa := a in
  let 'MkTy kb ib sb := b in
  if negb (bool_decide (ka = kb)) then false
  else if bool_decide (ka = TypeKind.Optional \/ ka = TypeKind.Array) then
    match ia, ib with
    | Some x, Some y => ty_equal x y
    | None, None => true
    | _, _ => false
    end
  else if bool_decide (ka = TypeKind.Struct) then bool_decide (sa = sb)
  else true.

(** Two null types are the same pointer. *)
Definition types_equal (a b : option Ty) : bool :=
  match a, b with
  | Some x, Some y => ty_equal x y
  | None, None => true
  | _, _ => false
  end.

Definition has_kind (t : option Ty) (kind : TypeKind.t) : bool :=
  match t with Some t => bool_decide (ty_kind t = kind) | None => false end.

Definition val_has_type (b : Builder A) (v : Z) (kind : TypeKind.t) : bool :=
  valid_val b v && has_kind (type_of b v) kind.

(** ** Emission *)

(** [emit]: the position of the instruction and the value it defines. *)
Definition emit (op : Opcode.t) (result_type : option Ty) (loc : SourceLoc) : M A (nat * Z) :=
  b <- get ;;
  guard (negb (null (b_cur_block b) || null (b_cur_func b))) InvalidState ;;;
  '(_, _, _, blk) <- get_cur ;;
  guard (match last (vec_items (bb_insts blk)) with
         | Some i => negb (is_terminator (i_op i))
         | None => true
         end) InvalidState ;;;
  (if v_cap (bb_insts blk) <=? Z.of_nat (v_count (bb_insts blk)) then grow_insts else ret tt) ;;;
  vid <- (match result_type with
          | None => ret kNoValue
          | Some t =>
              '(f, fn, _, blk) <- get_cur ;;
              (if v_cap (fn_values fn) <=? value_count fn then grow_values f else ret tt) ;;;
              fn <- get_fn f ;;
              b <- get ;;
              vals <- deref (vec_push (fn_values fn)
                        (mkValue (Some t) (b_cur_block_id b) (Z.of_nat (v_count (bb_insts blk))))) ;;
              put_fn f (set_values fn vals) ;;;
              ret (value_count fn)
          end) ;;
  '(_, _, _, blk) <- get_cur ;;
  let k := v_count (bb_insts blk) in
  old <- deref (v_slots (bb_insts blk) !! k) ;;
  insts <- deref (vec_push (bb_insts blk) (mkInst op vid loc 0 (i_operands old) None ImmZero)) ;;
  put_insts insts ;;;
  ret (k, vid).

Definition rollback_emit (vid : Z) : M A unit :=
  '(_, _, _, blk) <- get_cur ;;
  let v := bb_insts blk in
  put_insts (mkVec (v_at v) (v_slots v) (Nat.pred (v_count v))) ;;;
  if vid =? kNoValue then ret tt
  else
    '(f, fn, _, _) <- get_cur ;;
    let v := fn_values fn in
    put_fn f (set_values fn (mkVec (v_at v) (v_slots v) (Nat.pred (v_count v)))).

(** Writes through the [inst] pointer of [emit]. *)
Definition set_inst (k : nat) (fill : Instruction -> Instruction) : M A unit :=
  '(_, _, _, blk) <- get_cur ;;
  let v := bb_insts blk in
  old <- deref (v_slots v !! k) ;;
  put_insts (mkVec (v_at v) (<[k := fill old]> (v_slots v)) (v_count v)).

(** [operands[i] = ops[i]] for each [i], then [operand_count]. *)
Definition with_operands (ops : list Z) (i : Instruction) : Instruction :=
  mkInst (i_op i) (i_result i) (i_loc i) (Z.of_nat (length ops))
    (ops ++ drop (length ops) (i_operands i)) (i_extra_operands i) (i_imm i).
Definition with_imm (imm : Immediate) (i : Instruction) : Instruction :=
  mkInst (i_op i) (i_result i) (i_loc i) (i_operand_count i) (i_operands i) (i_extra_operands i) imm.
Definition with_extra (count : Z) (inline extra : list Z) (i : Instruction) : Instruction :=
  mkInst (i_op i) (i_result i) (i_loc i) count inline (Some extra) (i_imm i).

(** [emit], then the writes that fill the instruction in. *)
Definition emit_with (op : Opcode.t) (result_type : option Ty) (loc : SourceLoc)
    (fill : Instruction -> Instruction) : M A Z :=
  '(k, vid) <- emit op result_type loc ;;
  set_inst k fill ;;; ret vid.

(** [ops] is null when [None]. *)
Definition set_operands (k : nat) (ops : option (list Z)) (count : nat) : M A unit :=
  guard (negb (Nat.ltb 0 count && null ops)) InvalidState ;;;
  let ops := default [] ops in
  b <- get ;;
  guard (forallb (valid_val b) ops) InvalidState ;;;
  if Nat.leb count kMaxInlineOperands then set_inst k (with_operands ops)
  else
    extra_ops <- arena_array sizeof_ValueId (Z.of_nat (count - kMaxInlineOperands)) ;;
    some_or extra_ops OutOfMemory ;;;
    set_inst k (with_extra (Z.of_nat count) (take kMaxInlineOperands ops) (drop kMaxInlineOperands ops)).

End builder.
