(* ===== verification/RirEmit.v ===== *)
(** * Emission of instructions

    The public emission operations of include/rut/compiler/rir_builder.h: one
    definition per method, with its guards in the order of the code, and the
    interning of response bodies and header sets. *)

From S2P Require Import Prelude HandlerAbi Rir RirBuilder.
Open Scope rir_scope.

Section emission.
Context {A : Type} `{Bump A}.

Implicit Types (loc : SourceLoc).

(** ** Constants *)

Definition emit_const_str (val : list Z) loc : M A Z :=
  ty <- prim TypeKind.Str ;; emit_with Opcode.ConstStr (Some ty) loc (with_imm (ImmStr val)).
Definition emit_const_i32 (val : Z) loc : M A Z :=
  ty <- prim TypeKind.I32 ;; emit_with Opcode.ConstI32 (Some ty) loc (with_imm (ImmI32 val)).
Definition emit_const_i64 (val : Z) loc : M A Z :=
  ty <- prim TypeKind.I64 ;; emit_with Opcode.ConstI64 (Some ty) loc (with_imm (ImmI64 val)).
Definition emit_const_bool (val : bool) loc : M A Z :=
  ty <- prim TypeKind.Bool ;; emit_with Opcode.ConstBool (Some ty) loc (with_imm (ImmBool val)).
Definition emit_const_duration (seconds : Z) loc : M A Z :=
  ty <- prim TypeKind.Duration ;; emit_with Opcode.ConstDuration (Some ty) loc (with_imm (ImmI64 seconds)).
Definition emit_const_bytesize (bytes : Z) loc : M A Z :=
  ty <- prim TypeKind.ByteSize ;; emit_with Opcode.ConstByteSize (Some ty) loc (with_imm (ImmI64 bytes)).
Definition emit_const_method (method : Z) loc : M A Z :=
  ty <- prim TypeKind.Method ;; emit_with Opcode.ConstMethod (Some ty) loc (with_imm (ImmMethod method)).
Definition emit_const_status (code : Z) loc : M A Z :=
  ty <- prim TypeKind.StatusCode ;; emit_with Opcode.ConstStatus (Some ty) loc (with_imm (ImmI32 code)).

(** ** Request access *)

(** Methods that only emit, with a primitive result. *)
Definition emit_plain (op : Opcode.t) (kind : TypeKind.t) loc : M A Z :=
  ty <- prim kind ;; '(_, vid) <- emit op (Some ty) loc ;; ret vid.

Definition optional_str : M A Ty :=
  inner <- prim TypeKind.Str ;; make_type TypeKind.Optional (Some inner) None.

Definition emit_req_header (name : list Z) loc : M A Z :=
  ty <- optional_str ;; emit_with Opcode.ReqHeader (Some ty) loc (with_imm (ImmStr name)).
Definition emit_req_param (name : list Z) loc : M A Z :=
  ty <- prim TypeKind.Str ;; emit_with Opcode.ReqParam (Some ty) loc (with_imm (ImmStr name)).
Definition emit_req_method loc : M A Z := emit_plain Opcode.ReqMethod TypeKind.Method loc.
Definition emit_req_path loc : M A Z := emit_plain Opcode.ReqPath TypeKind.Str loc.
Definition emit_req_path_only loc : M A Z := emit_plain Opcode.ReqPathOnly TypeKind.Str loc.
Definition emit_req_body loc : M A Z := emit_plain Opcode.ReqBody TypeKind.Str loc.
Definition emit_req_keep_alive loc : M A Z := emit_plain Opcode.ReqKeepAlive TypeKind.Bool loc.
Definition emit_req_chunked loc : M A Z := emit_plain Opcode.ReqChunked TypeKind.Bool loc.
Definition emit_req_has_content_length loc : M A Z :=
  emit_plain Opcode.ReqHasContentLength TypeKind.Bool loc.
Definition emit_req_http10 loc : M A Z := emit_plain Opcode.ReqHttp10 TypeKind.Bool loc.
Definition emit_req_http11 loc : M A Z := emit_plain Opcode.ReqHttp11 TypeKind.Bool loc.
Definition emit_req_http_version loc : M A Z := emit_plain Opcode.ReqHttpVersion TypeKind.Str loc.
Definition emit_resume_event_kind loc : M A Z := emit_plain Opcode.ResumeEventKind TypeKind.I32 loc.
Definition emit_resume_event_result loc : M A Z := emit_plain Opcode.ResumeEventResult TypeKind.I32 loc.

(** [static_cast<i32>(u32)]. *)
Definition i32_of_u32 (x : Z) : Z := if x <? 2 ^ 31 then x else x - 2 ^ 32.

Definition emit_ctx_load_slot_i32 (slot : Z) loc : M A Z :=
  ty <- prim TypeKind.I32 ;;
  emit_with Opcode.CtxLoadSlotI32 (Some ty) loc (with_imm (ImmI32 (i32_of_u32 slot))).
Definition emit_req_remote_addr loc : M A Z := emit_plain Opcode.ReqRemoteAddr TypeKind.IP loc.
Definition emit_req_content_length loc : M A Z := emit_plain Opcode.ReqContentLength TypeKind.ByteSize loc.
Definition emit_req_cookie (name : list Z) loc : M A Z :=
  ty <- optional_str ;; emit_with Opcode.ReqCookie (Some ty) loc (with_imm (ImmStr name)).
Definition emit_req_query (name : list Z) loc : M A Z :=
  ty <- optional_str ;; emit_with Opcode.ReqQuery (Some ty) loc (with_imm (ImmStr name)).
Definition emit_req_query_string loc : M A Z :=
  ty <- optional_str ;; '(_, vid) <- emit Opcode.ReqQueryString (Some ty) loc ;; ret vid.

(** ** Request mutation *)

Definition emit_req_set_header (name : list Z) (val : Z) loc : M A unit :=
  b <- get ;; guard (val_has_type b val TypeKind.Str) InvalidState ;;;
  emit_with Opcode.ReqSetHeader None loc (fun i => with_operands [val] (with_imm (ImmStr name) i)) ;;;
  ret tt.
Definition emit_req_set_path (path : Z) loc : M A unit :=
  b <- get ;; guard (val_has_type b path TypeKind.Str) InvalidState ;;;
  emit_with Opcode.ReqSetPath None loc (with_operands [path]) ;;; ret tt.
Definition emit_ctx_store_slot_i32 (slot value : Z) loc : M A unit :=
  b <- get ;; guard (val_has_type b value TypeKind.I32) InvalidState ;;;
  emit_with Opcode.CtxStoreSlotI32 None loc
    (fun i => with_operands [value] (with_imm (ImmI32 (i32_of_u32 slot)) i)) ;;; ret tt.

(** ** String operations *)

Definition emit_str_has_prefix (str prefix : Z) loc : M A Z :=
  b <- get ;;
  guard (val_has_type b str TypeKind.Str && val_has_type b prefix TypeKind.Str) InvalidState ;;;
  ty <- prim TypeKind.Bool ;;
  emit_with Opcode.StrHasPrefix (Some ty) loc (with_operands [str; prefix]).
Definition emit_str_trim_prefix (str prefix : Z) loc : M A Z :=
  b <- get ;;
  guard (val_has_type b str TypeKind.Str && val_has_type b prefix TypeKind.Str) InvalidState ;;;
  ty <- prim TypeKind.Str ;;
  emit_with Opcode.StrTrimPrefix (Some ty) loc (with_operands [str; prefix]).
Definition emit_str_regex_match (str : Z) (pattern : list Z) loc : M A Z :=
  b <- get ;; guard (val_has_type b str TypeKind.Str) InvalidState ;;;
  ty <- prim TypeKind.Bool ;;
  emit_with Opcode.StrRegexMatch (Some ty) loc
    (fun i => with_imm (ImmStr pattern) (with_operands [str] i)).

(** A failure after [emit] is rolled back.  [parts] is null when [None]. *)
Definition emit_str_interpolate (parts : option (list Z)) (count : nat) loc : M A Z :=
  ty <- prim TypeKind.Str ;;
  '(k, vid) <- emit Opcode.StrInterpolate (Some ty) loc ;;
  fun b =>
    match set_operands k parts count b with
    | Some (b', inr e) => (rollback_emit vid ;;; err e) b'
    | Some (b', inl _) => Some (b', inl vid)
    | None => None
    end.

(** ** Comparisons *)

Definition is_cmp_opcode (op : Opcode.t) : bool :=
  match op with
  | Opcode.CmpEq | Opcode.CmpNe | Opcode.CmpLt | Opcode.CmpGt | Opcode.CmpLe | Opcode.CmpGe => true
  | _ => false
  end.

Definition orderable (k : TypeKind.t) : bool :=
  match k with
  | TypeKind.I32 | TypeKind.I64 | TypeKind.U32 | TypeKind.U64 | TypeKind.F64 | TypeKind.ByteSize
  | TypeKind.Duration | TypeKind.Time | TypeKind.StatusCode | TypeKind.Str => true
  | _ => false
  end.

(** What an ordered comparison asks of the left operand's type. *)
Definition cmp_type_ok (op : Opcode.t) (t : option Ty) : bool :=
  if negb (bool_decide (op = Opcode.CmpEq)) && negb (bool_decide (op = Opcode.CmpNe)) then
    match t with Some t => orderable (ty_kind t) | None => false end
  else true.

Definition emit_cmp (cmp_op : Opcode.t) (lhs rhs : Z) loc : M A Z :=
  b <- get ;;
  guard (is_cmp_opcode cmp_op && valid_val b lhs && valid_val b rhs) InvalidState ;;;
  guard (types_equal (type_of b lhs) (type_of b rhs)) InvalidState ;;;
  guard (cmp_type_ok cmp_op (type_of b lhs)) InvalidState ;;;
  ty <- prim TypeKind.Bool ;;
  emit_with cmp_op (Some ty) loc (with_operands [lhs; rhs]).

(** ** Domain operations *)

Definition emit_time_now loc : M A Z := emit_plain Opcode.TimeNow TypeKind.Time loc.
Definition emit_time_diff (a c : Z) loc : M A Z :=
  b <- get ;;
  guard (val_has_type b a TypeKind.Time && val_has_type b c TypeKind.Time) InvalidState ;;;
  ty <- prim TypeKind.Duration ;;
  emit_with Opcode.TimeDiff (Some ty) loc (with_operands [a; c]).
Definition emit_ip_in_cidr (ip : Z) (cidr_lit : list Z) loc : M A Z :=
  b <- get ;; guard (val_has_type b ip TypeKind.IP) InvalidState ;;;
  ty <- prim TypeKind.Bool ;;
  emit_with Opcode.IpInCidr (Some ty) loc
    (fun i => with_imm (ImmStr cidr_lit) (with_operands [ip] i)).

(** ** Optional operations *)

Definition emit_opt_nil (inner_type : option Ty) loc : M A Z :=
  guard (negb (null inner_type)) InvalidState ;;;
  ty <- make_type TypeKind.Optional inner_type None ;;
  '(_, vid) <- emit Opcode.OptNil (Some ty) loc ;; ret vid.
Definition emit_opt_wrap (val : Z) loc : M A Z :=
  b <- get ;; guard (valid_val b val) InvalidState ;;;
  guard (negb (null (type_of b val))) InvalidState ;;;
  ty <- make_type TypeKind.Optional (type_of b val) None ;;
  emit_with Opcode.OptWrap (Some ty) loc (with_operands [val]).
Definition emit_opt_is_nil (opt : Z) loc : M A Z :=
  b <- get ;; guard (val_has_type b opt TypeKind.Optional) InvalidState ;;;
  ty <- prim TypeKind.Bool ;;
  emit_with Opcode.OptIsNil (Some ty) loc (with_operands [opt]).
Definition emit_select (cond then_val else_val : Z) loc : M A Z :=
  b <- get ;; guard (val_has_type b cond TypeKind.Bool) InvalidState ;;;
  guard (valid_val b then_val && valid_val b else_val) InvalidState ;;;
  let then_ty := type_of b then_val in
  guard (types_equal then_ty (type_of b else_val)) InvalidState ;;;
  emit_with Opcode.Select then_ty loc (with_operands [cond; then_val; else_val]).
Definition emit_opt_unwrap (opt : Z) (inner_type : option Ty) loc : M A Z :=
  b <- get ;; guard (valid_val b opt && negb (null inner_type)) InvalidState ;;;
  guard (match type_of b opt with
         | Some t => bool_decide (ty_kind t = TypeKind.Optional) && types_equal (ty_inner t) inner_type
         | None => false
         end) InvalidState ;;;
  emit_with Opcode.OptUnwrap inner_type loc (with_operands [opt]).

(** ** Struct operations *)

(** The search for the field: its declared type must be the one asked for. *)
Fixpoint field_ok (fields : list FieldDef) (name : list Z) (ty : option Ty) : bool :=
  match fields with
  | [] => false
  | f :: fields' =>
      if str_eq (fd_name f) name then types_equal (fd_type f) ty else field_ok fields' name ty
  end.

Definition emit_struct_field (s : Z) (field_name : list Z) (field_type : option Ty) loc : M A Z :=
  b <- get ;;
  guard (val_has_type b s TypeKind.Struct && negb (null field_type)) InvalidState ;;;
  (match mbind ty_struct (type_of b s) with
   | Some k =>
       sd <- deref (m_structs (b_mod b) !! k) ;;
       guard (field_ok (sd_fields sd) field_name field_type) InvalidState
   | None => ret tt
   end) ;;;
  emit_with Opcode.StructField field_type loc
    (fun i => with_imm (ImmStructRef field_name field_type) (with_operands [s] i)).

(** Each value is checked against its field, in order. *)
Fixpoint values_match (b : Builder A) (values : list Z) (fields : list FieldDef) : bool :=
  match values, fields with
  | v :: values', f :: fields' =>
      valid_val b v && types_equal (type_of b v) (fd_type f) && values_match b values' fields'
  | _, _ => true
  end.

(** [sd] and [values] are null when [None].  The overflow array is asked for
    after [emit], and its failure is not rolled back. *)
Definition emit_struct_create (sd : option nat) (values : option (list Z)) (count : nat) loc : M A Z :=
  guard (negb (null sd || (null values && negb (Nat.eqb count 0)))) InvalidState ;;;
  k <- deref sd ;;
  b <- get ;;
  def <- deref (m_structs (b_mod b) !! k) ;;
  guard (Nat.eqb count (length (sd_fields def))) InvalidState ;;;
  let values := default [] values in
  guard (values_match b values (sd_fields def)) InvalidState ;;;
  ty <- make_type TypeKind.Struct None sd ;;
  '(k, vid) <- emit Opcode.StructCreate (Some ty) loc ;;
  let imm := ImmStructRef (sd_name def) (Some ty) in
  if Nat.leb count kMaxInlineOperands then
    set_inst k (fun i => with_imm imm (with_operands values i)) ;;; ret vid
  else
    set_inst k (fun i => mkInst (i_op i) (i_result i) (i_loc i) (Z.of_nat count) (i_operands i)
                           (i_extra_operands i) (i_imm i)) ;;;
    extra <- arena_alloc (u64 (sizeof_ValueId * Z.of_nat (count - kMaxInlineOperands))) ;;
    some_or extra OutOfMemory ;;;
    set_inst k (fun i => with_imm imm
      (with_extra (Z.of_nat count) (take kMaxInlineOperands values)
         (drop kMaxInlineOperands values) i)) ;;;
    ret vid.

Definition emit_body_parse (target_type : option Ty) loc : M A Z :=
  guard (negb (null target_type)) InvalidState ;;;
  emit_with Opcode.BodyParse target_type loc (with_imm (ImmStructRef [] target_type)).

Definition emit_counter_incr (key window_seconds : Z) loc : M A Z :=
  b <- get ;; guard (valid_val b key) InvalidState ;;;
  ty <- prim TypeKind.I32 ;;
  emit_with Opcode.CounterIncr (Some ty) loc
    (fun i => with_imm (ImmI64 window_seconds) (with_operands [key] i)).

(** ** Terminators *)

Definition block_in (b : Builder A) (blk : Z) : bool :=
  match cur_fn b with Some fn => blk <? block_count fn | None => false end.

Definition emit_br (cond then_blk else_blk : Z) loc : M A unit :=
  b <- get ;;
  guard (negb (null (b_cur_func b)) && val_has_type b cond TypeKind.Bool) InvalidState ;;;
  guard (block_in b then_blk && block_in b else_blk) InvalidState ;;;
  emit_with Opcode.Br None loc
    (fun i => with_imm (ImmTargets then_blk else_blk) (with_operands [cond] i)) ;;; ret tt.
Definition emit_jmp (target : Z) loc : M A unit :=
  b <- get ;; guard (negb (null (b_cur_func b))) InvalidState ;;;
  guard (block_in b target) InvalidState ;;;
  emit_with Opcode.Jmp None loc (with_imm (ImmTargets target 0)) ;;; ret tt.

(** status | body_idx << 16 | headers_idx << 32. *)
Definition pack_status (code body_idx headers_idx : Z) : Z :=
  Z.lor (Z.lor (Z.land code 0xffff) (Z.shiftl body_idx 16)) (Z.shiftl headers_idx 32).

Definition emit_ret_status (code body_idx headers_idx : Z) loc : M A unit :=
  emit_with Opcode.RetStatus None loc (with_imm (ImmI64 (pack_status code body_idx headers_idx))) ;;;
  ret tt.
Definition emit_ret_status_value (code : Z) loc : M A unit :=
  b <- get ;; guard (valid_val b code) InvalidState ;;;
  emit_with Opcode.RetStatus None loc (with_operands [code]) ;;; ret tt.
Definition emit_ret_forward (upstream : Z) loc : M A unit :=
  b <- get ;; guard (valid_val b upstream) InvalidState ;;;
  guard (val_has_type b upstream TypeKind.I32 || val_has_type b upstream TypeKind.U32) InvalidState ;;;
  emit_with Opcode.RetForward None loc (with_operands [upstream]) ;;; ret tt.

(** ** Yields *)

Definition emit_yield_http_get (url : list Z) (headers : Z) loc : M A Z :=
  b <- get ;;
  guard ((headers =? kNoValue) || valid_val b headers) InvalidState ;;;
  ty <- prim TypeKind.Str ;;
  vid <- emit_with Opcode.YieldHttpGet (Some ty) loc
    (fun i => let i := with_imm (ImmStr url) i in
              if headers =? kNoValue then i else with_operands [headers] i) ;;
  '(f, fn, _, _) <- get_cur ;;
  put_fn f (set_yields fn (u32 (fn_yield_count fn + 1)) (fn_yield_payload fn) (fn_yield_kinds fn)) ;;;
  ret vid.

(** kind << 48 | next_state << 32 | payload. *)
Definition pack_yield (kind payload next_state : Z) : Z :=
  Z.lor (Z.lor (Z.shiftl kind 48) (Z.shiftl next_state 32)) payload.

Definition emit_yield_event (kind payload next_state : Z) loc : M A unit :=
  b <- get ;; guard (negb (null (b_cur_func b))) InvalidState ;;;
  fn <- deref (cur_fn b) ;;
  guard (negb ((fn_yield_count fn =? 0) || (next_state =? 0) || (fn_yield_count fn <? next_state)))
    InvalidState ;;;
  emit_with Opcode.YieldTimer None loc (with_imm (ImmI64 (pack_yield kind payload next_state))) ;;;
  ret tt.
Definition emit_yield_timer (ms next_state : Z) loc : M A unit :=
  emit_yield_event kDefaultYieldKind ms next_state loc.

(** ** Interning

    A failure is the index 0. *)

(** The position of the first equal body. *)
Fixpoint find_body (i : nat) (bodies : list (list Z)) (body : list Z) : option nat :=
  match bodies with
  | [] => None
  | x :: bodies' => if str_eq x body then Some i else find_body (S i) bodies' body
  end.

Definition intern_response_body (body : list Z) : M A Z :=
  b <- get ;;
  let bodies := m_response_bodies (b_mod b) in
  match find_body 0 bodies body with
  | Some i => ret (u16 (Z.of_nat i + 1))
  | None =>
      if Nat.leb kMaxResponseBodies (length bodies) then ret 0
      else
        buf <- (if Nat.ltb 0 (length body) then arena_array 1 (Z.of_nat (length body))
                else ret (Some 0)) ;;
        match buf with
        | None => ret 0
        | Some _ =>
            b <- get ;;
            put (set_mod b (set_bodies (b_mod b) (bodies ++ [body]))) ;;;
            ret (u16 (Z.of_nat (length bodies) + 1))
        end
  end.

(** The pairs of a set in the flat pool. *)
Definition pool_pairs (m : Module_ A) (offset count : nat) : list (list Z * list Z) :=
  zip (take count (drop offset (m_header_keys m))) (take count (drop offset (m_header_values m))).

Fixpoint pairs_eq (a c : list (list Z * list Z)) : bool :=
  match a, c with
  | [], [] => true
  | (k, v) :: a', (k', v') :: c' => str_eq k k' && str_eq v v' && pairs_eq a' c'
  | _, _ => false
  end.

Fixpoint find_set (m : Module_ A) (i : nat) (sets : list HeaderSetRef) (pairs : list (list Z * list Z))
    : option nat :=
  match sets with
  | [] => None
  | r :: sets' =>
      if (hs_count r =? Z.of_nat (length pairs)) &&
         pairs_eq (pool_pairs m (Z.to_nat (hs_offset r)) (Z.to_nat (hs_count r))) pairs
      then Some i else find_set m (S i) sets' pairs
  end.

(** [copy_into_arena]; a length of 0xffffffff means failure to its caller. *)
Definition copy_into_arena (s : list Z) : M A (option (list Z)) :=
  if Nat.eqb (length s) 0 then ret (Some [])
  else
    buf <- arena_array 1 (Z.of_nat (length s)) ;;
    ret (if null buf || (Z.of_nat (length s) =? 0xffffffff) then None else Some s).

(** The copying loop; [false]: out of memory, with the entries before it
    written behind the used part of the pool. *)
Fixpoint copy_pairs (pos : nat) (pairs : list (list Z * list Z)) : M A bool :=
  match pairs with
  | [] => ret true
  | (key, value) :: pairs' =>
      k <- copy_into_arena key ;;
      match k with
      | None => ret false
      | Some k =>
          v <- copy_into_arena value ;;
          match v with
          | None => ret false
          | Some v =>
              b <- get ;;
              let m := b_mod b in
              (if Nat.ltb pos (length (m_header_keys m)) && Nat.ltb pos (length (m_header_values m))
               then put (set_mod b (set_headers m (<[pos := k]> (m_header_keys m))
                           (<[pos := v]> (m_header_values m)) (m_header_pool_used m) (m_header_sets m)))
               else fault) ;;;
              copy_pairs (S pos) pairs'
          end
      end
  end.

Definition intern_response_headers (pairs : list (list Z * list Z)) : M A Z :=
  let count := length pairs in
  if Nat.eqb count 0 then ret 0
  else
    b <- get ;;
    let m := b_mod b in
    match find_set m 0 (m_header_sets m) pairs with
    | Some i => ret (u16 (Z.of_nat i + 1))
    | None =>
        if Nat.leb kMaxHeaderSets (length (m_header_sets m)) then ret 0
        else if Nat.ltb (kMaxHeaderPoolEntries - m_header_pool_used m) count then ret 0
        else
          let offset := m_header_pool_used m in
          ok <- copy_pairs offset pairs ;;
          if negb ok then ret 0
          else
            b <- get ;;
            let m := b_mod b in
            let idx := length (m_header_sets m) in
            put (set_mod b (set_headers m (m_header_keys m) (m_header_values m)
              (m_header_pool_used m + count)
              (m_header_sets m ++ [mkSetRef (u16 (Z.of_nat offset)) (u16 (Z.of_nat count))]))) ;;;
            ret (u16 (Z.of_nat idx + 1))
    end.
End emission.
