(* ===== verification/RirLogic.v ===== *)
(** * Reasoning about the IR builder

    A weakest-precondition for builder operations, in which a fault is never
    allowed; the representation invariant of the arena arrays and of the
    cached insert point; and the abstract module, [mview]: what the arrays
    contain, without capacities, addresses and the arena.  The main lemma,
    [emit_with_wp], says that emission appends one instruction, and the value
    it defines, to the abstract module, or changes nothing in it. *)

From S2P Require Import Prelude Rir RirBuilder.
Open Scope rir_scope.

(** ** Weakest preconditions *)

Section wp.
Context {A : Type}.

Definition wp {R} (m : M A R) (Q : R -> Builder A -> Prop) (E : RirError -> Builder A -> Prop)
    (b : Builder A) : Prop :=
  match m b with
  | Some (b', inl x) => Q x b'
  | Some (b', inr e) => E e b'
  | None => False
  end.

Lemma wp_bind {R T} (m : M A R) (k : R -> M A T) Q E b :
  wp m (fun x b' => wp (k x) Q E b') E b -> wp (bind m k) Q E b.
Proof. unfold wp, bind. by destruct (m b) as [[b' [x|e]]|]. Qed.

Lemma wp_ret {R} (x : R) Q E (b : Builder A) : Q x b -> wp (ret x) Q E b.
Proof. done. Qed.

Lemma wp_err {R} e (Q : R -> Builder A -> Prop) E b : E e b -> wp (err e) Q E b.
Proof. done. Qed.

Lemma wp_get Q E (b : Builder A) : Q b b -> wp get Q E b.
Proof. done. Qed.

Lemma wp_put Q E (b b' : Builder A) : Q tt b' -> wp (put b') Q E b.
Proof. done. Qed.

Lemma wp_guard c e Q E (b : Builder A) :
  (c = true -> Q tt b) -> (c = false -> E e b) -> wp (guard c e) Q E b.
Proof. unfold guard. destruct c; cbn; auto. Qed.

Lemma wp_some_or {R} (x : option R) e Q E (b : Builder A) :
  (forall y, x = Some y -> Q y b) -> (x = None -> E e b) -> wp (some_or x e) Q E b.
Proof. unfold some_or. destruct x; cbn; auto. Qed.

Lemma wp_deref {R} (x : option R) y Q E (b : Builder A) :
  x = Some y -> Q y b -> wp (deref x) Q E b.
Proof. by intros ->. Qed.

Lemma wp_mono {R} (m : M A R) Q E Q' E' b :
  wp m Q E b -> (forall x b', Q x b' -> Q' x b') -> (forall e b', E e b' -> E' e b') ->
  wp m Q' E' b.
Proof. unfold wp. destruct (m b) as [[b' [x|e]]|]; eauto. Qed.
End wp.

(** ** Arrays *)

Definition vec_ok {T} (v : Vec T) : Prop :=
  (v_count v <= length (v_slots v))%nat /\ (0 < length (v_slots v))%nat /\
  v_cap v <= 2 * kMaxCap.

Lemma vec_push_spec {T} (v : Vec T) x :
  vec_ok v -> (v_count v < length (v_slots v))%nat ->
  exists v', vec_push v x = Some v' /\ vec_ok v' /\ v_at v' = v_at v /\
    vec_items v' = vec_items v ++ [x] /\ v_count v' = S (v_count v) /\
    v_slots v' = <[v_count v := x]> (v_slots v).
Proof.
  intros (Hc & Hp & Hm) Hlt. unfold vec_push. rewrite (proj2 (Nat.ltb_lt _ _) Hlt).
  eexists. split; [reflexivity|]. unfold vec_ok, v_cap, vec_items in *.
  cbn [v_count v_slots v_at]. rewrite length_insert. split_and!; try done.
  rewrite (take_S_r _ _ x) by (by apply list_lookup_insert_eq). by rewrite take_insert_ge.
Qed.

Lemma vec_regrow_spec {T} (d : T) p (v : Vec T) :
  vec_ok v -> v_cap v <= kMaxCap ->
  vec_ok (vec_regrow d p v) /\ vec_items (vec_regrow d p v) = vec_items v /\
  v_count (vec_regrow d p v) = v_count v /\ v_at (vec_regrow d p v) = p /\
  (v_count v < length (v_slots (vec_regrow d p v)))%nat.
Proof.
  intros (Hc & Hp & _) Hm. unfold vec_ok, vec_regrow, vec_items, v_cap in *.
  cbn [v_count v_slots v_at]. rewrite length_app, length_take, length_replicate, Nat.min_l by done.
  split_and!; try done; try lia.
  rewrite take_app_le by (rewrite length_take; lia). by rewrite take_take, Nat.min_l.
Qed.

Lemma vec_lookup {T} (v : Vec T) i :
  vec_ok v -> (i < v_count v)%nat -> vec_items v !! i = v_slots v !! i.
Proof. intros _ Hi. unfold vec_items. by rewrite lookup_take_lt. Qed.

(** Writing a slot in use. *)
Lemma vec_set_spec {T} (v : Vec T) i x :
  vec_ok v -> (i < v_count v)%nat ->
  vec_ok (mkVec (v_at v) (<[i := x]> (v_slots v)) (v_count v)) /\
  vec_items (mkVec (v_at v) (<[i := x]> (v_slots v)) (v_count v)) = <[i := x]> (vec_items v).
Proof.
  intros (Hc & Hp & Hm) Hi. unfold vec_ok, vec_items, v_cap in *. cbn [v_count v_slots].
  rewrite length_insert. split; [done|]. by rewrite take_insert_lt.
Qed.

Lemma length_vec_items {T} (v : Vec T) : vec_ok v -> length (vec_items v) = v_count v.
Proof. intros (Hc & _). unfold vec_items. rewrite length_take. lia. Qed.

(** ** Abstract modules *)

Record ABlock := mkAB { ab_id : Z; ab_label : list Z; ab_insts : list Instruction }.

Definition bview (b : BasicBlock) : ABlock := mkAB (bb_id b) (bb_label b) (vec_items (bb_insts b)).

Record AFn := mkAFn {
  af_name : list Z;
  af_route : list Z;
  af_method : Z;
  af_blocks : list ABlock;
  af_values : list Value;
  af_yield_count : Z;
  af_payload : option (list Z);
  af_kinds : option (list Z);
  af_resume : bool * Z * bool * list Z
}.

Definition fview (fn : Function) : AFn :=
  mkAFn (fn_name fn) (fn_route_pattern fn) (fn_http_method fn) (bview <$> vec_items (fn_blocks fn))
    (vec_items (fn_values fn)) (fn_yield_count fn) (fn_yield_payload fn) (fn_yield_kinds fn)
    (fn_state_zero_enters_entry fn, fn_resume_terminal_block fn, fn_has_explicit_resume_blocks fn,
     fn_resume_blocks fn).

Record AMod := mkAMod {
  am_name : list Z;
  am_structs : list StructDef;
  am_functions : list AFn;
  am_bodies : list (list Z);
  am_sets : list (list (list Z * list Z));
  am_upstreams : list Upstream
}.

(** The pairs a set stands for. *)
Definition set_pairs (ks vs : list (list Z)) (r : HeaderSetRef) : list (list Z * list Z) :=
  let off := Z.to_nat (hs_offset r) in
  let n := Z.to_nat (hs_count r) in
  zip (take n (drop off ks)) (take n (drop off vs)).

Definition mview {A} (m : Module_ A) : AMod :=
  mkAMod (m_name m) (m_structs m) (fview <$> m_functions m) (m_response_bodies m)
    (set_pairs (m_header_keys m) (m_header_values m) <$> m_header_sets m) (m_upstreams m).

(** ** Representation invariant *)

Definition rep_block (b : BasicBlock) : Prop :=
  vec_ok (bb_insts b) /\ Forall (fun i => length (i_operands i) = 3%nat) (v_slots (bb_insts b)).

Definition rep_fn (fn : Function) : Prop :=
  vec_ok (fn_blocks fn) /\ vec_ok (fn_values fn) /\ Forall rep_block (vec_items (fn_blocks fn)).

Section rep.
Context {A : Type} `{Bump A}.

(** The insert point is unset, or a block of a function behind a pointer into
    the function's current array. *)
Definition point_ok (b : Builder A) : Prop :=
  match b_cur_func b, b_cur_block b with
  | None, None => True
  | Some f, Some (at_, i) => exists fn, m_functions (b_mod b) !! f = Some fn /\
      at_ = v_at (fn_blocks fn) /\ (i < v_count (fn_blocks fn))%nat /\
      b_cur_block_id b = Z.of_nat i
  | _, _ => False
  end.

(** A cached type is the primitive of its slot. *)
Definition cache_ok (b : Builder A) : Prop :=
  length (b_type_cache b) = kTypeKindCount /\
  forall k t, b_type_cache b !! TypeKind.code k = Some (Some t) -> t = MkTy k None None.

(** The header pool: the sets lie in its used part. *)
Definition pool_ok (m : Module_ A) : Prop :=
  length (m_header_keys m) = kMaxHeaderPoolEntries /\
  length (m_header_values m) = kMaxHeaderPoolEntries /\
  (m_header_pool_used m <= kMaxHeaderPoolEntries)%nat /\
  Forall (fun r => 0 <= hs_offset r /\ 0 < hs_count r /\
    hs_offset r + hs_count r <= Z.of_nat (m_header_pool_used m)) (m_header_sets m).

Record rep_ok (b : Builder A) : Prop := {
  ro_fns : Forall rep_fn (m_functions (b_mod b));
  ro_point : point_ok b;
  ro_cache : cache_ok b;
  ro_pool : pool_ok (b_mod b)
}.

(** What only the arena and the type cache tell apart. *)
Record arena_eq (b b' : Builder A) : Prop := {
  ae_mod : set_arena (b_mod b') (m_arena (b_mod b)) = b_mod b;
  ae_func : b_cur_func b' = b_cur_func b;
  ae_id : b_cur_block_id b' = b_cur_block_id b;
  ae_block : b_cur_block b' = b_cur_block b
}.

Lemma arena_eq_fields b b' :
  arena_eq b b' ->
  m_functions (b_mod b') = m_functions (b_mod b) /\ m_structs (b_mod b') = m_structs (b_mod b) /\
  m_struct_defs (b_mod b') = m_struct_defs (b_mod b) /\ mview (b_mod b') = mview (b_mod b) /\
  cur_fn b' = cur_fn b.
Proof.
  intros [Hm Hf _ _]. unfold mview, m_structs, cur_fn. rewrite Hf. rewrite <- Hm.
  unfold set_arena. cbn. done.
Qed.

Lemma arena_eq_refl b : arena_eq b b.
Proof. split; try done. by destruct (b_mod b). Qed.

Lemma arena_eq_trans b1 b2 b3 : arena_eq b1 b2 -> arena_eq b2 b3 -> arena_eq b1 b3.
Proof.
  intros [Hm Hf Hi Hb] [Hm' Hf' Hi' Hb']. split; try congruence.
  rewrite <- Hm, <- Hm'. unfold set_arena. by cbn.
Qed.

Lemma arena_eq_rep b b' :
  arena_eq b b' -> cache_ok b' -> rep_ok b -> rep_ok b'.
Proof.
  intros Heq Hc [H1 H2 H3 H4]. destruct (arena_eq_fields _ _ Heq) as (Hf & _).
  destruct Heq as [Hm E1 E2 E3]. split; [by rewrite Hf | | done |].
  - unfold point_ok. by rewrite E1, E2, E3, Hf.
  - rewrite <- Hm in H4. unfold pool_ok, set_arena in *. cbn in H4. done.
Qed.

Lemma wp_lift_alloc (call : A -> option Z * A) Q E b :
  (forall p b', arena_eq b b' -> b_type_cache b' = b_type_cache b -> Q p b') ->
  wp (lift_alloc call) Q E b.
Proof.
  intros HQ. unfold lift_alloc, wp, bind, get. destruct (call _) as [p a]. cbn. apply HQ; [|done].
  split; try done. unfold set_arena, set_mod. cbn. by destruct (b_mod b).
Qed.
End rep.

(** ** The insert point *)

Section point.
Context {A : Type} `{Bump A}.
Implicit Types (b : Builder A).

Record at_point (b : Builder A) (f : nat) (fn : Function) (i : nat) (blk : BasicBlock) : Prop := {
  ap_func : b_cur_func b = Some f;
  ap_fn : m_functions (b_mod b) !! f = Some fn;
  ap_block : b_cur_block b = Some (v_at (fn_blocks fn), i);
  ap_slot : v_slots (fn_blocks fn) !! i = Some blk;
  ap_id : b_cur_block_id b = Z.of_nat i;
  ap_lt : (i < v_count (fn_blocks fn))%nat
}.

Definition upd_fn (b : Builder A) (f : nat) (fn : Function) : Builder A :=
  set_mod b (set_functions (b_mod b) (<[f := fn]> (m_functions (b_mod b)))).

Definition with_insts (fn : Function) (i : nat) (blk : BasicBlock) (v : Vec Instruction) : Function :=
  set_blocks fn (mkVec (v_at (fn_blocks fn))
    (<[i := mkBB (bb_id blk) (bb_label blk) v]> (v_slots (fn_blocks fn))) (v_count (fn_blocks fn))).

Lemma rep_block_at b f fn i blk :
  rep_ok b -> at_point b f fn i blk -> rep_fn fn /\ rep_block blk.
Proof.
  intros Hr Hp. pose proof (ro_fns _ Hr) as Hf. rewrite Forall_lookup in Hf.
  specialize (Hf _ _ (ap_fn _ _ _ _ _ Hp)). split; [done|]. destruct Hf as (Hb & _ & Hall).
  rewrite Forall_lookup in Hall. apply (Hall i). rewrite vec_lookup by (done || apply Hp). apply Hp.
Qed.

Lemma point_cases b :
  rep_ok b ->
  (b_cur_func b = None /\ b_cur_block b = None) \/ exists f fn i blk, at_point b f fn i blk.
Proof.
  intros Hr. pose proof (ro_point _ Hr) as Hp. unfold point_ok in Hp.
  destruct (b_cur_func b) as [f|] eqn:Ef, (b_cur_block b) as [[at_ i]|] eqn:Eb; try done; [|by left].
  right. destruct Hp as (fn & Hfn & -> & Hi & Hid).
  pose proof (ro_fns _ Hr) as Hf. rewrite Forall_lookup in Hf.
  destruct (Hf _ _ Hfn) as ((Hc & _) & _).
  destruct (lookup_lt_is_Some_2 (v_slots (fn_blocks fn)) i) as [blk Hblk]; [lia|].
  by exists f, fn, i, blk.
Qed.

Lemma wp_get_fn b f fn Q E :
  m_functions (b_mod b) !! f = Some fn -> Q fn b -> wp (get_fn f) Q E b.
Proof. intros Hf HQ. unfold get_fn. apply wp_bind, wp_get. by apply (wp_deref _ fn). Qed.

Lemma wp_put_fn b f fn Q E : Q tt (upd_fn b f fn) -> wp (put_fn f fn) Q E b.
Proof. intros HQ. unfold put_fn. by apply wp_bind, wp_get, wp_put. Qed.

Lemma wp_get_cur b f fn i blk Q E :
  at_point b f fn i blk -> Q (f, fn, i, blk) b -> wp get_cur Q E b.
Proof.
  intros [Hf Hfn Hb Hs Hid Hlt] HQ. unfold get_cur. apply wp_bind, wp_get, wp_bind.
  apply (wp_deref _ f); [done|]. apply wp_bind, (wp_get_fn _ _ fn); [done|].
  apply wp_bind, (wp_deref _ _ _ _ _ Hb). apply wp_bind. rewrite Z.eqb_refl.
  by apply (wp_deref _ blk).
Qed.

Lemma wp_put_insts b f fn i blk v Q E :
  at_point b f fn i blk -> Q tt (upd_fn b f (with_insts fn i blk v)) -> wp (put_insts v) Q E b.
Proof.
  intros Hp HQ. unfold put_insts. eapply wp_bind, wp_get_cur; [done|]. by apply wp_put_fn.
Qed.

(** *** The effect on the abstract module *)

Definition am_set (m : AMod) (f : nat) (a : AFn) : AMod :=
  mkAMod (am_name m) (am_structs m) (<[f := a]> (am_functions m)) (am_bodies m) (am_sets m)
    (am_upstreams m).

Definition af_set_insts (a : AFn) (i : nat) (insts : list Instruction) : AFn :=
  mkAFn (af_name a) (af_route a) (af_method a)
    (alter (fun ab => mkAB (ab_id ab) (ab_label ab) insts) i (af_blocks a)) (af_values a)
    (af_yield_count a) (af_payload a) (af_kinds a) (af_resume a).

Definition af_set_values (a : AFn) (vs : list Value) : AFn :=
  mkAFn (af_name a) (af_route a) (af_method a) (af_blocks a) vs
    (af_yield_count a) (af_payload a) (af_kinds a) (af_resume a).

Lemma mview_upd b f fn : mview (b_mod (upd_fn b f fn)) = am_set (mview (b_mod b)) f (fview fn).
Proof. unfold mview, am_set, upd_fn. cbn. by rewrite list_fmap_insert. Qed.

Lemma am_set_set m f a a' : am_set (am_set m f a) f a' = am_set m f a'.
Proof. unfold am_set. cbn. by rewrite list_insert_insert_eq. Qed.

Lemma am_set_same b f fn :
  m_functions (b_mod b) !! f = Some fn -> am_set (mview (b_mod b)) f (fview fn) = mview (b_mod b).
Proof.
  intros Hf. unfold am_set, mview. cbn. f_equal. apply list_insert_id.
  by rewrite list_lookup_fmap, Hf.
Qed.

Lemma fview_insts b f fn i blk v :
  rep_ok b -> at_point b f fn i blk ->
  fview (with_insts fn i blk v) = af_set_insts (fview fn) i (vec_items v).
Proof.
  intros Hr Hp. destruct (rep_block_at _ _ _ _ _ Hr Hp) as [(Hb & _) _].
  unfold fview, af_set_insts, with_insts, set_blocks. f_equal. cbn [fn_blocks af_blocks].
  destruct (vec_set_spec (fn_blocks fn) i (mkBB (bb_id blk) (bb_label blk) v) Hb (ap_lt _ _ _ _ _ Hp))
    as [_ ->].
  rewrite list_fmap_insert. apply list_eq. intros j. destruct (decide (j = i)) as [->|Hne].
  - rewrite list_lookup_alter_eq, list_lookup_fmap, vec_lookup, (ap_slot _ _ _ _ _ Hp)
      by (done || apply Hp).
    cbn. rewrite list_lookup_insert_eq; [done|]. rewrite length_fmap, length_vec_items by done. apply Hp.
  - by rewrite list_lookup_insert_ne, list_lookup_alter_ne.
Qed.

(** *** Keeping the point *)

(** [b'] is at the point [b] was at; its module is that of [b] with function
    [f] replaced. *)
Record track (b : Builder A) (f : nat) (b' : Builder A) (fn : Function) (i : nat) (blk : BasicBlock)
    : Prop := {
  tr_point : at_point b' f fn i blk;
  tr_rep : rep_ok b';
  tr_view : mview (b_mod b') = am_set (mview (b_mod b)) f (fview fn)
}.

Lemma track_refl b f fn i blk : rep_ok b -> at_point b f fn i blk -> track b f b fn i blk.
Proof. intros Hr Hp. split; [done..|]. symmetry. apply am_set_same, Hp. Qed.

Lemma track_trans b f b1 fn1 i blk1 b2 fn2 blk2 :
  track b f b1 fn1 i blk1 -> track b1 f b2 fn2 i blk2 -> track b f b2 fn2 i blk2.
Proof. intros [H1 H2 H3] [H4 H5 H6]. split; [done..|]. by rewrite H6, H3, am_set_set. Qed.

Lemma track_arena b f b1 fn i blk b2 :
  track b f b1 fn i blk -> arena_eq b1 b2 -> cache_ok b2 -> track b f b2 fn i blk.
Proof.
  intros [[P1 P2 P3 P4 P5 P6] H2 H3] Heq Hc.
  destruct (arena_eq_fields _ _ Heq) as (Hf & _ & _ & Hm & _).
  split; [|by eapply arena_eq_rep|by rewrite Hm].
  destruct Heq as [_ E1 E2 E3]. split; congruence.
Qed.

Lemma rep_upd b f fn i blk fn' :
  rep_ok b -> at_point b f fn i blk -> rep_fn fn' ->
  v_at (fn_blocks fn') = v_at (fn_blocks fn) -> v_count (fn_blocks fn') = v_count (fn_blocks fn) ->
  rep_ok (upd_fn b f fn').
Proof.
  intros [H1 H2 H3 H4] Hp Hf Hat Hc. split; cbn; [|unfold point_ok; cbn|done|done].
  - by apply Forall_insert.
  - rewrite (ap_func _ _ _ _ _ Hp), (ap_block _ _ _ _ _ Hp). exists fn'.
    rewrite list_lookup_insert_eq by (eapply lookup_lt_Some, Hp). rewrite Hat, Hc.
    split_and!; try done; apply Hp.
Qed.

Lemma track_insts b f fn i blk v :
  rep_ok b -> at_point b f fn i blk -> vec_ok v ->
  Forall (fun i => length (i_operands i) = 3%nat) (v_slots v) ->
  track b f (upd_fn b f (with_insts fn i blk v)) (with_insts fn i blk v) i
    (mkBB (bb_id blk) (bb_label blk) v).
Proof.
  intros Hr Hp Hv Hs. destruct (rep_block_at _ _ _ _ _ Hr Hp) as [(Hb & Hvs & Hbl) _].
  destruct (vec_set_spec (fn_blocks fn) i (mkBB (bb_id blk) (bb_label blk) v) Hb (ap_lt _ _ _ _ _ Hp))
    as [Hb' Hit].
  split; [|eapply rep_upd; [done..| |done|done] |by rewrite mview_upd].
  - destruct Hp as [P1 P2 P3 P4 P5 P6]. split; try done; cbn.
    + apply list_lookup_insert_eq. by eapply lookup_lt_Some.
    + apply list_lookup_insert_eq. by eapply lookup_lt_Some.
  - split_and!; [done..|]. unfold with_insts, set_blocks. cbn [fn_blocks]. rewrite Hit.
    by apply Forall_insert.
Qed.

Lemma track_values b f fn i blk v :
  rep_ok b -> at_point b f fn i blk -> vec_ok v ->
  track b f (upd_fn b f (set_values fn v)) (set_values fn v) i blk.
Proof.
  intros Hr Hp Hv. destruct (rep_block_at _ _ _ _ _ Hr Hp) as [(Hb & Hvs & Hbl) _].
  split; [|eapply rep_upd; [done..| |done|done] |by rewrite mview_upd].
  - destruct Hp as [P1 P2 P3 P4 P5 P6]. split; try done; cbn.
    apply list_lookup_insert_eq. by eapply lookup_lt_Some.
  - by split_and!.
Qed.

(** An error leaves the abstract module alone. *)
Definition unchanged (b b' : Builder A) : Prop :=
  rep_ok b' /\ mview (b_mod b') = mview (b_mod b) /\ b_cur_func b' = b_cur_func b /\
  b_cur_block_id b' = b_cur_block_id b.

Lemma track_unchanged b f fn i blk b' fn' blk' :
  at_point b f fn i blk -> track b f b' fn' i blk' -> fview fn' = fview fn -> unchanged b b'.
Proof.
  intros Hp [H1 H2 H3] Hv. split_and!; [done| | |].
  - rewrite H3, Hv. apply am_set_same, Hp.
  - by rewrite (ap_func _ _ _ _ _ H1), (ap_func _ _ _ _ _ Hp).
  - by rewrite (ap_id _ _ _ _ _ H1), (ap_id _ _ _ _ _ Hp).
Qed.

Lemma cache_same (b b' : Builder A) : b_type_cache b' = b_type_cache b -> cache_ok b -> cache_ok b'.
Proof. unfold cache_ok. by intros ->. Qed.

Lemma arena_eq_unchanged b b' : rep_ok b -> arena_eq b b' -> cache_ok b' -> unchanged b b'.
Proof.
  intros Hr Heq Hc. destruct (arena_eq_fields _ _ Heq) as (_ & _ & _ & Hm & _).
  split_and!; [by eapply arena_eq_rep | done | apply Heq | apply Heq].
Qed.

Lemma unchanged_refl b : rep_ok b -> unchanged b b.
Proof. by intros. Qed.

Lemma unchanged_trans b1 b2 b3 : unchanged b1 b2 -> unchanged b2 b3 -> unchanged b1 b3.
Proof. intros (H1 & H2 & H3 & H4) (H5 & H6 & H7 & H8). split_and!; [done|congruence..]. Qed.
End point.

(** ** Emission *)

Definition block_insts (a : AFn) (i : nat) : list Instruction :=
  match af_blocks a !! i with Some ab => ab_insts ab | None => [] end.

(** No terminator yet. *)
Definition open_block (a : AFn) (i : nat) : bool :=
  match last (block_insts a i) with
  | Some x => negb (is_terminator (i_op x))
  | None => true
  end.

Definition vid_of (a : AFn) (rt : option Ty) : Z :=
  match rt with Some _ => Z.of_nat (length (af_values a)) | None => kNoValue end.

(** Emission into block [i]: a value of type [rt], if any, and its
    instruction. *)
Definition af_emit (a : AFn) (i : nat) (rt : option Ty) (inst : Instruction) : AFn :=
  let vs :=
    match rt with
    | Some t =>
        af_values a ++ [mkValue (Some t) (Z.of_nat i) (Z.of_nat (length (block_insts a i)))]
    | None => af_values a
    end in
  af_set_insts (af_set_values a vs) i (block_insts a i ++ [inst]).

Lemma af_set_insts_twice a i l l' : af_set_insts (af_set_insts a i l) i l' = af_set_insts a i l'.
Proof.
  unfold af_set_insts. cbn. f_equal. apply list_eq. intros j. destruct (decide (j = i)) as [->|].
  - rewrite !list_lookup_alter_eq. by destruct (af_blocks a !! i).
  - by rewrite !list_lookup_alter_ne.
Qed.

Lemma af_set_insts_same a i : af_set_insts a i (block_insts a i) = a.
Proof.
  unfold af_set_insts, block_insts. destruct a as [n r m bs vs yc p k res]. cbn. f_equal.
  apply list_eq. intros j. destruct (decide (j = i)) as [->|].
  - rewrite list_lookup_alter_eq. by destruct (bs !! i) as [[]|].
  - by rewrite list_lookup_alter_ne.
Qed.

Section emission_wp.
Context {A : Type} `{Bump A}.
Implicit Types (b : Builder A).

Lemma block_insts_at b f fn i blk :
  rep_ok b -> at_point b f fn i blk -> block_insts (fview fn) i = vec_items (bb_insts blk).
Proof.
  intros Hr Hp. destruct (rep_block_at _ _ _ _ _ Hr Hp) as [(Hb & _) _].
  unfold block_insts, fview. cbn [af_blocks].
  by rewrite list_lookup_fmap, vec_lookup, (ap_slot _ _ _ _ _ Hp) by (done || apply Hp).
Qed.

(** Growing an array is invisible. *)
Lemma grow_insts_wp b f b1 fn i blk :
  track b f b1 fn i blk ->
  wp grow_insts
    (fun _ b2 => exists fn' blk', track b f b2 fn' i blk' /\ fview fn' = fview fn /\
       fn_values fn' = fn_values fn /\ v_count (bb_insts blk') = v_count (bb_insts blk) /\
       (v_count (bb_insts blk') < length (v_slots (bb_insts blk')))%nat)
    (fun _ b2 => track b f b2 fn i blk) b1.
Proof.
  intros Ht. pose proof (tr_rep _ _ _ _ _ _ Ht) as Hr. pose proof (tr_point _ _ _ _ _ _ Ht) as Hp.
  unfold grow_insts. apply wp_bind. eapply wp_get_cur; [done|]. cbv beta iota.
  apply wp_bind, wp_guard; [intros Hcap|done]. apply wp_bind, wp_lift_alloc. intros p b2 Heq Hc.
  assert (track b f b2 fn i blk) as Ht2.
  { eapply track_arena; [done..|]. eapply cache_same; [done|]. apply Hr. }
  apply wp_bind, wp_some_or; [intros p' _|done].
  pose proof (tr_rep _ _ _ _ _ _ Ht2) as Hr2. pose proof (tr_point _ _ _ _ _ _ Ht2) as Hp2.
  destruct (rep_block_at _ _ _ _ _ Hr2 Hp2) as [_ [Hv Hops]]. apply Z.leb_le in Hcap.
  destruct (vec_regrow_spec inst0 p' _ Hv Hcap) as (Hv' & Hit & Hcnt & _ & Hlt).
  eapply wp_put_insts; [done|].
  exists (with_insts fn i blk (vec_regrow inst0 p' (bb_insts blk))), (mkBB (bb_id blk) (bb_label blk)
    (vec_regrow inst0 p' (bb_insts blk))). split_and!.
  - eapply track_trans; [exact Ht2|]. apply track_insts; [done..|].
    unfold vec_regrow. cbn [v_slots]. apply Forall_app. split.
    + by apply Forall_take.
    + by apply Forall_replicate.
  - erewrite fview_insts by done. rewrite Hit, <- (block_insts_at b2 f fn i) by done.
    apply af_set_insts_same.
  - done.
  - exact Hcnt.
  - cbn [bb_insts]. lia.
Qed.

Lemma grow_values_wp b f b1 fn i blk :
  track b f b1 fn i blk ->
  wp (grow_values f)
    (fun _ b2 => exists fn', track b f b2 fn' i blk /\ fview fn' = fview fn /\
       (v_count (fn_values fn') < length (v_slots (fn_values fn')))%nat)
    (fun _ b2 => track b f b2 fn i blk) b1.
Proof.
  intros Ht. pose proof (tr_rep _ _ _ _ _ _ Ht) as Hr. pose proof (tr_point _ _ _ _ _ _ Ht) as Hp.
  unfold grow_values. apply wp_bind. eapply wp_get_fn; [apply Hp|].
  apply wp_bind, wp_guard; [intros Hcap|done]. apply wp_bind, wp_lift_alloc. intros p b2 Heq Hc.
  assert (track b f b2 fn i blk) as Ht2.
  { eapply track_arena; [done..|]. eapply cache_same; [done|]. apply Hr. }
  apply wp_bind, wp_some_or; [intros p' _|done].
  pose proof (tr_rep _ _ _ _ _ _ Ht2) as Hr2. pose proof (tr_point _ _ _ _ _ _ Ht2) as Hp2.
  destruct (rep_block_at _ _ _ _ _ Hr2 Hp2) as [(_ & Hv & _) _]. apply Z.leb_le in Hcap.
  destruct (vec_regrow_spec value0 p' _ Hv Hcap) as (Hv' & Hit & Hcnt & _ & Hlt).
  apply wp_put_fn. exists (set_values fn (vec_regrow value0 p' (fn_values fn))). split_and!.
  - eapply track_trans; [exact Ht2|]. by apply track_values.
  - unfold fview, set_values. cbn [fn_values fn_name fn_route_pattern fn_http_method fn_blocks
      fn_yield_count fn_yield_payload fn_yield_kinds fn_state_zero_enters_entry
      fn_resume_terminal_block fn_has_explicit_resume_blocks fn_resume_blocks]. by rewrite Hit.
  - cbn [fn_values set_values]. lia.
Qed.

Lemma grow_if_wp (c : bool) (m : M A unit) Q E b :
  (c = true -> wp m Q E b) -> (c = false -> Q tt b) -> wp (if c then m else ret tt) Q E b.
Proof. destruct c; [by auto|]. intros _ HQ. by apply wp_ret, HQ. Qed.

(** The value of an instruction. *)
Lemma def_value_wp b f b1 fn i blk t :
  track b f b1 fn i blk ->
  wp ('(f, fn, _, blk) <- get_cur ;;
      (if v_cap (fn_values fn) <=? value_count fn then grow_values f else ret tt) ;;;
      fn <- get_fn f ;;
      b <- get ;;
      vals <- deref (vec_push (fn_values fn)
                (mkValue (Some t) (b_cur_block_id b) (Z.of_nat (v_count (bb_insts blk))))) ;;
      put_fn f (set_values fn vals) ;;;
      ret (value_count fn))
    (fun vid b2 => exists fn', track b f b2 fn' i blk /\ vid = vid_of (fview fn) (Some t) /\
       fview fn' = af_set_values (fview fn) (af_values (fview fn) ++
         [mkValue (Some t) (Z.of_nat i) (Z.of_nat (length (block_insts (fview fn) i)))]))
    (fun _ b2 => track b f b2 fn i blk) b1.
Proof.
  intros Ht. pose proof (tr_rep _ _ _ _ _ _ Ht) as Hr. pose proof (tr_point _ _ _ _ _ _ Ht) as Hp.
  assert (Z.of_nat (v_count (bb_insts blk)) = Z.of_nat (length (block_insts (fview fn) i))) as Hcnt.
  { rewrite (block_insts_at b1 f fn i blk) by done. rewrite length_vec_items; [done|].
    by destruct (rep_block_at _ _ _ _ _ Hr Hp) as [_ [? _]]. }
  apply wp_bind. eapply wp_get_cur; [done|]. cbv beta iota.
  assert (Hpush : forall b2 fn2, track b f b2 fn2 i blk -> fview fn2 = fview fn ->
    (v_count (fn_values fn2) < length (v_slots (fn_values fn2)))%nat ->
    wp (fn <- get_fn f ;;
        b <- get ;;
        vals <- deref (vec_push (fn_values fn)
                  (mkValue (Some t) (b_cur_block_id b) (Z.of_nat (v_count (bb_insts blk))))) ;;
        put_fn f (set_values fn vals) ;;;
        ret (value_count fn))
      (fun vid b3 => exists fn', track b f b3 fn' i blk /\ vid = vid_of (fview fn) (Some t) /\
         fview fn' = af_set_values (fview fn) (af_values (fview fn) ++
           [mkValue (Some t) (Z.of_nat i) (Z.of_nat (length (block_insts (fview fn) i)))]))
      (fun _ b3 => track b f b3 fn i blk) b2).
  { intros b2 fn2 Ht2 Hfv Hlt.
    pose proof (tr_rep _ _ _ _ _ _ Ht2) as Hr2. pose proof (tr_point _ _ _ _ _ _ Ht2) as Hp2.
    destruct (rep_block_at _ _ _ _ _ Hr2 Hp2) as [(_ & Hv & _) _].
    apply wp_bind. eapply wp_get_fn; [apply Hp2|]. apply wp_bind, wp_get, wp_bind.
    destruct (vec_push_spec (fn_values fn2)
      (mkValue (Some t) (b_cur_block_id b2) (Z.of_nat (v_count (bb_insts blk)))) Hv Hlt)
      as (v' & Hpush & Hv' & _ & Hit & _).
    eapply wp_deref; [exact Hpush|]. apply wp_bind, wp_put_fn, wp_ret. exists (set_values fn2 v').
    split_and!.
    - eapply track_trans; [exact Ht2|]. by apply track_values.
    - unfold vid_of, value_count. rewrite <- Hfv. cbn [fview af_values]. by rewrite length_vec_items.
    - rewrite <- Hcnt, <- Hfv, <- (ap_id _ _ _ _ _ Hp2). unfold fview, set_values, af_set_values.
      cbn [fn_values fn_name fn_route_pattern fn_http_method fn_blocks
      fn_yield_count fn_yield_payload fn_yield_kinds fn_state_zero_enters_entry
      fn_resume_terminal_block fn_has_explicit_resume_blocks fn_resume_blocks af_values af_name
      af_route af_method af_blocks af_yield_count af_payload af_kinds af_resume]. by rewrite Hit. }
  apply wp_bind, grow_if_wp.
  - intros _. eapply wp_mono; [by eapply grow_values_wp| |done].
    intros _ b2 (fn2 & Ht2 & Hfv & Hlt). by apply (Hpush b2 fn2).
  - intros Hc. apply (Hpush b1 fn); [done..|]. apply Z.leb_gt in Hc.
    unfold v_cap, value_count in Hc. lia.
Qed.

(** The instruction, once there is room and a value for it. *)
Lemma push_inst_wp b f b1 fn i blk op vid loc :
  track b f b1 fn i blk ->
  (v_count (bb_insts blk) < length (v_slots (bb_insts blk)))%nat ->
  wp ('(_, _, _, blk) <- get_cur ;;
      let k := v_count (bb_insts blk) in
      old <- deref (v_slots (bb_insts blk) !! k) ;;
      insts <- deref (vec_push (bb_insts blk) (mkInst op vid loc 0 (i_operands old) None ImmZero)) ;;
      put_insts insts ;;;
      ret (k, vid))
    (fun r b2 => exists fn' blk' old, track b f b2 fn' i blk' /\
       r = (length (block_insts (fview fn) i), vid) /\
       v_count (bb_insts blk') = S (length (block_insts (fview fn) i)) /\ length old = 3%nat /\
       fview fn' = af_set_insts (fview fn) i
         (block_insts (fview fn) i ++ [mkInst op vid loc 0 old None ImmZero]))
    (fun _ _ => False) b1.
Proof.
  intros Ht Hlt. pose proof (tr_rep _ _ _ _ _ _ Ht) as Hr. pose proof (tr_point _ _ _ _ _ _ Ht) as Hp.
  destruct (rep_block_at _ _ _ _ _ Hr Hp) as [_ [Hv Hops]].
  apply wp_bind. eapply wp_get_cur; [done|]. cbv beta iota zeta.
  destruct (lookup_lt_is_Some_2 _ _ Hlt) as [old Hold].
  apply wp_bind. eapply wp_deref; [exact Hold|]. apply wp_bind.
  destruct (vec_push_spec _ (mkInst op vid loc 0 (i_operands old) None ImmZero) Hv Hlt)
    as (v' & Hpush & Hv' & _ & Hit & Hcnt & Hsl).
  eapply wp_deref; [exact Hpush|]. apply wp_bind. eapply wp_put_insts; [done|]. apply wp_ret.
  assert (length (i_operands old) = 3%nat) as H3 by (rewrite Forall_lookup in Hops; by eapply Hops).
  rewrite (block_insts_at b1 f fn i blk), length_vec_items by done.
  exists (with_insts fn i blk v'), (mkBB (bb_id blk) (bb_label blk) v'), (i_operands old). split_and!.
  - eapply track_trans; [exact Ht|]. apply track_insts; try done. rewrite Hsl. by apply Forall_insert.
  - done.
  - done.
  - done.
  - erewrite fview_insts by done. by rewrite Hit.
Qed.

Lemma emit_wp b f fn i blk op rt loc :
  rep_ok b -> at_point b f fn i blk ->
  wp (emit op rt loc)
    (fun r b' => exists fn' blk' old, track b f b' fn' i blk' /\ open_block (fview fn) i = true /\
       r = (length (block_insts (fview fn) i), vid_of (fview fn) rt) /\
       v_count (bb_insts blk') = S (length (block_insts (fview fn) i)) /\ length old = 3%nat /\
       fview fn' = af_emit (fview fn) i rt (mkInst op (vid_of (fview fn) rt) loc 0 old None ImmZero))
    (fun _ b' => unchanged b b') b.
Proof.
  intros Hr Hp. pose proof (track_refl _ _ _ _ _ Hr Hp) as Ht.
  unfold emit. apply wp_bind, wp_get, wp_bind, wp_guard;
    [intros _ | rewrite (ap_func _ _ _ _ _ Hp), (ap_block _ _ _ _ _ Hp); done].
  apply wp_bind. eapply wp_get_cur; [done|]. cbv beta iota.
  apply wp_bind, wp_guard; [intros Hopen | intros _; by apply unchanged_refl].
  assert (open_block (fview fn) i = true) as Hopen'
    by (unfold open_block; rewrite (block_insts_at b f fn i blk) by done; exact Hopen).
  assert (Hunch : forall b' fn' blk', track b f b' fn' i blk' -> fview fn' = fview fn -> unchanged b b')
    by (intros; by eapply track_unchanged).
  assert (Hrest : forall b1 fn1 blk1, track b f b1 fn1 i blk1 -> fview fn1 = fview fn ->
    (v_count (bb_insts blk1) < length (v_slots (bb_insts blk1)))%nat ->
    wp (vid <- (match rt with
          | None => ret kNoValue
          | Some t =>
              '(f, fn, _, blk) <- get_cur ;;
              (if v_cap (fn_values fn) <=? value_count fn then grow_values f else ret tt) ;;;
              fn <- get_fn f ;;
              b <- get ;;
              vals <- deref (vec_push (fn_values fn)
                        (mkValue (Some t) (b_cur_block_id b) (Z.of_nat (v_count (bb_insts blk))))) ;;
              put_fn f (set_values fn vals) ;;;
              ret (value_count fn)
          end) ;;
        '(_, _, _, blk) <- get_cur ;;
        let k := v_count (bb_insts blk) in
        old <- deref (v_slots (bb_insts blk) !! k) ;;
        insts <- deref (vec_push (bb_insts blk) (mkInst op vid loc 0 (i_operands old) None ImmZero)) ;;
        put_insts insts ;;;
        ret (k, vid))
    (fun r b' => exists fn' blk' old, track b f b' fn' i blk' /\ open_block (fview fn) i = true /\
       r = (length (block_insts (fview fn) i), vid_of (fview fn) rt) /\
       v_count (bb_insts blk') = S (length (block_insts (fview fn) i)) /\ length old = 3%nat /\
       fview fn' = af_emit (fview fn) i rt (mkInst op (vid_of (fview fn) rt) loc 0 old None ImmZero))
    (fun _ b' => unchanged b b') b1).
  { intros b1 fn1 blk1 Ht1 Hv1 Hlt. apply wp_bind. destruct rt as [t|].
    - eapply wp_mono; [by eapply def_value_wp| |intros e b2 Ht2; exact (Hunch _ _ _ Ht2 Hv1)].
      intros vid b2 (fn2 & Ht2 & -> & Hv2).
      assert (block_insts (fview fn2) i = block_insts (fview fn) i) as Hbi by (by rewrite Hv2, Hv1).
      eapply wp_mono; [by eapply push_inst_wp| |done].
      intros r b3 (fn3 & blk3 & old & Ht3 & -> & Hc & Hl & Hv3). rewrite Hbi in *.
      exists fn3, blk3, old. rewrite Hv1 in *. split_and!; try done.
      rewrite Hv3, Hv2. done.
    - apply wp_ret. eapply wp_mono; [by eapply push_inst_wp| |done].
      intros r b3 (fn3 & blk3 & old & Ht3 & -> & Hc & Hl & Hv3).
      exists fn3, blk3, old. rewrite Hv1 in *. by split_and!. }
  apply wp_bind, grow_if_wp.
  - intros _. eapply wp_mono; [by eapply grow_insts_wp| |intros e b2 Ht2; exact (Hunch _ _ _ Ht2 eq_refl)].
    intros _ b1 (fn1 & blk1 & Ht1 & Hv1 & _ & _ & Hlt). by eapply Hrest.
  - intros Hc. eapply Hrest; [done..|]. apply Z.leb_gt in Hc. unfold v_cap in Hc. lia.
Qed.

(** A write through the instruction pointer. *)
Lemma set_inst_wp b f b1 fn i blk k fill :
  track b f b1 fn i blk -> (k < v_count (bb_insts blk))%nat ->
  (forall x, length (i_operands x) = 3%nat -> length (i_operands (fill x)) = 3%nat) ->
  wp (set_inst k fill)
    (fun _ b2 => exists fn' blk', track b f b2 fn' i blk' /\
       v_count (bb_insts blk') = v_count (bb_insts blk) /\
       fview fn' = af_set_insts (fview fn) i (alter fill k (block_insts (fview fn) i)))
    (fun _ _ => False) b1.
Proof.
  intros Ht Hk Hfill. pose proof (tr_rep _ _ _ _ _ _ Ht) as Hr. pose proof (tr_point _ _ _ _ _ _ Ht) as Hp.
  destruct (rep_block_at _ _ _ _ _ Hr Hp) as [_ [Hv Hops]]. pose proof Hv as (Hle & _).
  unfold set_inst. apply wp_bind. eapply wp_get_cur; [done|]. cbv beta iota zeta.
  destruct (lookup_lt_is_Some_2 (v_slots (bb_insts blk)) k) as [old Hold]; [lia|].
  apply wp_bind. eapply wp_deref; [exact Hold|]. eapply wp_put_insts; [done|].
  destruct (vec_set_spec (bb_insts blk) k (fill old) Hv Hk) as [Hv' Hit].
  eexists _, _. split_and!.
  - eapply track_trans; [exact Ht|]. apply track_insts; [done..|]. cbn [v_slots].
    apply Forall_insert; [done|]. apply Hfill. rewrite Forall_lookup in Hops. by eapply Hops.
  - done.
  - erewrite fview_insts by done. rewrite Hit, (block_insts_at b1 f fn i blk) by done. f_equal.
    apply list_eq. intros j. destruct (decide (j = k)) as [->|].
    + rewrite list_lookup_alter_eq, vec_lookup, Hold by done. cbn. apply list_lookup_insert_eq.
      by rewrite length_vec_items.
    + by rewrite list_lookup_insert_ne, list_lookup_alter_ne.
Qed.

Lemma alter_last {T} (g : T -> T) l x : alter g (length l) (l ++ [x]) = l ++ [g x].
Proof. induction l as [|y l IH]; [done|]. cbn. by f_equal. Qed.

Lemma block_insts_set a i l ab : af_blocks a !! i = Some ab -> block_insts (af_set_insts a i l) i = l.
Proof. intros Hi. unfold block_insts, af_set_insts. cbn. by rewrite list_lookup_alter_eq, Hi. Qed.

Lemma af_emit_fill a i rt x (fill : Instruction -> Instruction) ab :
  af_blocks a !! i = Some ab ->
  af_set_insts (af_emit a i rt x) i
    (alter fill (length (block_insts a i)) (block_insts (af_emit a i rt x) i)) =
  af_emit a i rt (fill x).
Proof.
  intros Hi. unfold af_emit. rewrite (block_insts_set _ _ _ ab) by done.
  by rewrite af_set_insts_twice, alter_last.
Qed.

Lemma ab_at b f fn i blk :
  rep_ok b -> at_point b f fn i blk -> af_blocks (fview fn) !! i = Some (bview blk).
Proof.
  intros Hr Hp. destruct (rep_block_at _ _ _ _ _ Hr Hp) as [(Hb & _) _]. unfold fview. cbn [af_blocks].
  by rewrite list_lookup_fmap, vec_lookup, (ap_slot _ _ _ _ _ Hp) by (done || apply Hp).
Qed.

(** Emission: without an insert point, in a terminated block or out of memory
    nothing changes; otherwise the block gets the filled-in instruction. *)
Lemma emit_with_wp b op rt loc fill :
  rep_ok b ->
  (forall x, length (i_operands x) = 3%nat -> length (i_operands (fill x)) = 3%nat) ->
  wp (emit_with op rt loc fill)
    (fun vid b' => exists f fn i blk fn' blk' old, at_point b f fn i blk /\ track b f b' fn' i blk' /\
       open_block (fview fn) i = true /\ vid = vid_of (fview fn) rt /\ length old = 3%nat /\
       fview fn' = af_emit (fview fn) i rt
         (fill (mkInst op (vid_of (fview fn) rt) loc 0 old None ImmZero)))
    (fun _ b' => unchanged b b') b.
Proof.
  intros Hr Hfill. unfold emit_with.
  destruct (point_cases b Hr) as [[Hf Hb]|(f & fn & i & blk & Hp)].
  { unfold emit. do 2 apply wp_bind. apply wp_get, wp_bind, wp_guard;
      [rewrite Hf, Hb; done | intros _; by apply unchanged_refl]. }
  apply wp_bind. eapply wp_mono; [by eapply emit_wp| |done].
  intros r b1 (fn1 & blk1 & old & Ht1 & Hopen & -> & Hcnt & Hl & Hv1). cbv beta iota.
  apply wp_bind. eapply wp_mono; [eapply set_inst_wp; [exact Ht1|lia|done]| |done].
  intros _ b2 (fn2 & blk2 & Ht2 & _ & Hv2). apply wp_ret.
  exists f, fn, i, blk, fn2, blk2, old. split_and!; try done. rewrite Hv2, Hv1.
  eapply af_emit_fill, ab_at; done.
Qed.
End emission_wp.
