(* ===== verification/RirTyping.v ===== *)
(** * Well-formed route IR

    What an IR module built by the builder promises to the passes that read
    it: every operand is an earlier value, the value table and the instruction
    results point at each other, a terminator is the last instruction of its
    block, branch targets exist, and every instruction is well typed by
    [sig_ok], a checker with one clause per opcode.  The lemmas say that
    emission, new blocks and new structs keep a function well formed. *)

From S2P Require Import Prelude Rir RirBuilder RirEmit RirLogic.

(** ** Signatures of the opcodes *)

Definition is_str (m : Immediate) : bool := match m with ImmStr _ => true | _ => false end.
Definition is_i32 (m : Immediate) : bool := match m with ImmI32 _ => true | _ => false end.
Definition is_i64 (m : Immediate) : bool := match m with ImmI64 _ => true | _ => false end.
Definition is_bool (m : Immediate) : bool := match m with ImmBool _ => true | _ => false end.
Definition is_method (m : Immediate) : bool := match m with ImmMethod _ => true | _ => false end.
Definition is_zero (m : Immediate) : bool := match m with ImmZero => true | _ => false end.

(** [Optional] of a type of this kind. *)
Definition has_optional (t : option Ty) (k : TypeKind.t) : bool :=
  match t with
  | Some t => bool_decide (ty_kind t = TypeKind.Optional) && has_kind (ty_inner t) k
  | None => false
  end.

(** The operands of a struct literal against the fields. *)
Fixpoint types_match (t : Z -> option Ty) (ops : list Z) (fields : list FieldDef) : bool :=
  match ops, fields with
  | [], [] => true
  | v :: ops', f :: fields' => types_equal (t v) (fd_type f) && types_match t ops' fields'
  | _, _ => false
  end.

(** [t]: the types of the values; [fld]: the struct definitions; [n]: the
    number of blocks; [rt]: the result type, if the instruction defines a
    value. *)
Definition sig_ok (t : Z -> option Ty) (fld : nat -> option StructDef) (n : Z)
    (op : Opcode.t) (ops : list Z) (imm : Immediate) (rt : option Ty) : bool :=
  match op with
  | Opcode.ConstStr | Opcode.ReqParam =>
      match ops with [] => is_str imm && has_kind rt TypeKind.Str | _ => false end
  | Opcode.ConstI32 | Opcode.CtxLoadSlotI32 =>
      match ops with [] => is_i32 imm && has_kind rt TypeKind.I32 | _ => false end
  | Opcode.ConstI64 => match ops with [] => is_i64 imm && has_kind rt TypeKind.I64 | _ => false end
  | Opcode.ConstBool => match ops with [] => is_bool imm && has_kind rt TypeKind.Bool | _ => false end
  | Opcode.ConstDuration =>
      match ops with [] => is_i64 imm && has_kind rt TypeKind.Duration | _ => false end
  | Opcode.ConstByteSize =>
      match ops with [] => is_i64 imm && has_kind rt TypeKind.ByteSize | _ => false end
  | Opcode.ConstMethod =>
      match ops with [] => is_method imm && has_kind rt TypeKind.Method | _ => false end
  | Opcode.ConstStatus =>
      match ops with [] => is_i32 imm && has_kind rt TypeKind.StatusCode | _ => false end
  | Opcode.ReqHeader | Opcode.ReqCookie | Opcode.ReqQuery =>
      match ops with [] => is_str imm && has_optional rt TypeKind.Str | _ => false end
  | Opcode.ReqQueryString =>
      match ops with [] => is_zero imm && has_optional rt TypeKind.Str | _ => false end
  | Opcode.ReqMethod => match ops with [] => is_zero imm && has_kind rt TypeKind.Method | _ => false end
  | Opcode.ReqPath | Opcode.ReqPathOnly | Opcode.ReqBody | Opcode.ReqHttpVersion =>
      match ops with [] => is_zero imm && has_kind rt TypeKind.Str | _ => false end
  | Opcode.ReqKeepAlive | Opcode.ReqChunked | Opcode.ReqHasContentLength | Opcode.ReqHttp10
  | Opcode.ReqHttp11 =>
      match ops with [] => is_zero imm && has_kind rt TypeKind.Bool | _ => false end
  | Opcode.ResumeEventKind | Opcode.ResumeEventResult =>
      match ops with [] => is_zero imm && has_kind rt TypeKind.I32 | _ => false end
  | Opcode.ReqRemoteAddr => match ops with [] => is_zero imm && has_kind rt TypeKind.IP | _ => false end
  | Opcode.ReqContentLength =>
      match ops with [] => is_zero imm && has_kind rt TypeKind.ByteSize | _ => false end
  | Opcode.TimeNow => match ops with [] => is_zero imm && has_kind rt TypeKind.Time | _ => false end
  | Opcode.ReqSetHeader =>
      match ops with [v] => is_str imm && has_kind (t v) TypeKind.Str && null rt | _ => false end
  | Opcode.ReqSetPath =>
      match ops with [v] => is_zero imm && has_kind (t v) TypeKind.Str && null rt | _ => false end
  | Opcode.CtxStoreSlotI32 =>
      match ops with [v] => is_i32 imm && has_kind (t v) TypeKind.I32 && null rt | _ => false end
  | Opcode.StrHasPrefix =>
      match ops with
      | [a; b] => is_zero imm && has_kind (t a) TypeKind.Str && has_kind (t b) TypeKind.Str &&
                  has_kind rt TypeKind.Bool
      | _ => false
      end
  | Opcode.StrTrimPrefix =>
      match ops with
      | [a; b] => is_zero imm && has_kind (t a) TypeKind.Str && has_kind (t b) TypeKind.Str &&
                  has_kind rt TypeKind.Str
      | _ => false
      end
  | Opcode.StrRegexMatch =>
      match ops with
      | [a] => is_str imm && has_kind (t a) TypeKind.Str && has_kind rt TypeKind.Bool
      | _ => false
      end
  | Opcode.StrInterpolate => is_zero imm && has_kind rt TypeKind.Str
  | Opcode.CmpEq | Opcode.CmpNe | Opcode.CmpLt | Opcode.CmpGt | Opcode.CmpLe | Opcode.CmpGe =>
      match ops with
      | [a; b] => is_zero imm && types_equal (t a) (t b) && cmp_type_ok op (t a) &&
                  has_kind rt TypeKind.Bool
      | _ => false
      end
  | Opcode.TimeDiff =>
      match ops with
      | [a; b] => is_zero imm && has_kind (t a) TypeKind.Time && has_kind (t b) TypeKind.Time &&
                  has_kind rt TypeKind.Duration
      | _ => false
      end
  | Opcode.IpInCidr =>
      match ops with
      | [a] => is_str imm && has_kind (t a) TypeKind.IP && has_kind rt TypeKind.Bool
      | _ => false
      end
  | Opcode.OptNil =>
      match ops with [] => is_zero imm && has_kind rt TypeKind.Optional | _ => false end
  | Opcode.OptWrap =>
      match ops, rt with
      | [v], Some r => is_zero imm && bool_decide (ty_kind r = TypeKind.Optional) &&
                       types_equal (ty_inner r) (t v)
      | _, _ => false
      end
  | Opcode.OptIsNil =>
      match ops with
      | [v] => is_zero imm && has_kind (t v) TypeKind.Optional && has_kind rt TypeKind.Bool
      | _ => false
      end
  | Opcode.OptUnwrap =>
      match ops with
      | [v] => is_zero imm && negb (null rt) &&
               match t v with
               | Some o => bool_decide (ty_kind o = TypeKind.Optional) && types_equal (ty_inner o) rt
               | None => false
               end
      | _ => false
      end
  | Opcode.Select =>
      match ops with
      | [c; a; b] => is_zero imm && has_kind (t c) TypeKind.Bool && types_equal (t a) (t b) &&
                     types_equal (t a) rt
      | _ => false
      end
  | Opcode.StructField =>
      match ops, imm with
      | [s], ImmStructRef name ty =>
          has_kind (t s) TypeKind.Struct && types_equal ty rt && negb (null rt) &&
          match mbind ty_struct (t s) with
          | Some k => match fld k with Some sd => field_ok (sd_fields sd) name ty | None => false end
          | None => true
          end
      | _, _ => false
      end
  | Opcode.StructCreate =>
      match imm, mbind ty_struct rt with
      | ImmStructRef name ty, Some k =>
          has_kind rt TypeKind.Struct && types_equal ty rt &&
          match fld k with
          | Some sd => str_eq name (sd_name sd) && types_match t ops (sd_fields sd)
          | None => false
          end
      | _, _ => false
      end
  | Opcode.BodyParse =>
      match ops, imm with
      | [], ImmStructRef _ ty => negb (null rt) && types_equal ty rt
      | _, _ => false
      end
  | Opcode.CounterIncr =>
      match ops with [_] => is_i64 imm && has_kind rt TypeKind.I32 | _ => false end
  | Opcode.Br =>
      match ops, imm with
      | [c], ImmTargets a b =>
          has_kind (t c) TypeKind.Bool && (a <? n) && (b <? n) && null rt
      | _, _ => false
      end
  | Opcode.Jmp =>
      match ops, imm with
      | [], ImmTargets a _ => (a <? n) && null rt
      | _, _ => false
      end
  | Opcode.RetStatus =>
      match ops with
      | [] => is_i64 imm && null rt
      | [_] => is_zero imm && null rt
      | _ => false
      end
  | Opcode.RetForward =>
      match ops with
      | [v] => is_zero imm && (has_kind (t v) TypeKind.I32 || has_kind (t v) TypeKind.U32) && null rt
      | _ => false
      end
  | Opcode.YieldHttpGet =>
      match ops with
      | [] | [_] => is_str imm && has_kind rt TypeKind.Str
      | _ => false
      end
  | Opcode.YieldTimer => match ops with [] => is_i64 imm && null rt | _ => false end
  | _ => false
  end.

(** ** Types *)

Lemma ty_equal_refl t : ty_equal t t = true.
Proof.
  revert t. fix IH 1. intros [k i s]. cbn. rewrite (bool_decide_eq_true_2 (k = k)) by done. cbn.
  destruct (bool_decide (k = TypeKind.Optional \/ k = TypeKind.Array)).
  - destruct i as [i|]; [apply IH | done].
  - destruct (bool_decide (k = TypeKind.Struct)); [|done]. by apply bool_decide_eq_true_2.
Qed.

Lemma types_equal_refl t : types_equal t t = true.
Proof. destruct t as [t|]; [apply ty_equal_refl | done]. Qed.

(** Structs a type mentions exist. *)
Fixpoint ty_ok (n : nat) (t : Ty) : bool :=
  let 'MkTy _ i s := t in
  match i with Some i => ty_ok n i | None => true end &&
  match s with Some k => Nat.ltb k n | None => true end.

Definition oty_ok (n : nat) (t : option Ty) : bool :=
  match t with Some t => ty_ok n t | None => true end.

Lemma ty_ok_mono n n' t : (n <= n')%nat -> ty_ok n t = true -> ty_ok n' t = true.
Proof.
  intros Hn. revert t. fix IH 1. intros [k i s]. cbn. rewrite !andb_true_iff. intros [H1 H2]. split.
  - destruct i as [i|]; [by apply IH | done].
  - destruct s as [s|]; [|done]. apply Nat.ltb_lt in H2. apply Nat.ltb_lt. lia.
Qed.

Lemma ty_ok_struct n t k : ty_ok n t = true -> ty_struct t = Some k -> (k < n)%nat.
Proof. destruct t as [kd i s]. cbn. intros H ->. apply andb_true_iff in H as [_ H]. by apply Nat.ltb_lt. Qed.

(** ** Operands *)

Definition inst_ops (x : Instruction) : list Z :=
  if i_operand_count x <=? 3 then take (Z.to_nat (i_operand_count x)) (i_operands x)
  else i_operands x ++ default [] (i_extra_operands x).

Definition shape_ok (x : Instruction) : Prop :=
  length (i_operands x) = 3%nat /\ 0 <= i_operand_count x /\
  (3 < i_operand_count x -> exists e, i_extra_operands x = Some e /\
     Z.of_nat (length e) = i_operand_count x - 3).

(** [operand(i)] reads the operand list. *)
Lemma operand_spec x i :
  shape_ok x -> Z.of_nat i < i_operand_count x -> operand x i = inst_ops x !! i.
Proof.
  intros (H3 & H0 & He) Hi. unfold operand, inst_ops, kMaxInlineOperands.
  destruct (Z.leb_spec (i_operand_count x) 3).
  - rewrite (proj2 (Nat.ltb_lt i 3)) by lia. by rewrite lookup_take_lt by lia.
  - destruct He as (e & -> & _); [lia|]. cbn [default from_option id].
    destruct (Nat.ltb_spec i 3).
    + by rewrite lookup_app_l by lia.
    + rewrite lookup_app_r by lia. by rewrite H3.
Qed.

Lemma length_inst_ops x : shape_ok x -> Z.of_nat (length (inst_ops x)) = i_operand_count x.
Proof.
  intros (H3 & H0 & He). unfold inst_ops. destruct (Z.leb_spec (i_operand_count x) 3).
  - rewrite length_take. lia.
  - destruct He as (e & -> & Hl); [lia|]. rewrite length_app. cbn. lia.
Qed.

(** ** Functions *)

Definition tyv (a : AFn) (v : Z) : option Ty := mbind v_type (af_values a !! Z.to_nat v).

Definition result_ty (a : AFn) (x : Instruction) : option Ty :=
  if i_result x =? kNoValue then None else tyv a (i_result x).

Definition in_values (a : AFn) (v : Z) : Prop := 0 <= v < Z.of_nat (length (af_values a)).

(** Operands come before the result; the check of an interpolation also lets
    its own result through. *)
Definition earlier (x : Instruction) (o : Z) : Prop :=
  o < i_result x \/ (i_op x = Opcode.StrInterpolate /\ o = i_result x).

(** Instruction [j] of block [k]. *)
Record inst_ok (ss : list StructDef) (a : AFn) (k j : nat) (x : Instruction) : Prop := {
  io_shape : shape_ok x;
  io_ops : Forall (in_values a) (inst_ops x);
  io_result : i_result x = kNoValue \/
    exists r t, i_result x = Z.of_nat r /\
      af_values a !! r = Some (mkValue (Some t) (Z.of_nat k) (Z.of_nat j)) /\
      Forall (earlier x) (inst_ops x);
  io_sig : sig_ok (tyv a) (fun k => ss !! k) (Z.of_nat (length (af_blocks a))) (i_op x) (inst_ops x)
    (i_imm x) (result_ty a x) = true
}.

Record afn_ok (ss : list StructDef) (a : AFn) : Prop := {
  fo_ids k ab : af_blocks a !! k = Some ab -> ab_id ab = Z.of_nat k;
  fo_insts k j x : block_insts a k !! j = Some x -> inst_ok ss a k j x;
  fo_term k j x : block_insts a k !! j = Some x -> is_terminator (i_op x) = true ->
    S j = length (block_insts a k);
  fo_values r v : af_values a !! r = Some v ->
    exists t k j x, v = mkValue (Some t) (Z.of_nat k) (Z.of_nat j) /\ ty_ok (length ss) t = true /\
      block_insts a k !! j = Some x /\ i_result x = Z.of_nat r;
  fo_bound : Z.of_nat (length (af_values a)) <= 2 * kMaxCap;
  fo_resume : let '(_, term, _, bs) := af_resume a in
    length bs = kMaxResumeBlocks /\
    Forall (fun x => x = 0 \/ 0 <= x < Z.of_nat (length (af_blocks a))) (term :: bs)
}.

Definition field_types_ok (ss : list StructDef) : Prop :=
  Forall (fun sd => Forall (fun f => oty_ok (length ss) (fd_type f) = true) (sd_fields sd)) ss.

Record amod_ok (m : AMod) : Prop := {
  mo_fns : Forall (afn_ok (am_structs m)) (am_functions m);
  mo_structs : field_types_ok (am_structs m);
  mo_bodies : NoDup (am_bodies m) /\ (length (am_bodies m) <= kMaxResponseBodies)%nat;
  mo_sets : NoDup (am_sets m) /\ (length (am_sets m) <= kMaxHeaderSets)%nat
}.

(** ** Monotonicity *)

Lemma sig_mono t t' fld fld' n n' op ops imm rt :
  (forall v, v ∈ ops -> t v = t' v) -> (forall k sd, fld k = Some sd -> fld' k = Some sd) -> n <= n' ->
  sig_ok t fld n op ops imm rt = true -> sig_ok t' fld' n' op ops imm rt = true.
Proof.
  intros Ht Hf Hn.
  assert (forall fields, types_match t ops fields = types_match t' ops fields) as Htm.
  { clear -Ht. induction ops as [|v ops IH]; intros [|f fields]; cbn; try done.
    rewrite Ht by left. rewrite IH; [done|]. intros w Hw. apply Ht. by right. }
  assert (forall a, (a <? n) = true -> (a <? n') = true) as Hb
    by (intros a Ha; apply Z.ltb_lt in Ha; apply Z.ltb_lt; lia).
  destruct (decide (op = Opcode.StructCreate)) as [->|Hsc].
  { cbn. destruct imm; try done. destruct (mbind ty_struct rt) as [k|]; [|done].
    destruct (fld k) as [sd|] eqn:E; [|by rewrite andb_false_r]. by rewrite (Hf _ _ E), Htm. }
  destruct ops as [|a [|b [|c [|d ops]]]].
  - destruct op; cbn; try done. destruct imm; try done. rewrite !andb_true_iff. naive_solver.
  - assert (t a = t' a) as Ea by (apply Ht; left). destruct op; cbn; rewrite <- ?Ea; try done.
    + destruct imm; try done. destruct (mbind ty_struct (t a)) as [k|]; [|done].
      destruct (fld k) as [sd|] eqn:E; [by rewrite (Hf _ _ E) | by rewrite andb_false_r].
    + destruct imm; try done. rewrite !andb_true_iff. naive_solver.
  - assert (t a = t' a /\ t b = t' b) as [Ea Eb] by (split; apply Ht; set_solver).
    destruct op; cbn; rewrite <- ?Ea, <- ?Eb; done.
  - assert (t a = t' a /\ t b = t' b /\ t c = t' c) as (Ea & Eb & Ec) by (split_and!; apply Ht; set_solver).
    destruct op; cbn; rewrite <- ?Ea, <- ?Eb, <- ?Ec; done.
  - destruct op; cbn; done.
Qed.

(** ** Emission keeps a function well formed *)

Definition new_values (a : AFn) (i : nat) (rt : option Ty) : list Value :=
  match rt with
  | Some t => [mkValue (Some t) (Z.of_nat i) (Z.of_nat (length (block_insts a i)))]
  | None => []
  end.

Lemma emit_values a i rt x : af_values (af_emit a i rt x) = af_values a ++ new_values a i rt.
Proof. unfold af_emit, new_values. destruct rt; cbn; [done | by rewrite app_nil_r]. Qed.

Lemma emit_insts a i rt x k ab :
  af_blocks a !! i = Some ab ->
  block_insts (af_emit a i rt x) k = if decide (k = i) then block_insts a i ++ [x] else block_insts a k.
Proof.
  intros Hi. case_decide as Hk.
  - subst. unfold af_emit. by rewrite (block_insts_set _ _ _ ab).
  - unfold af_emit, block_insts, af_set_insts. cbn. by rewrite list_lookup_alter_ne.
Qed.

Lemma emit_blocks a i rt x : length (af_blocks (af_emit a i rt x)) = length (af_blocks a).
Proof. unfold af_emit, af_set_insts. cbn. apply length_alter. Qed.

Lemma tyv_app a a' vs v : af_values a' = af_values a ++ vs -> in_values a v -> tyv a' v = tyv a v.
Proof. intros Hv [H0 Hl]. unfold tyv. by rewrite Hv, lookup_app_l by lia. Qed.

(** An instruction stays well formed when values, structs and blocks are
    added. *)
Lemma inst_ok_extend ss ss' a a' k j x vs :
  inst_ok ss a k j x -> af_values a' = af_values a ++ vs -> ss `prefix_of` ss' ->
  (length (af_blocks a) <= length (af_blocks a'))%nat -> inst_ok ss' a' k j x.
Proof.
  intros [Hs Ho Hr Hg] Hv Hss Hb.
  assert (result_ty a' x = result_ty a x) as Hrt.
  { unfold result_ty. destruct (Z.eqb_spec (i_result x) kNoValue) as [|Hne]; [done|].
    destruct Hr as [?|(r & t & -> & Hl & _)]; [done|]. apply lookup_lt_Some in Hl.
    apply (tyv_app _ _ vs); [done|]. unfold in_values. lia. }
  split; [done| | |].
  - eapply Forall_impl; [exact Ho|]. intros o [H0 H1]. unfold in_values. rewrite Hv, length_app. lia.
  - destruct Hr as [?|(r & t & E & Hl & Hf)]; [by left|]. right. exists r, t. split_and!; try done.
    rewrite Hv. by apply lookup_app_l_Some.
  - rewrite Hrt. eapply sig_mono; [| | |exact Hg].
    + intros v Hin. rewrite Forall_forall in Ho. symmetry. apply (tyv_app _ _ vs); [done|]. by apply Ho.
    + intros n sd Hn. exact (prefix_lookup_Some _ _ _ _ Hn Hss).
    + lia.
Qed.

Lemma last_open a i j x :
  open_block a i = true -> block_insts a i !! j = Some x -> is_terminator (i_op x) = true ->
  S j <> length (block_insts a i).
Proof.
  unfold open_block. intros Ho Hj Ht He. rewrite last_lookup in Ho.
  replace (Nat.pred (length (block_insts a i))) with j in Ho by lia.
  rewrite Hj, Ht in Ho. done.
Qed.

(** What the new instruction may use. *)
Definition may_use (a : AFn) (rt : option Ty) (x : Instruction) (o : Z) : Prop :=
  in_values a o \/
  (i_op x = Opcode.StrInterpolate /\ rt <> None /\ o = Z.of_nat (length (af_values a))).

Lemma afn_emit_ok ss a i ab rt x :
  afn_ok ss a -> af_blocks a !! i = Some ab -> open_block a i = true ->
  shape_ok x -> Forall (may_use a rt x) (inst_ops x) -> i_result x = vid_of a rt ->
  oty_ok (length ss) rt = true ->
  sig_ok (tyv a) (fun k => ss !! k) (Z.of_nat (length (af_blocks a))) (i_op x) (inst_ops x) (i_imm x) rt = true ->
  Z.of_nat (length (af_values (af_emit a i rt x))) <= 2 * kMaxCap ->
  afn_ok ss (af_emit a i rt x).
Proof.
  intros [Hids Hins Hterm Hvals Hbnd Hres] Hi Hopen Hsh Hops Hr Hty Hsig Hb.
  assert (inst_ok ss (af_emit a i rt x) i (length (block_insts a i)) x) as Hnew.
  { assert (result_ty (af_emit a i rt x) x = rt) as Hrt.
    { unfold result_ty. rewrite Hr. destruct rt as [t|]; cbn [vid_of]; [|by rewrite Z.eqb_refl].
      unfold kMaxCap, kNoValue in *. rewrite emit_values, length_app in Hb. cbn in Hb.
      rewrite (proj2 (Z.eqb_neq _ _)) by lia. unfold tyv. rewrite emit_values, Nat2Z.id.
      by rewrite lookup_app_r, Nat.sub_diag by lia. }
    split; [done| | |].
    - eapply Forall_impl; [exact Hops|]. intros o Ho. unfold in_values.
      rewrite emit_values, length_app. destruct Ho as [[? ?]|(_ & Hn & ->)]; [lia|].
      destruct rt; [cbn; lia|done].
    - destruct rt as [t|]; cbn [vid_of] in Hr; [right|by left]. exists (length (af_values a)), t.
      rewrite emit_values, lookup_app_r, Nat.sub_diag by lia. split_and!; try done.
      eapply Forall_impl; [exact Hops|]. intros o [[? ?]|(? & _ & ->)]; [left; lia|by right].
    - rewrite Hrt, emit_blocks.
      destruct (decide (i_op x = Opcode.StrInterpolate)) as [E|Hne]; [by rewrite E in *|].
      eapply sig_mono; [| |reflexivity|exact Hsig]; [|done].
      intros v Hin. rewrite Forall_forall in Hops. symmetry.
      apply (tyv_app _ _ (new_values a i rt)); [apply emit_values|].
      destruct (Hops v Hin) as [?|(? & _)]; done. }
  split.
  - intros k ab'. unfold af_emit, af_set_insts. cbn. rewrite list_lookup_alter.
    case_decide as Hk.
    + subst. rewrite Hi. cbn. intros [= <-]. by apply (Hids k ab).
    + apply Hids.
  - intros k j y. rewrite (emit_insts _ _ _ _ _ ab) by done. intros Hy. case_decide as Hk; [subst k|].
    + apply lookup_app_Some in Hy as [Hy|[Hge Hy]].
      * eapply inst_ok_extend; [by apply Hins|apply emit_values|done|by rewrite emit_blocks].
      * apply list_lookup_singleton_Some in Hy as [Hz <-].
        by replace j with (length (block_insts a i)) by lia.
    + eapply inst_ok_extend; [by apply Hins|apply emit_values|done|by rewrite emit_blocks].
  - intros k j y. rewrite (emit_insts _ _ _ _ _ ab) by done. intros Hy Ht. case_decide as Hk; [subst k|by eapply Hterm].
    apply lookup_app_Some in Hy as [Hy|[Hge Hy]].
    + exfalso. pose proof (Hterm _ _ _ Hy Ht). by eapply last_open.
    + apply list_lookup_singleton_Some in Hy as [Hz _]. rewrite length_app. cbn. lia.
  - intros r v. rewrite emit_values. intros Hv. apply lookup_app_Some in Hv as [Hv|[Hge Hv]].
    + destruct (Hvals _ _ Hv) as (t & k & j & y & -> & Ht & Hy & Hry). exists t, k, j, y.
      split_and!; try done. rewrite (emit_insts _ _ _ _ _ ab) by done. case_decide; [|done]. subst.
      by apply lookup_app_l_Some.
    + destruct rt as [t|]; cbn [new_values] in Hv; [|by rewrite lookup_nil in Hv].
      apply list_lookup_singleton_Some in Hv as [Hz <-].
      exists t, i, (length (block_insts a i)), x. split_and!; try done.
      * rewrite (emit_insts _ _ _ _ _ ab) by done. rewrite decide_True by done.
        by rewrite lookup_app_r, Nat.sub_diag by lia.
      * rewrite Hr. cbn [vid_of]. f_equal. lia.
  - done.
  - unfold af_emit, af_set_insts. cbn. destruct (af_resume a) as [[[z term] e] bs].
    by rewrite length_alter.
Qed.

(** New struct definitions and new blocks. *)
Lemma afn_ok_structs ss ss' a : afn_ok ss a -> ss `prefix_of` ss' -> afn_ok ss' a.
Proof.
  intros [Hids Hins Hterm Hvals Hbnd Hres] Hss. split; try done.
  - intros k j x Hx. eapply (inst_ok_extend _ _ _ _ _ _ _ []); [by apply Hins|by rewrite app_nil_r|done|done].
  - intros r v Hv. destruct (Hvals _ _ Hv) as (t & k & j & y & -> & Ht & Hy). exists t, k, j, y.
    split_and!; [done| |apply Hy|apply Hy]. eapply ty_ok_mono; [|exact Ht]. by apply prefix_length.
Qed.

Definition af_add_block (a : AFn) (ab : ABlock) : AFn :=
  mkAFn (af_name a) (af_route a) (af_method a) (af_blocks a ++ [ab]) (af_values a)
    (af_yield_count a) (af_payload a) (af_kinds a) (af_resume a).

Lemma afn_ok_block ss a label :
  afn_ok ss a -> afn_ok ss (af_add_block a (mkAB (Z.of_nat (length (af_blocks a))) label [])).
Proof.
  intros [Hids Hins Hterm Hvals Hbnd Hres]. set (a' := af_add_block _ _).
  assert (forall k, block_insts a' k = block_insts a k) as Hbi.
  { intros k. unfold block_insts, a', af_add_block. cbn [af_blocks].
    destruct (decide (k < length (af_blocks a))%nat) as [Hk|Hk].
    - by rewrite lookup_app_l.
    - rewrite lookup_app_r, (lookup_ge_None_2 (af_blocks a)) by lia.
      destruct (k - length (af_blocks a))%nat as [|[]]; done. }
  split.
  - intros k ab Hab. apply lookup_app_Some in Hab as [Hab|[Hge Hab]]; [by apply Hids|].
    apply list_lookup_singleton_Some in Hab as [Hz <-]. cbn. lia.
  - intros k j x. rewrite Hbi. intros Hx.
    eapply (inst_ok_extend _ _ _ _ _ _ _ []); [by apply Hins|cbn; by rewrite app_nil_r|done|].
    cbn. rewrite length_app. lia.
  - intros k j x. rewrite Hbi. apply Hterm.
  - intros r v Hv. destruct (Hvals _ _ Hv) as (t & k & j & y & -> & Ht & Hy). exists t, k, j, y.
    rewrite Hbi. split_and!; try done; apply Hy.
  - done.
  - cbn. destruct (af_resume a) as [[[z term] e] bs]. destruct Hres as [Hl Hf]. split; [done|].
    eapply Forall_impl; [exact Hf|]. cbn. rewrite length_app. cbn. lia.
Qed.

(** Changes outside the blocks and the values. *)
Lemma afn_ok_meta ss a yc p k res :
  afn_ok ss a ->
  (let '(_, term, _, bs) := res in length bs = kMaxResumeBlocks /\
    Forall (fun x => x = 0 \/ 0 <= x < Z.of_nat (length (af_blocks a))) (term :: bs)) ->
  afn_ok ss (mkAFn (af_name a) (af_route a) (af_method a) (af_blocks a) (af_values a) yc p k res).
Proof.
  intros [Hids Hins Hterm Hvals Hbnd Hres] Hr. split; try done.
  intros k' j x Hx. eapply (inst_ok_extend _ _ _ _ _ _ _ []);
    [by apply Hins|cbn; by rewrite app_nil_r|done|done].
Qed.
