(* ===== verification/RirBuilderOk.v ===== *)
(** * The builder keeps the IR well formed

    Every emission, from a well-formed builder, ends without a fault; when it
    fails the module is as before, when it succeeds the module is again well
    formed and one instruction was appended at the insert point.  One operation
    is different: a struct literal with more than three fields that runs out of
    memory leaves an instruction without its operands behind ([leaks]). *)

From S2P Require Import Prelude HandlerAbi Rir RirBuilder RirEmit RirLogic RirTyping.
Open Scope rir_scope.

(** ** Filling in an instruction *)

(** [fill] gives a fresh instruction these operands and this immediate. *)
Definition fills (fill : Instruction -> Instruction) (ops : list Z) (imm : Immediate) : Prop :=
  forall op vid loc old, length old = 3%nat ->
    let x := fill (mkInst op vid loc 0 old None ImmZero) in
    i_op x = op /\ i_result x = vid /\ i_loc x = loc /\ shape_ok x /\ inst_ops x = ops /\ i_imm x = imm.

Lemma with_operands_shape ops x :
  (length ops <= 3)%nat -> length (i_operands x) = 3%nat ->
  shape_ok (with_operands ops x) /\ inst_ops (with_operands ops x) = ops.
Proof.
  intros Hl H3. unfold shape_ok, inst_ops, with_operands. cbn.
  rewrite length_app, length_drop, H3. split; [split_and!; lia|].
  rewrite (proj2 (Z.leb_le _ _)) by lia. by rewrite Nat2Z.id, take_app_length.
Qed.

Lemma fills_imm imm : fills (with_imm imm) [] imm.
Proof. intros op vid loc old H3. cbv zeta. unfold shape_ok. cbn. split_and!; done || lia. Qed.

Lemma fills_ops_imm ops imm :
  (length ops <= 3)%nat -> fills (fun i => with_operands ops (with_imm imm i)) ops imm.
Proof.
  intros Hl op vid loc old H3. cbv zeta. split_and!; try done; by apply with_operands_shape.
Qed.

Lemma fills_imm_ops ops imm :
  (length ops <= 3)%nat -> fills (fun i => with_imm imm (with_operands ops i)) ops imm.
Proof.
  intros Hl op vid loc old H3. cbv zeta.
  destruct (with_operands_shape ops (mkInst op vid loc 0 old None ImmZero) Hl H3) as [Hs Ho].
  split_and!; done.
Qed.

Lemma fills_ops ops : (length ops <= 3)%nat -> fills (with_operands ops) ops ImmZero.
Proof.
  intros Hl op vid loc old H3. cbv zeta. split_and!; try done; by apply with_operands_shape.
Qed.

Lemma fills_id : fills (fun i => i) [] ImmZero.
Proof. intros op vid loc old H3. cbv zeta. unfold shape_ok. cbn. split_and!; done || lia. Qed.

(** The writes keep the three inline slots. *)
Definition keeps3 (fill : Instruction -> Instruction) : Prop :=
  forall x, length (i_operands x) = 3%nat -> length (i_operands (fill x)) = 3%nat.

Lemma keeps3_ops ops : (length ops <= 3)%nat -> keeps3 (with_operands ops).
Proof. intros Hl x H3. cbn. rewrite length_app, length_drop. lia. Qed.

Lemma keeps3_imm imm : keeps3 (with_imm imm).
Proof. by intros x. Qed.

Section builder_ok.
Context {A : Type} `{HB : Bump A}.
Implicit Types (b : Builder A).

Definition builder_ok b : Prop := rep_ok b /\ amod_ok (mview (b_mod b)).

Lemma unchanged_ok b b' : builder_ok b -> unchanged b b' -> builder_ok b'.
Proof. intros [_ Hm] (Hr & Hv & _). split; [done|]. by rewrite Hv. Qed.

Definition structs b : list StructDef := am_structs (mview (b_mod b)).

(** ** Emission *)

(** One instruction with this opcode and location was appended at the insert
    point. *)
Definition emitted b b' (op : Opcode.t) (loc : SourceLoc) : Prop :=
  exists f a i rt x, b_cur_func b = Some f /\ b_cur_block_id b = Z.of_nat i /\
    am_functions (mview (b_mod b)) !! f = Some a /\ open_block a i = true /\
    i_op x = op /\ i_loc x = loc /\
    mview (b_mod b') = am_set (mview (b_mod b)) f (af_emit a i rt x) /\
    b_cur_func b' = b_cur_func b /\ b_cur_block_id b' = b_cur_block_id b.

Lemma fn_ok_at b f fn i blk :
  builder_ok b -> at_point b f fn i blk -> afn_ok (structs b) (fview fn).
Proof.
  intros [_ Hm] Hp. pose proof (mo_fns _ Hm) as Hf. rewrite Forall_lookup in Hf. apply (Hf f).
  cbn. by rewrite list_lookup_fmap, (ap_fn _ _ _ _ _ Hp).
Qed.

Lemma amod_set b f fn i blk a :
  builder_ok b -> at_point b f fn i blk -> afn_ok (structs b) a ->
  amod_ok (am_set (mview (b_mod b)) f a).
Proof. intros [_ [H1 H2 H3 H4]] Hp Ha. split; cbn; try done. by apply Forall_insert. Qed.

Lemma at_point_arena b b1 f fn i blk : arena_eq b b1 -> at_point b1 f fn i blk -> at_point b f fn i blk.
Proof.
  intros Heq [P1 P2 P3 P4 P5 P6]. destruct (arena_eq_fields _ _ Heq) as (Hf & _).
  destruct Heq as [_ E1 E2 E3]. split; congruence.
Qed.

(** The appended instruction only has to satisfy its signature. *)
Lemma emitted_ok b b' f fn i blk fn' blk' op rt loc x ops imm :
  builder_ok b -> at_point b f fn i blk -> track b f b' fn' i blk' -> open_block (fview fn) i = true ->
  oty_ok (length (structs b)) rt = true ->
  fview fn' = af_emit (fview fn) i rt x ->
  i_op x = op -> i_result x = vid_of (fview fn) rt -> i_loc x = loc -> shape_ok x ->
  inst_ops x = ops -> i_imm x = imm -> Forall (may_use (fview fn) rt x) ops ->
  sig_ok (tyv (fview fn)) (fun k => structs b !! k) (Z.of_nat (length (af_blocks (fview fn)))) op ops imm rt = true ->
  builder_ok b' /\ emitted b b' op loc.
Proof.
  intros Hb Hp Ht Hopen Hty Hv Hop Hres Hloc Hsh Hops Himm Hin Hsig.
  pose proof (tr_rep _ _ _ _ _ _ Ht) as Hr'. pose proof (tr_point _ _ _ _ _ _ Ht) as Hp'.
  destruct (rep_block_at _ _ _ _ _ Hr' Hp') as [(_ & Hvs & _) _].
  assert (Z.of_nat (length (af_values (fview fn'))) <= 2 * kMaxCap) as Hbnd.
  { unfold fview. cbn [af_values]. rewrite length_vec_items by done. destruct Hvs as (? & _ & Hc).
    unfold v_cap in Hc. lia. }
  destruct Hb as [Hr Hm] eqn:Eb. clear Eb. assert (builder_ok b) as Hb' by (by split).
  split.
  - split; [done|]. rewrite (tr_view _ _ _ _ _ _ Ht). eapply amod_set; [done..|]. rewrite Hv in *.
    eapply afn_emit_ok; try done; [by eapply fn_ok_at | by eapply ab_at | by rewrite Hops | by subst].
  - exists f, (fview fn), i, rt, x. destruct Hp as [P1 P2 P3 P4 P5 P6].
    split_and!; try done.
    + cbn. by rewrite list_lookup_fmap, P2.
    + by rewrite (tr_view _ _ _ _ _ _ Ht), Hv.
    + rewrite (ap_func _ _ _ _ _ Hp'). done.
    + rewrite (ap_id _ _ _ _ _ Hp'). done.
Qed.

(** [b1] is [b] after types were made for the emission. *)
Lemma emitted_arena b b1 b' op loc : arena_eq b b1 -> emitted b1 b' op loc -> emitted b b' op loc.
Proof.
  intros Heq (f & a & i & rt & x & H1 & H2 & H3 & H4 & H5 & H6 & H7 & H8 & H9).
  destruct (arena_eq_fields _ _ Heq) as (_ & _ & _ & Hm & _). destruct Heq as [_ E1 E2 E3].
  rewrite Hm in *. exists f, a, i, rt, x. split_and!; congruence.
Qed.

Lemma unchanged_arena b b1 b' : arena_eq b b1 -> unchanged b1 b' -> unchanged b b'.
Proof.
  intros Heq (H1 & H2 & H3 & H4). destruct (arena_eq_fields _ _ Heq) as (_ & _ & _ & Hm & _).
  destruct Heq as [_ E1 E2 E3]. split_and!; [done|congruence..].
Qed.

Lemma ok_arena b b1 : builder_ok b -> arena_eq b b1 -> rep_ok b1 -> builder_ok b1 /\ structs b1 = structs b.
Proof.
  intros [_ Hm] Heq Hr. destruct (arena_eq_fields _ _ Heq) as (_ & _ & _ & E & _).
  unfold structs. split; [split; [done|]; by rewrite E | by rewrite E].
Qed.

Lemma in_values_use a rt x ops : Forall (in_values a) ops -> Forall (may_use a rt x) ops.
Proof. intros Hf. eapply Forall_impl; [exact Hf|]. by left. Qed.

Definition sig_at b (op : Opcode.t) (ops : list Z) (imm : Immediate) (rt : option Ty) : Prop :=
  forall f fn i blk, at_point b f fn i blk -> Forall (in_values (fview fn)) ops /\
    sig_ok (tyv (fview fn)) (fun k => structs b !! k) (Z.of_nat (length (af_blocks (fview fn))))
      op ops imm rt = true.

Lemma emit_ok b b1 op rt loc fill ops imm :
  builder_ok b -> arena_eq b b1 -> rep_ok b1 -> oty_ok (length (structs b)) rt = true ->
  fills fill ops imm -> keeps3 fill -> sig_at b op ops imm rt ->
  wp (emit_with op rt loc fill)
    (fun _ b' => builder_ok b' /\ emitted b b' op loc) (fun _ b' => unchanged b b') b1.
Proof.
  intros Hb Heq Hr1 Hty Hfill Hk Hsig. destruct (ok_arena _ _ Hb Heq Hr1) as [Hb1 Hs].
  eapply wp_mono; [by apply emit_with_wp| |intros e b'; by apply unchanged_arena].
  intros vid b' (f & fn & i & blk & fn' & blk' & old & Hp & Ht & Hopen & -> & Hl & Hv).
  destruct (Hfill op (vid_of (fview fn) rt) loc old Hl) as (F1 & F2 & F3 & F4 & F5 & F6).
  destruct (Hsig f fn i blk (at_point_arena _ _ _ _ _ _ Heq Hp)) as [Hin Hsg]. rewrite <- Hs in *.
  destruct (emitted_ok b1 b' f fn i blk fn' blk' op rt loc _ ops imm Hb1 Hp Ht Hopen Hty Hv
    F1 F2 F3 F4 F5 F6 (in_values_use _ _ _ _ Hin) Hsg) as [H1 H2].
  split; [done|]. by eapply emitted_arena.
Qed.

(** Emission without anything to fill in. *)
Lemma emit0_ok b b1 op rt loc :
  builder_ok b -> arena_eq b b1 -> rep_ok b1 -> oty_ok (length (structs b)) rt = true ->
  sig_at b op [] ImmZero rt ->
  wp ('(_, vid) <- emit op rt loc ;; ret vid)
    (fun _ b' => builder_ok b' /\ emitted b b' op loc) (fun _ b' => unchanged b b') b1.
Proof.
  intros Hb Heq Hr1 Hty Hsig. destruct (ok_arena _ _ Hb Heq Hr1) as [Hb1 Hs].
  destruct (point_cases b1 Hr1) as [[Hf Hbl]|(f & fn & i & blk & Hp)].
  { apply wp_bind. unfold emit. apply wp_bind, wp_get, wp_bind, wp_guard;
      [rewrite Hf, Hbl; done | intros _; by eapply unchanged_arena, unchanged_refl]. }
  apply wp_bind. eapply wp_mono; [by eapply emit_wp| |intros e b'; by apply unchanged_arena].
  intros r b' (fn' & blk' & old & Ht & Hopen & -> & _ & Hl & Hv). cbv beta iota. apply wp_ret.
  destruct (fills_id op (vid_of (fview fn) rt) loc old Hl) as (F1 & F2 & F3 & F4 & F5 & F6).
  destruct (Hsig f fn i blk (at_point_arena _ _ _ _ _ _ Heq Hp)) as [Hin Hsg]. rewrite <- Hs in *.
  destruct (emitted_ok b1 b' f fn i blk fn' blk' op rt loc _ [] ImmZero Hb1 Hp Ht Hopen Hty Hv
    F1 F2 F3 F4 F5 F6 (in_values_use _ _ _ _ Hin) Hsg) as [H1 H2].
  split; [done|]. by eapply emitted_arena.
Qed.

(** ** Types and operands *)

Lemma make_type_wp b kind inner sd :
  rep_ok b ->
  wp (make_type kind inner sd)
    (fun t b' => t = MkTy kind inner sd /\ arena_eq b b' /\ rep_ok b') (fun _ b' => unchanged b b') b.
Proof.
  intros Hr. unfold make_type.
  apply wp_bind, wp_guard; [intros _|intros _; by apply unchanged_refl].
  apply wp_bind, wp_guard; [intros _|intros _; by apply unchanged_refl].
  apply wp_bind, wp_get. cbv zeta. set (primitive := null inner && null sd && _).
  assert (Hmake : wp (t <- arena_alloc sizeof_Type ;;
      some_or t OutOfMemory ;;;
      let t := MkTy kind inner sd in
      b <- get ;;
      put (if primitive then set_cache b (<[TypeKind.code kind := Some t]> (b_type_cache b)) else b) ;;;
      ret t)
    (fun t b' => t = MkTy kind inner sd /\ arena_eq b b' /\ rep_ok b') (fun _ b' => unchanged b b') b).
  { apply wp_bind, wp_lift_alloc. intros p b1 Heq Hc.
    assert (cache_ok b1) as Hc1 by (eapply cache_same; [done|apply Hr]).
    apply wp_bind, wp_some_or; [intros p' _|intros _; by apply arena_eq_unchanged].
    cbv zeta. apply wp_bind, wp_get, wp_bind, wp_put, wp_ret. split; [done|].
    destruct primitive eqn:Ep.
    - assert (arena_eq b (set_cache b1 (<[TypeKind.code kind := Some (MkTy kind inner sd)]> (b_type_cache b1))))
        as Heq' by (destruct Heq; split; done).
      split; [done|]. eapply arena_eq_rep; [done| |done].
      unfold primitive in Ep. apply andb_true_iff in Ep as [Ep _]. apply andb_true_iff in Ep as [E1 E2].
      destruct inner; [done|]. destruct sd; [done|].
      destruct Hc1 as [Hl Hc1]. split; cbn; [by rewrite length_insert|].
      intros k t. rewrite list_lookup_insert. case_decide as Hd; [|apply Hc1].
      intros [= <-]. f_equal. destruct Hd as [Hd _]. by destruct kind, k.
    - split; [done|]. by eapply arena_eq_rep. }
  destruct (if primitive then mjoin (b_type_cache b !! TypeKind.code kind) else None) as [t|] eqn:E;
    [|done].
  apply wp_ret. destruct primitive eqn:Ep; [|done]. unfold primitive in Ep.
  apply andb_true_iff in Ep as [Ep _]. apply andb_true_iff in Ep as [E1 E2].
  destruct inner; [done|]. destruct sd; [done|].
  split_and!; [|apply arena_eq_refl|done].
  destruct (b_type_cache b !! TypeKind.code kind) as [[t'|]|] eqn:Ec; try done. cbn in E.
  injection E as ->. by apply (ro_cache _ Hr).
Qed.

Lemma optional_str_wp b :
  rep_ok b ->
  wp optional_str
    (fun t b' => t = MkTy TypeKind.Optional (Some (MkTy TypeKind.Str None None)) None /\
       arena_eq b b' /\ rep_ok b') (fun _ b' => unchanged b b') b.
Proof.
  intros Hr. unfold optional_str, prim. apply wp_bind.
  eapply wp_mono; [by apply make_type_wp| |done]. intros t b1 (-> & Heq & Hr1).
  eapply wp_mono; [by apply make_type_wp| |intros e b'; by apply unchanged_arena].
  intros t b2 (-> & Heq2 & Hr2). split_and!; [done| |done]. by eapply arena_eq_trans.
Qed.

(** A valid operand is a value of the function at the insert point. *)
Lemma cur_fn_at b f fn i blk : at_point b f fn i blk -> cur_fn b = Some fn.
Proof. intros Hp. unfold cur_fn. rewrite (ap_func _ _ _ _ _ Hp). apply Hp. Qed.

Lemma valid_at b f fn i blk v :
  rep_ok b -> at_point b f fn i blk -> 0 <= v -> valid_val b v = true ->
  in_values (fview fn) v /\ type_of b v = tyv (fview fn) v.
Proof.
  intros Hr Hp Hv H. destruct (rep_block_at _ _ _ _ _ Hr Hp) as [(_ & Hvs & _) _].
  unfold valid_val in H. rewrite (cur_fn_at _ _ _ _ _ Hp) in H. apply andb_true_iff in H as [_ H].
  apply Z.ltb_lt in H. unfold value_count in H. unfold in_values, tyv, fview, type_of.
  cbn [af_values]. rewrite (cur_fn_at _ _ _ _ _ Hp), length_vec_items by done. split; [lia|].
  rewrite vec_lookup by (done || lia). done.
Qed.

Lemma has_type_at b f fn i blk v k :
  rep_ok b -> at_point b f fn i blk -> 0 <= v -> val_has_type b v k = true ->
  in_values (fview fn) v /\ has_kind (tyv (fview fn) v) k = true.
Proof.
  intros Hr Hp Hv H. apply andb_true_iff in H as [H1 H2].
  destruct (valid_at _ _ _ _ _ _ Hr Hp Hv H1) as [H3 H4]. by rewrite H4 in H2.
Qed.

Lemma block_in_at b f fn i blk k :
  rep_ok b -> at_point b f fn i blk -> block_in b k = true ->
  (k <? Z.of_nat (length (af_blocks (fview fn)))) = true.
Proof.
  intros Hr Hp. destruct (rep_block_at _ _ _ _ _ Hr Hp) as [(Hb & _) _].
  unfold block_in. rewrite (cur_fn_at _ _ _ _ _ Hp). unfold block_count, fview. cbn [af_blocks].
  by rewrite length_fmap, length_vec_items.
Qed.

(** The type of a value only mentions existing structs. *)
Lemma value_type_ok b f fn i blk v t :
  builder_ok b -> at_point b f fn i blk -> tyv (fview fn) v = Some t ->
  ty_ok (length (structs b)) t = true.
Proof.
  intros Hb Hp Ht. pose proof (fn_ok_at _ _ _ _ _ Hb Hp) as Hf. unfold tyv in Ht.
  destruct (af_values (fview fn) !! Z.to_nat v) as [w|] eqn:E; [|done]. cbn in Ht.
  destruct (fo_values _ _ Hf _ _ E) as (t' & k & j & x & -> & Hok & _). cbn in Ht. by injection Ht as <-.
Qed.

(** ** Every emission *)

Definition emits b {R} (m : M A R) (op : Opcode.t) (loc : SourceLoc) : Prop :=
  wp m (fun _ b' => builder_ok b' /\ emitted b b' op loc) (fun _ b' => unchanged b b') b.

(** Read the state, test, make the types; then emit. *)
Ltac split_bools :=
  repeat match goal with H : _ && _ = true |- _ => apply andb_true_iff in H as [? ?] end.

Ltac step :=
  match goal with
  | |- wp (bind get _) _ _ _ => apply wp_bind, wp_get; cbv beta
  | Hb : builder_ok ?b |- wp (bind (guard _ _) _) _ _ ?b =>
      apply wp_bind, wp_guard; [intros ?; split_bools | intros _; apply unchanged_refl, Hb]
  | Hb : builder_ok ?b |- wp (bind (prim _) _) _ _ ?b =>
      apply wp_bind; eapply wp_mono; [apply make_type_wp, Hb | intros ? ? (-> & ? & ?) | done]
  | Hb : builder_ok ?b |- wp (bind optional_str _) _ _ ?b =>
      apply wp_bind; eapply wp_mono; [apply optional_str_wp, Hb | intros ? ? (-> & ? & ?) | done]
  | Hb : builder_ok ?b |- wp (bind (make_type _ _ _) _) _ _ ?b =>
      apply wp_bind; eapply wp_mono; [apply make_type_wp, Hb | intros ? ? (-> & ? & ?) | done]
  end.

(** The facts that the guards established, at the insert point. *)
Ltac guard_facts :=
  repeat match goal with
  | Hb : builder_ok ?b, Hp : at_point ?b _ _ _ _, Hv : 0 <= ?v, H : val_has_type ?b ?v _ = true |- _ =>
      let H1 := fresh in let H2 := fresh in
      destruct (has_type_at _ _ _ _ _ _ _ (proj1 Hb) Hp Hv H) as [H1 H2]; clear H
  | Hb : builder_ok ?b, Hp : at_point ?b _ _ _ _, Hv : 0 <= ?v, H : valid_val ?b ?v = true |- _ =>
      let H1 := fresh in let H2 := fresh in
      destruct (valid_at _ _ _ _ _ _ (proj1 Hb) Hp Hv H) as [H1 H2]; clear H;
      try rewrite H2 in *
  | Hb : builder_ok ?b, Hp : at_point ?b _ _ _ _, H : block_in ?b _ = true |- _ =>
      apply (block_in_at _ _ _ _ _ _ (proj1 Hb) Hp) in H
  end.

Ltac all_in := repeat (apply List.Forall_cons; [assumption|]); apply List.Forall_nil.

Ltac by_sig :=
  let Hp := fresh "Hp" in
  intros ? ? ? ? Hp; guard_facts;
  split; [all_in|];
  cbn [sig_ok is_str is_i32 is_i64 is_bool is_method is_zero];
  repeat match goal with
    | H : _ = true |- context [?x] => progress rewrite H
    end; try reflexivity.

Ltac by_fill :=
  first [ apply fills_imm | apply fills_ops; cbn; lia | apply fills_ops_imm; cbn; lia
        | apply fills_imm_ops; cbn; lia ].

Ltac by_keep :=
  first [ apply keeps3_imm | apply keeps3_ops; cbn; lia
        | intros ? ?; apply keeps3_ops; [cbn; lia | done]
        | intros ? ?; apply keeps3_imm; apply keeps3_ops; [cbn; lia | done] ].

Ltac by_rep :=
  first [eassumption | match goal with Hb : builder_ok ?b |- rep_ok ?b => exact (proj1 Hb) end].

Ltac do_emit :=
  unfold emits; repeat step;
  lazymatch goal with
  | |- wp (bind (emit_with _ _ _ _) _) _ _ _ =>
      apply wp_bind; eapply wp_mono;
      [eapply emit_ok; [eassumption | first [eassumption | apply arena_eq_refl] |
         by_rep | try reflexivity | by_fill | by_keep | by_sig]
      | intros ? ? ?; apply wp_ret; assumption | done]
  | |- wp (emit_with _ _ _ _) _ _ _ =>
      eapply emit_ok; [eassumption | first [eassumption | apply arena_eq_refl] |
        by_rep | try reflexivity | by_fill | by_keep | by_sig]
  | |- wp (bind (emit _ _ _) _) _ _ _ =>
      eapply emit0_ok; [eassumption | first [eassumption | apply arena_eq_refl] |
        by_rep | try reflexivity | by_sig]
  end.

Lemma emit_consts_ok b val i m loc (bv : bool) :
  builder_ok b ->
  emits b (emit_const_str val loc) Opcode.ConstStr loc /\
  emits b (emit_const_i32 i loc) Opcode.ConstI32 loc /\
  emits b (emit_const_i64 i loc) Opcode.ConstI64 loc /\
  emits b (emit_const_bool bv loc) Opcode.ConstBool loc /\
  emits b (emit_const_duration i loc) Opcode.ConstDuration loc /\
  emits b (emit_const_bytesize i loc) Opcode.ConstByteSize loc /\
  emits b (emit_const_method m loc) Opcode.ConstMethod loc /\
  emits b (emit_const_status i loc) Opcode.ConstStatus loc.
Proof.
  intros Hb. split_and!; unfold emit_const_str, emit_const_i32, emit_const_i64, emit_const_bool,
    emit_const_duration, emit_const_bytesize, emit_const_method, emit_const_status; do_emit.
Qed.

Lemma emit_plain_ok b op kind loc :
  builder_ok b ->
  (forall t fld n, sig_ok t fld n op [] ImmZero (Some (MkTy kind None None)) = true) ->
  emits b (emit_plain op kind loc) op loc.
Proof.
  intros Hb Hsig. unfold emits, emit_plain. step.
  eapply emit0_ok; [done..|]. intros f fn i blk Hp. split; [constructor | apply Hsig].
Qed.

Lemma emit_req_ok b name slot loc :
  builder_ok b ->
  emits b (emit_req_header name loc) Opcode.ReqHeader loc /\
  emits b (emit_req_param name loc) Opcode.ReqParam loc /\
  emits b (emit_ctx_load_slot_i32 slot loc) Opcode.CtxLoadSlotI32 loc /\
  emits b (emit_req_cookie name loc) Opcode.ReqCookie loc /\
  emits b (emit_req_query name loc) Opcode.ReqQuery loc /\
  emits b (emit_req_query_string loc) Opcode.ReqQueryString loc.
Proof.
  intros Hb. split_and!; unfold emit_req_header, emit_req_param, emit_ctx_load_slot_i32,
    emit_req_cookie, emit_req_query, emit_req_query_string; do_emit.
Qed.

Lemma emit_set_ok b name slot v loc :
  builder_ok b -> 0 <= v ->
  emits b (emit_req_set_header name v loc) Opcode.ReqSetHeader loc /\
  emits b (emit_req_set_path v loc) Opcode.ReqSetPath loc /\
  emits b (emit_ctx_store_slot_i32 slot v loc) Opcode.CtxStoreSlotI32 loc.
Proof.
  intros Hb Hv. split_and!; unfold emit_req_set_header, emit_req_set_path, emit_ctx_store_slot_i32; do_emit.
Qed.

Lemma emit_str_ok b s p pat loc :
  builder_ok b -> 0 <= s -> 0 <= p ->
  emits b (emit_str_has_prefix s p loc) Opcode.StrHasPrefix loc /\
  emits b (emit_str_trim_prefix s p loc) Opcode.StrTrimPrefix loc /\
  emits b (emit_str_regex_match s pat loc) Opcode.StrRegexMatch loc /\
  emits b (emit_time_diff s p loc) Opcode.TimeDiff loc /\
  emits b (emit_ip_in_cidr s pat loc) Opcode.IpInCidr loc.
Proof.
  intros Hb Hs Hp. split_and!; unfold emit_str_has_prefix, emit_str_trim_prefix, emit_str_regex_match,
    emit_time_diff, emit_ip_in_cidr; do_emit.
Qed.

Lemma emit_cmp_ok b op lhs rhs loc :
  builder_ok b -> 0 <= lhs -> 0 <= rhs -> emits b (emit_cmp op lhs rhs loc) op loc.
Proof.
  intros Hb Hl Hr. unfold emits, emit_cmp. repeat step.
  eapply emit_ok; [done..|reflexivity|by_fill|by_keep|].
  intros f fn i blk Hp. guard_facts. split; [all_in|].
  destruct op; try discriminate; cbn [sig_ok is_zero];
    repeat match goal with H : _ = true |- _ => rewrite H end; reflexivity.
Qed.

Lemma emit_opt_ok b ty v loc :
  builder_ok b -> oty_ok (length (structs b)) ty = true -> 0 <= v ->
  emits b (emit_opt_nil ty loc) Opcode.OptNil loc /\
  emits b (emit_opt_wrap v loc) Opcode.OptWrap loc /\
  emits b (emit_opt_is_nil v loc) Opcode.OptIsNil loc.
Proof.
  intros Hb Hty Hv. split_and!.
  - unfold emit_opt_nil. do_emit. cbn. destruct ty; [|done]. cbn in Hty. by rewrite Hty.
  - unfold emits, emit_opt_wrap. repeat step.
    destruct (point_cases b (proj1 Hb)) as [[Hf Hbl]|(f & fn & i & blk & Hp)].
    { exfalso. unfold valid_val, cur_fn in *. rewrite Hf in *. by rewrite andb_false_r in *. }
    eapply emit_ok; [done..| |by_fill|by_keep|].
    + cbn [oty_ok ty_ok]. guard_facts. destruct (tyv (fview fn) v) as [t|] eqn:Et; [|done].
      by rewrite (value_type_ok _ _ _ _ _ _ _ Hb Hp Et).
    + intros f' fn' i' blk' Hp'. guard_facts. split; [all_in|].
      cbn [sig_ok is_zero ty_kind ty_inner andb].
      rewrite bool_decide_eq_true_2 by done. cbn [andb].
      match goal with |- types_equal ?x ?y = true => replace x with y by congruence end.
      apply types_equal_refl.
  - unfold emit_opt_is_nil. do_emit.
Qed.

(** An operand test can only succeed at an insert point. *)
Lemma valid_point b v :
  rep_ok b -> valid_val b v = true -> exists f fn i blk, at_point b f fn i blk.
Proof.
  intros Hr Hv. destruct (point_cases b Hr) as [[Hf Hbl]|?]; [|done].
  exfalso. unfold valid_val, cur_fn in Hv. rewrite Hf in Hv. by rewrite andb_false_r in Hv.
Qed.

Lemma type_of_ok b v :
  builder_ok b -> 0 <= v -> valid_val b v = true -> oty_ok (length (structs b)) (type_of b v) = true.
Proof.
  intros Hb Hv H. destruct (valid_point b v (proj1 Hb) H) as (f & fn & i & blk & Hp). guard_facts.
  destruct (tyv (fview fn) v) as [t|] eqn:Et; [|done]. by eapply value_type_ok.
Qed.

Lemma emit_select_ok b c x y loc :
  builder_ok b -> 0 <= c -> 0 <= x -> 0 <= y -> emits b (emit_select c x y loc) Opcode.Select loc.
Proof.
  intros Hb Hc Hx Hy. unfold emits, emit_select. repeat step. cbv zeta. repeat step.
  assert (oty_ok (length (structs b)) (type_of b x) = true) as Hty by (by apply type_of_ok).
  eapply emit_ok; [done|apply arena_eq_refl|apply Hb|done|by_fill|by_keep|].
  intros f fn i blk Hp. guard_facts. split; [all_in|]. cbn [sig_ok is_zero].
  repeat match goal with H : _ = true |- _ => rewrite H end. apply types_equal_refl.
Qed.

Lemma emit_opt_unwrap_ok b v ty loc :
  builder_ok b -> 0 <= v -> oty_ok (length (structs b)) ty = true ->
  emits b (emit_opt_unwrap v ty loc) Opcode.OptUnwrap loc.
Proof.
  intros Hb Hv Hty. unfold emits, emit_opt_unwrap. repeat step.
  eapply emit_ok; [done|apply arena_eq_refl|apply Hb|done|by_fill|by_keep|].
  intros f fn i blk Hp. guard_facts. split; [all_in|]. cbn [sig_ok is_zero].
  destruct (tyv (fview fn) v) as [t|]; [|discriminate].
  repeat match goal with H : _ = true |- _ => rewrite H end. done.
Qed.

Lemma emit_struct_field_ok b s name ty loc :
  builder_ok b -> 0 <= s -> oty_ok (length (structs b)) ty = true ->
  emits b (emit_struct_field s name ty loc) Opcode.StructField loc.
Proof.
  intros Hb Hs Hty. unfold emits, emit_struct_field. repeat step.
  match goal with H : val_has_type b s _ = true |- _ => rename H into Hk end.
  pose proof Hk as Hval. apply andb_true_iff in Hval as [Hval _].
  destruct (valid_point b s (proj1 Hb) Hval) as (f & fn & i & blk & Hp).
  destruct (valid_at _ _ _ _ _ _ (proj1 Hb) Hp Hs Hval) as [Hin Hto].
  assert (Hgo : match mbind ty_struct (type_of b s) with
      | Some k => exists sd, structs b !! k = Some sd /\ field_ok (sd_fields sd) name ty = true
      | None => True
      end ->
    wp (emit_with Opcode.StructField ty loc
      (fun i => with_imm (ImmStructRef name ty) (with_operands [s] i)))
      (fun _ b' => builder_ok b' /\ emitted b b' Opcode.StructField loc) (fun _ b' => unchanged b b') b).
  { intros Hf. eapply emit_ok; [done|apply arena_eq_refl|apply Hb|done|by_fill|by_keep|].
    intros f' fn' i' blk' Hp'. destruct (has_type_at _ _ _ _ _ _ _ (proj1 Hb) Hp' Hs Hk) as [Hin' Hk'].
    destruct (valid_at _ _ _ _ _ _ (proj1 Hb) Hp' Hs Hval) as [_ Hto'].
    split; [all_in|]. cbn [sig_ok]. rewrite Hk', types_equal_refl. cbn [andb].
    match goal with H : negb (null ty) = true |- _ => rewrite H end. cbn [andb]. rewrite Hto' in Hf.
    destruct (mbind ty_struct (tyv (fview fn') s)); [|done]. by destruct Hf as (sd & -> & ->). }
  apply wp_bind. destruct (mbind ty_struct (type_of b s)) as [k|] eqn:Ek; [|apply wp_ret; by apply Hgo].
  assert (exists sd, structs b !! k = Some sd) as [sd Hsd].
  { apply lookup_lt_is_Some_2. rewrite Hto in Ek.
    destruct (tyv (fview fn) s) as [t|] eqn:Et; [|done]. cbn in Ek.
    eapply ty_ok_struct; [|exact Ek]. by eapply value_type_ok. }
  apply wp_bind. eapply wp_deref; [exact Hsd|]. apply wp_guard; [|intros _; apply unchanged_refl, Hb].
  intros Hf. apply Hgo. by exists sd.
Qed.

Lemma emit_misc_ok b v ty w loc :
  builder_ok b -> 0 <= v -> oty_ok (length (structs b)) ty = true ->
  emits b (emit_body_parse ty loc) Opcode.BodyParse loc /\
  emits b (emit_counter_incr v w loc) Opcode.CounterIncr loc.
Proof.
  intros Hb Hv Hty. split; [|unfold emit_counter_incr; do_emit].
  unfold emits, emit_body_parse. repeat step.
  eapply emit_ok; [done|apply arena_eq_refl|apply Hb|done|by_fill|by_keep|].
  intros f fn i blk Hp. split; [all_in|]. cbn [sig_ok].
  match goal with H : negb (null ty) = true |- _ => rewrite H end. apply types_equal_refl.
Qed.

Lemma emit_terminators_ok b c t e code body hdrs loc :
  builder_ok b -> 0 <= c ->
  emits b (emit_br c t e loc) Opcode.Br loc /\
  emits b (emit_jmp t loc) Opcode.Jmp loc /\
  emits b (emit_ret_status code body hdrs loc) Opcode.RetStatus loc /\
  emits b (emit_ret_status_value c loc) Opcode.RetStatus loc /\
  emits b (emit_ret_forward c loc) Opcode.RetForward loc.
Proof.
  intros Hb Hc. split_and!; [unfold emit_br; do_emit|unfold emit_jmp; do_emit
    |unfold emit_ret_status; do_emit|unfold emit_ret_status_value; do_emit|].
  unfold emits, emit_ret_forward. repeat step. apply wp_bind.
  eapply wp_mono; [eapply emit_ok; [done|apply arena_eq_refl|apply Hb|done|by_fill|by_keep|]
    |intros; by apply wp_ret|done].
  intros f fn i blk Hp.
  match goal with H : _ || _ = true |- _ => rename H into Hor end.
  match goal with H : valid_val b c = true |- _ => rename H into Hval end.
  destruct (valid_at _ _ _ _ _ _ (proj1 Hb) Hp Hc Hval) as [Hin _]. split; [all_in|].
  cbn [sig_ok is_zero andb null]. rewrite andb_true_r.
  apply orb_true_iff in Hor as [Hor|Hor]; apply (has_type_at _ _ _ _ _ _ _ (proj1 Hb) Hp Hc) in Hor as [_ ->];
    [done | by rewrite orb_true_r].
Qed.

Lemma emit_yield_event_ok b kind payload next loc :
  builder_ok b -> emits b (emit_yield_event kind payload next loc) Opcode.YieldTimer loc.
Proof.
  intros Hb. unfold emits, emit_yield_event. repeat step.
  destruct (point_cases b (proj1 Hb)) as [[Hf Hbl]|(f & fn & i & blk & Hp)];
    [by rewrite Hf in *|].
  apply wp_bind. eapply wp_deref; [by eapply cur_fn_at|]. do_emit.
Qed.

(** ** Operands written after the emission *)

(** [b1] is [b] with an instruction emitted at the insert point, last written
    as [x]. *)
Record pending b b1 (f : nat) (a : AFn) (i : nat) (rt : option Ty) (x : Instruction)
    (fn1 : Function) (blk1 : BasicBlock) : Prop := {
  pe_track : track b f b1 fn1 i blk1;
  pe_count : v_count (bb_insts blk1) = S (length (block_insts a i));
  pe_view : fview fn1 = af_emit a i rt x
}.

Lemma pending_set b b1 f a i rt x fn1 blk1 ab fill :
  pending b b1 f a i rt x fn1 blk1 -> af_blocks a !! i = Some ab -> keeps3 fill ->
  wp (set_inst (length (block_insts a i)) fill)
    (fun _ b2 => exists fn2 blk2, pending b b2 f a i rt (fill x) fn2 blk2) (fun _ _ => False) b1.
Proof.
  intros [Ht Hc Hv] Hab Hk. eapply wp_mono; [eapply set_inst_wp; [exact Ht|lia|exact Hk]| |done].
  intros _ b2 (fn2 & blk2 & Ht2 & Hc2 & Hv2). exists fn2, blk2. split; [done|lia|].
  rewrite Hv2, Hv. by eapply af_emit_fill.
Qed.

Lemma pending_arena b b1 b2 f a i rt x fn1 blk1 :
  pending b b1 f a i rt x fn1 blk1 -> arena_eq b1 b2 -> b_type_cache b2 = b_type_cache b1 ->
  pending b b2 f a i rt x fn1 blk1.
Proof.
  intros [Ht Hc Hv] Heq Hca. split; [|done..]. eapply track_arena; [done..|].
  eapply cache_same; [done|]. apply (tr_rep _ _ _ _ _ _ Ht).
Qed.

Lemma with_extra_shape ops x :
  (3 < length ops)%nat ->
  let y := with_extra (Z.of_nat (length ops)) (take 3 ops) (drop 3 ops) x in
  shape_ok y /\ inst_ops y = ops.
Proof.
  intros Hl. cbv zeta. unfold shape_ok, inst_ops, with_extra. cbn. split.
  - split_and!; [rewrite length_take; lia|lia|]. intros _. exists (drop 3 ops). split; [done|].
    rewrite length_drop. lia.
  - rewrite (proj2 (Z.leb_gt _ _)) by lia. apply take_drop.
Qed.

Lemma keeps3_extra n ops e : length ops = 3%nat -> keeps3 (with_extra n ops e).
Proof. by intros Hl x _. Qed.

Lemma set_operands_wp b b1 f a i rt op loc old fn1 blk1 ab ops count :
  let x0 := mkInst op (vid_of a rt) loc 0 old None ImmZero in
  pending b b1 f a i rt x0 fn1 blk1 -> af_blocks a !! i = Some ab -> length old = 3%nat ->
  (forall l, ops = Some l -> length l = count) ->
  wp (set_operands (length (block_insts a i)) ops count)
    (fun _ b2 => exists fn2 blk2 x, pending b b2 f a i rt x fn2 blk2 /\ i_op x = op /\
       i_result x = vid_of a rt /\ i_loc x = loc /\ shape_ok x /\ inst_ops x = default [] ops /\
       i_imm x = ImmZero /\ forallb (valid_val b1) (default [] ops) = true)
    (fun _ b2 => exists fn2 blk2, pending b b2 f a i rt x0 fn2 blk2) b1.
Proof.
  intros x0 Hpe Hab Hold Hlen. unfold set_operands.
  apply wp_bind, wp_guard; [intros Hnull|eauto].
  assert (length (default [] ops) = count) as Hcnt.
  { destruct ops as [l|]; [by apply Hlen|]. cbn in *. rewrite andb_true_r in Hnull.
    destruct count; [done|]. cbn in Hnull. done. }
  cbv zeta. apply wp_bind, wp_get, wp_bind, wp_guard; [intros Hall|eauto].
  destruct (Nat.leb_spec count kMaxInlineOperands) as [Hle|Hgt]; unfold kMaxInlineOperands in *.
  - eapply wp_mono; [eapply pending_set; [done..|apply keeps3_ops; lia]| |done].
    intros _ b2 (fn2 & blk2 & Hpe2). exists fn2, blk2, (with_operands (default [] ops) x0).
    destruct (with_operands_shape (default [] ops) x0) as [Hs Ho]; [lia|done|]. by split_and!.
  - apply wp_bind, wp_lift_alloc. intros p b2 Heq Hca.
    pose proof (pending_arena _ _ _ _ _ _ _ _ _ _ Hpe Heq Hca) as Hpe2.
    apply wp_bind, wp_some_or; [intros _ _|eauto].
    eapply wp_mono; [eapply pending_set; [done..|apply keeps3_extra; rewrite length_take; lia]| |done].
    intros _ b3 (fn3 & blk3 & Hpe3). subst count.
    destruct (with_extra_shape (default [] ops) x0) as [Hs Ho]; [lia|].
    eexists fn3, blk3, _. split_and!; [exact Hpe3|done..].
Qed.

Lemma rollback_wp b b1 f fn i blk t x fn1 blk1 :
  rep_ok b -> at_point b f fn i blk -> pending b b1 f (fview fn) i (Some t) x fn1 blk1 ->
  wp (rollback_emit (vid_of (fview fn) (Some t))) (fun _ b2 => unchanged b b2) (fun _ _ => False) b1.
Proof.
  intros Hr Hp [Ht Hc Hv]. pose proof (tr_rep _ _ _ _ _ _ Ht) as Hr1. pose proof (tr_point _ _ _ _ _ _ Ht) as Hp1.
  destruct (rep_block_at _ _ _ _ _ Hr1 Hp1) as [(_ & Hvs & _) [Hins Hops]].
  pose proof (ab_at _ _ _ _ _ Hr Hp) as Hab.
  assert (vec_items (fn_values fn1) = af_values (fview fn) ++ new_values (fview fn) i (Some t)) as Hvals.
  { rewrite <- (emit_values _ _ _ x), <- Hv. done. }
  assert (v_count (fn_values fn1) = S (length (af_values (fview fn)))) as Hvc.
  { rewrite <- (length_vec_items _ Hvs), Hvals, length_app. cbn. lia. }
  unfold rollback_emit. apply wp_bind. eapply wp_get_cur; [done|]. cbv beta iota zeta.
  assert (vec_ok (mkVec (v_at (bb_insts blk1)) (v_slots (bb_insts blk1)) (Nat.pred (v_count (bb_insts blk1)))))
    as Hok1 by (destruct Hins as (? & ? & ?); unfold vec_ok, v_cap in *; cbn [v_count v_slots]; split_and!; done || lia).
  apply wp_bind. eapply wp_put_insts; [done|].
  destruct (track_insts _ _ _ _ _ _ Hr1 Hp1 Hok1 Hops) as [Hp2 Hr2 Hv2].
  set (fn2 := with_insts fn1 i blk1 _) in *. set (b2 := upd_fn b1 f fn2) in *.
  assert (fview fn2 = af_set_values (fview fn) (vec_items (fn_values fn1))) as Hfv2.
  { unfold fn2. rewrite (fview_insts b1 f) by done.
    replace (vec_items (mkVec _ _ _)) with (block_insts (fview fn) i).
    - rewrite Hv, Hvals. unfold af_emit. rewrite af_set_insts_twice.
      apply (af_set_insts_same (af_set_values (fview fn) (_ ++ new_values (fview fn) i (Some t)))).
    - pose proof (block_insts_at _ _ _ _ _ Hr1 Hp1) as Hbi. rewrite Hv in Hbi. unfold af_emit in Hbi.
      rewrite (block_insts_set _ _ _ (bview blk)) in Hbi by done. unfold vec_items in *. cbn [v_count v_slots].
      rewrite Hc in *. cbn [Nat.pred]. apply (f_equal (take (length (block_insts (fview fn) i)))) in Hbi.
      rewrite take_app_length, take_take, Nat.min_l in Hbi by lia. done. }
  assert (vid_of (fview fn) (Some t) <> kNoValue) as Hne.
  { cbn [vid_of]. destruct Hvs as (Hle & _ & Hcap). unfold v_cap, kMaxCap, kNoValue in *. lia. }
  rewrite (proj2 (Z.eqb_neq _ _) Hne).
  apply wp_bind. eapply wp_get_cur; [done|]. cbv beta iota zeta. apply wp_put_fn.
  assert (vec_ok (mkVec (v_at (fn_values fn2)) (v_slots (fn_values fn2)) (Nat.pred (v_count (fn_values fn2)))))
    as Hok2 by (change (fn_values fn2) with (fn_values fn1); destruct Hvs as (? & ? & ?);
      unfold vec_ok, v_cap in *; cbn [v_count v_slots]; split_and!; done || lia).
  pose proof (track_values _ _ _ _ _ _ Hr2 Hp2 Hok2) as Ht3.
  eapply track_unchanged; [exact Hp|eapply track_trans; [exact Ht|eapply track_trans; [|exact Ht3]]; by split|].
  change (fview (set_values fn2 ?v)) with (af_set_values (fview fn2) (vec_items v)).
  rewrite Hfv2. change (fn_values fn2) with (fn_values fn1).
  unfold vec_items in *. cbn [v_count v_slots]. rewrite Hvc in *. cbn [Nat.pred].
  apply (f_equal (take (length (af_values (fview fn))))) in Hvals.
  rewrite take_app_length, take_take, Nat.min_l in Hvals by lia. rewrite Hvals. by destruct (fview fn).
Qed.

Lemma emit_str_interpolate_ok b parts count loc :
  builder_ok b -> (forall l, parts = Some l -> length l = count) ->
  Forall (fun v => 0 <= v) (default [] parts) ->
  emits b (emit_str_interpolate parts count loc) Opcode.StrInterpolate loc.
Proof.
  intros Hb Hlen Hpos. unfold emits, emit_str_interpolate. step.
  rename b' into b1. match goal with H : arena_eq b b1 |- _ => rename H into Heq end.
  match goal with H : rep_ok b1 |- _ => rename H into Hr1 end.
  destruct (ok_arena _ _ Hb Heq Hr1) as [Hb1 Hs]. set (t := MkTy TypeKind.Str None None).
  eapply wp_mono with (Q := fun _ b' => builder_ok b' /\ emitted b1 b' Opcode.StrInterpolate loc)
    (E := fun _ b' => unchanged b1 b');
    [|intros vid b' [? ?]; split; [done|by eapply emitted_arena]|intros e b'; by apply unchanged_arena].
  destruct (point_cases b1 Hr1) as [[Hf Hbl]|(f & fn & i & blk & Hp)].
  { apply wp_bind. unfold emit. apply wp_bind, wp_get, wp_bind, wp_guard;
      [rewrite Hf, Hbl; done | intros _; by apply unchanged_refl]. }
  apply wp_bind. eapply wp_mono; [by eapply emit_wp| |done].
  intros r b2 (fn2 & blk2 & old & Ht & Hopen & -> & Hc & Hl & Hv). cbv beta iota.
  pose proof (ab_at _ _ _ _ _ Hr1 Hp) as Hab.
  assert (pending b1 b2 f (fview fn) i (Some t)
    (mkInst Opcode.StrInterpolate (vid_of (fview fn) (Some t)) loc 0 old None ImmZero) fn2 blk2) as Hpe
    by (by split).
  pose proof (set_operands_wp b1 b2 f (fview fn) i (Some t) _ loc old fn2 blk2 _ parts count Hpe Hab Hl Hlen)
    as Hso.
  unfold wp in Hso |- *. destruct (set_operands _ parts count b2) as [[b3 [u|e]]|]; [| |done].
  - destruct Hso as (fn3 & blk3 & x & [Ht3 Hc3 Hv3] & F1 & F2 & F3 & F4 & F5 & F6 & Hall).
    eapply (emitted_ok b1 b3 f fn i blk fn3 blk3 _ (Some t) loc x (default [] parts) ImmZero); try done.
    apply Forall_forall. intros o Ho. rewrite forallb_forall in Hall. rewrite Forall_forall in Hpos.
    pose proof (Hpos o Ho) as Ho0. cbv beta in Ho0. apply list_elem_of_In, Hall in Ho.
    destruct (valid_at _ _ _ _ _ _ (tr_rep _ _ _ _ _ _ Ht) (tr_point _ _ _ _ _ _ Ht) Ho0 Ho) as [[_ Hlt] _].
    rewrite Hv, emit_values, length_app in Hlt. cbn [new_values length] in Hlt. unfold may_use, in_values.
    destruct (decide (o = Z.of_nat (length (af_values (fview fn))))) as [->|]; [by right|left; lia].
  - destruct Hso as (fn3 & blk3 & Hpe3).
    pose proof (rollback_wp b1 b3 f fn i blk t _ fn3 blk3 Hr1 Hp Hpe3) as Hrb.
    unfold wp in Hrb. unfold bind. destruct (rollback_emit _ b3) as [[b4 [u|e']]|]; done.
Qed.

Lemma values_match_types b f fn i blk values fields :
  rep_ok b -> at_point b f fn i blk -> Forall (fun v => 0 <= v) values ->
  length values = length fields -> values_match b values fields = true ->
  Forall (in_values (fview fn)) values /\ types_match (tyv (fview fn)) values fields = true.
Proof.
  intros Hr Hp Hpos. revert fields.
  induction Hpos as [|v values Hv _ IH]; intros [|fd fields] Hl Hm; try done; cbn in *.
  apply andb_true_iff in Hm as [Hm Hm']. apply andb_true_iff in Hm as [Hval Hty].
  destruct (valid_at _ _ _ _ _ _ Hr Hp Hv Hval) as [Hin Hto].
  destruct (IH fields) as [IH1 IH2]; [lia|done|]. split; [by constructor|].
  rewrite Hto in Hty. by rewrite Hty, IH2.
Qed.

(** Out of memory for the overflow array: the instruction stays. *)
Definition leaks (count : nat) (e : RirError) : Prop := (3 < count)%nat /\ e = OutOfMemory.

Lemma emit_struct_create_ok b sd values count loc :
  builder_ok b -> (forall k, sd = Some k -> (k < length (structs b))%nat) ->
  (forall l, values = Some l -> length l = count) -> Forall (fun v => 0 <= v) (default [] values) ->
  wp (emit_struct_create sd values count loc)
    (fun _ b' => builder_ok b' /\ emitted b b' Opcode.StructCreate loc)
    (fun e b' => unchanged b b' \/ leaks count e) b.
Proof.
  intros Hb Hsd Hlen Hpos. unfold emit_struct_create.
  apply wp_bind, wp_guard; [intros Hnull | left; apply unchanged_refl, Hb].
  destruct sd as [k|]; [|done]. specialize (Hsd k eq_refl).
  destruct (lookup_lt_is_Some_2 _ _ Hsd) as [def Hdef].
  apply wp_bind. eapply wp_deref; [done|]. apply wp_bind, wp_get, wp_bind.
  eapply wp_deref; [exact Hdef|]. apply wp_bind, wp_guard; [intros Hcnt | left; apply unchanged_refl, Hb].
  apply Nat.eqb_eq in Hcnt.
  assert (length (default [] values) = count) as Hvl.
  { destruct values as [l|]; [by apply Hlen|]. cbn in Hnull |- *.
    destruct (Nat.eqb_spec count 0); [done|]. done. }
  cbv zeta. apply wp_bind, wp_guard; [intros Hvm | left; apply unchanged_refl, Hb].
  apply wp_bind. eapply wp_mono; [apply make_type_wp, Hb| |by left]. intros ty b1 (-> & Heq & Hr1).
  set (t := MkTy TypeKind.Struct None (Some k)). destruct (ok_arena _ _ Hb Heq Hr1) as [Hb1 Hs].
  eapply wp_mono with (Q := fun _ b' => builder_ok b' /\ emitted b1 b' Opcode.StructCreate loc)
    (E := fun e b' => unchanged b1 b' \/ leaks count e);
    [|intros vid b' [? ?]; split; [done|by eapply emitted_arena]
     |intros e b' [?|?]; [left; by eapply unchanged_arena|by right]].
  destruct (point_cases b1 Hr1) as [[Hf Hbl]|(f & fn & i & blk & Hp)].
  { apply wp_bind. unfold emit. apply wp_bind, wp_get, wp_bind, wp_guard;
      [rewrite Hf, Hbl; done | intros _; left; by apply unchanged_refl]. }
  apply wp_bind. eapply wp_mono; [by eapply emit_wp| |by left].
  intros r b2 (fn2 & blk2 & old & Ht & Hopen & -> & Hc & Hl & Hv). cbv beta iota.
  pose proof (ab_at _ _ _ _ _ Hr1 Hp) as Hab.
  pose proof (at_point_arena _ _ _ _ _ _ Heq Hp) as Hp0.
  assert (length (default [] values) = length (sd_fields def)) as Hlf by congruence.
  destruct (values_match_types b f fn i blk _ _ (proj1 Hb) Hp0 Hpos Hlf Hvm) as [Hin Htm].
  set (imm := ImmStructRef (sd_name def) (Some t)).
  set (x0 := mkInst Opcode.StructCreate (vid_of (fview fn) (Some t)) loc 0 old None ImmZero) in *.
  assert (pending b1 b2 f (fview fn) i (Some t) x0 fn2 blk2) as Hpe by (by split).
  assert (Hdone : forall b3 fn3 blk3 x, pending b1 b3 f (fview fn) i (Some t) x fn3 blk3 ->
    i_op x = Opcode.StructCreate -> i_result x = vid_of (fview fn) (Some t) -> i_loc x = loc ->
    shape_ok x -> inst_ops x = default [] values -> i_imm x = imm ->
    builder_ok b3 /\ emitted b1 b3 Opcode.StructCreate loc).
  { intros b3 fn3 blk3 x [Ht3 Hc3 Hv3] F1 F2 F3 F4 F5 F6.
    eapply (emitted_ok b1 b3 f fn i blk fn3 blk3 _ (Some t) loc x _ imm); try done.
    - cbn [oty_ok ty_ok t]. rewrite Hs. by apply Nat.ltb_lt.
    - by apply in_values_use.
    - unfold imm. cbn [sig_ok]. change (mbind ty_struct (Some t)) with (Some k). cbv iota.
      rewrite Hs, Hdef, types_equal_refl, Htm, (proj2 (str_eq_true _ _) eq_refl). done. }
  destruct (Nat.leb_spec count kMaxInlineOperands) as [Hle|Hgt]; unfold kMaxInlineOperands in *.
  - apply wp_bind. eapply wp_mono; [eapply (pending_set _ _ _ _ _ _ _ _ _ _ _ Hpe Hab)| |done].
    { intros y Hy. apply keeps3_imm, keeps3_ops; [lia|done]. }
    intros _ b3 (fn3 & blk3 & Hpe3). apply wp_ret.
    destruct (fills_imm_ops (default [] values) imm ltac:(lia) Opcode.StructCreate
      (vid_of (fview fn) (Some t)) loc old Hl) as (F1 & F2 & F3 & F4 & F5 & F6).
    eapply Hdone; [exact Hpe3|done..].
  - apply wp_bind. eapply wp_mono; [eapply (pending_set _ _ _ _ _ _ _ _ _ _ _ Hpe Hab); by intros y Hy| |done].
    intros _ b3 (fn3 & blk3 & Hpe3). apply wp_bind, wp_lift_alloc. intros p b4 Heq4 Hc4.
    pose proof (pending_arena _ _ _ _ _ _ _ _ _ _ Hpe3 Heq4 Hc4) as Hpe4.
    apply wp_bind, wp_some_or; [intros _ _|intros _; right; by split].
    apply wp_bind. eapply wp_mono; [eapply (pending_set _ _ _ _ _ _ _ _ _ _ _ Hpe4 Hab)| |done].
    { intros y Hy. apply keeps3_imm, keeps3_extra; [rewrite length_take; lia|done]. }
    intros _ b5 (fn5 & blk5 & Hpe5). apply wp_ret. subst count. rewrite <- Hvl in *.
    eapply Hdone; [exact Hpe5|done|done|done| | |done];
      by apply (with_extra_shape (default [] values)).
Qed.

(** ** Yields *)

Definition af_set_yields (a : AFn) (yc : Z) (p k : option (list Z)) : AFn :=
  mkAFn (af_name a) (af_route a) (af_method a) (af_blocks a) (af_values a) yc p k (af_resume a).

Lemma put_yields_ok b f fn i blk yc p k :
  builder_ok b -> at_point b f fn i blk ->
  let b' := upd_fn b f (set_yields fn yc p k) in
  builder_ok b' /\ mview (b_mod b') = am_set (mview (b_mod b)) f (af_set_yields (fview fn) yc p k).
Proof.
  intros Hb Hp. cbv zeta. rewrite mview_upd. change (fview (set_yields fn yc p k)) with
    (af_set_yields (fview fn) yc p k). split; [|done]. split.
  - destruct (rep_block_at _ _ _ _ _ (proj1 Hb) Hp) as [Hf _]. eapply rep_upd; try done. apply Hb.
  - rewrite mview_upd. eapply amod_set; [done..|].
    apply (afn_ok_meta _ (fview fn)); [by eapply fn_ok_at|].
    pose proof (fo_resume _ _ (fn_ok_at _ _ _ _ _ Hb Hp)). done.
Qed.

(** The instruction of a fetch, and one more yield. *)
Definition fetched b b' (loc : SourceLoc) : Prop :=
  exists b1 f a, emitted b b1 Opcode.YieldHttpGet loc /\ b_cur_func b = Some f /\
    am_functions (mview (b_mod b1)) !! f = Some a /\
    mview (b_mod b') = am_set (mview (b_mod b1)) f
      (af_set_yields a (u32 (af_yield_count a + 1)) (af_payload a) (af_kinds a)).

Lemma emit_yield_http_get_ok b url headers loc :
  builder_ok b -> 0 <= headers ->
  wp (emit_yield_http_get url headers loc)
    (fun _ b' => builder_ok b' /\ fetched b b' loc) (fun _ b' => unchanged b b') b.
Proof.
  intros Hb Hh. unfold emit_yield_http_get. repeat step. rename b' into b1.
  set (ops := if headers =? kNoValue then [] else [headers]).
  apply wp_bind. eapply wp_mono; [eapply (emit_ok b b1 _ _ _ _ ops (ImmStr url)); try done| |done].
  - unfold ops. destruct (headers =? kNoValue); [apply fills_imm | apply (fills_ops_imm [headers]); cbn; lia].
  - intros y Hy. destruct (headers =? kNoValue); [done|]. by apply keeps3_ops; [cbn; lia|].
  - intros f fn i blk Hp. unfold ops. destruct (headers =? kNoValue).
    + split; [all_in|done].
    + cbn [orb] in *. guard_facts. split; [all_in|done].
  - intros vid b2 [Hb2 Hem]. pose proof Hem as (f & a & i & rt & x & H1' & H2' & H3' & H4' & H5' & H6' & H7' & H8' & H9').
    destruct (point_cases b2 (proj1 Hb2)) as [[Hf _]|(f' & fn & i' & blk & Hp)]; [congruence|].
    apply wp_bind. eapply wp_get_cur; [done|]. cbv beta iota. apply wp_bind, wp_put_fn, wp_ret.
    destruct (put_yields_ok b2 f' fn i' blk (u32 (fn_yield_count fn + 1)) (fn_yield_payload fn)
      (fn_yield_kinds fn) Hb2 Hp) as [Hb3 Hv3].
    split; [done|]. exists b2, f', (fview fn). split_and!; try done.
    + rewrite <- (ap_func _ _ _ _ _ Hp). congruence.
    + cbn. by rewrite list_lookup_fmap, (ap_fn _ _ _ _ _ Hp).
Qed.
End builder_ok.
