(* ===== verification/RirModuleOps.v ===== *)
(** * Structs, functions, blocks and the insert point

    The operations of the builder that do not emit: each keeps the builder
    well formed, says what it changes in the abstract module, and changes
    nothing when it fails, except that [set_explicit_resume_blocks] stores the
    blocks before a bad one. *)

From S2P Require Import Prelude HandlerAbi Rir RirBuilder RirEmit RirLogic RirTyping RirBuilderOk.
Open Scope rir_scope.

Section module_ops.
Context {A : Type} `{HB : Bump A}.
Implicit Types (b : Builder A).

(** ** Functions *)

(** Replacing a function by one whose block array is the same. *)
Lemma put_fn_ok b f fn fn' :
  builder_ok b -> m_functions (b_mod b) !! f = Some fn -> rep_fn fn' ->
  v_at (fn_blocks fn') = v_at (fn_blocks fn) ->
  (v_count (fn_blocks fn) <= v_count (fn_blocks fn'))%nat ->
  afn_ok (structs b) (fview fn') ->
  builder_ok (upd_fn b f fn').
Proof.
  intros [[H1 H2 H3 H4] Hm] Hf Hrep Hat Hc Ha. split.
  - split; cbn; [by apply Forall_insert| |done|done]. unfold point_ok in *. cbn.
    destruct (b_cur_func b) as [g|], (b_cur_block b) as [[at_ i]|]; try done.
    destruct H2 as (gn & Hg & -> & Hi & Hid). destruct (decide (g = f)) as [->|Hne].
    + rewrite list_lookup_insert_eq by (by eapply lookup_lt_Some). exists fn'.
      rewrite Hg in Hf. injection Hf as ->. split_and!; try done. lia.
    + rewrite list_lookup_insert_ne by done. by exists gn.
  - rewrite mview_upd. destruct Hm as [M1 M2 M3 M4]. split; cbn; try done. by apply Forall_insert.
Qed.

Lemma fn_facts b f fn :
  builder_ok b -> m_functions (b_mod b) !! f = Some fn ->
  rep_fn fn /\ afn_ok (structs b) (fview fn) /\ length (af_blocks (fview fn)) = v_count (fn_blocks fn).
Proof.
  intros [Hr Hm] Hf. pose proof (ro_fns _ Hr) as H1. rewrite Forall_lookup in H1.
  pose proof (mo_fns _ Hm) as H2. rewrite Forall_lookup in H2. specialize (H1 _ _ Hf). split_and!; [done| |].
  - apply (H2 f). cbn. by rewrite list_lookup_fmap, Hf.
  - cbn [fview af_blocks]. rewrite length_fmap, length_vec_items; [done|apply H1].
Qed.

(** Metadata of a function: its yields and its resume blocks. *)
Definition af_meta (a : AFn) (yc : Z) (p k : option (list Z)) (res : bool * Z * bool * list Z) : AFn :=
  mkAFn (af_name a) (af_route a) (af_method a) (af_blocks a) (af_values a) yc p k res.

(** Function [f] is replaced by [g] of it. *)
Definition on_fn b b' (f : nat) (g : AFn -> AFn) : Prop :=
  exists a, am_functions (mview (b_mod b)) !! f = Some a /\
    mview (b_mod b') = am_set (mview (b_mod b)) f (g a).

Lemma put_meta_ok b f fn yc p k z term e bs :
  builder_ok b -> m_functions (b_mod b) !! f = Some fn ->
  length bs = kMaxResumeBlocks ->
  Forall (fun x => x = 0 \/ 0 <= x < Z.of_nat (v_count (fn_blocks fn))) (term :: bs) ->
  let b' := upd_fn b f (set_resume (set_yields fn yc p k) z term e bs) in
  builder_ok b' /\ on_fn b b' f (fun a => af_meta a yc p k (z, term, e, bs)).
Proof.
  intros Hb Hf Hl Hbs. destruct (fn_facts _ _ _ Hb Hf) as (Hr & Ha & Hc). split.
  - eapply put_fn_ok; try done. apply (afn_ok_meta _ (fview fn)); [done|]. by rewrite Hc.
  - exists (fview fn). split; [cbn; by rewrite list_lookup_fmap, Hf|]. by rewrite mview_upd.
Qed.

Lemma on_fn_view b1 b b' f g : mview (b_mod b1) = mview (b_mod b) -> on_fn b1 b' f g -> on_fn b b' f g.
Proof. unfold on_fn. by intros ->. Qed.

Lemma on_fn_ext b b' f g g' : (forall a, am_functions (mview (b_mod b)) !! f = Some a -> g a = g' a) -> on_fn b b' f g -> on_fn b b' f g'.
Proof. intros Hg (a & Ha & Hv). exists a. by rewrite <- Hg. Qed.

(** The yield table that [set_yield_payload] stores. *)
Definition yields_of (ms : list Z) (kinds : option (list Z)) : Z * option (list Z) * option (list Z) :=
  if Nat.eqb (length ms) 0 then (0, None, None)
  else (Z.of_nat (length ms), Some ms,
        Some (imap (fun i _ => match kinds with Some ks => nth i ks 0 | None => kDefaultYieldKind end) ms)).

Definition payload_set (ms : list Z) (kinds : option (list Z)) (a : AFn) : AFn :=
  let '(yc, p, k) := yields_of ms kinds in af_meta a yc p k (af_resume a).

Definition state_zero_set (t : Z) (a : AFn) : AFn :=
  let '(_, _, e, bs) := af_resume a in
  af_meta a (af_yield_count a) (af_payload a) (af_kinds a) (true, t, e, bs).

Definition resume_set (blocks : list Z) (a : AFn) : AFn :=
  af_meta a (af_yield_count a) (af_payload a) (af_kinds a)
    (true, default 0 (last blocks), true, blocks ++ replicate (kMaxResumeBlocks - length blocks) 0).

Lemma resume_facts b f fn :
  builder_ok b -> m_functions (b_mod b) !! f = Some fn ->
  length (fn_resume_blocks fn) = kMaxResumeBlocks /\
  Forall (fun x => x = 0 \/ 0 <= x < Z.of_nat (v_count (fn_blocks fn)))
    (fn_resume_terminal_block fn :: fn_resume_blocks fn).
Proof.
  intros Hb Hf. destruct (fn_facts _ _ _ Hb Hf) as (_ & Ha & Hc). pose proof (fo_resume _ _ Ha) as H.
  rewrite Hc in H. exact H.
Qed.

Lemma set_yield_payload_ok b f ms kinds :
  builder_ok b -> (f < length (m_functions (b_mod b)))%nat ->
  wp (set_yield_payload f ms kinds)
    (fun _ b' => builder_ok b' /\ on_fn b b' f (payload_set ms kinds)) (fun _ b' => unchanged b b') b.
Proof.
  intros Hb Hf. destruct (lookup_lt_is_Some_2 _ _ Hf) as [fn Hfn]. unfold set_yield_payload.
  destruct (resume_facts _ _ _ Hb Hfn) as [Hl Hbs].
  assert (Hput : forall b1 yc p k, builder_ok b1 -> mview (b_mod b1) = mview (b_mod b) ->
    m_functions (b_mod b1) !! f = Some fn -> yields_of ms kinds = (yc, p, k) ->
    wp (put_fn f (set_yields fn yc p k)) (fun _ b' => builder_ok b' /\ on_fn b b' f (payload_set ms kinds))
      (fun _ b' => unchanged b b') b1).
  { intros b1 yc p k Hb1 Hv Hf1 Hy. apply wp_put_fn.
    destruct (put_meta_ok b1 f fn yc p k (fn_state_zero_enters_entry fn) (fn_resume_terminal_block fn)
      (fn_has_explicit_resume_blocks fn) (fn_resume_blocks fn) Hb1 Hf1 Hl Hbs) as [Hok Hon].
    split; [done|]. eapply on_fn_view; [exact Hv|]. eapply on_fn_ext; [|exact Hon].
    intros a Ha. cbn in Ha. rewrite list_lookup_fmap, Hf1 in Ha. injection Ha as <-.
    unfold payload_set. by rewrite Hy. }
  apply wp_bind. eapply wp_get_fn; [done|]. destruct (Nat.eqb (length ms) 0) eqn:E0.
  { apply Hput; try done. unfold yields_of. by rewrite E0. }
  apply wp_bind, wp_lift_alloc. intros p1 b1 Heq1 Hc1. apply wp_bind, wp_lift_alloc. intros p2 b2 Heq2 Hc2.
  assert (arena_eq b b2) as Heq by (by eapply arena_eq_trans).
  assert (cache_ok b2) as Hc by (eapply cache_same; [|apply Hb]; congruence).
  assert (rep_ok b2) as Hr2 by (eapply arena_eq_rep; [done..|apply Hb]).
  destruct (ok_arena _ _ Hb Heq Hr2) as [Hb2 _].
  apply wp_bind, wp_some_or; [intros _ _|intros _; apply arena_eq_unchanged; [apply Hb|done..]].
  apply wp_bind, wp_some_or; [intros _ _|intros _; apply arena_eq_unchanged; [apply Hb|done..]].
  destruct (arena_eq_fields _ _ Heq) as (Hfs & _ & _ & Hmv & _).
  apply Hput; try done; [by rewrite Hfs|]. unfold yields_of. by rewrite E0.
Qed.

Lemma set_state_zero_ok b f t :
  builder_ok b -> (forall i, f = Some i -> (i < length (m_functions (b_mod b)))%nat) -> 0 <= t ->
  wp (set_state_zero_entry_resume f t)
    (fun _ b' => builder_ok b' /\ exists i, f = Some i /\ on_fn b b' i (state_zero_set t))
    (fun _ b' => unchanged b b') b.
Proof.
  intros Hb Hf Ht. unfold set_state_zero_entry_resume.
  apply wp_bind, wp_some_or; [intros i ->|intros _; apply unchanged_refl, Hb].
  destruct (lookup_lt_is_Some_2 _ _ (Hf i eq_refl)) as [fn Hfn].
  destruct (resume_facts _ _ _ Hb Hfn) as [Hl Hbs].
  apply wp_bind. eapply wp_get_fn; [done|].
  apply wp_bind, wp_guard; [intros Hlt|intros _; apply unchanged_refl, Hb].
  apply Z.ltb_lt in Hlt. unfold block_count in Hlt. apply wp_put_fn.
  destruct (put_meta_ok b i fn (fn_yield_count fn) (fn_yield_payload fn) (fn_yield_kinds fn) true t
    (fn_has_explicit_resume_blocks fn) (fn_resume_blocks fn) Hb Hfn Hl) as [Hok Hon].
  { apply Forall_cons in Hbs as [_ Hbs]. constructor; [lia|done]. }
  split; [done|]. exists i. split; [done|]. eapply on_fn_ext; [|exact Hon].
  intros a Ha. cbn in Ha. rewrite list_lookup_fmap, Hfn in Ha. by injection Ha as <-.
Qed.

Lemma store_resume_spec n i blocks dst dst' ok :
  store_resume_blocks (Z.of_nat n) i blocks dst = (dst', ok) ->
  Forall (fun x => 0 <= x) blocks -> Forall (fun x => x = 0 \/ 0 <= x < Z.of_nat n) dst ->
  length dst' = length dst /\ Forall (fun x => x = 0 \/ 0 <= x < Z.of_nat n) dst' /\
  (ok = true -> Forall (fun x => 0 <= x < Z.of_nat n) blocks).
Proof.
  revert i dst. induction blocks as [|x blocks IH]; intros i dst; cbn [store_resume_blocks].
  - intros [= <- <-] _ Hd. by split_and!.
  - intros E Hpos Hd. apply Forall_cons in Hpos as [Hx Hpos].
    destruct (Z.leb_spec (Z.of_nat n) x); [injection E as <- <-; by split_and!|].
    destruct (IH _ _ E Hpos) as (H1 & H2 & H3); [apply Forall_insert; [done|lia]|].
    rewrite length_insert in H1. split_and!; try done. intros Hok. constructor; [lia|by apply H3].
Qed.

Lemma store_resume_all n i blocks dst dst' :
  store_resume_blocks n i blocks dst = (dst', true) -> (i + length blocks <= length dst)%nat ->
  take (i + length blocks) dst' = take i dst ++ blocks.
Proof.
  revert i dst. induction blocks as [|x blocks IH]; intros i dst; cbn [store_resume_blocks].
  - intros [= <-] _. cbn. by rewrite Nat.add_0_r, app_nil_r.
  - intros E Hl. destruct (n <=? x); [done|]. cbn [length] in *.
    specialize (IH _ _ E). rewrite length_insert in IH. replace (i + S (length blocks))%nat with (S i + length blocks)%nat by lia.
    rewrite IH by lia. rewrite (take_S_r _ _ x) by (apply list_lookup_insert_eq; lia).
    by rewrite take_insert_ge, <- app_assoc.
Qed.

(** A bad block stops the copy: the resume blocks may have changed, the rest
    of the module has not. *)
Definition resume_part (bs : list Z) (a : AFn) : AFn :=
  let '(z, term, e, _) := af_resume a in
  af_meta a (af_yield_count a) (af_payload a) (af_kinds a) (z, term, e, bs).

Lemma set_explicit_ok b f blocks :
  builder_ok b -> (forall i, f = Some i -> (i < length (m_functions (b_mod b)))%nat) ->
  Forall (fun x => 0 <= x) blocks ->
  wp (set_explicit_resume_blocks f blocks)
    (fun _ b' => builder_ok b' /\ exists i, f = Some i /\ on_fn b b' i (resume_set blocks))
    (fun _ b' => unchanged b b' \/ exists i bs, f = Some i /\ builder_ok b' /\ on_fn b b' i (resume_part bs)) b.
Proof.
  intros Hb Hf Hpos. unfold set_explicit_resume_blocks.
  apply wp_bind, wp_some_or; [intros i ->|intros _; left; apply unchanged_refl, Hb].
  apply wp_bind, wp_guard; [intros Hle|intros _; left; apply unchanged_refl, Hb]. apply Nat.leb_le in Hle.
  destruct (lookup_lt_is_Some_2 _ _ (Hf i eq_refl)) as [fn Hfn].
  destruct (resume_facts _ _ _ Hb Hfn) as [Hl Hbs]. apply Forall_cons in Hbs as [Hterm Hbs].
  apply wp_bind. eapply wp_get_fn; [done|].
  destruct (store_resume_blocks _ 0 blocks _) as [dst ok] eqn:E.
  destruct (store_resume_spec _ _ _ _ _ _ E Hpos Hbs) as (Hl' & Hd & Hok). destruct ok.
  - apply wp_put_fn. apply store_resume_all in E; [|lia]. cbn [Nat.add] in E. rewrite take_0 in E. cbn [app] in E.
    rewrite E. specialize (Hok eq_refl).
    destruct (put_meta_ok b i fn (fn_yield_count fn) (fn_yield_payload fn) (fn_yield_kinds fn) true
      (default 0 (last blocks)) true (blocks ++ replicate (kMaxResumeBlocks - length blocks) 0) Hb Hfn) as [Hbok Hon].
    + rewrite length_app, length_replicate. lia.
    + rewrite Forall_forall in Hok. constructor.
      * destruct (last blocks) as [x|] eqn:El; [|by left]. right. cbn. apply last_Some_elem_of in El. by apply Hok.
      * apply Forall_app. split; [|apply Forall_replicate; by left].
        apply Forall_forall. intros x Hx. right. by apply Hok.
    + split; [done|]. exists i. split; [done|]. eapply on_fn_ext; [|exact Hon].
      intros a Ha. cbn in Ha. rewrite list_lookup_fmap, Hfn in Ha. by injection Ha as <-.
  - apply wp_bind, wp_put_fn, wp_err. right. exists i, dst. split; [done|].
    destruct (put_meta_ok b i fn (fn_yield_count fn) (fn_yield_payload fn) (fn_yield_kinds fn)
      (fn_state_zero_enters_entry fn) (fn_resume_terminal_block fn) (fn_has_explicit_resume_blocks fn) dst Hb Hfn)
      as [Hbok Hon]; [by rewrite Hl'|by constructor|].
    split; [done|]. eapply on_fn_ext; [|exact Hon].
    intros a Ha. cbn in Ha. rewrite list_lookup_fmap, Hfn in Ha. by injection Ha as <-.
Qed.

(** ** Blocks *)

Lemma grow_blocks_ok b f fn :
  builder_ok b -> m_functions (b_mod b) !! f = Some fn ->
  wp (grow_blocks f)
    (fun _ b' => exists fn', unchanged b b' /\ m_functions (b_mod b') !! f = Some fn' /\
       (v_count (fn_blocks fn') < length (v_slots (fn_blocks fn')))%nat)
    (fun _ b' => unchanged b b') b.
Proof.
  intros Hb Hf. destruct (fn_facts _ _ _ Hb Hf) as ((Hv & Hvs & Hall) & Ha & _).
  unfold grow_blocks. apply wp_bind. eapply wp_get_fn; [done|].
  apply wp_bind, wp_guard; [intros Hcap|intros _; apply unchanged_refl, Hb]. apply Z.leb_le in Hcap.
  apply wp_bind, wp_lift_alloc. intros p b1 Heq Hc.
  assert (cache_ok b1) as Hc1 by (eapply cache_same; [done|apply Hb]).
  assert (rep_ok b1) as Hr1 by (eapply arena_eq_rep; [done..|apply Hb]).
  apply wp_bind, wp_some_or; [intros p' _|intros _; apply arena_eq_unchanged; [apply Hb|done..]].
  destruct (vec_regrow_spec block0 p' _ Hv Hcap) as (Hv' & Hit & Hcnt & Hat & Hlt).
  destruct (arena_eq_fields _ _ Heq) as (Hfs & _ & _ & Hmv & _).
  set (fn' := set_blocks fn (vec_regrow block0 p' (fn_blocks fn))).
  assert (fview fn' = fview fn) as Hfv.
  { unfold fview, fn', set_blocks. cbn [fn_blocks]. by rewrite Hit. }
  assert (rep_fn fn') as Hrep.
  { split_and!; [done|done|]. unfold fn'. cbn [fn_blocks set_blocks]. by rewrite Hit. }
  assert (m_functions (b_mod b1) !! f = Some fn) as Hf1 by (by rewrite Hfs).
  assert (f < length (m_functions (b_mod b1)))%nat as Hlen by (by eapply lookup_lt_Some).
  apply wp_bind, wp_put_fn, wp_bind, wp_get.
  assert (mview (b_mod (upd_fn b1 f fn')) = mview (b_mod b)) as Hmv'.
  { rewrite mview_upd, Hfv, <- Hmv. by apply am_set_same. }
  assert (m_functions (b_mod (upd_fn b1 f fn')) !! f = Some fn') as Hf2.
  { cbn. by apply list_lookup_insert_eq. }
  assert ((v_count (fn_blocks fn') < length (v_slots (fn_blocks fn')))%nat) as Hlt'.
  { unfold fn'. cbn [fn_blocks set_blocks]. lia. }
  pose proof (ro_point _ Hr1) as Hpt. unfold point_ok in Hpt.
  destruct Hr1 as [R1 R2 R3 R4]. destruct Heq as [_ E1 E2 E3].
  change (b_cur_func (upd_fn b1 f fn')) with (b_cur_func b1).
  change (b_cur_block_id (upd_fn b1 f fn')) with (b_cur_block_id b1).
  destruct (bool_decide (b_cur_func b1 = Some f)) eqn:Ed.
  - apply bool_decide_eq_true in Ed. rewrite Ed in Hpt.
    destruct (b_cur_block b1) as [[at_ i]|] eqn:Eb; [|done]. destruct Hpt as (gn & Hg & -> & Hi & Hid).
    rewrite Hf1 in Hg. injection Hg as <-. unfold block_count.
    rewrite (proj2 (Z.ltb_lt _ _)) by lia. cbn [andb]. apply wp_put. exists fn'. split_and!; try done.
    split; [|by split_and!]. split; cbn; [by apply Forall_insert| |done|done].
    unfold point_ok. cbn. rewrite Ed, Hid, Nat2Z.id. exists fn'.
    rewrite list_lookup_insert_eq by done. split_and!; [done| |unfold fn'; cbn [fn_blocks set_blocks]; lia|done].
    unfold fn'. cbn [fn_blocks set_blocks]. by rewrite Hat.
  - cbn [andb]. apply wp_ret. exists fn'. split_and!; try done.
    split; [|by split_and!]. split; cbn; [by apply Forall_insert| |done|done]. unfold point_ok. cbn.
    apply bool_decide_eq_false in Ed. destruct (b_cur_func b1) as [g|], (b_cur_block b1) as [[at_ i]|]; try done.
    destruct Hpt as (gn & Hg & Hrest). exists gn. by rewrite list_lookup_insert_ne by congruence.
Qed.

Lemma create_block_ok b f label :
  builder_ok b -> (f < length (m_functions (b_mod b)))%nat ->
  wp (create_block f label)
    (fun bid b' => builder_ok b' /\ exists a, am_functions (mview (b_mod b)) !! f = Some a /\
       bid = Z.of_nat (length (af_blocks a)) /\
       mview (b_mod b') = am_set (mview (b_mod b)) f (af_add_block a (mkAB bid label [])))
    (fun _ b' => unchanged b b') b.
Proof.
  intros Hb Hf. destruct (lookup_lt_is_Some_2 _ _ Hf) as [fn Hfn]. unfold create_block.
  apply wp_bind. eapply wp_get_fn; [done|].
  assert (Hrest : forall b1 fn1, unchanged b b1 -> m_functions (b_mod b1) !! f = Some fn1 ->
    (v_count (fn_blocks fn1) < length (v_slots (fn_blocks fn1)))%nat ->
    wp (insts <- arena_array sizeof_Instruction (Z.of_nat kInitInsts) ;;
        insts <- some_or insts OutOfMemory ;;
        fn <- get_fn f ;;
        let bid := block_count fn in
        blocks <- deref (vec_push (fn_blocks fn)
                    (mkBB bid label (mkVec insts (replicate kInitInsts inst0) 0))) ;;
        put_fn f (set_blocks fn blocks) ;;; ret bid)
    (fun bid b' => builder_ok b' /\ exists a, am_functions (mview (b_mod b)) !! f = Some a /\
       bid = Z.of_nat (length (af_blocks a)) /\
       mview (b_mod b') = am_set (mview (b_mod b)) f (af_add_block a (mkAB bid label [])))
    (fun _ b' => unchanged b b') b1).
  { intros b1 fn1 Hu Hf1 Hlt. pose proof (unchanged_ok _ _ Hb Hu) as Hb1.
    apply wp_bind, wp_lift_alloc. intros p b2 Heq Hc.
    assert (cache_ok b2) as Hc2 by (eapply cache_same; [done|apply Hb1]).
    assert (rep_ok b2) as Hr2 by (eapply arena_eq_rep; [done..|apply Hb1]).
    assert (unchanged b b2) as Hu2.
    { eapply unchanged_trans; [done|]. apply arena_eq_unchanged; [apply Hb1|done..]. }
    pose proof (unchanged_ok _ _ Hb Hu2) as Hb2.
    apply wp_bind, wp_some_or; [intros q _|done].
    destruct (arena_eq_fields _ _ Heq) as (Hfs & _). rewrite <- Hfs in Hf1.
    apply wp_bind. eapply wp_get_fn; [done|]. cbv zeta.
    destruct (fn_facts _ _ _ Hb2 Hf1) as ((Hv & Hvs & Hall) & Ha & Hlb).
    set (blk := mkBB _ _ _).
    destruct (vec_push_spec _ blk Hv Hlt) as (v' & Hpush & Hv' & Hat & Hit & Hcnt & _).
    apply wp_bind. eapply wp_deref; [exact Hpush|]. apply wp_bind, wp_put_fn, wp_ret.
    assert (fview (set_blocks fn1 v') = af_add_block (fview fn1) (mkAB (block_count fn1) label [])) as Hfv.
    { unfold fview, set_blocks, af_add_block. cbn [fn_blocks af_blocks]. rewrite Hit, fmap_app. done. }
    assert (block_count fn1 = Z.of_nat (length (af_blocks (fview fn1)))) as Hbc by (by rewrite Hlb).
    split.
    - eapply put_fn_ok; try done; [|cbn; lia|].
      + split_and!; [done..|]. cbn [fn_blocks set_blocks]. rewrite Hit. apply Forall_app. split; [done|].
        constructor; [|constructor]. unfold blk. split; cbn [bb_insts v_slots].
        * unfold vec_ok, v_cap. cbn [v_slots v_count]. rewrite length_replicate. unfold kInitInsts, kMaxCap. lia.
        * by apply Forall_replicate.
      + rewrite Hfv, Hbc. by apply afn_ok_block.
    - exists (fview fn1). destruct Hu2 as (_ & Hmv & _).
      split_and!; [|done|].
      + rewrite <- Hmv. cbn. by rewrite list_lookup_fmap, Hf1.
      + by rewrite mview_upd, Hmv, Hfv. }
  apply wp_bind, grow_if_wp.
  - intros _. eapply wp_mono; [by eapply grow_blocks_ok| |done].
    intros _ b1 (fn1 & Hu & Hf1 & Hlt). by apply (Hrest b1 fn1).
  - intros Hc. apply (Hrest b fn); [apply unchanged_refl, Hb|done|].
    apply Z.leb_gt in Hc. unfold v_cap, block_count in Hc. lia.
Qed.

Lemma set_insert_point_ok b f blk :
  builder_ok b -> (forall i, f = Some i -> (i < length (m_functions (b_mod b)))%nat) -> 0 <= blk ->
  wp (set_insert_point f blk)
    (fun _ b' => builder_ok b' /\ mview (b_mod b') = mview (b_mod b)) (fun _ _ => False) b.
Proof.
  intros Hb Hf Hblk. unfold set_insert_point. apply wp_bind, wp_get.
  assert (Hnone : builder_ok (set_point b None kNoBlock None)).
  { destruct Hb as [[R1 R2 R3 R4] Hm]. split; [by split|done]. }
  destruct f as [i|]; [|by apply wp_put].
  destruct (lookup_lt_is_Some_2 _ _ (Hf i eq_refl)) as [fn Hfn].
  apply wp_bind. eapply wp_get_fn; [done|].
  destruct (Z.leb_spec (block_count fn) blk) as [|Hlt]; [by apply wp_put|].
  apply wp_put. split; [|done]. destruct Hb as [[R1 R2 R3 R4] Hm]. split; [|done].
  split; try done. unfold point_ok. cbn. exists fn. unfold block_count in Hlt. split_and!; try done; lia.
Qed.

(** ** Structs and functions of the module *)

Definition new_fn (name route : list Z) (meth : Z) : AFn :=
  mkAFn name route meth [] [] 0 None None (false, 0, false, replicate kMaxResumeBlocks 0).

Definition am_add_fn (m : AMod) (a : AFn) : AMod :=
  mkAMod (am_name m) (am_structs m) (am_functions m ++ [a]) (am_bodies m) (am_sets m) (am_upstreams m).

Definition am_add_struct (m : AMod) (sd : StructDef) : AMod :=
  mkAMod (am_name m) (am_structs m ++ [sd]) (am_functions m) (am_bodies m) (am_sets m) (am_upstreams m).

Lemma create_struct_ok b name fields :
  builder_ok b -> Forall (fun f => oty_ok (length (structs b)) (fd_type f) = true) fields ->
  wp (create_struct name fields)
    (fun k b' => builder_ok b' /\ k = length (structs b) /\
       mview (b_mod b') = am_add_struct (mview (b_mod b)) (mkStruct name fields))
    (fun _ b' => unchanged b b') b.
Proof.
  intros Hb Hfields. unfold create_struct. apply wp_bind, wp_get.
  destruct (m_struct_defs (b_mod b)) as [l|] eqn:El; [|apply wp_err, unchanged_refl, Hb].
  destruct (Nat.leb _ _); [apply wp_err, unchanged_refl, Hb|].
  apply wp_bind, wp_lift_alloc. intros p b1 Heq Hc.
  assert (cache_ok b1) as Hc1 by (eapply cache_same; [done|apply Hb]).
  assert (rep_ok b1) as Hr1 by (eapply arena_eq_rep; [done..|apply Hb]).
  apply wp_bind, wp_some_or; [intros _ _|intros _; apply arena_eq_unchanged; [apply Hb|done..]].
  apply wp_bind, wp_get, wp_bind, wp_put, wp_ret.
  assert (structs b = l) as Hsb by (unfold structs; cbn; unfold m_structs; by rewrite El).
  destruct (ok_arena _ _ Hb Heq Hr1) as [[_ Hm] Hs].
  rewrite Hsb. split; [|split; [done|]].
  2: { destruct (arena_eq_fields _ _ Heq) as (_ & _ & _ & Hmv & _). rewrite <- Hmv. unfold mview, am_add_struct. cbn.
    unfold structs in Hs, Hsb. cbn in Hs, Hsb. by rewrite Hs, Hsb. }
  assert (l `prefix_of` l ++ [mkStruct name fields]) as Hpre by (by exists [mkStruct name fields]).
  split.
  - destruct Hr1 as [R1 R2 R3 R4]. by split.
  - destruct Hm as [M1 M2 M3 M4]. unfold structs in Hs, Hsb. rewrite Hs, Hsb in *.
    split; cbn; try done.
    + eapply Forall_impl; [exact M1|]. intros a Ha. by eapply afn_ok_structs.
    + unfold field_types_ok in *. rewrite length_app.
      assert (forall t, oty_ok (length l) t = true -> oty_ok (length l + length [mkStruct name fields]) t = true) as Hmono.
      { intros [t|]; [|done]. cbn [oty_ok]. apply ty_ok_mono. lia. }
      apply Forall_app. split.
      * eapply Forall_impl; [exact M2|]. intros sd Hsd. eapply Forall_impl; [exact Hsd|]. cbn. auto.
      * constructor; [|constructor]. cbn [sd_fields]. eapply Forall_impl; [exact Hfields|].
        intros fd Hfd. apply Hmono. unfold structs in Hfd. by rewrite Hsb in Hfd.
Qed.

Lemma create_function_ok b name route meth :
  builder_ok b ->
  wp (create_function name route meth)
    (fun f b' => builder_ok b' /\ f = length (m_functions (b_mod b)) /\
       mview (b_mod b') = am_add_fn (mview (b_mod b)) (new_fn name route meth))
    (fun _ b' => unchanged b b') b.
Proof.
  intros Hb. unfold create_function. apply wp_bind, wp_get.
  apply wp_bind, wp_guard; [intros _|intros _; apply unchanged_refl, Hb].
  apply wp_bind, wp_lift_alloc. intros p1 b1 Heq1 Hc1. apply wp_bind, wp_lift_alloc. intros p2 b2 Heq2 Hc2.
  assert (arena_eq b b2) as Heq by (by eapply arena_eq_trans).
  assert (cache_ok b2) as Hc by (eapply cache_same; [|apply Hb]; congruence).
  assert (rep_ok b2) as Hr2 by (eapply arena_eq_rep; [done..|apply Hb]).
  destruct (ok_arena _ _ Hb Heq Hr2) as [[_ Hm2] _]. destruct (arena_eq_fields _ _ Heq) as (Hfs & _ & _ & Hmv & _).
  apply wp_bind, wp_some_or; [intros q1 _|intros _; apply arena_eq_unchanged; [apply Hb|done..]].
  apply wp_bind, wp_some_or; [intros q2 _|intros _; apply arena_eq_unchanged; [apply Hb|done..]].
  apply wp_bind, wp_get. cbv zeta. apply wp_bind, wp_put, wp_ret. set (fn := mkFn _ _ _ _ _ _ _ _ _ _ _ _).
  assert (rep_fn fn) as Hrep.
  { unfold fn. split_and!; cbn [fn_blocks fn_values]; unfold vec_ok, v_cap, vec_items; cbn [v_slots v_count];
      rewrite ?length_replicate; unfold kInitBlocks, kInitValues, kMaxCap; try lia.
    rewrite take_0. constructor. }
  split_and!.
  - split.
    + destruct Hr2 as [R1 R2 R3 R4]. split; cbn; try done.
      * apply Forall_app. split; [done|]. by constructor.
      * unfold point_ok in *. cbn. destruct (b_cur_func b2) as [g|], (b_cur_block b2) as [[at_ i]|]; try done.
        destruct R2 as (gn & Hg & Hrest). exists gn. split; [|done]. by apply lookup_app_l_Some.
    + destruct Hm2 as [M1 M2 M3 M4]. split; cbn; try done. rewrite fmap_app. apply Forall_app. split; [done|].
      constructor; [|constructor].
      assert (forall k, block_insts (fview fn) k = []) as Hbi by (intros [|k]; done).
      split.
      * intros k ab. done.
      * intros k j x. by rewrite Hbi.
      * intros k j x. by rewrite Hbi.
      * intros r v. done.
      * cbn. unfold kMaxCap. lia.
      * cbn. split; [done|]. repeat (constructor; [by left|]). constructor.
  - by rewrite Hfs.
  - rewrite <- Hmv. unfold mview, am_add_fn. cbn. rewrite fmap_app. done.
Qed.
End module_ops.
