(* ===== verification/RirIntern.v ===== *)
(** * Interned response bodies and header sets

    [intern_response_body] and [intern_response_headers] against a list of
    distinct bodies and a list of distinct header sets: an index stands for
    the bytes it was given for, equal arguments get equal indices, and 0 means
    that nothing was added.  The flat header pool and its offsets are hidden
    behind [set_pairs]. *)

From S2P Require Import Prelude HandlerAbi Rir RirBuilder RirEmit RirLogic RirTyping RirBuilderOk.
Open Scope rir_scope.

(** Position [idx - 1] of the table. *)
Definition at_index {T} (l : list T) (idx : Z) : option T :=
  if idx <=? 0 then None else l !! Z.to_nat (idx - 1).

(** The table is as before with the new entry, if it is new, behind it. *)
Definition interned {T} (l l' : list T) (x : T) (idx : Z) : Prop :=
  at_index l' idx = Some x /\ (l' = l \/ (x ∉ l /\ l' = l ++ [x])).

Lemma at_index_S {T} (l : list T) i : at_index l (Z.of_nat i + 1) = l !! i.
Proof. unfold at_index. rewrite (proj2 (Z.leb_gt _ _)) by lia. f_equal. lia. Qed.

Lemma interned_nodup {T} (l l' : list T) x idx : NoDup l -> interned l l' x idx -> NoDup l'.
Proof.
  intros Hl [_ [->|[Hx ->]]]; [done|]. apply NoDup_app. split_and!; [done| |apply NoDup_singleton].
  intros y Hy ->%list_elem_of_singleton. done.
Qed.

Section intern.
Context {A : Type} `{HB : Bump A}.
Implicit Types (b : Builder A).

(** ** Bodies *)

Lemma find_body_spec i l body :
  match find_body i l body with
  | Some j => (i <= j)%nat /\ l !! (j - i)%nat = Some body
  | None => body ∉ l
  end.
Proof.
  revert i. induction l as [|x l IH]; intros i; cbn; [apply not_elem_of_nil|].
  destruct (str_eq x body) eqn:E.
  - apply str_eq_true in E as ->. by rewrite Nat.sub_diag.
  - specialize (IH (S i)). destruct (find_body (S i) l body) as [j|].
    + destruct IH as [Hle Hj]. split; [lia|]. by replace (j - i)%nat with (S (j - S i)) by lia.
    + rewrite not_elem_of_cons. split; [|done]. intros ->.
      by rewrite (proj2 (str_eq_true _ _) eq_refl) in E.
Qed.

(** The module with other bodies. *)
Definition am_set_bodies (m : AMod) (l : list (list Z)) : AMod :=
  mkAMod (am_name m) (am_structs m) (am_functions m) l (am_sets m) (am_upstreams m).

Lemma intern_body_ok b body :
  builder_ok b ->
  wp (intern_response_body body)
    (fun idx b' => builder_ok b' /\ ((idx = 0 /\ unchanged b b') \/
       exists l, interned (am_bodies (mview (b_mod b))) l body idx /\
         mview (b_mod b') = am_set_bodies (mview (b_mod b)) l))
    (fun _ _ => False) b.
Proof.
  intros Hb. unfold intern_response_body. apply wp_bind, wp_get. cbv zeta.
  pose proof (mo_bodies _ (proj2 Hb)) as [Hnd Hlen]. cbn in Hnd, Hlen.
  pose proof (find_body_spec 0 (m_response_bodies (b_mod b)) body) as Hfind.
  assert (Hu : builder_ok b /\ (0 = 0 /\ unchanged b b)) by (split; [done|]; split; [done|]; apply unchanged_refl, Hb).
  destruct (find_body 0 _ body) as [i|].
  { destruct Hfind as [_ Hi]. rewrite Nat.sub_0_r in Hi. pose proof (lookup_lt_Some _ _ _ Hi) as Hlt.
    apply wp_ret. split; [done|]. right. exists (m_response_bodies (b_mod b)).
    unfold kMaxResponseBodies in *. rewrite u16_small by lia. split; [|done].
    split; [by rewrite at_index_S|by left]. }
  destruct (Nat.leb_spec kMaxResponseBodies (length (m_response_bodies (b_mod b)))) as [|Hroom].
  { apply wp_ret. split; [done|]. left. apply Hu. }
  assert (Hrest : forall (buf : option Z) b1, arena_eq b b1 -> rep_ok b1 ->
    wp (match buf with
        | None => ret 0
        | Some _ =>
            b <- get ;;
            put (set_mod b (set_bodies (b_mod b) (m_response_bodies (b_mod b1) ++ [body]))) ;;;
            ret (u16 (Z.of_nat (length (m_response_bodies (b_mod b1))) + 1))
        end)
      (fun idx b' => builder_ok b' /\ ((idx = 0 /\ unchanged b b') \/
         exists l, interned (am_bodies (mview (b_mod b))) l body idx /\
           mview (b_mod b') = am_set_bodies (mview (b_mod b)) l))
      (fun _ _ => False) b1).
  { intros buf b1 Heq Hr1. destruct (ok_arena _ _ Hb Heq Hr1) as [Hb1 _].
    destruct (arena_eq_fields _ _ Heq) as (_ & _ & _ & Hmv & _).
    assert (m_response_bodies (b_mod b1) = m_response_bodies (b_mod b)) as Hbo
      by exact (f_equal am_bodies Hmv).
    destruct buf as [p|]; [apply wp_bind, wp_get, wp_bind, wp_put, wp_ret|apply wp_ret].
    - set (b2 := set_mod b1 _). set (l := m_response_bodies (b_mod b) ++ [body]).
      assert (mview (b_mod b2) = am_set_bodies (mview (b_mod b)) l) as Hmv2.
      { rewrite <- Hmv. unfold b2, l. by rewrite <- Hbo. }
      unfold kMaxResponseBodies in *.
      assert (interned (am_bodies (mview (b_mod b))) l body (u16 (Z.of_nat (length (m_response_bodies (b_mod b1))) + 1)))
        as Hin.
      { rewrite Hbo, u16_small by lia. split; [|by right].
        rewrite at_index_S. unfold l. by apply list_lookup_middle. }
      split; [|right; by exists l]. split.
      + destruct Hr1 as [R1 R2 R3 R4]. by split.
      + rewrite Hmv2. destruct Hb as [_ [M1 M2 M3 M4]]. split; try done. split.
        * by eapply interned_nodup.
        * unfold l. cbn. rewrite length_app. cbn. unfold kMaxResponseBodies. lia.
    - split; [done|]. left. split; [done|]. apply arena_eq_unchanged; [apply Hb|done|apply Hr1]. }
  apply wp_bind. destruct (Nat.ltb 0 (length body)).
  - apply wp_lift_alloc. intros p b1 Heq Hc.
    assert (rep_ok b1) as Hr1 by (eapply arena_eq_rep; [done| |apply Hb]; eapply cache_same; [done|apply Hb]).
    destruct (arena_eq_fields _ _ Heq) as (_ & _ & _ & Hmv & _).
    replace (m_response_bodies (b_mod b)) with (m_response_bodies (b_mod b1)) by exact (f_equal am_bodies Hmv).
    by apply Hrest.
  - apply wp_ret. apply (Hrest (Some 0) b); [apply arena_eq_refl|apply Hb].
Qed.

(** ** Header sets *)

Lemma pairs_eq_true a c : pairs_eq a c = true <-> a = c.
Proof.
  revert c. induction a as [|[k v] a IH]; intros [|[k' v'] c]; cbn; try done.
  rewrite !andb_true_iff, !str_eq_true, IH. split; [by intros [[-> ->] ->]|by intros [= -> -> ->]].
Qed.

Lemma set_pairs_length (m : Module_ A) r :
  pool_ok m -> r ∈ m_header_sets m ->
  Z.of_nat (length (set_pairs (m_header_keys m) (m_header_values m) r)) = hs_count r.
Proof.
  intros (Hk & Hv & Hu & Hall) Hr. rewrite Forall_forall in Hall. destruct (Hall _ Hr) as (H0 & H1 & H2).
  unfold set_pairs. rewrite length_zip_with, !length_take, !length_drop. lia.
Qed.

Lemma find_set_spec (m : Module_ A) i sets pairs :
  pool_ok m -> (forall r, r ∈ sets -> r ∈ m_header_sets m) ->
  let views := set_pairs (m_header_keys m) (m_header_values m) <$> sets in
  match find_set m i sets pairs with
  | Some j => (i <= j)%nat /\ views !! (j - i)%nat = Some pairs
  | None => pairs ∉ views
  end.
Proof.
  intros Hp Hsub. revert i. induction sets as [|r sets IH]; intros i; cbn; [apply not_elem_of_nil|].
  change (pool_pairs m _ _) with (set_pairs (m_header_keys m) (m_header_values m) r).
  pose proof (set_pairs_length m r Hp (Hsub r ltac:(left))) as Hlen.
  destruct (_ && _) eqn:E.
  - apply andb_true_iff in E as [_ E]. apply pairs_eq_true in E. by rewrite Nat.sub_diag, E.
  - specialize (IH (fun r Hr => Hsub r (list_elem_of_further _ _ _ Hr)) (S i)). destruct (find_set m (S i) sets pairs) as [j|].
    + destruct IH as [Hle Hj]. split; [lia|]. by replace (j - i)%nat with (S (j - S i)) by lia.
    + rewrite not_elem_of_cons. split; [|done]. intros ->.
      apply andb_false_iff in E as [E|E].
      * rewrite Hlen, Z.eqb_refl in E. done.
      * by rewrite (proj2 (pairs_eq_true _ _) eq_refl) in E.
Qed.

(** The builder with another arena and other pool entries. *)
Definition repool b (a : A) (ks vs : list (list Z)) : Builder A :=
  set_mod b (set_headers (set_arena (b_mod b) a) ks vs (m_header_pool_used (b_mod b)) (m_header_sets (b_mod b))).

Definition pool_part b : A * list (list Z) * list (list Z) :=
  (m_arena (b_mod b), m_header_keys (b_mod b), m_header_values (b_mod b)).

Lemma repool_same b : b = repool b (m_arena (b_mod b)) (m_header_keys (b_mod b)) (m_header_values (b_mod b)).
Proof. destruct b as [[] ? ? ? ?]. done. Qed.

Lemma copy_into_arena_wp b s Q E :
  (forall r a, (r = None \/ r = Some s) -> Q r (repool b a (m_header_keys (b_mod b)) (m_header_values (b_mod b)))) ->
  wp (copy_into_arena s) Q E b.
Proof.
  intros HQ. unfold copy_into_arena. destruct (Nat.eqb_spec (length s) 0) as [Hs|].
  - apply wp_ret. rewrite (repool_same b) at 1. apply HQ. right. by destruct s.
  - apply wp_bind. unfold arena_array, lift_alloc, wp, bind, get.
    destruct (bump_array _ _ _) as [buf a]. cbn. change (set_mod b (set_arena (b_mod b) a)) with
      (repool b a (m_header_keys (b_mod b)) (m_header_values (b_mod b))).
    apply HQ. destruct (_ || _); auto.
Qed.

(** The copies go to positions [pos], [pos + 1], ...; the part before stays. *)
Definition copied (pos : nat) (l l' : list (list Z)) : Prop :=
  length l' = length l /\ take pos l' = take pos l.

Lemma copied_step pos l l' x :
  (pos < length l)%nat -> copied (S pos) (<[pos := x]> l) l' ->
  copied pos l l' /\ drop pos l' = x :: drop (S pos) l'.
Proof.
  intros Hlt [Hl Ht]. rewrite length_insert in Hl. split; [split; [done|]|].
  - apply (f_equal (take pos)) in Ht. rewrite !take_take, !Nat.min_l in Ht by lia.
    by rewrite take_insert_ge in Ht.
  - apply drop_S. apply (f_equal (fun l => l !! pos)) in Ht.
    by rewrite !lookup_take_lt, list_lookup_insert_eq in Ht by lia.
Qed.

Lemma copy_pairs_wp b pos pairs :
  (pos + length pairs <= length (m_header_keys (b_mod b)))%nat ->
  length (m_header_values (b_mod b)) = length (m_header_keys (b_mod b)) ->
  wp (copy_pairs pos pairs)
    (fun ok b' => exists a ks vs, b' = repool b a ks vs /\
       copied pos (m_header_keys (b_mod b)) ks /\ copied pos (m_header_values (b_mod b)) vs /\
       (ok = true -> take (length pairs) (drop pos ks) = fst <$> pairs /\
                     take (length pairs) (drop pos vs) = snd <$> pairs))
    (fun _ _ => False) b.
Proof.
  revert b pos. induction pairs as [|[key value] pairs IH]; intros b pos Hlen Hkv; cbn [copy_pairs].
  { apply wp_ret. eexists _, _, _. split; [apply repool_same|]. by split_and!. }
  cbn [length] in *. apply wp_bind, copy_into_arena_wp. intros r1 a1 [->| ->].
  { apply wp_ret. by eexists _, _, _. }
  apply wp_bind, copy_into_arena_wp. intros r2 a2 [->| ->].
  { apply wp_ret. by eexists _, _, _. }
  apply wp_bind, wp_get. cbv zeta. apply wp_bind.
  cbn [repool set_mod b_mod set_headers m_header_keys m_header_values set_arena].
  rewrite (proj2 (Nat.ltb_lt pos (length (m_header_keys (b_mod b))))) by lia.
  rewrite (proj2 (Nat.ltb_lt pos (length (m_header_values (b_mod b))))) by lia. cbn [andb]. apply wp_put.
  match goal with |- wp _ _ _ ?x => change x with (repool b a2 (<[pos := key]> (m_header_keys (b_mod b)))
    (<[pos := value]> (m_header_values (b_mod b)))) end.
  eapply wp_mono; [apply IH| |done].
  - cbn. rewrite length_insert. lia.
  - cbn. by rewrite !length_insert.
  - cbn [repool set_mod b_mod set_headers m_header_keys m_header_values set_arena].
    intros ok b' (a & ks & vs & -> & Hk & Hv & Hok). exists a, ks, vs. split; [done|].
    assert (pos < length (m_header_keys (b_mod b)))%nat as Hltk by lia.
    destruct (copied_step _ _ _ _ Hltk Hk) as [Hk' Ek].
    assert (pos < length (m_header_values (b_mod b)))%nat as Hlt by lia.
    destruct (copied_step _ _ _ _ Hlt Hv) as [Hv' Ev]. split_and!; try apply Hk'; try apply Hv'.
    intros [H1 H2]%Hok. rewrite Ek, Ev. cbn. by rewrite H1, H2.
Qed.

(** Entries before the used part are as before. *)
Lemma set_pairs_copied ks ks' vs vs' n r :
  copied n ks ks' -> copied n vs vs' ->
  0 <= hs_offset r -> 0 < hs_count r -> hs_offset r + hs_count r <= Z.of_nat n ->
  set_pairs ks' vs' r = set_pairs ks vs r.
Proof.
  intros [_ Hk] [_ Hv] H0 H1 H2. unfold set_pairs.
  assert (forall l l' : list (list Z), take n l' = take n l ->
    take (Z.to_nat (hs_count r)) (drop (Z.to_nat (hs_offset r)) l') =
    take (Z.to_nat (hs_count r)) (drop (Z.to_nat (hs_offset r)) l)) as Haux.
  { intros l l' Hl. rewrite !take_drop_commute.
    apply (f_equal (take (Z.to_nat (hs_offset r) + Z.to_nat (hs_count r)))) in Hl.
    rewrite !take_take, !Nat.min_l in Hl by lia. by rewrite Hl. }
  by rewrite (Haux ks ks'), (Haux vs vs').
Qed.

Definition am_set_sets (m : AMod) (l : list (list (list Z * list Z))) : AMod :=
  mkAMod (am_name m) (am_structs m) (am_functions m) (am_bodies m) l (am_upstreams m).

Lemma repool_ok b a ks vs :
  builder_ok b -> copied (m_header_pool_used (b_mod b)) (m_header_keys (b_mod b)) ks ->
  copied (m_header_pool_used (b_mod b)) (m_header_values (b_mod b)) vs ->
  unchanged b (repool b a ks vs).
Proof.
  intros [[R1 R2 R3 R4] _] Hk Hv. destruct R4 as (P1 & P2 & P3 & P4). split.
  - split; try done. destruct Hk as [Hk _], Hv as [Hv _]. split_and!; cbn; try done; congruence.
  - split; [|done]. unfold mview. cbn. f_equal. apply list_fmap_ext. intros i r Hr.
    rewrite Forall_lookup in P4. destruct (P4 _ _ Hr) as (H0 & H1 & H2). by eapply set_pairs_copied.
Qed.

Lemma intern_headers_ok b pairs :
  builder_ok b ->
  wp (intern_response_headers pairs)
    (fun idx b' => builder_ok b' /\ ((idx = 0 /\ unchanged b b') \/
       exists l, interned (am_sets (mview (b_mod b))) l pairs idx /\
         mview (b_mod b') = am_set_sets (mview (b_mod b)) l))
    (fun _ _ => False) b.
Proof.
  intros Hb. unfold intern_response_headers. cbv zeta.
  assert (unchanged b b) as Hu by apply unchanged_refl, Hb.
  destruct (Nat.eqb_spec (length pairs) 0) as [|Hne]; [apply wp_ret; by auto|].
  apply wp_bind, wp_get.
  pose proof (mo_sets _ (proj2 Hb)) as [Hnd Hlen]. cbn in Hnd, Hlen. rewrite length_fmap in Hlen.
  pose proof (ro_pool _ (proj1 Hb)) as Hpool.
  pose proof (find_set_spec (b_mod b) 0 (m_header_sets (b_mod b)) pairs Hpool ltac:(done)) as Hfind. cbv zeta in Hfind.
  destruct (find_set _ 0 _ pairs) as [i|].
  { destruct Hfind as [_ Hi]. rewrite Nat.sub_0_r in Hi. pose proof (lookup_lt_Some _ _ _ Hi) as Hlt.
    rewrite length_fmap in Hlt. apply wp_ret. split; [done|]. right. eexists.
    unfold kMaxHeaderSets in *. rewrite u16_small by lia. split; [split|].
    - rewrite at_index_S. exact Hi.
    - by left.
    - done. }
  destruct (Nat.leb_spec kMaxHeaderSets (length (m_header_sets (b_mod b)))) as [|Hroom]; [apply wp_ret; by auto|].
  destruct (Nat.ltb_spec (kMaxHeaderPoolEntries - m_header_pool_used (b_mod b)) (length pairs)) as [|Hfit];
    [apply wp_ret; by auto|].
  pose proof Hpool as (P1 & P2 & P3 & P4). apply wp_bind.
  eapply wp_mono; [apply copy_pairs_wp; lia| |done].
  intros ok b1 (a & ks & vs & -> & Hk & Hv & Hok).
  pose proof (repool_ok b a ks vs Hb Hk Hv) as Hu1. pose proof (unchanged_ok _ _ Hb Hu1) as Hb1.
  destruct ok; cbn [negb]; [|apply wp_ret; by auto]. destruct (Hok eq_refl) as [Tk Tv].
  apply wp_bind, wp_get, wp_bind, wp_put, wp_ret. set (b2 := set_mod _ _).
  set (views := am_sets (mview (b_mod b))).
  unfold kMaxHeaderSets, kMaxHeaderPoolEntries in *.
  assert (mview (b_mod b2) = am_set_sets (mview (b_mod b)) (views ++ [pairs])) as Hmv2.
  { unfold mview, am_set_sets, b2, views. cbn. rewrite fmap_app. f_equal. f_equal.
    - exact (f_equal am_sets (proj1 (proj2 Hu1))).
    - unfold set_pairs. cbn. rewrite !u16_small, !Nat2Z.id, Tk, Tv by lia. cbn. f_equal.
      apply zip_fst_snd. }
  cbn [repool set_mod b_mod set_headers set_arena m_header_sets].
  rewrite u16_small by lia.
  assert (interned views (views ++ [pairs]) pairs (Z.of_nat (length (m_header_sets (b_mod b))) + 1)) as Hin.
  { split; [|by right]. rewrite at_index_S. apply list_lookup_middle. unfold views. cbn. by rewrite length_fmap. }
  split; [|right; by exists (views ++ [pairs])]. split.
  - destruct Hb1 as [[R1 R2 R3 R4] _]. split; try done.
    destruct R4 as (Q1 & Q2 & Q3 & Q4). cbn in Q1, Q2, Q3, Q4. split_and!; cbn; [done|done|unfold kMaxHeaderPoolEntries; lia|].
    apply Forall_app. split.
    + eapply Forall_impl; [exact Q4|]. cbn. lia.
    + constructor; [|constructor]. cbn. rewrite !u16_small by lia. lia.
  - rewrite Hmv2. destruct Hb as [_ [M1 M2 M3 M4]]. split; try done. split.
    + by eapply interned_nodup.
    + unfold views. cbn. rewrite length_app, length_fmap. cbn. unfold kMaxHeaderSets. lia.
Qed.
End intern.
