(* ===== verification/RirCalls.v ===== *)
(** * Uses of the builder

    A use of the builder is a sequence of calls of its public operations, each
    with arguments that exist: functions and structs that were created, types
    over created structs, non-negative numbers.  No call faults; a call that
    succeeds keeps the module well formed and has the effect its row of
    [effect] says; a call that fails changes nothing, with the two exceptions
    of [partial]. *)

From S2P Require Import Prelude HandlerAbi Rir RirBuilder RirEmit RirLogic RirTyping RirBuilderOk.
From S2P Require Import RirModuleOps RirIntern.
Open Scope rir_scope.

Inductive Call :=
| CreateStruct (name : list Z) (fields : list FieldDef)
| MakeType (kind : TypeKind.t) (inner : option Ty) (sd : option nat)
| CreateFunction (name route : list Z) (meth : Z)
| SetYieldPayload (f : nat) (ms : list Z) (kinds : option (list Z))
| SetStateZero (f : option nat) (terminal : Z)
| SetResumeBlocks (f : option nat) (blocks : list Z)
| CreateBlock (f : nat) (label : list Z)
| SetInsertPoint (f : option nat) (block : Z)
| InternBody (body : list Z)
| InternHeaders (pairs : list (list Z * list Z))
| ConstStr (v : list Z) (l : SourceLoc)
| ConstI32 (v : Z) (l : SourceLoc)
| ConstI64 (v : Z) (l : SourceLoc)
| ConstBool (v : bool) (l : SourceLoc)
| ConstDuration (v : Z) (l : SourceLoc)
| ConstByteSize (v : Z) (l : SourceLoc)
| ConstMethod (v : Z) (l : SourceLoc)
| ConstStatus (v : Z) (l : SourceLoc)
| ReqHeader (name : list Z) (l : SourceLoc)
| ReqParam (name : list Z) (l : SourceLoc)
| ReqMethod (l : SourceLoc)
| ReqPath (l : SourceLoc)
| ReqPathOnly (l : SourceLoc)
| ReqBody (l : SourceLoc)
| ReqKeepAlive (l : SourceLoc)
| ReqChunked (l : SourceLoc)
| ReqHasContentLength (l : SourceLoc)
| ReqHttp10 (l : SourceLoc)
| ReqHttp11 (l : SourceLoc)
| ReqHttpVersion (l : SourceLoc)
| ResumeEventKind (l : SourceLoc)
| ResumeEventResult (l : SourceLoc)
| CtxLoadSlot (slot : Z) (l : SourceLoc)
| ReqRemoteAddr (l : SourceLoc)
| ReqContentLength (l : SourceLoc)
| ReqCookie (name : list Z) (l : SourceLoc)
| ReqQuery (name : list Z) (l : SourceLoc)
| ReqQueryString (l : SourceLoc)
| ReqSetHeader (name : list Z) (v : Z) (l : SourceLoc)
| ReqSetPath (v : Z) (l : SourceLoc)
| CtxStoreSlot (slot v : Z) (l : SourceLoc)
| StrHasPrefix (s p : Z) (l : SourceLoc)
| StrTrimPrefix (s p : Z) (l : SourceLoc)
| StrRegexMatch (s : Z) (pat : list Z) (l : SourceLoc)
| StrInterpolate (parts : option (list Z)) (count : nat) (l : SourceLoc)
| Cmp (op : Opcode.t) (lhs rhs : Z) (l : SourceLoc)
| TimeNow (l : SourceLoc)
| TimeDiff (a c : Z) (l : SourceLoc)
| IpInCidr (ip : Z) (cidr : list Z) (l : SourceLoc)
| OptNil (ty : option Ty) (l : SourceLoc)
| OptWrap (v : Z) (l : SourceLoc)
| OptIsNil (v : Z) (l : SourceLoc)
| Select (c x y : Z) (l : SourceLoc)
| OptUnwrap (v : Z) (ty : option Ty) (l : SourceLoc)
| StructField (s : Z) (name : list Z) (ty : option Ty) (l : SourceLoc)
| StructCreate (sd : option nat) (values : option (list Z)) (count : nat) (l : SourceLoc)
| BodyParse (ty : option Ty) (l : SourceLoc)
| CounterIncr (key window : Z) (l : SourceLoc)
| Br (c t e : Z) (l : SourceLoc)
| Jmp (t : Z) (l : SourceLoc)
| RetStatus (code body headers : Z) (l : SourceLoc)
| RetStatusValue (code : Z) (l : SourceLoc)
| RetForward (upstream : Z) (l : SourceLoc)
| YieldHttpGet (url : list Z) (headers : Z) (l : SourceLoc)
| YieldEvent (kind payload next : Z) (l : SourceLoc)
| YieldTimer (ms next : Z) (l : SourceLoc).

(** The instruction a call emits. *)
Definition emission (c : Call) : option (Opcode.t * SourceLoc) :=
  match c with
  | CreateStruct _ _ | MakeType _ _ _ | CreateFunction _ _ _ | SetYieldPayload _ _ _ | SetStateZero _ _
  | SetResumeBlocks _ _ | CreateBlock _ _ | SetInsertPoint _ _ | InternBody _ | InternHeaders _ => None
  | ConstStr _ l => Some (Opcode.ConstStr, l)
  | ConstI32 _ l => Some (Opcode.ConstI32, l)
  | ConstI64 _ l => Some (Opcode.ConstI64, l)
  | ConstBool _ l => Some (Opcode.ConstBool, l)
  | ConstDuration _ l => Some (Opcode.ConstDuration, l)
  | ConstByteSize _ l => Some (Opcode.ConstByteSize, l)
  | ConstMethod _ l => Some (Opcode.ConstMethod, l)
  | ConstStatus _ l => Some (Opcode.ConstStatus, l)
  | ReqHeader _ l => Some (Opcode.ReqHeader, l)
  | ReqParam _ l => Some (Opcode.ReqParam, l)
  | ReqMethod l => Some (Opcode.ReqMethod, l)
  | ReqPath l => Some (Opcode.ReqPath, l)
  | ReqPathOnly l => Some (Opcode.ReqPathOnly, l)
  | ReqBody l => Some (Opcode.ReqBody, l)
  | ReqKeepAlive l => Some (Opcode.ReqKeepAlive, l)
  | ReqChunked l => Some (Opcode.ReqChunked, l)
  | ReqHasContentLength l => Some (Opcode.ReqHasContentLength, l)
  | ReqHttp10 l => Some (Opcode.ReqHttp10, l)
  | ReqHttp11 l => Some (Opcode.ReqHttp11, l)
  | ReqHttpVersion l => Some (Opcode.ReqHttpVersion, l)
  | ResumeEventKind l => Some (Opcode.ResumeEventKind, l)
  | ResumeEventResult l => Some (Opcode.ResumeEventResult, l)
  | CtxLoadSlot _ l => Some (Opcode.CtxLoadSlotI32, l)
  | ReqRemoteAddr l => Some (Opcode.ReqRemoteAddr, l)
  | ReqContentLength l => Some (Opcode.ReqContentLength, l)
  | ReqCookie _ l => Some (Opcode.ReqCookie, l)
  | ReqQuery _ l => Some (Opcode.ReqQuery, l)
  | ReqQueryString l => Some (Opcode.ReqQueryString, l)
  | ReqSetHeader _ _ l => Some (Opcode.ReqSetHeader, l)
  | ReqSetPath _ l => Some (Opcode.ReqSetPath, l)
  | CtxStoreSlot _ _ l => Some (Opcode.CtxStoreSlotI32, l)
  | StrHasPrefix _ _ l => Some (Opcode.StrHasPrefix, l)
  | StrTrimPrefix _ _ l => Some (Opcode.StrTrimPrefix, l)
  | StrRegexMatch _ _ l => Some (Opcode.StrRegexMatch, l)
  | StrInterpolate _ _ l => Some (Opcode.StrInterpolate, l)
  | Cmp op _ _ l => Some (op, l)
  | TimeNow l => Some (Opcode.TimeNow, l)
  | TimeDiff _ _ l => Some (Opcode.TimeDiff, l)
  | IpInCidr _ _ l => Some (Opcode.IpInCidr, l)
  | OptNil _ l => Some (Opcode.OptNil, l)
  | OptWrap _ l => Some (Opcode.OptWrap, l)
  | OptIsNil _ l => Some (Opcode.OptIsNil, l)
  | Select _ _ _ l => Some (Opcode.Select, l)
  | OptUnwrap _ _ l => Some (Opcode.OptUnwrap, l)
  | StructField _ _ _ l => Some (Opcode.StructField, l)
  | StructCreate _ _ _ l => Some (Opcode.StructCreate, l)
  | BodyParse _ l => Some (Opcode.BodyParse, l)
  | CounterIncr _ _ l => Some (Opcode.CounterIncr, l)
  | Br _ _ _ l => Some (Opcode.Br, l)
  | Jmp _ l => Some (Opcode.Jmp, l)
  | RetStatus _ _ _ l => Some (Opcode.RetStatus, l)
  | RetStatusValue _ l => Some (Opcode.RetStatus, l)
  | RetForward _ l => Some (Opcode.RetForward, l)
  | YieldHttpGet _ _ l => Some (Opcode.YieldHttpGet, l)
  | YieldEvent _ _ _ l => Some (Opcode.YieldTimer, l)
  | YieldTimer _ _ l => Some (Opcode.YieldTimer, l)
  end.

Section calls.
Context {A : Type} `{HB : Bump A}.
Implicit Types (b : Builder A).

(** The result of a call as a number: a value, a block, a function, a table
    index; 0 when it returns nothing. *)
Definition numbered {R} (n : R -> Z) (m : M A R) : M A Z := x <- m ;; ret (n x).
Definition quiet {R} (m : M A R) : M A Z := numbered (fun _ => 0) m.

Definition exec (c : Call) : M A Z :=
  match c with
  | CreateStruct name fields => numbered Z.of_nat (create_struct name fields)
  | MakeType kind inner sd => quiet (make_type kind inner sd)
  | CreateFunction name route meth => numbered Z.of_nat (create_function name route meth)
  | SetYieldPayload f ms kinds => quiet (set_yield_payload f ms kinds)
  | SetStateZero f t => quiet (set_state_zero_entry_resume f t)
  | SetResumeBlocks f blocks => quiet (set_explicit_resume_blocks f blocks)
  | CreateBlock f label => create_block f label
  | SetInsertPoint f blk => quiet (set_insert_point f blk)
  | InternBody body => intern_response_body body
  | InternHeaders pairs => intern_response_headers pairs
  | ConstStr v l => emit_const_str v l
  | ConstI32 v l => emit_const_i32 v l
  | ConstI64 v l => emit_const_i64 v l
  | ConstBool v l => emit_const_bool v l
  | ConstDuration v l => emit_const_duration v l
  | ConstByteSize v l => emit_const_bytesize v l
  | ConstMethod v l => emit_const_method v l
  | ConstStatus v l => emit_const_status v l
  | ReqHeader name l => emit_req_header name l
  | ReqParam name l => emit_req_param name l
  | ReqMethod l => emit_req_method l
  | ReqPath l => emit_req_path l
  | ReqPathOnly l => emit_req_path_only l
  | ReqBody l => emit_req_body l
  | ReqKeepAlive l => emit_req_keep_alive l
  | ReqChunked l => emit_req_chunked l
  | ReqHasContentLength l => emit_req_has_content_length l
  | ReqHttp10 l => emit_req_http10 l
  | ReqHttp11 l => emit_req_http11 l
  | ReqHttpVersion l => emit_req_http_version l
  | ResumeEventKind l => emit_resume_event_kind l
  | ResumeEventResult l => emit_resume_event_result l
  | CtxLoadSlot slot l => emit_ctx_load_slot_i32 slot l
  | ReqRemoteAddr l => emit_req_remote_addr l
  | ReqContentLength l => emit_req_content_length l
  | ReqCookie name l => emit_req_cookie name l
  | ReqQuery name l => emit_req_query name l
  | ReqQueryString l => emit_req_query_string l
  | ReqSetHeader name v l => quiet (emit_req_set_header name v l)
  | ReqSetPath v l => quiet (emit_req_set_path v l)
  | CtxStoreSlot slot v l => quiet (emit_ctx_store_slot_i32 slot v l)
  | StrHasPrefix s p l => emit_str_has_prefix s p l
  | StrTrimPrefix s p l => emit_str_trim_prefix s p l
  | StrRegexMatch s pat l => emit_str_regex_match s pat l
  | StrInterpolate parts count l => emit_str_interpolate parts count l
  | Cmp op x y l => emit_cmp op x y l
  | TimeNow l => emit_time_now l
  | TimeDiff x y l => emit_time_diff x y l
  | IpInCidr ip cidr l => emit_ip_in_cidr ip cidr l
  | OptNil ty l => emit_opt_nil ty l
  | OptWrap v l => emit_opt_wrap v l
  | OptIsNil v l => emit_opt_is_nil v l
  | Select c x y l => emit_select c x y l
  | OptUnwrap v ty l => emit_opt_unwrap v ty l
  | StructField s name ty l => emit_struct_field s name ty l
  | StructCreate sd values count l => emit_struct_create sd values count l
  | BodyParse ty l => emit_body_parse ty l
  | CounterIncr key w l => emit_counter_incr key w l
  | Br c t e l => quiet (emit_br c t e l)
  | Jmp t l => quiet (emit_jmp t l)
  | RetStatus code body hdrs l => quiet (emit_ret_status code body hdrs l)
  | RetStatusValue code l => quiet (emit_ret_status_value code l)
  | RetForward u l => quiet (emit_ret_forward u l)
  | YieldHttpGet url hdrs l => emit_yield_http_get url hdrs l
  | YieldEvent kind payload next l => quiet (emit_yield_event kind payload next l)
  | YieldTimer ms next l => quiet (emit_yield_timer ms next l)
  end.

(** ** Arguments *)

Definition fn_arg b (f : nat) : bool := Nat.ltb f (length (m_functions (b_mod b))).
Definition fn_opt b (f : option nat) : bool := match f with Some f => fn_arg b f | None => true end.
Definition ty_arg b (t : option Ty) : bool := oty_ok (length (structs b)) t.
Definition ops_arg (ops : option (list Z)) (count : nat) : bool :=
  match ops with Some l => Nat.eqb (length l) count && forallb (Z.leb 0) l | None => true end.

(** The arguments exist and numbers are not negative. *)
Definition call_ok b (c : Call) : bool :=
  match c with
  | CreateStruct _ fields => forallb (fun fd => ty_arg b (fd_type fd)) fields
  | SetYieldPayload f _ _ | CreateBlock f _ => fn_arg b f
  | SetStateZero f t => fn_opt b f && (0 <=? t)
  | SetResumeBlocks f blocks => fn_opt b f && forallb (Z.leb 0) blocks
  | SetInsertPoint f blk => fn_opt b f && (0 <=? blk)
  | ReqSetHeader _ v _ | ReqSetPath v _ | CtxStoreSlot _ v _ | OptWrap v _ | OptIsNil v _ | CounterIncr v _ _
  | RetStatusValue v _ | RetForward v _ | IpInCidr v _ _ | StrRegexMatch v _ _ | YieldHttpGet _ v _
  | Br v _ _ _ => 0 <=? v
  | StrHasPrefix x y _ | StrTrimPrefix x y _ | TimeDiff x y _ | Cmp _ x y _ => (0 <=? x) && (0 <=? y)
  | StrInterpolate parts count _ => ops_arg parts count
  | OptNil ty _ | BodyParse ty _ => ty_arg b ty
  | Select c x y _ => (0 <=? c) && (0 <=? x) && (0 <=? y)
  | OptUnwrap v ty _ | StructField v _ ty _ => (0 <=? v) && ty_arg b ty
  | StructCreate sd values count _ =>
      match sd with Some k => Nat.ltb k (length (structs b)) | None => true end && ops_arg values count
  | _ => true
  end.

(** ** Effects *)

(** The abstract module after a successful call with result [r]. *)
Definition effect (c : Call) b (r : Z) b' : Prop :=
  let m := mview (b_mod b) in
  let m' := mview (b_mod b') in
  match c with
  | CreateStruct name fields => r = Z.of_nat (length (am_structs m)) /\ m' = am_add_struct m (mkStruct name fields)
  | CreateFunction name route meth =>
      r = Z.of_nat (length (am_functions m)) /\ m' = am_add_fn m (new_fn name route meth)
  | SetYieldPayload f ms kinds => on_fn b b' f (payload_set ms kinds)
  | SetStateZero f t => exists i, f = Some i /\ on_fn b b' i (state_zero_set t)
  | SetResumeBlocks f blocks => exists i, f = Some i /\ on_fn b b' i (resume_set blocks)
  | CreateBlock f label => on_fn b b' f (fun a => af_add_block a (mkAB r label []))
  | MakeType _ _ _ | SetInsertPoint _ _ => m' = m
  | InternBody body => m' = m /\ r = 0 \/
      exists l, interned (am_bodies m) l body r /\ m' = am_set_bodies m l
  | InternHeaders pairs => m' = m /\ r = 0 \/
      exists l, interned (am_sets m) l pairs r /\ m' = am_set_sets m l
  | YieldHttpGet _ _ l => fetched b b' l
  | _ => match emission c with Some (op, l) => emitted b b' op l | None => True end
  end.

(** What may have changed when a call fails. *)
Definition partial (c : Call) (e : RirError) b b' : Prop :=
  match c with
  | SetResumeBlocks f _ => exists i bs, f = Some i /\ builder_ok b' /\ on_fn b b' i (resume_part bs)
  | StructCreate _ _ count _ => leaks count e
  | _ => False
  end.

(** ** Every call *)

Lemma call_emits b (m : M A Z) op loc (P : RirError -> Builder A -> Prop) :
  emits b m op loc ->
  wp m (fun _ b' => builder_ok b' /\ emitted b b' op loc) (fun e b' => unchanged b b' \/ P e b') b.
Proof. intros Hm. eapply wp_mono; [exact Hm|done|by left]. Qed.

Lemma quiet_emits b {R} (m : M A R) op loc (P : RirError -> Builder A -> Prop) :
  emits b m op loc ->
  wp (quiet m) (fun _ b' => builder_ok b' /\ emitted b b' op loc) (fun e b' => unchanged b b' \/ P e b') b.
Proof. intros Hm. apply wp_bind. eapply wp_mono; [exact Hm|done|by left]. Qed.

Lemma ops_arg_spec ops count :
  ops_arg ops count = true ->
  (forall l, ops = Some l -> length l = count) /\ Forall (fun v => 0 <= v) (default [] ops).
Proof.
  destruct ops as [l|]; cbn; [|by split]. rewrite andb_true_iff, Nat.eqb_eq, forallb_forall.
  intros [Hl Hp]. split; [by intros ? [= ->]|]. apply Forall_forall. intros x Hx.
  apply list_elem_of_In, Hp in Hx. by apply Z.leb_le.
Qed.

Lemma fn_opt_spec b f :
  fn_opt b f = true -> forall i, f = Some i -> (i < length (m_functions (b_mod b)))%nat.
Proof. intros H i ->. by apply Nat.ltb_lt. Qed.

Ltac args := repeat match goal with
  | H : _ && _ = true |- _ => apply andb_true_iff in H as [? H]
  | H : (_ <=? _) = true |- _ => apply Z.leb_le in H
  | H : fn_arg _ _ = true |- _ => apply Nat.ltb_lt in H
  end.

Lemma plain_call b op kind l (P : RirError -> Builder A -> Prop) :
  builder_ok b ->
  (forall t fld n, sig_ok t fld n op [] ImmZero (Some (MkTy kind None None)) = true) ->
  wp (emit_plain op kind l) (fun _ b' => builder_ok b' /\ emitted b b' op l)
    (fun e b' => unchanged b b' \/ P e b') b.
Proof. intros Hb Hs. apply call_emits. by apply emit_plain_ok. Qed.

Lemma module_call_ok b c :
  emission c = None -> builder_ok b -> call_ok b c = true ->
  wp (exec c) (fun r b' => builder_ok b' /\ effect c b r b')
    (fun e b' => unchanged b b' \/ partial c e b b') b.
Proof.
  intros Hnone Hb Ha. destruct c; try discriminate Hnone; cbn [exec call_ok effect partial] in *; args.
  - apply wp_bind. eapply wp_mono; [apply create_struct_ok; [done|]| |by left].
    + apply Forall_forall. intros fd Hfd. rewrite forallb_forall in Ha. by apply Ha, list_elem_of_In.
    + intros k b' (? & -> & ?). by apply wp_ret.
  - apply wp_bind. eapply wp_mono; [apply make_type_wp, Hb| |by left].
    intros t b' (_ & Heq & Hr). apply wp_ret. destruct (ok_arena _ _ Hb Heq Hr) as [? _].
    split; [done|]. by apply arena_eq_fields.
  - apply wp_bind. eapply wp_mono; [apply create_function_ok, Hb| |by left].
    intros f b' (? & -> & ?). apply wp_ret. cbn. by rewrite length_fmap.
  - apply wp_bind. eapply wp_mono; [by apply set_yield_payload_ok| |by left]. intros u b' Hu. by apply wp_ret.
  - apply wp_bind. eapply wp_mono; [apply set_state_zero_ok; [done|by apply fn_opt_spec|done]| |by left].
    intros u b' Hu. by apply wp_ret.
  - apply wp_bind. eapply wp_mono; [apply set_explicit_ok; [done|by apply fn_opt_spec|]| |done].
    + apply Forall_forall. intros x Hx. rewrite forallb_forall in Ha. by apply Z.leb_le, Ha, list_elem_of_In.
    + intros u b' Hu. by apply wp_ret.
  - eapply wp_mono; [by apply create_block_ok| |by left].
    intros bid b' (? & a & Hf & -> & ?). split; [done|]. by exists a.
  - apply wp_bind. eapply wp_mono; [apply set_insert_point_ok; [done|by apply fn_opt_spec|done]| |done].
    intros u b' Hu. by apply wp_ret.
  - eapply wp_mono; [by apply intern_body_ok| |done].
    intros idx b' [? [[-> (_ & ? & _)]|?]]; split; auto.
  - eapply wp_mono; [by apply intern_headers_ok| |done].
    intros idx b' [? [[-> (_ & ? & _)]|?]]; split; auto.
Qed.

(** One conjunct of a group of emissions. *)
Ltac pick L :=
  let H := fresh in
  pose proof L as H;
  repeat match type of H with _ /\ _ => let H1 := fresh in destruct H as [H1 H] end;
  match goal with X : ?G |- ?G => exact X end.

Lemma call_spec b c :
  builder_ok b -> call_ok b c = true ->
  wp (exec c) (fun r b' => builder_ok b' /\ effect c b r b')
    (fun e b' => unchanged b b' \/ partial c e b b') b.
Proof.
  intros Hb Ha. destruct (emission c) as [ol|] eqn:Hem; [|by apply module_call_ok].
  destruct c; try discriminate Hem; clear Hem; cbn [exec call_ok effect partial emission] in *; args.
  11-22, 24-25, 37: (apply plain_call; [done|reflexivity]).
  - apply call_emits. pick (emit_consts_ok b v 0 0 l false Hb).
  - apply call_emits. pick (emit_consts_ok b [] v 0 l false Hb).
  - apply call_emits. pick (emit_consts_ok b [] v 0 l false Hb).
  - apply call_emits. pick (emit_consts_ok b [] 0 0 l v Hb).
  - apply call_emits. pick (emit_consts_ok b [] v 0 l false Hb).
  - apply call_emits. pick (emit_consts_ok b [] v 0 l false Hb).
  - apply call_emits. pick (emit_consts_ok b [] 0 v l false Hb).
  - apply call_emits. pick (emit_consts_ok b [] v 0 l false Hb).
  - apply call_emits. pick (emit_req_ok b name 0 l Hb).
  - apply call_emits. pick (emit_req_ok b name 0 l Hb).
  - apply call_emits. pick (emit_req_ok b [] slot l Hb).
  - apply call_emits. pick (emit_req_ok b name 0 l Hb).
  - apply call_emits. pick (emit_req_ok b name 0 l Hb).
  - apply call_emits. pick (emit_req_ok b [] 0 l Hb).
  - apply quiet_emits. pick (emit_set_ok b name 0 v l Hb Ha).
  - apply quiet_emits. pick (emit_set_ok b [] 0 v l Hb Ha).
  - apply quiet_emits. pick (emit_set_ok b [] slot v l Hb Ha).
  - apply call_emits. pick (emit_str_ok b s p [] l Hb H Ha).
  - apply call_emits. pick (emit_str_ok b s p [] l Hb H Ha).
  - apply call_emits. pick (emit_str_ok b s 0 pat l Hb Ha (Z.le_refl 0)).
  - apply ops_arg_spec in Ha as [Hl Hp]. apply call_emits. by apply emit_str_interpolate_ok.
  - apply call_emits. by apply emit_cmp_ok.
  - apply call_emits. pick (emit_str_ok b a c [] l Hb H Ha).
  - apply call_emits. pick (emit_str_ok b ip 0 cidr l Hb Ha (Z.le_refl 0)).
  - apply call_emits. pick (emit_opt_ok b ty 0 l Hb Ha (Z.le_refl 0)).
  - apply call_emits. pick (emit_opt_ok b None v l Hb eq_refl Ha).
  - apply call_emits. pick (emit_opt_ok b None v l Hb eq_refl Ha).
  - apply call_emits. by apply emit_select_ok.
  - apply call_emits. by apply emit_opt_unwrap_ok.
  - apply call_emits. by apply emit_struct_field_ok.
  - apply ops_arg_spec in Ha as [Hl Hp]. apply emit_struct_create_ok; try done.
    intros k ->. by apply Nat.ltb_lt.
  - apply call_emits. pick (emit_misc_ok b 0 ty 0 l Hb (Z.le_refl 0) Ha).
  - apply call_emits. pick (emit_misc_ok b key None window l Hb Ha eq_refl).
  - apply quiet_emits. pick (emit_terminators_ok b c t e 0 0 0 l Hb Ha).
  - apply quiet_emits. pick (emit_terminators_ok b 0 t 0 0 0 0 l Hb (Z.le_refl 0)).
  - apply quiet_emits. pick (emit_terminators_ok b 0 0 0 code body headers l Hb (Z.le_refl 0)).
  - apply quiet_emits. pick (emit_terminators_ok b code 0 0 0 0 0 l Hb Ha).
  - apply quiet_emits. pick (emit_terminators_ok b upstream 0 0 0 0 0 l Hb Ha).
  - eapply wp_mono; [by apply emit_yield_http_get_ok|done|by left].
  - apply quiet_emits. by apply emit_yield_event_ok.
  - apply quiet_emits. by apply emit_yield_event_ok.
Qed.

(** ** Sequences of calls *)

(** The failure after which the caller stops: see [leaks]. *)
Definition leaky (c : Call) (e : RirError) : bool :=
  match c with
  | StructCreate _ _ count _ => Nat.ltb 3 count && match e with OutOfMemory => true | _ => false end
  | _ => false
  end.

Inductive step b : Builder A -> Prop :=
| step_done c r b' : call_ok b c = true -> exec c b = Some (b', inl r) -> step b b'
| step_failed c e b' :
    call_ok b c = true -> exec c b = Some (b', inr e) -> leaky c e = false -> step b b'.

(** Empty tables with room for [func_cap] functions and [struct_cap] structs. *)
Definition new_module (name : list Z) (func_cap struct_cap : nat) (a : A) : Module_ A :=
  mkModule name (Some []) struct_cap [] func_cap [] (replicate kMaxHeaderPoolEntries [])
    (replicate kMaxHeaderPoolEntries []) 0 [] [] a.

Definition sizeof_Function : Z := 136.
Definition sizeof_pointer : Z := 8.

(** [FrontendRirModule::init]; [arena_init] makes the arena, or fails.  On
    failure the arena is destroyed and there is no module. *)
Definition frontend_init (arena_init : Z -> option A) (source_name : list Z) (func_cap struct_cap : nat)
    : option (Module_ A) :=
  match arena_init 4096 with
  | None => None
  | Some a =>
      let name := if Nat.eqb (length source_name) 0 then bs "frontend.rut" else source_name in
      let '(functions, a) := bump_array a sizeof_Function (Z.of_nat func_cap) in
      if null functions then None
      else
        let '(struct_defs, a) := bump_array a sizeof_pointer (Z.of_nat struct_cap) in
        if null struct_defs then None else Some (new_module name func_cap struct_cap a)
  end.

Lemma init_ok name fc sc a : builder_ok (init (new_module name fc sc a)).
Proof.
  split; split; cbn; try done.
  - split; [done|]. intros k t. by destruct k.
  - split; [done|]. split; [done|]. split; [apply Nat.le_0_l|constructor].
  - constructor.
  - split; [constructor|apply Nat.le_0_l].
  - split; [constructor|apply Nat.le_0_l].
Qed.

(** A call kept the tables of bodies and header sets, or added at their end. *)
Definition tables_grow b b' : Prop :=
  am_bodies (mview (b_mod b)) `prefix_of` am_bodies (mview (b_mod b')) /\
  am_sets (mview (b_mod b)) `prefix_of` am_sets (mview (b_mod b')).

Lemma tables_same b b' :
  am_bodies (mview (b_mod b')) = am_bodies (mview (b_mod b)) ->
  am_sets (mview (b_mod b')) = am_sets (mview (b_mod b)) -> tables_grow b b'.
Proof. unfold tables_grow. by intros -> ->. Qed.

Lemma tables_on_fn b b' f g : on_fn b b' f g -> tables_grow b b'.
Proof. intros (a & _ & Hv). apply tables_same; by rewrite Hv. Qed.

Lemma tables_emitted b b' op l : emitted b b' op l -> tables_grow b b'.
Proof. intros (f & a & i & rt & x & _ & _ & _ & _ & _ & _ & Hv & _). apply tables_same; by rewrite Hv. Qed.

Lemma tables_trans b1 b2 b3 : tables_grow b1 b2 -> tables_grow b2 b3 -> tables_grow b1 b3.
Proof. intros [? ?] [? ?]. split; by etrans. Qed.

Lemma interned_prefix {T} (l l' : list T) x idx : interned l l' x idx -> l `prefix_of` l'.
Proof. intros [_ [->|[_ ->]]]; [done|]. by exists [x]. Qed.

Lemma effect_tables c b r b' : effect c b r b' -> tables_grow b b'.
Proof.
  destruct (emission c) as [[op l]|] eqn:Hem; intros He.
  - destruct c; try discriminate Hem; cbn [effect emission] in He; try by eapply tables_emitted.
    destruct He as (b1 & f & a & Hem1 & _ & _ & Hv). apply (tables_trans _ b1); [by eapply tables_emitted|].
    apply tables_same; by rewrite Hv.
  - destruct c; try discriminate Hem; cbn [effect] in He.
    + destruct He as [_ Hv]. apply tables_same; by rewrite Hv.
    + apply tables_same; by rewrite He.
    + destruct He as [_ Hv]. apply tables_same; by rewrite Hv.
    + by eapply tables_on_fn.
    + destruct He as (i & _ & He). by eapply tables_on_fn.
    + destruct He as (i & _ & He). by eapply tables_on_fn.
    + by eapply tables_on_fn.
    + apply tables_same; by rewrite He.
    + destruct He as [[Hv _]|(l & Hi & Hv)]; [apply tables_same; by rewrite Hv|].
      split; rewrite Hv; [by eapply interned_prefix|done].
    + destruct He as [[Hv _]|(l & Hi & Hv)]; [apply tables_same; by rewrite Hv|].
      split; rewrite Hv; [done|by eapply interned_prefix].
Qed.

Lemma step_ok b b' : builder_ok b -> step b b' -> builder_ok b' /\ tables_grow b b'.
Proof.
  intros Hb Hs. destruct Hs as [c r b' Hc He|c e b' Hc He Hl]; pose proof (call_spec b c Hb Hc) as Hw;
    unfold wp in Hw; rewrite He in Hw.
  - destruct Hw as [? Hw]. split; [done|]. by eapply effect_tables.
  - destruct Hw as [Hu|Hp].
    + split; [by eapply unchanged_ok|]. destruct Hu as (_ & Hv & _). apply tables_same; by rewrite Hv.
    + destruct c; try done; cbn [partial leaky] in Hp, Hl.
      * destruct Hp as (i & bs & _ & ? & Hon). split; [done|]. by eapply tables_on_fn.
      * destruct Hp as [Hlt ->]. rewrite (proj2 (Nat.ltb_lt 3 _) Hlt) in Hl. done.
Qed.

Lemma steps_ok b b' : builder_ok b -> rtc step b b' -> builder_ok b' /\ tables_grow b b'.
Proof.
  intros Hb Hs. induction Hs as [b|b b1 b2 H1 _ IH]; [by split; [|apply tables_same]|].
  destruct (step_ok _ _ Hb H1) as [Hb1 Ht]. destruct (IH Hb1) as [? ?]. split; [done|]. by eapply tables_trans.
Qed.

(** The states a caller can bring a builder to, from a module made by
    [frontend_init]. *)
Definition reached (arena_init : Z -> option A) (name : list Z) (fc sc : nat) b : Prop :=
  exists m, frontend_init arena_init name fc sc = Some m /\ rtc step (init m) b.

Lemma reached_ok ai name fc sc b : reached ai name fc sc b -> builder_ok b.
Proof.
  intros (m & Hm & Hs). unfold frontend_init in Hm. destruct (ai 4096) as [a|]; [|done].
  destruct (bump_array a _ _) as [[p|] a1]; [|done]. destruct (bump_array a1 _ _) as [[q|] a2]; [|done].
  cbn [null] in Hm. injection Hm as <-. by destruct (steps_ok _ _ (init_ok _ fc sc a2) Hs).
Qed.


(** C13: In a module built by calls, every operand of an instruction is a value
    of its function that is defined before it (an interpolation may name its own
    result), the value and its instruction point at each other, only the last
    instruction of a block is a terminator, and the instruction is well typed. *)
Theorem built_code_wf ai name fc sc b f fn k blk j x :
  reached ai name fc sc b ->
  m_functions (b_mod b) !! f = Some fn -> vec_items (fn_blocks fn) !! k = Some blk ->
  vec_items (bb_insts blk) !! j = Some x ->
  (forall i, Z.of_nat i < i_operand_count x ->
     exists o v, operand x i = Some o /\ vec_items (fn_values fn) !! Z.to_nat o = Some v /\
       (i_result x <> kNoValue -> earlier x o)) /\
  (i_result x = kNoValue \/
     exists t, vec_items (fn_values fn) !! Z.to_nat (i_result x) =
       Some (mkValue (Some t) (Z.of_nat k) (Z.of_nat j))) /\
  (is_terminator (i_op x) = true -> S j = length (vec_items (bb_insts blk))) /\
  sig_ok (tyv (fview fn)) (fun k => m_structs (b_mod b) !! k) (block_count fn) (i_op x) (inst_ops x)
    (i_imm x) (result_ty (fview fn) x) = true.
Proof.
  intros Hr Hf Hk Hj. pose proof (reached_ok _ _ _ _ _ Hr) as Hb.
  destruct (fn_facts _ _ _ Hb Hf) as (_ & Ha & Hlen).
  assert (block_insts (fview fn) k = vec_items (bb_insts blk)) as Hbi
    by (unfold block_insts; cbn; by rewrite list_lookup_fmap, Hk).
  rewrite <- Hbi in Hj. destruct (fo_insts _ _ Ha _ _ _ Hj) as [Hs Ho Hres Hsig].
  split; [|split; [|split]].
  - intros i Hi. pose proof (operand_spec x i Hs Hi) as Hop. pose proof (length_inst_ops x Hs) as Hl.
    destruct (lookup_lt_is_Some_2 (inst_ops x) i) as [o Hoi]; [lia|].
    rewrite Forall_lookup in Ho. pose proof (Ho _ _ Hoi) as [H0 Hlt].
    destruct (lookup_lt_is_Some_2 (af_values (fview fn)) (Z.to_nat o)) as [v Hv]; [lia|].
    exists o, v. rewrite Hop. split_and!; try done. intros Hne. destruct Hres as [?|(r & t & E & _ & Hfe)]; [done|].
    rewrite Forall_lookup in Hfe. by eapply Hfe.
  - destruct Hres as [?|(r & t & E & Hv & _)]; [by left|right]. exists t. rewrite E, Nat2Z.id. exact Hv.
  - rewrite <- Hbi. by apply (fo_term _ _ Ha).
  - rewrite Hlen in Hsig. exact Hsig.
Qed.

(** The index an interning returned stands for its argument in every later
    state. *)
Lemma interned_later {ai name fc sc} b body pairs b1 i b2 j b3 :
  reached ai name fc sc b ->
  exec (InternBody body) b = Some (b1, inl i) -> i <> 0 -> rtc step b1 b2 ->
  exec (InternHeaders pairs) b2 = Some (b3, inl j) -> j <> 0 ->
  forall b', rtc step b3 b' ->
    at_index (m_response_bodies (b_mod b')) i = Some body /\
    at_index (am_sets (mview (b_mod b'))) j = Some pairs.
Proof.
  intros Hr E1 Hi S12 E3 Hj b' Hs. pose proof (reached_ok _ _ _ _ _ Hr) as Hb.
  pose proof (call_spec b (InternBody body) Hb eq_refl) as W1. unfold wp in W1. rewrite E1 in W1.
  destruct W1 as [Hb1 [[_ ->]|(l1 & [A1 _] & V1)]]; [done|].
  destruct (steps_ok _ _ Hb1 S12) as [Hb2 [G12 _]].
  pose proof (call_spec b2 (InternHeaders pairs) Hb2 eq_refl) as W3. unfold wp in W3. rewrite E3 in W3.
  destruct W3 as [Hb3 [[_ ->]|(l3 & [A3 _] & V3)]]; [done|].
  destruct (steps_ok _ _ Hb3 Hs) as [_ [G3 S3]].
  rewrite V3 in G3, S3. rewrite V1 in G12. cbn in G3, S3, G12. unfold at_index in *.
  destruct (Z.leb_spec i 0); [done|]. destruct (Z.leb_spec j 0); [done|]. split.
  - eapply prefix_lookup_Some; [exact A1|]. by etrans.
  - by eapply prefix_lookup_Some.
Qed.

End calls.

(** ** Examples *)

Section run.
Context {A : Type} `{HB : Bump A}.

(** The calls in order; [None] when an argument does not exist, a call faults
    or a struct literal leaks. *)
Fixpoint run (cs : list Call) (b : Builder A) : option (Builder A) :=
  match cs with
  | [] => Some b
  | c :: cs' =>
      if call_ok b c then
        match exec c b with
        | Some (b', inl _) => run cs' b'
        | Some (b', inr e) => if leaky c e then None else run cs' b'
        | None => None
        end
      else None
  end.

Lemma run_steps cs b b' : run cs b = Some b' -> rtc step b b'.
Proof.
  revert b. induction cs as [|c cs IH]; intros b; cbn; [by intros [= ->]|].
  destruct (call_ok b c) eqn:Hc; [|done]. destruct (exec c b) as [[b1 [r|e]]|] eqn:He; [| |done].
  - intros Hr. eapply rtc_l; [by eapply step_done|by apply IH].
  - destruct (leaky c e) eqn:Hl; [done|]. intros Hr. eapply rtc_l; [by eapply step_failed|by apply IH].
Qed.
End run.

(** An arena with room for [n] more objects. *)
#[global] Instance countdown : Bump nat :=
  {| bump_alloc n _ := match n with O => (None, O) | S k => (Some (Z.of_nat n), k) end;
     bump_array n _ _ := match n with O => (None, O) | S k => (Some (Z.of_nat n), k) end |}.

Definition loc0 : SourceLoc := mkLoc 1 1.

(** A header test with two answers. *)
Definition route_calls : list Call :=
  [CreateFunction [104] [47; 97] 71; CreateBlock 0 []; CreateBlock 0 []; CreateBlock 0 [];
   SetInsertPoint (Some 0%nat) 0; ReqHeader [120] loc0; OptIsNil 0 loc0; Br 1 1 2 loc0;
   SetInsertPoint (Some 0%nat) 1; RetStatus 404 0 0 loc0; SetInsertPoint (Some 0%nat) 2].

Definition route_init (_ : Z) : option nat := Some 102%nat.
Definition route_start : Builder nat := init (new_module (bs "frontend.rut") 2 2 100%nat).
Definition route_built : Builder nat := default route_start (run route_calls route_start).

Lemma route_reached : reached route_init [] 2 2 route_built.
Proof.
  exists (new_module (bs "frontend.rut") 2 2 100%nat). split; [reflexivity|].
  apply (run_steps route_calls). vm_compute. reflexivity.
Qed.


Definition route_fn : Function := default (mkFn [] [] 0 vec0 vec0 0 false 0 false [] None None)
  (m_functions (b_mod route_built) !! 0%nat).
Definition route_block : BasicBlock := default block0 (vec_items (fn_blocks route_fn) !! 0%nat).
Definition route_br : Instruction := default inst0 (vec_items (bb_insts route_block) !! 2%nat).

Lemma built_code_wf_witness :
  i_op route_br = Opcode.Br /\ i_operand_count route_br = 1 /\
  exists o v, operand route_br 0 = Some o /\ vec_items (fn_values route_fn) !! Z.to_nat o = Some v /\
    (i_result route_br <> kNoValue -> earlier route_br o).
Proof.
  split; [vm_compute; reflexivity|]. split; [vm_compute; reflexivity|].
  destruct (built_code_wf route_init [] 2 2 route_built 0 route_fn 0 route_block 2 route_br route_reached
    ltac:(vm_compute; reflexivity) ltac:(vm_compute; reflexivity) ltac:(vm_compute; reflexivity)) as [H _].
  apply H. vm_compute. reflexivity.
Defined.

(** The last instruction of the first block of the first function. *)
Definition last_inst (b : Builder nat) : option Instruction :=
  match m_functions (b_mod b) with
  | fn :: _ => match vec_items (fn_blocks fn) with blk :: _ => last (vec_items (bb_insts blk)) | [] => None end
  | [] => None
  end.

(** With room for six objects, the overflow array of a four-field literal is
    the one that does not fit: the call fails, and the instruction stays in
    the block, with four operands announced and no array for the fourth. *)
Definition pair4 : list FieldDef := replicate 4 (mkField [120] (Some (MkTy TypeKind.I32 None None))).
Definition leak_start : Builder nat := init (new_module [] 1 1 6%nat).
Definition leak_calls : list Call :=
  [CreateStruct [115] pair4; CreateFunction [104] [47] 71; CreateBlock 0 [];
   SetInsertPoint (Some 0%nat) 0; ConstI32 7 loc0].

Example struct_create_leaks :
  match run leak_calls leak_start with
  | Some b =>
      match exec (StructCreate (Some 0%nat) (Some [0; 0; 0; 0]) 4 loc0) b with
      | Some (b', inr OutOfMemory) =>
          (fun x => (i_op x, i_operand_count x, operand x 3)) <$> last_inst b' =
            Some (Opcode.StructCreate, 4, None)
      | _ => False
      end
  | None => False
  end.
Proof. vm_compute. reflexivity. Qed.

(** The operands of an interpolation are checked after its own value exists. *)
Example interpolate_self :
  match run [CreateFunction [104] [47] 71; CreateBlock 0 []; SetInsertPoint (Some 0%nat) 0;
             StrInterpolate (Some [0]) 1 loc0] route_start with
  | Some b => (fun x => (i_op x, i_result x, inst_ops x)) <$> last_inst b = Some (Opcode.StrInterpolate, 0, [0])
  | None => False
  end.
Proof. vm_compute. reflexivity. Qed.
