(* ===== verification/CompileConfig.v ===== *)
(** * From compiled routes to a configuration

    Model of include/rut/runtime/compile_to_config.h, which moves upstreams,
    response bodies, header sets and route handlers of an IR module into a
    [RouteConfig], and of the words that the terminators compiled by
    src/jit/codegen.cc return.  The theorems put the pieces together: the
    indices that the builder put into an instruction still mean the same bytes
    when the runtime decodes the word of the handler.

    The symbol table of the JIT engine is an argument. *)

From S2P Require Import Prelude HandlerAbi Connection RouteMethod RouteTrie RouteArt RouteSelect RouteTable.
From S2P Require Import Rir RirBuilder RirEmit RirLogic RirTyping RirBuilderOk RirModuleOps RirIntern RirCalls.

(** ** Words of the terminators *)

Definition imm_i64 (m : Immediate) : option Z := match m with ImmI64 v => Some (u64 v) | ImmZero => Some 0 | _ => None end.

(** [RetStatus]; [v]: the value of its operand, if it has one. *)
Definition ret_status_word (x : Instruction) (v : Z) : option Z :=
  let build status body_idx headers_idx :=
    let r := Z.lor (action_code ReturnStatus) (u64 (Z.shiftl status 8)) in
    let r := if negb (body_idx =? 0) then Z.lor r (u64 (Z.shiftl body_idx 24)) else r in
    if negb (headers_idx =? 0) then Z.lor r (u64 (Z.shiftl headers_idx 40)) else r in
  if 0 <? i_operand_count x then Some (build (Z.land v 0xffff) 0 0)
  else
    match imm_i64 (i_imm x) with
    | Some packed => Some (build (Z.land packed 0xffff) (Z.land (Z.shiftr packed 16) 0xffff)
                             (Z.land (Z.shiftr packed 32) 0xffff))
    | None => None
    end.

(** [RetForward]; [v]: the value of its operand. *)
Definition ret_forward_word (x : Instruction) (v : Z) : Z :=
  let upstream := if 0 <? i_operand_count x then v else 0 in
  Z.lor (action_code Forward) (u64 (Z.shiftl upstream 24)).

Definition make_result_yield (next_state yield_kind payload : Z) : Z :=
  Z.lor (Z.lor (Z.lor (action_code Yield) (u64 (Z.shiftl payload 8))) (u64 (Z.shiftl next_state 40)))
    (u64 (Z.shiftl yield_kind 56)).

Definition yield_timer_word (x : Instruction) : option Z :=
  match imm_i64 (i_imm x) with
  | Some packed =>
      let payload := Z.land packed 0xffffffff in
      let next_state := Z.land (Z.shiftr packed 32) 0xffff in
      let kind := Z.land (Z.shiftr packed 48) 0xff in
      let kind := if kind =? 0 then yield_code YTimer else kind in
      Some (make_result_yield next_state kind payload)
  | None => None
  end.

(** ** Handler symbols *)

Definition kPrefix : list Z := bs "handler_".

Definition format_handler_symbol (name : list Z) (out_size : nat) : list Z :=
  if Nat.eqb out_size 0 then []
  else
    let prefix := take (out_size - 1) kPrefix in
    let max_pos := Nat.min (if Nat.ltb 1 out_size then out_size - 2 else 0) 254 in
    prefix ++ take (max_pos - length prefix) name.

(** ** Routes *)

Definition rir_function_needs_req_body (fn : Function) : bool :=
  existsb (fun blk => existsb (fun i => bool_decide (i_op i = Opcode.ReqBody)) (vec_items (bb_insts blk)))
    (vec_items (fn_blocks fn)).

Section config.
Context {A : Type}.
Implicit Types (m : Module_ A) (cfg : RouteConfig).

Definition configure_route_dispatch cfg m : bool * RouteConfig :=
  if negb (Nat.eqb (length (routes cfg)) 0) then (false, cfg)
  else if Nat.ltb RouteTable.kMaxRoutes (length (m_functions m)) then (false, cfg)
  else if needs_segment_aware (fn_route_pattern <$> m_functions m) then use_segment_trie cfg
  else use_art cfg.

(** [lookup]: [engine.lookup]; the path and the symbol are C strings. *)
Fixpoint register_loop (lookup : list Z -> option Z) (fns : list Function) cfg : bool * RouteConfig :=
  match fns with
  | [] => (true, cfg)
  | fn :: fns' =>
      if Nat.leb RouteTable.kMaxPathLen (length (fn_route_pattern fn)) then (false, cfg)
      else
        let path := c_string (fn_route_pattern fn) in
        match lookup (c_string (format_handler_symbol (fn_name fn) 256)) with
        | None => (false, cfg)
        | Some handler =>
            let '(ok, cfg) := add_jit_handler cfg (Some path) (fn_http_method fn) handler
                                (rir_function_needs_req_body fn) in
            if ok then register_loop lookup fns' cfg else (false, cfg)
        end
  end.

Definition register_jit_routes (lookup : list Z -> option Z) cfg m : bool * RouteConfig :=
  if negb (Nat.eqb (length (routes cfg)) 0) then (false, cfg)
  else
    let '(ok, cfg) := configure_route_dispatch cfg m in
    if ok then register_loop lookup (m_functions m) cfg else (false, cfg).

(** ** Upstreams, bodies and header sets *)

Fixpoint add_upstreams (i : nat) (ups : list Upstream) cfg : bool * RouteConfig :=
  match ups with
  | [] => (true, cfg)
  | up :: ups' =>
      let name_buf := take (RouteTable.kMaxUpstreamNameLen - 1) (up_name up) in
      let '(r, cfg) := add_upstream cfg (c_string name_buf) (up_ip up) (up_port up) in
      match r with
      | Some k => if Nat.eqb k i then add_upstreams (S i) ups' cfg else (false, cfg)
      | None => (false, cfg)
      end
  end.

(** Pre-bound upstreams: the names must match exactly. *)
Fixpoint names_match (ups : list Upstream) (targets : list UpstreamTarget) : bool :=
  match ups, targets with
  | [], _ => true
  | up :: ups', t :: targets' =>
      Nat.ltb (length (up_name up)) RouteTable.kMaxUpstreamNameLen && str_eq (u_name t) (up_name up) &&
      names_match ups' targets'
  | _ :: _, [] => false
  end.

Fixpoint add_bodies (i : Z) (bodies : list (list Z)) cfg : bool * RouteConfig :=
  match bodies with
  | [] => (true, cfg)
  | body :: bodies' =>
      let '(idx, cfg) := add_response_body cfg (Some body) (length body) in
      if (idx =? 0) || negb (idx =? i + 1) then (false, cfg) else add_bodies (i + 1) bodies' cfg
  end.

Fixpoint add_sets m (i : Z) (sets : list HeaderSetRef) cfg : bool * RouteConfig :=
  match sets with
  | [] => (true, cfg)
  | r :: sets' =>
      if Z.of_nat kMaxHeadersPerSet <? hs_count r then (false, cfg)
      else
        let '(idx, cfg) := add_response_header_set cfg
              (pool_pairs m (Z.to_nat (hs_offset r)) (Z.to_nat (hs_count r))) in
        if (idx =? 0) || negb (idx =? i + 1) then (false, cfg) else add_sets m (i + 1) sets' cfg
  end.

Definition ref_fits m (r : HeaderSetRef) : bool :=
  (hs_offset r + hs_count r <=? Z.of_nat (m_header_pool_used m)) &&
  (hs_count r <=? Z.of_nat kMaxHeadersPerSet).

Definition populate_upstreams cfg m : bool * RouteConfig :=
  if Nat.eqb (length (upstreams cfg)) 0 then
    if forallb up_has_address (m_upstreams m) then add_upstreams 0 (m_upstreams m) cfg else (false, cfg)
  else (names_match (m_upstreams m) (upstreams cfg), cfg).

Definition populate_route_config cfg m : bool * RouteConfig :=
  if negb (Nat.eqb (length (routes cfg)) 0) || negb (Nat.eqb (length (response_bodies cfg)) 0) ||
     negb (Nat.eqb (length (response_header_sets cfg)) 0) then (false, cfg)
  else if negb (Nat.eqb (length (upstreams cfg)) 0) &&
          negb (Nat.eqb (length (upstreams cfg)) (length (m_upstreams m))) then (false, cfg)
  else if Nat.ltb Rir.kMaxUpstreams (length (m_upstreams m)) ||
          Nat.ltb Rir.kMaxResponseBodies (length (m_response_bodies m)) ||
          Nat.ltb kMaxHeaderSets (length (m_header_sets m)) ||
          Nat.ltb Rir.kMaxHeaderPoolEntries (m_header_pool_used m) then (false, cfg)
  else if negb (forallb (ref_fits m) (m_header_sets m)) then (false, cfg)
  else
    let '(ok, cfg) := populate_upstreams cfg m in
    if negb ok then (false, cfg)
    else
      let '(ok, cfg) := add_bodies 0 (m_response_bodies m) cfg in
      if negb ok then (false, cfg) else add_sets m 0 (m_header_sets m) cfg.
End config.

(** ** The words decode to what was emitted *)

Lemma pack_status_sum code i j :
  in_u 16 code -> in_u 16 i -> in_u 16 j -> pack_status code i j = code + (i + (j + 0 * 2 ^ 16) * 2 ^ 16) * 2 ^ 16.
Proof.
  unfold in_u, pack_status. intros Hc Hi Hj. change 0xffff with (Z.ones 16).
  rewrite Z.land_ones, Z.mod_small by lia. rewrite (lor_disjoint _ _ 16), (lor_disjoint _ _ 32) by lia. lia.
Qed.

Lemma lor_nonzero r x k : (if negb (x =? 0) then Z.lor r (u64 (Z.shiftl x k)) else r) = Z.lor r (u64 (Z.shiftl x k)).
Proof. destruct (Z.eqb_spec x 0) as [->|]; [|done]. cbn [negb]. rewrite Z.shiftl_0_l. symmetry. apply Z.lor_0_r. Qed.

Lemma ret_status_word_literal x v code i j :
  i_operand_count x = 0 -> i_imm x = ImmI64 (pack_status code i j) ->
  in_u 16 code -> in_u 16 i -> in_u 16 j ->
  ret_status_word x v = Some (pack (mkResult ReturnStatus code i j YHttpGet)).
Proof.
  intros H0 Him Hc Hi Hj. unfold ret_status_word. rewrite H0, Him. cbn [Z.ltb Z.compare imm_i64].
  rewrite pack_status_sum by done. unfold in_u in *. rewrite u64_small by lia.
  change 0xffff with (Z.ones 16).
  assert (Z.land (code + (i + (j + 0 * 2 ^ 16) * 2 ^ 16) * 2 ^ 16) (Z.ones 16) = code) as ->
    by (rewrite Z.land_ones, Z.mod_add, Z.mod_small by lia; done).
  rewrite (field_of_word code i (j + 0 * 2 ^ 16) 16 16) by lia.
  replace (code + (i + (j + 0 * 2 ^ 16) * 2 ^ 16) * 2 ^ 16)
    with ((code + i * 2 ^ 16) + (j + 0 * 2 ^ 16) * 2 ^ 32) by lia.
  rewrite (field_of_word _ j 0 32 16) by lia.
  rewrite !lor_nonzero. unfold pack. cbn [action status_code upstream_id next_state yield_kind].
  change (u64 (Z.shiftl (yield_code YHttpGet) 56)) with 0. by rewrite Z.lor_0_r.
Qed.

(** The kind in a yield word; 0 stands for a timer. *)
Definition yield_kind_of (kind : Z) : YieldKind := if kind =? 0 then YTimer else yield_of kind.

Lemma yield_of_byte k : in_u 8 k -> yield_code (yield_of k) = k /\ yield_ok (yield_of k).
Proof.
  unfold in_u. intros Hk. unfold yield_of.
  repeat (match goal with |- context [?a =? ?b] => destruct (Z.eqb_spec a b) end; [by subst|]).
  cbn. split; [done|lia].
Qed.

Lemma yield_payload_ok next kind payload :
  in_u 8 kind -> in_u 32 payload -> in_u 16 next ->
  result_ok (make_yield_payload next (yield_kind_of kind) payload).
Proof.
  intros Hk Hp Hn. unfold result_ok, make_yield_payload. cbn [action status_code upstream_id next_state yield_kind].
  change 65535 with (Z.ones 16). rewrite !Z.land_ones by lia. unfold in_u in *.
  pose proof (Z.mod_pos_bound payload (2 ^ 16)). pose proof (Z.mod_pos_bound (Z.shiftr payload 16) (2 ^ 16)).
  rewrite !u16_small by lia. split_and!; try lia; try done.
  unfold yield_kind_of. case_if; [done|]. by apply yield_of_byte.
Qed.

Lemma yield_word x kind payload next :
  i_imm x = ImmI64 (pack_yield kind payload next) ->
  in_u 8 kind -> in_u 32 payload -> in_u 16 next ->
  yield_timer_word x = Some (pack (make_yield_payload next (yield_kind_of kind) payload)).
Proof.
  unfold in_u. intros Him Hk Hp Hn. unfold yield_timer_word. rewrite Him. cbn [imm_i64].
  assert (pack_yield kind payload next = payload + (next + (kind + 0 * 2 ^ 8) * 2 ^ 16) * 2 ^ 32) as ->.
  { unfold pack_yield. rewrite Z.lor_comm, (Z.lor_comm (Z.shiftl kind 48)), Z.lor_assoc.
    rewrite (lor_disjoint payload next 32), (lor_disjoint _ kind 48) by lia. lia. }
  rewrite u64_small by lia.
  change 0xffffffff with (Z.ones 32). change 0xffff with (Z.ones 16). change 0xff with (Z.ones 8).
  assert (Z.land (payload + (next + (kind + 0 * 2 ^ 8) * 2 ^ 16) * 2 ^ 32) (Z.ones 32) = payload) as ->
    by (rewrite Z.land_ones, Z.mod_add, Z.mod_small by lia; done).
  rewrite (field_of_word payload next _ 32 16) by lia.
  replace (payload + (next + (kind + 0 * 2 ^ 8) * 2 ^ 16) * 2 ^ 32)
    with ((payload + next * 2 ^ 32) + (kind + 0 * 2 ^ 8) * 2 ^ 48) by lia.
  rewrite (field_of_word _ kind 0 48 8) by lia.
  set (k' := if kind =? 0 then yield_code YTimer else kind).
  assert (yield_code (yield_kind_of kind) = k' /\ yield_ok (yield_kind_of kind)) as [Hyc Hyo].
  { unfold yield_kind_of, k'. destruct (Z.eqb_spec kind 0) as [->|]; [done|]. by apply yield_of_byte. }
  assert (0 <= payload mod 2 ^ 16 < 2 ^ 16) as Hlo by (apply Z.mod_pos_bound; lia).
  assert (0 <= payload / 2 ^ 16 < 2 ^ 16) as Hhi
    by (split; [apply Z.div_pos; lia | apply Z.div_lt_upper_bound; lia]).
  f_equal. rewrite pack_word.
  2: by apply yield_payload_ok.
  unfold make_yield_payload. cbn [action status_code upstream_id next_state yield_kind action_code].
  rewrite Hyc. change 65535 with (Z.ones 16). rewrite !Z.land_ones, Z.shiftr_div_pow2 by lia.
  rewrite (Z.mod_small (payload / 2 ^ 16)) by lia. rewrite !u16_small by lia.
  assert (0 <= k' < 256) as Hk' by (unfold k'; case_if; cbn; lia).
  unfold make_result_yield. cbn [action_code].
  rewrite !u64_small by (rewrite Z.shiftl_mul_pow2 by lia; lia).
  rewrite (lor_disjoint 2 payload 8), (lor_disjoint _ next 40), (lor_disjoint _ k' 56) by lia.
  pose proof (Z.div_mod payload (2 ^ 16)). lia.
Qed.

(** The word of a compiled yield decodes to the wait it was emitted for:
    a timer with its milliseconds, or an event wait with its payload, and the
    state to resume in; a kind the runtime does not implement is an error. *)
Theorem compiled_yield_decodes x kind payload next :
  i_imm x = ImmI64 (pack_yield kind payload next) ->
  in_u 8 kind -> in_u 32 payload -> in_u 16 next ->
  exists w, yield_timer_word x = Some w /\
    decode_result (Some w) =
      match yield_kind_of kind with
      | YTimer => mkOutcome KTimerYield 0 0 next YTimer payload 0 0
      | YHttpGet | YHttpPost | YForward | OtherYield _ =>
          mkOutcome KError 0 0 next (yield_kind_of kind) 0 0 0
      | k => mkOutcome KEventYield 0 0 next k payload 0 0
      end.
Proof.
  intros Him Hk Hp Hn. eexists. split; [by apply yield_word|]. unfold decode_result.
  rewrite unpack_pack by by apply yield_payload_ok. rewrite payload_roundtrip by done.
  unfold make_yield_payload. cbn [action yield_kind next_state]. by destruct (yield_kind_of kind).
Qed.

Lemma compiled_yield_decodes_witness :
  let x := mkInst Opcode.YieldTimer kNoValue loc0 0 [0; 0; 0] None (ImmI64 (pack_yield 3 1500 2)) in
  exists w, yield_timer_word x = Some w /\ decode_result (Some w) = mkOutcome KTimerYield 0 0 2 YTimer 1500 0 0.
Proof.
  cbv zeta. apply (compiled_yield_decodes _ 3 1500 2); [reflexivity|unfold in_u; lia..].
Defined.

(** ** Indices keep their meaning *)

(** The parts of a configuration that adding a body, or a header set, leaves
    alone. *)
Definition headers_of (c : RouteConfig) :=
  (header_bytes_pool c, header_keys c, header_values c, response_header_sets c).
Definition bodies_of (c : RouteConfig) := (body_pool c, response_bodies c).

Lemma add_body_frame c d n i c' :
  add_response_body c d n = (i, c') ->
  headers_of c' = headers_of c /\ upstreams c' = upstreams c /\ routes c' = routes c.
Proof.
  unfold add_response_body. case_if; [by intros [= <- <-]|]. destruct (_ && _); [by intros [= <- <-]|].
  case_if; [by intros [= <- <-]|]. by intros [= <- <-].
Qed.

Lemma add_set_frame c kvs i c' :
  add_response_header_set c kvs = (i, c') ->
  bodies_of c' = bodies_of c /\ upstreams c' = upstreams c /\ routes c' = routes c.
Proof.
  unfold add_response_header_set. do 4 (case_if; [by intros [= <- <-]|]).
  destruct (check_headers 0 [] kvs); [|by intros [= <- <-]]. case_if; [by intros [= <- <-]|].
  destruct (copy_headers _ _ _ kvs) as [[? ?] ?]. by intros [= <- <-].
Qed.

Lemma headers_inv_frame c c' : headers_of c' = headers_of c -> headers_inv c -> headers_inv c'.
Proof.
  unfold headers_of. intros E Hi. injection E as E1 E2 E3 E4. destruct Hi as [H1 H2 H3 H4 H5 H6].
  split; rewrite ?E1, ?E2, ?E3, ?E4; done.
Qed.

Lemma bodies_inv_frame c c' : bodies_of c' = bodies_of c -> bodies_inv c -> bodies_inv c'.
Proof.
  unfold bodies_of. intros E Hi. injection E as E1 E2. destruct Hi as [H1 H2 H3]. split; by rewrite ?E1, ?E2.
Qed.

Lemma body_at_frame c c' i : bodies_of c' = bodies_of c -> body_at c' i = body_at c i.
Proof. unfold bodies_of. intros [= E1 E2]. unfold body_at. by rewrite E1, E2. Qed.

Lemma add_bodies_spec i bodies cfg cfg' :
  bodies_inv cfg -> 0 <= i -> add_bodies i bodies cfg = (true, cfg') ->
  headers_of cfg' = headers_of cfg /\ upstreams cfg' = upstreams cfg /\
  (forall j d, body_at cfg j = Some d -> body_at cfg' j = Some d) /\
  (forall k d, bodies !! k = Some d -> body_at cfg' (i + Z.of_nat k + 1) = Some d).
Proof.
  revert i cfg. induction bodies as [|body bodies IH]; intros i cfg Hinv Hi; cbn [add_bodies].
  { intros [= <-]. by split_and!. }
  destruct (add_response_body cfg (Some body) (length body)) as [idx cfg1] eqn:E.
  destruct (add_body_frame _ _ _ _ _ E) as (F1 & F2 & _).
  destruct (response_body_roundtrip _ _ _ _ Hinv E) as (Hinv1 & Hnew & Hold).
  destruct (Z.eqb_spec idx 0) as [|Hne]; [done|]. destruct (Z.eqb_spec idx (i + 1)) as [->|]; [|done].
  cbn [orb negb]. intros Hrest. assert (0 <= i + 1) as Hi1 by lia. destruct (IH _ _ Hinv1 Hi1 Hrest) as (G1 & G2 & G3 & G4).
  split_and!; [congruence|congruence|by auto|].
  intros [|k] d Hk.
  - injection Hk as <-. rewrite Z.add_0_r. by apply G3, Hnew.
  - replace (i + Z.of_nat (S k) + 1) with (i + 1 + Z.of_nat k + 1) by lia. by apply G4.
Qed.

Lemma add_sets_spec {A} (m : Module_ A) i sets cfg cfg' :
  headers_inv cfg -> 0 <= i -> add_sets m i sets cfg = (true, cfg') ->
  bodies_of cfg' = bodies_of cfg /\ upstreams cfg' = upstreams cfg /\
  (forall j l, header_set_at cfg j = Some l -> header_set_at cfg' j = Some l) /\
  (forall k r, sets !! k = Some r ->
     header_set_at cfg' (i + Z.of_nat k + 1) = Some (set_pairs (m_header_keys m) (m_header_values m) r)).
Proof.
  revert i cfg. induction sets as [|r sets IH]; intros i cfg Hinv Hi; cbn [add_sets].
  { intros [= <-]. by split_and!. }
  destruct (_ <? hs_count r); [done|].
  destruct (add_response_header_set cfg _) as [idx cfg1] eqn:E.
  destruct (add_set_frame _ _ _ _ E) as (F1 & F2 & _).
  destruct (header_set_roundtrip _ _ _ _ Hinv E) as (Hinv1 & Hnew & Hold).
  destruct (Z.eqb_spec idx 0) as [|Hne]; [done|]. destruct (Z.eqb_spec idx (i + 1)) as [->|]; [|done].
  cbn [orb negb]. intros Hrest. assert (0 <= i + 1) as Hi1 by lia. destruct (IH _ _ Hinv1 Hi1 Hrest) as (G1 & G2 & G3 & G4).
  split_and!; [congruence|congruence|by auto|].
  intros [|k] d Hk.
  - injection Hk as <-. rewrite Z.add_0_r. apply G3. by apply Hnew.
  - replace (i + Z.of_nat (S k) + 1) with (i + 1 + Z.of_nat k + 1) by lia. by apply G4.
Qed.

(** What slot [k] says of the upstream declared at position [k]. *)
Definition bound_to (up : Upstream) (t : UpstreamTarget) : Prop :=
  u_name t = set_name (c_string (take (RouteTable.kMaxUpstreamNameLen - 1) (up_name up))) /\
  u_addr t = bswap32 (up_ip up) /\ u_port t = bswap16 (up_port up).

Lemma add_upstreams_spec i ups cfg cfg' :
  add_upstreams i ups cfg = (true, cfg') ->
  headers_of cfg' = headers_of cfg /\ bodies_of cfg' = bodies_of cfg /\
  exists ts, upstreams cfg' = upstreams cfg ++ ts /\ Forall2 bound_to ups ts.
Proof.
  revert i cfg. induction ups as [|up ups IH]; intros i cfg; cbn [add_upstreams].
  { intros [= <-]. split_and!; [done..|]. exists []. by rewrite app_nil_r. }
  unfold add_upstream at 1. case_if; [done|]. case_if; [|done].
  intros Hrest. destruct (IH _ _ Hrest) as (G1 & G2 & ts & G3 & G4). split_and!; [done..|].
  eexists. cbn in G3. rewrite G3, <- app_assoc. split; [done|]. by constructor.
Qed.

Lemma names_match_spec ups ts :
  names_match ups ts = true -> length ts = length ups ->
  Forall2 (fun up t => u_name t = up_name up) ups ts.
Proof.
  revert ts. induction ups as [|up ups IH]; intros [|t ts]; cbn; try done.
  rewrite !andb_true_iff, str_eq_true. intros [[_ H1] H2] Hl. constructor; [done|]. apply IH; [done|lia].
Qed.

Lemma populate_facts {A} cfg (m : Module_ A) cfg' :
  bodies_inv cfg -> headers_inv cfg -> populate_route_config cfg m = (true, cfg') ->
  (forall i d, at_index (m_response_bodies m) i = Some d -> body_at cfg' i = Some d) /\
  (forall j l, at_index (am_sets (mview m)) j = Some l -> header_set_at cfg' j = Some l) /\
  Forall2 (fun up t => if Nat.eqb (length (upstreams cfg)) 0 then bound_to up t else u_name t = up_name up)
    (m_upstreams m) (upstreams cfg').
Proof.
  intros Hbi Hhi. unfold populate_route_config. case_if; [done|]. case_if; [done|]. case_if; [done|].
  case_if; [done|]. destruct (populate_upstreams cfg m) as [ok1 cfg1] eqn:Eu.
  destruct ok1; cbn [negb]; [|done].
  destruct (add_bodies 0 _ cfg1) as [ok2 cfg2] eqn:Eb. destruct ok2; cbn [negb]; [|done]. intros Es.
  assert (headers_of cfg1 = headers_of cfg /\ bodies_of cfg1 = bodies_of cfg /\
    Forall2 (fun up t => if Nat.eqb (length (upstreams cfg)) 0 then bound_to up t else u_name t = up_name up)
      (m_upstreams m) (upstreams cfg1)) as (F1 & F2 & F3).
  { unfold populate_upstreams in Eu. destruct (Nat.eqb_spec (length (upstreams cfg)) 0) as [Hz|Hz].
    - destruct (forallb up_has_address _); [|done]. destruct (add_upstreams_spec _ _ _ _ Eu) as (G1 & G2 & ts & G3 & G4).
      split_and!; try done. rewrite G3. by destruct (upstreams cfg).
    - injection Eu as Eu <-. split_and!; [done..|]. apply names_match_spec; [done|].
      cbn [negb andb] in E0. apply negb_false_iff, Nat.eqb_eq in E0. done. }
  pose proof (bodies_inv_frame _ _ F2 Hbi) as Hbi1.
  destruct (add_bodies_spec 0 _ _ _ Hbi1 (Z.le_refl 0) Eb) as (G1 & G2 & G3 & G4).
  assert (headers_inv cfg2) as Hhi2 by (eapply headers_inv_frame; [|exact Hhi]; congruence).
  destruct (add_sets_spec m 0 _ _ _ Hhi2 (Z.le_refl 0) Es) as (K1 & K2 & K3 & K4).
  split_and!.
  - intros i d. unfold at_index. destruct (Z.leb_spec i 0); [done|]. intros Hd. apply G4 in Hd.
    rewrite (body_at_frame _ _ _ K1). by replace (0 + Z.of_nat (Z.to_nat (i - 1)) + 1) with i in Hd by lia.
  - intros j l. unfold at_index. destruct (Z.leb_spec j 0); [done|]. cbn. rewrite list_lookup_fmap.
    destruct (m_header_sets m !! Z.to_nat (j - 1)) as [r|] eqn:Er; [|done]. intros [= <-].
    apply K4 in Er. by replace (0 + Z.of_nat (Z.to_nat (j - 1)) + 1) with j in Er by lia.
  - by rewrite K2, G2.
Qed.

(** C36: A configuration populated from a module serves each index as the
    compiler meant it: body [i] and header set [j] of the module are body [i]
    and header set [j] of the configuration, byte for byte, and upstream [k] is
    the [k]-th declaration, bound to its address in an empty configuration and
    with its exact name in a pre-bound one. *)
Theorem populate_aligned {A} cfg (m : Module_ A) cfg' :
  bodies_inv cfg -> headers_inv cfg -> populate_route_config cfg m = (true, cfg') ->
  (forall i d, at_index (m_response_bodies m) i = Some d -> body_at cfg' i = Some d) /\
  (forall j l, at_index (am_sets (mview m)) j = Some l -> header_set_at cfg' j = Some l) /\
  Forall2 (fun up t => if Nat.eqb (length (upstreams cfg)) 0 then bound_to up t else u_name t = up_name up)
    (m_upstreams m) (upstreams cfg').
Proof. apply populate_facts. Qed.

(** ** From source to answer *)

Section answer.
Context {A : Type} `{HB : Bump A}.
Implicit Types (b : Builder A).

(** The instruction of [response(code, body, headers)]. *)
Definition answers (x : Instruction) (code i j : Z) : Prop :=
  i_op x = Opcode.RetStatus /\ i_operand_count x = 0 /\ i_imm x = ImmI64 (pack_status code i j).

Lemma ret_status_emits b code i j l b' r :
  rep_ok b -> exec (RetStatus code i j l) b = Some (b', inl r) ->
  exists f a k x, am_functions (mview (b_mod b)) !! f = Some a /\
    mview (b_mod b') = am_set (mview (b_mod b)) f (af_emit a k None x) /\ answers x code i j.
Proof.
  intros Hr He.
  pose proof (emit_with_wp b Opcode.RetStatus None l (with_imm (ImmI64 (pack_status code i j))) Hr
    (keeps3_imm _)) as Hw.
  cbn [exec] in He. unfold quiet, numbered, emit_ret_status, bind in He. unfold wp in Hw.
  destruct (emit_with _ None l _ b) as [[b1 [vid|e]]|]; [|done..]. injection He as <- <-.
  destruct Hw as (f & fn & k & blk & fn' & blk' & old & Hp & Ht & _ & _ & _ & Hv).
  exists f, (fview fn), k. eexists. split; [cbn; by rewrite list_lookup_fmap, (ap_fn _ _ _ _ _ Hp)|].
  split; [by rewrite (tr_view _ _ _ _ _ _ Ht), Hv|]. done.
Qed.

Lemma index_in_u16 {T} (l : list T) i x : at_index l i = Some x -> (length l <= 128)%nat -> in_u 16 i.
Proof.
  unfold at_index, in_u. destruct (Z.leb_spec i 0); [done|]. intros Hx Hl. apply lookup_lt_Some in Hx. lia.
Qed.

(** C6: A route answer reaches the client as it was compiled.  Once a body and
    a header set are interned and [emit_ret_status] was called with their
    indices, whatever is built afterwards: the word of the compiled instruction
    decodes to this status and these indices, and a configuration populated from
    the finished module resolves them to the interned body and header set. *)
Theorem compiled_answer_served ai name fc sc b body i b1 b2 pairs j b3 b4 code l b5 b' cfg cfg' :
  reached ai name fc sc b -> in_u 16 code ->
  exec (InternBody body) b = Some (b1, inl i) -> i <> 0 -> rtc step b1 b2 ->
  exec (InternHeaders pairs) b2 = Some (b3, inl j) -> j <> 0 -> rtc step b3 b4 ->
  exec (RetStatus code i j l) b4 = Some (b5, inl 0) -> rtc step b5 b' ->
  bodies_inv cfg -> headers_inv cfg -> populate_route_config cfg (b_mod b') = (true, cfg') ->
  exists f fn k x w, am_functions (mview (b_mod b4)) !! f = Some fn /\
    mview (b_mod b5) = am_set (mview (b_mod b4)) f (af_emit fn k None x) /\
    ret_status_word x 0 = Some w /\
    decode_result (Some w) = mkOutcome KReturnStatus code 0 0 YTimer 0 i j /\
    body_at cfg' i = Some body /\ header_set_at cfg' j = Some pairs.
Proof.
  intros Hr Hcode E1 Hi S12 E3 Hj S34 E5 S5 Hbi Hhi Hpop.
  destruct (steps_ok _ _ (reached_ok _ _ _ _ _ Hr) (rtc_once _ _ (step_done b (InternBody body) i b1 eq_refl E1))) as [Hb1 _].
  destruct (steps_ok _ _ Hb1 S12) as [Hb2 _].
  destruct (steps_ok _ _ Hb2 (rtc_once _ _ (step_done b2 (InternHeaders pairs) j b3 eq_refl E3))) as [Hb3 _].
  destruct (steps_ok _ _ Hb3 S34) as [Hb4 _].
  assert (rtc step b3 b') as Hlater
    by (etrans; [exact S34|]; eapply rtc_l; [exact (step_done b4 (RetStatus code i j l) 0 b5 eq_refl E5)|exact S5]).
  destruct (interned_later _ _ _ _ _ _ _ _ Hr E1 Hi S12 E3 Hj _ Hlater) as [Hbody Hset].
  destruct (steps_ok _ _ Hb3 Hlater) as [[_ [_ _ [_ Hl1] [_ Hl2]]] _].
  pose proof (index_in_u16 _ _ _ Hbody Hl1) as Hiu. pose proof (index_in_u16 _ _ _ Hset Hl2) as Hju.
  destruct (ret_status_emits _ _ _ _ _ _ _ (proj1 Hb4) E5) as (f & fn & k & x & Hf & Hv & _ & H0 & Him).
  pose proof (ret_status_word_literal x 0 code i j H0 Him Hcode Hiu Hju) as Hw.
  destruct (populate_facts _ _ _ Hbi Hhi Hpop) as (Pb & Ps & _).
  exists f, fn, k, x. eexists. split_and!; [exact Hf|exact Hv|exact Hw| |by apply Pb|by apply Ps].
  unfold decode_result. by rewrite unpack_pack.
Qed.
End answer.

(** ** Routes of the module *)

(** Entry [r] serves the handler compiled for [fn]. *)
Definition route_of (lookup : list Z -> option Z) (fn : Function) (r : RouteEntry) : Prop :=
  re_path r = c_string (fn_route_pattern fn) /\
  re_method r = route_method_key_from_legacy_char (fn_http_method fn) /\
  re_action r = JitHandler /\
  lookup (c_string (format_handler_symbol (fn_name fn) 256)) = Some (re_fn r) /\ re_fn r <> 0 /\
  re_needs_req_body r = rir_function_needs_req_body fn.

Lemma add_entry_routes c p m act u s fn needs c' :
  add_entry c (Some p) m act u s fn needs = (true, c') ->
  routes c' = routes c ++ [mkEntry p (route_method_key_from_legacy_char m) act u s fn needs] /\
  dispatch_kind c' = dispatch_kind c.
Proof.
  unfold add_entry. do 3 (case_if; [done|]). destruct (route_method_slot _); [|done]. case_if; [done|].
  unfold populate_dispatch_state. destruct (dispatch_kind c) eqn:Ek.
  - destruct (art_insert _ _ _ _) as [[] ?]; [|done]. intros [= <-]. by split.
  - destruct (insert _ _ _ _) as [[] ?]; [|done]. intros [= <-]. by split.
Qed.

Lemma register_loop_spec lookup fns cfg cfg' :
  register_loop lookup fns cfg = (true, cfg') ->
  dispatch_kind cfg' = dispatch_kind cfg /\
  exists rs, routes cfg' = routes cfg ++ rs /\ Forall2 (route_of lookup) fns rs.
Proof.
  revert cfg. induction fns as [|fn fns IH]; intros cfg; cbn [register_loop].
  { intros [= <-]. split; [done|]. exists []. by rewrite app_nil_r. }
  case_if; [done|]. destruct (lookup _) as [h|] eqn:Eh; [|done].
  unfold add_jit_handler. destruct (Nat.leb _ (length (routes cfg))); [done|].
  destruct (Z.eqb_spec h 0) as [|Hh]; [done|].
  destruct (add_entry cfg _ _ _ _ _ _ _) as [[] cfg1] eqn:Ea; [|done]. intros Hrest.
  destruct (add_entry_routes _ _ _ _ _ _ _ _ _ Ea) as [Hr Hk].
  destruct (IH _ Hrest) as (Hk' & rs & Hr' & Hall). split; [congruence|].
  eexists. rewrite Hr', Hr, <- app_assoc. split; [done|]. constructor; [|done]. by split_and!.
Qed.

(** C37: When [register_jit_routes] succeeds, route [i] of the table is function
    [i] of the module: its pattern, method key, request-body flag and the
    address its symbol was looked up to; the dispatcher is the segment trie
    exactly when the patterns need it. *)
Theorem routes_registered {A} lookup cfg (m : Module_ A) cfg' :
  register_jit_routes lookup cfg m = (true, cfg') ->
  Forall2 (route_of lookup) (m_functions m) (routes cfg') /\
  dispatch_kind cfg' =
    (if needs_segment_aware (fn_route_pattern <$> m_functions m) then SegmentTrie else ArtJit).
Proof.
  unfold register_jit_routes, configure_route_dispatch.
  destruct (Nat.eqb_spec (length (routes cfg)) 0) as [Hz|]; [|done]. cbn [negb].
  destruct (Nat.ltb _ _); [done|]. unfold use_segment_trie, use_art. rewrite Hz.
  change (Nat.ltb 0 0) with false. cbv iota. apply nil_length_inv in Hz.
  destruct (needs_segment_aware _); intros Hr; destruct (register_loop_spec _ _ _ _ Hr) as (Hk & rs & Hrs & Hall);
    cbn in Hrs; rewrite Hz in Hrs; by rewrite Hrs.
Qed.

(** ** Witnesses *)

Definition answer_body : Builder nat := default route_built (run [InternBody (bs "hi")] route_built).
Definition answer_set : Builder nat := default answer_body (run [InternHeaders [(bs "x", bs "1")]] answer_body).
Definition answer_done : Builder nat := default answer_set (run [RetStatus 200 1 1 loc0] answer_set).
Definition answer_config : RouteConfig := snd (populate_route_config empty_config (b_mod answer_done)).

Lemma empty_bodies_inv : bodies_inv empty_config.
Proof. split; cbn; [lia | lia | constructor]. Qed.

Lemma empty_headers_inv : headers_inv empty_config.
Proof. split; cbn; try lia; constructor. Qed.

Lemma compiled_answer_served_witness :
  body_at answer_config 1 = Some (bs "hi") /\ header_set_at answer_config 1 = Some [(bs "x", bs "1")].
Proof.
  assert (exec (InternBody (bs "hi")) route_built = Some (answer_body, inl 1)) as E1
    by (vm_compute; reflexivity).
  assert (exec (InternHeaders [(bs "x", bs "1")]) answer_body = Some (answer_set, inl 1)) as E2
    by (vm_compute; reflexivity).
  assert (exec (RetStatus 200 1 1 loc0) answer_set = Some (answer_done, inl 0)) as E3
    by (vm_compute; reflexivity).
  assert (populate_route_config empty_config (b_mod answer_done) = (true, answer_config)) as E4
    by (vm_compute; reflexivity).
  assert (in_u 16 200) as Hc by (unfold in_u; lia).
  destruct (compiled_answer_served route_init [] 2 2 route_built (bs "hi") 1 answer_body answer_body
    [(bs "x", bs "1")] 1 answer_set answer_set 200 loc0 answer_done answer_done empty_config answer_config
    route_reached Hc E1 ltac:(done) (rtc_refl _ _) E2 ltac:(done) (rtc_refl _ _) E3 (rtc_refl _ _)
    empty_bodies_inv empty_headers_inv E4) as (f & fn & k & x & w & _ & _ & _ & _ & H).
  exact H.
Defined.

Lemma populate_aligned_witness :
  at_index (m_response_bodies (b_mod answer_done)) 1 = Some (bs "hi") /\
  body_at answer_config 1 = Some (bs "hi").
Proof.
  assert (populate_route_config empty_config (b_mod answer_done) = (true, answer_config)) as E
    by (vm_compute; reflexivity).
  assert (at_index (m_response_bodies (b_mod answer_done)) 1 = Some (bs "hi")) as Hb
    by (vm_compute; reflexivity).
  split; [exact Hb|].
  exact (proj1 (populate_aligned _ _ _ empty_bodies_inv empty_headers_inv E) 1 (bs "hi") Hb).
Defined.

Lemma routes_registered_witness :
  let cfg := snd (register_jit_routes (fun _ => Some 4096) empty_config (b_mod answer_done)) in
  Forall2 (route_of (fun _ => Some 4096)) (m_functions (b_mod answer_done)) (routes cfg) /\
  dispatch_kind cfg =
    (if needs_segment_aware (fn_route_pattern <$> m_functions (b_mod answer_done)) then SegmentTrie else ArtJit).
Proof.
  cbv zeta. apply (routes_registered (fun _ => Some 4096) empty_config (b_mod answer_done)).
  vm_compute. reflexivity.
Defined.
