(* ===== verification/RirPrinter.v ===== *)
(** * The IR printer

    Model of include/rut/compiler/rir_printer.h and src/compiler/rir_printer.cc.
    What a printing function hands to [put] is a list of bytes, [None] when it
    follows a null pointer or reads a member of the immediate that was not
    written; [PrintBuf] is the buffer with the kernel's answers to [write].

    The theorems: a module built by calls prints without a fault, every byte
    reaches the descriptor once and in order, and a line reads back. *)

From S2P Require Import Prelude HttpParser AccessLog Rir RirBuilder RirEmit RirLogic RirTyping RirBuilderOk.
From S2P Require Import RirModuleOps RirIntern RirCalls.

(** ** The buffer *)

(** What a call of [write] answers. *)
Inductive WriteResult := Wrote (n : nat) | Interrupted | Failed.

(** [data]: the first [len] bytes of the buffer; [fd]: false for in-memory
    output; [out]: what the descriptor has received; [kernel]: the answers to
    come, after which everything is taken at once. *)
Record PrintBuf := mkBuf {
  pb_data : list Z;
  pb_cap : nat;
  pb_fd : bool;
  pb_overflow : bool;
  pb_out : list Z;
  pb_kernel : list WriteResult
}.

Definition buf_init (cap : nat) (fd : bool) (kernel : list WriteResult) : PrintBuf :=
  mkBuf [] cap fd false [] kernel.

(** The bytes taken, the answers left, and whether all was written. *)
Fixpoint flush_loop (kernel : list WriteResult) (data : list Z) : list Z * list WriteResult * bool :=
  match data with
  | [] => ([], kernel, true)
  | _ :: _ =>
      match kernel with
      | [] => (data, [], true)
      | Interrupted :: kernel' => flush_loop kernel' data
      | Failed :: kernel' => ([], kernel', false)
      | Wrote n :: kernel' =>
          if Nat.eqb n 0 then ([], kernel', false)
          else let '(out, k, ok) := flush_loop kernel' (drop n data) in (take n data ++ out, k, ok)
      end
  end.

Definition flush (b : PrintBuf) : PrintBuf :=
  if negb (pb_fd b) then b
  else if Nat.eqb (length (pb_data b)) 0 then b
  else
    let '(out, k, ok) := flush_loop (pb_kernel b) (pb_data b) in
    mkBuf [] (pb_cap b) (pb_fd b) (pb_overflow b || negb ok) (pb_out b ++ out) k.

Definition set_overflow (b : PrintBuf) : PrintBuf :=
  mkBuf (pb_data b) (pb_cap b) (pb_fd b) true (pb_out b) (pb_kernel b).
Definition store (b : PrintBuf) (c : Z) : PrintBuf :=
  mkBuf (pb_data b ++ [c]) (pb_cap b) (pb_fd b) (pb_overflow b) (pb_out b) (pb_kernel b).

Definition put_char (b : PrintBuf) (c : Z) : PrintBuf :=
  if Nat.leb (pb_cap b) (length (pb_data b)) then
    if negb (pb_fd b) then set_overflow b
    else
      let b := flush b in
      if Nat.leb (pb_cap b) (length (pb_data b)) then set_overflow b else store b c
  else store b c.

Definition put_str (b : PrintBuf) (s : list Z) : PrintBuf := fold_left put_char s b.

(** ** Numbers *)

(** [dec_digits size]: the loop over [tmp], an array of [size] bytes. *)

Definition text_u32 (val : Z) : option (list Z) := dec_digits 10 (u32 val).

Definition text_i32 (val : Z) : option (list Z) :=
  if val <? 0 then t ← text_u32 (u32 (- (val + 1)) + 1); Some (bs "-" ++ t) else text_u32 val.

Definition text_i64 (val : Z) : option (list Z) :=
  if val <? 0 then t ← dec_digits 20 (u64 (u64 (- (val + 1)) + 1)); Some (bs "-" ++ t) else dec_digits 20 (u64 val).

Definition indent (level : nat) : list Z := replicate (level * 2) (ch " ").

(** ** Names *)

Definition print_opcode (op : Opcode.t) : list Z :=
  match op with
  | Opcode.ConstStr => bs "const.str" | Opcode.ConstI32 => bs "const.i32"
  | Opcode.ConstI64 => bs "const.i64" | Opcode.ConstBool => bs "const.bool"
  | Opcode.ConstDuration => bs "const.duration" | Opcode.ConstByteSize => bs "const.bytesize"
  | Opcode.ConstMethod => bs "const.method" | Opcode.ConstStatus => bs "const.status"
  | Opcode.ReqHeader => bs "req.header" | Opcode.ReqParam => bs "req.param"
  | Opcode.ReqQuery => bs "req.query" | Opcode.ReqQueryString => bs "req.queryString"
  | Opcode.ReqMethod => bs "req.method" | Opcode.ReqPath => bs "req.path"
  | Opcode.ReqPathOnly => bs "req.pathOnly" | Opcode.ReqBody => bs "req.body"
  | Opcode.ReqKeepAlive => bs "req.keepAlive" | Opcode.ReqChunked => bs "req.chunked"
  | Opcode.ReqHasContentLength => bs "req.hasContentLength" | Opcode.ReqHttp10 => bs "req.http10"
  | Opcode.ReqHttp11 => bs "req.http11" | Opcode.ReqHttpVersion => bs "req.httpVersion"
  | Opcode.ResumeEventKind => bs "resume.event_kind"
  | Opcode.ResumeEventResult => bs "resume.event_result"
  | Opcode.CtxLoadSlotI32 => bs "ctx.load_slot_i32" | Opcode.ReqRemoteAddr => bs "req.remote_addr"
  | Opcode.ReqContentLength => bs "req.content_length" | Opcode.ReqCookie => bs "req.cookie"
  | Opcode.ReqSetHeader => bs "req.set_header" | Opcode.ReqSetPath => bs "req.set_path"
  | Opcode.CtxStoreSlotI32 => bs "ctx.store_slot_i32" | Opcode.StrHasPrefix => bs "str.has_prefix"
  | Opcode.StrTrimPrefix => bs "str.trim_prefix" | Opcode.StrRegexMatch => bs "str.regex_match"
  | Opcode.StrInterpolate => bs "str.interpolate" | Opcode.CmpEq => bs "cmp.eq"
  | Opcode.CmpNe => bs "cmp.ne" | Opcode.CmpLt => bs "cmp.lt" | Opcode.CmpGt => bs "cmp.gt"
  | Opcode.CmpLe => bs "cmp.le" | Opcode.CmpGe => bs "cmp.ge" | Opcode.TimeNow => bs "time.now"
  | Opcode.TimeDiff => bs "time.diff" | Opcode.IpInCidr => bs "ip.in_cidr"
  | Opcode.HashHmacSha256 => bs "hash.hmac_sha256" | Opcode.BytesHex => bs "bytes.hex"
  | Opcode.CounterIncr => bs "counter.incr" | Opcode.StructField => bs "struct.field"
  | Opcode.StructCreate => bs "struct.create" | Opcode.BodyParse => bs "body.parse"
  | Opcode.OptNil => bs "opt.nil" | Opcode.OptWrap => bs "opt.wrap"
  | Opcode.ArrayLen => bs "array.len" | Opcode.ArrayGet => bs "array.get"
  | Opcode.OptIsNil => bs "opt.is_nil" | Opcode.OptUnwrap => bs "opt.unwrap"
  | Opcode.Select => bs "select" | Opcode.TraceFuncEnter => bs "trace.func_enter"
  | Opcode.TraceFuncExit => bs "trace.func_exit" | Opcode.TraceIoStart => bs "trace.io_start"
  | Opcode.TraceIoEnd => bs "trace.io_end"
  | Opcode.MetricHistRecord => bs "metric.histogram_record"
  | Opcode.MetricCounterIncr => bs "metric.counter_incr"
  | Opcode.AccessLogWrite => bs "accesslog.write" | Opcode.Br => bs "br" | Opcode.Jmp => bs "jmp"
  | Opcode.RetStatus => bs "ret.status" | Opcode.RetForward => bs "ret.forward"
  | Opcode.YieldTimer => bs "yield.timer" | Opcode.YieldHttpGet => bs "yield.http_get"
  | Opcode.YieldHttpPost => bs "yield.http_post" | Opcode.YieldForward => bs "yield.forward"
  end.

(** [ss]: the struct definitions that types point to. *)
Fixpoint print_ty (ss : list StructDef) (t : Ty) : option (list Z) :=
  let 'MkTy kind inner sd := t in
  match kind with
  | TypeKind.Void => Some (bs "void")
  | TypeKind.Bool => Some (bs "bool")
  | TypeKind.I32 => Some (bs "i32")
  | TypeKind.I64 => Some (bs "i64")
  | TypeKind.U32 => Some (bs "u32")
  | TypeKind.U64 => Some (bs "u64")
  | TypeKind.F64 => Some (bs "f64")
  | TypeKind.Str => Some (bs "str")
  | TypeKind.ByteSize => Some (bs "ByteSize")
  | TypeKind.Duration => Some (bs "Duration")
  | TypeKind.Time => Some (bs "Time")
  | TypeKind.IP => Some (bs "IP")
  | TypeKind.CIDR => Some (bs "CIDR")
  | TypeKind.MediaType => Some (bs "MediaType")
  | TypeKind.StatusCode => Some (bs "StatusCode")
  | TypeKind.Method => Some (bs "Method")
  | TypeKind.Bytes => Some (bs "Bytes")
  | TypeKind.Optional =>
      t ← (match inner with Some i => print_ty ss i | None => Some (bs "void") end);
      Some (bs "Optional(" ++ t ++ bs ")")
  | TypeKind.Struct =>
      n ← (match sd with Some k => sd_name <$> ss !! k | None => Some [] end);
      Some (bs "Struct(" ++ n ++ bs ")")
  | TypeKind.Array =>
      t ← (match inner with Some i => print_ty ss i | None => Some (bs "void") end);
      Some (bs "Array(" ++ t ++ bs ")")
  end.

Definition print_type (ss : list StructDef) (t : option Ty) : option (list Z) :=
  match t with Some t => print_ty ss t | None => Some (bs "void") end.

(** ** Parts of a line *)

Definition print_value_ref (v : Z) : option (list Z) := t ← text_u32 v; Some (bs "%" ++ t).

Definition hex_digit (n : Z) : Z := if n <? 10 then 48 + n else 55 + n.

Definition quote_byte (c : Z) : list Z :=
  if c =? 92 then [92; 92]
  else if c =? 34 then [92; 34]
  else if c =? 10 then [92; 110]
  else if c =? 9 then [92; 116]
  else if (0x20 <=? c) && (c <=? 0x7e) then [c]
  else [92; 120; hex_digit (Z.land (Z.shiftr c 4) 15); hex_digit (Z.land c 15)].

Definition print_quoted_str (s : list Z) : list Z := [34] ++ mjoin (quote_byte <$> s) ++ [34].

Definition print_block_ref (fn : Function) (bid : Z) : option (list Z) :=
  if bid <? block_count fn then bb_label <$> v_slots (fn_blocks fn) !! Z.to_nat bid
  else Some (bs "block_?").

Definition print_source_loc (loc : SourceLoc) : option (list Z) :=
  if 0 <? line loc then t ← text_u32 (line loc); Some (bs "  // line " ++ t) else Some [].

(** Members of the immediate. *)
Definition imm_str (m : Immediate) : option (list Z) :=
  match m with ImmStr s => Some s | ImmZero => Some [] | _ => None end.
Definition imm_i32 (m : Immediate) : option Z :=
  match m with ImmI32 v => Some v | ImmZero => Some 0 | _ => None end.
Definition imm_int (m : Immediate) : option Z :=
  match m with ImmI64 v => Some v | ImmZero => Some 0 | _ => None end.
Definition imm_bool (m : Immediate) : option bool :=
  match m with ImmBool v => Some v | ImmZero => Some false | _ => None end.
Definition imm_method (m : Immediate) : option Z :=
  match m with ImmMethod v => Some v | ImmZero => Some 0 | _ => None end.
Definition imm_target (k : nat) (m : Immediate) : option Z :=
  match m with ImmTargets a b => [a; b] !! k | ImmZero => [0; 0] !! k | _ => None end.
Definition imm_struct_name (m : Immediate) : option (list Z) :=
  match m with ImmStructRef n _ => Some n | ImmZero => Some [] | _ => None end.
Definition imm_struct_type (m : Immediate) : option (option Ty) :=
  match m with ImmStructRef _ t => Some t | ImmZero => Some None | _ => None end.

(** [print_value_ref(inst.operands[i])] *)
Definition inline_ref (x : Instruction) (i : nat) : option (list Z) :=
  v ← i_operands x !! i; print_value_ref v.

(** Operand [i] onwards, each after a separator: [first] before operand 0. *)
Fixpoint refs (x : Instruction) (first : list Z) (i n : nat) : option (list Z) :=
  match n with
  | O => Some []
  | S n' =>
      v ← operand x i; t ← print_value_ref v; rest ← refs x first (S i) n';
      Some ((if Nat.eqb i 0 then first else bs ", ") ++ t ++ rest)
  end.

Definition operand_refs (x : Instruction) (first : list Z) : option (list Z) :=
  refs x first 0 (Z.to_nat (i_operand_count x)).

(** ** Lines *)

(** The operands and immediates of an instruction. *)
Definition print_args (ss : list StructDef) (fn : Function) (x : Instruction) : option (list Z) :=
  match i_op x with
  | Opcode.ConstStr | Opcode.ReqHeader | Opcode.ReqParam | Opcode.ReqQuery | Opcode.ReqCookie =>
      s ← imm_str (i_imm x); Some (bs " " ++ print_quoted_str s)
  | Opcode.ConstI32 | Opcode.ConstStatus =>
      v ← imm_i32 (i_imm x); t ← text_i32 v; Some (bs " " ++ t)
  | Opcode.ConstI64 | Opcode.ConstDuration | Opcode.ConstByteSize =>
      v ← imm_int (i_imm x); t ← text_i64 v; Some (bs " " ++ t)
  | Opcode.ConstBool =>
      v ← imm_bool (i_imm x); Some (bs " " ++ (if v : bool then bs "true" else bs "false"))
  | Opcode.ConstMethod => v ← imm_method (i_imm x); t ← text_u32 v; Some (bs " " ++ t)
  | Opcode.ReqMethod | Opcode.ReqPath | Opcode.ReqPathOnly | Opcode.ReqBody | Opcode.ReqQueryString
  | Opcode.ReqHttpVersion | Opcode.ResumeEventKind | Opcode.ResumeEventResult => Some []
  | Opcode.CtxLoadSlotI32 => v ← imm_i32 (i_imm x); t ← text_i64 v; Some (bs " " ++ t)
  | Opcode.ReqRemoteAddr | Opcode.ReqContentLength | Opcode.TimeNow => Some []
  | Opcode.ReqSetHeader =>
      s ← imm_str (i_imm x); a ← inline_ref x 0; Some (bs " " ++ print_quoted_str s ++ bs ", " ++ a)
  | Opcode.ReqSetPath => a ← inline_ref x 0; Some (bs " " ++ a)
  | Opcode.CtxStoreSlotI32 =>
      v ← imm_i32 (i_imm x); t ← text_i64 v; a ← inline_ref x 0; Some (bs " " ++ t ++ bs ", " ++ a)
  | Opcode.StrHasPrefix | Opcode.StrTrimPrefix | Opcode.CmpEq | Opcode.CmpNe | Opcode.CmpLt | Opcode.CmpGt
  | Opcode.CmpLe | Opcode.CmpGe | Opcode.TimeDiff =>
      a ← inline_ref x 0; b ← inline_ref x 1; Some (bs " " ++ a ++ bs ", " ++ b)
  | Opcode.StrRegexMatch =>
      a ← inline_ref x 0; s ← imm_str (i_imm x); Some (bs " " ++ a ++ bs ", " ++ print_quoted_str s)
  | Opcode.StrInterpolate => t ← operand_refs x []; Some (bs " [" ++ t ++ bs "]")
  | Opcode.IpInCidr =>
      a ← inline_ref x 0; s ← imm_str (i_imm x); Some (bs " " ++ a ++ bs ", " ++ print_quoted_str s)
  | Opcode.OptWrap | Opcode.OptIsNil | Opcode.OptUnwrap | Opcode.BytesHex =>
      a ← inline_ref x 0; Some (bs " " ++ a)
  | Opcode.Select =>
      a ← inline_ref x 0; b ← inline_ref x 1; c ← inline_ref x 2;
      Some (bs " " ++ a ++ bs ", " ++ b ++ bs ", " ++ c)
  | Opcode.StructCreate =>
      ty ← imm_struct_type (i_imm x);
      n ← (match mbind ty_struct ty with Some k => sd_name <$> ss !! k | None => Some [] end);
      t ← (if 0 <? i_operand_count x then t ← operand_refs x []; Some (bs " { " ++ t ++ bs " }") else Some []);
      Some (bs " " ++ n ++ t)
  | Opcode.StructField =>
      a ← inline_ref x 0; n ← imm_struct_name (i_imm x); Some (bs " " ++ a ++ bs ", " ++ print_quoted_str n)
  | Opcode.BodyParse => ty ← imm_struct_type (i_imm x); t ← print_type ss ty; Some (bs " " ++ t)
  | Opcode.CounterIncr =>
      a ← inline_ref x 0; v ← imm_int (i_imm x); t ← text_i64 v; Some (bs " " ++ a ++ bs ", " ++ t ++ bs "s")
  | Opcode.HashHmacSha256 => a ← inline_ref x 0; b ← inline_ref x 1; Some (bs " " ++ a ++ bs ", " ++ b)
  | Opcode.Br =>
      a ← inline_ref x 0; t ← imm_target 0 (i_imm x); e ← imm_target 1 (i_imm x);
      t ← print_block_ref fn t; e ← print_block_ref fn e; Some (bs " " ++ a ++ bs ", " ++ t ++ bs ", " ++ e)
  | Opcode.Jmp => t ← imm_target 0 (i_imm x); t ← print_block_ref fn t; Some (bs " " ++ t)
  | Opcode.RetStatus =>
      if 0 <? i_operand_count x then a ← inline_ref x 0; Some (bs " " ++ a)
      else
        packed ← imm_int (i_imm x);
        let packed := u64 packed in
        let body_idx := Z.land (Z.shiftr packed 16) 0xffff in
        let headers_idx := Z.land (Z.shiftr packed 32) 0xffff in
        s ← text_i32 (Z.land packed 0xffff);
        b ← (if negb (body_idx =? 0) then t ← text_u32 body_idx; Some (bs ", body#" ++ t) else Some []);
        h ← (if negb (headers_idx =? 0) then t ← text_u32 headers_idx; Some (bs ", headers#" ++ t) else Some []);
        Some (bs " " ++ s ++ b ++ h)
  | Opcode.RetForward => a ← inline_ref x 0; Some (bs " " ++ a)
  | Opcode.YieldHttpGet =>
      s ← imm_str (i_imm x);
      t ← (if 0 <? i_operand_count x then a ← inline_ref x 0; Some (bs ", " ++ a) else Some []);
      Some (bs " " ++ print_quoted_str s ++ t)
  | Opcode.YieldHttpPost =>
      s ← imm_str (i_imm x); t ← operand_refs x (bs ", "); Some (bs " " ++ print_quoted_str s ++ t)
  | Opcode.YieldForward =>
      t ← (if 0 <? i_operand_count x then inline_ref x 0 else Some []); Some (bs " " ++ t)
  | Opcode.YieldTimer =>
      packed ← imm_int (i_imm x);
      let packed := u64 packed in
      p ← text_u32 (Z.land packed 0xffffffff); s ← text_u32 (Z.land (Z.shiftr packed 32) 0xffff);
      Some (bs " " ++ p ++ bs ", state " ++ s)
  | _ => operand_refs x (bs " ")
  end.

Definition print_result (v : Z) : option (list Z) :=
  if v =? kNoValue then Some [] else t ← print_value_ref v; Some (t ++ bs " = ").

Definition print_instruction (ss : list StructDef) (fn : Function) (x : Instruction) : option (list Z) :=
  r ← print_result (i_result x); args ← print_args ss fn x; loc ← print_source_loc (i_loc x);
  Some (indent 2 ++ r ++ print_opcode (i_op x) ++ args ++ loc ++ [LF]).

(** The texts of the elements, one after the other. *)
Definition texts {T} (f : T -> option (list Z)) (l : list T) : option (list Z) := mjoin <$> mapM f l.

Definition print_block (ss : list StructDef) (fn : Function) (blk : BasicBlock) : option (list Z) :=
  t ← texts (print_instruction ss fn) (vec_items (bb_insts blk));
  Some (indent 1 ++ bb_label blk ++ bs ":" ++ [LF] ++ t).

Definition total_insts (fn : Function) : Z :=
  foldr (fun blk n => u32 (Z.of_nat (v_count (bb_insts blk)) + n)) 0 (vec_items (fn_blocks fn)).

(** [print_function] up to its [flush]. *)
Definition function_text (ss : list StructDef) (fn : Function) : option (list Z) :=
  yields ← text_u32 (fn_yield_count fn); states ← text_u32 (fn_yield_count fn + 1);
  nblocks ← text_u32 (block_count fn); ninsts ← text_u32 (total_insts fn);
  blocks ← texts (print_block ss fn) (vec_items (fn_blocks fn));
  Some (bs "=== " ++ fn_name fn ++ bs " ===" ++ [LF] ++
        indent 1 ++ bs "route: " ++ fn_route_pattern fn ++ [LF] ++
        indent 1 ++ bs "io_points: " ++ yields ++
          (if fn_yield_count fn =? 0 then bs " (all sync)" else []) ++ [LF] ++
        indent 1 ++ bs "states: " ++ states ++ [LF] ++
        indent 1 ++ bs "blocks: " ++ nblocks ++ [LF] ++
        indent 1 ++ bs "instructions: " ++ ninsts ++ [LF] ++ [LF] ++ blocks).

Definition print_function (ss : list StructDef) (b : PrintBuf) (fn : Function) : option PrintBuf :=
  t ← function_text ss fn; Some (flush (put_str b t)).

(** The functions from number [i] on. *)
Fixpoint print_functions (ss : list StructDef) (i : nat) (fns : list Function) (b : PrintBuf) : option PrintBuf :=
  match fns with
  | [] => Some b
  | fn :: fns' =>
      b ← print_function ss (if Nat.ltb 0 i then put_char b LF else b) fn;
      print_functions ss (S i) fns' b
  end.

Definition print_module {A} (b : PrintBuf) (m : Module_ A) : option PrintBuf :=
  flush <$> print_functions (m_structs m) 0 (m_functions m) b.

(** ** The buffer passes everything on *)

Definition good_answer (r : WriteResult) : Prop :=
  match r with Wrote n => n <> 0%nat | Interrupted => True | Failed => False end.

Lemma flush_loop_ok kernel data :
  Forall good_answer kernel -> exists k, flush_loop kernel data = (data, k, true) /\ Forall good_answer k.
Proof.
  intros Hg. revert data. induction Hg as [|r kernel Hr Hk IH]; intros data.
  - exists []. by destruct data.
  - destruct data as [|c data]; [exists (r :: kernel); split; [done|by constructor]|]. cbn [flush_loop].
    destruct r as [n| |]; [|by apply IH|done]. cbn in Hr. rewrite (proj2 (Nat.eqb_neq _ _) Hr).
    destruct (IH (drop n (c :: data))) as (k & -> & Hk'). exists k. by rewrite take_drop.
Qed.

(** A buffer over a descriptor that takes what it is given. *)
Record live (b : PrintBuf) : Prop := {
  lv_fd : pb_fd b = true;
  lv_cap : (0 < pb_cap b)%nat;
  lv_len : (length (pb_data b) <= pb_cap b)%nat;
  lv_kernel : Forall good_answer (pb_kernel b)
}.

(** All bytes put so far. *)
Definition sent (b : PrintBuf) : list Z := pb_out b ++ pb_data b.

Lemma flush_live b :
  live b -> live (flush b) /\ pb_data (flush b) = [] /\ sent (flush b) = sent b /\
    pb_overflow (flush b) = pb_overflow b.
Proof.
  intros [H1 H2 H3 H4]. unfold flush, sent. rewrite H1. cbn [negb].
  destruct (Nat.eqb_spec (length (pb_data b)) 0) as [Hz|Hz].
  - apply nil_length_inv in Hz. split; [by split|]. by rewrite Hz.
  - destruct (flush_loop_ok _ (pb_data b) H4) as (k & -> & Hk). cbn. rewrite app_nil_r, orb_false_r.
    split_and!; try done. split; cbn; done || lia.
Qed.

Lemma put_char_live b c :
  live b -> live (put_char b c) /\ sent (put_char b c) = sent b ++ [c] /\ pb_overflow (put_char b c) = pb_overflow b.
Proof.
  intros Hb. unfold put_char.
  assert (Hstore : forall b, live b -> (length (pb_data b) < pb_cap b)%nat ->
    live (store b c) /\ sent (store b c) = sent b ++ [c] /\ pb_overflow (store b c) = pb_overflow b).
  { intros b0 [H1 H2 H3 H4] Hlt. unfold store, sent. cbn. rewrite app_assoc. split; [|done].
    split; cbn; try done. rewrite length_app. cbn. lia. }
  destruct (Nat.leb_spec (pb_cap b) (length (pb_data b))) as [Hle|Hlt]; [|by apply Hstore].
  rewrite (lv_fd _ Hb). cbn [negb]. destruct (flush_live _ Hb) as (Hf & Hd & Hs & Ho).
  pose proof (lv_cap _ Hf) as Hcap. rewrite Hd. cbn [length].
  destruct (Nat.leb_spec (pb_cap (flush b)) 0) as [|_]; [lia|].
  destruct (Hstore _ Hf) as (G1 & G2 & G3); [rewrite Hd; cbn; lia|]. split; [done|]. by rewrite G2, G3, Hs, Ho.
Qed.

Lemma put_str_live s b :
  live b -> live (put_str b s) /\ sent (put_str b s) = sent b ++ s /\ pb_overflow (put_str b s) = pb_overflow b.
Proof.
  revert b. induction s as [|c s IH]; intros b Hb; cbn [put_str fold_left].
  - split; [done|]. by rewrite app_nil_r.
  - destruct (put_char_live b c Hb) as (H1 & H2 & H3). destruct (IH _ H1) as (G1 & G2 & G3).
    unfold put_str in *. split; [done|]. by rewrite G2, G3, H2, H3, <- app_assoc.
Qed.

(** In memory: what fits, and the flag when something did not. *)
Lemma put_char_memory b c :
  pb_fd b = false -> (length (pb_data b) <= pb_cap b)%nat ->
  let b' := put_char b c in
  pb_fd b' = false /\ pb_cap b' = pb_cap b /\ pb_data b' = take (pb_cap b) (pb_data b ++ [c]) /\
  pb_overflow b' = pb_overflow b || Nat.leb (pb_cap b) (length (pb_data b)).
Proof.
  intros Hf Hl. cbv zeta. unfold put_char. rewrite Hf. cbn [negb].
  destruct (Nat.leb_spec (pb_cap b) (length (pb_data b))) as [Hle|Hlt]; cbn.
  - rewrite orb_true_r, take_app_le, take_ge by lia. done.
  - rewrite orb_false_r, take_ge by (rewrite length_app; cbn; lia). done.
Qed.

Lemma put_str_memory s b :
  pb_fd b = false -> (length (pb_data b) <= pb_cap b)%nat ->
  let b' := put_str b s in
  pb_fd b' = false /\ pb_cap b' = pb_cap b /\ pb_data b' = take (pb_cap b) (pb_data b ++ s) /\
  pb_overflow b' = pb_overflow b || Nat.ltb (pb_cap b) (length (pb_data b) + length s).
Proof.
  revert b. induction s as [|c s IH]; intros b Hf Hl; cbv zeta; cbn [put_str fold_left].
  - rewrite app_nil_r, take_ge, Nat.add_0_r by done. rewrite (proj2 (Nat.ltb_ge _ _)) by done. by rewrite orb_false_r.
  - destruct (put_char_memory b c Hf Hl) as (H1 & H2 & H3 & H4).
    destruct (IH (put_char b c)) as (G1 & G2 & G3 & G4); [done|rewrite H2, H3, length_take; lia|].
    unfold put_str in *. rewrite G1, G2, G3, G4, H2, H3, H4. split_and!; try done.
    + destruct (Nat.leb_spec (pb_cap b) (length (pb_data b))) as [Hle|Hlt].
      * assert (forall l, take (pb_cap b) (pb_data b ++ l) = pb_data b) as T
          by (intros l; rewrite take_app_le, take_ge by lia; done).
        by rewrite (T [c]), (T s), (T (c :: s)).
      * rewrite (take_ge (pb_data b ++ [c])) by (rewrite length_app; cbn; lia). by rewrite <- app_assoc.
    + rewrite <- orb_assoc. f_equal. rewrite length_take, length_app. cbn [length].
      destruct (Nat.leb_spec (pb_cap b) (length (pb_data b))) as [Hle|Hlt].
      * symmetry. apply Nat.ltb_lt. lia.
      * cbn [orb]. f_equal. lia.
Qed.

(** The listing of a module: its functions with an empty line between them. *)
Fixpoint functions_text (ss : list StructDef) (i : nat) (fns : list Function) : option (list Z) :=
  match fns with
  | [] => Some []
  | fn :: fns' =>
      t ← function_text ss fn; rest ← functions_text ss (S i) fns';
      Some ((if Nat.ltb 0 i then [LF] else []) ++ t ++ rest)
  end.

Definition module_text {A} (m : Module_ A) : option (list Z) := functions_text (m_structs m) 0 (m_functions m).

(** Printing a function after its separator. *)
Lemma print_function_live ss b fn i t :
  live b -> function_text ss fn = Some t ->
  exists b', print_function ss (if Nat.ltb 0 i then put_char b LF else b) fn = Some b' /\ live b' /\
    sent b' = sent b ++ (if Nat.ltb 0 i then [LF] else []) ++ t /\ pb_overflow b' = pb_overflow b.
Proof.
  intros Hb Ht. unfold print_function. rewrite Ht. cbn [mbind option_bind]. eexists. split; [reflexivity|].
  assert (exists b0, live b0 /\ b0 = (if Nat.ltb 0 i then put_char b LF else b) /\
    sent b0 = sent b ++ (if Nat.ltb 0 i then [LF] else []) /\ pb_overflow b0 = pb_overflow b)
    as (b0 & H0 & <- & Hs & Ho).
  { destruct (Nat.ltb 0 i).
    - destruct (put_char_live b LF Hb) as (? & ? & ?). eauto.
    - exists b. by rewrite app_nil_r. }
  destruct (put_str_live t b0 H0) as (H1 & H2 & H3). destruct (flush_live _ H1) as (H4 & _ & H5 & H6).
  split; [done|]. by rewrite H5, H2, Hs, H6, H3, Ho, <- app_assoc.
Qed.

Lemma print_functions_live ss fns i b t :
  live b -> functions_text ss i fns = Some t ->
  exists b', print_functions ss i fns b = Some b' /\ live b' /\ sent b' = sent b ++ t /\
    pb_overflow b' = pb_overflow b.
Proof.
  revert i b t. induction fns as [|fn fns IH]; intros i b t Hb; cbn [functions_text print_functions].
  { intros [= <-]. exists b. by rewrite app_nil_r. }
  destruct (function_text ss fn) as [t1|] eqn:E1; [|done]. cbn [mbind option_bind].
  destruct (functions_text ss (S i) fns) as [t2|] eqn:E2; [|done]. cbn [mbind option_bind]. intros [= <-].
  destruct (print_function_live ss b fn i t1 Hb E1) as (b1 & -> & H1 & H2 & H3). cbn [mbind option_bind].
  destruct (IH (S i) b1 t2 H1 E2) as (b2 & -> & G1 & G2 & G3). exists b2. split; [done|]. split; [done|].
  by rewrite G2, G3, H2, H3, <- !app_assoc.
Qed.

Lemma flush_memory b : pb_fd b = false -> flush b = b.
Proof. intros Hf. unfold flush. by rewrite Hf. Qed.

Lemma print_functions_memory ss fns i b t :
  pb_fd b = false -> (length (pb_data b) <= pb_cap b)%nat -> functions_text ss i fns = Some t ->
  print_functions ss i fns b = Some (put_str b t).
Proof.
  revert i b t. induction fns as [|fn fns IH]; intros i b t Hf Hl; cbn [functions_text print_functions].
  { by intros [= <-]. }
  destruct (function_text ss fn) as [t1|] eqn:E1; [|done]. cbn [mbind option_bind].
  destruct (functions_text ss (S i) fns) as [t2|] eqn:E2; [|done]. cbn [mbind option_bind]. intros [= <-].
  unfold print_function. rewrite E1. cbn [mbind option_bind].
  set (sep := if Nat.ltb 0 i then [LF] else []).
  assert ((if Nat.ltb 0 i then put_char b LF else b) = put_str b sep) as -> by (unfold sep; by destruct (Nat.ltb 0 i)).
  destruct (put_str_memory sep b Hf Hl) as (F1 & C1 & D1 & _).
  assert (length (pb_data (put_str b sep)) <= pb_cap (put_str b sep))%nat as L1 by (rewrite D1, C1, length_take; lia).
  destruct (put_str_memory t1 _ F1 L1) as (F2 & C2 & D2 & _).
  rewrite flush_memory by done. erewrite IH; [|done|rewrite D2, C2, length_take; lia|exact E2].
  unfold put_str. by rewrite !fold_left_app.
Qed.

Lemma module_printed {A} (m : Module_ A) t cap kernel :
  module_text m = Some t -> (0 < cap)%nat -> Forall good_answer kernel ->
  (exists b, print_module (buf_init cap true kernel) m = Some b /\
     pb_out b = t /\ pb_data b = [] /\ pb_overflow b = false) /\
  (exists b, print_module (buf_init cap false kernel) m = Some b /\
     pb_data b = take cap t /\ pb_overflow b = Nat.ltb cap (length t)).
Proof.
  intros Ht Hc Hk. unfold module_text in Ht. unfold print_module. split.
  - assert (live (buf_init cap true kernel)) as Hb by (split; cbn; done || lia).
    destruct (print_functions_live _ _ _ _ _ Hb Ht) as (b' & -> & H1 & H2 & H3). cbn. eexists. split; [done|].
    destruct (flush_live _ H1) as (_ & Hd & Hs & Ho). split; [|by rewrite Ho, H3].
    unfold sent in Hs. rewrite Hd, app_nil_r in Hs. rewrite Hs. exact H2.
  - rewrite (print_functions_memory _ _ _ (buf_init cap false kernel) t) by (cbn; done || lia). cbn. eexists.
    split; [done|]. destruct (put_str_memory t (buf_init cap false kernel)) as (F & C & D & O); [done|cbn; lia|].
    rewrite flush_memory by done. by rewrite D, O.
Qed.

(** ** Built modules print *)

Lemma text_u32_some v : exists t, text_u32 v = Some t /\ t <> [] /\ Forall is_dec t /\ dec_value 0 t = u32 v.
Proof.
  assert (0 <= u32 v < 10 ^ Z.of_nat 10) as Hv by (pose proof (wrap_range 32 v ltac:(lia)); unfold u32; lia).
  destruct (dec_digits_spec 10 10 (u32 v) ltac:(lia) Hv) as (t & ? & _ & ? & ? & ?). by exists t.
Qed.

Lemma text_i32_some v : is_Some (text_i32 v).
Proof. unfold text_i32. case_if; edestruct text_u32_some as (t & -> & _); by eexists. Qed.

Lemma text_u64_some v : is_Some (dec_digits 20 (u64 v)).
Proof.
  assert (0 <= u64 v < 10 ^ Z.of_nat 20) as Hv by (pose proof (wrap_range 64 v ltac:(lia)); unfold u64; lia).
  destruct (dec_digits_spec 20 20 (u64 v) ltac:(lia) Hv) as (t & -> & _). by eexists.
Qed.

Lemma text_i64_some v : is_Some (text_i64 v).
Proof. unfold text_i64. case_if; edestruct text_u64_some as [t ->]; by eexists. Qed.

Lemma value_ref_some v : is_Some (print_value_ref v).
Proof. unfold print_value_ref. destruct (text_u32_some v) as (t & -> & _). by eexists. Qed.

Lemma inline_some x i : shape_ok x -> (i < 3)%nat -> is_Some (inline_ref x i).
Proof.
  intros (H3 & _) Hi. unfold inline_ref.
  destruct (lookup_lt_is_Some_2 (i_operands x) i) as [v ->]; [lia|]. apply value_ref_some.
Qed.

Lemma refs_some x first n i :
  shape_ok x -> Z.of_nat (i + n) <= i_operand_count x -> is_Some (refs x first i n).
Proof.
  intros Hs. revert i. induction n as [|n IH]; intros i Hi; cbn [refs]; [by eexists|].
  rewrite operand_spec by (done || lia). pose proof (length_inst_ops x Hs).
  destruct (lookup_lt_is_Some_2 (inst_ops x) i) as [v ->]; [lia|]. cbn [mbind option_bind].
  destruct (value_ref_some v) as [t ->]. cbn [mbind option_bind].
  destruct (IH (S i)) as [r ->]; [lia|]. by eexists.
Qed.

Lemma operand_refs_some x first : shape_ok x -> is_Some (operand_refs x first).
Proof. intros Hs. apply refs_some; [done|]. destruct Hs as (_ & H0 & _). lia. Qed.

Lemma block_ref_some fn bid : vec_ok (fn_blocks fn) -> is_Some (print_block_ref fn bid).
Proof.
  intros (Hc & Hp & _). unfold print_block_ref, block_count.
  destruct (Z.ltb_spec bid (Z.of_nat (v_count (fn_blocks fn)))); [|by eexists].
  destruct (lookup_lt_is_Some_2 (v_slots (fn_blocks fn)) (Z.to_nat bid)) as [b ->]; [lia|by eexists].
Qed.

Lemma source_loc_some loc : is_Some (print_source_loc loc).
Proof. unfold print_source_loc. case_if; [|by eexists]. destruct (text_u32_some (line loc)) as (t & -> & _). by eexists. Qed.

(** A type that passes the builder's test against a known type. *)
Lemma print_ty_some ss : forall a b, ty_equal a b = true -> ty_ok (length ss) b = true -> is_Some (print_ty ss a).
Proof.
  fix IH 1. intros [ka ia sa] [kb ib sb] He Hok. cbn in He, Hok.
  destruct (bool_decide (ka = kb)) eqn:Ek; [|done]. apply bool_decide_eq_true in Ek as <-. cbn in He.
  apply andb_true_iff in Hok as [Hi Hs].
  destruct ka; cbn in He |- *; try (by eexists).
  - destruct ia as [ia|], ib as [ib|]; try done.
    destruct (IH ia ib He Hi) as [t ->]. by eexists.
  - apply bool_decide_eq_true in He as ->. destruct sb as [k|]; [|by eexists]. apply Nat.ltb_lt in Hs.
    destruct (lookup_lt_is_Some_2 ss k) as [sd ->]; [done|by eexists].
  - destruct ia as [ia|], ib as [ib|]; try done.
    destruct (IH ia ib He Hi) as [t ->]. by eexists.
Qed.

Lemma struct_equal a b : ty_equal a b = true -> ty_kind b = TypeKind.Struct -> ty_struct a = ty_struct b.
Proof.
  destruct a as [ka ia sa], b as [kb ib sb]. cbn. intros He ->.
  destruct (bool_decide (ka = TypeKind.Struct)) eqn:Ek; [|done]. apply bool_decide_eq_true in Ek as ->.
  cbn in He. by apply bool_decide_eq_true in He.
Qed.

(** The name in a struct literal, from the test in its signature. *)
Lemma struct_name_some (ss : list StructDef) rt ty (g : StructDef -> bool) :
  match mbind ty_struct rt with
  | Some k => has_kind rt TypeKind.Struct && types_equal ty rt &&
              match ss !! k with Some sd => g sd | None => false end
  | None => false
  end = true ->
  is_Some (match mbind ty_struct ty with Some k => sd_name <$> ss !! k | None => Some [] end).
Proof.
  destruct rt as [r|]; [|done]. cbn [mbind option_bind]. destruct (ty_struct r) as [k|] eqn:Er; [|done].
  rewrite !andb_true_iff. intros [[Hk He] Hsd]. destruct ty as [ty|]; [|done]. cbn in Hk, He |- *.
  rewrite (struct_equal _ _ He), Er by (by apply bool_decide_eq_true in Hk).
  destruct (ss !! k) as [sd|]; [by eexists|done].
Qed.

(** Rewrites with the parts that are there, until the text is one. *)
Ltac by_parts :=
  repeat first
    [ match goal with |- context [inline_ref ?x ?i] =>
        let t := fresh "t" in destruct (inline_some x i) as [t ->]; [done|lia|] end
    | match goal with |- context [operand_refs ?x ?f] =>
        let t := fresh "t" in destruct (operand_refs_some x f) as [t ->]; [done|] end
    | match goal with |- context [text_i32 ?v] => let t := fresh "t" in destruct (text_i32_some v) as [t ->] end
    | match goal with |- context [text_i64 ?v] => let t := fresh "t" in destruct (text_i64_some v) as [t ->] end
    | match goal with |- context [text_u32 ?v] => let t := fresh "t" in destruct (text_u32_some v) as (t & -> & _) end
    | match goal with |- context [print_block_ref ?f ?v] =>
        let t := fresh "t" in destruct (block_ref_some f v) as [t ->]; [done|] end
    | progress cbn [mbind option_bind]
    | match goal with |- context [if ?c then _ else _] => destruct c end ];
  try (by eexists).

Lemma print_args_some ss fn x t n ops rt :
  shape_ok x -> vec_ok (fn_blocks fn) ->
  sig_ok t (fun k => ss !! k) n (i_op x) ops (i_imm x) rt = true -> oty_ok (length ss) rt = true ->
  is_Some (print_args ss fn x).
Proof.
  intros Hsh Hv Hsig Hrt. unfold print_args.
  destruct (i_op x) eqn:Eop; cbn [sig_ok] in Hsig; try discriminate Hsig;
    try (destruct ops as [|o1 [|o2 [|o3 [|o4 ops]]]]; try discriminate Hsig);
    try (destruct (i_imm x); try discriminate Hsig);
    cbn [imm_str imm_i32 imm_int imm_bool imm_method imm_target imm_struct_name imm_struct_type lookup list_lookup
         mbind option_bind]; by_parts.
  1-10: (edestruct struct_name_some as [nm ->]; [exact Hsig|by eexists]).
  destruct rt as [r|], type as [ty|]; try discriminate Hsig. cbn in Hsig, Hrt.
  destruct (print_ty_some ss ty r Hsig Hrt) as [t1 E1]. cbn. rewrite E1. by eexists.
Qed.

Lemma texts_some {T} (f : T -> option (list Z)) l : Forall (fun x => is_Some (f x)) l -> is_Some (texts f l).
Proof. intros Hl. unfold texts. apply mapM_is_Some_2 in Hl as [ts ->]. by eexists. Qed.

Lemma function_text_some {A} `{HB : Bump A} (b : Builder A) f fn :
  builder_ok b -> m_functions (b_mod b) !! f = Some fn -> is_Some (function_text (m_structs (b_mod b)) fn).
Proof.
  intros Hb Hf. destruct (fn_facts _ _ _ Hb Hf) as ((Hv & _ & _) & Ha & Hlen).
  assert (is_Some (texts (print_block (m_structs (b_mod b)) fn) (vec_items (fn_blocks fn)))) as [t Ht].
  { apply texts_some, Forall_lookup. intros k blk Hk. unfold print_block.
    assert (is_Some (texts (print_instruction (m_structs (b_mod b)) fn) (vec_items (bb_insts blk)))) as [ti ->];
      [|by eexists].
    apply texts_some, Forall_lookup. intros j x Hj.
    assert (block_insts (fview fn) k !! j = Some x) as Hx
      by (unfold block_insts; cbn; by rewrite list_lookup_fmap, Hk).
    destruct (fo_insts _ _ Ha _ _ _ Hx) as [Hs _ _ Hsig].
    assert (oty_ok (length (m_structs (b_mod b))) (result_ty (fview fn) x) = true) as Hty.
    { unfold result_ty, tyv. case_if; [done|].
      destruct (af_values (fview fn) !! Z.to_nat (i_result x)) as [v|] eqn:Ev; [|done]. cbn.
      by destruct (fo_values _ _ Ha _ _ Ev) as (ty & k' & j' & y & -> & Hok & _). }
    unfold print_instruction, print_result.
    destruct (print_args_some (m_structs (b_mod b)) fn x _ _ _ _ Hs Hv Hsig Hty) as [args ->].
    destruct (source_loc_some (i_loc x)) as [loc ->].
    case_if; [by eexists|]. destruct (value_ref_some (i_result x)) as [r ->]. by eexists. }
  unfold function_text. rewrite Ht. by_parts.
Qed.

Lemma functions_text_some ss i fns :
  Forall (fun fn => is_Some (function_text ss fn)) fns -> is_Some (functions_text ss i fns).
Proof.
  intros Hf. revert i. induction Hf as [|fn fns [t Ht] _ IH]; intros i; cbn [functions_text]; [by eexists|].
  rewrite Ht. cbn [mbind option_bind]. destruct (IH (S i)) as [r ->]. by eexists.
Qed.

(** C38: The listing of a module built by calls.  Printing it never follows a
    null pointer or reads a stale immediate; over a descriptor whose writes may be
    short or interrupted but do not fail, the descriptor receives exactly the
    listing, whatever the size of the buffer; in memory the buffer holds the part
    that fits and the overflow flag says whether that is all. *)
Theorem built_module_listed {A} `{HB : Bump A} ai name fc sc (b : Builder A) cap kernel :
  reached ai name fc sc b -> (0 < cap)%nat -> Forall good_answer kernel ->
  exists t, module_text (b_mod b) = Some t /\
    (exists o, print_module (buf_init cap true kernel) (b_mod b) = Some o /\
       pb_out o = t /\ pb_data o = [] /\ pb_overflow o = false) /\
    (exists o, print_module (buf_init cap false kernel) (b_mod b) = Some o /\
       pb_data o = take cap t /\ pb_overflow o = Nat.ltb cap (length t)).
Proof.
  intros Hr Hc Hk. pose proof (reached_ok _ _ _ _ _ Hr) as Hb.
  assert (is_Some (module_text (b_mod b))) as [t Ht].
  { apply functions_text_some, Forall_lookup. intros f fn Hf. by eapply function_text_some. }
  exists t. split; [done|]. by apply module_printed.
Qed.

Lemma built_module_listed_witness :
  exists t, module_text (b_mod route_built) = Some t /\
    (exists o, print_module (buf_init 16 true [Wrote 5; Interrupted; Wrote 3]) (b_mod route_built) = Some o /\
       pb_out o = t /\ pb_data o = [] /\ pb_overflow o = false) /\
    (exists o, print_module (buf_init 16 false [Wrote 5; Interrupted; Wrote 3]) (b_mod route_built) = Some o /\
       pb_data o = take 16 t /\ pb_overflow o = Nat.ltb 16 (length t)).
Proof.
  apply (built_module_listed route_init [] 2 2 route_built 16 [Wrote 5; Interrupted; Wrote 3] route_reached).
  - lia.
  - repeat (constructor; [done|]). constructor.
Defined.

(** ** Reading a line back *)

(** The longest prefix of bytes with [p], and the rest. *)
Fixpoint span_of (p : Z -> bool) (l : list Z) : list Z * list Z :=
  match l with
  | [] => ([], [])
  | c :: l' => if p c then let '(a, r) := span_of p l' in (c :: a, r) else ([], l)
  end.

Definition is_digit_byte (c : Z) : bool := (48 <=? c) && (c <=? 57).
Definition name_byte (c : Z) : bool := negb ((c =? 32) || (c =? LF)).

Definition all_opcodes : list Opcode.t :=
  [Opcode.ConstStr; Opcode.ConstI32; Opcode.ConstI64; Opcode.ConstBool; Opcode.ConstDuration;
   Opcode.ConstByteSize; Opcode.ConstMethod; Opcode.ConstStatus; Opcode.ReqHeader; Opcode.ReqParam;
   Opcode.ReqQuery; Opcode.ReqQueryString; Opcode.ReqMethod; Opcode.ReqPath; Opcode.ReqPathOnly; Opcode.ReqBody;
   Opcode.ReqKeepAlive; Opcode.ReqChunked; Opcode.ReqHasContentLength; Opcode.ReqHttp10; Opcode.ReqHttp11;
   Opcode.ReqHttpVersion; Opcode.ResumeEventKind; Opcode.ResumeEventResult; Opcode.CtxLoadSlotI32;
   Opcode.ReqRemoteAddr; Opcode.ReqContentLength; Opcode.ReqCookie; Opcode.ReqSetHeader; Opcode.ReqSetPath;
   Opcode.CtxStoreSlotI32; Opcode.StrHasPrefix; Opcode.StrTrimPrefix; Opcode.StrRegexMatch;
   Opcode.StrInterpolate; Opcode.CmpEq; Opcode.CmpNe; Opcode.CmpLt; Opcode.CmpGt; Opcode.CmpLe; Opcode.CmpGe;
   Opcode.TimeNow; Opcode.TimeDiff; Opcode.IpInCidr; Opcode.HashHmacSha256; Opcode.BytesHex; Opcode.CounterIncr;
   Opcode.StructField; Opcode.StructCreate; Opcode.BodyParse; Opcode.ArrayLen; Opcode.ArrayGet; Opcode.OptNil;
   Opcode.OptWrap; Opcode.OptIsNil; Opcode.OptUnwrap; Opcode.Select; Opcode.TraceFuncEnter;
   Opcode.TraceFuncExit; Opcode.TraceIoStart; Opcode.TraceIoEnd; Opcode.MetricHistRecord;
   Opcode.MetricCounterIncr; Opcode.AccessLogWrite; Opcode.Br; Opcode.Jmp; Opcode.RetStatus; Opcode.RetForward;
   Opcode.YieldTimer; Opcode.YieldHttpGet; Opcode.YieldHttpPost; Opcode.YieldForward].

Definition read_opcode (name : list Z) : option Opcode.t :=
  List.find (fun op => str_eq (print_opcode op) name) all_opcodes.

(** The value a line defines, and what follows its name. *)
Definition read_result (l : list Z) : option Z * list Z :=
  match l with
  | c :: l' =>
      if c =? ch "%" then let '(ds, r) := span_of is_digit_byte l' in (Some (dec_value 0 ds), drop 3 r)
      else (None, l)
  | [] => (None, l)
  end.

(** The defined value, the opcode and the arguments of a line. *)
Definition read_head (t : list Z) : option (option Z * Opcode.t * list Z) :=
  let '(r, l) := read_result (drop 4 t) in
  let '(name, rest) := span_of name_byte l in
  op ← read_opcode name; Some (r, op, rest).

Definition unhex (c : Z) : Z := if c <? 58 then c - 48 else c - 55.

(** A quoted string: the bytes it stands for and the text after it. *)
Fixpoint read_quoted_body (l : list Z) : option (list Z * list Z) :=
  match l with
  | [] => None
  | c :: l' =>
      if c =? 34 then Some ([], l')
      else if c =? 92 then
        match l' with
        | [] => None
        | e :: l'' =>
            if e =? 120 then
              match l'' with
              | h :: d :: l3 => p ← read_quoted_body l3; Some (unhex h * 16 + unhex d :: p.1, p.2)
              | _ => None
              end
            else
              p ← read_quoted_body l'';
              Some ((if e =? 110 then 10 else if e =? 116 then 9 else e) :: p.1, p.2)
        end
      else p ← read_quoted_body l'; Some (c :: p.1, p.2)
  end.

Definition read_quoted (l : list Z) : option (list Z * list Z) :=
  match l with c :: l' => if c =? 34 then read_quoted_body l' else None | [] => None end.

Lemma span_of_app p l r :
  forallb p l = true -> match r with [] => True | c :: _ => p c = false end -> span_of p (l ++ r) = (l, r).
Proof.
  intros Hl Hr. induction l as [|c l IH]; cbn [app span_of].
  - destruct r as [|c r]; [done|]. cbn. by rewrite Hr.
  - cbn in Hl. apply andb_true_iff in Hl as [-> Hl]. by rewrite IH.
Qed.

Lemma unhex_digit n : 0 <= n < 16 -> unhex (hex_digit n) = n.
Proof. intros Hn. unfold hex_digit, unhex. destruct (Z.ltb_spec n 10); case_if; zify_bool; lia. Qed.

Lemma nibbles c : 0 <= c < 256 ->
  0 <= Z.land (Z.shiftr c 4) 15 < 16 /\ 0 <= Z.land c 15 < 16 /\ Z.land (Z.shiftr c 4) 15 * 16 + Z.land c 15 = c.
Proof.
  intros Hc. change 15 with (Z.ones 4). rewrite !Z.land_ones, Z.shiftr_div_pow2 by lia.
  change (2 ^ 4) with 16. Z.to_euclidean_division_equations. lia.
Qed.

Lemma quote_byte_reads c l :
  0 <= c < 256 -> read_quoted_body (quote_byte c ++ l) = (p ← read_quoted_body l; Some (c :: p.1, p.2)).
Proof.
  intros Hc. unfold quote_byte.
  destruct (Z.eqb_spec c 92) as [->|H1]; [done|]. destruct (Z.eqb_spec c 34) as [->|H2]; [done|].
  destruct (Z.eqb_spec c 10) as [->|H3]; [done|]. destruct (Z.eqb_spec c 9) as [->|H4]; [done|].
  destruct ((0x20 <=? c) && (c <=? 0x7e)); cbn [app read_quoted_body].
  - by rewrite (proj2 (Z.eqb_neq _ _) H2), (proj2 (Z.eqb_neq _ _) H1).
  - cbn [Z.eqb Pos.eqb]. destruct (nibbles c Hc) as (Hh & Hl & Hs). rewrite !unhex_digit by done. by rewrite Hs.
Qed.

Lemma quoted_reads s rest :
  Forall (fun c => 0 <= c < 256) s -> read_quoted (print_quoted_str s ++ rest) = Some (s, rest).
Proof.
  intros Hs. unfold print_quoted_str. rewrite <- !app_assoc. cbn [app read_quoted Z.eqb Pos.eqb].
  induction Hs as [|c s Hc _ IH]; [done|].
  change (mjoin (quote_byte <$> c :: s)) with (quote_byte c ++ mjoin (quote_byte <$> s)).
  rewrite <- app_assoc, quote_byte_reads by done. by rewrite IH.
Qed.

(** Mnemonics are told apart and end at the first blank. *)
Lemma mnemonic_reads op : read_opcode (print_opcode op) = Some op.
Proof. destruct op; vm_compute; reflexivity. Qed.

Lemma mnemonic_shape op :
  forallb name_byte (print_opcode op) = true /\ exists c l, print_opcode op = c :: l /\ c <> ch "%".
Proof. split; [by destruct op|]. destruct op; eexists _, _; (split; [reflexivity|done]). Qed.

(** Arguments are empty or start with a blank. *)
Definition blank_first (o : option (list Z)) : Prop :=
  forall t, o = Some t -> t = [] \/ exists t', t = 32 :: t'.

Lemma blank_bind {T} (m : option T) k : (forall a, blank_first (k a)) -> blank_first (m ≫= k).
Proof. intros Hk t. destruct m as [a|]; [|done]. apply Hk. Qed.

Lemma blank_some s t : blank_first (Some ((32 :: s) ++ t)).
Proof. intros u [= <-]. right. by eexists. Qed.

Lemma refs_blank x n : blank_first (refs x (bs " ") 0 n).
Proof.
  destruct n as [|n]; cbn [refs]; [by intros t [= <-]; left|]. repeat (apply blank_bind; intros ?).
  apply (blank_some []).
Qed.

Lemma print_args_blank ss fn x : blank_first (print_args ss fn x).
Proof.
  unfold print_args. destruct (i_op x); cbv zeta;
    repeat lazymatch goal with
      | |- blank_first (mbind _ _) => apply blank_bind; intros ?
      | |- blank_first (Some []) => intros t [= <-]; by left
      | |- blank_first (Some (bs " [" ++ _)) => exact (blank_some [91] _)
      | |- blank_first (Some (bs " " ++ _)) => exact (blank_some [] _)
      | |- blank_first (operand_refs _ _) => apply refs_blank
      | |- blank_first (if ?c then _ else _) => destruct c
      end.
Qed.

Lemma source_loc_blank loc t : print_source_loc loc = Some t -> t = [] \/ exists t', t = 32 :: t'.
Proof.
  unfold print_source_loc. case_if; [|intros [= <-]; by left]. destruct (text_u32 (line loc)); [|done].
  intros [= <-]. right. by eexists.
Qed.

Lemma digits_are_bytes ds : Forall is_dec ds -> forallb is_digit_byte ds = true.
Proof.
  intros Hd. apply forallb_forall. intros c Hc%list_elem_of_In. rewrite Forall_forall in Hd. apply Hd in Hc.
  unfold is_dec, is_digit_byte in *. change (ch "0") with 48 in Hc. change (ch "9") with 57 in Hc.
  apply andb_true_iff. split; apply Z.leb_le; lia.
Qed.

Lemma result_reads v r op rest :
  0 <= v < 2 ^ 32 -> print_result v = Some r ->
  read_result (r ++ print_opcode op ++ rest) =
    (if v =? kNoValue then None else Some v, print_opcode op ++ rest).
Proof.
  intros Hv Hr. unfold print_result in Hr. destruct (mnemonic_shape op) as [_ (c & l & E & Hc)].
  destruct (Z.eqb_spec v kNoValue) as [|Hne].
  - injection Hr as <-. cbn [app]. rewrite E. cbn [app read_result]. by rewrite (proj2 (Z.eqb_neq _ _) Hc).
  - unfold print_value_ref in Hr. destruct (text_u32_some v) as (t & Et & _ & Hd & Hval). rewrite Et in Hr.
    assert (r = ch "%" :: t ++ bs " = ") as -> by (by injection Hr as <-).
    rewrite <- app_comm_cons, <- app_assoc. cbn [read_result]. rewrite Z.eqb_refl.
    rewrite span_of_app; [|by apply digits_are_bytes|done]. rewrite Hval, u32_small by lia. done.
Qed.

(** Opcodes whose first argument is their string. *)
Definition prints_string (op : Opcode.t) : bool :=
  match op with
  | Opcode.ConstStr | Opcode.ReqHeader | Opcode.ReqParam | Opcode.ReqQuery | Opcode.ReqCookie
  | Opcode.ReqSetHeader | Opcode.YieldHttpGet | Opcode.YieldHttpPost => true
  | _ => false
  end.

Lemma print_args_string ss fn x args s :
  prints_string (i_op x) = true -> imm_str (i_imm x) = Some s -> print_args ss fn x = Some args ->
  exists r, args = 32 :: print_quoted_str s ++ r.
Proof.
  intros Hp Hs Ha. unfold print_args in Ha. rewrite Hs in Ha.
  destruct (i_op x); try discriminate Hp; cbn [mbind option_bind] in Ha.
  1-5: (exists []; rewrite app_nil_r; by injection Ha as <-).
  - destruct (inline_ref x 0) as [a|]; [|done]. injection Ha as <-. by eexists.
  - destruct (0 <? i_operand_count x); [destruct (inline_ref x 0) as [a|]; [|done]|];
      injection Ha as <-; by eexists.
  - destruct (operand_refs x (bs ", ")) as [a|]; [|done]. injection Ha as <-. by eexists.
Qed.


Definition quoted_inst : Instruction :=
  mkInst Opcode.ConstStr 7 loc0 0 [0; 0; 0] None (ImmStr [97; 34; 10; 200]).

