(* ===== verification/TimerWheel.v ===== *)
(** * Timer wheel

    Model of include/rut/runtime/timer_wheel.h, src/runtime/timer_wheel.cc and
    of the intrusive [ListNode] of include/rut/common/types.h.  Links live in a
    heap of node numbers: nodes 0..63 are the slot heads and node [64 + c] is the
    timer node of connection [c].  The theorems show that the pointer operations
    implement the abstract wheel (a queue of connections per slot) and that a
    timer fires on the right tick. *)

From S2P Require Import Prelude.

(** ** Links *)

Record heap := mkHeap { nxt : nat -> nat; prv : nat -> nat }.

Definition upd (f : nat -> nat) (k v : nat) : nat -> nat := fun n => if Nat.eqb n k then v else f n.
Definition set_nxt (h : heap) (k v : nat) : heap := mkHeap (upd (nxt h) k v) (prv h).
Definition set_prv (h : heap) (k v : nat) : heap := mkHeap (nxt h) (upd (prv h) k v).

(** [ListNode::init], [ListNode::remove], [ListNode::insert_after] *)
Definition node_init (h : heap) (n : nat) : heap := set_nxt (set_prv h n n) n n.

Definition node_remove (h : heap) (n : nat) : heap :=
  let h1 := set_nxt h (prv h n) (nxt h n) in
  set_prv h1 (nxt h1 n) (prv h1 n).

Definition insert_after (h : heap) (this node : nat) : heap :=
  let h1 := set_prv h node this in
  let h2 := set_nxt h1 node (nxt h1 this) in
  let h3 := set_prv h2 (nxt h2 this) node in
  set_nxt h3 this node.

(** ** The wheel *)

Definition kSlots : nat := 64.

Record TimerWheel := mkWheel { links : heap; cursor : Z }.

Definition conn_node (c : nat) : nat := kSlots + c.

Fixpoint init_slots (h : heap) (n : nat) : heap :=
  match n with O => h | S n' => node_init (init_slots h n') n' end.

Definition wheel_init (h : heap) : TimerWheel := mkWheel (init_slots h kSlots) 0.

(** [(cursor + seconds) & (kSlots - 1)] on 32-bit words *)
Definition slot_of (cur seconds : Z) : nat := Z.to_nat (Z.land (u32 (cur + seconds)) 63).

Definition wheel_add (w : TimerWheel) (c : nat) (seconds : Z) : TimerWheel :=
  mkWheel (insert_after (links w) (slot_of (cursor w) seconds) (conn_node c)) (cursor w).

Definition wheel_remove (w : TimerWheel) (c : nat) : TimerWheel :=
  mkWheel (node_init (node_remove (links w) (conn_node c)) (conn_node c)) (cursor w).

Definition wheel_refresh (w : TimerWheel) (c : nat) (seconds : Z) : TimerWheel :=
  wheel_add (wheel_remove w c) c seconds.

(** What the expiry callback of the event loop does to the wheel: a connection
    whose keep-alive ran out is closed ([free_conn] takes it off the wheel); a
    handler that is resumed may wait again ([schedule_yield_timer] takes the
    connection off and re-arms it, [rearm c = Some seconds]). *)
Definition on_expire (rearm : nat -> option Z) (w : TimerWheel) (c : nat) : TimerWheel :=
  match rearm c with
  | Some seconds => wheel_add (wheel_remove w c) c seconds
  | None => wheel_remove w c
  end.

(** The expiry loop; the expired connections are returned in order ([None]: out
    of fuel). *)
Fixpoint tick_loop (cb : TimerWheel -> nat -> TimerWheel) (fuel : nat) (w : TimerWheel) (head node : nat) (acc : list nat)
    : option (TimerWheel * list nat) :=
  if Nat.eqb node head then Some (w, acc)
  else
    match fuel with
    | O => None
    | S fuel' =>
        let next := nxt (links w) node in
        let h1 := node_init (node_remove (links w) node) node in
        let conn := (node - kSlots)%nat in
        tick_loop cb fuel' (cb (mkWheel h1 (cursor w)) conn) head next (acc ++ [conn])
    end.

Definition tick (cb : TimerWheel -> nat -> TimerWheel) (fuel : nat) (w : TimerWheel) : option (TimerWheel * list nat) :=
  let head := Z.to_nat (Z.land (cursor w) 63) in
  match tick_loop cb fuel w head (nxt (links w) head) [] with
  | Some (w', expired) => Some (mkWheel (links w') (u32 (cursor w' + 1)), expired)
  | None => None
  end.

(** The wheel as the event loop drives it. *)
Inductive wevent :=
| EvAdd (c : nat) (seconds : Z)
| EvRemove (c : nat)
| EvRefresh (c : nat) (seconds : Z)
| EvTick (rearm : nat -> option Z).

Definition wstep (n : nat) (w : TimerWheel) (e : wevent) : option (TimerWheel * list nat) :=
  match e with
  | EvAdd c s => Some (wheel_add w c s, [])
  | EvRemove c => Some (wheel_remove w c, [])
  | EvRefresh c s => Some (wheel_refresh w c s, [])
  | EvTick rearm => tick (on_expire rearm) n w
  end.

Fixpoint wrun (n : nat) (w : TimerWheel) (es : list wevent) : option (TimerWheel * list (list nat)) :=
  match es with
  | [] => Some (w, [])
  | e :: es' =>
      match wstep n w e with
      | Some (w1, out) =>
          match wrun n w1 es' with Some (w2, outs) => Some (w2, out :: outs) | None => None end
      | None => None
      end
  end.

(** ** Circular lists *)

Fixpoint linked (h : heap) (xs : list nat) : Prop :=
  match xs with
  | a :: t => match t with b :: _ => nxt h a = b /\ prv h b = a /\ linked h t | [] => True end
  | [] => True
  end.

(** The ring of head [hd] with members [l]. *)
Definition ring (h : heap) (hd : nat) (l : list nat) : Prop := linked h (hd :: l ++ [hd]).

Lemma linked_app h xs m ys : linked h (xs ++ m :: ys) <-> linked h (xs ++ [m]) /\ linked h (m :: ys).
Proof.
  induction xs as [|a [|b t] IH]; cbn [app linked].
  - tauto.
  - cbn. tauto.
  - cbn [app linked] in IH. cbn [app]. tauto.
Qed.

(** [linked] reads [nxt] of the nodes before the last and [prv] of those after
    the first. *)
Lemma linked_frame h h' xs :
  (forall n, n ∈ removelast xs -> nxt h' n = nxt h n) -> (forall n, n ∈ tail xs -> prv h' n = prv h n) ->
  linked h xs -> linked h' xs.
Proof.
  induction xs as [|a [|b t] IH]; [done..|]. cbn [linked tail]. change (removelast (a :: b :: t)) with (a :: removelast (b :: t)).
  intros Hn Hp (H1 & H2 & H3). rewrite (Hn a ltac:(left)), (Hp b ltac:(left)). split_and!; try done.
  apply IH; [| |done].
  - intros n Hin. apply Hn. by right.
  - intros n Hin. apply Hp. by right.
Qed.

Lemma upd_eq f k v : upd f k v k = v.
Proof. unfold upd. by rewrite Nat.eqb_refl. Qed.

Lemma upd_ne f k v n : n <> k -> upd f k v n = f n.
Proof. intros H. unfold upd. by rewrite (proj2 (Nat.eqb_neq _ _) H). Qed.

Ltac upds := repeat first [rewrite upd_eq | rewrite upd_ne by (done || congruence)].

Lemma ring_first h hd l : ring h hd l -> exists y t, l ++ [hd] = y :: t /\ nxt h hd = y /\ prv h y = hd /\ linked h (y :: t).
Proof.
  unfold ring. destruct l as [|y l]; [exists hd, []|exists y, (l ++ [hd])]; cbn [app] in *.
  - cbn in *. tauto.
  - cbn [linked] in *. tauto.
Qed.

Lemma insert_after_eq h hd x y :
  nxt h hd = y -> x <> hd ->
  insert_after h hd x = mkHeap (upd (upd (nxt h) x y) hd x) (upd (upd (prv h) x hd) y x).
Proof.
  intros Hy Hx. unfold insert_after, set_nxt, set_prv. cbn [nxt prv].
  rewrite (upd_ne _ _ _ hd) by congruence. by rewrite Hy.
Qed.

Lemma insert_after_ring h hd l x :
  ring h hd l -> x <> hd -> x ∉ l -> NoDup (hd :: l) -> ring (insert_after h hd x) hd (x :: l).
Proof.
  intros Hr Hx Hl [Hhd Hnd]%NoDup_cons. destruct (ring_first _ _ _ Hr) as (y & t & Hyt & Hny & _ & Ht).
  assert (NoDup (y :: t) /\ x ∉ y :: t) as [[Hy Hndt]%NoDup_cons Hxt].
  { rewrite <- Hyt. split.
    - apply NoDup_app. split_and!; [done| |apply NoDup_singleton]. intros z Hz Hz'.
      apply list_elem_of_singleton in Hz' as ->. done.
    - rewrite elem_of_app, list_elem_of_singleton. tauto. }
  assert (y <> x) as Hyx by (intros ->; apply Hxt; left).
  unfold ring. rewrite (insert_after_eq _ _ _ y Hny) by done. cbn [app]. rewrite Hyt.
  set (h' := mkHeap _ _). change (nxt h' hd = x /\ prv h' x = hd /\ nxt h' x = y /\ prv h' y = x /\ linked h' (y :: t)).
  subst h'. split_and!; [cbn [nxt prv]; by upds..|].
  assert (removelast (y :: t) = l) as Hrl by (rewrite <- Hyt; apply removelast_last).
  apply (linked_frame h); [|cbn [tail]|exact Ht]; cbn [nxt prv]; intros n Hn.
  - rewrite Hrl in Hn. assert (n <> hd) by (intros ->; done). assert (n <> x) by (intros ->; done). by upds.
  - assert (n <> y) by (intros ->; done). assert (n <> x) by (intros ->; apply Hxt; by right). by upds.
Qed.

Lemma insert_after_frame h hd l x n :
  ring h hd l -> x <> hd -> n <> x -> n ∉ hd :: l ->
  nxt (insert_after h hd x) n = nxt h n /\ prv (insert_after h hd x) n = prv h n.
Proof.
  intros Hr Hxh Hx Hn. destruct (ring_first _ _ _ Hr) as (y & t & Hyt & Hny & _ & _).
  assert (n <> hd) by (intros ->; apply Hn; left).
  assert (n <> y) as Hy.
  { intros ->. assert (y ∈ l ++ [hd]) as Hin by (rewrite Hyt; left).
    apply Hn. rewrite elem_of_app, list_elem_of_singleton in Hin. rewrite elem_of_cons. tauto. }
  rewrite (insert_after_eq _ _ _ y Hny) by done. cbn [nxt prv]. by upds.
Qed.

(** Unlinking: the neighbours of a member are joined. *)
Lemma remove_eq h hd l1 x l2 A a b B :
  ring h hd (l1 ++ x :: l2) -> x ∉ hd :: l1 -> x ∉ l2 -> hd :: l1 = A ++ [a] -> l2 ++ [hd] = b :: B ->
  node_remove h x = mkHeap (upd (nxt h) a b) (upd (prv h) b a) /\
  linked h (hd :: l1) /\ linked h (l2 ++ [hd]).
Proof.
  intros Hr Hx1 Hx2 HA HB. unfold ring in Hr.
  assert (hd :: (l1 ++ x :: l2) ++ [hd] = A ++ a :: x :: b :: B) as HL.
  { rewrite <- app_assoc. cbn [app]. rewrite HB, app_comm_cons, HA, <- app_assoc. done. }
  rewrite HL in Hr. apply linked_app in Hr as [Hl Hr]. cbn [linked] in Hr. destruct Hr as (Hax & Hxa & Hxb & Hbx & Hb).
  rewrite HA, HB. split_and!; [|done..].
  assert (x <> a) by (intros ->; apply Hx1; rewrite HA; apply elem_of_app; right; left).
  unfold node_remove, set_nxt, set_prv. cbn [nxt prv]. rewrite Hxa, Hxb. upds. by rewrite Hxb.
Qed.

Lemma nodup_parts (hd : nat) (l1 : list nat) (x : nat) (l2 : list nat) :
  NoDup (hd :: l1 ++ x :: l2) ->
  NoDup (hd :: l1) /\ NoDup (l2 ++ [hd]) /\ x ∉ hd :: l1 /\ x ∉ l2 /\ (forall n, n ∈ hd :: l1 -> n ∉ l2) /\
  (forall n, n ∈ l1 -> n ∉ l2 ++ [hd]).
Proof.
  intros [Hh Hnd]%NoDup_cons. apply NoDup_app in Hnd as (H1 & H12 & H2). apply NoDup_cons in H2 as [Hx H2].
  rewrite elem_of_app, elem_of_cons in Hh.
  assert (forall n, n ∈ l1 -> n ∉ l2) as H12' by (intros n Hn Hn'; apply (H12 n Hn); by right).
  assert (x ∉ l1) as Hx1 by (intros H; apply (H12 x H); left).
  split_and!; [apply NoDup_cons; tauto | apply NoDup_app; split_and!; [done| |apply NoDup_singleton] | | done | |].
  - intros z Hz Hz'. apply list_elem_of_singleton in Hz' as ->. tauto.
  - rewrite elem_of_cons. intros [->|?]; tauto.
  - intros n. rewrite elem_of_cons. intros [->|?]; [tauto|by apply H12'].
  - intros n Hn. rewrite elem_of_app, list_elem_of_singleton. intros [? | ->]; [by apply (H12' n)|tauto].
Qed.

Lemma remove_ring h hd l1 x l2 :
  ring h hd (l1 ++ x :: l2) -> NoDup (hd :: l1 ++ x :: l2) -> ring (node_remove h x) hd (l1 ++ l2).
Proof.
  intros Hr Hnd. destruct (nodup_parts _ _ _ _ Hnd) as (Hn1 & Hn2 & Hx1 & Hx2 & Hd & Hd').
  destruct (exists_last (l := hd :: l1)) as (A & a & HA); [done|].
  destruct (l2 ++ [hd]) as [|b B] eqn:HB; [by destruct l2|].
  destruct (remove_eq _ _ _ _ _ _ _ _ _ Hr Hx1 Hx2 HA HB) as (-> & Hl1 & Hl2).
  unfold ring. rewrite <- app_assoc, HB, app_comm_cons, HA, <- app_assoc. cbn [app]. rewrite linked_app. rewrite <- HA.
  assert (a ∈ hd :: l1) as Ha by (rewrite HA; apply elem_of_app; right; left).
  apply NoDup_cons in Hn2 as [Hb HnB].
  set (h' := mkHeap _ _).
  change (linked h' (hd :: l1) /\ nxt h' a = b /\ prv h' b = a /\ linked h' (b :: B)). subst h'.
  split_and!; cbn [nxt prv]; rewrite ?upd_eq; [|done..|].
  - apply (linked_frame h); [| |exact Hl1]; cbn [nxt prv tail]; intros n Hn.
    + rewrite HA, removelast_last in Hn. rewrite HA in Hn1. apply NoDup_app in Hn1 as (_ & HnA & _).
      assert (n <> a); [|by upds]. intros ->. apply (HnA a Hn). left.
    + assert (n <> b); [|by upds]. intros ->. apply (Hd' b Hn). left.
  - rewrite HB in Hl2. apply (linked_frame h); [| |exact Hl2]; cbn [nxt prv tail]; intros n Hn.
    + rewrite <- HB, removelast_last in Hn. assert (n <> a); [|by upds]. intros ->. by apply (Hd a).
    + assert (n <> b); [|by upds]. intros ->. done.
Qed.

Lemma remove_frame h hd l1 x l2 n :
  ring h hd (l1 ++ x :: l2) -> NoDup (hd :: l1 ++ x :: l2) -> n ∉ hd :: l1 ++ x :: l2 ->
  nxt (node_remove h x) n = nxt h n /\ prv (node_remove h x) n = prv h n.
Proof.
  intros Hr Hnd Hn. destruct (nodup_parts _ _ _ _ Hnd) as (_ & _ & Hx1 & Hx2 & _).
  destruct (exists_last (l := hd :: l1)) as (A & a & HA); [done|].
  destruct (l2 ++ [hd]) as [|b B] eqn:HB; [by destruct l2|].
  destruct (remove_eq _ _ _ _ _ _ _ _ _ Hr Hx1 Hx2 HA HB) as (-> & _). cbn [nxt prv].
  rewrite elem_of_cons, elem_of_app, elem_of_cons in Hn.
  assert (a ∈ hd :: l1) as Ha by (rewrite HA; apply elem_of_app; right; left).
  assert (b ∈ l2 ++ [hd]) as Hb by (rewrite HB; left).
  rewrite elem_of_cons in Ha. rewrite elem_of_app, list_elem_of_singleton in Hb.
  assert (n <> a) by (intros ->; tauto). assert (n <> b) by (intros ->; tauto). by upds.
Qed.

(** ** The abstract wheel: a queue of connections per slot *)

Definition awheel := nat -> list nat.

Definition a_add (a : awheel) (s c : nat) : awheel := fun t => if Nat.eqb t s then c :: a t else a t.
Definition a_remove (a : awheel) (c : nat) : awheel := fun t => filter (fun x => x <> c) (a t).

Definition detached (a : awheel) (c : nat) : Prop := forall s, (s < kSlots)%nat -> c ∉ a s.

(** The links of [w] represent the queues [a] of connections below [n]; a
    connection that is in no queue has a self-linked node. *)
Record Rep (n : nat) (w : TimerWheel) (a : awheel) : Prop := {
  rep_ring : forall s, (s < kSlots)%nat -> ring (links w) s (map conn_node (a s));
  rep_nodup : forall s, (s < kSlots)%nat -> NoDup (a s);
  rep_disj : forall s t c, (s < kSlots)%nat -> (t < kSlots)%nat -> c ∈ a s -> c ∈ a t -> s = t;
  rep_lt : forall s c, (s < kSlots)%nat -> c ∈ a s -> (c < n)%nat;
  rep_free : forall c, (c < n)%nat -> detached a c ->
    nxt (links w) (conn_node c) = conn_node c /\ prv (links w) (conn_node c) = conn_node c;
  rep_cursor : 0 <= cursor w < 4294967296 }.

Lemma conn_node_inj c d : conn_node c = conn_node d -> c = d.
Proof. unfold conn_node. lia. Qed.

Lemma elem_of_nodes c l : conn_node c ∈ map conn_node l <-> c ∈ l.
Proof.
  rewrite !list_elem_of_In, in_map_iff. split; [|by exists c].
  intros (d & Hd & Hin). apply conn_node_inj in Hd as ->. done.
Qed.

Lemma slot_notin_nodes s l : (s < kSlots)%nat -> s ∉ map conn_node l.
Proof. rewrite list_elem_of_In, in_map_iff. intros Hs (d & Hd & _). unfold conn_node in Hd. lia. Qed.

Lemma nodup_nodes s (l : list nat) : (s < kSlots)%nat -> NoDup l -> NoDup (s :: map conn_node l).
Proof.
  intros Hs Hl. apply NoDup_cons. split; [by apply slot_notin_nodes|].
  apply NoDup_fmap_2; [|done]. intros c d. apply conn_node_inj.
Qed.

(** A ring is untouched by changes to nodes that are not in it. *)
Lemma ring_frame h h' s l :
  (forall n, n ∈ s :: l -> nxt h' n = nxt h n /\ prv h' n = prv h n) -> ring h s l -> ring h' s l.
Proof.
  intros Hag. unfold ring. apply linked_frame.
  - intros n Hn. apply Hag. rewrite app_comm_cons, removelast_last in Hn. done.
  - intros n Hn. apply Hag. cbn [tail] in Hn. rewrite elem_of_app, list_elem_of_singleton in Hn.
    rewrite elem_of_cons. tauto.
Qed.

Lemma slot_of_lt cur s : (slot_of cur s < kSlots)%nat.
Proof.
  unfold slot_of, kSlots. change 63 with (Z.ones 6). rewrite Z.land_ones by lia.
  pose proof (Z.mod_pos_bound (u32 (cur + s)) (2 ^ 6) ltac:(lia)). lia.
Qed.

Lemma detached_dec a c : detached a c \/ exists s, (s < kSlots)%nat /\ c ∈ a s.
Proof.
  unfold detached. induction kSlots as [|k [IH|(s & Hs & Hc)]]; [left; lia| |right; exists s; split; [lia|done]].
  destruct (decide (c ∈ a k)) as [Hk|Hk]; [right; exists k; split; [lia|done]|left].
  intros s Hs. destruct (decide (s = k)) as [->|]; [done|apply IH; lia].
Qed.

(** Adding a detached connection puts it in front of the slot's queue. *)
Lemma add_rep n w a c secs :
  Rep n w a -> (c < n)%nat -> detached a c -> Rep n (wheel_add w c secs) (a_add a (slot_of (cursor w) secs) c).
Proof.
  intros [Hr Hnd Hd Hlt Hf Hc] Hcn Hdet. pose proof (slot_of_lt (cursor w) secs) as Hs.
  set (s0 := slot_of (cursor w) secs) in *.
  assert (conn_node c <> s0) as Hcs by (unfold conn_node; lia).
  assert (forall t x, x ∈ a_add a s0 c t -> x ∈ a t \/ (x = c /\ t = s0)) as Hin.
  { intros t x. unfold a_add. destruct (Nat.eqb_spec t s0); [|tauto]. rewrite elem_of_cons. tauto. }
  assert (forall m, m <> conn_node c -> m ∉ s0 :: map conn_node (a s0) ->
    nxt (insert_after (links w) s0 (conn_node c)) m = nxt (links w) m /\
    prv (insert_after (links w) s0 (conn_node c)) m = prv (links w) m) as Hfr.
  { intros m Hm Hm'. eapply insert_after_frame; [by apply Hr|done..]. }
  split; cbn [links cursor wheel_add]; fold s0.
  - intros t Ht. unfold a_add. destruct (Nat.eqb_spec t s0) as [->|Hts].
    + apply insert_after_ring; [by apply Hr|done|rewrite elem_of_nodes; by apply Hdet|].
      apply nodup_nodes; [done|by apply Hnd].
    + apply (ring_frame (links w)); [|by apply Hr]. intros m [->|Hm]%elem_of_cons.
      * apply Hfr; [unfold conn_node; lia|]. rewrite elem_of_cons. intros [?|?]; [done|].
        by apply (slot_notin_nodes t (a s0)).
      * rewrite list_elem_of_In, in_map_iff in Hm. destruct Hm as (d & <- & Hd'%list_elem_of_In).
        apply Hfr; [intros ->%conn_node_inj; by apply (Hdet t Ht)|].
        rewrite elem_of_cons, elem_of_nodes. intros [?|Hd'']; [unfold conn_node in *; lia|].
        apply Hts. by apply (Hd t s0 d).
  - intros t Ht. unfold a_add. destruct (Nat.eqb_spec t s0) as [->|Hts]; [|by apply Hnd].
    apply NoDup_cons. split; [by apply Hdet|by apply Hnd].
  - intros t t' x Ht Ht' [H1|[-> ->]]%Hin [H2|[H2 ->]]%Hin; try done.
    + by apply (Hd t t' x).
    + subst x. by destruct (Hdet t Ht).
    + by destruct (Hdet t' Ht').
  - intros t x Ht [H|[-> _]]%Hin; [by apply (Hlt t)|done].
  - intros x Hx Hdx. assert (x <> c) as Hxc.
    { intros ->. apply (Hdx s0 Hs). unfold a_add. rewrite Nat.eqb_refl. left. }
    assert (detached a x) as Hdx'.
    { intros t Ht Hxt. apply (Hdx t Ht). unfold a_add. destruct (Nat.eqb t s0); [by right|done]. }
    destruct (Hfr (conn_node x)) as [-> ->]; [by intros ->%conn_node_inj| |by apply Hf].
    rewrite elem_of_cons, elem_of_nodes. intros [?|?]; [unfold conn_node in *; lia|by apply (Hdx' s0)].
  - done.
Qed.

(** Removal: from the middle of a ring, or of a self-linked node. *)
Lemma filter_notin (c : nat) (l : list nat) : c ∉ l -> filter (fun x => x <> c) l = l.
Proof.
  induction l as [|x l IH]; [done|]. intros Hc. rewrite filter_cons. rewrite elem_of_cons in Hc.
  destruct (decide (x <> c)) as [|Hx]; [rewrite IH; tauto|]. destruct Hx. intros ->. tauto.
Qed.

Lemma filter_mid (c : nat) l1 l2 : NoDup (l1 ++ c :: l2) -> filter (fun x => x <> c) (l1 ++ c :: l2) = l1 ++ l2.
Proof.
  intros (_ & H12 & H2)%NoDup_app. apply NoDup_cons in H2 as [Hc _].
  rewrite filter_app, filter_cons, decide_False by tauto.
  rewrite !filter_notin; [done|done|]. intros H. apply (H12 c H). left.
Qed.

Lemma elem_of_remove a c t x : x ∈ a_remove a c t <-> x ∈ a t /\ x <> c.
Proof. unfold a_remove. rewrite list_elem_of_filter. tauto. Qed.

Lemma remove_heap_frame n w a c m :
  Rep n w a -> (c < n)%nat -> m <> conn_node c ->
  (forall s, (s < kSlots)%nat -> c ∈ a s -> m ∉ s :: map conn_node (a s)) ->
  nxt (links (wheel_remove w c)) m = nxt (links w) m /\ prv (links (wheel_remove w c)) m = prv (links w) m.
Proof.
  intros HR Hc Hm Hout. unfold wheel_remove, node_init, set_nxt, set_prv. cbn [links nxt prv]. rewrite !upd_ne by done.
  destruct (detached_dec a c) as [Hd|(s & Hs & Hin)].
  - destruct (rep_free _ _ _ HR c Hc Hd) as [Hn Hp]. unfold node_remove, set_nxt, set_prv. cbn [nxt prv].
    rewrite Hn, Hp, upd_eq. by upds.
  - pose proof (Hout s Hs Hin) as Hm'. pose proof (rep_ring _ _ _ HR s Hs) as Hr.
    pose proof (nodup_nodes s _ Hs (rep_nodup _ _ _ HR s Hs)) as Hnd.
    apply list_elem_of_split in Hin as (l1 & l2 & E). rewrite E, map_app in Hr, Hnd, Hm'. cbn [map] in Hr, Hnd, Hm'.
    by apply (remove_frame _ _ _ _ _ m Hr).
Qed.

Lemma remove_rep n w a c : Rep n w a -> (c < n)%nat -> Rep n (wheel_remove w c) (a_remove a c).
Proof.
  intros HR Hc. pose proof HR as [Hr Hnd Hd Hlt Hf Hcur]. split.
  - intros t Ht. destruct (decide (c ∈ a t)) as [Hin|Hin].
    + pose proof (nodup_nodes t _ Ht (Hnd t Ht)) as Hn. pose proof (Hr t Ht) as Hrt. pose proof (Hnd t Ht) as Hnt.
      unfold a_remove. apply list_elem_of_split in Hin as (l1 & l2 & E). rewrite E in *. rewrite filter_mid by done.
      rewrite map_app in *. cbn [map] in *. apply (ring_frame (node_remove (links w) (conn_node c))).
      * intros m Hm. unfold wheel_remove, node_init, set_nxt, set_prv. cbn [links nxt prv].
        assert (m <> conn_node c); [|by upds]. intros ->.
        destruct (nodup_parts _ _ _ _ Hn) as (_ & _ & Hx1 & Hx2 & _).
        rewrite elem_of_cons, elem_of_app in Hm. rewrite elem_of_cons in Hx1. tauto.
      * by apply remove_ring.
    + unfold a_remove. rewrite filter_notin by done. apply (ring_frame (links w)); [|by apply Hr].
      intros m Hm. apply elem_of_cons in Hm.
      assert (m = t \/ exists d, m = conn_node d /\ d ∈ a t) as Hm'.
      { destruct Hm as [->|Hm]; [by left|right]. rewrite list_elem_of_In, in_map_iff in Hm.
        destruct Hm as (d & <- & Hd'). exists d. by rewrite list_elem_of_In. }
      apply (remove_heap_frame n w a); [done..| |].
      * destruct Hm' as [->|(d & -> & Hd')]; [unfold conn_node; lia|]. by intros ->%conn_node_inj.
      * intros s Hs Hcs. assert (s <> t) by (intros ->; done). rewrite elem_of_cons.
        destruct Hm' as [->|(d & -> & Hd')]; [intros [?|?]; [done|by apply (slot_notin_nodes t (a s))]|].
        rewrite elem_of_nodes. intros [?|?]; [unfold conn_node in *; lia|]. by apply H, (Hd s t d).
  - intros t Ht. apply NoDup_filter, Hnd, Ht.
  - intros s t x Hs Ht [H1 _]%elem_of_remove [H2 _]%elem_of_remove. by apply (Hd s t x).
  - intros s x Hs [H _]%elem_of_remove. by apply (Hlt s).
  - intros x Hx Hdx. destruct (decide (x = c)) as [->|Hxc].
    { unfold wheel_remove, node_init, set_nxt, set_prv. cbn [links nxt prv]. by upds. }
    assert (detached a x) as Hax by (intros s Hs Hxs; apply (Hdx s Hs), elem_of_remove; done).
    destruct (remove_heap_frame n w a c (conn_node x)) as [-> ->]; [done..| | |by apply Hf].
    + by intros ->%conn_node_inj.
    + intros s Hs _. rewrite elem_of_cons, elem_of_nodes. intros [?|?]; [unfold conn_node in *; lia|by apply (Hax s)].
  - done.
Qed.

Lemma detached_remove a c : detached (a_remove a c) c.
Proof. intros s _ [_ H]%elem_of_remove. done. Qed.

(** ** Ticks *)

Definition a_expire (rearm : nat -> option Z) (cur : Z) (a : awheel) (c : nat) : awheel :=
  match rearm c with
  | Some s => a_add (a_remove a c) (slot_of cur s) c
  | None => a_remove a c
  end.

Definition a_tick (rearm : nat -> option Z) (cur : Z) (a : awheel) : awheel * list nat :=
  let q := a (slot_of cur 0) in (fold_left (a_expire rearm cur) q a, q).

Lemma Rep_ext n w a a' : (forall s, a s = a' s) -> Rep n w a -> Rep n w a'.
Proof.
  intros E [Hr Hnd Hd Hlt Hf Hc]. split; try done.
  - intros s Hs. rewrite <- E. by apply Hr.
  - intros s Hs. rewrite <- E. by apply Hnd.
  - intros s t c. rewrite <- !E. apply Hd.
  - intros s c. rewrite <- E. apply Hlt.
  - intros c Hc' Hdet. apply Hf; [done|]. intros s Hs. rewrite E. by apply Hdet.
Qed.

Lemma remove_remove a c s : a_remove (a_remove a c) c s = a_remove a c s.
Proof. unfold a_remove at 1. apply filter_notin. intros [_ H]%elem_of_remove. done. Qed.

(** One turn of the expiry loop. *)
Lemma expire_rep n w a c rearm :
  Rep n w a -> (c < n)%nat ->
  Rep n (on_expire rearm (wheel_remove w c) c) (a_expire rearm (cursor w) a c) /\
  cursor (on_expire rearm (wheel_remove w c) c) = cursor w.
Proof.
  intros HR Hc. pose proof (remove_rep n w a c HR Hc) as HR1.
  pose proof (Rep_ext _ _ _ _ (remove_remove a c) (remove_rep n _ _ c HR1 Hc)) as HR2.
  unfold on_expire, a_expire. destruct (rearm c) as [s|]; [|done]. split; [|done].
  apply (add_rep n (wheel_remove (wheel_remove w c) c)); [done..|apply detached_remove].
Qed.

Lemma ring_next h s P c rest :
  ring h s (map conn_node (P ++ c :: rest)) ->
  nxt h (conn_node c) = match rest with d :: _ => conn_node d | [] => s end.
Proof.
  unfold ring. rewrite map_app. cbn [map]. rewrite <- app_assoc. cbn [app].
  rewrite app_comm_cons, linked_app. intros [_ H].
  destruct rest; cbn in H; tauto.
Qed.

Lemma tick_loop_rep n rearm head rest : forall fuel w a P acc,
  Rep n w a -> (head < kSlots)%nat -> a head = P ++ rest -> (length rest <= fuel)%nat ->
  exists w', tick_loop (on_expire rearm) fuel w head (match rest with d :: _ => conn_node d | [] => head end) acc
             = Some (w', acc ++ rest) /\
    Rep n w' (fold_left (a_expire rearm (cursor w)) rest a) /\ cursor w' = cursor w.
Proof.
  induction rest as [|c rest IH]; intros fuel w a P acc HR Hh E Hf.
  - exists w. destruct fuel; cbn [tick_loop]; rewrite Nat.eqb_refl, app_nil_r; done.
  - destruct fuel as [|fuel]; [cbn in Hf; lia|]. cbn [tick_loop].
    rewrite (proj2 (Nat.eqb_neq _ _)) by (unfold conn_node; lia).
    pose proof (rep_ring _ _ _ HR head Hh) as Hr. rewrite E in Hr. rewrite (ring_next _ _ _ _ _ Hr).
    assert (conn_node c - kSlots = c)%nat as -> by (unfold conn_node; lia).
    assert (c < n)%nat as Hc by (apply (rep_lt _ _ _ HR head c Hh); rewrite E; apply elem_of_app; right; left).
    destruct (expire_rep n w a c rearm HR Hc) as [HR' Hcur]. change (mkWheel (node_init _ _) _) with (wheel_remove w c).
    assert (a_remove a c head = P ++ rest) as Erm.
    { unfold a_remove. rewrite E. apply filter_mid. rewrite <- E. by apply (rep_nodup _ _ _ HR). }
    assert (exists P', a_expire rearm (cursor w) a c head = P' ++ rest) as [P' EP].
    { unfold a_expire. destruct (rearm c) as [s|]; [|by exists P].
      unfold a_add. destruct (Nat.eqb _ _); rewrite Erm; [by exists (c :: P)|by exists P]. }
    destruct (IH fuel _ _ P' (acc ++ [c]) HR' Hh EP ltac:(cbn in Hf; lia)) as (w' & -> & HRw & Hcw).
    exists w'. rewrite <- app_assoc. cbn [fold_left]. rewrite <- Hcur. split_and!; [done| |congruence].
    by rewrite Hcur in HRw |- *.
Qed.

Lemma slot_of_0 cur : 0 <= cur < 4294967296 -> Z.to_nat (Z.land cur 63) = slot_of cur 0.
Proof. intros H. unfold slot_of. rewrite Z.add_0_r, u32_small by done. done. Qed.

Lemma nodup_bounded n (l : list nat) : NoDup l -> (forall c, c ∈ l -> (c < n)%nat) -> (length l <= n)%nat.
Proof.
  intros Hnd Hlt. rewrite <- (length_seq n 0). apply submseteq_length, NoDup_submseteq; [done|].
  intros c Hc. rewrite list_elem_of_In, in_seq. specialize (Hlt c Hc). lia.
Qed.

Lemma tick_rep n w a rearm :
  Rep n w a ->
  exists w', tick (on_expire rearm) n w = Some (w', snd (a_tick rearm (cursor w) a)) /\
    Rep n w' (fst (a_tick rearm (cursor w) a)) /\ cursor w' = u32 (cursor w + 1).
Proof.
  intros HR. pose proof (slot_of_lt (cursor w) 0) as Hs. unfold tick, a_tick. cbn [fst snd].
  rewrite slot_of_0 by apply (rep_cursor _ _ _ HR). set (hd := slot_of (cursor w) 0) in *.
  assert (nxt (links w) hd = match a hd with d :: _ => conn_node d | [] => hd end) as ->.
  { pose proof (rep_ring _ _ _ HR hd Hs) as Hr. unfold ring in Hr. destruct (a hd); cbn in Hr; tauto. }
  assert (length (a hd) <= n)%nat as Hl.
  { apply nodup_bounded; [by apply (rep_nodup _ _ _ HR)|intros c Hc; by apply (rep_lt _ _ _ HR hd)]. }
  destruct (tick_loop_rep n rearm hd (a hd) n w a [] [] HR Hs eq_refl Hl) as (w' & -> & HRw & Hc).
  eexists. split_and!; [done| |cbn [cursor]; by rewrite Hc].
  destruct HRw as [H1 H2 H3 H4 H5 _]. split; try done. cbn [cursor].
  apply (wrap_range 32). lia.
Qed.

(** ** Traces *)

Definition avalid (n : nat) (a : awheel) (e : wevent) : Prop :=
  match e with
  | EvAdd c _ => (c < n)%nat /\ detached a c
  | EvRemove c | EvRefresh c _ => (c < n)%nat
  | EvTick _ => True
  end.

Definition astep (cur : Z) (a : awheel) (e : wevent) : awheel * Z * list nat :=
  match e with
  | EvAdd c s => (a_add a (slot_of cur s) c, cur, [])
  | EvRemove c => (a_remove a c, cur, [])
  | EvRefresh c s => (a_add (a_remove a c) (slot_of cur s) c, cur, [])
  | EvTick rearm => (fst (a_tick rearm cur a), u32 (cur + 1), snd (a_tick rearm cur a))
  end.

Fixpoint avalids (n : nat) (cur : Z) (a : awheel) (es : list wevent) : Prop :=
  match es with
  | [] => True
  | e :: es' => avalid n a e /\ avalids n (astep cur a e).1.2 (astep cur a e).1.1 es'
  end.

Fixpoint arun (cur : Z) (a : awheel) (es : list wevent) : awheel * Z * list (list nat) :=
  match es with
  | [] => (a, cur, [])
  | e :: es' =>
      let '(a1, cur1, out) := astep cur a e in
      let '(a2, cur2, outs) := arun cur1 a1 es' in (a2, cur2, out :: outs)
  end.

Lemma step_rep n w a e :
  Rep n w a -> avalid n a e ->
  exists w', wstep n w e = Some (w', (astep (cursor w) a e).2) /\
    Rep n w' (astep (cursor w) a e).1.1 /\ cursor w' = (astep (cursor w) a e).1.2.
Proof.
  intros HR Hv. destruct e as [c s|c|c s|rearm]; cbn [wstep astep avalid fst snd] in *.
  - eexists. split; [done|]. split; [apply add_rep; tauto|done].
  - eexists. split; [done|]. split; [by apply remove_rep|done].
  - eexists. split; [done|]. split; [|done]. apply (add_rep n (wheel_remove w c)); [by apply remove_rep|done|].
    apply detached_remove.
  - destruct (tick_rep n w a rearm HR) as (w' & H1 & H2 & H3). by exists w'.
Qed.

Lemma run_rep n es : forall w a,
  Rep n w a -> avalids n (cursor w) a es ->
  exists w', wrun n w es = Some (w', (arun (cursor w) a es).2) /\
    Rep n w' (arun (cursor w) a es).1.1 /\ cursor w' = (arun (cursor w) a es).1.2.
Proof.
  induction es as [|e es IH]; intros w a HR Hv; [by exists w|]. destruct Hv as [Hv Hvs].
  destruct (step_rep n w a e HR Hv) as (w1 & E1 & HR1 & Hc1). cbn [wrun arun]. rewrite E1.
  destruct (astep (cursor w) a e) as [[a1 cur1] out]. cbn [fst snd] in *. subst cur1.
  destruct (IH w1 a1 HR1 Hvs) as (w2 & -> & HR2 & Hc2). exists w2.
  destruct (arun (cursor w1) a1 es) as [[a2 cur2] outs]. done.
Qed.

Lemma init_slots_eq m : forall h k,
  nxt (init_slots h m) k = (if Nat.ltb k m then k else nxt h k) /\
  prv (init_slots h m) k = (if Nat.ltb k m then k else prv h k).
Proof.
  induction m as [|m IH]; intros h k; [done|]. cbn [init_slots]. unfold node_init, set_nxt, set_prv. cbn [nxt prv].
  unfold upd. destruct (IH h k) as [-> ->].
  destruct (Nat.eqb_spec k m), (Nat.ltb_spec k m), (Nat.ltb_spec k (S m)); lia || done.
Qed.

(** A fresh wheel over [n] reset connections represents the empty queues. *)
Lemma wheel_init_rep n h : Rep n (wheel_init (init_slots h (kSlots + n))) (fun _ => []).
Proof.
  split; cbn [wheel_init links cursor]; try (intros; set_solver).
  - intros s Hs. unfold ring. cbn [map app linked]. destruct (init_slots_eq kSlots (init_slots h (kSlots + n)) s) as [-> ->].
    by rewrite (proj2 (Nat.ltb_lt _ _) Hs).
  - intros s _. apply NoDup_nil_2.
  - intros c Hc _. destruct (init_slots_eq kSlots (init_slots h (kSlots + n)) (conn_node c)) as [-> ->].
    rewrite (proj2 (Nat.ltb_ge _ _)) by (unfold conn_node; lia).
    destruct (init_slots_eq (kSlots + n) h (conn_node c)) as [-> ->].
    rewrite (proj2 (Nat.ltb_lt _ _)) by (unfold conn_node; lia). done.
Qed.

(** ** When a timer fires *)

Lemma slot_of_mod cur s : slot_of cur s = Z.to_nat ((cur + s) mod 64).
Proof.
  unfold slot_of, u32, wrap. change 63 with (Z.ones 6). rewrite Z.land_ones by lia.
  change (2 ^ 6) with 64. rewrite <- Znumtheory.Zmod_div_mod; [done|lia|lia|]. by exists 67108864.
Qed.

Lemma slot_of_wrap cur j s : slot_of (u32 (cur + j)) s = slot_of cur (j + s).
Proof.
  rewrite !slot_of_mod. unfold u32, wrap. f_equal. rewrite Z.add_assoc. rewrite <- (Zplus_mod_idemp_l (_ mod _)).
  rewrite <- Znumtheory.Zmod_div_mod; [|lia|lia|by exists 67108864]. by rewrite Zplus_mod_idemp_l.
Qed.

Lemma slot_of_apart cur j s : 0 <= j < s -> s < 64 -> slot_of cur j <> slot_of cur s.
Proof.
  intros Hj Hs. rewrite !slot_of_mod. intros E.
  apply Z2Nat.inj in E; try (apply Z.mod_pos_bound; lia).
  pose proof (Z.div_mod (cur + j) 64 ltac:(lia)). pose proof (Z.div_mod (cur + s) 64 ltac:(lia)). lia.
Qed.

Definition ev_conn (e : wevent) : option nat :=
  match e with EvAdd c _ | EvRemove c | EvRefresh c _ => Some c | EvTick _ => None end.

Fixpoint ticks (es : list wevent) : nat :=
  match es with [] => O | EvTick _ :: es' => S (ticks es') | _ :: es' => ticks es' end.

Lemma a_add_keeps a s d t (c : nat) : c ∈ a t -> c ∈ a_add a s d t.
Proof. intros H. unfold a_add. destruct (Nat.eqb t s); [by right|done]. Qed.

Lemma expire_keeps rearm cur q : forall a t c, c ∉ q -> c ∈ a t -> c ∈ fold_left (a_expire rearm cur) q a t.
Proof.
  induction q as [|d q IH]; intros a t c Hq Hc; [done|]. cbn [fold_left]. rewrite elem_of_cons in Hq.
  apply IH; [tauto|]. unfold a_expire.
  assert (c ∈ a_remove a d t) by (apply elem_of_remove; split; [done|intros ->; tauto]).
  destruct (rearm d); [by apply a_add_keeps|done].
Qed.

(** A timer that is [s] ticks away stays in its queue, unexpired, for the next
    [j <= s] ticks. *)
Lemma waits n c es : forall w a s,
  Rep n w a -> avalids n (cursor w) a es -> Forall (fun e => ev_conn e <> Some c) es ->
  c ∈ a (slot_of (cursor w) s) -> 0 <= s < 64 -> Z.of_nat (ticks es) <= s ->
  Forall (fun out => c ∉ out) (arun (cursor w) a es).2 /\
  c ∈ (arun (cursor w) a es).1.1 (slot_of (arun (cursor w) a es).1.2 (s - Z.of_nat (ticks es))).
Proof.
  induction es as [|e es IH]; intros w a s HR Hv Hall Hc Hs Ht.
  { cbn. rewrite Z.sub_0_r. split; [constructor|done]. }
  apply Forall_cons in Hall as [He Hall]. destruct Hv as [Hv Hvs].
  destruct (step_rep n w a e HR Hv) as (w1 & _ & HR1 & Hc1).
  set (s1 := s - Z.of_nat (ticks [e])).
  assert (c ∉ (astep (cursor w) a e).2 /\ c ∈ (astep (cursor w) a e).1.1 (slot_of (astep (cursor w) a e).1.2 s1) /\
          0 <= s1 < 64 /\ Z.of_nat (ticks (e :: es)) = Z.of_nat (ticks [e]) + Z.of_nat (ticks es)) as (Hout & Hc' & Hs1 & Htk).
  { subst s1. destruct e as [d x|d|d x|rearm]; cbn [astep fst snd ev_conn ticks] in *; rewrite ?Z.sub_0_r.
    1-3: assert (d <> c) by congruence.
    1-3: split_and!; try lia; [set_solver|].
    - by apply a_add_keeps.
    - by apply elem_of_remove.
    - by apply a_add_keeps, elem_of_remove.
    - rewrite slot_of_wrap. replace (1 + (s - Z.of_nat 1)) with s by lia.
      assert (c ∉ a (slot_of (cursor w) 0)) as Hq.
      { intros Hq. apply (slot_of_apart (cursor w) 0 s); [lia..|].
        apply (rep_disj _ _ _ HR _ _ c); auto using slot_of_lt. }
      split_and!; [done|by apply expire_keeps|lia..]. }
  destruct (astep (cursor w) a e) as [[a1 cur1] out] eqn:E. cbn [fst snd] in *. subst cur1.
  destruct (IH w1 a1 s1 HR1 Hvs Hall Hc' Hs1 ltac:(subst s1; lia)) as [Hf Hin].
  cbn [arun]. rewrite E. destruct (arun (cursor w1) a1 es) as [[a2 cur2] outs]. cbn [fst snd] in *.
  split; [by constructor|]. rewrite Htk. replace (s - (_ + _)) with (s1 - Z.of_nat (ticks es)) by (subst s1; lia). done.
Qed.

(** C22: from a fresh wheel over [n] connections, every sequence of additions of
    detached connections, removals, refreshes and ticks (whose callback closes
    or re-arms what expires) runs to completion within [n] turns per expiry loop,
    expires exactly what the slot queues say, in queue order, and leaves links
    that represent the queues. *)
Theorem wheel_refines (n : nat) (h : heap) (es : list wevent) :
  avalids n 0 (fun _ => []) es ->
  exists w, wrun n (wheel_init (init_slots h (kSlots + n))) es = Some (w, (arun 0 (fun _ => []) es).2) /\
    Rep n w (arun 0 (fun _ => []) es).1.1 /\ cursor w = (arun 0 (fun _ => []) es).1.2.
Proof. intros Hv. apply (run_rep n es _ _ (wheel_init_rep n h)). exact Hv. Qed.

(** C23: a connection armed with a timeout of [s] seconds below the number of
    slots is not expired by the next [s] ticks, whatever is done to other
    connections meanwhile and also when the 32-bit cursor wraps, and is expired
    by the tick after them. *)
Theorem timer_fires (n : nat) (w : TimerWheel) (a : awheel) (c : nat) (s : Z) (es : list wevent) (rearm : nat -> option Z) :
  Rep n w a -> (c < n)%nat -> detached a c -> 0 <= s < 64 ->
  avalids n (cursor w) (a_add a (slot_of (cursor w) s) c) es -> Forall (fun e => ev_conn e <> Some c) es ->
  Z.of_nat (ticks es) = s ->
  exists w1 outs w2 out,
    wrun n (wheel_add w c s) es = Some (w1, outs) /\ Forall (fun expired => c ∉ expired) outs /\
    tick (on_expire rearm) n w1 = Some (w2, out) /\ c ∈ out.
Proof.
  intros HR Hc Hd Hs Hv Hall Ht. pose proof (add_rep n w a c s HR Hc Hd) as HR0.
  assert (c ∈ a_add a (slot_of (cursor w) s) c (slot_of (cursor w) s)) as Hin0 by (unfold a_add; rewrite Nat.eqb_refl; left).
  destruct (waits n c es _ _ s HR0 Hv Hall Hin0 Hs ltac:(lia)) as [Hf Hin].
  destruct (run_rep n es _ _ HR0 Hv) as (w1 & E1 & HR1 & Hc1).
  destruct (tick_rep n w1 _ rearm HR1) as (w2 & E2 & _).
  exists w1, (arun (cursor w) (a_add a (slot_of (cursor w) s) c) es).2, w2. eexists.
  split_and!; [exact E1|exact Hf|exact E2|].
  cbn [a_tick snd]. rewrite Hc1. rewrite Ht, Z.sub_diag in Hin. exact Hin.
Qed.

(** A heap of self-linked nodes and a short history, for the witnesses. *)
Definition heap0 : heap := mkHeap (fun n => n) (fun n => n).

Lemma detached_empty c : detached (fun _ => []) c.
Proof. intros s _ H. by apply elem_of_nil in H. Qed.

Lemma wheel_refines_witness :
  exists w, wrun 4 (wheel_init (init_slots heap0 (kSlots + 4)))
    [EvAdd 2 1; EvRefresh 3 0; EvTick (fun _ => None); EvRefresh 0 0; EvTick (fun c => if Nat.eqb c 2 then Some 1 else None);
     EvTick (fun _ => None)] = Some (w, [[]; []; [3]; []; [0; 2]; [2]])%nat.
Proof.
  edestruct (wheel_refines 4 heap0
    [EvAdd 2 1; EvRefresh 3 0; EvTick (fun _ => None); EvRefresh 0 0; EvTick (fun c => if Nat.eqb c 2 then Some 1 else None);
     EvTick (fun _ => None)]) as (w & -> & _); [|by exists w].
  cbn [avalids avalid astep fst snd]. split_and!; try lia; apply detached_empty || done.
Defined.

Lemma timer_fires_witness :
  exists w1 outs w2 out,
    wrun 4 (wheel_add (wheel_init (init_slots heap0 (kSlots + 4))) 1 2)
      [EvTick (fun _ => None); EvRefresh 3 0; EvTick (fun _ => Some 1)] = Some (w1, outs) /\
    Forall (fun expired => 1%nat ∉ expired) outs /\
    tick (on_expire (fun _ => None)) 4 w1 = Some (w2, out) /\ 1%nat ∈ out.
Proof.
  apply (timer_fires 4 _ (fun _ => []) 1 2).
  - apply wheel_init_rep.
  - lia.
  - apply detached_empty.
  - lia.
  - cbn [avalids avalid]. split_and!; try lia; done.
  - repeat constructor; done.
  - reflexivity.
Defined.
