(* ===== verification/YieldHeap.v ===== *)
(** * Yield timers

    Model of the min-heap of pending handler deadlines of the epoll event loop
    (include/rut/runtime/epoll_event_loop.h: [YieldHeap], [rearm_yield_timerfd],
    [drain_yield_heap]) and of the choice between it and the one-second wheel
    ([schedule_yield_timer], include/rut/runtime/jit_dispatch.h:
    [timer_seconds_from_ms]).  The array's live prefix is a list, so [size] is
    its length.  The theorems show heap order and contents, that a drain resumes
    the due handlers in deadline order, and what [remove_by_conn] removes. *)

From Stdlib Require Import Sorted.
From S2P Require Import Prelude.
From S2P Require Import TimerWheel.

Record Entry := mkEntry { deadline_ns : Z; handler_gen : Z; conn_id : Z }.

#[global] Instance Entry_eq_dec : EqDecision Entry.
Proof. solve_decision. Defined.

Definition kMaxConns : Z := 16384.
Definition kCap : Z := kMaxConns + 256.

Definition zero_entry : Entry := mkEntry 0 0 0.
Definition entry_at (l : list Entry) (i : nat) : Entry := default zero_entry (l !! i).
Definition key (l : list Entry) (i : nat) : Z := deadline_ns (entry_at l i).

Definition swap (l : list Entry) (i j : nat) : list Entry := <[j := entry_at l i]> (<[i := entry_at l j]> l).

Definition parent (i : nat) : nat := ((i - 1) / 2)%nat.

(** [sift_up] ends at the root; the index bounds its turns. *)
Fixpoint sift_up (fuel : nat) (l : list Entry) (i : nat) : list Entry :=
  match fuel with
  | O => l
  | S fuel' =>
      if Nat.eqb i 0 then l
      else if key l (parent i) <=? key l i then l
      else sift_up fuel' (swap l (parent i) i) (parent i)
  end.

Definition smallest_of (l : list Entry) (i : nat) : nat :=
  let lc := (2 * i + 1)%nat in
  let rc := (2 * i + 2)%nat in
  let s1 := if Nat.ltb lc (length l) && (key l lc <? key l i) then lc else i in
  if Nat.ltb rc (length l) && (key l rc <? key l s1) then rc else s1.

Fixpoint sift_down (fuel : nat) (l : list Entry) (i : nat) : list Entry :=
  match fuel with
  | O => l
  | S fuel' =>
      let s := smallest_of l i in
      if Nat.eqb s i then l else sift_down fuel' (swap l s i) s
  end.

Definition sift (l : list Entry) (i : nat) : list Entry := sift_down (length l) (sift_up i l i) i.

Definition push (l : list Entry) (e : Entry) : list Entry * bool :=
  if kCap <=? Z.of_nat (length l) then (l, false) else (sift_up (length l) (l ++ [e]) (length l), true).

(** [entries[i] = entries[--size]] *)
Definition fill_from_tail (l : list Entry) (i : nat) : list Entry :=
  let last := (length l - 1)%nat in <[i := entry_at l last]> (take last l).

Definition pop (l : list Entry) : list Entry :=
  match l with [] => [] | _ => sift_down (length l) (fill_from_tail l 0) 0 end.

(** Every turn of the scan advances [i] or shrinks the heap; the initial size
    bounds the turns. *)
Fixpoint remove_loop (fuel : nat) (l : list Entry) (c : Z) (i : nat) (removed : Z) : list Entry * Z :=
  match fuel with
  | O => (l, removed)
  | S fuel' =>
      if Nat.ltb i (length l) then
        if negb (conn_id (entry_at l i) =? c) then remove_loop fuel' l c (S i) removed
        else
          let l1 := fill_from_tail l i in
          let l2 := if Nat.ltb i (length l1) then sift l1 i else l1 in
          remove_loop fuel' l2 c i (removed + 1)
      else (l, removed)
  end.

Definition remove_by_conn (l : list Entry) (c : Z) : list Entry * Z := remove_loop (length l) l c 0 0.

(** [rearm_yield_timerfd]: the armed deadline after the call, and the deadline
    programmed into the timer when one is. *)
Definition rearm (l : list Entry) (armed : Z) : Z * option Z :=
  match l with
  | [] => if armed =? 0 then (armed, None) else (0, Some 0)
  | e :: _ => if deadline_ns e =? armed then (armed, None) else (deadline_ns e, Some (deadline_ns e))
  end.

(** [timer_seconds_from_ms] on 32-bit milliseconds *)
Definition timer_seconds_from_ms (ms : Z) : Z :=
  if ms =? 0 then 0
  else let secs := (ms + 999) / 1000 in if secs >? 4294967295 then 4294967295 else secs.

Inductive yield_choice := OnHeap (deadline : Z) | OnWheel (seconds : Z) | Refused.

(** [schedule_yield_timer]: the heap and the wheel after the call. *)
Definition schedule_yield_timer (l : list Entry) (w : TimerWheel) (now gen : Z) (c : nat) (ms : Z)
    : list Entry * TimerWheel * yield_choice :=
  let w1 := wheel_remove w c in
  let deadline := wrap 64 (now + ms * 1000000) in
  match push l (mkEntry deadline gen (Z.of_nat c)) with
  | (l1, true) => (l1, w1, OnHeap deadline)
  | (l1, false) =>
      let secs := timer_seconds_from_ms ms in
      if secs >=? 64 then (l1, w1, Refused)
      else
        let secs := if secs =? 0 then 1 else secs in
        (l1, wheel_add w1 c secs, OnWheel secs)
  end.

(** [drain_yield_heap]: [live] is the test that the connection still waits for
    this entry, [resume] what the resumed handler does to the heap. *)
Fixpoint drain_loop (live : Entry -> bool) (resume : list Entry -> Entry -> list Entry) (now : Z) (fuel : nat)
    (l : list Entry) (acc : list Entry) : option (list Entry * list Entry) :=
  match l with
  | [] => Some (l, acc)
  | e :: _ =>
      if deadline_ns e <=? now then
        match fuel with
        | O => None
        | S fuel' =>
            let l1 := pop l in
            if live e then drain_loop live resume now fuel' (resume l1 e) (acc ++ [e])
            else drain_loop live resume now fuel' l1 acc
        end
      else Some (l, acc)
  end.

(** ** Swaps *)

Lemma entry_at_swap l i j k :
  (i < length l)%nat -> (j < length l)%nat ->
  entry_at (swap l i j) k = if Nat.eqb k j then entry_at l i else if Nat.eqb k i then entry_at l j else entry_at l k.
Proof.
  intros Hi Hj. unfold swap. unfold entry_at at 1. destruct (Nat.eqb_spec k j) as [->|Hkj].
  - rewrite list_lookup_insert_eq by (rewrite length_insert; done). done.
  - rewrite list_lookup_insert_ne by done. destruct (Nat.eqb_spec k i) as [->|Hki].
    + by rewrite list_lookup_insert_eq.
    + by rewrite list_lookup_insert_ne.
Qed.

Lemma length_swap l i j : length (swap l i j) = length l.
Proof. unfold swap. by rewrite !length_insert. Qed.

Lemma entry_at_lookup l i : (i < length l)%nat -> l !! i = Some (entry_at l i).
Proof. intros H. unfold entry_at. by destruct (lookup_lt_is_Some_2 l i H) as [e ->]. Qed.

Lemma swap_perm l i j : (i < length l)%nat -> (j < length l)%nat -> swap l i j ≡ₚ l.
Proof.
  intros Hi Hj. unfold swap. apply entry_at_lookup in Hi, Hj.
  destruct (decide (i = j)) as [->|Hne].
  - rewrite list_insert_insert_eq. by rewrite list_insert_id.
  - rewrite list_insert_insert_ne by done. by apply Permutation_insert_swap.
Qed.

(** ** Heap order *)

Definition heap_ok (l : list Entry) : Prop :=
  forall j, (0 < j < length l)%nat -> key l (parent j) <= key l j.

(** Heap order except between [i] and its neighbours, whose own order holds
    across [i]. *)
Definition heap_but (l : list Entry) (i : nat) : Prop :=
  (forall j, (0 < j < length l)%nat -> j <> i -> parent j <> i -> key l (parent j) <= key l j) /\
  (forall j, (0 < j < length l)%nat -> parent j = i -> (0 < i)%nat -> key l (parent i) <= key l j).

Definition ok_up (l : list Entry) (i : nat) : Prop :=
  heap_but l i /\ forall j, (0 < j < length l)%nat -> parent j = i -> key l i <= key l j.
Definition ok_down (l : list Entry) (i : nat) : Prop :=
  heap_but l i /\ ((0 < i)%nat -> key l (parent i) <= key l i).

Lemma parent_lt i : (0 < i)%nat -> (parent i < i)%nat.
Proof. intros H. unfold parent. pose proof (Nat.div_le_upper_bound (i - 1) 2 (i - 1) ltac:(lia) ltac:(lia)). lia. Qed.

Lemma parent_children j i : (0 < j)%nat -> parent j = i <-> (j = 2 * i + 1 \/ j = 2 * i + 2)%nat.
Proof.
  intros Hj. unfold parent. pose proof (Nat.div_mod (j - 1) 2 ltac:(lia)).
  pose proof (Nat.mod_upper_bound (j - 1) 2 ltac:(lia)). lia.
Qed.

Lemma key_swap l i j k :
  (i < length l)%nat -> (j < length l)%nat ->
  key (swap l i j) k = if Nat.eqb k j then key l i else if Nat.eqb k i then key l j else key l k.
Proof. intros Hi Hj. unfold key. rewrite entry_at_swap by done. repeat case_match; done. Qed.

Lemma heap_split l i : (i < length l)%nat -> heap_ok l <-> ok_up l i /\ ok_down l i.
Proof.
  intros Hi. split.
  - intros H. pose proof (fun Hp => H i (conj Hp Hi)) as Hpi.
    assert (heap_but l i) as Hb.
    { split; [intros j Hj _ _; by apply H|]. intros j Hj <- Hp. specialize (H j Hj). lia. }
    split; split; try done. intros j Hj <-. by apply H.
  - intros [[[H1 _] H2] [_ H3]] j Hj. destruct (decide (j = i)) as [->|Hne]; [apply H3; lia|].
    destruct (decide (parent j = i)) as [E|Hp]; [rewrite E; by apply H2|by apply H1].
Qed.

(** Swapping a too small node with its parent moves the defect up. *)
Lemma swap_up l i :
  (0 < i < length l)%nat -> ok_up l i -> key l i < key l (parent i) -> ok_up (swap l (parent i) i) (parent i).
Proof.
  intros Hi [[H1 H2] H3] Hlt. pose proof (parent_lt i ltac:(lia)) as Hp. unfold ok_up, heap_but. rewrite length_swap.
  assert (forall k, key (swap l (parent i) i) k
    = if Nat.eqb k i then key l (parent i) else if Nat.eqb k (parent i) then key l i else key l k) as K
    by (intros; rewrite key_swap by lia; done).
  split_and!; intros j Hj; rewrite !K.
  - intros Hji Hpj. destruct (Nat.eqb_spec (parent j) (parent i)); [done|].
    destruct (Nat.eqb_spec j i) as [->|]; [done|]. destruct (Nat.eqb_spec j (parent i)); [done|].
    destruct (Nat.eqb_spec (parent j) i) as [E|E]; [apply H2; auto; lia|by apply H1].
  - intros Hpj Hpp. pose proof (parent_lt _ Hpp) as Hpp'.
    destruct (Nat.eqb_spec (parent (parent i)) i); [lia|]. destruct (Nat.eqb_spec (parent (parent i)) (parent i)); [lia|].
    assert (key l (parent (parent i)) <= key l (parent i)) as HP by (apply H1; lia).
    destruct (Nat.eqb_spec j i) as [->|Hji]; [done|].
    pose proof (parent_lt j ltac:(lia)). destruct (Nat.eqb_spec j (parent i)); [lia|].
    assert (key l (parent j) <= key l j) as HJ by (apply H1; lia). rewrite Hpj in HJ. lia.
  - intros Hpj. rewrite Nat.eqb_refl. destruct (Nat.eqb_spec (parent i) i); [lia|].
    destruct (Nat.eqb_spec j i) as [->|Hji]; [lia|].
    pose proof (parent_lt j ltac:(lia)). destruct (Nat.eqb_spec j (parent i)); [lia|].
    assert (key l (parent j) <= key l j) as HJ by (apply H1; lia). rewrite Hpj in HJ. lia.
Qed.

Lemma sift_up_ok fuel : forall l i,
  (i < length l)%nat -> (i <= fuel)%nat -> ok_up l i ->
  heap_ok (sift_up fuel l i) /\ sift_up fuel l i ≡ₚ l.
Proof.
  induction fuel as [|fuel IH]; intros l i Hi Hf Hok; cbn [sift_up].
  { split; [|done]. apply (heap_split l i Hi). split; [done|]. split; [apply Hok|lia]. }
  destruct (Nat.eqb_spec i 0) as [->|Hi0].
  { split; [|done]. apply (heap_split l 0 Hi). split; [done|]. split; [apply Hok|lia]. }
  destruct (Z.leb_spec (key l (parent i)) (key l i)) as [Hle|Hlt].
  - split; [|done]. apply (heap_split l i Hi). split; [done|]. split; [apply Hok|done].
  - pose proof (parent_lt i ltac:(lia)).
    destruct (IH (swap l (parent i) i) (parent i)) as [H1 H2]; [rewrite length_swap; lia|lia|apply swap_up; auto; lia|].
    split; [done|]. rewrite H2. apply swap_perm; lia.
Qed.

(** The smaller child of [i], when one is below [i]. *)
Lemma smallest_spec l i :
  (i < length l)%nat ->
  let s := smallest_of l i in
  (s = i /\ (forall j, (0 < j < length l)%nat -> parent j = i -> key l i <= key l j)) \/
  ((0 < s < length l)%nat /\ parent s = i /\ s <> i /\ key l s < key l i /\
   forall j, (0 < j < length l)%nat -> parent j = i -> key l s <= key l j).
Proof.
  intros Hi. cbv zeta. unfold smallest_of.
  assert (forall j, (0 < j < length l)%nat -> parent j = i -> (j = 2 * i + 1 \/ j = 2 * i + 2)%nat) as Hch
    by (intros j Hj; apply parent_children; lia).
  assert (parent (2 * i + 1) = i /\ parent (2 * i + 2) = i) as [HL HR] by (split; apply parent_children; lia).
  destruct (Nat.ltb_spec (2 * i + 1) (length l)), (Z.ltb_spec (key l (2 * i + 1)) (key l i)); cbn [andb];
    destruct (Nat.ltb_spec (2 * i + 2) (length l)); cbn [andb];
    try match goal with |- context [?a <? ?b] => destruct (Z.ltb_spec a b) end;
    first [ left; split; [done|]; intros j Hj Hpj; destruct (Hch j Hj Hpj) as [-> | ->]; lia
          | right; split_and!; [lia..|done|lia|lia|]; intros j Hj Hpj; destruct (Hch j Hj Hpj) as [-> | ->]; lia ].
Qed.

Lemma swap_down l i s :
  (i < length l)%nat -> (0 < s < length l)%nat -> parent s = i -> ok_down l i -> key l s < key l i ->
  (forall j, (0 < j < length l)%nat -> parent j = i -> key l s <= key l j) -> ok_down (swap l s i) s.
Proof.
  intros Hi Hs Hps [[H1 H2] H3] Hlt Hmin. pose proof (parent_lt s ltac:(lia)) as Hp. unfold ok_down, heap_but. rewrite length_swap.
  assert (forall k, key (swap l s i) k
    = if Nat.eqb k i then key l s else if Nat.eqb k s then key l i else key l k) as K
    by (intros; rewrite key_swap by lia; done).
  split_and!; [intros j Hj; rewrite !K..|rewrite !K].
  - intros Hjs Hpj. pose proof (parent_lt j ltac:(lia)).
    destruct (Nat.eqb_spec (parent j) s); [done|]. destruct (Nat.eqb_spec j s); [done|].
    destruct (Nat.eqb_spec (parent j) i) as [E|E].
    + destruct (Nat.eqb_spec j i); [lia|]. by apply Hmin.
    + destruct (Nat.eqb_spec j i) as [->|]; [|apply H1; auto; lia]. apply H2; auto; lia.
  - intros Hpj Hs0. pose proof (parent_lt j ltac:(lia)). rewrite Hps, Nat.eqb_refl.
    destruct (Nat.eqb_spec j i); [lia|]. destruct (Nat.eqb_spec j s); [lia|].
    rewrite <- Hpj. apply H1; lia.
  - intros _. rewrite Hps, !Nat.eqb_refl. destruct (Nat.eqb_spec s i); [lia|]. lia.
Qed.

Lemma sift_down_ok fuel : forall l i,
  (i < length l)%nat -> (length l - i <= fuel)%nat -> ok_down l i ->
  heap_ok (sift_down fuel l i) /\ sift_down fuel l i ≡ₚ l.
Proof.
  induction fuel as [|fuel IH]; intros l i Hi Hf Hok; [lia|]. cbn [sift_down]. cbv zeta.
  destruct (smallest_spec l i Hi) as [[E Hmin]|(Hs & Hps & Hne & Hlt & Hmin)].
  - rewrite E, Nat.eqb_refl. split; [|done]. apply (heap_split l i Hi). split; [|done]. split; [apply Hok|done].
  - rewrite (proj2 (Nat.eqb_neq _ _) Hne). pose proof (parent_lt (smallest_of l i) ltac:(lia)).
    destruct (IH (swap l (smallest_of l i) i) (smallest_of l i)) as [H1 H2];
      [rewrite length_swap; lia | rewrite length_swap; lia | by apply swap_down |].
    split; [done|]. rewrite H2. apply swap_perm; lia.
Qed.

(** ** Operations *)

Lemma take_last_app l : l <> [] -> l = take (length l - 1) l ++ [entry_at l (length l - 1)].
Proof.
  intros H. assert (0 < length l)%nat by (destruct l; [done|cbn; lia]).
  rewrite <- (take_drop (length l - 1) l) at 1. f_equal.
  rewrite (drop_S l (entry_at l (length l - 1)) (length l - 1)) by (apply entry_at_lookup; lia).
  rewrite drop_ge by lia. done.
Qed.

Lemma fill_length l i : length (fill_from_tail l i) = (length l - 1)%nat.
Proof. unfold fill_from_tail. rewrite length_insert, length_take. lia. Qed.

Lemma fill_perm l i : (i < length l)%nat -> entry_at l i :: fill_from_tail l i ≡ₚ l.
Proof.
  intros Hi. assert (l <> []) as Hne by (destruct l; [cbn in Hi; lia|done]).
  pose proof (take_last_app l Hne) as E. unfold fill_from_tail. set (z := entry_at l (length l - 1)) in *.
  set (L := take (length l - 1) l) in *. destruct (decide (i = length l - 1)%nat) as [->|Hl].
  - fold z. rewrite list_insert_ge by (subst L; rewrite length_take; lia). transitivity (L ++ [z]); [|by rewrite <- E].
    rewrite Permutation_app_comm. done.
  - assert (L !! i = Some (entry_at l i)) as HL.
    { subst L. rewrite lookup_take_lt by lia. by apply entry_at_lookup. }
    transitivity (L ++ [z]); [|by rewrite <- E]. rewrite (Permutation_app_comm L). cbn [app].
    pose proof (take_drop_middle _ _ _ HL) as HM.
    rewrite insert_take_drop by (apply lookup_lt_Some in HL; done). rewrite <- HM at 3.
    rewrite <- !Permutation_middle. apply Permutation_swap.
Qed.

Lemma fill_key l i j : (j < length l - 1)%nat -> j <> i -> key (fill_from_tail l i) j = key l j.
Proof.
  intros Hj Hne. unfold key, entry_at, fill_from_tail. rewrite list_lookup_insert_ne by done.
  by rewrite lookup_take_lt by done.
Qed.

Lemma fill_but l i : heap_ok l -> (i < length l - 1)%nat -> heap_but (fill_from_tail l i) i.
Proof.
  intros H Hi. split; rewrite fill_length; intros j Hj; pose proof (parent_lt j ltac:(lia)).
  - intros Hne Hp. rewrite !fill_key by lia. apply H. lia.
  - intros Hp Hi0. pose proof (parent_lt i Hi0). rewrite !fill_key by lia.
    pose proof (H i ltac:(lia)). pose proof (H j ltac:(lia)) as Hj'. rewrite Hp in Hj'. lia.
Qed.

Lemma sift_ok l i : (i < length l)%nat -> heap_but l i -> heap_ok (sift l i) /\ sift l i ≡ₚ l.
Proof.
  intros Hi Hb. unfold sift.
  destruct (decide ((0 < i)%nat /\ key l i < key l (parent i))) as [[Hi0 Hlt]|Hno].
  - assert (ok_up l i) as Hup.
    { split; [done|]. intros j Hj Hp. pose proof (proj2 Hb j Hj Hp Hi0). lia. }
    destruct (sift_up_ok i l i Hi ltac:(lia) Hup) as [H1 H2].
    assert (length (sift_up i l i) = length l) as HL by (by rewrite H2).
    destruct (sift_down_ok (length l) (sift_up i l i) i) as [H3 H4]; [lia|lia|apply heap_split; [lia|done]|].
    split; [done|]. by rewrite H4.
  - assert (sift_up i l i = l) as ->.
    { destruct i; [done|]. cbn [sift_up Nat.eqb]. destruct (Z.leb_spec (key l (parent (S i))) (key l (S i))); [done|].
      destruct Hno. split; [lia|done]. }
    apply sift_down_ok; [done|lia|]. split; [done|]. intros Hp. destruct (Z.le_gt_cases (key l (parent i)) (key l i)); [done|].
    destruct Hno. split; [lia|done].
Qed.

Lemma push_ok l e : heap_ok l -> push l e = (l, false) /\ kCap <= Z.of_nat (length l) \/
  exists l', push l e = (l', true) /\ Z.of_nat (length l) < kCap /\ heap_ok l' /\ l' ≡ₚ e :: l.
Proof.
  intros H. unfold push. destruct (Z.leb_spec kCap (Z.of_nat (length l))) as [Hc|Hc]; [by left|right].
  eexists. split; [done|]. split; [done|].
  destruct (sift_up_ok (length l) (l ++ [e]) (length l)) as [H1 H2].
  - rewrite length_app. cbn. lia.
  - lia.
  - assert (forall j, (j < length l)%nat -> key (l ++ [e]) j = key l j) as K.
    { intros j Hj. unfold key, entry_at. by rewrite lookup_app_l by done. }
    unfold ok_up, heap_but. rewrite length_app. cbn [length].
    split_and!; intros j Hj; pose proof (parent_lt j ltac:(lia)); intros; [|lia..]. rewrite !K by lia. apply H. lia.
  - split; [done|]. rewrite H2, Permutation_app_comm. done.
Qed.

Lemma pop_ok e l : heap_ok (e :: l) -> heap_ok (pop (e :: l)) /\ e :: pop (e :: l) ≡ₚ e :: l.
Proof.
  intros H. unfold pop. pose proof (fill_perm (e :: l) 0 ltac:(cbn; lia)) as HP. pose proof (fill_length (e :: l) 0) as HL.
  destruct l as [|e' l].
  { split; [|done]. intros j Hj. cbn in Hj. lia. }
  assert (0 < length (e :: e' :: l) - 1)%nat as Hl by (cbn; lia).
  pose proof (fill_but (e :: e' :: l) 0 H Hl) as Hb.
  destruct (sift_down_ok (length (e :: e' :: l)) (fill_from_tail (e :: e' :: l) 0) 0) as [H1 H2];
    [lia|lia|split; [done|lia]|].
  split; [done|]. by rewrite H2.
Qed.

Lemma heap_min l e : heap_ok l -> e ∈ l -> key l 0 <= deadline_ns e.
Proof.
  intros H [i Hi]%list_elem_of_lookup. assert (key l i = deadline_ns e) as <- by (unfold key, entry_at; by rewrite Hi).
  apply lookup_lt_Some in Hi. induction i as [i IH] using lt_wf_ind. destruct (decide (i = 0)%nat) as [->|]; [lia|].
  pose proof (parent_lt i ltac:(lia)) as Hp. pose proof (IH (parent i) Hp ltac:(lia)). pose proof (H i ltac:(lia)). lia.
Qed.

(** ** Draining *)

Definition due (now : Z) (e : Entry) : Prop := deadline_ns e <= now.
#[global] Instance due_dec now e : Decision (due now e).
Proof. unfold due. apply _. Defined.

Definition earlier (a b : Entry) : Prop := deadline_ns a <= deadline_ns b.

Lemma filter_none {P : Entry -> Prop} `{!forall x, Decision (P x)} l : Forall (fun e => ~ P e) l -> filter P l = [].
Proof. induction 1; [done|]. rewrite filter_cons, decide_False by done. done. Qed.

Lemma filter_all {P : Entry -> Prop} `{!forall x, Decision (P x)} l : Forall P l -> filter P l = l.
Proof. induction 1; [done|]. rewrite filter_cons, decide_True by done. by f_equal. Qed.

Section Drain.
  Variable live : Entry -> bool.
  Variable resume : list Entry -> Entry -> list Entry.
  Variable now : Z.
  (** A resumed handler leaves a heap and only adds entries of later deadlines. *)
  Hypothesis resume_later : forall l e, heap_ok l ->
    heap_ok (resume l e) /\ exists new, resume l e ≡ₚ new ++ l /\ Forall (fun x => now < deadline_ns x) new.

Definition due_live (e : Entry) : Prop := due now e /\ live e = true.
#[local] Instance due_live_dec e : Decision (due_live e).
Proof. unfold due_live. apply _. Defined.

(** What a drain of [l] must deliver: the resumed entries and the heap left. *)
Definition drained (l l' out : list Entry) : Prop :=
  heap_ok l' /\ StronglySorted earlier out /\ out ≡ₚ filter due_live l /\
  exists new, Forall (fun x => now < deadline_ns x) new /\ l' ≡ₚ new ++ filter (fun e => ~ due now e) l.

Lemma drained_stop l :
  heap_ok l -> match l with [] => True | e :: _ => now < deadline_ns e end ->
  Forall (fun x => ~ due now x) l /\ drained l l [].
Proof.
  intros Hh Htop. assert (Forall (fun x => ~ due now x) l) as Hall.
  { apply Forall_forall. intros x Hx. pose proof (heap_min _ _ Hh Hx) as Hm. destruct l as [|e l]; [by apply elem_of_nil in Hx|].
    unfold due. change (key (e :: l) 0) with (deadline_ns e) in Hm. lia. }
  split; [done|]. split_and!; [done|constructor| |exists []; split; [done|]].
  - rewrite filter_none; [done|]. eapply Forall_impl; [exact Hall|]. intros x Hx [? _]. done.
  - cbn [app]. by rewrite filter_all.
Qed.

Lemma drain_loop_ok fuel : forall l acc,
  heap_ok l -> (length (filter (due now) l) <= fuel)%nat ->
  exists l' out, drain_loop live resume now fuel l acc = Some (l', acc ++ out) /\ drained l l' out.
Proof.
  induction fuel as [|fuel IH]; intros l acc Hh Hf.
  all: destruct l as [|e l]; cbn [drain_loop];
    [exists [], []; rewrite app_nil_r; split; [done|]; by apply drained_stop|].
  all: destruct (Z.leb_spec (deadline_ns e) now) as [Hd|Hd];
    [|exists (e :: l), []; rewrite app_nil_r; split; [done|]; by apply drained_stop].
  - rewrite filter_cons, decide_True in Hf by done. cbn in Hf. lia.
  - destruct (pop_ok e l Hh) as [Hp HP]. apply Permutation_cons_inv in HP.
    set (l1 := if live e then resume (pop (e :: l)) e else pop (e :: l)).
    assert (heap_ok l1 /\ exists new, l1 ≡ₚ new ++ l /\ Forall (fun x => now < deadline_ns x) new) as (H1 & new & HP1 & Hnew).
    { subst l1. destruct (live e); [|split; [done|exists []; split; [by rewrite HP|done]]].
      destruct (resume_later (pop (e :: l)) e Hp) as (Hr & new & Hn & Hl). split; [done|]. exists new. by rewrite Hn, HP. }
    assert (Forall (fun x => ~ due now x) new) as Hnd by (eapply Forall_impl; [exact Hnew|]; unfold due; cbn; lia).
    rewrite filter_cons, decide_True in Hf by done. cbn [length] in Hf.
    assert (filter (due now) l1 ≡ₚ filter (due now) l) as HF by (by rewrite HP1, filter_app, filter_none).
    destruct (IH l1 (if live e then acc ++ [e] else acc)) as (l' & out & E & Hh' & Hs & Hperm & new' & Hn' & HP'); [done|rewrite HF; lia|].
    assert (out ≡ₚ filter due_live l) as Hout.
    { rewrite Hperm, HP1, filter_app, filter_none; [done|]. eapply Forall_impl; [exact Hnd|]. intros x Hx [? _]. done. }
    exists l', (if live e then e :: out else out). split.
    { subst l1. destruct (live e); rewrite E; [by rewrite <- app_assoc|done]. }
    split_and!; [done| | |].
    + destruct (live e); [|done]. constructor; [done|]. apply Forall_forall. intros x Hx. rewrite Hout in Hx.
      apply list_elem_of_filter in Hx as [_ Hx]. apply (heap_min (e :: l)); [done|by right].
    + rewrite filter_cons. destruct (live e) eqn:El; [rewrite decide_True|rewrite decide_False]; rewrite ?Hout; try done.
      intros [_ ?]. congruence.
    + exists (new' ++ new). split; [by apply Forall_app|].
      rewrite HP', HP1, filter_app, (filter_cons (fun e => ~ due now e) e), decide_False by (intros H; by apply H).
      rewrite (filter_all new) by done. by rewrite app_assoc.
Qed.
End Drain.

(** ** Removal by connection *)

Definition of_conn (c : Z) (e : Entry) : Prop := conn_id e = c.
#[global] Instance of_conn_dec c e : Decision (of_conn c e).
Proof. unfold of_conn. apply _. Defined.

Lemma remove_one l i :
  heap_ok l -> (i < length l)%nat ->
  let l1 := fill_from_tail l i in
  let l2 := if Nat.ltb i (length l1) then sift l1 i else l1 in
  heap_ok l2 /\ entry_at l i :: l2 ≡ₚ l.
Proof.
  intros Hh Hi. cbv zeta. pose proof (fill_length l i) as HL. pose proof (fill_perm l i Hi) as HP.
  destruct (Nat.ltb_spec i (length (fill_from_tail l i))) as [Hlt|Hge].
  - destruct (sift_ok (fill_from_tail l i) i Hlt) as [H1 H2]; [apply fill_but; [done|lia]|].
    split; [done|]. by rewrite H2.
  - split; [|done]. intros j Hj. pose proof (parent_lt j ltac:(lia)). rewrite !fill_key by lia. apply Hh. lia.
Qed.

Lemma remove_loop_ok c fuel : forall l i r,
  heap_ok l -> (length l <= i + fuel)%nat ->
  let '(l', r') := remove_loop fuel l c i r in
  heap_ok l' /\ filter (fun e => ~ of_conn c e) l' ≡ₚ filter (fun e => ~ of_conn c e) l /\
  r' = r + Z.of_nat (length l - length l') /\ (length l' <= length l)%nat /\
  ((forall j, (j < i)%nat -> (j < length l)%nat -> conn_id (entry_at l j) <> c) ->
   (length (filter (of_conn c) l) <= 1)%nat -> filter (of_conn c) l' = []).
Proof.
  assert (forall l, (forall j, (j < length l)%nat -> conn_id (entry_at l j) <> c) -> filter (of_conn c) l = []) as Hnone.
  { intros l Hp. apply filter_none, Forall_lookup. intros j x Hx. unfold of_conn.
    specialize (Hp j (lookup_lt_Some _ _ _ Hx)). unfold entry_at in Hp. by rewrite Hx in Hp. }
  assert (forall l i r, heap_ok l -> (length l <= i)%nat ->
    heap_ok l /\ filter (fun e => ~ of_conn c e) l ≡ₚ filter (fun e => ~ of_conn c e) l /\
    r = r + Z.of_nat (length l - length l) /\ (length l <= length l)%nat /\
    ((forall j, (j < i)%nat -> (j < length l)%nat -> conn_id (entry_at l j) <> c) ->
     (length (filter (of_conn c) l) <= 1)%nat -> filter (of_conn c) l = [])) as Hstop.
  { intros l i r Hh Hl. split_and!; [done|done|lia|lia|]. intros Hp _. apply Hnone. intros j Hj. apply Hp; lia. }
  induction fuel as [|fuel IH]; intros l i r Hh Hf; cbn [remove_loop]; [apply Hstop; [done|lia]|].
  destruct (Nat.ltb_spec i (length l)) as [Hi|Hi]; [|by apply Hstop].
  destruct (Z.eqb_spec (conn_id (entry_at l i)) c) as [Hc|Hc]; cbn [negb].
  - destruct (remove_one l i Hh Hi) as [H1 HP]. cbv zeta in *.
    set (l2 := if Nat.ltb i _ then _ else _) in *. assert (S (length l2) = length l) as HL by (by rewrite <- HP).
    specialize (IH l2 i (r + 1) H1 ltac:(lia)). destruct (remove_loop fuel l2 c i (r + 1)) as [l' r'].
    destruct IH as (H2 & H3 & -> & H4 & H5). split_and!; [done| |lia|lia|].
    + rewrite H3, <- HP, filter_cons, decide_False; [done|]. intros H. by apply H.
    + intros _ Huniq. rewrite <- HP, filter_cons, decide_True in Huniq by done. cbn [length] in Huniq.
      assert (filter (of_conn c) l2 = []) as E by (apply nil_length_inv; lia). apply H5; [|rewrite E; cbn; lia].
      intros j _ Hj Hcj. apply entry_at_lookup in Hj.
      assert (entry_at l2 j ∈ filter (of_conn c) l2) as Hin by (apply list_elem_of_filter; split; [done|by eapply list_elem_of_lookup_2]).
      rewrite E in Hin. by apply elem_of_nil in Hin.
  - specialize (IH l (S i) r Hh ltac:(lia)). destruct (remove_loop fuel l c (S i) r) as [l' r'].
    destruct IH as (H2 & H3 & -> & H4 & H5). split_and!; try done. intros Hp. apply H5. intros j Hj Hl.
    destruct (decide (j = i)) as [->|]; [done|]. apply Hp; lia.
Qed.

(** ** Properties *)

(** On a heap of deadlines, the top is the earliest entry; [pop] removes
    exactly it; [push] adds exactly its entry unless the heap is full, in which
    case nothing changes; [remove_by_conn] keeps all entries of other
    connections, reports how many it removed, and leaves no entry of a connection
    that had at most one.  All of them keep the heap order. *)
Theorem yield_heap_ops (l : list Entry) :
  heap_ok l ->
  (forall e rest, l = e :: rest ->
     (forall x, x ∈ l -> deadline_ns e <= deadline_ns x) /\ heap_ok (pop l) /\ e :: pop l ≡ₚ l) /\
  (forall e, push l e = (l, false) /\ kCap <= Z.of_nat (length l) \/
     exists l', push l e = (l', true) /\ Z.of_nat (length l) < kCap /\ heap_ok l' /\ l' ≡ₚ e :: l) /\
  (forall c, let '(l', removed) := remove_by_conn l c in
     heap_ok l' /\ filter (fun e => ~ of_conn c e) l' ≡ₚ filter (fun e => ~ of_conn c e) l /\
     removed = Z.of_nat (length l - length l') /\
     ((length (filter (of_conn c) l) <= 1)%nat -> filter (of_conn c) l' = [])).
Proof.
  intros Hh. split_and!.
  - intros e rest ->. destruct (pop_ok e rest Hh) as [H1 H2]. split_and!; try done.
    intros x Hx. by apply (heap_min (e :: rest)).
  - intros e. by apply push_ok.
  - intros c. pose proof (remove_loop_ok c (length l) l 0 0 Hh ltac:(lia)) as H.
    unfold remove_by_conn. destruct (remove_loop _ _ _ _ _) as [l' r']. destruct H as (H1 & H2 & -> & _ & H3).
    split_and!; [done..|lia|]. apply H3. lia.
Qed.

Lemma yield_heap_ops_witness :
  let l := [mkEntry 10 1 4; mkEntry 30 1 5; mkEntry 20 1 6; mkEntry 31 2 7] in
  pop l ≡ₚ [mkEntry 30 1 5; mkEntry 20 1 6; mkEntry 31 2 7] /\
  remove_by_conn l 5 = ([mkEntry 10 1 4; mkEntry 31 2 7; mkEntry 20 1 6], 1).
Proof.
  cbv zeta. split; [|reflexivity].
  destruct (yield_heap_ops [mkEntry 10 1 4; mkEntry 30 1 5; mkEntry 20 1 6; mkEntry 31 2 7]) as (H & _).
  - intros j Hj. cbn [length] in Hj. assert (j = 1 \/ j = 2 \/ j = 3)%nat as [-> | [-> | ->]] by lia; vm_compute; done.
  - destruct (H _ _ eq_refl) as (_ & _ & HP). by apply Permutation_cons_inv in HP.
Defined.

(** A connection with two entries can keep one of them after
    [remove_by_conn]: the tail entry moved into the first hole sifts up past the
    scan position and is not examined again. *)
Theorem remove_by_conn_misses :
  let l := [mkEntry 1 0 1; mkEntry 10 0 2; mkEntry 2 0 3; mkEntry 11 0 9; mkEntry 12 0 5; mkEntry 3 0 9] in
  heap_ok l /\ fst (remove_by_conn l 9) = [mkEntry 1 0 1; mkEntry 3 0 9; mkEntry 2 0 3; mkEntry 10 0 2; mkEntry 12 0 5].
Proof.
  cbv zeta. split; [|reflexivity]. intros j Hj. cbn [length] in Hj.
  assert (j = 1 \/ j = 2 \/ j = 3 \/ j = 4 \/ j = 5)%nat as [-> | [-> | [-> | [-> | ->]]]] by lia; vm_compute; done.
Qed.



(** A wait of [ms] milliseconds is put on the heap when there is room and
    taken off the wheel; with a full heap it goes to a wheel slot between 1 and
    63 seconds away that is not earlier than asked and less than a second late
    (one second for a wait of zero), and is refused exactly when it is longer than
    63 seconds. *)
Theorem schedule_yield_faithful (l : list Entry) (w : TimerWheel) (now gen : Z) (c : nat) (ms : Z) :
  0 <= ms < 4294967296 ->
  let '(l', w', choice) := schedule_yield_timer l w now gen c ms in
  match choice with
  | OnHeap d => push l (mkEntry d gen (Z.of_nat c)) = (l', true) /\ w' = wheel_remove w c /\ d = wrap 64 (now + ms * 1000000)
  | OnWheel s => kCap <= Z.of_nat (length l) /\ l' = l /\ w' = wheel_refresh w c s /\ 1 <= s <= 63 /\
      ms <= s * 1000 /\ (0 < ms -> s * 1000 < ms + 1000)
  | Refused => kCap <= Z.of_nat (length l) /\ l' = l /\ w' = wheel_remove w c /\ 63000 < ms
  end.
Proof.
  intros Hms. unfold schedule_yield_timer.
  destruct (push l _) as [l1 [|]] eqn:E; [done|]. unfold push in E.
  destruct (Z.leb_spec kCap (Z.of_nat (length l))) as [Hc|]; [|done]. injection E as <-.
  unfold timer_seconds_from_ms. pose proof (Z.div_mod (ms + 999) 1000 ltac:(lia)) as Hd.
  pose proof (Z.mod_pos_bound (ms + 999) 1000 ltac:(lia)) as Hm.
  destruct (Z.eqb_spec ms 0) as [->|Hms0]; [cbn; split_and!; done || lia|]. set (q := (ms + 999) / 1000) in *. cbv zeta.
  rewrite (Z.gtb_ltb q), (proj2 (Z.ltb_ge _ _)) by lia. rewrite Z.geb_leb.
  destruct (Z.leb_spec 64 q); [split_and!; done || lia|]. rewrite (proj2 (Z.eqb_neq q 0)) by lia.
  split_and!; done || lia.
Qed.

Lemma schedule_yield_faithful_witness :
  push [mkEntry 10 1 4] (mkEntry 1500000005 2 3) = ([mkEntry 10 1 4; mkEntry 1500000005 2 3], true).
Proof.
  exact (proj1 (schedule_yield_faithful [mkEntry 10 1 4] (wheel_init heap0) 5 2 3 1500 ltac:(lia))).
Defined.

(** after [rearm_yield_timerfd] the armed deadline is the earliest one of
    the heap, or zero when the heap is empty, and the timer was reprogrammed
    exactly when the armed deadline changed. *)
Theorem rearm_tracks_top (l : list Entry) (armed : Z) :
  heap_ok l ->
  let '(armed', programmed) := rearm l armed in
  (l = [] -> armed' = 0) /\
  (l <> [] -> (forall e, e ∈ l -> armed' <= deadline_ns e) /\ exists e, e ∈ l /\ deadline_ns e = armed') /\
  (programmed = if armed' =? armed then None else Some armed').
Proof.
  intros Hh. unfold rearm. destruct l as [|e l].
  - destruct (Z.eqb_spec armed 0) as [->|H0]; [done|]. rewrite (proj2 (Z.eqb_neq 0 armed)) by lia. done.
  - assert (forall x, x ∈ e :: l -> deadline_ns e <= deadline_ns x) as Hm by (intros x; by apply (heap_min (e :: l))).
    destruct (Z.eqb_spec (deadline_ns e) armed) as [<-|Hne]; rewrite ?Z.eqb_refl, ?(proj2 (Z.eqb_neq _ _) Hne);
      split_and!; try done; intros _; (split; [done|exists e; split; [left|done]]).
Qed.

Lemma rearm_tracks_top_witness :
  let '(armed', programmed) := rearm [mkEntry 10 1 4; mkEntry 30 1 5] 30 in
  (forall e, e ∈ [mkEntry 10 1 4; mkEntry 30 1 5] -> armed' <= deadline_ns e) /\ programmed = Some 10.
Proof.
  pose proof (rearm_tracks_top [mkEntry 10 1 4; mkEntry 30 1 5] 30) as H. cbn [rearm deadline_ns Z.eqb] in *.
  destruct H as (_ & H & Hp).
  - intros j Hj. cbn [length] in Hj. assert (j = 1)%nat as -> by lia. vm_compute. done.
  - split; [by apply H|done].
Defined.
