(* ===== verification/Lexer.v ===== *)
(** * Lexer of the .rut language

    Model of src/compiler/lexer.cc and include/rut/compiler/lexer.h: one step of
    the loop of [lex] per branch of its body, on an index into the source, and
    the loop around it with the token array of 512 entries.  Positions are
    naturals, so sources have to be shorter than 2^32 - 2 bytes, where [pos + 2]
    of the code does not wrap. *)

From S2P Require Import Prelude Scan.

(** ** Tokens *)

Inductive TokenType :=
  | Ident | StringLit | IntLit | FloatLit | DurLit
  | KwFunc | KwLet | KwVar | KwConst | KwGuard | KwCase | KwError | KwProtocol | KwImpl | KwVariant | KwStruct
  | KwRoute | KwMatch | KwIf | KwElse | KwFor | KwIn | KwReturn | KwUpstream | KwDownstream | KwListen | KwTls
  | KwDefaults | KwForward | KwWebsocket | KwImport | KwPackage | KwUsing | KwAs | KwWhere | KwFire | KwNotify
  | KwDefer | KwSubmit | KwWait | KwTimer | KwInit | KwShutdown | KwFirewall | KwThrottle | KwPer | KwAnd | KwOr
  | KwNot | KwNil | KwTrue | KwFalse
  | KwGet | KwPost | KwPut | KwDelete | KwPatch | KwHead | KwOptions
  | RegexLit
  | LParen | RParen | LBrace | RBrace | LBracket | RBracket | Colon | Comma | Dot | Arrow | ThinArrow | Eq | EqEq
  | BangEq | Lt | Gt | LtEq | GtEq | Plus | Minus | Star | Slash | Percent | Amp | Pipe | Caret | Tilde | Bang
  | Question | DoubleQuestion | At | DoubleStar | Underscore
  | Eof | TError.

#[global] Instance TokenType_eq_dec : EqDecision TokenType.
Proof. solve_decision. Defined.

Record Token := mkToken { type : TokenType; text : list Z; start : nat; end_ : nat; line : nat; col : nat }.

Definition kMaxTokens : nat := 512.

Inductive FrontendError :=
  | UnexpectedChar | UnterminatedString | InvalidInteger | UnexpectedToken | UnexpectedEof | TooManyTokens
  | TooManyItems | InvalidStatusCode | DuplicateUpstream | UnknownUpstream | OutOfMemory | InvalidRegex
  | UnsupportedSyntax.

Record Span := mkSpan { s_start : nat; s_end : nat; s_line : nat; s_col : nat }.
Record Diagnostic := mkDiagnostic { code : FrontendError; span : Span; detail : list Z }.

Definition token_span (t : Token) : Span := mkSpan (start t) (end_ t) (line t) (col t).

(** ** Character classes *)

Definition quote : Z := 34.

Definition is_space (c : Z) : bool := (c =? ch " ") || (c =? HT) || (c =? CR) || (c =? LF).
Definition is_digit (c : Z) : bool := (ch "0" <=? c) && (c <=? ch "9").
Definition is_ident_start (c : Z) : bool :=
  ((ch "a" <=? c) && (c <=? ch "z")) || ((ch "A" <=? c) && (c <=? ch "Z")) || (c =? ch "_").
Definition is_ident_continue (c : Z) : bool := is_ident_start c || is_digit c.

Definition keywords : list (string * TokenType) :=
  [("func", KwFunc); ("let", KwLet); ("const", KwConst); ("guard", KwGuard); ("case", KwCase); ("error", KwError);
   ("protocol", KwProtocol); ("impl", KwImpl); ("import", KwImport); ("package", KwPackage); ("using", KwUsing);
   ("as", KwAs); ("where", KwWhere); ("variant", KwVariant); ("struct", KwStruct); ("match", KwMatch); ("if", KwIf);
   ("else", KwElse); ("for", KwFor); ("in", KwIn); ("or", KwOr); ("nil", KwNil); ("upstream", KwUpstream);
   ("downstream", KwDownstream); ("route", KwRoute); ("return", KwReturn); ("forward", KwForward); ("wait", KwWait);
   ("true", KwTrue); ("false", KwFalse); ("GET", KwGet); ("get", KwGet); ("POST", KwPost); ("post", KwPost);
   ("PUT", KwPut); ("put", KwPut); ("DELETE", KwDelete); ("delete", KwDelete); ("PATCH", KwPatch);
   ("patch", KwPatch); ("HEAD", KwHead); ("head", KwHead); ("OPTIONS", KwOptions); ("options", KwOptions)]%string.

(** The chain of comparisons, in order. *)
Definition keyword_type (t : list Z) : TokenType :=
  match List.find (fun k => str_eq t (bs k.1)) keywords with
  | Some k => k.2
  | None => Ident
  end.

(** ** Scanning

    [src !! pos] is [pos < source.len] together with [source.ptr[pos]]. *)

Record Pos := mkPos { pos : nat; p_line : nat; p_col : nat }.

Inductive Step :=
  | Skipped (p : Pos)
  | Found (t : Token) (p : Pos)
  | Bad (d : Diagnostic).

Section source.
Context (src : list Z).

(** The body of a string or regex literal: the index of the closing quote, or
    the index where the literal is given up. *)
Fixpoint literal_loop (fuel i : nat) : nat + nat :=
  match fuel with
  | O => inr i
  | S fuel' =>
      match src !! i with
      | None => inr i
      | Some cur =>
          if cur =? quote then inl i
          else if cur =? ch "\" then
            match src !! S i with
            | None => inr i
            | Some _ => literal_loop fuel' (S (S i))
            end
          else if cur =? LF then inr i
          else literal_loop fuel' (S i)
      end
  end.
Definition scan_literal (i : nat) : nat + nat := literal_loop (S (length src - i)) i.

(** [Str::slice]. *)
Definition slice (i j : nat) : list Z := sub src i (j - i).

(** A token from [st] to [e], its text from [b] on. *)
Definition token_at (ty : TokenType) (s : Pos) (b e : nat) : Token :=
  mkToken ty (slice b e) b e (p_line s) (p_col s + (b - pos s)).

Definition advance (s : Pos) (e : nat) : Pos := mkPos e (p_line s) (p_col s + (e - pos s)).

Definition lex_space (c : Z) (s : Pos) : Step :=
  Skipped (if c =? LF then mkPos (S (pos s)) (S (p_line s)) 1 else mkPos (S (pos s)) (p_line s) (S (p_col s))).

Definition lex_comment (s : Pos) : Step :=
  Skipped (advance s (skip_while src (fun c => negb (c =? LF)) (pos s + 2))).

(** [re"..."] and ["..."]; [open] is the length of the opening. *)
Definition lex_literal (ty : TokenType) (open : nat) (s : Pos) : Step :=
  match scan_literal (pos s + open) with
  | inl e => Found (token_at ty s (pos s + open) e) (advance s (S e))
  | inr e => Bad (mkDiagnostic UnterminatedString (mkSpan (pos s) e (p_line s) (p_col s)) [])
  end.

Definition lex_word (s : Pos) : Step :=
  let e := skip_while src is_ident_continue (S (pos s)) in
  let t := slice (pos s) e in
  Found (token_at (if str_eq t [ch "_"] then Underscore else keyword_type t) s (pos s) e) (advance s e).

Definition is_boundary (after : nat) : bool :=
  match src !! after with Some c => negb (is_ident_continue c) | None => true end.

(** The end of the unit of a duration. *)
Definition unit_end (e : nat) : option nat :=
  if at_is src e (ch "m") && at_is src (S e) (ch "s") && is_boundary (e + 2) then Some (e + 2)%nat
  else if is_boundary (S e) && (at_is src e (ch "s") || at_is src e (ch "m") || at_is src e (ch "h")) then Some (S e)
  else None.

Definition lex_number (s : Pos) : Step :=
  let e := skip_while src is_digit (S (pos s)) in
  match unit_end e with
  | Some e' => Found (token_at DurLit s (pos s) e') (advance s e')
  | None => Found (token_at IntLit s (pos s) e) (advance s e)
  end.

Definition symbols : list (ascii * TokenType) :=
  [("{", LBrace); ("}", RBrace); ("(", LParen); (")", RParen); ("[", LBracket); ("]", RBracket); (",", Comma);
   (":", Colon); (".", Dot); ("<", Lt); (">", Gt); ("*", Star); ("|", Pipe); ("=", Eq); ("@", At)]%char.

Definition lex_symbol (c : Z) (s : Pos) : Step :=
  let e := S (pos s) in
  let two ty := Found (token_at ty s (pos s) (S e)) (advance s (S e)) in
  if (c =? ch "=") && at_is src e (ch "=") then two EqEq
  else if (c =? ch "=") && at_is src e (ch ">") then two Arrow
  else if (c =? ch "-") && at_is src e (ch ">") then two ThinArrow
  else match List.find (fun k => c =? ch k.1) symbols with
       | Some k => Found (token_at k.2 s (pos s) e) (advance s e)
       | None => let t := token_at Ident s (pos s) e in Bad (mkDiagnostic UnexpectedChar (token_span t) (text t))
       end.

(** One turn of the loop, at a byte [c] of the source. *)
Definition lex_step (c : Z) (s : Pos) : Step :=
  if is_space c then lex_space c s
  else if (c =? ch "/") && at_is src (S (pos s)) (ch "/") then lex_comment s
  else if (c =? ch "r") && at_is src (S (pos s)) (ch "e") && at_is src (pos s + 2) (quote) then lex_literal RegexLit 3 s
  else if is_ident_start c then lex_word s
  else if is_digit c then lex_number s
  else if c =? quote then lex_literal StringLit 1 s
  else lex_symbol c s.

(** [out.tokens.push(tok)] with its error. *)
Definition push (toks : list Token) (t : Token) : Diagnostic + list Token :=
  if Nat.leb kMaxTokens (length toks) then inl (mkDiagnostic TooManyTokens (token_span t) [])
  else inr (toks ++ [t]).

Fixpoint lex_loop (fuel : nat) (s : Pos) (out : list Token) : option (Diagnostic + list Token) :=
  match fuel with
  | O => None
  | S fuel' =>
      match src !! pos s with
      | None => Some (push out (mkToken Eof [] (length src) (length src) (p_line s) (p_col s)))
      | Some c =>
          match lex_step c s with
          | Skipped s' => lex_loop fuel' s' out
          | Bad d => Some (inl d)
          | Found t s' =>
              match push out t with
              | inl d => Some (inl d)
              | inr out' => lex_loop fuel' s' out'
              end
          end
      end
  end.

Definition lex : option (Diagnostic + list Token) := lex_loop (S (length src)) (mkPos 0 1 1) [].
End source.

(** ** The language of the tokens

    A token of the source is an opening, its text and a closing. *)

Inductive literal_body : list Z -> Prop :=
  | body_nil : literal_body []
  | body_char c l : c <> quote -> c <> ch "\" -> c <> LF -> literal_body l -> literal_body (c :: l)
  | body_escape c l : literal_body l -> literal_body (ch "\" :: c :: l).

Definition word_type (t : list Z) : TokenType := if str_eq t [ch "_"] then Underscore else keyword_type t.

Definition units : list (list Z) := [bs "ms"; bs "s"; bs "m"; bs "h"].

Definition pairs : list (list Z * TokenType) := [(bs "==", EqEq); (bs "=>", Arrow); (bs "->", ThinArrow)].

Inductive token_form : TokenType -> list Z -> list Z -> list Z -> Prop :=
  | form_word c w : is_ident_start c = true -> Forall (fun x => is_ident_continue x = true) w ->
      token_form (word_type (c :: w)) [] (c :: w) []
  | form_int c d : is_digit c = true -> Forall (fun x => is_digit x = true) d -> token_form IntLit [] (c :: d) []
  | form_dur c d u : is_digit c = true -> Forall (fun x => is_digit x = true) d -> u ∈ units ->
      token_form DurLit [] (c :: d ++ u) []
  | form_string b : literal_body b -> token_form StringLit [quote] b [quote]
  | form_regex b : literal_body b -> token_form RegexLit (bs "re" ++ [quote]) b [quote]
  | form_pair t ty : (t, ty) ∈ pairs -> token_form ty [] t []
  | form_symbol c ty : (c, ty) ∈ symbols -> token_form ty [] [ch c] [].

(** Blanks and comments in front of [r]. *)
Inductive trivia (r : list Z) : list Z -> Prop :=
  | trivia_nil : trivia r []
  | trivia_space c t : is_space c = true -> trivia r t -> trivia r (c :: t)
  | trivia_comment b t : Forall (fun x => x <> LF) b -> ends (fun x => negb (x =? LF)) (t ++ r) -> trivia r t ->
      trivia r (ch "/" :: ch "/" :: b ++ t).

(** A word or a number is never cut short. *)
Definition munch (x rest : list Z) : Prop :=
  (forall c w, x = c :: w -> is_ident_start c = true -> ends is_ident_continue rest) /\
  (forall c w, x = c :: w -> is_digit c = true -> ends is_digit rest).

(** From offset [i] on, the source is these tokens with blanks and comments
    between them, and nothing else. *)
Inductive layout (src : list Z) : nat -> list Token -> Prop :=
  | layout_end i t : trivia [] (drop i src) -> type t = Eof -> text t = [] -> start t = length src ->
      end_ t = length src -> layout src i [t]
  | layout_token i tr pre x post rest t ts :
      drop i src = tr ++ pre ++ x ++ post ++ rest -> trivia (pre ++ x ++ post ++ rest) tr ->
      token_form (type t) pre x post -> (pre = [] -> munch x rest) -> text t = x ->
      start t = (i + length tr + length pre)%nat -> end_ t = (start t + length x)%nat ->
      layout src (i + length (tr ++ pre ++ x ++ post))%nat ts -> layout src i (t :: ts).

(** ** Scanning lemmas *)

Section scanning.
Context (src : list Z).

Lemma slice_eq i a b : drop i src = a ++ b -> slice src i (i + length a) = a.
Proof. intros H. unfold slice, sub. rewrite H. replace (_ - i)%nat with (length a) by lia. apply take_app_length. Qed.

Lemma literal_loop_eq fuel i b r :
  literal_body b -> drop i src = b ++ quote :: r -> (length b < fuel)%nat ->
  literal_loop src fuel i = inl (i + length b)%nat.
Proof.
  intros Hb. revert fuel i. induction Hb as [|c l Hq Hs Hl _ IH|c l _ IH]; intros [|fuel] i Hd Hf;
    try (cbn in Hf; lia); cbn [literal_loop]; rewrite (drop_at0 src i _ Hd); cbn [app head].
  - cbn. f_equal. lia.
  - rewrite (proj2 (Z.eqb_neq _ _) Hq), (proj2 (Z.eqb_neq _ _) Hs), (proj2 (Z.eqb_neq _ _) Hl).
    rewrite IH; [cbn; f_equal; lia | | cbn in Hf; lia].
    replace (S i) with (i + length [c])%nat by (cbn; lia). by apply drop_further.
  - cbn [Z.eqb]. change (ch "\" =? quote) with false. change (ch "\" =? ch "\") with true. cbv iota.
    replace (S i) with (i + 1)%nat at 1 by lia. rewrite (drop_at src i _ 1 Hd). cbn [app lookup list_lookup].
    rewrite IH; [cbn; f_equal; lia | | cbn in Hf; lia].
    replace (S (S i)) with (i + length [ch "\"; c])%nat by (cbn; lia). by apply drop_further.
Qed.

Lemma scan_literal_eq i b r :
  literal_body b -> drop i src = b ++ quote :: r -> scan_literal src i = inl (i + length b)%nat.
Proof.
  intros Hb Hd. apply (literal_loop_eq _ i b r Hb Hd). rewrite <- length_drop, Hd, length_app. lia.
Qed.

Lemma literal_loop_inl fuel i e :
  literal_loop src fuel i = inl e ->
  exists b r, drop i src = b ++ quote :: r /\ literal_body b /\ e = (i + length b)%nat.
Proof.
  revert i. induction fuel as [|fuel IH]; intros i; cbn [literal_loop]; [done|].
  destruct (src !! i) as [c|] eqn:Hc; [|done]. pose proof (drop_S src c i Hc) as Hd.
  destruct (Z.eqb_spec c quote) as [->|Hq].
  { intros [= <-]. exists [], (drop (S i) src). split_and!; [done | constructor | cbn; lia]. }
  destruct (Z.eqb_spec c (ch "\")) as [->|Hs].
  - destruct (src !! S i) as [c'|] eqn:Hc'; [|done]. intros (b & r & Hd' & Hb & ->)%IH. exists (ch "\" :: c' :: b), r.
    rewrite Hd, (drop_S src c' (S i) Hc'), Hd'. split_and!; [done | by constructor | cbn; lia].
  - destruct (Z.eqb_spec c LF) as [->|Hl]; [done|]. intros (b & r & Hd' & Hb & ->)%IH. exists (c :: b), r.
    rewrite Hd, Hd'. split_and!; [done | by constructor | cbn; lia].
Qed.

Lemma literal_loop_inr fuel i e :
  literal_loop src fuel i = inr e -> (i <= length src)%nat -> (i <= e <= length src)%nat.
Proof.
  revert i. induction fuel as [|fuel IH]; intros i; cbn [literal_loop]; [intros [= <-]; lia|].
  destruct (src !! i) as [c|] eqn:Hc; [|intros [= <-]; lia]. apply lookup_lt_Some in Hc.
  destruct (c =? quote); [done|]. destruct (c =? ch "\").
  - destruct (src !! S i) as [c'|] eqn:Hc'; [|intros [= <-]; lia]. apply lookup_lt_Some in Hc'.
    intros H%IH; lia.
  - destruct (c =? LF); [intros [= <-]; lia|]. intros H%IH; lia.
Qed.
End scanning.

(** ** One step *)

Section steps.
Context (src : list Z).

(** A token of the grammar is found at [s]; [s'] is behind it. *)
Definition found (s : Pos) (t : Token) (s' : Pos) : Prop :=
  exists pre x post rest, drop (pos s) src = pre ++ x ++ post ++ rest /\ token_form (type t) pre x post /\
    (pre = [] -> munch x rest) /\ text t = x /\ start t = (pos s + length pre)%nat /\
    end_ t = (start t + length x)%nat /\ line t = p_line s /\ col t = (p_col s + length pre)%nat /\
    s' = advance s (pos s + length (pre ++ x ++ post)) /\ (0 < length (pre ++ x ++ post))%nat.

Lemma token_at_found ty s pre x post rest :
  drop (pos s) src = pre ++ x ++ post ++ rest -> token_form ty pre x post -> (pre = [] -> munch x rest) ->
  (0 < length (pre ++ x ++ post))%nat ->
  found s (token_at src ty s (pos s + length pre) (pos s + length pre + length x))
    (advance s (pos s + length (pre ++ x ++ post))).
Proof.
  intros Hd Hf Hm Hl. exists pre, x, post, rest. cbn. split_and!; try done; [|f_equal; lia].
  apply (slice_eq src _ _ (post ++ rest)). by apply drop_further.
Qed.

(** The same for a token without quotes. *)
Lemma plain_found ty s x rest :
  drop (pos s) src = x ++ rest -> token_form ty [] x [] -> munch x rest -> x <> [] ->
  found s (token_at src ty s (pos s) (pos s + length x)) (advance s (pos s + length x)).
Proof.
  intros Hd Hf Hm Hne. pose proof (token_at_found ty s [] x [] rest Hd Hf (fun _ => Hm)) as H.
  cbn [length app] in H. rewrite app_nil_r, Nat.add_0_r in H. apply H. destruct x; [done | cbn; lia].
Qed.

Lemma digit_not_start c : is_digit c = true -> is_ident_start c = false.
Proof. unfold is_digit, is_ident_start. intros. zify_bool. change (ch "0") with 48 in *. change (ch "9") with 57 in *.
  change (ch "a") with 97. change (ch "z") with 122. change (ch "A") with 65. change (ch "Z") with 90. change (ch "_") with 95.
  destruct (97 <=? c) eqn:?, (c <=? 122) eqn:?, (65 <=? c) eqn:?, (c <=? 90) eqn:?, (c =? 95) eqn:?; zify_bool; cbn; try done; lia.
Qed.

Lemma ends_digit r : ends is_ident_continue r -> ends is_digit r.
Proof. destruct r as [|c r]; [done|]. cbn. unfold is_ident_continue. intros H. by apply orb_false_iff in H as [_ ?]. Qed.

Lemma lex_word_found c l s t s' :
  drop (pos s) src = c :: l -> is_ident_start c = true -> lex_word src s = Found t s' -> found s t s'.
Proof.
  intros Hd Hc. unfold lex_word. destruct (split_while is_ident_continue l) as (w & r & -> & Hw & Hr).
  rewrite (skip_while_eq src _ _ w r (drop_cons src _ _ _ Hd) Hw Hr).
  replace (S (pos s) + length w)%nat with (pos s + length (c :: w))%nat by (cbn; lia).
  rewrite (slice_eq src (pos s) (c :: w) r) by done. intros [= <- <-]. apply (plain_found _ s (c :: w) r); [done | | | done].
  - by apply (form_word c w).
  - split; intros c' w' [= <- <-]; [done|]. intros H. by apply ends_digit.
Qed.

Lemma boundary_drop i l k : drop i src = l -> is_boundary src (i + k) = true -> ends is_ident_continue (drop k l).
Proof.
  intros H. unfold is_boundary. rewrite (drop_at src i l k H). destruct (l !! k) as [x|] eqn:E.
  - rewrite (drop_S l x k E). cbn. by intros ?%negb_true_iff.
  - rewrite drop_ge; [done|]. by apply lookup_ge_None.
Qed.

(** A unit that is found is one of the units, at a boundary. *)
Lemma unit_end_found e l e' :
  drop e src = l -> unit_end src e = Some e' ->
  exists u r, l = u ++ r /\ u ∈ units /\ e' = (e + length u)%nat /\ ends is_ident_continue r.
Proof.
  intros Hl. unfold unit_end.
  rewrite <- (Nat.add_1_r e). replace (at_is src e) with (at_is src (e + 0)) by (by rewrite Nat.add_0_r).
  rewrite !(at_is_drop src e l) by done. case_if.
  { intros [= <-]. zify_bool. destruct l as [|c1 [|c2 r]]; cbn in *; try done. zify_bool. subst.
    exists (bs "ms"), r. split_and!; [done | set_solver | done | by apply (boundary_drop e (ch "m" :: ch "s" :: r) 2)]. }
  clear E. case_if; [|done]. intros [= <-]. zify_bool. destruct l as [|c r]; [cbn in *; by intuition|].
  pose proof (boundary_drop e (c :: r) 1 Hl H) as Hb. cbn in H0, Hb. exists [c], r. split_and!; try done.
  rewrite !orb_true_iff, !Z.eqb_eq in H0. destruct H0 as [[->| ->]| ->]; unfold units; set_solver.
Qed.

Lemma lex_number_found c l s t s' :
  drop (pos s) src = c :: l -> is_digit c = true -> lex_number src s = Found t s' -> found s t s'.
Proof.
  intros Hd Hc. unfold lex_number. destruct (split_while is_digit l) as (d & r & -> & Hw & Hr).
  rewrite (skip_while_eq src _ _ d r (drop_cons src _ _ _ Hd) Hw Hr).
  replace (S (pos s) + length d)%nat with (pos s + length (c :: d))%nat by (cbn; lia).
  assert (drop (pos s + length (c :: d)) src = r) as Hr' by (by apply drop_further).
  destruct (unit_end src _) as [e|] eqn:He; intros [= <- <-].
  - destruct (unit_end_found _ r e Hr' He) as (u & r' & -> & Hu & -> & Hb). rewrite <- Nat.add_assoc, <- length_app.
    cbn [app]. rewrite app_comm_cons, app_assoc in Hd.
    apply (plain_found _ s (c :: d ++ u) r'); [done | by apply form_dur | | done].
    split; intros c' w' [= <- <-]; [done|]. intros _. by apply ends_digit.
  - apply (plain_found _ s (c :: d) r); [done | by apply form_int | | done].
    split; intros c' w' [= <- <-]; [|done]. rewrite (digit_not_start c Hc). done.
Qed.
Lemma lex_literal_found ty pre l s t s' :
  drop (pos s) src = pre ++ l -> pre <> [] ->
  (forall b, literal_body b -> token_form ty pre b [quote]) ->
  lex_literal src ty (length pre) s = Found t s' -> found s t s'.
Proof.
  intros Hd Hne Hf. unfold lex_literal. destruct (scan_literal src _) as [e|e] eqn:He; [|done]. intros [= <- <-].
  apply literal_loop_inl in He as (b & r & Hd' & Hb & ->). rewrite (drop_further src _ _ _ Hd) in Hd'. subst l.
  pose proof (token_at_found ty s pre b [quote] r Hd (Hf b Hb)) as H.
  replace (S (pos s + length pre + length b)) with (pos s + length (pre ++ b ++ [quote]))%nat
    by (rewrite !length_app; cbn; lia).
  apply H; [done|]. destruct pre; [done | cbn; lia].
Qed.

Lemma symbol_not_word c ty : (c, ty) ∈ symbols -> is_ident_start (ch c) = false /\ is_digit (ch c) = false.
Proof.
  intros H. cut (forallb (fun k : ascii * TokenType => negb (is_ident_start (ch k.1)) && negb (is_digit (ch k.1))) symbols = true).
  - rewrite forallb_forall. intros Hall. apply list_elem_of_In, Hall in H. cbn in H. by zify_bool.
  - vm_compute. reflexivity.
Qed.

Lemma lex_symbol_found c l s t s' :
  drop (pos s) src = c :: l -> lex_symbol src c s = Found t s' -> found s t s'.
Proof.
  intros Hd. unfold lex_symbol. rewrite <- (Nat.add_1_r (pos s)), !(at_is_drop src (pos s) (c :: l)) by done. cbn [lookup list_lookup].
  assert (forall a b ty, (bs (String a (String b EmptyString)), ty) ∈ pairs -> c = ch a -> head l = Some (ch b) ->
    is_ident_start c = false -> is_digit c = false ->
    found s (token_at src ty s (pos s) (S (pos s + 1))) (advance s (S (pos s + 1)))) as Hpair.
  { intros a b ty Hin -> Hh H1 H2. destruct l as [|c' r]; [done|]. injection Hh as ->.
    replace (S (pos s + 1)) with (pos s + length (bs (String a (String b EmptyString))))%nat by (cbn; lia).
    apply (plain_found ty s _ r); [done | by apply form_pair | | done].
    split; intros ? ? [= <- <-]; congruence. }
  assert (forall y, (match l !! 0%nat with Some x => x =? y | None => false end) = true -> head l = Some y) as Hhead.
  { intros y. destruct l; [done|]. cbn. intros H. zify_bool. by subst. }
  cbn [lookup list_lookup] in Hhead.
  case_if; [zify_bool; intros [= <- <-]; apply (Hpair "=" "=" EqEq)%char; subst; auto; unfold pairs; set_solver|].
  case_if; [zify_bool; intros [= <- <-]; apply (Hpair "=" ">" Arrow)%char; subst; auto; unfold pairs; set_solver|].
  case_if; [zify_bool; intros [= <- <-]; apply (Hpair "-" ">" ThinArrow)%char; subst; auto; unfold pairs; set_solver|].
  destruct (List.find _ symbols) as [[a ty]|] eqn:Hf; [|done]. intros [= <- <-]. apply find_some in Hf as [Hin Hc].
  cbn in Hc. zify_bool. subst c. apply list_elem_of_In in Hin. destruct (symbol_not_word a ty Hin) as [H1 H2].
  apply (plain_found ty s [ch a] l); [done | by apply form_symbol | | done].
  split; intros ? ? [= <- <-]; congruence.
Qed.

(** What a step finds, skips and refuses. *)
Lemma lex_step_found c l s t s' :
  drop (pos s) src = c :: l -> lex_step src c s = Found t s' -> found s t s'.
Proof.
  intros Hd. unfold lex_step. rewrite <- (Nat.add_1_r (pos s)), !(at_is_drop src (pos s) (c :: l)) by done.
  case_if; [done|]. case_if; [done|]. case_if.
  { zify_bool. destruct l as [|c1 [|c2 r]]; cbn in *; try done. zify_bool. subst.
    apply (lex_literal_found RegexLit (bs "re" ++ [quote]) r); [done | done | by apply form_regex]. }
  case_if; [by apply (lex_word_found c l)|]. case_if; [by apply (lex_number_found c l)|]. case_if.
  { zify_bool. subst. apply (lex_literal_found StringLit [quote] l); [done | done | by apply form_string]. }
  by apply (lex_symbol_found c l).
Qed.

Lemma lex_step_skipped c l s s' :
  drop (pos s) src = c :: l -> lex_step src c s = Skipped s' ->
  is_space c = true /\ s' = (if c =? LF then mkPos (S (pos s)) (S (p_line s)) 1 else advance s (S (pos s))) \/
  exists b r, c :: l = ch "/" :: ch "/" :: b ++ r /\ Forall (fun x => x <> LF) b /\
    ends (fun x => negb (x =? LF)) r /\ s' = advance s (pos s + 2 + length b).
Proof.
  intros Hd. unfold lex_step. rewrite <- (Nat.add_1_r (pos s)), !(at_is_drop src (pos s) (c :: l)) by done.
  case_if.
  { intros [= <-]. left. split; [done|]. case_if; [f_equal; lia|]. unfold advance. f_equal; lia. }
  case_if.
  { intros [= <-]. right. zify_bool. destruct l as [|c1 l]; cbn in *; [done|]. zify_bool. subst.
    destruct (split_while (fun x => negb (x =? LF)) l) as (b & r & -> & Hb & Hr). exists b, r.
    split_and!; [done | | done |].
    - eapply Forall_impl; [exact Hb|]. cbn. intros x Hx. by zify_bool.
    - f_equal. apply (skip_while_eq src _ _ b r); [|done|done].
      apply (drop_further src (pos s) [ch "/"; ch "/"] (b ++ r)). done. }
  intros H. exfalso. unfold lex_literal, lex_word, lex_number, lex_symbol in H.
  repeat (case_if_in H; [|]); repeat match type of H with context [match ?x with _ => _ end] => destruct x end; done.
Qed.

Lemma lex_step_bad c s d :
  src !! pos s = Some c -> lex_step src c s = Bad d ->
  (s_start (span d) <= s_end (span d) <= length src)%nat /\ (code d = UnexpectedChar \/ code d = UnterminatedString).
Proof.
  intros Hc%lookup_lt_Some.
  assert (forall ty k, (pos s + k <= length src)%nat -> lex_literal src ty k s = Bad d ->
    (s_start (span d) <= s_end (span d) <= length src)%nat /\ (code d = UnexpectedChar \/ code d = UnterminatedString)) as Hlit.
  { intros ty k Hk. unfold lex_literal. destruct (scan_literal src _) as [e|e] eqn:He; [done|]. intros [= <-]. cbn.
    apply literal_loop_inr in He; [|done]. split; [lia | by right]. }
  unfold lex_step. case_if; [done|]. case_if; [done|]. case_if.
  { apply Hlit. zify_bool. unfold at_is in *. destruct (src !! (pos s + 2)%nat) eqn:E2; [|done].
    apply lookup_lt_Some in E2. lia. }
  case_if; [done|]. case_if; [unfold lex_number; by destruct (unit_end src _)|]. case_if; [apply Hlit; lia|].
  unfold lex_symbol. repeat (case_if; [done|]). destruct (List.find _ _); [done|]. intros [= <-]. cbn. split; [lia | by left].
Qed.
End steps.

(** ** Lines and columns *)

(** Line and column behind a text, from the definition of a line. *)
Definition position (l : list Z) : nat * nat :=
  foldl (fun lc c => if c =? LF then (S lc.1, 1%nat) else (lc.1, S lc.2)) (1%nat, 1%nat) l.

(** A backslash in front of a line feed, somewhere. *)
Fixpoint escaped_newline (l : list Z) : bool :=
  match l with
  | a :: (b :: _) as l' => ((a =? ch "\") && (b =? LF)) || escaped_newline l'
  | _ => false
  end.

Definition no_lf (l : list Z) : Prop := Forall (fun x => x <> LF) l.

Lemma position_app l m : no_lf m -> position (l ++ m) = ((position l).1, ((position l).2 + length m)%nat).
Proof.
  intros Hm. unfold position. rewrite foldl_app. generalize (foldl (fun lc c => if c =? LF then (S lc.1, 1%nat) else (lc.1, S lc.2)) (1%nat, 1%nat) l).
  induction Hm as [|c m Hc _ IH]; intros [ln cl]; cbn; [f_equal; lia|].
  rewrite (proj2 (Z.eqb_neq _ _) Hc), IH. cbn. f_equal. lia.
Qed.

Lemma escaped_app_r a b : escaped_newline (a ++ b) = false -> escaped_newline b = false.
Proof.
  induction a as [|c a IH]; [done|]. cbn. destruct (a ++ b) as [|c' l] eqn:E; [|intros [_ H]%orb_false_iff; auto].
  apply app_nil in E as [-> ->]. done.
Qed.

Lemma body_no_lf b r : literal_body b -> escaped_newline (b ++ r) = false -> no_lf b.
Proof.
  induction 1 as [|c l _ _ Hl _ IH|c l _ IH]; intros He; [constructor | |].
  - constructor; [done|]. apply IH. by apply (escaped_app_r [c]).
  - constructor; [done|]. constructor; [|apply IH; by apply (escaped_app_r [ch "\"; c])].
    cbn in He. apply orb_false_iff in He as [He _]. change (ch "\" =? ch "\") with true in He. cbn in He. by zify_bool.
Qed.

Lemma class_no_lf (p : Z -> bool) l : p LF = false -> Forall (fun x => p x = true) l -> no_lf l.
Proof. intros Hp Hl. eapply Forall_impl; [exact Hl|]. intros x Hx ->. congruence. Qed.

Lemma listed_no_lf (ls : list (list Z)) l :
  forallb (forallb (fun x => negb (x =? LF))) ls = true -> l ∈ ls -> no_lf l.
Proof.
  rewrite forallb_forall. intros H Hl%list_elem_of_In%H. rewrite forallb_forall in Hl. apply Forall_forall.
  intros x Hx%list_elem_of_In%Hl. by zify_bool.
Qed.

Lemma form_no_lf ty pre x post rest :
  token_form ty pre x post -> escaped_newline (pre ++ x ++ post ++ rest) = false -> no_lf (pre ++ x ++ post).
Proof.
  assert (forall c, is_digit c = true -> c <> LF) as Hdig by (by intros c Hc ->).
  intros Hf He. unfold no_lf. destruct Hf; rewrite ?app_nil_r; cbn [app] in *.
  - constructor; [by intros ->|]. by apply (class_no_lf is_ident_continue).
  - constructor; [by apply Hdig|]. by apply (class_no_lf is_digit).
  - constructor; [by apply Hdig|]. apply Forall_app. split; [by apply (class_no_lf is_digit)|].
    by apply (listed_no_lf units).
  - constructor; [done|]. apply Forall_app. split; [|by repeat constructor].
    apply (body_no_lf b (quote :: rest)); [done|]. by apply (escaped_app_r [quote]).
  - do 3 (constructor; [done|]). apply Forall_app. split; [|by repeat constructor].
    apply (body_no_lf b (quote :: rest)); [done|]. by apply (escaped_app_r (bs "re" ++ [quote])).
  - apply (listed_no_lf (pairs.*1)); [done|]. apply list_elem_of_fmap. by exists (t, ty).
  - apply (listed_no_lf ((fun k : ascii * TokenType => [ch k.1]) <$> symbols)); [done|].
    apply list_elem_of_fmap. by exists (c, ty).
Qed.

(** ** The loop *)

Section loop.
Context (src : list Z).

(** Blanks and comments in front of a layout belong to it. *)
Lemma layout_skip i tr rest ts :
  drop i src = tr ++ rest -> (forall t r, rest = t ++ r -> trivia r t -> trivia r (tr ++ t)) ->
  layout src (i + length tr) ts -> layout src i ts.
Proof.
  intros Hd Htr Hl. inversion Hl as [? t H1 H2 H3 H4 H5|? tr' pre x post r t ts' Hd' H1 H2 H3 H4 H5 H6 Hl']; subst;
    rewrite (drop_further src i tr rest Hd) in *.
  - apply layout_end; try done. rewrite Hd, <- (app_nil_r rest) at 1. rewrite (app_assoc tr rest []), app_nil_r.
    by apply Htr; rewrite ?app_nil_r.
  - apply (layout_token src i (tr ++ tr') pre (text t) post r); try done.
    + by rewrite Hd, Hd', <- app_assoc.
    + by apply Htr.
    + rewrite H5, length_app. lia.
    + by rewrite <- app_assoc, length_app, Nat.add_assoc.
Qed.

Lemma skipped_spec c l s s' ts :
  drop (pos s) src = c :: l -> lex_step src c s = Skipped s' ->
  (pos s < pos s' <= length src)%nat /\ (layout src (pos s') ts -> layout src (pos s) ts) /\
  ((p_line s, p_col s) = position (take (pos s) src) -> (p_line s', p_col s') = position (take (pos s') src)).
Proof.
  intros Hd Hs. pose proof (drop_length_eq src (pos s) (c :: l) Hd ltac:(done)) as Hlen.
  destruct (lex_step_skipped src c l s s' Hd Hs) as [[Hc ->]|(b & r & E & Hb & Hr & ->)].
  - assert (pos (if c =? LF then mkPos (S (pos s)) (S (p_line s)) 1 else advance s (S (pos s))) = (pos s + length [c])%nat) as ->
      by (destruct (c =? LF); cbn; lia).
    split; [cbn in *; lia|]. split.
    + apply (layout_skip _ [c] l); [done|]. intros t r -> Ht. by apply trivia_space.
    + intros Hp. rewrite (take_further src (pos s) [c] l) by done. destruct (Z.eqb_spec c LF) as [->|Hne].
      * unfold position in *. rewrite foldl_app, <- Hp. done.
      * rewrite position_app, <- Hp by (by constructor). cbn. f_equal. lia.
  - rewrite E in Hd. replace (pos (advance s _)) with (pos s + length (ch "/" :: ch "/" :: b))%nat by (cbn; lia).
    rewrite E in Hlen. cbn [app length] in Hlen. rewrite length_app in Hlen. split; [cbn; lia|]. split.
    + apply (layout_skip _ (ch "/" :: ch "/" :: b) r); [done|]. intros t r' -> Ht. by apply trivia_comment.
    + intros Hp. rewrite (take_further src (pos s) (ch "/" :: ch "/" :: b) r), position_app, <- Hp; [|by do 2 (constructor; [done|]) | done].
      cbn. f_equal. lia.
Qed.

Lemma found_spec s t s' ts :
  found src s t s' ->
  (pos s < pos s' <= length src)%nat /\ (start t <= end_ t <= length src)%nat /\
  (layout src (pos s') ts -> layout src (pos s) (t :: ts)) /\
  (escaped_newline src = false -> (p_line s, p_col s) = position (take (pos s) src) ->
   (line t, col t) = position (take (start t) src) /\ (p_line s', p_col s') = position (take (pos s') src)).
Proof.
  intros (pre & x & post & rest & Hd & Hf & Hm & Hx & Hst & He & Hln & Hcl & -> & Hlen).
  assert (pos s + length (pre ++ x ++ post ++ rest) = length src)%nat as Hall.
  { apply drop_length_eq; [done|]. intros E. apply app_nil in E as [-> E]. apply app_nil in E as [-> E].
    apply app_nil in E as [-> _]. cbn in Hlen. lia. }
  rewrite !length_app in *. cbn [pos advance]. split; [lia|]. split; [lia|]. split.
  - intros Hl. apply (layout_token src (pos s) [] pre x post rest); try done; [constructor | cbn; lia |].
    cbn [app]. by rewrite !length_app.
  - intros Hesc Hp. assert (no_lf (pre ++ x ++ post)) as Hno.
    { apply (form_no_lf (type t) pre x post rest Hf). apply (escaped_app_r (take (pos s) src)). by rewrite <- Hd, take_drop. }
    split.
    + rewrite Hst, (take_further src (pos s) pre (x ++ post ++ rest)), position_app, <- Hp by (done || by apply Forall_app in Hno as [? _]).
      cbn. congruence.
    + replace (pos s + _)%nat with (pos s + length (pre ++ x ++ post))%nat by (rewrite !length_app; lia).
      rewrite (take_further src (pos s) (pre ++ x ++ post) rest) by (by rewrite <- !app_assoc).
      rewrite position_app, <- Hp by done. cbn. f_equal. rewrite !length_app. lia.
Qed.

Definition lex_errors : list FrontendError := [UnexpectedChar; UnterminatedString; TooManyTokens].

Definition lexed (s : Pos) (out : list Token) (r : Diagnostic + list Token) : Prop :=
  match r with
  | inl d => (s_start (span d) <= s_end (span d) <= length src)%nat /\ code d ∈ lex_errors
  | inr ts => (length ts <= kMaxTokens)%nat /\ exists ts', ts = out ++ ts' /\ layout src (pos s) ts' /\
      (escaped_newline src = false -> (p_line s, p_col s) = position (take (pos s) src) ->
       Forall (fun t => (line t, col t) = position (take (start t) src)) ts')
  end.

Lemma push_token_spec out t r :
  push out t = r ->
  (r = inl (mkDiagnostic TooManyTokens (token_span t) []) /\ (kMaxTokens <= length out)%nat) \/
  (r = inr (out ++ [t]) /\ (length out < kMaxTokens)%nat).
Proof. unfold push. case_if; zify_bool; intros <-; auto. Qed.

(** One unit of fuel per byte and one for the end are enough. *)
Lemma lex_loop_spec fuel s out :
  (pos s <= length src)%nat -> (length src - pos s < fuel)%nat ->
  exists r, lex_loop src fuel s out = Some r /\ lexed s out r.
Proof.
  revert s out. induction fuel as [|fuel IH]; intros s out Hp Hf; [lia|]. cbn [lex_loop].
  destruct (src !! pos s) as [c|] eqn:Hc.
  - pose proof (drop_S src c (pos s) Hc) as Hd. destruct (lex_step src c s) as [s'|t s'|d] eqn:Hs.
    + destruct (skipped_spec c _ s s' [] Hd Hs) as (Hlt & _).
      destruct (IH s' out) as (r & Hr & Hl); [lia..|]. exists r. split; [done|]. destruct r as [d|ts]; [done|].
      destruct Hl as (Hlen & ts' & -> & Hlay & Hpos). split; [done|]. exists ts'.
      destruct (skipped_spec c _ s s' ts' Hd Hs) as (_ & Hlay' & Hpos'). split_and!; auto.
    + pose proof (lex_step_found src c _ s t s' Hd Hs) as Hfound.
      destruct (found_spec s t s' [] Hfound) as (Hlt & Hspan & _).
      destruct (push_token_spec out t _ eq_refl) as [[-> _]|[-> Hroom]].
      { eexists. split; [done|]. split; [done|]. unfold lex_errors. set_solver. }
      destruct (IH s' (out ++ [t])) as (r & Hr & Hl); [lia..|]. exists r. split; [done|]. destruct r as [d|ts]; [done|].
      destruct Hl as (Hlen & ts' & -> & Hlay & Hpos). split; [done|]. exists (t :: ts').
      destruct (found_spec s t s' ts' Hfound) as (_ & _ & Hlay' & Hpos').
      split_and!; [by rewrite <- app_assoc | auto |]. intros He Hp'. destruct (Hpos' He Hp'). constructor; auto.
    + eexists. split; [done|]. destruct (lex_step_bad src c s d Hc Hs) as [? Hcode]. split; [done|].
      unfold lex_errors. destruct Hcode as [-> | ->]; set_solver.
  - apply lookup_ge_None in Hc. assert (pos s = length src) as Heq by lia. eexists. split; [done|].
    destruct (push_token_spec out (mkToken Eof [] (length src) (length src) (p_line s) (p_col s)) _ eq_refl) as [[-> _]|[-> Hroom]].
    { cbn. split; [lia|]. unfold lex_errors. set_solver. }
    cbn. split; [rewrite length_app; cbn; lia|]. eexists. split; [done|]. split.
    { apply layout_end; try done. rewrite Heq, drop_all. constructor. }
    intros _ Hp'. constructor; [|done]. cbn. by rewrite <- Heq.
Qed.

(** ** Properties *)


(** Lines and columns are right.  In a source without a backslash in front
    of a line feed, the line and the column of every token are those of the place
    where its text starts. *)
Theorem token_positions ts :
  escaped_newline src = false -> lex src = Some (inr ts) ->
  Forall (fun t => (line t, col t) = position (take (start t) src)) ts.
Proof.
  intros He Hts. destruct (lex_loop_spec (S (length src)) (mkPos 0 1 1) []) as (r & Hr & Hl); [cbn; lia..|].
  unfold lex in Hts. rewrite Hr in Hts. injection Hts as ->. destruct Hl as (_ & ts' & -> & _ & Hpos). by apply Hpos.
Qed.
End loop.

(** ** Printing *)

Definition spell (k : TokenType * list Z) : list Z :=
  match k.1 with
  | StringLit => quote :: k.2 ++ [quote]
  | RegexLit => bs "re" ++ quote :: k.2 ++ [quote]
  | _ => k.2
  end.

Definition print (ks : list (TokenType * list Z)) : list Z := mjoin ((fun k => spell k ++ [SP]) <$> ks).

Definition kind (t : Token) : TokenType * list Z := (type t, text t).

Definition well_spelled (k : TokenType * list Z) : Prop := exists pre post, token_form k.1 pre k.2 post.

Lemma keyword_not_literal t : keyword_type t <> StringLit /\ keyword_type t <> RegexLit.
Proof.
  unfold keyword_type. destruct (List.find _ keywords) as [k|] eqn:E; [|done]. apply find_some in E as [E _].
  cut (Forall (fun k => k.2 <> StringLit /\ k.2 <> RegexLit) keywords).
  - rewrite Forall_forall. intros H. apply H. by apply list_elem_of_In.
  - by repeat constructor.
Qed.

Lemma spell_form ty pre x post : token_form ty pre x post -> spell (ty, x) = pre ++ x ++ post.
Proof.
  assert (forall ty, ty <> StringLit /\ ty <> RegexLit -> spell (ty, x) = x) as Hplain by (by intros [] []).
  intros Hf. destruct Hf; try (rewrite app_nil_r; apply Hplain); try done.
  - unfold word_type. case_if; [done | apply keyword_not_literal].
  - unfold pairs in H. rewrite !elem_of_cons, elem_of_nil in H. by destruct H as [[= _ ->]|[[= _ ->]|[[= _ ->]|[]]]].
  - apply list_elem_of_In in H. cbn in H. by decompose [or] H; simplify_eq.
Qed.

Lemma form_nonempty ty pre x post : token_form ty pre x post -> (0 < length (pre ++ x ++ post))%nat.
Proof.
  intros Hf. destruct Hf; cbn; try lia. unfold pairs in H. rewrite !elem_of_cons, elem_of_nil in H.
  destruct H as [[= -> _]|[[= -> _]|[[= -> _]|[]]]]; cbn; lia.
Qed.

Section relex.
Context (src : list Z).

Definition finds (s : Pos) (ty : TokenType) (x raw : list Z) (st : Step) : Prop :=
  exists t s', st = Found t s' /\ kind t = (ty, x) /\ pos s' = (pos s + length raw)%nat.

Lemma lex_word_finds c w r s :
  drop (pos s) src = c :: w ++ SP :: r -> Forall (fun x => is_ident_continue x = true) w ->
  finds s (word_type (c :: w)) (c :: w) (c :: w) (lex_word src s).
Proof.
  intros Hd Hw. unfold lex_word. rewrite (skip_while_eq src _ _ w (SP :: r) (drop_cons src _ _ _ Hd) Hw) by done.
  replace (S (pos s) + length w)%nat with (pos s + length (c :: w))%nat by (cbn; lia).
  rewrite (slice_eq src (pos s) (c :: w) (SP :: r)) by done.
  eexists _, _. split; [done|]. unfold kind. cbn [type text token_at]. by rewrite (slice_eq src (pos s) (c :: w) (SP :: r)) by done.
Qed.

Lemma boundary_eq i l k : drop i src = l -> is_boundary src (i + k) = match l !! k with Some x => negb (is_ident_continue x) | None => true end.
Proof. intros H. unfold is_boundary. by rewrite (drop_at src i l k H). Qed.

Lemma unit_end_eq e u r :
  drop e src = u ++ SP :: r -> u ∈ [] :: units ->
  unit_end src e = if decide (u = []) then None else Some (e + length u)%nat.
Proof.
  intros Hl Hu. unfold unit_end.
  rewrite <- (Nat.add_1_r e). replace (at_is src e) with (at_is src (e + 0)) by (by rewrite Nat.add_0_r).
  rewrite !(at_is_drop src e _ _ _ Hl), !(boundary_eq e _ _ Hl).
  unfold units in Hu. rewrite !elem_of_cons, elem_of_nil in Hu. destruct Hu as [->|[->|[->|[->|[->|[]]]]]];
    cbn; rewrite ?andb_false_r; reflexivity.
Qed.

Lemma lex_number_finds c d u r s :
  drop (pos s) src = (c :: d ++ u) ++ SP :: r -> Forall (fun x => is_digit x = true) d -> u ∈ [] :: units ->
  finds s (if decide (u = []) then IntLit else DurLit) (c :: d ++ u) (c :: d ++ u) (lex_number src s).
Proof.
  intros Hd Hw Hu. unfold lex_number. rewrite <- app_comm_cons, <- app_assoc in Hd.
  rewrite (skip_while_eq src _ _ d (u ++ SP :: r) (drop_cons src _ _ _ Hd) Hw).
  2: { unfold units in Hu. rewrite !elem_of_cons, elem_of_nil in Hu. by destruct Hu as [->|[->|[->|[->|[->|[]]]]]]. }
  replace (S (pos s) + length d)%nat with (pos s + length (c :: d))%nat by (cbn; lia).
  rewrite (unit_end_eq _ u r) by (done || by apply drop_further).
  pose proof (slice_eq src (pos s) (c :: d ++ u) (SP :: r)) as Hsl.
  rewrite <- app_comm_cons, <- app_assoc in Hsl. specialize (Hsl Hd).
  destruct (decide (u = [])) as [->|Hne]; (eexists _, _; split; [done|]); unfold kind; cbn [type text token_at pos advance].
  - rewrite app_nil_r in *. by rewrite Hsl.
  - replace (pos s + length (c :: d) + length u)%nat with (pos s + length (c :: d ++ u))%nat
      by (cbn; rewrite length_app; lia). by rewrite Hsl.
Qed.

Lemma lex_literal_finds ty pre b r s :
  drop (pos s) src = pre ++ b ++ quote :: r -> literal_body b ->
  finds s ty b (pre ++ b ++ [quote]) (lex_literal src ty (length pre) s).
Proof.
  intros Hd Hb. unfold lex_literal. pose proof (drop_further src _ _ _ Hd) as Hd'.
  rewrite (scan_literal_eq src _ b r Hb Hd'). eexists _, _. split; [done|]. unfold kind. cbn [type text token_at pos advance].
  rewrite (slice_eq src _ b (quote :: r)) by done. split; [done|]. rewrite !length_app. cbn. lia.
Qed.

Lemma ident_start_facts c : is_ident_start c = true -> is_space c = false /\ (c =? ch "/") = false.
Proof.
  unfold is_ident_start, is_space. intros H. destruct (is_space c) eqn:E; unfold is_space in E;
    rewrite ?orb_true_iff, ?andb_true_iff, ?Z.leb_le, ?Z.eqb_eq in *;
    change (ch "a") with 97 in *; change (ch "z") with 122 in *; change (ch "A") with 65 in *; change (ch "Z") with 90 in *;
    change (ch "_") with 95 in *; change (ch " ") with 32 in *; change (ch "/") with 47 in *; unfold HT, CR, LF in *.
  - lia.
  - split; [done|]. apply Z.eqb_neq. lia.
Qed.

Lemma digit_facts c : is_digit c = true -> is_space c = false /\ (c =? ch "/") = false /\ (c =? ch "r") = false /\ is_ident_start c = false.
Proof.
  intros H. pose proof (digit_not_start c H) as Hs. split_and!; try done; unfold is_digit in H; zify_bool;
    change (ch "0") with 48 in *; change (ch "9") with 57 in *; change (ch "/") with 47; change (ch "r") with 114; try (apply Z.eqb_neq; lia).
  unfold is_space. change (ch " ") with 32. unfold HT, CR, LF. rewrite !orb_false_iff, !Z.eqb_neq. lia.
Qed.

(** A token of the grammar in front of a blank is found. *)
Lemma lex_step_finds ty pre x post r s :
  token_form ty pre x post -> drop (pos s) src = (pre ++ x ++ post) ++ SP :: r ->
  exists c, src !! pos s = Some c /\ finds s ty x (pre ++ x ++ post) (lex_step src c s).
Proof.
  intros Hf Hd. pose proof (drop_at0 src _ _ Hd) as Hhd.
  unfold lex_step. rewrite <- (Nat.add_1_r (pos s)).
  destruct Hf as [c w Hc Hw|c d Hc Hw|c d u Hc Hw Hu|b Hb|b Hb|t ty Hin|c ty Hin]; cbn [app] in *; rewrite ?app_nil_r in *.
  - exists c. split; [done|]. destruct (ident_start_facts c Hc) as [-> ->]. rewrite Hc.
    rewrite !(at_is_drop src _ _ _ _ Hd). cbn [andb].
    assert ((c =? ch "r") && match (c :: w ++ SP :: r) !! 1%nat with Some x => x =? ch "e" | None => false end &&
            match (c :: w ++ SP :: r) !! 2%nat with Some x => x =? quote | None => false end = false) as ->.
    { destruct w as [|a [|b w]]; cbn; rewrite ?andb_false_r; try done. inversion Hw as [|? ? _ Hw']. inversion Hw' as [|? ? Hb _]. subst.
      destruct (Z.eqb_spec b quote) as [->|]; [done|]. by rewrite andb_false_r. }
    by apply (lex_word_finds c w r).
  - exists c. split; [done|]. destruct (digit_facts c Hc) as (-> & -> & -> & ->). rewrite Hc. cbn [andb].
    pose proof (lex_number_finds c d [] r s) as H. rewrite !app_nil_r in H. apply H; [done | done | set_solver].
  - exists c. split; [done|]. destruct (digit_facts c Hc) as (-> & -> & -> & ->). rewrite Hc. cbn [andb].
    pose proof (lex_number_finds c d u r s Hd Hw) as H. rewrite decide_False in H; [apply H; set_solver|].
    intros ->. unfold units in Hu. set_solver.
  - exists quote. split; [done|]. rewrite <- app_assoc in Hd. by apply (lex_literal_finds StringLit [quote] b (SP :: r)).
  - exists (ch "r"). split; [done|]. rewrite !(at_is_drop src _ _ _ _ Hd). rewrite <- app_assoc, <- (app_assoc b) in Hd.
    by apply (lex_literal_finds RegexLit (bs "re" ++ [quote]) b (SP :: r)).
  - unfold pairs in Hin. rewrite !elem_of_cons, elem_of_nil in Hin.
    unfold lex_symbol. rewrite <- (Nat.add_1_r (pos s)).
    destruct Hin as [[= -> ->]|[[= -> ->]|[[= -> ->]|[]]]];
      (eexists; split; [exact Hhd|]; rewrite !(at_is_drop src _ _ _ _ Hd); eexists _, _; split; [reflexivity|]; unfold kind; cbn [type text token_at pos advance];
       split; [f_equal | cbn; lia]).
    all: rewrite plus_n_Sm; lazymatch goal with |- _ = ?a => exact (slice_eq src (pos s) a (SP :: r) Hd) end.
  - apply list_elem_of_In in Hin. cbn in Hin. unfold lex_symbol. rewrite <- (Nat.add_1_r (pos s)).
    decompose [or] Hin; simplify_eq; try done;
      (eexists; split; [exact Hhd|]; rewrite !(at_is_drop src _ _ _ _ Hd); eexists _, _; split; [reflexivity|]; unfold kind; cbn [type text token_at pos advance];
       split; [f_equal; by apply (slice_eq src (pos s) [_] (SP :: r)) | done]).
Qed.
End relex.

Lemma print_cons k ks : print (k :: ks) = spell k ++ SP :: print ks.
Proof. unfold print. rewrite fmap_cons. cbn [mjoin list_join]. by rewrite <- app_assoc. Qed.

Lemma relex_loop src ks fuel s out :
  drop (pos s) src = print ks -> (pos s <= length src)%nat -> Forall well_spelled ks ->
  (length out + length ks < kMaxTokens)%nat -> (length (print ks) < fuel)%nat ->
  exists ts, lex_loop src fuel s out = Some (inr (out ++ ts)) /\ kind <$> ts = ks ++ [(Eof, [])].
Proof.
  revert fuel s out. induction ks as [|[ty x] ks IH]; intros fuel s out Hd Hp Hks Hroom Hf.
  - destruct fuel as [|fuel]; [lia|]. cbn [lex_loop]. rewrite (drop_at0 src _ _ Hd). cbn [print fmap list_fmap mjoin list_join head].
    destruct (push_token_spec out (mkToken Eof [] (length src) (length src) (p_line s) (p_col s)) _ eq_refl) as [[_ ?]|[-> _]];
      [cbn in Hroom; lia|]. by eexists.
  - inversion Hks as [|? ? (pre & post & Hform) Hks']; subst. cbn [fst snd] in Hform.
    rewrite print_cons, (spell_form ty pre x post Hform) in Hd, Hf. rewrite length_app in Hf. cbn [length] in Hf.
    destruct (lex_step_finds src ty pre x post (print ks) s Hform Hd) as (c & Hc & t & s' & Hst & Hk & Hs').
    destruct fuel as [|fuel]; [lia|]. cbn [lex_loop]. rewrite Hc, Hst.
    destruct (push_token_spec out t _ eq_refl) as [[_ ?]|[-> _]]; [cbn in Hroom; lia|].
    pose proof (drop_further src (pos s) _ _ Hd) as Hd'. rewrite <- Hs' in Hd'.
    pose proof (form_nonempty ty pre x post Hform) as Hpos.
    destruct fuel as [|fuel]; [lia|]. cbn [lex_loop]. rewrite (drop_at0 src _ _ Hd'). cbn [head].
    assert (lex_step src SP s' = Skipped (mkPos (S (pos s')) (p_line s') (S (p_col s')))) as -> by done.
    destruct (IH fuel (mkPos (S (pos s')) (p_line s') (S (p_col s'))) (out ++ [t])) as (ts & Hts & Hkts).
    + cbn. by apply (drop_cons src (pos s') SP).
    + cbn. pose proof (drop_length_eq src (pos s') _ Hd' ltac:(done)) as H. cbn in H. lia.
    + done.
    + rewrite length_app. cbn [length] in *. lia.
    + lia.
    + exists (t :: ts). rewrite Hts, <- app_assoc. split; [done|]. by rewrite fmap_cons, Hkts, Hk.
Qed.

(** C29: printed tokens are read back.  Any sequence of fewer than 512 tokens that
    are spelled as the language allows, words, numbers, durations, literals and
    symbols, printed with a blank behind each, is lexed to exactly these tokens
    and the end of the source. *)
Theorem lex_print ks :
  Forall well_spelled ks -> (length ks < kMaxTokens)%nat ->
  exists ts, lex (print ks) = Some (inr ts) /\ kind <$> ts = ks ++ [(Eof, [])].
Proof.
  intros Hks Hn. apply (relex_loop (print ks) ks _ (mkPos 0 1 1) []); cbn [length app pos drop]; (done || lia).
Qed.

Example lex_ex :
  match lex (bs "route GET // all
  wait(250ms) => re" ++ [quote] ++ bs "a\d" ++ [quote]) with
  | Some (inr ts) => ((fun t => (type t, start t, line t, col t)) <$> ts) =
      [(KwRoute, 0, 1, 1); (KwGet, 6, 1, 7); (KwWait, 19, 2, 3); (LParen, 23, 2, 7); (DurLit, 24, 2, 8);
       (RParen, 29, 2, 13); (Arrow, 31, 2, 15); (RegexLit, 37, 2, 21); (Eof, 41, 2, 25)]%nat
  | _ => False
  end.
Proof. vm_compute. reflexivity. Qed.

Definition source_ex : list Z :=
  bs "route GET // all
  wait(250ms) => re" ++ [quote] ++ bs "a\d" ++ [quote].

Definition tokens_ex : list Token := match lex source_ex with Some (inr ts) => ts | _ => [] end.

Lemma token_positions_witness :
  Forall (fun t => (line t, col t) = position (take (start t) source_ex)) tokens_ex.
Proof. apply (token_positions source_ex tokens_ex); vm_compute; reflexivity. Defined.

Definition kinds_ex : list (TokenType * list Z) :=
  [(KwIf, bs "if"); (Ident, bs "x1"); (EqEq, bs "=="); (IntLit, bs "42"); (StringLit, bs "a b"); (DurLit, bs "5ms"); (Dot, bs ".")].

Lemma kinds_ex_spelled : Forall well_spelled kinds_ex.
Proof.
  repeat (apply List.Forall_cons); [eexists _, _.. | constructor]; cbn [fst snd].
  - by apply (form_word (ch "i") (bs "f")); repeat constructor.
  - by apply (form_word (ch "x") (bs "1")); repeat constructor.
  - apply form_pair. unfold pairs. set_solver.
  - by apply (form_int (ch "4") (bs "2")); repeat constructor.
  - apply form_string. by repeat constructor.
  - apply (form_dur (ch "5") [] (bs "ms")); [done | constructor | unfold units; set_solver].
  - apply (form_symbol "."). unfold symbols. set_solver.
Qed.

Lemma lex_print_witness :
  exists ts, lex (print kinds_ex) = Some (inr ts) /\ kind <$> ts = kinds_ex ++ [(Eof, [])].
Proof. apply (lex_print kinds_ex kinds_ex_spelled). apply Nat.ltb_lt. reflexivity. Defined.

(** A backslash in front of a line feed is taken with it, and the line is not
    counted: the token behind it is placed on line 1. *)
Example escaped_newline_line :
  let src := [quote; ch "\"; LF; quote] ++ bs " x" in
  match lex src with
  | Some (inr [_; x; _]) => (line x, col x) = (1, 6)%nat /\ position (take (start x) src) = (2, 3)%nat
  | _ => False
  end.
Proof. vm_compute. by split. Qed.
