(* ===== verification/Ast.v ===== *)
(** * The syntax tree of the .rut language

    Model of include/rut/compiler/ast.h.  The nodes of the tree are values that
    refer to further nodes in the three pools of the file; a pointer into a pool
    is its index.  A string is a view of the source, given as its bytes.  Fixed
    vectors are lists; their capacities are the constants the parser tests. *)

From S2P Require Import Prelude Lexer.

Notation Str := (list Z).

Definition span0 : Span := mkSpan 0 0 1 1.

(** ** Expressions and types *)

Inductive WaitEventKind := WTimer | WAny | WRecv | WSend | WUpstreamConnect | WUpstreamRecv | WUpstreamSend.

Inductive AstExprKind :=
  | BoolLit | EIntLit | StrLit | ERegexLit | Tuple | ArrayLit | StructInit | Placeholder | VariantCase | Call
  | MethodCall | Field | ReqHeader | ReqParam | ReqCookie | ReqQuery | ReqQueryString | LitMethod | Nil | EError
  | EIdent | EEq | ELt | EGt | EOr | EPipe | EWait.

#[global] Instance AstExprKind_eq_dec : EqDecision AstExprKind.
Proof. solve_decision. Defined.

(** [AstTypeRef]: a name with arguments, or a tuple. *)
Record AstTypeRef := mkTypeRef {
  ty_namespace : Str;
  ty_name : Str;
  ty_is_tuple : bool;
  ty_tuple_names : list Str;
  ty_tuple_types : list nat;
  ty_arg_names : list Str;
  ty_arg_namespaces : list Str;
  ty_args : list nat
}.

Definition type0 : AstTypeRef :=
  mkTypeRef [] [] false [] [] [] [] [].

Definition with_ty_namespace (v : Str) (t : AstTypeRef) : AstTypeRef :=
  mkTypeRef v (ty_name t) (ty_is_tuple t) (ty_tuple_names t) (ty_tuple_types t) (ty_arg_names t) (ty_arg_namespaces t) (ty_args t).
Definition with_ty_name (v : Str) (t : AstTypeRef) : AstTypeRef :=
  mkTypeRef (ty_namespace t) v (ty_is_tuple t) (ty_tuple_names t) (ty_tuple_types t) (ty_arg_names t) (ty_arg_namespaces t) (ty_args t).
Definition with_ty_is_tuple (v : bool) (t : AstTypeRef) : AstTypeRef :=
  mkTypeRef (ty_namespace t) (ty_name t) v (ty_tuple_names t) (ty_tuple_types t) (ty_arg_names t) (ty_arg_namespaces t) (ty_args t).

(** [tuple_elem_names.push], [tuple_elem_types.push] and the three pushes of a
    type argument. *)
Definition push_tuple_elem (n : Str) (p : nat) (t : AstTypeRef) : AstTypeRef :=
  mkTypeRef (ty_namespace t) (ty_name t) (ty_is_tuple t) (ty_tuple_names t ++ [n]) (ty_tuple_types t ++ [p])
    (ty_arg_names t) (ty_arg_namespaces t) (ty_args t).
Definition push_type_arg (ns n : Str) (p : nat) (t : AstTypeRef) : AstTypeRef :=
  mkTypeRef (ty_namespace t) (ty_name t) (ty_is_tuple t) (ty_tuple_names t) (ty_tuple_types t)
    (ty_arg_names t ++ [n]) (ty_arg_namespaces t ++ [ns]) (ty_args t ++ [p]).

Definition kMaxTypeArgs : nat := 4.
Definition kMaxTupleElems : nat := 10.

Record AstExpr := mkExpr {
  e_kind : AstExprKind;
  e_span : Span;
  e_bool_value : bool;
  e_int_value : Z;
  e_str_value : Str;
  e_msg : Str;
  e_name : Str;
  e_lhs : option nat;
  e_rhs : option nat;
  e_field_inits : list (Str * nat);
  e_type_args : list AstTypeRef;
  e_args : list nat;
  e_wait_event_kind : WaitEventKind;
  e_wait_ms : Z
}.

Definition expr0 : AstExpr :=
  mkExpr BoolLit span0 false 0 [] [] [] None None [] [] [] WTimer 0.

Definition with_e_kind (v : AstExprKind) (e : AstExpr) : AstExpr :=
  mkExpr v (e_span e) (e_bool_value e) (e_int_value e) (e_str_value e) (e_msg e) (e_name e) (e_lhs e) (e_rhs e) (e_field_inits e) (e_type_args e) (e_args e) (e_wait_event_kind e) (e_wait_ms e).
Definition with_e_span (v : Span) (e : AstExpr) : AstExpr :=
  mkExpr (e_kind e) v (e_bool_value e) (e_int_value e) (e_str_value e) (e_msg e) (e_name e) (e_lhs e) (e_rhs e) (e_field_inits e) (e_type_args e) (e_args e) (e_wait_event_kind e) (e_wait_ms e).
Definition with_e_bool_value (v : bool) (e : AstExpr) : AstExpr :=
  mkExpr (e_kind e) (e_span e) v (e_int_value e) (e_str_value e) (e_msg e) (e_name e) (e_lhs e) (e_rhs e) (e_field_inits e) (e_type_args e) (e_args e) (e_wait_event_kind e) (e_wait_ms e).
Definition with_e_int_value (v : Z) (e : AstExpr) : AstExpr :=
  mkExpr (e_kind e) (e_span e) (e_bool_value e) v (e_str_value e) (e_msg e) (e_name e) (e_lhs e) (e_rhs e) (e_field_inits e) (e_type_args e) (e_args e) (e_wait_event_kind e) (e_wait_ms e).
Definition with_e_str_value (v : Str) (e : AstExpr) : AstExpr :=
  mkExpr (e_kind e) (e_span e) (e_bool_value e) (e_int_value e) v (e_msg e) (e_name e) (e_lhs e) (e_rhs e) (e_field_inits e) (e_type_args e) (e_args e) (e_wait_event_kind e) (e_wait_ms e).
Definition with_e_msg (v : Str) (e : AstExpr) : AstExpr :=
  mkExpr (e_kind e) (e_span e) (e_bool_value e) (e_int_value e) (e_str_value e) v (e_name e) (e_lhs e) (e_rhs e) (e_field_inits e) (e_type_args e) (e_args e) (e_wait_event_kind e) (e_wait_ms e).
Definition with_e_name (v : Str) (e : AstExpr) : AstExpr :=
  mkExpr (e_kind e) (e_span e) (e_bool_value e) (e_int_value e) (e_str_value e) (e_msg e) v (e_lhs e) (e_rhs e) (e_field_inits e) (e_type_args e) (e_args e) (e_wait_event_kind e) (e_wait_ms e).
Definition with_e_lhs (v : option nat) (e : AstExpr) : AstExpr :=
  mkExpr (e_kind e) (e_span e) (e_bool_value e) (e_int_value e) (e_str_value e) (e_msg e) (e_name e) v (e_rhs e) (e_field_inits e) (e_type_args e) (e_args e) (e_wait_event_kind e) (e_wait_ms e).
Definition with_e_rhs (v : option nat) (e : AstExpr) : AstExpr :=
  mkExpr (e_kind e) (e_span e) (e_bool_value e) (e_int_value e) (e_str_value e) (e_msg e) (e_name e) (e_lhs e) v (e_field_inits e) (e_type_args e) (e_args e) (e_wait_event_kind e) (e_wait_ms e).
Definition with_e_field_inits (v : list (Str * nat)) (e : AstExpr) : AstExpr :=
  mkExpr (e_kind e) (e_span e) (e_bool_value e) (e_int_value e) (e_str_value e) (e_msg e) (e_name e) (e_lhs e) (e_rhs e) v (e_type_args e) (e_args e) (e_wait_event_kind e) (e_wait_ms e).
Definition with_e_type_args (v : list AstTypeRef) (e : AstExpr) : AstExpr :=
  mkExpr (e_kind e) (e_span e) (e_bool_value e) (e_int_value e) (e_str_value e) (e_msg e) (e_name e) (e_lhs e) (e_rhs e) (e_field_inits e) v (e_args e) (e_wait_event_kind e) (e_wait_ms e).
Definition with_e_args (v : list nat) (e : AstExpr) : AstExpr :=
  mkExpr (e_kind e) (e_span e) (e_bool_value e) (e_int_value e) (e_str_value e) (e_msg e) (e_name e) (e_lhs e) (e_rhs e) (e_field_inits e) (e_type_args e) v (e_wait_event_kind e) (e_wait_ms e).
Definition with_e_wait_event_kind (v : WaitEventKind) (e : AstExpr) : AstExpr :=
  mkExpr (e_kind e) (e_span e) (e_bool_value e) (e_int_value e) (e_str_value e) (e_msg e) (e_name e) (e_lhs e) (e_rhs e) (e_field_inits e) (e_type_args e) (e_args e) v (e_wait_ms e).
Definition with_e_wait_ms (v : Z) (e : AstExpr) : AstExpr :=
  mkExpr (e_kind e) (e_span e) (e_bool_value e) (e_int_value e) (e_str_value e) (e_msg e) (e_name e) (e_lhs e) (e_rhs e) (e_field_inits e) (e_type_args e) (e_args e) (e_wait_event_kind e) v.

Definition kMaxFieldInits : nat := 8.
Definition kMaxArgs : nat := 8.

(** [span.end = ...] on a node. *)
Definition span_end (x : nat) (s : Span) : Span := mkSpan (s_start s) x (s_line s) (s_col s).

(** ** Statements *)

Inductive AstStmtKind :=
  | SExpr | SLet | SGuard | ReturnStatus | ForwardUpstream | SIf | SMatch | SBlock | SWait | SWaitAny | SFor.

#[global] Instance AstStmtKind_eq_dec : EqDecision AstStmtKind.
Proof. solve_decision. Defined.

Record MatchArm := mkArm {
  arm_span : Span;
  arm_is_wildcard : bool;
  arm_pattern : AstExpr;
  arm_has_guard : bool;
  arm_guard : option nat;
  arm_stmt : option nat
}.

Definition arm0 : MatchArm :=
  mkArm span0 false expr0 false None None.

Definition with_arm_span (v : Span) (a : MatchArm) : MatchArm :=
  mkArm v (arm_is_wildcard a) (arm_pattern a) (arm_has_guard a) (arm_guard a) (arm_stmt a).
Definition with_arm_is_wildcard (v : bool) (a : MatchArm) : MatchArm :=
  mkArm (arm_span a) v (arm_pattern a) (arm_has_guard a) (arm_guard a) (arm_stmt a).
Definition with_arm_pattern (v : AstExpr) (a : MatchArm) : MatchArm :=
  mkArm (arm_span a) (arm_is_wildcard a) v (arm_has_guard a) (arm_guard a) (arm_stmt a).
Definition with_arm_has_guard (v : bool) (a : MatchArm) : MatchArm :=
  mkArm (arm_span a) (arm_is_wildcard a) (arm_pattern a) v (arm_guard a) (arm_stmt a).
Definition with_arm_guard (v : option nat) (a : MatchArm) : MatchArm :=
  mkArm (arm_span a) (arm_is_wildcard a) (arm_pattern a) (arm_has_guard a) v (arm_stmt a).
Definition with_arm_stmt (v : option nat) (a : MatchArm) : MatchArm :=
  mkArm (arm_span a) (arm_is_wildcard a) (arm_pattern a) (arm_has_guard a) (arm_guard a) v.

Record AstStatement := mkStatement {
  st_kind : AstStmtKind;
  st_span : Span;
  st_name : Str;
  st_bind_value : bool;
  st_is_const : bool;
  st_is_inline : bool;
  st_has_type : bool;
  st_type : AstTypeRef;
  st_expr : AstExpr;
  st_status_code : Z;
  st_wait_event_kind : WaitEventKind;
  st_has_wait_expr : bool;
  st_response_body : Str;
  st_has_response_body : bool;
  st_response_headers : list (Str * Str);
  st_then_stmt : option nat;
  st_else_stmt : option nat;
  st_block_stmts : list nat;
  st_match_arms : list MatchArm
}.

Definition stmt0 : AstStatement :=
  mkStatement ReturnStatus span0 [] false false false false type0 expr0 0 WTimer false [] false [] None None [] [].

Definition with_st_kind (v : AstStmtKind) (s : AstStatement) : AstStatement :=
  mkStatement v (st_span s) (st_name s) (st_bind_value s) (st_is_const s) (st_is_inline s) (st_has_type s) (st_type s) (st_expr s) (st_status_code s) (st_wait_event_kind s) (st_has_wait_expr s) (st_response_body s) (st_has_response_body s) (st_response_headers s) (st_then_stmt s) (st_else_stmt s) (st_block_stmts s) (st_match_arms s).
Definition with_st_span (v : Span) (s : AstStatement) : AstStatement :=
  mkStatement (st_kind s) v (st_name s) (st_bind_value s) (st_is_const s) (st_is_inline s) (st_has_type s) (st_type s) (st_expr s) (st_status_code s) (st_wait_event_kind s) (st_has_wait_expr s) (st_response_body s) (st_has_response_body s) (st_response_headers s) (st_then_stmt s) (st_else_stmt s) (st_block_stmts s) (st_match_arms s).
Definition with_st_name (v : Str) (s : AstStatement) : AstStatement :=
  mkStatement (st_kind s) (st_span s) v (st_bind_value s) (st_is_const s) (st_is_inline s) (st_has_type s) (st_type s) (st_expr s) (st_status_code s) (st_wait_event_kind s) (st_has_wait_expr s) (st_response_body s) (st_has_response_body s) (st_response_headers s) (st_then_stmt s) (st_else_stmt s) (st_block_stmts s) (st_match_arms s).
Definition with_st_bind_value (v : bool) (s : AstStatement) : AstStatement :=
  mkStatement (st_kind s) (st_span s) (st_name s) v (st_is_const s) (st_is_inline s) (st_has_type s) (st_type s) (st_expr s) (st_status_code s) (st_wait_event_kind s) (st_has_wait_expr s) (st_response_body s) (st_has_response_body s) (st_response_headers s) (st_then_stmt s) (st_else_stmt s) (st_block_stmts s) (st_match_arms s).
Definition with_st_is_const (v : bool) (s : AstStatement) : AstStatement :=
  mkStatement (st_kind s) (st_span s) (st_name s) (st_bind_value s) v (st_is_inline s) (st_has_type s) (st_type s) (st_expr s) (st_status_code s) (st_wait_event_kind s) (st_has_wait_expr s) (st_response_body s) (st_has_response_body s) (st_response_headers s) (st_then_stmt s) (st_else_stmt s) (st_block_stmts s) (st_match_arms s).
Definition with_st_is_inline (v : bool) (s : AstStatement) : AstStatement :=
  mkStatement (st_kind s) (st_span s) (st_name s) (st_bind_value s) (st_is_const s) v (st_has_type s) (st_type s) (st_expr s) (st_status_code s) (st_wait_event_kind s) (st_has_wait_expr s) (st_response_body s) (st_has_response_body s) (st_response_headers s) (st_then_stmt s) (st_else_stmt s) (st_block_stmts s) (st_match_arms s).
Definition with_st_has_type (v : bool) (s : AstStatement) : AstStatement :=
  mkStatement (st_kind s) (st_span s) (st_name s) (st_bind_value s) (st_is_const s) (st_is_inline s) v (st_type s) (st_expr s) (st_status_code s) (st_wait_event_kind s) (st_has_wait_expr s) (st_response_body s) (st_has_response_body s) (st_response_headers s) (st_then_stmt s) (st_else_stmt s) (st_block_stmts s) (st_match_arms s).
Definition with_st_type (v : AstTypeRef) (s : AstStatement) : AstStatement :=
  mkStatement (st_kind s) (st_span s) (st_name s) (st_bind_value s) (st_is_const s) (st_is_inline s) (st_has_type s) v (st_expr s) (st_status_code s) (st_wait_event_kind s) (st_has_wait_expr s) (st_response_body s) (st_has_response_body s) (st_response_headers s) (st_then_stmt s) (st_else_stmt s) (st_block_stmts s) (st_match_arms s).
Definition with_st_expr (v : AstExpr) (s : AstStatement) : AstStatement :=
  mkStatement (st_kind s) (st_span s) (st_name s) (st_bind_value s) (st_is_const s) (st_is_inline s) (st_has_type s) (st_type s) v (st_status_code s) (st_wait_event_kind s) (st_has_wait_expr s) (st_response_body s) (st_has_response_body s) (st_response_headers s) (st_then_stmt s) (st_else_stmt s) (st_block_stmts s) (st_match_arms s).
Definition with_st_status_code (v : Z) (s : AstStatement) : AstStatement :=
  mkStatement (st_kind s) (st_span s) (st_name s) (st_bind_value s) (st_is_const s) (st_is_inline s) (st_has_type s) (st_type s) (st_expr s) v (st_wait_event_kind s) (st_has_wait_expr s) (st_response_body s) (st_has_response_body s) (st_response_headers s) (st_then_stmt s) (st_else_stmt s) (st_block_stmts s) (st_match_arms s).
Definition with_st_wait_event_kind (v : WaitEventKind) (s : AstStatement) : AstStatement :=
  mkStatement (st_kind s) (st_span s) (st_name s) (st_bind_value s) (st_is_const s) (st_is_inline s) (st_has_type s) (st_type s) (st_expr s) (st_status_code s) v (st_has_wait_expr s) (st_response_body s) (st_has_response_body s) (st_response_headers s) (st_then_stmt s) (st_else_stmt s) (st_block_stmts s) (st_match_arms s).
Definition with_st_has_wait_expr (v : bool) (s : AstStatement) : AstStatement :=
  mkStatement (st_kind s) (st_span s) (st_name s) (st_bind_value s) (st_is_const s) (st_is_inline s) (st_has_type s) (st_type s) (st_expr s) (st_status_code s) (st_wait_event_kind s) v (st_response_body s) (st_has_response_body s) (st_response_headers s) (st_then_stmt s) (st_else_stmt s) (st_block_stmts s) (st_match_arms s).
Definition with_st_response_body (v : Str) (s : AstStatement) : AstStatement :=
  mkStatement (st_kind s) (st_span s) (st_name s) (st_bind_value s) (st_is_const s) (st_is_inline s) (st_has_type s) (st_type s) (st_expr s) (st_status_code s) (st_wait_event_kind s) (st_has_wait_expr s) v (st_has_response_body s) (st_response_headers s) (st_then_stmt s) (st_else_stmt s) (st_block_stmts s) (st_match_arms s).
Definition with_st_has_response_body (v : bool) (s : AstStatement) : AstStatement :=
  mkStatement (st_kind s) (st_span s) (st_name s) (st_bind_value s) (st_is_const s) (st_is_inline s) (st_has_type s) (st_type s) (st_expr s) (st_status_code s) (st_wait_event_kind s) (st_has_wait_expr s) (st_response_body s) v (st_response_headers s) (st_then_stmt s) (st_else_stmt s) (st_block_stmts s) (st_match_arms s).
Definition with_st_response_headers (v : list (Str * Str)) (s : AstStatement) : AstStatement :=
  mkStatement (st_kind s) (st_span s) (st_name s) (st_bind_value s) (st_is_const s) (st_is_inline s) (st_has_type s) (st_type s) (st_expr s) (st_status_code s) (st_wait_event_kind s) (st_has_wait_expr s) (st_response_body s) (st_has_response_body s) v (st_then_stmt s) (st_else_stmt s) (st_block_stmts s) (st_match_arms s).
Definition with_st_then_stmt (v : option nat) (s : AstStatement) : AstStatement :=
  mkStatement (st_kind s) (st_span s) (st_name s) (st_bind_value s) (st_is_const s) (st_is_inline s) (st_has_type s) (st_type s) (st_expr s) (st_status_code s) (st_wait_event_kind s) (st_has_wait_expr s) (st_response_body s) (st_has_response_body s) (st_response_headers s) v (st_else_stmt s) (st_block_stmts s) (st_match_arms s).
Definition with_st_else_stmt (v : option nat) (s : AstStatement) : AstStatement :=
  mkStatement (st_kind s) (st_span s) (st_name s) (st_bind_value s) (st_is_const s) (st_is_inline s) (st_has_type s) (st_type s) (st_expr s) (st_status_code s) (st_wait_event_kind s) (st_has_wait_expr s) (st_response_body s) (st_has_response_body s) (st_response_headers s) (st_then_stmt s) v (st_block_stmts s) (st_match_arms s).
Definition with_st_block_stmts (v : list nat) (s : AstStatement) : AstStatement :=
  mkStatement (st_kind s) (st_span s) (st_name s) (st_bind_value s) (st_is_const s) (st_is_inline s) (st_has_type s) (st_type s) (st_expr s) (st_status_code s) (st_wait_event_kind s) (st_has_wait_expr s) (st_response_body s) (st_has_response_body s) (st_response_headers s) (st_then_stmt s) (st_else_stmt s) v (st_match_arms s).
Definition with_st_match_arms (v : list MatchArm) (s : AstStatement) : AstStatement :=
  mkStatement (st_kind s) (st_span s) (st_name s) (st_bind_value s) (st_is_const s) (st_is_inline s) (st_has_type s) (st_type s) (st_expr s) (st_status_code s) (st_wait_event_kind s) (st_has_wait_expr s) (st_response_body s) (st_has_response_body s) (st_response_headers s) (st_then_stmt s) (st_else_stmt s) (st_block_stmts s) v.

Definition kMaxResponseHeaders : nat := 16.
Definition kMaxBlockStatements : nat := 8.
Definition kMaxMatchArms : nat := 8.

(** ** Declarations *)

Record AstUpstreamDecl := mkUpstream {
  up_name : Str; up_has_address : bool; up_host_lit : Str; up_addr_span : Span; up_port_is_set : bool; up_port_lit : Z
}.

Record TypeParamDecl := mkTypeParam {
  tp_name : Str; tp_has_constraint : bool; tp_constraint_namespace : Str; tp_constraint : Str;
  tp_constraint_namespaces : list Str; tp_constraints : list Str
}.
Record ParamDecl := mkParamDecl { pd_name : Str; pd_type : AstTypeRef; pd_underscore : bool }.

Record AstFunctionDecl := mkFunction {
  fn_span : Span; fn_name : Str; fn_return_type : option AstTypeRef; fn_body : nat;
  fn_type_params : list TypeParamDecl; fn_params : list ParamDecl
}.

Record AstStructDecl := mkStruct { sd_name : Str; sd_type_params : list Str; sd_fields : list (Str * AstTypeRef) }.
Record AstVariantDecl := mkVariant {
  vd_name : Str; vd_type_params : list Str; vd_cases : list (Str * option AstTypeRef)
}.

Record MethodDecl := mkMethod {
  md_name : Str; md_return_type : option AstTypeRef; md_default_body : option nat; md_params : list ParamDecl
}.
Record AstProtocolDecl := mkProtocol { pr_name : Str; pr_associated_types : list Str; pr_methods : list MethodDecl }.

Record AstImportDecl := mkImport {
  im_path : Str; im_selective : bool; im_namespace_alias : option Str; im_selected_names : list (Str * option Str)
}.
Record AstUsingDecl := mkUsing { us_name : Str; us_target_parts : list Str }.

Record ArmDecl := mkArmDecl {
  ad_is_wildcard : bool; ad_is_type_equality : bool; ad_type_param : Str; ad_associated_name : Str;
  ad_rhs_type_param : Str; ad_rhs_associated_name : Str; ad_constraint_namespace : Str; ad_constraint : Str;
  ad_type : AstTypeRef
}.
Record AstTypeAliasDecl := mkTypeAlias {
  ta_name : Str; ta_type_params : list Str; ta_is_match : bool; ta_target : AstTypeRef; ta_arms : list ArmDecl
}.

Record AstImplDecl := mkImpl {
  ip_target : AstTypeRef; ip_protocol_namespaces : list Str; ip_protocols : list Str;
  ip_associated_types : list (Str * AstTypeRef); ip_methods : list AstFunctionDecl
}.

Record AstDecorator := mkDecorator { dc_span : Span; dc_name : Str }.
Record AstRouteDecl := mkRoute {
  rt_body_span : Span; rt_method : TokenType; rt_path : Str; rt_statements : list AstStatement;
  rt_decorators : list AstDecorator
}.

(** [AstItem]: its kind selects the declaration that is set. *)
Inductive AstDecl :=
  | DUpstream (d : AstUpstreamDecl) | DImport (d : AstImportDecl) | DFunc (d : AstFunctionDecl)
  | DStruct (d : AstStructDecl) | DVariant (d : AstVariantDecl) | DProtocol (d : AstProtocolDecl)
  | DUsing (d : AstUsingDecl) | DTypeAlias (d : AstTypeAliasDecl) | DImpl (d : AstImplDecl) | DRoute (d : AstRouteDecl).
Record AstItem := mkItem { i_span : Span; i_decl : AstDecl }.

Definition kMaxItems : nat := 128.
Definition kMaxExprPool : nat := 128.
Definition kMaxStmtPool : nat := 64.
Definition kMaxTypePool : nat := 256.

(** ** References *)

Definition all_below (n : nat) (l : list nat) : Prop := Forall (fun i => (i < n)%nat) l.
Definition opt_below (n : nat) (o : option nat) : Prop := forall i, o = Some i -> (i < n)%nat.

(** All pointers lead into the pools, which have these lengths. *)
Definition type_ok (nt : nat) (t : AstTypeRef) : Prop := all_below nt (ty_tuple_types t) /\ all_below nt (ty_args t).

Definition expr_ok (ne nt : nat) (e : AstExpr) : Prop :=
  opt_below ne (e_lhs e) /\ opt_below ne (e_rhs e) /\ all_below ne (e_args e) /\
  all_below ne (e_field_inits e).*2 /\ Forall (type_ok nt) (e_type_args e).

Definition arm_ok (ne ns nt : nat) (a : MatchArm) : Prop :=
  expr_ok ne nt (arm_pattern a) /\ opt_below ne (arm_guard a) /\ opt_below ns (arm_stmt a).

Definition stmt_ok (ne ns nt : nat) (s : AstStatement) : Prop :=
  type_ok nt (st_type s) /\ expr_ok ne nt (st_expr s) /\ opt_below ns (st_then_stmt s) /\
  opt_below ns (st_else_stmt s) /\ all_below ns (st_block_stmts s) /\ Forall (arm_ok ne ns nt) (st_match_arms s) /\
  (st_has_type s = false -> type_ok 0 (st_type s)).

Definition fn_ok (ns nt : nat) (f : AstFunctionDecl) : Prop :=
  (forall t, fn_return_type f = Some t -> type_ok nt t) /\ (fn_body f < ns)%nat /\
  Forall (fun p => type_ok nt (pd_type p)) (fn_params f).

Definition method_ok (ns nt : nat) (m : MethodDecl) : Prop :=
  (forall t, md_return_type m = Some t -> type_ok nt t) /\ opt_below ns (md_default_body m) /\
  Forall (fun p => type_ok nt (pd_type p)) (md_params m).

Definition decl_ok (ne ns nt : nat) (d : AstDecl) : Prop :=
  match d with
  | DUpstream _ | DImport _ | DUsing _ => True
  | DFunc f => fn_ok ns nt f
  | DStruct d => Forall (fun f => type_ok nt f.2) (sd_fields d)
  | DVariant d => Forall (fun c => forall t, c.2 = Some t -> type_ok nt t) (vd_cases d)
  | DProtocol d => Forall (method_ok ns nt) (pr_methods d)
  | DTypeAlias d => type_ok nt (ta_target d) /\ Forall (fun a => type_ok nt (ad_type a)) (ta_arms d)
  | DImpl d => type_ok nt (ip_target d) /\ Forall (fun b => type_ok nt b.2) (ip_associated_types d) /\
      Forall (fn_ok ns nt) (ip_methods d)
  | DRoute d => Forall (stmt_ok ne ns nt) (rt_statements d)
  end.
