(* ===== verification/Parser.v ===== *)
(** * Parser: types and expressions

    Model of struct Parser of src/compiler/parser.cc, first part: the cursor over
    the tokens, the pools, type references and expressions.  A parser function is
    a state-passing program over the cursor and the pools; an error keeps the
    state, since the attempt to read type arguments goes on after one.  Reading a
    token outside the array is a fault.  A recursive function is written over its
    recursive call and closed with fuel; the loops have one turn per token. *)

From S2P Require Import Prelude HttpParser Lexer Ast.

(** ** State *)

Record PState := mkP {
  p_pos : nat; expr_pool : list AstExpr; stmt_pool : list AstStatement; type_pool : list AstTypeRef; items : list AstItem
}.

Definition at_pos (i : nat) (s : PState) : PState := mkP i (expr_pool s) (stmt_pool s) (type_pool s) (items s).

Inductive PRes (A : Type) :=
  | POk (a : A) (s : PState)
  | PErr (d : Diagnostic) (s : PState)
  | PFault
  | PFuel.
Arguments POk {A} _ _.
Arguments PErr {A} _ _.
Arguments PFault {A}.
Arguments PFuel {A}.

Definition P (A : Type) : Type := PState -> PRes A.

#[global] Instance P_ret : MRet P := fun A a s => POk a s.
#[global] Instance P_bind : MBind P := fun A B f m s =>
  match m s with
  | POk a s' => f a s'
  | PErr d s' => PErr d s'
  | PFault => PFault
  | PFuel => PFuel
  end.

Definition fail_at {A} (c : FrontendError) (sp : Span) (d : list Z) : P A := fun s => PErr (mkDiagnostic c sp d) s.
Definition fault {A} : P A := fun _ => PFault.
Definition out_of_fuel {A} : P A := fun _ => PFuel.

(** ** Cursor *)

Section parser.
Context (toks : list Token).

Definition token (i : nat) : P Token := fun s => match toks !! i with Some t => POk t s | None => PFault end.
Definition get_pos : P nat := fun s => POk (p_pos s) s.
Definition set_pos (i : nat) : P unit := fun s => POk tt (at_pos i s).

Definition cur : P Token := i ← get_pos; token i.
Definition prev : P Token := i ← get_pos; match i with O => fault | S j => token j end.
Definition peek (offset : nat) : P Token :=
  i ← get_pos;
  if Nat.leb (length toks) (i + offset) then token (length toks - 1) else token (i + offset).

Definition bump : P unit := i ← get_pos; set_pos (S i).

Definition is_type (ty : TokenType) (t : Token) : bool := bool_decide (type t = ty).

Definition take (ty : TokenType) : P (option Token) :=
  t ← cur; if is_type ty t then bump;; mret (Some t) else mret None.
Definition took (ty : TokenType) : P bool :=
  o ← take ty; mret (match o with Some _ => true | None => false end).

Definition unexpected {A} (t : Token) : P A :=
  if is_type Eof t then fail_at UnexpectedEof (token_span t) [] else fail_at UnexpectedToken (token_span t) (text t).

Definition expect (ty : TokenType) : P Token :=
  t ← cur; if is_type ty t then bump;; mret t else unexpected t.

Definition expect_field_name : P Token :=
  t ← cur; if is_type Ident t || is_type KwFunc t then bump;; mret t else unexpected t.

Definition at_type (ty : TokenType) : P bool := t ← cur; mret (is_type ty t).

(** The body returns [inl] to go on and [inr] to leave the loop. *)
Fixpoint turns {A B} (fuel : nat) (body : A -> P (A + B)) (a : A) : P B :=
  match fuel with
  | O => out_of_fuel
  | S fuel' => r ← body a; match r with inl a' => turns fuel' body a' | inr b => mret b end
  end.
Definition loop {A B} (body : A -> P (A + B)) (a : A) : P B := turns (S (length toks)) body a.

(** [while (cur().type != RBrace && cur().type != Eof)]. *)
Definition at_block_end : P bool := t ← cur; mret (is_type RBrace t || is_type Eof t).

(** ** Pools *)

Definition alloc_expr (e : AstExpr) : P nat := fun s =>
  if Nat.leb kMaxExprPool (length (expr_pool s)) then PErr (mkDiagnostic TooManyItems (e_span e) []) s
  else POk (length (expr_pool s)) (mkP (p_pos s) (expr_pool s ++ [e]) (stmt_pool s) (type_pool s) (items s)).
Definition alloc_stmt (x : AstStatement) : P nat := fun s =>
  if Nat.leb kMaxStmtPool (length (stmt_pool s)) then PErr (mkDiagnostic TooManyItems (st_span x) []) s
  else POk (length (stmt_pool s)) (mkP (p_pos s) (expr_pool s) (stmt_pool s ++ [x]) (type_pool s) (items s)).
Definition alloc_type (t : AstTypeRef) : P nat := fun s =>
  if Nat.leb kMaxTypePool (length (type_pool s)) then PErr (mkDiagnostic TooManyItems span0 []) s
  else POk (length (type_pool s)) (mkP (p_pos s) (expr_pool s) (stmt_pool s) (type_pool s ++ [t]) (items s)).
Definition push_item (i : AstItem) : P unit := fun s =>
  if Nat.leb kMaxItems (length (items s)) then PErr (mkDiagnostic TooManyItems (i_span i) []) s
  else POk tt (mkP (p_pos s) (expr_pool s) (stmt_pool s) (type_pool s) (items s ++ [i])).

(** [FixedVec::push] of a vector of the node under construction. *)
Definition push_within {A} (cap : nat) (l : list A) (x : A) (sp : Span) : P (list A) :=
  if Nat.leb cap (length l) then fail_at TooManyItems sp [] else mret (l ++ [x]).

(** ** Integers *)

(** The digits of a literal, refused above [limit]. *)
Fixpoint digits_loop (limit value : Z) (ds : list Z) : option Z :=
  match ds with
  | [] => Some value
  | c :: ds' =>
      let digit := u32 (c - ch "0") in
      if (limit - digit) / 10 <? value then None else digits_loop limit (value * 10 + digit) ds'
  end.

Definition kMaxInt : Z := 2147483647.
Definition kMaxU32 : Z := 4294967295.

Definition parse_int (limit : Z) (t : Token) : P Z :=
  match digits_loop limit 0 (text t) with
  | Some v => mret v
  | None => fail_at InvalidInteger (token_span t) (text t)
  end.

(** The digits and the unit of a duration; a plain number counts milliseconds. *)
Definition split_unit (t : Token) : option (list Z * Z) :=
  let n := length (text t) in
  if negb (is_type DurLit t) then Some (text t, 1)
  else if Nat.leb 2 n && (rd (text t) (n - 2) =? ch "m") && (rd (text t) (n - 1) =? ch "s")
  then Some (List.firstn (n - 2) (text t), 1)
  else if Nat.leb 1 n then
    let u := rd (text t) (n - 1) in
    let ds := List.firstn (n - 1) (text t) in
    if u =? ch "s" then Some (ds, 1000)
    else if u =? ch "m" then Some (ds, 60 * 1000)
    else if u =? ch "h" then Some (ds, 3600 * 1000)
    else None
  else Some (text t, 1).

Definition parse_wait_ms (t : Token) : P Z :=
  let bad := fail_at InvalidInteger (token_span t) (text t) in
  match split_unit t with
  | None => bad
  | Some (ds, mult) =>
      match digits_loop kMaxU32 0 ds with
      | None => bad
      | Some v => let ms := u64 (v * mult) in if kMaxU32 <? ms then bad else mret (u32 ms)
      end
  end.

(** ** Type references *)

Section types.
Context (parse_type : P AstTypeRef).

(** [[T]] is sugar for [Array<T>]. *)
Definition array_type (lbracket : Token) : P AstTypeRef :=
  elem ← parse_type;
  expect RBracket;;
  let out := with_ty_name (bs "Array") type0 in
  p ← alloc_type elem;
  push_within kMaxTypeArgs (ty_arg_namespaces out) (ty_namespace elem) (token_span lbracket);;
  push_within kMaxTypeArgs (ty_arg_names out) (ty_name elem) (token_span lbracket);;
  push_within kMaxTypeArgs (ty_args out) p (token_span lbracket);;
  mret (push_type_arg (ty_namespace elem) (ty_name elem) p out).

Definition tuple_type : P AstTypeRef :=
  out ← loop (fun out =>
    elem ← parse_type;
    let n := if negb (ty_is_tuple elem) && Nat.eqb (length (ty_args elem)) 0 && negb (Nat.eqb (length (ty_name elem)) 0)
             then ty_name elem else [] in
    push_within kMaxTupleElems (ty_tuple_names out) n span0;;
    p ← alloc_type elem;
    push_within kMaxTupleElems (ty_tuple_types out) p span0;;
    let out := push_tuple_elem n p out in
    close ← took RParen;
    if close : bool then mret (inr out) else expect Comma;; mret (inl out)) (with_ty_is_tuple true type0);
  if Nat.ltb (length (ty_tuple_types out)) 2 then t ← prev; fail_at UnsupportedSyntax (token_span t) []
  else mret out.

Definition type_arguments (where_ : Span) (out : AstTypeRef) : P AstTypeRef :=
  loop (fun out =>
    arg ← parse_type;
    push_within kMaxTypeArgs (ty_arg_namespaces out) (ty_namespace arg) where_;;
    push_within kMaxTypeArgs (ty_arg_names out) (ty_name arg) where_;;
    p ← alloc_type arg;
    push_within kMaxTypeArgs (ty_args out) p where_;;
    let out := push_type_arg (ty_namespace arg) (ty_name arg) p out in
    close ← took Gt;
    if close : bool then mret (inr out) else expect Comma;; mret (inl out)) out.

Definition named_type : P AstTypeRef :=
  type_name ← expect Ident;
  dot ← took Dot;
  out ← (if dot : bool then
           member ← expect Ident;
           mret (with_ty_name (text member) (with_ty_namespace (text type_name) type0))
         else mret (with_ty_name (text type_name) type0));
  lt ← took Lt;
  if lt : bool then type_arguments (token_span type_name) out else mret out.

Definition type_ref_body : P AstTypeRef :=
  lb ← take LBracket;
  match lb with
  | Some lbracket => array_type lbracket
  | None =>
      lp ← took LParen;
      if lp : bool then tuple_type else named_type
  end.
End types.

Fixpoint parse_type_ref (fuel : nat) : P AstTypeRef :=
  match fuel with
  | O => out_of_fuel
  | S fuel' => type_ref_body (parse_type_ref fuel')
  end.
Definition parse_func_type_ref : P AstTypeRef := parse_type_ref (S (length toks)).

(** ** Expressions *)

Definition span_to (start : Token) (e : nat) : Span := mkSpan (Lexer.start start) e (line start) (col start).

Definition is_method_keyword (ty : TokenType) : bool :=
  bool_decide (ty ∈ [KwGet; KwPost; KwPut; KwDelete; KwPatch; KwHead; KwOptions]).

(** The codes of [HttpMethod]. *)
Definition method_literal (ty : TokenType) : option Z :=
  match ty with
  | KwGet => Some 0 | KwPost => Some 1 | KwPut => Some 2 | KwDelete => Some 3 | KwPatch => Some 4 | KwHead => Some 5
  | KwOptions => Some 6 | _ => None
  end.

(** [_1], [_2], ...: the index accumulates in a signed 32-bit integer; where the
    code overflows, this wraps around. *)
Fixpoint placeholder_loop (index : Z) (ds : list Z) : option Z :=
  match ds with
  | [] => Some index
  | c :: ds' =>
      if (c <? ch "0") || (ch "9" <? c) then None
      else placeholder_loop (let i := u32 (index * 10 + (c - ch "0")) in if i <? 2147483648 then i else i - 4294967296) ds'
  end.
Definition placeholder_index (t : list Z) : option Z :=
  if Nat.leb 2 (length t) && (rd t 0 =? ch "_")
  then match placeholder_loop 0 (tail t) with Some i => if 0 <? i then Some i else None | None => None end
  else None.

Section exprs.
Context (parse_expr : P AstExpr).

(** [e1, e2, ... close], each element allocated and pushed; [first] is what is
    already there. *)
Definition elements (close : TokenType) (first : list nat) : P (list nat) :=
  loop (fun args =>
    elem ← parse_expr;
    p ← alloc_expr elem;
    args ← push_within kMaxArgs args p (e_span elem);
    done ← took close;
    if done : bool then mret (inr args) else expect Comma;; mret (inl args)) first.

(** [name: e1, ... )] into [inits]. *)
Definition named_elements (inits : list (Str * nat)) : P (list (Str * nat)) :=
  loop (fun inits =>
    field_name ← expect_field_name;
    expect Colon;;
    field_value ← parse_expr;
    p ← alloc_expr field_value;
    inits ← push_within kMaxFieldInits inits (text field_name, p) (e_span field_value);
    done ← took RParen;
    if done : bool then mret (inr inits) else expect Comma;; mret (inl inits)) inits.

(** [while (!take(RBracket)) ...]: a comma may stand before the bracket. *)
Definition array_literal (start : Token) : P AstExpr :=
  args ← loop (fun args =>
    close ← took RBracket;
    if close : bool then mret (inr args)
    else
      elem ← parse_expr;
      p ← alloc_expr elem;
      args ← push_within kMaxArgs args p (e_span elem);
      close ← took RBracket;
      if close : bool then mret (inr args) else expect Comma;; mret (inl args)) [];
  last ← prev;
  mret (with_e_span (span_to start (end_ last)) (with_e_args args (with_e_kind ArrayLit expr0))).

Definition paren_expr (start : Token) : P AstExpr :=
  first ← parse_expr;
  comma ← took Comma;
  if negb comma then expect RParen;; mret first
  else
    p ← alloc_expr first;
    args ← push_within kMaxArgs [] p (e_span first);
    args ← elements RParen args;
    last ← prev;
    mret (with_e_span (span_to start (end_ last)) (with_e_args args (with_e_kind Tuple expr0))).

Definition variant_case (start : Token) : P AstExpr :=
  case_name ← expect Ident;
  let e := with_e_str_value (text case_name) (with_e_kind VariantCase expr0) in
  lp ← took LParen;
  if lp : bool then
    payload ← parse_expr;
    rparen ← expect RParen;
    p ← alloc_expr payload;
    mret (with_e_span (span_to start (end_ rparen)) (with_e_lhs (Some p) e))
  else mret (with_e_span (span_to start (end_ case_name)) e).

Definition or_expr (start : Token) : P AstExpr :=
  expect LParen;;
  lhs ← parse_expr;
  expect Comma;;
  rhs ← parse_expr;
  rparen ← expect RParen;
  l ← alloc_expr lhs;
  r ← alloc_expr rhs;
  mret (with_e_span (span_to start (end_ rparen)) (with_e_rhs (Some r) (with_e_lhs (Some l) (with_e_kind EOr expr0)))).

(** The argument of a wait: a number or a duration. *)
Definition wait_literal : P (option Token) :=
  t ← take IntLit;
  match t with Some t => mret (Some t) | None => take DurLit end.

Definition wait_expr (start : Token) : P AstExpr :=
  expect LParen;;
  let e := with_e_kind EWait expr0 in
  rp ← take RParen;
  match rp with
  | Some rparen => mret (with_e_span (span_to start (end_ rparen)) (with_e_wait_event_kind WAny e))
  | None =>
      arg ← wait_literal;
      match arg with
      | None =>
          op ← parse_expr;
          p ← alloc_expr op;
          rparen ← expect RParen;
          mret (with_e_span (span_to start (end_ rparen)) (with_e_wait_event_kind WAny (with_e_lhs (Some p) e)))
      | Some arg =>
          ms ← parse_wait_ms arg;
          rparen ← expect RParen;
          mret (with_e_span (span_to start (end_ rparen)) (with_e_wait_ms ms (with_e_wait_event_kind WTimer e)))
      end
  end.

(** The extra fields of an error, each behind a comma. *)
Definition error_fields : P (list (Str * nat)) :=
  loop (fun inits =>
    comma ← took Comma;
    if negb comma then mret (inr inits)
    else
      field_name ← expect_field_name;
      expect Colon;;
      field_value ← parse_expr;
      p ← alloc_expr field_value;
      inits ← push_within kMaxFieldInits inits (text field_name, p) (e_span field_value);
      mret (inl inits)) [].

Definition error_expr (start : Token) : P AstExpr :=
  expect LParen;;
  t ← cur;
  t1 ← peek 1;
  name ← (if is_type Ident t && is_type Comma t1
          then type_name ← expect Ident; expect Comma;; mret (text type_name)
          else mret []);
  arg ← parse_expr;
  comma ← took Comma;
  msg_inits ← (if comma : bool then
                 msg_expr ← parse_expr;
                 if negb (bool_decide (e_kind msg_expr = StrLit))
                 then fail_at UnsupportedSyntax (e_span msg_expr) []
                 else inits ← error_fields; mret (e_str_value msg_expr, inits)
               else mret ([], []));
  rparen ← expect RParen;
  p ← alloc_expr arg;
  mret (with_e_span (span_to start (end_ rparen)) (with_e_msg msg_inits.1 (with_e_lhs (Some p)
    (with_e_field_inits msg_inits.2 (with_e_name name (with_e_kind EError expr0)))))).

(** One token. *)
Definition leaf (t : Token) (e : AstExpr) : P AstExpr := bump;; mret (with_e_span (token_span t) e).

Definition ident_expr : P AstExpr :=
  ident ← expect Ident;
  match placeholder_index (text ident) with
  | Some index =>
      if 10 <? index then fail_at UnsupportedSyntax (token_span ident) []
      else mret (with_e_span (token_span ident) (with_e_int_value index (with_e_kind Placeholder expr0)))
  | None => mret (with_e_span (token_span ident) (with_e_name (text ident) (with_e_kind EIdent expr0)))
  end.

Definition parse_primary_atom : P AstExpr :=
  start ← cur;
  match type start with
  | LBracket => bump;; array_literal start
  | LParen => bump;; paren_expr start
  | Underscore => leaf start (with_e_int_value 1 (with_e_kind Placeholder expr0))
  | Dot => bump;; variant_case start
  | KwOr => bump;; or_expr start
  | KwWait => bump;; wait_expr start
  | KwTrue => leaf start (with_e_bool_value true (with_e_kind BoolLit expr0))
  | KwFalse => leaf start (with_e_bool_value false (with_e_kind BoolLit expr0))
  | KwNil => leaf start (with_e_kind Nil expr0)
  | KwError => bump;; error_expr start
  | IntLit =>
      bump;; v ← parse_int kMaxInt start;
      mret (with_e_span (token_span start) (with_e_int_value v (with_e_kind EIntLit expr0)))
  | StringLit => leaf start (with_e_str_value (text start) (with_e_kind StrLit expr0))
  | RegexLit => leaf start (with_e_str_value (text start) (with_e_kind ERegexLit expr0))
  | KwUpstream | KwDownstream => leaf start (with_e_name (text start) (with_e_kind EIdent expr0))
  | ty =>
      match method_literal ty with
      | Some m => leaf start (with_e_int_value m (with_e_kind LitMethod expr0))
      | None => ident_expr
      end
  end.

(** ** Calls, fields and type arguments *)

(** An error ends the attempt but not the parse. *)
Definition attempt {A} (m : P A) : P (option A) := fun s =>
  match m s with
  | POk a s' => POk (Some a) s'
  | PErr _ s' => POk None s'
  | PFault => PFault
  | PFuel => PFuel
  end.

(** Type arguments in front of a parenthesis or a dot; otherwise the cursor goes
    back to the [<]. *)
Definition type_args_attempt (sp : Span) : P (option (list AstTypeRef)) :=
  saved_pos ← get_pos;
  bump;;
  let back := set_pos saved_pos;; mret (inr None) in
  loop (fun args =>
    arg ← attempt parse_func_type_ref;
    match arg with
    | None => back
    | Some arg =>
        args ← push_within kMaxTypeArgs args arg sp;
        gt ← took Gt;
        if gt : bool then
          t ← cur;
          if is_type LParen t || is_type Dot t then mret (inr (Some args)) else back
        else
          comma ← took Comma;
          if comma : bool then mret (inl args) else back
    end) [].

Definition field_like (t t1 : Token) : bool := (is_type Ident t || is_type KwFunc t) && is_type Colon t1.

(** Behind [name(]: fields of a struct, or arguments. *)
Definition call_expr (e : AstExpr) : P AstExpr :=
  if negb (bool_decide (e_kind e = EIdent)) then fail_at UnsupportedSyntax (e_span e) []
  else
    rp ← took RParen;
    t ← cur;
    t1 ← peek 1;
    let node k := with_e_span (e_span e) (with_e_type_args (e_type_args e) (with_e_name (e_name e) (with_e_kind k expr0))) in
    if negb rp && field_like t t1 then
      inits ← named_elements [];
      last ← prev;
      mret (with_e_span (span_end (end_ last) (e_span e)) (with_e_field_inits inits (node StructInit)))
    else
      before ← prev;
      args ← (if is_type RParen before then mret [] else elements RParen []);
      last ← prev;
      mret (with_e_span (span_end (end_ last) (e_span e)) (with_e_args args (node Call))).

(** Behind a dot: a field, a method call or a qualified struct. *)
Definition member_expr (e : AstExpr) : P AstExpr :=
  field_name ← expect_field_name;
  lhs ← alloc_expr e;
  let sp := mkSpan (s_start (e_span e)) (end_ field_name) (s_line (e_span e)) (s_col (e_span e)) in
  let node k := with_e_name (text field_name) (with_e_lhs (Some lhs) (with_e_kind k expr0)) in
  t ← cur;
  targs ← (if is_type Lt t then type_args_attempt sp else mret None);
  sp_args ← (match targs with
             | Some args => last ← prev; mret (span_end (end_ last) sp, args)
             | None => mret (sp, [])
             end);
  let sp := sp_args.1 in
  lp ← took LParen;
  if lp : bool then
    t ← cur;
    t1 ← peek 1;
    if bool_decide (e_kind e = EIdent) && negb (is_type RParen t) && field_like t t1 then
      inits ← named_elements [];
      last ← prev;
      mret (with_e_span (span_end (end_ last) sp) (with_e_field_inits inits (node StructInit)))
    else
      rp ← took RParen;
      args ← (if rp : bool then mret [] else elements RParen []);
      last ← prev;
      mret (with_e_span (span_end (end_ last) sp) (with_e_args args (node MethodCall)))
  else mret (with_e_span sp (with_e_type_args sp_args.2 (node Field))).

Definition parse_primary_expr : P AstExpr :=
  base ← parse_primary_atom;
  loop (fun e =>
    t ← cur;
    targs ← (if bool_decide (e_kind e = EIdent) && Nat.eqb (length (e_type_args e)) 0 && is_type Lt t
             then type_args_attempt (e_span e) else mret None);
    match targs with
    | Some args => mret (inl (with_e_type_args args e))
    | None =>
        lp ← took LParen;
        if lp : bool then e' ← call_expr e; mret (inl e')
        else
          dot ← took Dot;
          if dot : bool then e' ← member_expr e; mret (inl e') else mret (inr e)
    end) base.

(** ** Comparisons and pipes *)

Definition binary (k : AstExprKind) (lhs rhs : AstExpr) : P AstExpr :=
  l ← alloc_expr lhs;
  r ← alloc_expr rhs;
  mret (with_e_span (mkSpan (s_start (e_span lhs)) (s_end (e_span rhs)) (s_line (e_span lhs)) (s_col (e_span lhs)))
    (with_e_rhs (Some r) (with_e_lhs (Some l) (with_e_kind k expr0)))).

Definition compare_op : P (option AstExprKind) :=
  eq ← took EqEq;
  if eq : bool then mret (Some EEq)
  else lt ← took Lt;
       if lt : bool then mret (Some ELt)
       else gt ← took Gt; mret (if gt : bool then Some EGt else None).

Definition parse_eq_expr : P AstExpr :=
  lhs ← parse_primary_expr;
  op ← compare_op;
  match op with
  | None => mret lhs
  | Some k => rhs ← parse_primary_expr; binary k lhs rhs
  end.

Definition expr_body : P AstExpr :=
  lhs ← parse_eq_expr;
  loop (fun lhs =>
    pipe ← took Pipe;
    if pipe : bool then rhs ← parse_eq_expr; e ← binary EPipe lhs rhs; mret (inl e) else mret (inr lhs)) lhs.
End exprs.

Fixpoint expr_fuel (fuel : nat) : P AstExpr :=
  match fuel with
  | O => out_of_fuel
  | S fuel' => expr_body (expr_fuel fuel')
  end.
Definition parse_expr : P AstExpr := expr_fuel (S (length toks)).
End parser.
