(* ===== verification/ParserStmt.v ===== *)
(** * Parser: statements

    Model of the statements of src/compiler/parser.cc: those of a route body
    ([parse_stmt]) and those of a function body ([parse_func_body_stmt]). *)

From S2P Require Import Prelude HeaderValidation Lexer Ast Parser.

Section parser.
Context (toks : list Token).
Notation cur := (cur toks).
Notation prev := (prev toks).
Notation peek := (peek toks).
Notation take := (take toks).
Notation took := (took toks).
Notation expect := (expect toks).
Notation loop := (loop toks).
Notation parse_expr := (parse_expr toks).
Notation parse_primary_expr := (parse_primary_expr toks (Parser.parse_expr toks)).
Notation at_block_end := (at_block_end toks).
Notation parse_func_type_ref := (parse_func_type_ref toks).

(** ** Shared parts *)

(** Statements up to the closing brace, each allocated. *)
Definition block_stmts (parse_stmt : P AstStatement) : P (list nat) :=
  loop (fun l =>
    fin ← at_block_end;
    if fin : bool then mret (inr l)
    else
      inner ← parse_stmt;
      p ← alloc_stmt inner;
      l ← push_within kMaxBlockStatements l p (st_span inner);
      mret (inl l)) [].

(** The pattern of a match arm behind [case]. *)
Definition arm_pattern_of (kw_case : Token) : P MatchArm :=
  let arm := with_arm_span (token_span kw_case) arm0 in
  wild ← took Underscore;
  if wild : bool then mret (with_arm_is_wildcard true arm)
  else pattern ← parse_primary_expr; mret (with_arm_pattern pattern arm).

Definition arm_guard_of (arm : MatchArm) : P MatchArm :=
  kw_if ← took KwIf;
  if kw_if : bool then
    guard ← parse_expr;
    p ← alloc_expr guard;
    mret (with_arm_guard (Some p) (with_arm_has_guard true arm))
  else mret arm.

(** A guard of an arm of a guard statement is refused. *)
Definition no_arm_guard : P unit :=
  kw_if ← take KwIf;
  match kw_if with Some t => fail_at UnsupportedSyntax (token_span t) [] | None => mret tt end.

(** The arm gets its statement and the end of its span. *)
Definition finish_arm (arm : MatchArm) (x : AstStatement) : P MatchArm :=
  p ← alloc_stmt x;
  mret (with_arm_span (span_end (s_end (st_span x)) (arm_span arm)) (with_arm_stmt (Some p) arm)).

(** [case pattern guard sep statement], up to the closing brace. *)
Definition match_arms (guard : MatchArm -> P MatchArm) (sep : TokenType) (body : P AstStatement)
    (accept : AstStatement -> bool) (reject : Span) : P (list MatchArm) :=
  loop (fun arms =>
    fin ← at_block_end;
    if fin : bool then mret (inr arms)
    else
      kw_case ← expect KwCase;
      arm ← arm_pattern_of kw_case;
      arm ← guard arm;
      expect sep;;
      x ← body;
      if negb (accept x) then fail_at UnsupportedSyntax reject []
      else
        arm ← finish_arm arm x;
        arms ← push_within kMaxMatchArms arms arm (arm_span arm);
        mret (inl arms)) [].

(** The closing brace of the arms, of which there must be one. *)
Definition close_arms (arms : list MatchArm) : P Token :=
  rbrace ← expect RBrace;
  if Nat.eqb (length arms) 0 then fail_at UnexpectedToken (token_span rbrace) [] else mret rbrace.

(** [let name =] of a guard; the name is empty without one. *)
Definition guard_binding (is_match : bool) : P (Str * bool) :=
  kw_let ← (if is_match then mret false else took KwLet);
  if kw_let : bool then
    name ← expect Ident;
    expect Eq;;
    mret (text name, true)
  else mret ([], false).

(** ** Statements of a route *)

Section stmts.
Context (parse_stmt : P AstStatement).

Definition parse_braced_stmt_body (lbrace : Token) : P AstStatement :=
  l ← block_stmts parse_stmt;
  rbrace ← expect RBrace;
  match l with
  | [] => fail_at UnsupportedSyntax (token_span rbrace) []
  | [p] => fun s => match stmt_pool s !! p with Some x => POk x s | None => PFault end
  | _ =>
      mret (with_st_span (span_end (end_ rbrace) (token_span lbrace))
        (with_st_block_stmts l (with_st_kind SBlock stmt0)))
  end.

Definition block_stmt (start : Token) : P AstStatement :=
  l ← block_stmts parse_stmt;
  rbrace ← expect RBrace;
  if Nat.eqb (length l) 0 then fail_at UnsupportedSyntax (token_span rbrace) []
  else mret (with_st_span (span_end (end_ rbrace) (token_span start))
         (with_st_block_stmts l (with_st_kind SBlock stmt0))).

Definition let_stmt (start : Token) : P AstStatement :=
  name ← expect Ident;
  colon ← took Colon;
  ty ← (if colon : bool then t ← parse_func_type_ref; mret (Some t) else mret None);
  expect Eq;;
  init ← parse_expr;
  let x := with_st_expr init (with_st_name (text name) (with_st_kind SLet stmt0)) in
  let x := match ty with Some t => with_st_type t (with_st_has_type true x) | None => x end in
  mret (with_st_span (span_to start (s_end (e_span init))) x).

Definition is_terminal (x : AstStatement) : bool :=
  bool_decide (st_kind x = ReturnStatus) || bool_decide (st_kind x = ForwardUpstream).

Definition guard_stmt (start : Token) : P AstStatement :=
  is_match ← took KwMatch;
  binding ← guard_binding is_match;
  cond ← parse_expr;
  expect KwElse;;
  lbrace ← expect LBrace;
  let x := with_st_expr cond (with_st_bind_value binding.2 (with_st_name binding.1 (with_st_kind SGuard stmt0))) in
  if is_match : bool then
    arms ← match_arms (fun arm => no_arm_guard;; mret arm) Colon parse_stmt is_terminal (token_span start);
    rbrace ← close_arms arms;
    mret (with_st_span (span_to start (end_ rbrace)) (with_st_match_arms arms x))
  else
    else_stmt ← parse_braced_stmt_body lbrace;
    p ← alloc_stmt else_stmt;
    mret (with_st_span (span_to start (s_end (st_span else_stmt))) (with_st_else_stmt (Some p) x)).

(** ** Responses *)

(** [{ key: value, ... }] of the [headers] argument. *)
Definition response_headers : P (list (Str * Str)) :=
  expect LBrace;;
  t ← cur;
  if is_type RBrace t then fail_at UnsupportedSyntax (token_span t) []
  else
    hs ← loop (fun hs =>
      key ← expect StringLit;
      expect Colon;;
      value ← expect StringLit;
      match validate_response_header (text key) (text value) with
      | HeaderValidation.Ok =>
          if existsb (fun h : Str * Str => http_header_name_eq_ci h.1 (text key)) hs
          then fail_at UnexpectedToken (token_span key) (text key)
          else
            hs ← push_within kMaxResponseHeaders hs (text key, text value) (token_span key);
            comma ← took Comma;
            if negb comma then mret (inr hs)
            else t ← cur; if is_type RBrace t then mret (inr hs) else mret (inl hs)
      | InvalidValueChar => fail_at UnsupportedSyntax (token_span value) (text value)
      | _ => fail_at UnsupportedSyntax (token_span key) (text key)
      end) [];
    expect RBrace;; mret hs.

(** [body: ...] and [headers: ...], each at most once. *)
Definition response_args (x : AstStatement) : P AstStatement :=
  r ← loop (fun '(x, seen_headers) =>
    comma ← took Comma;
    if negb comma then mret (inr x)
    else
      kw ← expect Ident;
      expect Colon;;
      let again := fail_at UnexpectedToken (token_span kw) (text kw) in
      if str_eq (text kw) (bs "body") then
        if st_has_response_body x then again
        else
          body ← expect StringLit;
          mret (inl (with_st_has_response_body true (with_st_response_body (text body) x), seen_headers))
      else if str_eq (text kw) (bs "headers") then
        if seen_headers : bool then again
        else hs ← response_headers; mret (inl (with_st_response_headers hs x, true))
      else again) (x, false);
  mret r.

Definition return_stmt (start : Token) : P AstStatement :=
  fwd ← took KwForward;
  if fwd : bool then
    expect LParen;;
    name ← expect Ident;
    rparen ← expect RParen;
    mret (with_st_span (span_to start (end_ rparen)) (with_st_name (text name) (with_st_kind ForwardUpstream stmt0)))
  else
    t ← cur;
    if is_type Ident t && str_eq (text t) (bs "response") then
      bump;;
      expect LParen;;
      status ← expect IntLit;
      v ← parse_int kMaxInt status;
      x ← response_args (with_st_status_code v (with_st_kind ReturnStatus stmt0));
      rparen ← expect RParen;
      mret (with_st_span (span_to start (end_ rparen)) x)
    else
      status ← expect IntLit;
      v ← parse_int kMaxInt status;
      mret (with_st_span (span_to start (end_ status)) (with_st_status_code v (with_st_kind ReturnStatus stmt0))).

(** ** Waits, branches and loops *)

Definition wait_any_stmt (start : Token) : P AstStatement :=
  bump;;
  expect LBrace;;
  arms ← loop (fun arms =>
    fin ← at_block_end;
    if fin : bool then mret (inr arms)
    else
      t ← cur;
      event ← parse_expr;
      expect Arrow;;
      lbrace ← expect LBrace;
      body ← parse_braced_stmt_body lbrace;
      arm ← finish_arm (with_arm_pattern event (with_arm_span (token_span t) arm0)) body;
      arms ← push_within kMaxMatchArms arms arm (arm_span arm);
      mret (inl arms)) [];
  rbrace ← expect RBrace;
  mret (with_st_span (span_to start (end_ rbrace)) (with_st_match_arms arms (with_st_kind SWaitAny stmt0))).

Definition wait_stmt (start : Token) : P AstStatement :=
  t ← cur;
  t1 ← peek 1;
  if is_type Ident t && str_eq (text t) (bs "any") && is_type LBrace t1 then wait_any_stmt start
  else
    expect LParen;;
    let x := with_st_kind SWait stmt0 in
    rp ← take RParen;
    match rp with
    | Some rparen => mret (with_st_span (span_to start (end_ rparen)) (with_st_wait_event_kind WAny x))
    | None =>
        arg ← wait_literal toks;
        match arg with
        | None =>
            op ← parse_expr;
            rparen ← expect RParen;
            mret (with_st_span (span_to start (end_ rparen))
              (with_st_has_wait_expr true (with_st_wait_event_kind WAny (with_st_expr op x))))
        | Some arg =>
            ms ← parse_wait_ms arg;
            rparen ← expect RParen;
            mret (with_st_span (span_to start (end_ rparen)) (with_st_status_code ms (with_st_wait_event_kind WTimer x)))
        end
    end.

Definition if_stmt (start : Token) : P AstStatement :=
  is_const ← took KwConst;
  cond ← parse_expr;
  lbrace ← expect LBrace;
  then_stmt ← parse_braced_stmt_body lbrace;
  expect KwElse;;
  else_lbrace ← expect LBrace;
  else_stmt ← parse_braced_stmt_body else_lbrace;
  p ← alloc_stmt then_stmt;
  q ← alloc_stmt else_stmt;
  mret (with_st_span (span_to start (s_end (st_span else_stmt))) (with_st_else_stmt (Some q) (with_st_then_stmt (Some p)
    (with_st_expr cond (with_st_is_const is_const (with_st_kind SIf stmt0)))))).

Definition for_stmt (start : Token) (is_inline : bool) : P AstStatement :=
  (if is_inline then bump else mret tt);;
  expect KwFor;;
  var_name ← expect Ident;
  expect KwIn;;
  iter ← parse_expr;
  lbrace ← expect LBrace;
  body ← parse_braced_stmt_body lbrace;
  p ← alloc_stmt body;
  mret (with_st_span (span_to start (s_end (st_span body))) (with_st_then_stmt (Some p) (with_st_expr iter
    (with_st_name (text var_name) (with_st_is_inline is_inline (with_st_kind SFor stmt0)))))).

Definition match_stmt (start : Token) : P AstStatement :=
  is_const ← took KwConst;
  subject ← parse_expr;
  expect LBrace;;
  arms ← match_arms arm_guard_of Colon parse_stmt
    (fun x => negb (bool_decide (st_kind x = SLet) || bool_decide (st_kind x = SGuard))) (token_span start);
  rbrace ← close_arms arms;
  mret (with_st_span (span_to start (end_ rbrace)) (with_st_match_arms arms (with_st_expr subject
    (with_st_is_const is_const (with_st_kind SMatch stmt0))))).

Definition stmt_body : P AstStatement :=
  start ← cur;
  t1 ← peek 1;
  match type start with
  | LBrace => bump;; block_stmt start
  | KwLet => bump;; let_stmt start
  | KwGuard => bump;; guard_stmt start
  | KwReturn => bump;; return_stmt start
  | KwWait => bump;; wait_stmt start
  | KwIf => bump;; if_stmt start
  | KwFor => for_stmt start false
  | KwMatch => bump;; match_stmt start
  | Ident =>
      if str_eq (text start) (bs "inline") && is_type KwFor t1 then for_stmt start true else unexpected start
  | _ => unexpected start
  end.
End stmts.

Fixpoint stmt_fuel (fuel : nat) : P AstStatement :=
  match fuel with
  | O => out_of_fuel
  | S fuel' => stmt_body (stmt_fuel fuel')
  end.
Definition parse_stmt : P AstStatement := stmt_fuel (S (length toks)).

(** ** Statements of a function *)

Definition expr_stmt : P AstStatement :=
  e ← parse_expr; mret (with_st_span (e_span e) (with_st_expr e (with_st_kind SExpr stmt0))).

Section func.
Context (parse_func_body_stmt : P AstStatement).

Definition parse_func_guard_stmt (guard_tok : Token) : P AstStatement :=
  is_match ← took KwMatch;
  binding ← guard_binding is_match;
  cond ← parse_expr;
  let x := with_st_expr cond (with_st_bind_value binding.2 (with_st_name binding.1 (with_st_kind SGuard stmt0))) in
  expect KwElse;;
  expect LBrace;;
  if is_match : bool then
    arms ← match_arms (fun arm => no_arm_guard;; mret arm) Arrow parse_func_body_stmt (fun _ => true) span0;
    rbrace ← close_arms arms;
    mret (with_st_span (span_to guard_tok (end_ rbrace)) (with_st_match_arms arms x))
  else
    else_stmt ← parse_func_body_stmt;
    rbrace ← expect RBrace;
    p ← alloc_stmt else_stmt;
    mret (with_st_span (span_to guard_tok (end_ rbrace)) (with_st_else_stmt (Some p) x)).

Definition expr_span_to (e : AstExpr) (i : nat) : Span := span_end i (e_span e).

Definition func_if_stmt : P AstStatement :=
  cond ← parse_expr;
  expect LBrace;;
  then_stmt ← parse_func_body_stmt;
  expect RBrace;;
  expect KwElse;;
  expect LBrace;;
  else_stmt ← parse_func_body_stmt;
  else_rbrace ← expect RBrace;
  p ← alloc_stmt then_stmt;
  q ← alloc_stmt else_stmt;
  mret (with_st_span (expr_span_to cond (end_ else_rbrace)) (with_st_else_stmt (Some q) (with_st_then_stmt (Some p)
    (with_st_expr cond (with_st_kind SIf stmt0))))).

Definition func_match_stmt : P AstStatement :=
  is_const ← took KwConst;
  subject ← parse_expr;
  expect LBrace;;
  arms ← match_arms arm_guard_of Arrow parse_func_body_stmt (fun _ => true) span0;
  rbrace ← close_arms arms;
  mret (with_st_span (expr_span_to subject (end_ rbrace)) (with_st_match_arms arms (with_st_expr subject
    (with_st_is_const is_const (with_st_kind SMatch stmt0))))).

(** A block: lets and guards, then a branch or an expression as its last. *)
Definition func_block (start : Token) : P AstStatement :=
  l ← loop (fun l =>
    fin ← at_block_end;
    if fin : bool then mret (inr l)
    else
      t ← cur;
      let add (last : bool) (x : AstStatement) :=
        p ← alloc_stmt x;
        l ← push_within kMaxBlockStatements l p (st_span x);
        mret (if last then inr l else inl l) in
      match type t with
      | KwLet => x ← parse_stmt; add false x
      | KwGuard => bump;; x ← parse_func_guard_stmt t; add false x
      | KwIf | KwMatch => x ← parse_func_body_stmt; add true x
      | _ => x ← expr_stmt; add true x
      end) [];
  rbrace ← expect RBrace;
  if Nat.eqb (length l) 0 then fail_at UnexpectedToken (token_span rbrace) []
  else mret (with_st_span (span_to start (end_ rbrace)) (with_st_block_stmts l (with_st_kind SBlock stmt0))).

Definition func_stmt_body : P AstStatement :=
  t ← cur;
  match type t with
  | KwGuard => bump;; parse_func_guard_stmt t
  | KwIf => bump;; func_if_stmt
  | KwMatch => bump;; func_match_stmt
  | LBrace => bump;; func_block t
  | _ => expr_stmt
  end.
End func.

Fixpoint func_stmt_fuel (fuel : nat) : P AstStatement :=
  match fuel with
  | O => out_of_fuel
  | S fuel' => func_stmt_body (func_stmt_fuel fuel')
  end.
Definition parse_func_body_stmt : P AstStatement := func_stmt_fuel (S (S (length toks))).
End parser.
