(* ===== verification/ParserItems.v ===== *)
(** * Parser: declarations and files

    Model of the declarations of src/compiler/parser.cc, the route blocks and
    [parse_file]. *)

From S2P Require Import Prelude Lexer Ast Parser ParserStmt.

Section parser.
Context (toks : list Token).
Notation cur := (cur toks).
Notation prev := (prev toks).
Notation peek := (peek toks).
Notation take := (take toks).
Notation took := (took toks).
Notation expect := (expect toks).
Notation loop := (loop toks).
Notation parse_expr := (parse_expr toks).
Notation parse_stmt := (parse_stmt toks).
Notation at_block_end := (at_block_end toks).
Notation parse_func_type_ref := (parse_func_type_ref toks).
Notation parse_func_body_stmt := (parse_func_body_stmt toks).

Definition is_word (w : string) (t : Token) : bool := is_type Ident t && str_eq (text t) (bs w).

(** [<A, B, ...>] behind a name. *)
Definition kMaxTypeParams : nat := 4.
Definition type_params : P (list Str) :=
  lt ← took Lt;
  if lt : bool then
    loop (fun l =>
      t ← expect Ident;
      l ← push_within kMaxTypeParams l (text t) (token_span t);
      close ← took Gt;
      if close : bool then mret (inr l) else expect Comma;; mret (inl l)) []
  else mret [].

(** [name] or [namespace.name]: the namespace, the name and the first token. *)
Definition qualified : P (Str * Str * Token) :=
  t ← expect Ident;
  dot ← took Dot;
  if dot : bool then member ← expect Ident; mret (text t, text member, t) else mret ([], text t, t).

(** ** Upstreams *)

Definition upstream_fields (addr : Span) : P (Str * Z) :=
  r ← loop (fun '(host, port) =>
    field ← expect Ident;
    expect Colon;;
    let again := fail_at UnexpectedToken (token_span field) (text field) in
    hp ← (if str_eq (text field) (bs "host") then
            match host with
            | Some _ => again
            | None => lit ← expect StringLit; mret (Some (text lit), port)
            end
          else if str_eq (text field) (bs "port") then
            match port with
            | Some _ => again
            | None => lit ← expect IntLit; v ← parse_int kMaxU32 lit; mret (host, Some v)
            end
          else again);
    comma ← took Comma;
    if negb comma then mret (inr hp)
    else t ← cur; if is_type RBrace t then mret (inr hp) else mret (inl hp)) (None, None);
  match r with
  | (Some h, Some p) => rbrace ← expect RBrace; mret (h, p)
  | (None, _) => rbrace ← expect RBrace; fail_at UnsupportedSyntax addr (bs "host")
  | (Some _, None) => rbrace ← expect RBrace; fail_at UnsupportedSyntax addr (bs "port")
  end.

Definition parse_upstream : P AstItem :=
  kw ← expect KwUpstream;
  name ← expect Ident;
  after_name ← cur;
  if is_word "at" after_name then
    bump;;
    lit ← expect StringLit;
    mret (mkItem (span_to kw (end_ lit)) (DUpstream (mkUpstream (text name) true (text lit) (token_span lit) false 0)))
  else if is_type LBrace after_name then
    lbrace ← expect LBrace;
    t ← cur;
    if is_type RBrace t then fail_at UnsupportedSyntax (token_span t) []
    else
      hp ← upstream_fields (token_span lbrace);
      rbrace ← prev;
      mret (mkItem (span_to kw (end_ rbrace))
        (DUpstream (mkUpstream (text name) true hp.1 (span_to lbrace (end_ rbrace)) true hp.2)))
  else mret (mkItem (span_to kw (end_ name)) (DUpstream (mkUpstream (text name) false [] span0 false 0))).

(** ** Functions *)

Definition kMaxConstraints : nat := 4.
Definition kMaxParams : nat := 8.

Definition append_constraint (d : TypeParamDecl) (ns c : Str) (sp : Span) : P TypeParamDecl :=
  nss ← push_within kMaxConstraints (tp_constraint_namespaces d) ns sp;
  cs ← push_within kMaxConstraints (tp_constraints d) c sp;
  mret (if Nat.eqb (length (tp_constraints d)) 0 then mkTypeParam (tp_name d) true ns c nss cs
        else mkTypeParam (tp_name d) true (tp_constraint_namespace d) (tp_constraint d) nss cs).

(** [: A, b.B] behind a type parameter, up to the comma of the next one. *)
Definition constraints (d : TypeParamDecl) : P TypeParamDecl :=
  loop (fun d =>
    q ← qualified;
    d ← append_constraint d q.1.1 q.1.2 (token_span q.2);
    t ← cur;
    t1 ← peek 1;
    if negb (is_type Comma t) || is_type Gt t1 then mret (inr d) else expect Comma;; mret (inl d)) d.

Definition func_type_params : P (list TypeParamDecl) :=
  lt ← took Lt;
  if lt : bool then
    loop (fun l =>
      t ← expect Ident;
      colon ← took Colon;
      let d := mkTypeParam (text t) false [] [] [] [] in
      d ← (if colon : bool then constraints d else mret d);
      l ← push_within kMaxTypeParams l d (token_span t);
      close ← took Gt;
      if close : bool then mret (inr l) else expect Comma;; mret (inl l)) []
  else mret [].

Definition func_params : P (list ParamDecl) :=
  expect LParen;;
  rp ← took RParen;
  if rp : bool then mret []
  else
    loop (fun l =>
      underscore ← took Underscore;
      name ← expect Ident;
      expect Colon;;
      ty ← parse_func_type_ref;
      l ← push_within kMaxParams l (mkParamDecl (text name) ty underscore) (token_span name);
      close ← took RParen;
      if close : bool then mret (inr l) else expect Comma;; mret (inl l)) [].

Definition return_type : P (option AstTypeRef) :=
  arrow ← took ThinArrow;
  if arrow : bool then t ← parse_func_type_ref; mret (Some t) else mret None.

(** The first type parameter of that name. *)
Definition find_param (name : Str) (l : list TypeParamDecl) : option (nat * TypeParamDecl) :=
  list_find (fun d => tp_name d = name) l.

Definition where_clause (l : list TypeParamDecl) : P (list TypeParamDecl) :=
  kw ← took KwWhere;
  if kw : bool then
    loop (fun l =>
      q ← qualified;
      expect LParen;;
      tp ← expect Ident;
      expect RParen;;
      match find_param (text tp) l with
      | None => fail_at UnsupportedSyntax (token_span tp) (text tp)
      | Some (i, d) =>
          d ← append_constraint d q.1.1 q.1.2 (token_span q.2);
          let l := <[i := d]> l in
          comma ← took Comma;
          if comma : bool then mret (inl l) else mret (inr l)
      end) l
  else mret l.

Definition parse_func : P AstItem :=
  kw ← expect KwFunc;
  name ← expect Ident;
  tps ← func_type_params;
  params ← func_params;
  ret ← return_type;
  tps ← where_clause tps;
  arrow ← took Arrow;
  body ← (if arrow : bool then expr_stmt toks else parse_func_body_stmt);
  p ← alloc_stmt body;
  let sp := span_to kw (s_end (st_span body)) in
  mret (mkItem sp (DFunc (mkFunction sp (text name) ret p tps params))).

(** ** Structs, variants and protocols *)

Definition kMaxFields : nat := 8.
Definition kMaxCases : nat := 16.
Definition kMaxMethods : nat := 8.
Definition kMaxAssociatedTypes : nat := 8.

Definition parse_variant : P AstItem :=
  kw ← expect KwVariant;
  name ← expect Ident;
  tps ← type_params;
  expect LBrace;;
  cases ← loop (fun l =>
    fin ← at_block_end;
    if fin : bool then mret (inr l)
    else
      c ← expect Ident;
      lp ← took LParen;
      payload ← (if lp : bool then t ← parse_func_type_ref; expect RParen;; mret (Some t) else mret None);
      l ← push_within kMaxCases l (text c, payload) (token_span c);
      took Comma;;
      mret (inl l)) [];
  rbrace ← expect RBrace;
  if Nat.eqb (length cases) 0 then fail_at UnexpectedToken (token_span rbrace) []
  else mret (mkItem (span_to kw (end_ rbrace)) (DVariant (mkVariant (text name) tps cases))).

Definition parse_struct : P AstItem :=
  kw ← expect KwStruct;
  name ← expect Ident;
  tps ← type_params;
  expect LBrace;;
  fields ← loop (fun l =>
    fin ← at_block_end;
    if fin : bool then mret (inr l)
    else
      f ← expect_field_name toks;
      expect Colon;;
      t ← parse_func_type_ref;
      l ← push_within kMaxFields l (text f, t) (token_span f);
      took Comma;;
      mret (inl l)) [];
  rbrace ← expect RBrace;
  if Nat.eqb (length fields) 0 then fail_at UnexpectedToken (token_span rbrace) []
  else mret (mkItem (span_to kw (end_ rbrace)) (DStruct (mkStruct (text name) tps fields))).

Definition method_body : P (option nat) :=
  arrow ← took Arrow;
  if arrow : bool then x ← expr_stmt toks; p ← alloc_stmt x; mret (Some p)
  else
    t ← cur;
    if is_type LBrace t then x ← parse_func_body_stmt; p ← alloc_stmt x; mret (Some p) else mret None.

Definition parse_protocol : P AstItem :=
  kw ← expect KwProtocol;
  name ← expect Ident;
  expect LBrace;;
  d ← loop (fun '(assocs, methods) =>
    fin ← at_block_end;
    if fin : bool then mret (inr (assocs, methods))
    else
      t ← cur;
      if is_word "type" t then
        expect Ident;;
        a ← expect Ident;
        assocs ← push_within kMaxAssociatedTypes assocs (text a) (token_span a);
        mret (inl (assocs, methods))
      else
        expect KwFunc;;
        m ← expect Ident;
        params ← func_params;
        ret ← return_type;
        body ← method_body;
        methods ← push_within kMaxMethods methods (mkMethod (text m) ret body params) (token_span m);
        mret (inl (assocs, methods))) ([], []);
  rbrace ← expect RBrace;
  mret (mkItem (span_to kw (end_ rbrace)) (DProtocol (mkProtocol (text name) d.1 d.2))).

(** ** Implementations *)

Definition kMaxProtocols : nat := 4.

Definition impl_protocols : P (list Str * list Str) :=
  loop (fun '(nss, names) =>
    q ← qualified;
    nss ← push_within kMaxProtocols nss q.1.1 (token_span q.2);
    names ← push_within kMaxProtocols names q.1.2 (token_span q.2);
    comma ← took Comma;
    if comma : bool then mret (inl (nss, names)) else mret (inr (nss, names))) ([], []).

Definition parse_impl : P AstItem :=
  target ← parse_func_type_ref;
  kw ← expect KwImpl;
  protos ← impl_protocols;
  expect LBrace;;
  d ← loop (fun '(assocs, methods) =>
    fin ← at_block_end;
    if fin : bool then mret (inr (assocs, methods))
    else
      t ← cur;
      if is_word "type" t then
        expect Ident;;
        a ← expect Ident;
        expect Eq;;
        ty ← parse_func_type_ref;
        assocs ← push_within kMaxAssociatedTypes assocs (text a, ty) (token_span a);
        mret (inl (assocs, methods))
      else
        m ← parse_func;
        match i_decl m with
        | DFunc f =>
            methods ← push_within kMaxMethods methods f (token_span kw);
            mret (inl (assocs, methods))
        | _ => fail_at UnsupportedSyntax span0 []
        end) ([], []);
  rbrace ← expect RBrace;
  mret (mkItem (span_to kw (end_ rbrace)) (DImpl (mkImpl target protos.1 protos.2 d.1 d.2))).

(** ** Imports, usings and aliases *)

Definition kMaxSelectedNames : nat := 16.
Definition kMaxTargetParts : nat := 8.
Definition kMaxArms : nat := 8.

Definition from_word : P unit :=
  t ← expect Ident;
  if str_eq (text t) (bs "from") then mret tt else fail_at UnexpectedToken (token_span t) (text t).

Definition selected_names : P (list (Str * option Str)) :=
  loop (fun l =>
    name ← expect Ident;
    kw_as ← took KwAs;
    alias ← (if kw_as : bool then t ← expect Ident; mret (Some (text t)) else mret None);
    l ← push_within kMaxSelectedNames l (text name, alias) (token_span name);
    close ← took RBrace;
    if close : bool then mret (inr l) else expect Comma;; mret (inl l)) [].

Definition parse_import : P AstItem :=
  kw ← expect KwImport;
  lb ← took LBrace;
  what ← (if lb : bool then l ← selected_names; from_word;; mret (true, None, l)
          else
            star ← took Star;
            if star : bool then
              expect KwAs;;
              alias ← expect Ident;
              from_word;; mret (false, Some (text alias), [])
            else mret (false, None, []));
  path ← expect StringLit;
  mret (mkItem (span_to kw (end_ path)) (DImport (mkImport (text path) what.1.1 what.1.2 what.2))).

Definition parse_using : P AstItem :=
  kw ← expect KwUsing;
  name ← expect Ident;
  expect Eq;;
  first ← expect Ident;
  parts ← push_within kMaxTargetParts [] (text first) (token_span first);
  parts ← loop (fun l =>
    dot ← took Dot;
    if dot : bool then
      part ← expect Ident;
      l ← push_within kMaxTargetParts l (text part) (token_span part);
      mret (inl l)
    else mret (inr l)) parts;
  t ← cur;
  if Nat.ltb (length parts) 2 then fail_at UnsupportedSyntax (span_to kw (start t)) []
  else
    last ← prev;
    mret (mkItem (span_to kw (end_ last)) (DUsing (mkUsing (text name) parts))).

(** [a.b]; the second part is empty without a dot. *)
Definition dotted : P (Str * Str * Token) :=
  t ← expect Ident;
  dot ← took Dot;
  if dot : bool then m ← expect Ident; mret (text t, text m, t) else mret (text t, [], t).

Definition alias_arm : P ArmDecl :=
  wild ← took Underscore;
  if wild : bool then mret (mkArmDecl true false [] [] [] [] [] [] type0)
  else
    l ← dotted;
    eq ← took EqEq;
    if eq : bool then
      r ← dotted;
      mret (mkArmDecl false true l.1.1 l.1.2 r.1.1 r.1.2 [] [] type0)
    else if negb (Nat.eqb (length l.1.2) 0) then fail_at UnsupportedSyntax (token_span l.2) []
    else
      expect Colon;;
      q ← qualified;
      mret (mkArmDecl false false l.1.1 [] [] [] q.1.1 q.1.2 type0).

Definition set_ad_type (t : AstTypeRef) (a : ArmDecl) : ArmDecl :=
  mkArmDecl (ad_is_wildcard a) (ad_is_type_equality a) (ad_type_param a) (ad_associated_name a) (ad_rhs_type_param a)
    (ad_rhs_associated_name a) (ad_constraint_namespace a) (ad_constraint a) t.

Definition parse_type_alias : P AstItem :=
  type_kw ← expect Ident;
  if negb (str_eq (text type_kw) (bs "type")) then fail_at UnexpectedToken (token_span type_kw) (text type_kw)
  else
    name ← expect Ident;
    tps ← type_params;
    eq ← took Eq;
    if eq : bool then
      t ← parse_func_type_ref;
      mret (mkItem (token_span type_kw) (DTypeAlias (mkTypeAlias (text name) tps false t [])))
    else
      expect KwMatch;;
      expect LBrace;;
      arms ← loop (fun l =>
        fin ← at_block_end;
        if fin : bool then mret (inr l)
        else
          case_kw ← expect KwCase;
          arm ← alias_arm;
          expect Arrow;;
          t ← parse_func_type_ref;
          l ← push_within kMaxArms l (set_ad_type t arm) (token_span case_kw);
          mret (inl l)) [];
      rbrace ← expect RBrace;
      if Nat.eqb (length arms) 0 then fail_at UnexpectedToken (token_span rbrace) []
      else mret (mkItem (token_span type_kw) (DTypeAlias (mkTypeAlias (text name) tps true type0 arms))).

(** ** Routes *)

Definition kMaxStatements : nat := 16.
Definition kMaxDecorators : nat := 8.

Definition parse_decorator_atom : P AstDecorator :=
  at_ ← expect At;
  name ← expect Ident;
  mret (mkDecorator (span_to at_ (end_ name)) (text name)).

Definition binding_matches (pattern : Str) (is_wildcard : bool) (path : Str) : bool :=
  if is_wildcard then true
  else if Nat.ltb (length path) (length pattern) then false
  else is_prefix pattern path.

(** A statement behind which a route goes on. *)
Definition continues (x : AstStatement) : bool :=
  bool_decide (st_kind x = SLet) || bool_decide (st_kind x = SGuard) || bool_decide (st_kind x = SWait) ||
  bool_decide (st_kind x = SFor).

Definition parse_route_entry (kw_route : Token) (decorators : Str -> P (list AstDecorator)) : P AstItem :=
  method ← cur;
  if negb (is_method_keyword (type method)) then fail_at UnexpectedToken (token_span method) (text method)
  else
    bump;;
    path ← expect StringLit;
    lbrace ← expect LBrace;
    stmts ← loop (fun l =>
      fin ← at_block_end;
      if fin : bool then mret (inr l)
      else
        x ← parse_stmt;
        l ← push_within kMaxStatements l x (st_span x);
        mret (if continues x then inl l else inr l)) [];
    rbrace ← expect RBrace;
    if Nat.eqb (length stmts) 0 then fail_at UnexpectedToken (token_span rbrace) []
    else
      ds ← decorators (text path);
      mret (mkItem (span_to kw_route (end_ rbrace))
        (DRoute (mkRoute (span_to lbrace (end_ rbrace)) (type method) (text path) stmts ds))).

Definition parse_route : P AstItem :=
  kw ← expect KwRoute;
  parse_route_entry kw (fun _ => mret []).

(** The bindings that match the path, then the decorators of the entry. *)
Fixpoint push_decorators (new out : list AstDecorator) : P (list AstDecorator) :=
  match new with
  | [] => mret out
  | d :: new' => out ← push_within kMaxDecorators out d (dc_span d); push_decorators new' out
  end.

Definition bindings : P (list (AstDecorator * Str * bool)) :=
  loop (fun l =>
    t ← cur;
    t1 ← peek 1;
    t2 ← peek 2;
    if is_type At t && is_type Ident t1 && is_type StringLit t2 then
      d ← parse_decorator_atom;
      pat ← expect StringLit;
      let wild := Nat.eqb (length (text pat)) 1 && (rd (text pat) 0 =? ch "*") in
      l ← push_within kMaxDecorators l (d, text pat, wild) (dc_span d);
      mret (inl l)
    else mret (inr l)) [].

Definition entry_decorators : P (list AstDecorator) :=
  loop (fun l =>
    t ← cur;
    if is_type At t then
      d ← parse_decorator_atom;
      l ← push_within kMaxDecorators l d (dc_span d);
      mret (inl l)
    else mret (inr l)) [].

Definition parse_route_block : P nat :=
  kw ← expect KwRoute;
  expect LBrace;;
  binds ← bindings;
  emitted ← loop (fun n =>
    fin ← at_block_end;
    if fin : bool then mret (inr n)
    else
      ds ← entry_decorators;
      entry ← parse_route_entry kw (fun path =>
        let matching := List.filter (fun b : AstDecorator * Str * bool => binding_matches b.1.2 b.2 path) binds in
        push_decorators (((fun b => b.1.1) <$> matching) ++ ds) []);
      push_item entry;;
      mret (inl (S n))) 0%nat;
  rbrace ← expect RBrace;
  if Nat.eqb emitted 0 then fail_at UnexpectedToken (token_span rbrace) [] else mret emitted.

(** ** Files *)

Definition parse_package : P (option (Str * Span)) :=
  t ← cur;
  if is_type KwPackage t then
    kw ← expect KwPackage;
    name ← expect Ident;
    mret (Some (text name, span_to kw (end_ name)))
  else mret None.

Definition parse_item (t : Token) : P AstItem :=
  match type t with
  | KwUpstream => parse_upstream
  | KwFunc => parse_func
  | KwStruct => parse_struct
  | KwProtocol => parse_protocol
  | KwImport => parse_import
  | KwUsing => parse_using
  | KwVariant => parse_variant
  | KwRoute => parse_route
  | Ident => if str_eq (text t) (bs "type") then parse_type_alias else parse_impl
  | LParen => parse_impl
  | _ => unexpected t
  end.

Definition file_body : P unit :=
  loop (fun _ : unit =>
    t ← cur;
    if is_type Eof t then mret (inr tt)
    else
      t1 ← peek 1;
      if is_type KwRoute t && is_type LBrace t1 then parse_route_block;; mret (inl tt)
      else item ← parse_item t; push_item item;; mret (inl tt)) tt.

Definition parse_file_from : P (option (Str * Span)) := package ← parse_package; file_body;; mret package.
End parser.

Definition start_state : PState := mkP 0 [] [] [] [].

(** [parse_file]: the package and the file, or the first error. *)
Definition parse_file (toks : list Token) : PRes (option (Str * Span)) := parse_file_from toks start_state.
