(* ===== verification/ParserLogic.v ===== *)
(** * A program logic for the parser

    [run s0 m s Q]: from the state [s] the parser function [m] neither reads past
    the tokens nor runs out of fuel; it ends with [Q], or with an error whose
    state is good and has pools no shorter than those of [s0].  A state is good
    when the cursor is on a token and every pointer of the pools leads to an
    earlier entry.  [spec lim m strict ok] is the contract of a function: from
    any good state at or behind the token [lim] it ends in a good state, further
    on if [strict], with a result that is [ok] for its pools. *)

From S2P Require Import Prelude Lexer Ast Parser.

(** ** Pointers stay valid while the pools grow *)

Lemma all_below_mono n n' l : all_below n l -> (n <= n')%nat -> all_below n' l.
Proof. intros H Hn. eapply Forall_impl; [exact H|]. cbn. lia. Qed.

Lemma opt_below_mono n n' o : opt_below n o -> (n <= n')%nat -> opt_below n' o.
Proof. intros H Hn i Hi. specialize (H i Hi). lia. Qed.

Lemma type_ok_mono n n' t : type_ok n t -> (n <= n')%nat -> type_ok n' t.
Proof. intros [H1 H2] Hn. split; by eapply all_below_mono. Qed.

Lemma types_ok_mono n n' l : Forall (type_ok n) l -> (n <= n')%nat -> Forall (type_ok n') l.
Proof. intros H Hn. eapply Forall_impl; [exact H|]. intros t Ht. by eapply type_ok_mono. Qed.

Lemma expr_ok_mono ne ne' nt nt' e : expr_ok ne nt e -> (ne <= ne')%nat -> (nt <= nt')%nat -> expr_ok ne' nt' e.
Proof.
  intros (h1 & h2 & h3 & h4 & h5) He Ht.
  split_and!; [by eapply opt_below_mono.. | by eapply all_below_mono | by eapply all_below_mono | by eapply types_ok_mono].
Qed.

Lemma arm_ok_mono ne ne' ns ns' nt nt' a :
  arm_ok ne ns nt a -> (ne <= ne')%nat -> (ns <= ns')%nat -> (nt <= nt')%nat -> arm_ok ne' ns' nt' a.
Proof.
  intros (h1 & h2 & h3) He Hs Ht. split_and!; [by eapply expr_ok_mono | by eapply opt_below_mono | by eapply opt_below_mono].
Qed.

Lemma arms_ok_mono ne ne' ns ns' nt nt' l :
  Forall (arm_ok ne ns nt) l -> (ne <= ne')%nat -> (ns <= ns')%nat -> (nt <= nt')%nat -> Forall (arm_ok ne' ns' nt') l.
Proof. intros H ? ? ?. eapply Forall_impl; [exact H|]. intros a Ha. by eapply arm_ok_mono. Qed.

Lemma stmt_ok_mono ne ne' ns ns' nt nt' x :
  stmt_ok ne ns nt x -> (ne <= ne')%nat -> (ns <= ns')%nat -> (nt <= nt')%nat -> stmt_ok ne' ns' nt' x.
Proof.
  intros (h1 & h2 & h3 & h4 & h5 & h6 & h7) He Hs Ht. split_and!;
    [by eapply type_ok_mono | by eapply expr_ok_mono | by eapply opt_below_mono | by eapply opt_below_mono
    | by eapply all_below_mono | by eapply arms_ok_mono | exact h7].
Qed.

Lemma stmts_ok_mono ne ne' ns ns' nt nt' l :
  Forall (stmt_ok ne ns nt) l -> (ne <= ne')%nat -> (ns <= ns')%nat -> (nt <= nt')%nat -> Forall (stmt_ok ne' ns' nt') l.
Proof. intros H ? ? ?. eapply Forall_impl; [exact H|]. intros a Ha. by eapply stmt_ok_mono. Qed.

Lemma opt_type_mono n n' o : (forall t, o = Some t -> type_ok n t) -> (n <= n')%nat -> forall t, o = Some t -> type_ok n' t.
Proof. intros H Hn t Ht. eapply type_ok_mono; [by apply H | done]. Qed.

Lemma typed_mono {A} (f : A -> AstTypeRef) n n' l :
  Forall (fun p => type_ok n (f p)) l -> (n <= n')%nat -> Forall (fun p => type_ok n' (f p)) l.
Proof. intros H Hn. eapply Forall_impl; [exact H|]. intros p Hp. exact (type_ok_mono n n' (f p) Hp Hn). Qed.

Lemma fn_ok_mono ns ns' nt nt' f : fn_ok ns nt f -> (ns <= ns')%nat -> (nt <= nt')%nat -> fn_ok ns' nt' f.
Proof. intros (h1 & h2 & h3) ? ?. split_and!; [by eapply opt_type_mono | lia | by eapply typed_mono]. Qed.

Lemma fns_ok_mono ns ns' nt nt' l :
  Forall (fn_ok ns nt) l -> (ns <= ns')%nat -> (nt <= nt')%nat -> Forall (fn_ok ns' nt') l.
Proof. intros H ? ?. eapply Forall_impl; [exact H|]. intros a Ha. by eapply fn_ok_mono. Qed.

Lemma methods_ok_mono ns ns' nt nt' l :
  Forall (method_ok ns nt) l -> (ns <= ns')%nat -> (nt <= nt')%nat -> Forall (method_ok ns' nt') l.
Proof.
  intros H ? ?. eapply Forall_impl; [exact H|]. intros a (h1 & h2 & h3).
  split; [by apply (opt_type_mono nt) | split; [by eapply opt_below_mono | by eapply typed_mono]].
Qed.

Lemma cases_mono n n' (l : list (Str * option AstTypeRef)) :
  Forall (fun c => forall t, c.2 = Some t -> type_ok n t) l -> (n <= n')%nat ->
  Forall (fun c => forall t, c.2 = Some t -> type_ok n' t) l.
Proof. intros H Hn. eapply Forall_impl; [exact H|]. intros p Hp. exact (opt_type_mono n n' p.2 Hp Hn). Qed.

Lemma decl_ok_mono ne ne' ns ns' nt nt' d :
  decl_ok ne ns nt d -> (ne <= ne')%nat -> (ns <= ns')%nat -> (nt <= nt')%nat -> decl_ok ne' ns' nt' d.
Proof.
  destruct d; cbn; intros H He Hs Ht; try done.
  - by eapply fn_ok_mono.
  - by eapply typed_mono.
  - by eapply cases_mono.
  - by eapply methods_ok_mono.
  - destruct H. split; [by eapply type_ok_mono | by eapply typed_mono].
  - destruct H as (? & ? & ?). split_and!; [by eapply type_ok_mono | by eapply typed_mono | by eapply fns_ok_mono].
  - by eapply stmts_ok_mono.
Qed.

(** ** Good states *)

Definition ne (s : PState) : nat := length (expr_pool s).
Definition ns (s : PState) : nat := length (stmt_pool s).
Definition nt (s : PState) : nat := length (type_pool s).

Record pools_ok (s : PState) : Prop := {
  po_types : forall i t, type_pool s !! i = Some t -> type_ok i t;
  po_exprs : forall i e, expr_pool s !! i = Some e -> expr_ok i (nt s) e;
  po_stmts : forall i x, stmt_pool s !! i = Some x -> stmt_ok (ne s) i (nt s) x;
  po_items : Forall (fun it => decl_ok (ne s) (ns s) (nt s) (i_decl it)) (items s);
  po_room : (ne s <= kMaxExprPool /\ ns s <= kMaxStmtPool /\ nt s <= kMaxTypePool /\ length (items s) <= kMaxItems)%nat
}.

Definition grows (s s' : PState) : Prop := (ne s <= ne s' /\ ns s <= ns s' /\ nt s <= nt s')%nat.

(** The tokens end with the only [Eof]. *)
Definition eof_last (toks : list Token) : Prop :=
  exists front t, toks = front ++ [t] /\ type t = Eof /\ Forall (fun t => type t <> Eof) front.

Section logic.
Context (toks : list Token) (Heof : eof_last toks).

Definition good (s : PState) : Prop := (p_pos s < length toks)%nat /\ pools_ok s.

Definition run {A} (s0 : PState) (m : P A) (s : PState) (Q : A -> PState -> Prop) : Prop :=
  match m s with
  | POk a s' => Q a s'
  | PErr _ s' => good s' /\ grows s0 s'
  | PFault | PFuel => False
  end.

Lemma run_bind {A B} s0 (m : P A) (f : A -> P B) s Q :
  run s0 m s (fun a s' => run s0 (f a) s' Q) -> run s0 (m ≫= f) s Q.
Proof. unfold run, mbind, P_bind. by destruct (m s). Qed.

Lemma run_ret {A} s0 (a : A) s (Q : A -> PState -> Prop) : Q a s -> run s0 (mret a) s Q.
Proof. done. Qed.

Lemma run_fail {A} s0 c sp d s (Q : A -> PState -> Prop) : good s -> grows s0 s -> run s0 (fail_at c sp d) s Q.
Proof. done. Qed.

Lemma run_mono {A} s0 (m : P A) s (Q Q' : A -> PState -> Prop) :
  run s0 m s Q -> (forall a s', Q a s' -> Q' a s') -> run s0 m s Q'.
Proof. unfold run. destruct (m s); auto. Qed.

Lemma run_base {A} s0 s1 (m : P A) s Q : grows s0 s1 -> run s1 m s Q -> run s0 m s Q.
Proof. unfold run, grows. intros H. destruct (m s); auto. intros [? ?]. split; [done | lia]. Qed.

Lemma run_unexpected {A} s0 t s (Q : A -> PState -> Prop) : good s -> grows s0 s -> run s0 (unexpected t) s Q.
Proof. intros. unfold unexpected. by case_if. Qed.

Lemma run_push {A} s0 cap (l : list A) x sp s Q :
  good s -> grows s0 s -> ((length l < cap)%nat -> Q (l ++ [x]) s) -> run s0 (push_within cap l x sp) s Q.
Proof. intros Hg Hr H. unfold push_within. case_if; [done|]. zify_bool. by apply H. Qed.

Lemma run_int s0 limit t s Q :
  good s -> grows s0 s -> (forall v, Q v s) -> run s0 (parse_int limit t) s Q.
Proof. intros. unfold parse_int. destruct (digits_loop _ _ _); [by apply run_ret | by apply run_fail]. Qed.

Lemma run_wait_ms s0 t s Q : good s -> grows s0 s -> (forall v, Q v s) -> run s0 (parse_wait_ms t) s Q.
Proof.
  intros. unfold parse_wait_ms. destruct (split_unit t) as [[ds mult]|]; [|done].
  destruct (digits_loop _ _ _); [|done]. cbv zeta. case_if; [done | by apply run_ret].
Qed.

(** ** Cursor *)

(** [s'] is [s] with the cursor elsewhere. *)
Definition same_pools (s s' : PState) : Prop :=
  ne s' = ne s /\ ns s' = ns s /\ nt s' = nt s /\ (pools_ok s -> pools_ok s').

Lemma at_pos_pools i s : same_pools s (at_pos i s).
Proof. split_and!; try done. by intros []. Qed.

Lemma token_in i : (i < length toks)%nat -> exists t, toks !! i = Some t.
Proof. intros H. destruct (lookup_lt_is_Some_2 toks i H) as [t Ht]. eauto. Qed.

Lemma not_eof_inside i t : toks !! i = Some t -> type t <> Eof -> (S i < length toks)%nat.
Proof.
  destruct Heof as (front & e & -> & He & _). intros Hi Hne. pose proof (lookup_lt_Some _ _ _ Hi) as Hlt.
  rewrite length_app in *. cbn in *. destruct (decide (i = length front)) as [->|]; [|lia].
  rewrite lookup_app_r, Nat.sub_diag in Hi by lia. cbn in Hi. by injection Hi as ->.
Qed.

Lemma run_token s0 i s Q : (i < length toks)%nat -> (forall t, toks !! i = Some t -> Q t s) -> run s0 (token toks i) s Q.
Proof. intros Hi H. destruct (token_in i Hi) as [t Ht]. unfold run, token. rewrite Ht. by apply H. Qed.

Lemma run_cur s0 s Q : good s -> (forall t, toks !! p_pos s = Some t -> Q t s) -> run s0 (cur toks) s Q.
Proof. intros [Hp _] H. apply run_bind, run_ret, run_token; [done|]. intros t Ht. by apply H. Qed.

Lemma run_prev s0 s Q : good s -> (0 < p_pos s)%nat -> (forall t, Q t s) -> run s0 (prev toks) s Q.
Proof.
  intros [Hp _] H0 H. apply run_bind, run_ret. destruct (p_pos s); [lia|]. apply run_token; [lia|]. intros t Ht. by apply H.
Qed.

Lemma run_peek s0 k s Q : good s -> (forall t, Q t s) -> run s0 (peek toks k) s Q.
Proof.
  intros [Hp _] H. apply run_bind, run_ret. case_if; zify_bool; (apply run_token; [lia|]; intros t Ht; by apply H).
Qed.

(** Stepping over a token that is not the end. *)
Lemma run_bump s0 s t Q :
  good s -> toks !! p_pos s = Some t -> type t <> Eof ->
  (forall s', good s' -> p_pos s' = S (p_pos s) -> same_pools s s' -> Q tt s') -> run s0 bump s Q.
Proof.
  intros [Hp Hg] Ht Hne H. apply (H (at_pos (S (p_pos s)) s)); [|done|apply at_pos_pools].
  split; [by apply (not_eof_inside _ t) | by destruct Hg].
Qed.

Lemma run_take s0 ty s Q :
  good s -> ty <> Eof ->
  (forall t s', type t = ty -> good s' -> p_pos s' = S (p_pos s) -> same_pools s s' -> Q (Some t) s') -> Q None s ->
  run s0 (take toks ty) s Q.
Proof.
  intros Hg Hne H H'. apply run_bind, run_cur; [done|]. intros t Ht. unfold is_type. case_bool_decide as E; [|done].
  apply run_bind, (run_bump _ _ t); [done | done | congruence |]. intros s' ? ? ?. by apply H.
Qed.

Lemma run_took s0 ty s Q :
  good s -> ty <> Eof ->
  (forall s', good s' -> p_pos s' = S (p_pos s) -> same_pools s s' -> Q true s') -> Q false s ->
  run s0 (took toks ty) s Q.
Proof.
  intros Hg Hne H H'. apply run_bind, run_take; [done | done | |done]. intros t s' _ ? ? ?. by apply H.
Qed.

Lemma run_expect s0 ty s Q :
  good s -> grows s0 s -> ty <> Eof ->
  (forall t s', good s' -> p_pos s' = S (p_pos s) -> same_pools s s' -> Q t s') -> run s0 (expect toks ty) s Q.
Proof.
  intros Hg Hr Hne H. apply run_bind, run_cur; [done|]. intros t Ht. unfold is_type at 1. case_bool_decide as E;
    [|by apply run_unexpected]. apply run_bind, (run_bump _ _ t); [done | done | congruence |]. intros s' ? ? ?. by apply H.
Qed.

Lemma run_field_name s0 s Q :
  good s -> grows s0 s ->
  (forall t s', good s' -> p_pos s' = S (p_pos s) -> same_pools s s' -> Q t s') -> run s0 (expect_field_name toks) s Q.
Proof.
  intros Hg Hr H. apply run_bind, run_cur; [done|]. intros t Ht. unfold is_type at 1 2.
  destruct (_ || _) eqn:E; [|by apply run_unexpected]. apply run_bind, (run_bump _ _ t); [done | done | |].
  - apply orb_true_iff in E. rewrite !bool_decide_eq_true in E. intros ?. destruct E; congruence.
  - intros s' ? ? ?. by apply H.
Qed.

(** ** Pools *)

Lemma run_alloc_expr s0 e s Q :
  good s -> grows s0 s -> expr_ok (ne s) (nt s) e ->
  (forall s', good s' -> p_pos s' = p_pos s -> ne s' = S (ne s) -> ns s' = ns s -> nt s' = nt s -> Q (ne s) s') ->
  run s0 (alloc_expr e) s Q.
Proof.
  intros [Hp Hg] Hr He H. unfold run, alloc_expr. case_if; [done|]. zify_bool. apply H; try done; [|unfold ne; cbn; rewrite length_app; cbn; lia].
  split; [done|]. destruct Hg as [h1 h2 h3 h4 h5]. unfold ne, ns, nt in *.
  split; unfold ne, ns, nt; cbn [expr_pool stmt_pool type_pool items]; rewrite ?length_app; cbn [length].
  - done.
  - intros i x Hx. apply lookup_app_Some in Hx as [Hx|[Hi Hx]]; [by apply h2|].
    apply list_lookup_singleton_Some in Hx as [Hx <-]. by replace i with (length (expr_pool s)) by lia.
  - intros i x Hx. eapply stmt_ok_mono; [by apply h3 | lia | lia | lia].
  - eapply Forall_impl; [exact h4|]. intros it Hit. eapply decl_ok_mono; [exact Hit | lia | lia | lia].
  - lia.
Qed.

Lemma run_alloc_stmt s0 x s Q :
  good s -> grows s0 s -> stmt_ok (ne s) (ns s) (nt s) x ->
  (forall s', good s' -> p_pos s' = p_pos s -> ne s' = ne s -> ns s' = S (ns s) -> nt s' = nt s -> Q (ns s) s') ->
  run s0 (alloc_stmt x) s Q.
Proof.
  intros [Hp Hg] Hr He H. unfold run, alloc_stmt. case_if; [done|]. zify_bool. apply H; try done; [|unfold ns; cbn; rewrite length_app; cbn; lia].
  split; [done|]. destruct Hg as [h1 h2 h3 h4 h5]. unfold ne, ns, nt in *.
  split; unfold ne, ns, nt; cbn [expr_pool stmt_pool type_pool items]; rewrite ?length_app; cbn [length]; try done.
  - intros i y Hx. apply lookup_app_Some in Hx as [Hx|[Hi Hx]]; [by apply h3|].
    apply list_lookup_singleton_Some in Hx as [Hx <-]. by replace i with (length (stmt_pool s)) by lia.
  - eapply Forall_impl; [exact h4|]. intros it Hit. eapply decl_ok_mono; [exact Hit | lia | lia | lia].
  - lia.
Qed.

Lemma run_alloc_type s0 t s Q :
  good s -> grows s0 s -> type_ok (nt s) t ->
  (forall s', good s' -> p_pos s' = p_pos s -> ne s' = ne s -> ns s' = ns s -> nt s' = S (nt s) -> Q (nt s) s') ->
  run s0 (alloc_type t) s Q.
Proof.
  intros [Hp Hg] Hr He H. unfold run, alloc_type. case_if; [done|]. zify_bool. apply H; try done; [|unfold nt; cbn; rewrite length_app; cbn; lia].
  split; [done|]. destruct Hg as [h1 h2 h3 h4 h5]. unfold ne, ns, nt in *.
  split; unfold ne, ns, nt; cbn [expr_pool stmt_pool type_pool items]; rewrite ?length_app; cbn [length].
  - intros i y Hx. apply lookup_app_Some in Hx as [Hx|[Hi Hx]]; [by apply h1|].
    apply list_lookup_singleton_Some in Hx as [Hx <-]. by replace i with (length (type_pool s)) by lia.
  - intros i x Hx. eapply expr_ok_mono; [by apply h2 | lia | lia].
  - intros i x Hx. eapply stmt_ok_mono; [by apply h3 | lia | lia | lia].
  - eapply Forall_impl; [exact h4|]. intros it Hit. eapply decl_ok_mono; [exact Hit | lia | lia | lia].
  - lia.
Qed.

Lemma run_push_item s0 it s Q :
  good s -> grows s0 s -> decl_ok (ne s) (ns s) (nt s) (i_decl it) ->
  (forall s', good s' -> p_pos s' = p_pos s -> ne s' = ne s -> ns s' = ns s -> nt s' = nt s -> Q tt s') ->
  run s0 (push_item it) s Q.
Proof.
  intros [Hp Hg] Hr He H. unfold run, push_item. case_if; [done|]. zify_bool. apply H; try done.
  split; [done|]. destruct Hg as [h1 h2 h3 h4 h5]. split; cbn [expr_pool stmt_pool type_pool items]; try done.
  - apply Forall_app. split; [done|]. by repeat constructor.
  - unfold ne, ns, nt in *. cbn. rewrite length_app. cbn. lia.
Qed.

(** ** Loops *)

(** Every turn that goes on steps over a token. *)
Lemma run_loop {A B} s0 (body : A -> P (A + B)) (Inv : A -> PState -> Prop) a s (Q : B -> PState -> Prop) :
  good s -> Inv a s ->
  (forall a s, good s -> Inv a s ->
     run s0 (body a) s (fun r s' => match r with
                                    | inl a' => good s' /\ (p_pos s < p_pos s')%nat /\ Inv a' s'
                                    | inr b => Q b s'
                                    end)) ->
  run s0 (loop toks body a) s Q.
Proof.
  intros Hg Hi Hb. unfold loop. assert (length toks - p_pos s < S (length toks))%nat as Hf by lia.
  revert a s Hg Hi Hf. generalize (S (length toks)). intros fuel. induction fuel as [|fuel IH]; intros a s Hg Hi Hf; [lia|].
  cbn [turns]. apply run_bind. eapply run_mono; [by apply Hb|]. intros [a'|b] s'; [|by intros].
  intros (Hg' & Hlt & Hi'). apply IH; [done | done |]. destruct Hg. lia.
Qed.

(** ** Contracts *)

Definition spec {A} (lim : nat) (m : P A) (strict : bool) (ok : PState -> A -> Prop) : Prop :=
  forall s0 s (Q : A -> PState -> Prop), good s -> grows s0 s -> (lim <= p_pos s)%nat ->
  (forall a s', good s' -> ((if strict then S (p_pos s) else p_pos s) <= p_pos s')%nat -> grows s s' -> ok s' a -> Q a s') ->
  run s0 m s Q.

Lemma spec_lim {A} lim lim' (m : P A) strict ok : spec lim m strict ok -> (lim <= lim')%nat -> spec lim' m strict ok.
Proof. intros H Hl s0 s Q Hg Hr Hp. apply H; [done | done | lia]. Qed.

Lemma run_attempt {A} s0 lim (m : P A) strict ok s Q :
  spec lim m strict ok -> good s -> grows s0 s -> (lim <= p_pos s)%nat ->
  (forall a s', good s' -> ((if strict then S (p_pos s) else p_pos s) <= p_pos s')%nat -> grows s s' -> ok s' a -> Q (Some a) s') ->
  (forall s', good s' -> grows s s' -> Q None s') -> run s0 (attempt m) s Q.
Proof.
  intros Hm Hg Hr Hp H H'.
  assert (run s m s (fun a s' => Q (Some a) s')) as Hrun by (apply Hm; [done | unfold grows; lia | done | done]).
  unfold run, attempt in *. destruct (m s); auto. destruct Hrun. by apply H'.
Qed.
End logic.

(** ** Automation *)

Lemma all_below_snoc n l i : all_below n l -> (i < n)%nat -> all_below n (l ++ [i]).
Proof. intros Hl Hi. apply Forall_app. split; [done|]. by repeat constructor. Qed.

Lemma Forall_snoc {A} (R : A -> Prop) l x : Forall R l -> R x -> Forall R (l ++ [x]).
Proof. intros Hl Hx. apply Forall_app. split; [done|]. by repeat constructor. Qed.

Lemma spec_use {A} toks lim (m : P A) strict ok s0 s Q :
  spec toks lim m strict ok -> good toks s -> grows s0 s -> (lim <= p_pos s)%nat ->
  (forall a s', good toks s' -> ((if strict then S (p_pos s) else p_pos s) <= p_pos s')%nat -> grows s s' -> ok s' a -> Q a s') ->
  run toks s0 m s Q.
Proof. intros H. apply H. Qed.

(** What a result promises of its pointers. *)
Definition ok_any {A} (s : PState) (a : A) : Prop := True.
Definition ok_type (s : PState) (t : AstTypeRef) : Prop := type_ok (nt s) t.
Definition ok_types (s : PState) (o : option (list AstTypeRef)) : Prop :=
  match o with Some l => Forall (type_ok (nt s)) l | None => True end.
Definition ok_expr (s : PState) (e : AstExpr) : Prop := expr_ok (ne s) (nt s) e.
Definition ok_args (s : PState) (l : list nat) : Prop := all_below (ne s) l.
Definition ok_inits (s : PState) (l : list (Str * nat)) : Prop := all_below (ne s) l.*2.
Definition ok_stmt (s : PState) (x : AstStatement) : Prop := stmt_ok (ne s) (ns s) (nt s) x.
Definition ok_block (s : PState) (l : list nat) : Prop := all_below (ns s) l.
Definition ok_arm (s : PState) (a : MatchArm) : Prop := arm_ok (ne s) (ns s) (nt s) a.
Definition ok_arms (s : PState) (l : list MatchArm) : Prop := Forall (arm_ok (ne s) (ns s) (nt s)) l.

Ltac open_ok := cbv beta iota delta [ok_any ok_type ok_types ok_expr ok_args ok_inits ok_stmt ok_block ok_arm ok_arms] in *.

(** Contracts of parser functions. *)
Create HintDb contracts discriminated.
#[export] Hint Constants Opaque : contracts.
#[export] Hint Extern 1 (_ <> Eof) => discriminate : contracts.

Ltac gr := unfold grows in *; lia.

(** Take the good nodes of the context apart. *)
Ltac open_nodes :=
  repeat match goal with
  | H : type_ok _ _ |- _ => destruct H as [? ?]
  | H : expr_ok _ _ _ |- _ => destruct H as (? & ? & ? & ? & ?)
  | H : arm_ok _ _ _ _ |- _ => destruct H as (? & ? & ?)
  | H : stmt_ok _ _ _ _ |- _ => destruct H as (? & ? & ? & ? & ? & ? & ?)
  end.

(** A result whose pointers are known to be valid in an earlier state. *)
Ltac ok_leaf :=
  lazymatch goal with
  | |- opt_below _ None => intros ? [=]
  | |- opt_below _ (Some _) => intros ? [= <-]; gr
  | |- opt_below _ _ => eapply opt_below_mono; [eassumption | gr]
  | |- all_below _ [] => constructor
  | |- all_below _ (_ <$> []) => constructor
  | |- all_below _ (_ <$> (_ ++ _)) => rewrite fmap_app; cbn [fmap list_fmap snd]; ok_leaf
  | |- all_below _ (_ :: _) => first [eapply all_below_mono; [eassumption | gr] | apply List.Forall_cons; [gr | ok_leaf]]
  | |- Forall _ (_ :: _) => apply List.Forall_cons; [ok_leaf | ok_leaf]
  | |- all_below _ (_ ++ [_]) => apply all_below_snoc; [ok_leaf | gr]
  | |- all_below _ _ => eapply all_below_mono; [eassumption | gr]
  | |- Forall _ [] => constructor
  | |- Forall (type_ok _) (_ ++ [_]) => apply Forall_snoc; [ok_leaf | ok_leaf]
  | |- Forall (arm_ok _ _ _) (_ ++ [_]) => apply Forall_snoc; [ok_leaf | ok_leaf]
  | |- Forall (type_ok _) _ => eapply types_ok_mono; [eassumption | gr]
  | |- Forall (arm_ok _ _ _) _ => eapply arms_ok_mono; [eassumption | gr | gr | gr]
  | |- Forall (stmt_ok _ _ _) _ => eapply stmts_ok_mono; [eassumption | gr | gr | gr]
  | |- type_ok _ type0 => split; constructor
  | |- type_ok _ _ => first [eapply type_ok_mono; [eassumption | gr] | unfold type_ok; cbn; open_nodes; split; ok_leaf]
  | |- expr_ok _ _ _ => first [eapply expr_ok_mono; [eassumption | gr | gr] | unfold expr_ok; cbn; open_nodes; split_and!; ok_leaf]
  | |- arm_ok _ _ _ _ => first [eapply arm_ok_mono; [eassumption | gr | gr | gr] | unfold arm_ok; cbn; open_nodes; split_and!; ok_leaf]
  | |- stmt_ok _ _ _ _ => first [eapply stmt_ok_mono; [eassumption | gr | gr | gr] | unfold stmt_ok; cbn; open_nodes; split_and!; ok_leaf]
  | |- _ = false -> type_ok 0 _ => first [discriminate | assumption | intros _; split; constructor]
  | |- True => exact I
  end.

(** A token of a known type is not the end. *)
Ltac not_eof :=
  first [congruence |
    repeat match goal with
    | H : _ && _ = true |- _ => apply andb_prop in H as [? ?]
    | H : is_type _ _ = true |- _ => unfold is_type in H; apply bool_decide_eq_true in H
    end; congruence].

(** One step of a parser function. *)
Ltac p_step :=
  cbv beta iota zeta;
  lazymatch goal with
  | |- run _ _ (_ ≫= _) _ _ => apply run_bind
  | |- run _ _ (mret _) _ _ => apply run_ret
  | |- run _ _ (fail_at _ _ _) _ _ => apply run_fail; [assumption | gr]
  | |- run _ _ (unexpected _) _ _ => apply run_unexpected; [assumption | gr]
  | |- run _ _ (push_within _ _ _ _) _ _ => apply run_push; [assumption | gr | intros ?]
  | |- run _ _ (parse_int _ _) _ _ => apply run_int; [assumption | gr | intros ?]
  | |- run _ _ (parse_wait_ms _) _ _ => apply run_wait_ms; [assumption | gr | intros ?]
  | |- run _ _ (cur _) _ _ => apply run_cur; [assumption | intros ? ?]
  | |- run _ _ (prev _) _ _ => apply run_prev; [assumption | gr | intros ?]
  | |- run _ _ (peek _ _) _ _ => apply run_peek; [assumption | intros ?]
  | |- run _ _ bump _ _ =>
      eapply run_bump; [assumption | assumption | eassumption | not_eof | intros ? ? ? (? & ? & ? & _)]
  | |- run _ _ (take _ _) _ _ => apply run_take; [assumption | assumption | first [assumption | discriminate] | intros ? ? ? ? ? (? & ? & ? & _) | ]
  | |- run _ _ (took _ _) _ _ => apply run_took; [assumption | assumption | first [assumption | discriminate] | intros ? ? ? (? & ? & ? & _) | ]
  | |- run _ _ (expect _ _) _ _ => apply run_expect; [assumption | assumption | gr | first [assumption | discriminate] | intros ? ? ? ? (? & ? & ? & _)]
  | |- run _ _ (expect_field_name _) _ _ => apply run_field_name; [assumption | assumption | gr | intros ? ? ? ? (? & ? & ? & _)]
  | |- run _ _ (alloc_expr _) _ _ => apply run_alloc_expr; [assumption | gr | try ok_leaf | intros ? ? ? ? ? ?]
  | |- run _ _ (alloc_stmt _) _ _ => apply run_alloc_stmt; [assumption | gr | try ok_leaf | intros ? ? ? ? ? ?]
  | |- run _ _ (alloc_type _) _ _ => apply run_alloc_type; [assumption | gr | try ok_leaf | intros ? ? ? ? ? ?]
  | |- run _ _ (if ?b then _ else _) _ _ => destruct b eqn:?; try discriminate
  | |- run _ _ (match ?x with _ => _ end) _ _ => destruct x eqn:?
  | |- run _ _ _ _ _ => eapply spec_use; [solve [eauto with contracts nocore] | assumption | gr | gr | intros ? ? ? ? ? ?; open_ok]
  end.
Ltac p_done :=
  lazymatch goal with
  | HQ : forall a s', good _ s' -> _ -> _ -> _ -> ?Q a s' |- ?Q _ _ => apply HQ; [assumption | gr | gr | try solve [ok_leaf]]
  | |- good _ _ /\ _ => split; [assumption | split; [gr | split; [gr | split; [gr | try solve [ok_leaf]]]]]
  end.
Ltac p_steps := repeat first [p_step | p_done].

(** Begin a contract; a loop keeps [ok] of its accumulator. *)
Ltac p_start := intros s0 s Q Hg Hr Hl HQ; open_ok.
Ltac p_loop ok :=
  cbv beta iota zeta;
  lazymatch goal with
  | |- run ?toks _ (loop _ ?body _) ?s _ =>
      apply (run_loop toks _ body (fun acc s1 => (p_pos s <= p_pos s1)%nat /\ grows s s1 /\ ok s1 acc));
      [assumption | split; [lia | split; [gr | open_ok; try solve [ok_leaf]]] | intros ? ? ? (? & ? & ?); open_ok]
  end.

(** A recursive function that steps over a token before each call needs no more
    fuel than there are tokens. *)
Lemma spec_fuel {A} toks (body : P A -> P A) (f : nat -> P A) strict ok :
  (forall fuel, f (S fuel) = body (f fuel)) ->
  (forall lim rec, spec toks (S lim) rec strict ok -> spec toks lim (body rec) strict ok) ->
  forall fuel, spec toks (length toks - fuel) (f fuel) strict ok.
Proof.
  intros Hf Hbody fuel. induction fuel as [|fuel IH].
  - intros s0 s Q [Hp _] _ Hl. lia.
  - rewrite Hf. apply Hbody. apply (spec_lim toks (length toks - fuel)); [done | lia].
Qed.
