(* ===== verification/ParserExprTotal.v ===== *)
(** * Types and expressions are parsed without a fault

    The contracts of the functions of [Parser]: from any good state they end, in
    a good state further on, and every pointer of the node they return leads into
    the pools. *)

From S2P Require Import Prelude Lexer Ast Parser ParserLogic.

(** ** Types *)

Section total.
Context (toks : list Token) (Heof : eof_last toks).

Section types.
Context (lim : nat) (rec : P AstTypeRef) (Hrec : spec toks (S lim) rec true ok_type).
#[local] Hint Resolve Hrec : contracts.

Lemma array_type_spec b : spec toks (S lim) (array_type toks rec b) true ok_type.
Proof. p_start. unfold array_type. p_steps. Qed.

Lemma tuple_type_spec : spec toks (S lim) (tuple_type toks rec) true ok_type.
Proof. p_start. unfold tuple_type. apply run_bind. p_loop ok_type. p_steps. Qed.

Lemma type_arguments_run sp out s0 s (Q : AstTypeRef -> PState -> Prop) :
  good toks s -> grows s0 s -> (S lim <= p_pos s)%nat -> type_ok (nt s) out ->
  (forall a s', good toks s' -> (p_pos s <= p_pos s')%nat -> grows s s' -> type_ok (nt s') a -> Q a s') ->
  run toks s0 (type_arguments toks rec sp out) s Q.
Proof. intros Hg Hr Hl Ho HQ. unfold type_arguments. p_loop ok_type. p_steps. Qed.

Lemma named_type_spec : spec toks lim (named_type toks rec) true ok_type.
Proof.
  p_start. unfold named_type. p_steps; (apply type_arguments_run; [assumption | gr | gr | ok_leaf | intros; p_steps]).
Qed.
#[local] Hint Resolve array_type_spec tuple_type_spec named_type_spec : contracts.

Lemma type_ref_body_spec : spec toks lim (type_ref_body toks rec) true ok_type.
Proof. p_start. unfold type_ref_body. p_steps. Qed.
End types.

Lemma parse_func_type_ref_spec : spec toks 0 (parse_func_type_ref toks) true ok_type.
Proof.
  unfold parse_func_type_ref.
  eapply spec_lim; [apply (spec_fuel toks (type_ref_body toks)); [done | apply type_ref_body_spec] | lia].
Qed.
#[local] Hint Resolve parse_func_type_ref_spec : contracts.

(** ** Expressions *)

(** Type arguments, with the cursor on a [<]. *)
Lemma type_args_attempt_run sp t s0 s Q :
  good toks s -> grows s0 s -> toks !! p_pos s = Some t -> is_type Lt t = true ->
  (forall args s', good toks s' -> (S (p_pos s) <= p_pos s')%nat -> grows s s' -> Forall (type_ok (nt s')) args -> Q (Some args) s') ->
  (forall s', good toks s' -> p_pos s' = p_pos s -> grows s s' -> Q None s') ->
  run toks s0 (type_args_attempt toks sp) s Q.
Proof.
  intros Hg Hr Ht Hlt HQ HN. unfold is_type in Hlt. apply bool_decide_eq_true in Hlt. unfold type_args_attempt.
  assert (forall s1 (R : list AstTypeRef + option (list AstTypeRef) -> PState -> Prop),
    good toks s1 -> grows s s1 -> (forall s', good toks s' -> p_pos s' = p_pos s -> grows s s' -> R (inr None) s') ->
    run toks s0 (set_pos (p_pos s);; mret (inr None)) s1 R) as Hback.
  { intros s1 R [Hp1 Hg1] Hr1 HR. apply (HR (at_pos (p_pos s) s1)); [|done|done].
    split; [apply Hg | by destruct Hg1]. }
  apply run_bind. change (run toks s0 (bump;; loop toks (fun args =>
    arg ← attempt (parse_func_type_ref toks);
    match arg with
    | None => set_pos (p_pos s);; mret (inr None)
    | Some arg =>
        args ← push_within kMaxTypeArgs args arg sp;
        gt ← took toks Gt;
        if gt : bool then
          t ← cur toks;
          if is_type LParen t || is_type Dot t then mret (inr (Some args)) else set_pos (p_pos s);; mret (inr None)
        else
          comma ← took toks Comma;
          if comma : bool then mret (inl args) else set_pos (p_pos s);; mret (inr None)
    end) []) s Q).
  p_step. p_step. p_loop (fun s1 (l : list AstTypeRef) => Forall (type_ok (nt s1)) l).
  apply run_bind. eapply run_attempt; [apply parse_func_type_ref_spec | assumption | gr | gr | |].
  - intros arg s2 Hg2 Hp2 Hr2 Hok. open_ok. p_steps; try (apply Hback; [assumption | gr | intros; apply HN; [assumption | gr | gr]]).
    apply HQ; [assumption | gr | gr | ok_leaf].
  - intros s2 Hg2 Hr2. apply Hback; [assumption | gr | intros; apply HN; [assumption | gr | gr]].
Qed.

Section exprs.
Context (lim : nat) (rec : P AstExpr) (Hrec : spec toks (S lim) rec true ok_expr).
#[local] Hint Resolve Hrec : contracts.

Lemma elements_run close first s0 s Q :
  close <> Eof -> good toks s -> grows s0 s -> (S lim <= p_pos s)%nat -> all_below (ne s) first ->
  (forall l s', good toks s' -> (S (p_pos s) <= p_pos s')%nat -> grows s s' -> all_below (ne s') l -> Q l s') ->
  run toks s0 (elements toks rec close first) s Q.
Proof.
  intros Hc Hg Hr Hl Ho HQ. unfold elements. p_loop ok_args. p_steps.
Qed.

Lemma named_elements_spec : spec toks (S lim) (named_elements toks rec []) true ok_inits.
Proof. p_start. unfold named_elements. p_loop ok_inits. p_steps. Qed.

Lemma array_literal_spec start : spec toks (S lim) (array_literal toks rec start) true ok_expr.
Proof. p_start. unfold array_literal. apply run_bind. p_loop ok_args. p_steps. Qed.

(** A call of [elements] inside a contract. *)
Ltac p_elements :=
  lazymatch goal with
  | |- run _ _ (elements _ _ _ _) _ _ =>
      apply elements_run; [discriminate | assumption | gr | gr | open_ok; try solve [ok_leaf] | intros ? ? ? ? ? ?; open_ok]
  end.
Ltac p_type_args :=
  lazymatch goal with
  | |- run _ _ (type_args_attempt _ _) _ _ =>
      eapply type_args_attempt_run;
        [assumption | gr | eassumption | first [eassumption | eapply andb_prop; eassumption] | intros ? ? ? ? ? ? | intros ? ? ? ?]
  end.
Ltac p_walk := repeat first [p_elements | p_type_args | p_step | p_done].

Lemma paren_expr_spec start : spec toks (S lim) (paren_expr toks rec start) true ok_expr.
Proof. p_start. unfold paren_expr. p_walk. Qed.

Lemma variant_case_spec start : spec toks (S lim) (variant_case toks rec start) true ok_expr.
Proof. p_start. unfold variant_case. p_steps. Qed.

Lemma or_expr_spec start : spec toks (S lim) (or_expr toks rec start) true ok_expr.
Proof. p_start. unfold or_expr. p_steps. Qed.

Lemma wait_literal_spec : spec toks 0 (wait_literal toks) false (@ok_any _).
Proof. p_start. unfold wait_literal. p_steps. Qed.
#[local] Hint Resolve wait_literal_spec : contracts.

Lemma wait_expr_spec start : spec toks (S lim) (wait_expr toks rec start) true ok_expr.
Proof. p_start. unfold wait_expr. p_steps. Qed.

Lemma error_fields_spec : spec toks (S lim) (error_fields toks rec) false ok_inits.
Proof. p_start. unfold error_fields. p_loop ok_inits. p_steps. Qed.
#[local] Hint Resolve error_fields_spec : contracts.

Lemma error_expr_spec start : spec toks (S lim) (error_expr toks rec start) true ok_expr.
Proof. p_start. unfold error_expr. p_steps. Qed.

Lemma ident_expr_spec : spec toks 0 (ident_expr toks) true ok_expr.
Proof. p_start. unfold ident_expr. p_steps. Qed.
#[local] Hint Resolve named_elements_spec array_literal_spec paren_expr_spec variant_case_spec or_expr_spec wait_expr_spec error_expr_spec ident_expr_spec : contracts.

Lemma parse_primary_atom_spec : spec toks lim (parse_primary_atom toks rec) true ok_expr.
Proof.
  p_start. unfold parse_primary_atom, leaf. p_step. p_step. destruct (type t) eqn:Ety; cbn [method_literal]; p_steps.
Qed.

Lemma call_expr_run e s0 s Q :
  good toks s -> grows s0 s -> (S lim <= p_pos s)%nat -> expr_ok (ne s) (nt s) e ->
  (forall a s', good toks s' -> (p_pos s <= p_pos s')%nat -> grows s s' -> expr_ok (ne s') (nt s') a -> Q a s') ->
  run toks s0 (call_expr toks rec e) s Q.
Proof.
  intros Hg Hr Hl He HQ. unfold call_expr. p_walk.
Qed.

Lemma member_expr_run e s0 s Q :
  good toks s -> grows s0 s -> (S lim <= p_pos s)%nat -> expr_ok (ne s) (nt s) e ->
  (forall a s', good toks s' -> (p_pos s <= p_pos s')%nat -> grows s s' -> expr_ok (ne s') (nt s') a -> Q a s') ->
  run toks s0 (member_expr toks rec e) s Q.
Proof.
  intros Hg Hr Hl He HQ. unfold member_expr. p_walk.
Qed.
#[local] Hint Resolve parse_primary_atom_spec : contracts.

Lemma parse_primary_expr_spec : spec toks lim (parse_primary_expr toks rec) true ok_expr.
Proof.
  p_start. unfold parse_primary_expr. p_step. p_step. p_loop ok_expr. p_walk;
    (first [apply call_expr_run | apply member_expr_run]; [assumption | gr | gr | ok_leaf | intros; p_steps]).
Qed.
#[local] Hint Resolve parse_primary_expr_spec : contracts.

Lemma binary_run k l r s0 s Q :
  good toks s -> grows s0 s -> expr_ok (ne s) (nt s) l -> expr_ok (ne s) (nt s) r ->
  (forall a s', good toks s' -> (p_pos s <= p_pos s')%nat -> grows s s' -> expr_ok (ne s') (nt s') a -> Q a s') ->
  run toks s0 (binary k l r) s Q.
Proof. intros Hg Hr H1 H2 HQ. unfold binary. p_steps. Qed.

Lemma compare_op_spec : spec toks 0 (compare_op toks) false (@ok_any _).
Proof. p_start. unfold compare_op. p_steps. Qed.
#[local] Hint Resolve compare_op_spec : contracts.

Lemma parse_eq_expr_spec : spec toks lim (parse_eq_expr toks rec) true ok_expr.
Proof.
  p_start. unfold parse_eq_expr. p_steps. apply binary_run; [assumption | gr | ok_leaf | ok_leaf | intros; p_steps].
Qed.
#[local] Hint Resolve parse_eq_expr_spec : contracts.

Lemma expr_body_spec : spec toks lim (expr_body toks rec) true ok_expr.
Proof.
  p_start. unfold expr_body. p_step. p_step. p_loop ok_expr. p_steps.
  apply binary_run; [assumption | gr | ok_leaf | ok_leaf | intros; p_steps].
Qed.
End exprs.

Lemma parse_expr_spec : spec toks 0 (parse_expr toks) true ok_expr.
Proof.
  unfold parse_expr.
  eapply spec_lim; [apply (spec_fuel toks (expr_body toks)); [done | apply expr_body_spec] | lia].
Qed.
End total.
#[export] Hint Resolve parse_func_type_ref_spec parse_expr_spec : contracts.
