(* ===== verification/ParserStmtTotal.v ===== *)
(** * Statements are parsed without a fault

    The contracts of the functions of [ParserStmt]. *)

From S2P Require Import Prelude HeaderValidation Lexer Ast Parser ParserStmt ParserLogic ParserExprTotal.

Section total.
Context (toks : list Token) (Heof : eof_last toks).

Lemma primary_spec : spec toks 0 (parse_primary_expr toks (parse_expr toks)) true ok_expr.
Proof. apply parse_primary_expr_spec; [done|]. apply (spec_lim _ 0); [by apply parse_expr_spec | lia]. Qed.
#[local] Hint Resolve primary_spec wait_literal_spec : contracts.

(** ** Shared parts *)

(** A function from a good arm to a good arm. *)
Definition arm_spec (f : MatchArm -> P MatchArm) : Prop :=
  forall arm s0 s (Q : MatchArm -> PState -> Prop), good toks s -> grows s0 s -> arm_ok (ne s) (ns s) (nt s) arm ->
  (forall a s', good toks s' -> (p_pos s <= p_pos s')%nat -> grows s s' -> arm_ok (ne s') (ns s') (nt s') a -> Q a s') ->
  run toks s0 (f arm) s Q.

Lemma arm_pattern_of_spec t : spec toks 0 (arm_pattern_of toks t) true ok_arm.
Proof. p_start. unfold arm_pattern_of. p_steps. Qed.
#[local] Hint Resolve arm_pattern_of_spec : contracts.

Lemma arm_guard_of_spec : arm_spec (arm_guard_of toks).
Proof. intros arm s0 s Q Hg Hr Ha HQ. unfold arm_guard_of. p_steps. Qed.

Lemma no_arm_guard_spec : arm_spec (fun arm => no_arm_guard toks;; mret arm).
Proof. intros arm s0 s Q Hg Hr Ha HQ. unfold no_arm_guard. p_steps. Qed.

Lemma finish_arm_run x : forall arm s0 s (Q : MatchArm -> PState -> Prop),
  good toks s -> grows s0 s -> arm_ok (ne s) (ns s) (nt s) arm -> stmt_ok (ne s) (ns s) (nt s) x ->
  (forall a s', good toks s' -> (p_pos s <= p_pos s')%nat -> grows s s' -> arm_ok (ne s') (ns s') (nt s') a -> Q a s') ->
  run toks s0 (finish_arm arm x) s Q.
Proof. intros arm s0 s Q Hg Hr Ha Hx HQ. unfold finish_arm. p_steps. Qed.

Ltac p_arm :=
  lazymatch goal with
  | |- run _ _ (finish_arm _ _) _ _ =>
      apply finish_arm_run; [assumption | gr | open_ok; ok_leaf | open_ok; ok_leaf | intros ? ? ? ? ? ?; open_ok]
  | H : arm_spec ?f |- run _ _ (?f _) _ _ =>
      apply H; [assumption | gr | open_ok; ok_leaf | intros ? ? ? ? ? ?; open_ok]
  end.
Ltac p_walk := repeat first [p_arm | p_step | p_done].

Section body.
Context (lim : nat) (body : P AstStatement) (Hbody : spec toks lim body true ok_stmt).
#[local] Hint Resolve Hbody : contracts.

Lemma block_stmts_spec : spec toks lim (block_stmts toks body) false ok_block.
Proof. p_start. unfold block_stmts, at_block_end. p_loop ok_block. p_steps. Qed.

Lemma match_arms_spec g sep accept reject :
  arm_spec g -> sep <> Eof -> spec toks lim (match_arms toks g sep body accept reject) false ok_arms.
Proof. intros Hgd Hsep. p_start. unfold match_arms, at_block_end. p_loop ok_arms. p_walk. Qed.
End body.

Lemma close_arms_spec arms : spec toks 0 (close_arms toks arms) true (@ok_any _).
Proof. p_start. unfold close_arms. p_steps. Qed.

Lemma guard_binding_spec b : spec toks 0 (guard_binding toks b) false (@ok_any _).
Proof. p_start. unfold guard_binding. p_steps. Qed.
#[local] Hint Resolve close_arms_spec guard_binding_spec : contracts.

(** ** Statements of a route *)

Lemma let_stmt_spec start : spec toks 0 (let_stmt toks start) true ok_stmt.
Proof. p_start. unfold let_stmt. p_steps. Qed.

Lemma response_headers_spec : spec toks 0 (response_headers toks) true (@ok_any _).
Proof. p_start. unfold response_headers. p_steps. p_loop (fun (_ : PState) (_ : list (Str * Str)) => True). p_steps. Qed.
#[local] Hint Resolve let_stmt_spec response_headers_spec : contracts.

Lemma response_args_run x s0 s Q :
  good toks s -> grows s0 s -> stmt_ok (ne s) (ns s) (nt s) x ->
  (forall a s', good toks s' -> (p_pos s <= p_pos s')%nat -> grows s s' -> stmt_ok (ne s') (ns s') (nt s') a -> Q a s') ->
  run toks s0 (response_args toks x) s Q.
Proof.
  intros Hg Hr Hx HQ. unfold response_args. p_step. p_loop (fun s1 (a : AstStatement * bool) => stmt_ok (ne s1) (ns s1) (nt s1) a.1).
  destruct a as [a seen]. cbn [fst] in *. p_steps.
Qed.

Lemma return_stmt_spec start : spec toks 0 (return_stmt toks start) true ok_stmt.
Proof.
  p_start. unfold return_stmt. p_steps.
  apply response_args_run; [assumption | gr | ok_leaf | intros; p_steps].
Qed.
#[local] Hint Resolve return_stmt_spec : contracts.

Section stmts.
Context (lim : nat) (rec : P AstStatement) (Hrec : spec toks (S lim) rec true ok_stmt).
#[local] Hint Resolve Hrec block_stmts_spec match_arms_spec arm_guard_of_spec no_arm_guard_spec : contracts.

Lemma pool_stmt_run p s0 s (Q : AstStatement -> PState -> Prop) :
  good toks s -> (p < ns s)%nat -> (forall x, stmt_ok (ne s) (ns s) (nt s) x -> Q x s) ->
  run toks s0 (fun s => match stmt_pool s !! p with Some x => POk x s | None => PFault end) s Q.
Proof.
  intros [_ Hg] Hp HQ. unfold run. destruct (lookup_lt_is_Some_2 (stmt_pool s) p Hp) as [x Hx]. rewrite Hx.
  apply HQ. eapply stmt_ok_mono; [by apply (po_stmts s Hg p) | lia | lia | lia].
Qed.

Lemma parse_braced_stmt_body_spec lbrace : spec toks (S lim) (parse_braced_stmt_body toks rec lbrace) true ok_stmt.
Proof.
  p_start. unfold parse_braced_stmt_body. do 4 p_step. destruct a as [|p [|q l]]; [p_steps | | p_steps].
  apply pool_stmt_run; [assumption | | intros; p_steps]. apply Forall_cons in H2 as [H2 _]. gr.
Qed.
#[local] Hint Resolve parse_braced_stmt_body_spec : contracts.

Lemma block_stmt_spec start : spec toks (S lim) (block_stmt toks rec start) true ok_stmt.
Proof. p_start. unfold block_stmt. p_steps. Qed.

Lemma guard_stmt_spec start : spec toks (S lim) (guard_stmt toks rec start) true ok_stmt.
Proof. p_start. unfold guard_stmt. p_steps. Qed.

Lemma wait_any_stmt_spec start t s0 s Q :
  good toks s -> grows s0 s -> (S lim <= p_pos s)%nat -> toks !! p_pos s = Some t -> is_type Ident t = true ->
  (forall a s', good toks s' -> (S (p_pos s) <= p_pos s')%nat -> grows s s' -> stmt_ok (ne s') (ns s') (nt s') a -> Q a s') ->
  run toks s0 (wait_any_stmt toks rec start) s Q.
Proof.
  intros Hg Hr Hl Ht Hi HQ. unfold wait_any_stmt, at_block_end. do 4 p_step. apply run_bind. p_loop ok_arms. p_walk.
Qed.

Lemma wait_stmt_spec start : spec toks (S lim) (wait_stmt toks rec start) true ok_stmt.
Proof.
  p_start. unfold wait_stmt. p_steps.
  eapply wait_any_stmt_spec; [assumption | gr | gr | eassumption | | intros; p_steps].
  apply andb_prop in Heqb as [Heqb _]. by apply andb_prop in Heqb as [? _].
Qed.

Lemma if_stmt_spec start : spec toks (S lim) (if_stmt toks rec start) true ok_stmt.
Proof. p_start. unfold if_stmt. p_steps. Qed.

Lemma match_stmt_spec start : spec toks (S lim) (match_stmt toks rec start) true ok_stmt.
Proof. p_start. unfold match_stmt. p_steps. Qed.

Lemma for_stmt_run start t is_inline s0 s Q :
  good toks s -> grows s0 s -> (lim <= p_pos s)%nat -> toks !! p_pos s = Some t -> type t <> Eof ->
  (forall a s', good toks s' -> (S (p_pos s) <= p_pos s')%nat -> grows s s' -> stmt_ok (ne s') (ns s') (nt s') a -> Q a s') ->
  run toks s0 (for_stmt toks rec start is_inline) s Q.
Proof. intros Hg Hr Hl Ht Hne HQ. unfold for_stmt. p_steps. Qed.
#[local] Hint Resolve block_stmt_spec guard_stmt_spec wait_stmt_spec if_stmt_spec match_stmt_spec : contracts.

Lemma stmt_body_spec : spec toks lim (stmt_body toks rec) true ok_stmt.
Proof.
  p_start. unfold stmt_body. do 4 p_step. destruct (type t) eqn:Ety; p_steps;
    (eapply for_stmt_run; [assumption | gr | gr | eassumption | congruence | intros; p_steps]).
Qed.
End stmts.

Lemma parse_stmt_spec : spec toks 0 (parse_stmt toks) true ok_stmt.
Proof.
  unfold parse_stmt.
  eapply spec_lim; [apply (spec_fuel toks (stmt_body toks)); [done | apply stmt_body_spec] | lia].
Qed.
#[local] Hint Resolve parse_stmt_spec : contracts.

(** ** Statements of a function *)

Lemma expr_stmt_spec : spec toks 0 (expr_stmt toks) true ok_stmt.
Proof. p_start. unfold expr_stmt. p_steps. Qed.
#[local] Hint Resolve expr_stmt_spec : contracts.

Section func.
Context (lim : nat) (rec : P AstStatement) (Hrec : spec toks (S lim) rec true ok_stmt).
#[local] Hint Resolve Hrec match_arms_spec arm_guard_of_spec no_arm_guard_spec : contracts.

Lemma parse_func_guard_stmt_spec t : spec toks (S lim) (parse_func_guard_stmt toks rec t) true ok_stmt.
Proof. p_start. unfold parse_func_guard_stmt. p_steps. Qed.

Lemma func_if_stmt_spec : spec toks (S lim) (func_if_stmt toks rec) true ok_stmt.
Proof. p_start. unfold func_if_stmt. p_steps. Qed.

Lemma func_match_stmt_spec : spec toks (S lim) (func_match_stmt toks rec) true ok_stmt.
Proof. p_start. unfold func_match_stmt. p_steps. Qed.
#[local] Hint Resolve parse_func_guard_stmt_spec func_if_stmt_spec func_match_stmt_spec : contracts.

Lemma func_block_spec t : spec toks (S lim) (func_block toks rec t) true ok_stmt.
Proof.
  p_start. unfold func_block, at_block_end. apply run_bind. p_loop ok_block. do 5 p_step; [p_steps|]. do 2 p_step.
  destruct (type t1) eqn:Ety; p_steps.
Qed.
#[local] Hint Resolve func_block_spec : contracts.

Lemma func_stmt_body_spec : spec toks lim (func_stmt_body toks rec) true ok_stmt.
Proof. p_start. unfold func_stmt_body. do 2 p_step. destruct (type t) eqn:Ety; p_steps. Qed.
End func.

Lemma parse_func_body_stmt_spec : spec toks 0 (parse_func_body_stmt toks) true ok_stmt.
Proof.
  unfold parse_func_body_stmt.
  eapply spec_lim; [apply (spec_fuel toks (func_stmt_body toks)); [done | apply func_stmt_body_spec] | lia].
Qed.
End total.
#[export] Hint Resolve parse_stmt_spec expr_stmt_spec parse_func_body_stmt_spec : contracts.
