(* ===== verification/ParserItemsTotal.v ===== *)
(** * Files are parsed without a fault

    The contracts of the declarations and of the route blocks of [ParserItems],
    and the theorem on [parse_file]. *)

From S2P Require Import Prelude Lexer Ast Parser ParserStmt ParserItems ParserLogic ParserExprTotal ParserStmtTotal.

(** What a declaration promises. *)
Definition ok_item (s : PState) (it : AstItem) : Prop := decl_ok (ne s) (ns s) (nt s) (i_decl it).
Definition ok_func (s : PState) (it : AstItem) : Prop := exists f, i_decl it = DFunc f /\ fn_ok (ns s) (nt s) f.
Definition ok_opt_type (s : PState) (o : option AstTypeRef) : Prop := forall t, o = Some t -> type_ok (nt s) t.
Definition ok_opt_stmt (s : PState) (o : option nat) : Prop := opt_below (ns s) o.
Definition ok_params (s : PState) (l : list ParamDecl) : Prop := Forall (fun p => type_ok (nt s) (pd_type p)) l.
Definition ok_fields (s : PState) (l : list (Str * AstTypeRef)) : Prop := Forall (fun f => type_ok (nt s) f.2) l.
Definition ok_cases (s : PState) (l : list (Str * option AstTypeRef)) : Prop :=
  Forall (fun c => forall t, c.2 = Some t -> type_ok (nt s) t) l.
Definition ok_methods (s : PState) (p : list Str * list MethodDecl) : Prop := Forall (method_ok (ns s) (nt s)) p.2.
Definition ok_impl (s : PState) (p : list (Str * AstTypeRef) * list AstFunctionDecl) : Prop :=
  Forall (fun f => type_ok (nt s) f.2) p.1 /\ Forall (fn_ok (ns s) (nt s)) p.2.
Definition ok_alias_arms (s : PState) (l : list ArmDecl) : Prop := Forall (fun a => type_ok (nt s) (ad_type a)) l.
Definition ok_stmts (s : PState) (l : list AstStatement) : Prop := Forall (stmt_ok (ne s) (ns s) (nt s)) l.

Ltac open_ok ::= cbv beta iota delta [ok_any ok_type ok_types ok_expr ok_args ok_inits ok_stmt ok_block ok_arm ok_arms
  ok_item ok_func ok_opt_type ok_opt_stmt ok_params ok_fields ok_cases ok_methods ok_impl ok_alias_arms ok_stmts] in *.

(** Declarations whose pointers are known to be valid in an earlier state. *)
Ltac decl_leaf :=
  lazymatch goal with
  | |- Forall _ [] => constructor
  | |- Forall _ (_ ++ [_]) => apply Forall_snoc; [decl_leaf | cbn; decl_leaf]
  | |- Forall (fun p => type_ok _ (@?f p)) _ => eapply (typed_mono f); [eassumption | gr]
  | |- Forall (method_ok _ _) _ => eapply methods_ok_mono; [eassumption | gr | gr]
  | |- Forall (fn_ok _ _) _ => eapply fns_ok_mono; [eassumption | gr | gr]
  | |- Forall (stmt_ok _ _ _) _ => eapply stmts_ok_mono; [eassumption | gr | gr | gr]
  | |- Forall (fun c => forall t, _) _ => eapply cases_mono; [eassumption | gr]
  | |- forall t, None = Some t -> _ => intros ? [=]
  | |- forall t, Some _ = Some t -> _ => intros ? [= <-]; decl_leaf
  | |- forall t, _ = Some t -> type_ok _ t => eapply opt_type_mono; [eassumption | gr]
  | |- method_ok _ _ _ => unfold method_ok; cbn; split_and!; decl_leaf
  | |- fn_ok _ _ _ => first [eapply fn_ok_mono; [eassumption | gr | gr] | unfold fn_ok; cbn; split_and!; decl_leaf]
  | |- decl_ok _ _ _ _ => first [assumption | progress cbn; repeat split; decl_leaf]
  | |- _ /\ _ => split; decl_leaf
  | |- (_ < _)%nat => gr
  | |- _ => ok_leaf
  end.

Ltac p_walk := repeat first [p_step | p_done]; try solve [cbn in *; decl_leaf].

Section total.
Context (toks : list Token) (Heof : eof_last toks).

Lemma type_params_spec : spec toks 0 (type_params toks) false (@ok_any _).
Proof. p_start. unfold type_params. p_steps. p_loop (@ok_any (list Str)). p_steps. Qed.

Lemma qualified_spec : spec toks 0 (qualified toks) true (@ok_any _).
Proof. p_start. unfold qualified. p_steps. Qed.

Lemma dotted_spec : spec toks 0 (dotted toks) true (@ok_any _).
Proof. p_start. unfold dotted. p_steps. Qed.
#[local] Hint Resolve type_params_spec qualified_spec dotted_spec : contracts.

Lemma upstream_fields_spec sp : spec toks 0 (upstream_fields toks sp) true (@ok_any _).
Proof.
  p_start. unfold upstream_fields. p_step. p_loop (@ok_any (option Str * option Z)). destruct a as [host port]. p_steps.
Qed.
#[local] Hint Resolve upstream_fields_spec : contracts.

Lemma parse_upstream_spec : spec toks 0 (parse_upstream toks) true ok_item.
Proof. p_start. unfold parse_upstream, is_word. p_walk. Qed.

(** ** Functions *)

Lemma append_constraint_spec d a b sp : spec toks 0 (append_constraint d a b sp) false (@ok_any _).
Proof. p_start. unfold append_constraint. p_steps. Qed.
#[local] Hint Resolve append_constraint_spec : contracts.

Lemma constraints_spec d : spec toks 0 (constraints toks d) true (@ok_any _).
Proof. p_start. unfold constraints. p_loop (@ok_any TypeParamDecl). p_steps. Qed.
#[local] Hint Resolve constraints_spec : contracts.

Lemma func_type_params_spec : spec toks 0 (func_type_params toks) false (@ok_any _).
Proof. p_start. unfold func_type_params. p_steps. p_loop (@ok_any (list TypeParamDecl)). p_steps. Qed.

Lemma func_params_spec : spec toks 0 (func_params toks) true ok_params.
Proof. p_start. unfold func_params. p_walk. p_loop ok_params. p_walk. Qed.

Lemma return_type_spec : spec toks 0 (return_type toks) false ok_opt_type.
Proof. p_start. unfold return_type. p_walk. Qed.

Lemma where_clause_spec l : spec toks 0 (where_clause toks l) false (@ok_any _).
Proof. p_start. unfold where_clause. p_steps. p_loop (@ok_any (list TypeParamDecl)). p_steps. Qed.
#[local] Hint Resolve func_type_params_spec func_params_spec return_type_spec where_clause_spec : contracts.

Lemma parse_func_spec : spec toks 0 (parse_func toks) true ok_func.
Proof. p_start. unfold parse_func. p_walk; eexists; (split; [reflexivity | decl_leaf]). Qed.
#[local] Hint Resolve parse_func_spec : contracts.

Lemma parse_func_item_spec : spec toks 0 (parse_func toks) true ok_item.
Proof.
  p_start. eapply spec_use; [apply parse_func_spec | assumption | gr | gr |]. intros it s' ? ? ? (f & Hf & ?).
  apply HQ; [assumption | gr | gr |]. by rewrite Hf.
Qed.

(** ** Structs, variants, protocols and implementations *)

Lemma parse_variant_spec : spec toks 0 (parse_variant toks) true ok_item.
Proof. p_start. unfold parse_variant, at_block_end. do 8 p_step. apply run_bind. p_loop ok_cases. p_walk. Qed.

Lemma parse_struct_spec : spec toks 0 (parse_struct toks) true ok_item.
Proof. p_start. unfold parse_struct, at_block_end. do 8 p_step. apply run_bind. p_loop ok_fields. p_walk. Qed.

Lemma method_body_spec : spec toks 0 (method_body toks) false ok_opt_stmt.
Proof. p_start. unfold method_body. p_walk. Qed.
#[local] Hint Resolve method_body_spec : contracts.

Lemma parse_protocol_spec : spec toks 0 (parse_protocol toks) true ok_item.
Proof.
  p_start. unfold parse_protocol, at_block_end, is_word. do 6 p_step. apply run_bind. p_loop ok_methods; [cbn; decl_leaf|].
  destruct a as [assocs methods]. p_walk.
Qed.

Lemma impl_protocols_spec : spec toks 0 (impl_protocols toks) true (@ok_any _).
Proof. p_start. unfold impl_protocols. p_loop (@ok_any (list Str * list Str)). destruct a as [nss names]. p_steps. Qed.
#[local] Hint Resolve impl_protocols_spec : contracts.

Lemma parse_impl_spec : spec toks 0 (parse_impl toks) true ok_item.
Proof.
  p_start. unfold parse_impl, at_block_end, is_word. do 8 p_step. apply run_bind. p_loop ok_impl; [cbn; decl_leaf|].
  destruct a1 as [assocs methods]. match goal with Hi : _ /\ _ |- _ => destruct Hi as [Hassocs Hmethods] end. p_walk.
  match goal with Hf : exists f, _ |- _ => destruct Hf as (f & Hf & Hok) end.
  assert (f = d) as -> by congruence. cbn in *. decl_leaf.
Qed.

(** ** Imports, usings and aliases *)

Lemma from_word_spec : spec toks 0 (from_word toks) true (@ok_any _).
Proof. p_start. unfold from_word. p_steps. Qed.

Lemma selected_names_spec : spec toks 0 (selected_names toks) true (@ok_any _).
Proof. p_start. unfold selected_names. p_loop (@ok_any (list (Str * option Str))). p_steps. Qed.
#[local] Hint Resolve from_word_spec selected_names_spec : contracts.

Lemma parse_import_spec : spec toks 0 (parse_import toks) true ok_item.
Proof. p_start. unfold parse_import. p_walk. Qed.

Lemma parse_using_spec : spec toks 0 (parse_using toks) true ok_item.
Proof.
  p_start. unfold parse_using. do 10 p_step. apply run_bind. p_loop (@ok_any (list Str)). p_walk.
Qed.

Lemma alias_arm_spec : spec toks 0 (alias_arm toks) true (@ok_any _).
Proof. p_start. unfold alias_arm. p_steps. Qed.
#[local] Hint Resolve alias_arm_spec : contracts.

Lemma parse_type_alias_spec : spec toks 0 (parse_type_alias toks) true ok_item.
Proof.
  p_start. unfold parse_type_alias, at_block_end. p_walk. p_loop ok_alias_arms. p_walk.
Qed.

(** ** Routes *)

Lemma parse_decorator_atom_spec : spec toks 0 (parse_decorator_atom toks) true (@ok_any _).
Proof. p_start. unfold parse_decorator_atom. p_steps. Qed.
#[local] Hint Resolve parse_decorator_atom_spec : contracts.

Lemma parse_route_entry_spec kw ds :
  (forall path, spec toks 0 (ds path) false (@ok_any _)) -> spec toks 0 (parse_route_entry toks kw ds) true ok_item.
Proof.
  intros Hds. p_start. unfold parse_route_entry, at_block_end. do 3 p_step; [p_steps|].
  assert (type t <> Eof) as Hne by (intros E; rewrite E in *; discriminate).
  do 6 p_step. apply run_bind. p_loop ok_stmts. p_walk.
  match goal with |- context [continues ?x] => destruct (continues x) end; p_walk.
Qed.

Lemma push_decorators_spec new : forall out, spec toks 0 (push_decorators new out) false (@ok_any _).
Proof.
  induction new as [|d new IH]; intros out; p_start; cbn [push_decorators]; [p_steps|]. do 2 p_step.
  apply IH; [assumption | gr | gr | intros; apply HQ; [assumption | gr | gr | done]].
Qed.

Lemma parse_route_spec : spec toks 0 (parse_route toks) true ok_item.
Proof.
  p_start. unfold parse_route. do 2 p_step. apply parse_route_entry_spec; [|assumption | gr | gr | intros; p_walk].
  intros path. clear. p_start. p_steps.
Qed.

Lemma bindings_spec : spec toks 0 (bindings toks) false (@ok_any _).
Proof. p_start. unfold bindings. p_loop (@ok_any (list (AstDecorator * Str * bool))). p_steps. Qed.

Lemma entry_decorators_spec : spec toks 0 (entry_decorators toks) false (@ok_any _).
Proof. p_start. unfold entry_decorators. p_loop (@ok_any (list AstDecorator)). p_steps. Qed.
#[local] Hint Resolve bindings_spec entry_decorators_spec : contracts.

Lemma push_item_run it s0 s (Q : unit -> PState -> Prop) :
  good toks s -> grows s0 s -> decl_ok (ne s) (ns s) (nt s) (i_decl it) ->
  (forall s', good toks s' -> p_pos s' = p_pos s -> grows s s' -> Q tt s') -> run toks s0 (push_item it) s Q.
Proof. intros Hg Hr Hok HQ. apply run_push_item; [assumption | gr | assumption |]. intros. apply HQ; [assumption | assumption | gr]. Qed.

Lemma parse_route_block_spec : spec toks 0 (parse_route_block toks) true (@ok_any _).
Proof.
  p_start. unfold parse_route_block, at_block_end. do 6 p_step. apply run_bind. p_loop (@ok_any nat). p_steps.
  apply parse_route_entry_spec; [intros; apply push_decorators_spec | assumption | gr | gr |]. intros. p_step.
  apply push_item_run; [assumption | gr | assumption | intros; p_steps].
Qed.

(** ** Files *)

Lemma parse_package_spec : spec toks 0 (parse_package toks) false (@ok_any _).
Proof. p_start. unfold parse_package. p_steps. Qed.
#[local] Hint Resolve parse_upstream_spec parse_func_item_spec parse_variant_spec parse_struct_spec parse_protocol_spec
  parse_impl_spec parse_import_spec parse_using_spec parse_type_alias_spec parse_route_spec parse_route_block_spec
  parse_package_spec : contracts.

Lemma parse_item_spec t : spec toks 0 (parse_item toks t) true ok_item.
Proof. unfold parse_item. destruct (type t); try solve [eauto with contracts nocore]; p_start; p_walk. Qed.

(** The end of the tokens is their last. *)
Lemma eof_at_last i t : toks !! i = Some t -> type t = Eof -> S i = length toks.
Proof.
  destruct Heof as (front & e & -> & He & Hf). intros Hi Ht. rewrite length_app. cbn.
  apply lookup_app_Some in Hi as [Hi|[Hle Hi]].
  - rewrite Forall_lookup in Hf. by destruct (Hf _ _ Hi).
  - apply list_lookup_singleton_Some in Hi as [Hi _]. lia.
Qed.

Lemma start_good : good toks start_state.
Proof.
  split; [destruct Heof as (front & e & -> & _); rewrite length_app; cbn; lia|]. split; cbn; try done; try (intros i x Hx; by rewrite lookup_nil in Hx).
  unfold ne, ns, nt. cbn. unfold kMaxExprPool, kMaxStmtPool, kMaxTypePool, kMaxItems. lia.
Qed.

Lemma file_body_run s0 s Q :
  good toks s -> grows s0 s -> (forall s', good toks s' -> S (p_pos s') = length toks -> Q tt s') -> run toks s0 (file_body toks) s Q.
Proof.
  intros Hg Hr HQ. unfold file_body. p_loop (@ok_any unit). do 3 p_step.
  - apply run_ret, HQ; [assumption|]. apply (eof_at_last _ t); [assumption|]. unfold is_type in *. by apply bool_decide_eq_true in Heqb.
  - do 3 p_step; [p_steps|]. p_step. eapply spec_use; [apply parse_item_spec | assumption | gr | gr |]. intros. p_step.
    apply push_item_run; [assumption | gr | assumption | intros; p_steps].
Qed.

Lemma parse_file_run : run toks start_state (parse_file_from toks) start_state
  (fun _ s => good toks s /\ S (p_pos s) = length toks).
Proof.
  pose proof start_good. unfold parse_file_from. do 3 p_step. apply file_body_run; [assumption | gr | intros; by apply run_ret].
Qed.
End total.
