(* ===== verification/FrontEnd.v ===== *)
(** * The front end: source text to syntax tree

    [lex] and [parse_file] in a row, as the compiler calls them; the values of
    integer and duration literals; and small programs on which the parser does
    what its text does not suggest. *)

From S2P Require Import Prelude HttpParser Lexer Ast Parser ParserStmt ParserItems ParserLogic ParserItemsTotal.

(** ** The lexer gives the parser what it relies on *)

Lemma keyword_not_eof t : keyword_type t <> Eof.
Proof.
  unfold keyword_type. destruct (List.find _ keywords) as [k|] eqn:E; [|done]. apply find_some in E as [E _].
  apply List.in_split in E as (l1 & l2 & E). intros Hk.
  assert (Forall (fun k => k.2 <> Eof) keywords) as Hall by (unfold keywords; rewrite !Forall_cons; split_and!; done).
  rewrite E in Hall. apply Forall_app in Hall as [_ Hall]. by apply Forall_cons in Hall as [? _].
Qed.

Lemma form_not_eof ty pre x post : token_form ty pre x post -> ty <> Eof.
Proof.
  intros []; try done.
  - unfold word_type. case_if; [done | apply keyword_not_eof].
  - unfold pairs in *. set_solver.
  - unfold symbols in *. set_solver.
Qed.

Lemma layout_eof_last src i ts : layout src i ts -> eof_last ts.
Proof.
  induction 1 as [i t _ Ht _ _ _ | i tr pre x post rest t ts _ _ Hf _ _ _ _ _ IH].
  - exists [], t. by repeat constructor.
  - destruct IH as (front & e & -> & He & Hall). exists (t :: front), e. split_and!; [done | done |].
    constructor; [by eapply form_not_eof | done].
Qed.

Definition front_end (src : list Z) : option (Diagnostic + PRes (option (Str * Span))) :=
  match lex src with
  | Some (inl d) => Some (inl d)
  | Some (inr toks) => Some (inr (parse_file toks))
  | None => None
  end.

Lemma lex_total src :
  exists r, lex src = Some r /\ match r with inl d => code d ∈ lex_errors | inr ts => eof_last ts end.
Proof.
  destruct (lex_loop_spec src (S (length src)) (mkPos 0 1 1) []) as (r & Hr & Hl); [cbn; lia..|].
  exists r. split; [done|]. destruct r as [d|ts]; [apply Hl|]. destruct Hl as (_ & ts' & -> & Hlay & _).
  by eapply layout_eof_last.
Qed.

Lemma parse_lexed src ts :
  lex src = Some (inr ts) ->
  match parse_file ts with
  | POk _ s => pools_ok s /\ S (p_pos s) = length ts
  | PErr _ s => pools_ok s
  | PFault | PFuel => False
  end.
Proof.
  intros Hts. destruct (lex_total src) as (r & Hr & Hl). rewrite Hts in Hr. injection Hr as <-.
  pose proof (parse_file_run _ Hl) as Hrun. unfold run in Hrun. unfold parse_file.
  destruct (parse_file_from ts start_state) as [p s|d s| |]; [|apply Hrun|done..]. by destruct Hrun as [[_ Hp] Hpos].
Qed.

(** C8: the front end is total and its tree is well formed.  Every source ends in
    a lexical error, in a parse error or in a file: the parser never reads past
    its tokens and its recursion ends.  The file has read every token in front of
    the end, its pools and its items fit their capacities, and every pointer of
    it leads to an entry of a pool that was filled earlier: the tree has no cycle
    and no dangling node. *)
Theorem front_end_total src :
  exists out, front_end src = Some out /\
    match out with
    | inl d => code d ∈ lex_errors
    | inr (POk _ s) => pools_ok s /\ exists ts, lex src = Some (inr ts) /\ S (p_pos s) = length ts
    | inr (PErr _ s) => pools_ok s
    | inr PFault | inr PFuel => False
    end.
Proof.
  destruct (lex_total src) as ([d|ts] & Hr & Hl); unfold front_end; rewrite Hr; (eexists; split; [done|]); [done|].
  pose proof (parse_lexed src ts Hr) as Hp. destruct (parse_file ts) as [p s|d s| |]; [|done..]. destruct Hp. eauto.
Qed.

(** ** Literals *)

(** The number that digits spell, behind the value [v] of the digits in front. *)
Definition number (v : Z) (ds : list Z) : Z := fold_left (fun v c => v * 10 + (c - ch "0")) ds v.

Lemma digit_value c : is_digit c = true -> 0 <= c - ch "0" <= 9.
Proof. unfold is_digit. intros H. zify_bool. change (ch "0") with 48 in *. change (ch "9") with 57 in *. lia. Qed.

Lemma number_grows ds : forall v, Forall (fun c => is_digit c = true) ds -> 0 <= v -> v <= number v ds.
Proof.
  induction ds as [|c ds IH]; intros v H Hv; cbn; [lia|]. apply Forall_cons in H as [Hc Hds].
  pose proof (digit_value c Hc). specialize (IH (v * 10 + (c - ch "0")) Hds). unfold number in IH. lia.
Qed.

(** The check in front of each digit refuses exactly the numbers above the limit. *)
Lemma digits_loop_exact limit ds : forall v,
  9 <= limit < 4294967296 -> Forall (fun c => is_digit c = true) ds -> 0 <= v <= limit ->
  digits_loop limit v ds = if number v ds <=? limit then Some (number v ds) else None.
Proof.
  induction ds as [|c ds IH]; intros v Hl H Hv; cbn [digits_loop].
  - unfold number. cbn. by rewrite (proj2 (Z.leb_le _ _)) by lia.
  - apply Forall_cons in H as [Hc Hds]. pose proof (digit_value c Hc) as Hd.
    replace (u32 (c - ch "0")) with (c - ch "0") by (symmetry; apply Z.mod_small; lia).
    pose proof (number_grows ds (v * 10 + (c - ch "0")) Hds) as Hgr. cbv zeta. change (number v (c :: ds)) with (number (v * 10 + (c - ch "0")) ds).
    destruct (_ <? v) eqn:E; zify_bool.
    + rewrite (proj2 (Z.leb_gt _ _)); [done|]. assert (limit < v * 10 + (c - ch "0")) by (pose proof (Z.mul_succ_div_gt (limit - (c - ch "0")) 10); lia). lia.
    + apply IH; [done | done |]. pose proof (Z.mul_div_le (limit - (c - ch "0")) 10). lia.
Qed.

(** The units and their milliseconds; a plain number has none. *)
Definition unit_ms : list (list Z * Z) := [([], 1); (bs "ms", 1); (bs "s", 1000); (bs "m", 60000); (bs "h", 3600000)].

Lemma rd_at (a b : list Z) n i : n = (length a + i)%nat -> rd (a ++ b) n = rd b i.
Proof. intros ->. apply rd_app_r. Qed.

Lemma firstn_at (a b : list Z) n : n = length a -> List.firstn n (a ++ b) = a.
Proof. intros ->. apply take_app_length. Qed.

Lemma letter_unit t w d x mult :
  is_digit d = true -> text t = (w ++ [d]) ++ [x] -> type t = DurLit ->
  (if x =? ch "s" then Some 1000 else if x =? ch "m" then Some 60000 else if x =? ch "h" then Some 3600000 else None)
    = Some mult ->
  split_unit t = Some (w ++ [d], mult).
Proof.
  intros Hd Ht Hty Hx. unfold split_unit, is_type. rewrite Ht, Hty. cbv zeta. rewrite bool_decide_true by done. cbn [negb].
  assert (length ((w ++ [d]) ++ [x]) = (2 + length w)%nat) as Hn by (rewrite !length_app; cbn; lia). rewrite Hn.
  rewrite (rd_at (w ++ [d]) [x] (2 + length w - 1) 0), (firstn_at (w ++ [d]) [x] (2 + length w - 1)) by (rewrite length_app; cbn; lia).
  rewrite <- (app_assoc w [d] [x]), (rd_at w ([d] ++ [x]) (2 + length w - 2) 0) by lia. cbn [rd app nth Nat.leb Nat.add andb].
  pose proof (digit_value d Hd). change (ch "0") with 48 in *. rewrite (proj2 (Z.eqb_neq d (ch "m"))) by (change (ch "m") with 109; lia).
  cbn [andb]. destruct (x =? ch "s"), (x =? ch "m"), (x =? ch "h"); by simplify_eq.
Qed.

Lemma split_unit_eq t w d u mult :
  is_digit d = true -> (u, mult) ∈ unit_ms -> text t = (w ++ [d]) ++ u ->
  type t = (match u with [] => IntLit | _ => DurLit end) -> split_unit t = Some (w ++ [d], mult).
Proof.
  intros Hd Hu Ht Hty. unfold unit_ms in Hu.
  repeat (apply elem_of_cons in Hu as [Hu|Hu]); [injection Hu as -> ->.. | by apply elem_of_nil in Hu].
  - unfold split_unit, is_type. by rewrite Ht, Hty, app_nil_r.
  - unfold split_unit, is_type. rewrite Ht, Hty. cbv zeta. rewrite bool_decide_true by done. cbn [negb]. change (bs "ms") with [ch "m"; ch "s"].
    assert (length ((w ++ [d]) ++ [ch "m"; ch "s"]) = (3 + length w)%nat) as -> by (rewrite !length_app; cbn; lia).
    by rewrite (rd_at _ _ (3 + length w - 2) 0), (rd_at _ _ (3 + length w - 1) 1), (firstn_at (w ++ [d]) _ (3 + length w - 2)) by (rewrite length_app; cbn; lia).
  - by apply (letter_unit t w d (ch "s")).
  - by apply (letter_unit t w d (ch "m")).
  - by apply (letter_unit t w d (ch "h")).
Qed.

(** The first error of a literal names it. *)
Definition bad_literal (t : Token) : Diagnostic := mkDiagnostic InvalidInteger (token_span t) (text t).

(** C30: integer and duration literals have their value, or are refused.  A plain
    number and a duration in milliseconds, seconds, minutes or hours give the
    milliseconds they spell when these fit 32 bits, and are an error otherwise:
    no product or sum of the code wraps around. *)
Theorem wait_literals_exact t w d u mult s :
  Forall (fun c => is_digit c = true) (w ++ [d]) -> (u, mult) ∈ unit_ms -> text t = (w ++ [d]) ++ u ->
  type t = (match u with [] => IntLit | _ => DurLit end) ->
  parse_wait_ms t s =
    if number 0 (w ++ [d]) * mult <=? kMaxU32 then POk (number 0 (w ++ [d]) * mult) s else PErr (bad_literal t) s.
Proof.
  intros Hds Hu Ht Hty. unfold parse_wait_ms. pose proof Hds as Hd. apply Forall_app in Hd as [_ Hd]. apply Forall_cons in Hd as [Hd _].
  rewrite (split_unit_eq t w d u mult) by done. pose proof (number_grows _ 0 Hds) as Hn.
  rewrite (digits_loop_exact kMaxU32 _ 0) by (try done; unfold kMaxU32; lia).
  assert (1 <= mult <= 3600000) as Hm.
  { unfold unit_ms in Hu. repeat (apply elem_of_cons in Hu as [Hu|Hu]); [injection Hu as -> ->; lia.. | by apply elem_of_nil in Hu]. }
  destruct (number 0 (w ++ [d]) <=? kMaxU32) eqn:E; zify_bool.
  - assert (u64 (number 0 (w ++ [d]) * mult) = number 0 (w ++ [d]) * mult) as -> by (apply Z.mod_small; unfold kMaxU32 in *; nia).
    cbv zeta. rewrite Z.ltb_antisym. destruct (_ * mult <=? kMaxU32) eqn:E2; [|done]. cbn [negb]. unfold mret, P_ret. f_equal.
    apply Z.mod_small. zify_bool. unfold kMaxU32 in *. lia.
  - rewrite (proj2 (Z.leb_gt _ _)); [done|]. nia.
Qed.

Definition ninety_seconds : Token := mkToken DurLit (bs "90s") 0 3 1 1.
Definition fifty_days : Token := mkToken DurLit (bs "1200h") 0 5 1 1.

Lemma wait_literals_exact_witness :
  parse_wait_ms ninety_seconds start_state = POk 90000 start_state /\
  parse_wait_ms fifty_days start_state = PErr (bad_literal fifty_days) start_state.
Proof.
  split.
  - rewrite (wait_literals_exact ninety_seconds (bs "9") (ch "0") (bs "s") 1000);
      [done | cbn; rewrite !Forall_cons; split_and!; done | unfold unit_ms; set_solver | done | done].
  - rewrite (wait_literals_exact fifty_days (bs "120") (ch "0") (bs "h") 3600000);
      [done | cbn; rewrite !Forall_cons; split_and!; done | unfold unit_ms; set_solver | done | done].
Defined.

(** ** Programs *)

(** What became of a source: the code of its first error, if any. *)
Definition verdict (src : string) : option FrontendError :=
  match front_end (bs src) with
  | Some (inl d) => Some (code d)
  | Some (inr (PErr d _)) => Some (code d)
  | _ => None
  end.

(** A route with every kind of statement is accepted. *)
Example sample_accepted :
  verdict "upstream api { host: 'h', port: 80 }" = Some UnexpectedChar /\
  verdict "package p func twice(n: Int) -> Int => add(n, n) route GET { }" <> None /\
  verdict "package p func twice(n: Int) -> Int => add(n, n)" = None.
Proof. split_and!; vm_compute; done. Qed.

(** A comparison as the first of five arguments: the attempt to read type
    arguments fails on its fifth, and with it the parse. *)
Example comparison_refused :
  verdict "func f(a: Int) => g(a < b, c, d, e, h)" = Some TooManyItems /\
  verdict "func f(a: Int) => g(a < b, c, d, e)" = None /\
  verdict "func f(a: Int) => g(c, a < b, d, e, h)" = None.
Proof. split_and!; vm_compute; done. Qed.

(** A placeholder index that overflows 32 bits is taken modulo 2^32. *)
Example placeholder_wraps : placeholder_index (bs "_4294967297") = Some 1.
Proof. vm_compute. done. Qed.

(** The kinds of the expressions of a source, with the number of their type
    arguments: those of the pool, then those of the statements. *)
Definition expr_kinds (src : string) : list (AstExprKind * nat) :=
  match front_end (bs src) with
  | Some (inr (POk _ s)) =>
      (fun e => (e_kind e, length (e_type_args e))) <$> (expr_pool s ++ (st_expr <$> stmt_pool s))
  | _ => []
  end.

(** The type arguments of a qualified call are read and dropped; those of a plain
    call are kept. *)
Example type_arguments_dropped :
  expr_kinds "func f(a: Int) => m.g<Int>(a)" = [(EIdent, 0); (EIdent, 0); (MethodCall, 0)]%nat /\
  expr_kinds "func f(a: Int) => g<Int>(a)" = [(EIdent, 0); (Call, 1)]%nat.
Proof. split; vm_compute; done. Qed.
