(* ===== verification/AstCopy.v ===== *)
(** * Copies of a syntax tree

    Model of the copy and move operations of AstFile (include/rut/compiler/ast.h).
    In memory a node refers to others by address: here the address of the entry
    [i] of a pool is the address of the pool plus [i].  A copy takes over the
    entries and then moves every address from the pools of the original to its
    own.  [locate] is the file of the parser, whose nodes refer to each other by
    index, laid out at given addresses. *)

From S2P Require Import Prelude Lexer Ast Parser ParserItems ParserLogic FrontEnd.

Record AstFile := mkFile {
  f_items : list AstItem; f_exprs : list AstExpr; f_stmts : list AstStatement; f_types : list AstTypeRef;
  f_package : option (Str * Span)
}.

(** The addresses of the three pools. *)
Record Place := mkPlace { at_types : nat; at_exprs : nat; at_stmts : nat }.

(** ** The copy *)

Section rebase.
Context (from : Place) (other : AstFile) (own : Place).

(** [if (ptr < begin || ptr >= end) return;] *)
Definition rebase (begin len base p : nat) : nat :=
  if Nat.ltb p begin || Nat.leb (begin + len) p then p else (base + (p - begin))%nat.

Definition rebase_type_ptr (p : nat) : nat := rebase (at_types from) (length (f_types other)) (at_types own) p.
Definition rebase_expr_ptr (p : nat) : nat := rebase (at_exprs from) (length (f_exprs other)) (at_exprs own) p.
Definition rebase_stmt_ptr (p : nat) : nat := rebase (at_stmts from) (length (f_stmts other)) (at_stmts own) p.

Definition rebase_type_ref (t : AstTypeRef) : AstTypeRef :=
  mkTypeRef (ty_namespace t) (ty_name t) (ty_is_tuple t) (ty_tuple_names t) (rebase_type_ptr <$> ty_tuple_types t)
    (ty_arg_names t) (ty_arg_namespaces t) (rebase_type_ptr <$> ty_args t).

Definition rebase_expr (e : AstExpr) : AstExpr :=
  let e := with_e_lhs (rebase_expr_ptr <$> e_lhs e) e in
  let e := with_e_rhs (rebase_expr_ptr <$> e_rhs e) e in
  let e := with_e_type_args (rebase_type_ref <$> e_type_args e) e in
  let e := with_e_field_inits ((fun f => (f.1, rebase_expr_ptr f.2)) <$> e_field_inits e) e in
  with_e_args (rebase_expr_ptr <$> e_args e) e.

Definition rebase_arm (a : MatchArm) : MatchArm :=
  let a := with_arm_pattern (rebase_expr (arm_pattern a)) a in
  let a := with_arm_guard (rebase_expr_ptr <$> arm_guard a) a in
  with_arm_stmt (rebase_stmt_ptr <$> arm_stmt a) a.

Definition rebase_stmt (x : AstStatement) : AstStatement :=
  let x := if st_has_type x then with_st_type (rebase_type_ref (st_type x)) x else x in
  let x := with_st_expr (rebase_expr (st_expr x)) x in
  let x := with_st_then_stmt (rebase_stmt_ptr <$> st_then_stmt x) x in
  let x := with_st_else_stmt (rebase_stmt_ptr <$> st_else_stmt x) x in
  let x := with_st_block_stmts (rebase_stmt_ptr <$> st_block_stmts x) x in
  with_st_match_arms (rebase_arm <$> st_match_arms x) x.

Definition rebase_param (p : ParamDecl) : ParamDecl := mkParamDecl (pd_name p) (rebase_type_ref (pd_type p)) (pd_underscore p).

Definition rebase_func (f : AstFunctionDecl) : AstFunctionDecl :=
  mkFunction (fn_span f) (fn_name f) (rebase_type_ref <$> fn_return_type f) (rebase_stmt_ptr (fn_body f))
    (fn_type_params f) (rebase_param <$> fn_params f).

Definition rebase_struct (d : AstStructDecl) : AstStructDecl :=
  mkStruct (sd_name d) (sd_type_params d) ((fun f => (f.1, rebase_type_ref f.2)) <$> sd_fields d).

Definition rebase_variant (d : AstVariantDecl) : AstVariantDecl :=
  mkVariant (vd_name d) (vd_type_params d) ((fun c : Str * option AstTypeRef => (c.1, rebase_type_ref <$> c.2)) <$> vd_cases d).

Definition rebase_method (m : MethodDecl) : MethodDecl :=
  mkMethod (md_name m) (rebase_type_ref <$> md_return_type m) (rebase_stmt_ptr <$> md_default_body m)
    (rebase_param <$> md_params m).

Definition rebase_protocol (d : AstProtocolDecl) : AstProtocolDecl :=
  mkProtocol (pr_name d) (pr_associated_types d) (rebase_method <$> pr_methods d).

Definition rebase_impl (d : AstImplDecl) : AstImplDecl :=
  mkImpl (rebase_type_ref (ip_target d)) (ip_protocol_namespaces d) (ip_protocols d)
    ((fun b => (b.1, rebase_type_ref b.2)) <$> ip_associated_types d) (rebase_func <$> ip_methods d).

Definition rebase_alias_arm (a : ArmDecl) : ArmDecl := set_ad_type (rebase_type_ref (ad_type a)) a.

Definition rebase_type_alias (d : AstTypeAliasDecl) : AstTypeAliasDecl :=
  mkTypeAlias (ta_name d) (ta_type_params d) (ta_is_match d) (rebase_type_ref (ta_target d))
    (rebase_alias_arm <$> ta_arms d).

Definition rebase_item (it : AstItem) : AstItem :=
  mkItem (i_span it)
    match i_decl it with
    | DFunc d => DFunc (rebase_func d)
    | DStruct d => DStruct (rebase_struct d)
    | DVariant d => DVariant (rebase_variant d)
    | DProtocol d => DProtocol (rebase_protocol d)
    | DTypeAlias d => DTypeAlias (rebase_type_alias d)
    | DImpl d => DImpl (rebase_impl d)
    | DRoute d => DRoute (mkRoute (rt_body_span d) (rt_method d) (rt_path d) (rebase_stmt <$> rt_statements d) (rt_decorators d))
    | DUpstream _ | DImport _ | DUsing _ => i_decl it
    end.

(** The package fields of the copy keep their defaults. *)
Definition ast_copy : AstFile :=
  mkFile (rebase_item <$> f_items other) (rebase_expr <$> f_exprs other) (rebase_stmt <$> f_stmts other)
    (rebase_type_ref <$> f_types other) None.
End rebase.

(** ** A file at given addresses *)

Section locate.
Context (P : Place).

Definition loc_type (t : AstTypeRef) : AstTypeRef :=
  mkTypeRef (ty_namespace t) (ty_name t) (ty_is_tuple t) (ty_tuple_names t) (Nat.add (at_types P) <$> ty_tuple_types t)
    (ty_arg_names t) (ty_arg_namespaces t) (Nat.add (at_types P) <$> ty_args t).

Definition loc_expr (e : AstExpr) : AstExpr :=
  mkExpr (e_kind e) (e_span e) (e_bool_value e) (e_int_value e) (e_str_value e) (e_msg e) (e_name e)
    (Nat.add (at_exprs P) <$> e_lhs e) (Nat.add (at_exprs P) <$> e_rhs e)
    (prod_map id (Nat.add (at_exprs P)) <$> e_field_inits e) (loc_type <$> e_type_args e)
    (Nat.add (at_exprs P) <$> e_args e) (e_wait_event_kind e) (e_wait_ms e).

Definition loc_arm (a : MatchArm) : MatchArm :=
  mkArm (arm_span a) (arm_is_wildcard a) (loc_expr (arm_pattern a)) (arm_has_guard a)
    (Nat.add (at_exprs P) <$> arm_guard a) (Nat.add (at_stmts P) <$> arm_stmt a).

Definition loc_stmt (x : AstStatement) : AstStatement :=
  mkStatement (st_kind x) (st_span x) (st_name x) (st_bind_value x) (st_is_const x) (st_is_inline x) (st_has_type x)
    (loc_type (st_type x)) (loc_expr (st_expr x)) (st_status_code x) (st_wait_event_kind x) (st_has_wait_expr x)
    (st_response_body x) (st_has_response_body x) (st_response_headers x) (Nat.add (at_stmts P) <$> st_then_stmt x)
    (Nat.add (at_stmts P) <$> st_else_stmt x) (Nat.add (at_stmts P) <$> st_block_stmts x) (loc_arm <$> st_match_arms x).

Definition loc_param (p : ParamDecl) : ParamDecl := mkParamDecl (pd_name p) (loc_type (pd_type p)) (pd_underscore p).

Definition loc_func (f : AstFunctionDecl) : AstFunctionDecl :=
  mkFunction (fn_span f) (fn_name f) (loc_type <$> fn_return_type f) (at_stmts P + fn_body f)%nat (fn_type_params f)
    (loc_param <$> fn_params f).

Definition loc_method (m : MethodDecl) : MethodDecl :=
  mkMethod (md_name m) (loc_type <$> md_return_type m) (Nat.add (at_stmts P) <$> md_default_body m) (loc_param <$> md_params m).

Definition loc_arm_decl (a : ArmDecl) : ArmDecl :=
  mkArmDecl (ad_is_wildcard a) (ad_is_type_equality a) (ad_type_param a) (ad_associated_name a) (ad_rhs_type_param a)
    (ad_rhs_associated_name a) (ad_constraint_namespace a) (ad_constraint a) (loc_type (ad_type a)).

Definition loc_decl (d : AstDecl) : AstDecl :=
  match d with
  | DUpstream _ | DImport _ | DUsing _ => d
  | DFunc f => DFunc (loc_func f)
  | DStruct d => DStruct (mkStruct (sd_name d) (sd_type_params d) (prod_map id loc_type <$> sd_fields d))
  | DVariant d => DVariant (mkVariant (vd_name d) (vd_type_params d) (prod_map id (fmap (M := option) loc_type) <$> vd_cases d))
  | DProtocol d => DProtocol (mkProtocol (pr_name d) (pr_associated_types d) (loc_method <$> pr_methods d))
  | DTypeAlias d =>
      DTypeAlias (mkTypeAlias (ta_name d) (ta_type_params d) (ta_is_match d) (loc_type (ta_target d)) (loc_arm_decl <$> ta_arms d))
  | DImpl d =>
      DImpl (mkImpl (loc_type (ip_target d)) (ip_protocol_namespaces d) (ip_protocols d)
        (prod_map id loc_type <$> ip_associated_types d) (loc_func <$> ip_methods d))
  | DRoute d => DRoute (mkRoute (rt_body_span d) (rt_method d) (rt_path d) (loc_stmt <$> rt_statements d) (rt_decorators d))
  end.

Definition locate (package : option (Str * Span)) (s : PState) : AstFile :=
  mkFile ((fun it => mkItem (i_span it) (loc_decl (i_decl it))) <$> items s) (loc_expr <$> expr_pool s)
    (loc_stmt <$> stmt_pool s) (loc_type <$> type_pool s) package.
End locate.

(** ** A copy is the same file elsewhere *)

Section copy.
Context (A B : Place) (package : option (Str * Span)) (s : PState).
Notation f := (locate A package s).

Lemma rebase_in begin len base i : (i < len)%nat -> rebase begin len base (begin + i) = (base + i)%nat.
Proof. intros Hi. unfold rebase. rewrite (proj2 (Nat.ltb_ge _ _)), (proj2 (Nat.leb_gt _ _)) by lia. cbn. lia. Qed.

Lemma fmap_moved {X Y Z} (g : Y -> Z) (h : X -> Y) (k : X -> Z) l : Forall (fun x => g (h x) = k x) l -> g <$> (h <$> l) = k <$> l.
Proof. intros H. rewrite <- list_fmap_compose. by apply Forall_fmap_ext_1. Qed.

Lemma ptrs_moved begin n base l : all_below n l -> rebase begin n base <$> (Nat.add begin <$> l) = Nat.add base <$> l.
Proof. intros H. apply fmap_moved. eapply Forall_impl; [exact H|]. intros i. apply rebase_in. Qed.

Lemma ptr_moved begin n base o : opt_below n o -> rebase begin n base <$> (Nat.add begin <$> o) = Nat.add base <$> o.
Proof. destruct o as [i|]; [|done]. intros H. cbn. f_equal. apply rebase_in. by apply H. Qed.

Lemma lens : length (f_types f) = nt s /\ length (f_exprs f) = ne s /\ length (f_stmts f) = ns s.
Proof. cbn. by rewrite !length_fmap. Qed.

Lemma type_moved t : type_ok (nt s) t -> rebase_type_ref A f B (loc_type A t) = loc_type B t.
Proof.
  intros [H1 H2]. unfold rebase_type_ref, loc_type, rebase_type_ptr. cbn [ty_tuple_types ty_args ty_namespace ty_name ty_is_tuple ty_tuple_names ty_arg_names ty_arg_namespaces].
  destruct lens as (-> & _ & _). by rewrite !ptrs_moved.
Qed.

Lemma types_moved l : Forall (type_ok (nt s)) l -> rebase_type_ref A f B <$> (loc_type A <$> l) = loc_type B <$> l.
Proof. intros H. apply fmap_moved. eapply Forall_impl; [exact H|]. apply type_moved. Qed.

Lemma inits_moved n (l : list (Str * nat)) :
  all_below n l.*2 ->
  (fun p => (p.1, rebase (at_exprs A) n (at_exprs B) p.2)) <$> (prod_map id (Nat.add (at_exprs A)) <$> l) =
  prod_map id (Nat.add (at_exprs B)) <$> l.
Proof.
  intros H. apply fmap_moved. apply Forall_fmap in H. eapply Forall_impl; [exact H|]. intros [x i] Hi. cbn in *. by rewrite rebase_in.
Qed.

Lemma expr_moved e : expr_ok (ne s) (nt s) e -> rebase_expr A f B (loc_expr A e) = loc_expr B e.
Proof.
  intros (H1 & H2 & H3 & H4 & H5).
  unfold rebase_expr, loc_expr, rebase_expr_ptr. destruct lens as (_ & -> & _). cbn -[rebase fmap prod_map].
  by rewrite !ptr_moved, ptrs_moved, types_moved, inits_moved by done.
Qed.

Lemma exprs_moved l : Forall (expr_ok (ne s) (nt s)) l -> rebase_expr A f B <$> (loc_expr A <$> l) = loc_expr B <$> l.
Proof. intros H. apply fmap_moved. eapply Forall_impl; [exact H|]. apply expr_moved. Qed.

Lemma arm_moved a : arm_ok (ne s) (ns s) (nt s) a -> rebase_arm A f B (loc_arm A a) = loc_arm B a.
Proof.
  intros (H1 & H2 & H3). unfold rebase_arm, loc_arm, rebase_expr_ptr, rebase_stmt_ptr. destruct lens as (_ & -> & ->).
  cbn -[rebase fmap locate rebase_expr loc_expr]. by rewrite !ptr_moved, expr_moved.
Qed.

(** A type that is not set has no pointers. *)
Lemma bare_type P t : type_ok 0 t -> loc_type P t = t.
Proof.
  assert (forall l, all_below 0 l -> l = []) as Hnil by (intros [|i l] H; [done | apply Forall_cons in H as [H _]; lia]).
  intros [H1 H2]. apply Hnil in H1, H2. destruct t. cbn in *. by subst.
Qed.

Lemma stmt_moved x : stmt_ok (ne s) (ns s) (nt s) x -> rebase_stmt A f B (loc_stmt A x) = loc_stmt B x.
Proof.
  intros (H1 & H2 & H3 & H4 & H5 & H6 & H7). unfold rebase_stmt, loc_stmt, rebase_stmt_ptr. destruct lens as (_ & _ & ->).
  cbn -[rebase fmap locate rebase_expr loc_expr rebase_arm loc_arm rebase_type_ref loc_type].
  destruct (st_has_type x) eqn:E; cbn -[rebase fmap locate rebase_expr loc_expr rebase_arm loc_arm rebase_type_ref loc_type];
    rewrite !ptr_moved, ptrs_moved, expr_moved by done.
  all: rewrite (fmap_moved (rebase_arm A f B) (loc_arm A) (loc_arm B)) by (eapply Forall_impl; [exact H6 | apply arm_moved]).
  - by rewrite type_moved.
  - by rewrite !bare_type by (by apply H7).
Qed.

Lemma opt_type_moved o :
  (forall t, o = Some t -> type_ok (nt s) t) -> rebase_type_ref A f B <$> (loc_type A <$> o) = loc_type B <$> o.
Proof. destruct o as [t|]; [|done]. intros H. cbn. f_equal. apply type_moved. by apply H. Qed.

Lemma params_moved l :
  Forall (fun p => type_ok (nt s) (pd_type p)) l -> rebase_param A f B <$> (loc_param A <$> l) = loc_param B <$> l.
Proof.
  intros H. apply fmap_moved. eapply Forall_impl; [exact H|]. intros p Hp. unfold rebase_param, loc_param. cbn -[rebase_type_ref loc_type locate].
  by rewrite type_moved.
Qed.

Lemma named_moved (l : list (Str * AstTypeRef)) :
  Forall (fun p => type_ok (nt s) p.2) l ->
  (fun p => (p.1, rebase_type_ref A f B p.2)) <$> (prod_map id (loc_type A) <$> l) = prod_map id (loc_type B) <$> l.
Proof.
  intros H. apply fmap_moved. eapply Forall_impl; [exact H|]. intros [x t] Ht. cbn -[rebase_type_ref loc_type locate] in *.
  by rewrite type_moved.
Qed.

Lemma func_moved d : fn_ok (ns s) (nt s) d -> rebase_func A f B (loc_func A d) = loc_func B d.
Proof.
  intros (H1 & H2 & H3). unfold rebase_func, loc_func, rebase_stmt_ptr. destruct lens as (_ & _ & ->).
  cbn -[rebase fmap locate rebase_param loc_param rebase_type_ref loc_type].
  by rewrite opt_type_moved, params_moved, rebase_in by done.
Qed.

Lemma method_moved m : method_ok (ns s) (nt s) m -> rebase_method A f B (loc_method A m) = loc_method B m.
Proof.
  intros (H1 & H2 & H3). unfold rebase_method, loc_method, rebase_stmt_ptr. destruct lens as (_ & _ & ->).
  cbn -[rebase fmap locate rebase_param loc_param rebase_type_ref loc_type].
  by rewrite opt_type_moved, params_moved, ptr_moved by done.
Qed.

Lemma cases_moved (l : list (Str * option AstTypeRef)) :
  Forall (fun c => forall t, c.2 = Some t -> type_ok (nt s) t) l ->
  (fun c : Str * option AstTypeRef => (c.1, rebase_type_ref A f B <$> c.2)) <$> (prod_map id (fmap (M := option) (loc_type A)) <$> l) =
  prod_map id (fmap (M := option) (loc_type B)) <$> l.
Proof.
  intros H. apply fmap_moved. eapply Forall_impl; [exact H|]. intros [x o] Ho. cbn -[rebase_type_ref loc_type locate fmap] in *.
  by rewrite opt_type_moved.
Qed.

Lemma item_moved it :
  decl_ok (ne s) (ns s) (nt s) (i_decl it) ->
  rebase_item A f B (mkItem (i_span it) (loc_decl A (i_decl it))) = mkItem (i_span it) (loc_decl B (i_decl it)).
Proof.
  unfold rebase_item. cbn [i_span i_decl]. intros H. f_equal. destruct (i_decl it) as [d|d|d|d|d|d|d|d|d|d]; cbn [loc_decl decl_ok] in *; try done; f_equal.
  - by apply func_moved.
  - unfold rebase_struct. cbn [sd_name sd_type_params sd_fields]. by rewrite named_moved.
  - unfold rebase_variant. cbn [vd_name vd_type_params vd_cases]. by rewrite cases_moved.
  - unfold rebase_protocol. cbn [pr_name pr_associated_types pr_methods].
    by rewrite (fmap_moved _ _ (loc_method B)) by (eapply Forall_impl; [exact H | apply method_moved]).
  - destruct H as [Ht Ha]. unfold rebase_type_alias. cbn [ta_name ta_type_params ta_is_match ta_target ta_arms]. rewrite type_moved by done.
    f_equal. apply fmap_moved. eapply Forall_impl; [exact Ha|]. intros a Hat. unfold rebase_alias_arm, set_ad_type, loc_arm_decl.
    cbn -[rebase_type_ref loc_type locate]. by rewrite type_moved.
  - destruct H as (Ht & Ha & Hm). unfold rebase_impl. cbn [ip_target ip_protocol_namespaces ip_protocols ip_associated_types ip_methods].
    rewrite type_moved, named_moved by done.
    by rewrite (fmap_moved _ _ (loc_func B)) by (eapply Forall_impl; [exact Hm | apply func_moved]).
  - cbn [rt_body_span rt_method rt_path rt_statements rt_decorators].
    by rewrite (fmap_moved _ _ (loc_stmt B)) by (eapply Forall_impl; [exact H | apply stmt_moved]).
Qed.

Lemma pool_moved {X} (g h k : X -> X) (R : X -> Prop) (l : list X) :
  (forall i x, l !! i = Some x -> R x) -> (forall x, R x -> g (h x) = k x) -> g <$> (h <$> l) = k <$> l.
Proof. intros Hl H. apply fmap_moved, Forall_lookup. intros i x Hx. by eapply H, Hl. Qed.

Lemma copy_moved : pools_ok s -> ast_copy A f B = locate B None s.
Proof.
  intros [h1 h2 h3 h4 _]. unfold ast_copy. cbn [locate f_items f_exprs f_stmts f_types f_package]. unfold locate at 5. f_equal.
  - apply fmap_moved. eapply Forall_impl; [exact h4|]. apply item_moved.
  - apply (pool_moved _ _ _ (expr_ok (ne s) (nt s))); [|apply expr_moved]. intros i e He.
    pose proof (lookup_lt_Some _ _ _ He). eapply expr_ok_mono; [by eapply h2 | unfold ne; lia | lia].
  - apply (pool_moved _ _ _ (stmt_ok (ne s) (ns s) (nt s))); [|apply stmt_moved]. intros i x Hx.
    pose proof (lookup_lt_Some _ _ _ Hx). eapply stmt_ok_mono; [by eapply h3 | lia | unfold ns; lia | lia].
  - apply (pool_moved _ _ _ (type_ok (nt s))); [|apply type_moved]. intros i t Ht.
    pose proof (lookup_lt_Some _ _ _ Ht). eapply type_ok_mono; [by eapply h1 | unfold nt; lia].
Qed.
End copy.

(** A copy of a file is the file elsewhere.  Copying the file that a source
    parses to, from any place to any other, gives the same items and the same
    nodes with every pointer into the pools of the copy: no pointer is missed
    and none leads back to the original.  What is lost is the package. *)
Theorem ast_copy_faithful src package s A B :
  front_end src = Some (inr (POk package s)) ->
  ast_copy A (locate A package s) B = locate B None s.
Proof.
  intros H. apply copy_moved. unfold front_end in H. destruct (lex src) as [[d|ts]|] eqn:Hl; [done | | done].
  injection H as H. pose proof (parse_lexed src ts Hl) as Hp. rewrite H in Hp. apply Hp.
Qed.

Definition package_source : list Z := bs "package shop func twice(n: Int) -> Int { let m = n == n match m { case _ => add(n, n) } }".
Definition package_state : option (Str * Span) * PState :=
  match front_end package_source with Some (inr (POk p s)) => (p, s) | _ => (None, start_state) end.

Lemma ast_copy_faithful_witness :
  fst <$> package_state.1 = Some (bs "shop") /\
  ast_copy (mkPlace 100 200 300) (locate (mkPlace 100 200 300) package_state.1 package_state.2) (mkPlace 7 8 9) =
    locate (mkPlace 7 8 9) None package_state.2.
Proof.
  split; [vm_compute; done|]. apply (ast_copy_faithful package_source). vm_compute. done.
Defined.
