(* ===== verification/TypeSyntax.v ===== *)
(** * Types are read as they are written

    A type of the language as a tree, its tokens, and the theorem that
    [parse_func_type_ref] reads the tokens of a type back as the type: the parser
    is complete on well-formed types and what it builds in the pool is the tree. *)

From S2P Require Import Prelude Lexer Ast Parser ParserItems.

(** ** Types and their tokens *)

Inductive Ty :=
  | TyNamed (namespace : option Str) (name : Str) (args : list Ty)
  | TyTuple (elems : list Ty).

Section induction.
Context (R : Ty -> Prop).
Context (Hnamed : forall ns n args, Forall R args -> R (TyNamed ns n args)).
Context (Htuple : forall l, Forall R l -> R (TyTuple l)).

Fixpoint ty_induction (t : Ty) : R t :=
  let all := fix all (l : list Ty) : Forall R l :=
    match l with [] => List.Forall_nil R | t :: l' => List.Forall_cons R t l' (ty_induction t) (all l') end in
  match t with
  | TyNamed ns n args => Hnamed ns n args (all args)
  | TyTuple l => Htuple l (all l)
  end.
End induction.

Definition sym (ty : TokenType) (c : string) : TokenType * Str := (ty, bs c).

(** [a, b, c] in front of the closing token. *)
Definition separated {A} (f : A -> list (TokenType * Str)) (l : list A) (close : TokenType * Str) : list (TokenType * Str) :=
  match l with
  | [] => [close]
  | a :: l' => f a ++ flat_map (fun b => sym Comma "," :: f b) l' ++ [close]
  end.

Fixpoint ty_tokens (t : Ty) : list (TokenType * Str) :=
  match t with
  | TyNamed ns n args =>
      match ns with Some m => [(Ident, m); sym Dot "."] | None => [] end ++ (Ident, n) ::
      match args with
      | [] => []
      | a :: args' => sym Lt "<" :: ty_tokens a ++ flat_map (fun b => sym Comma "," :: ty_tokens b) args' ++ [sym Gt ">"]
      end
  | TyTuple l =>
      sym LParen "(" ::
      match l with
      | [] => [sym RParen ")"]
      | a :: l' => ty_tokens a ++ flat_map (fun b => sym Comma "," :: ty_tokens b) l' ++ [sym RParen ")"]
      end
  end.

(** The nodes below the root, each an entry of the pool. *)
Fixpoint ty_entries (t : Ty) : nat :=
  match t with TyNamed _ _ l | TyTuple l => list_sum (map (fun a => S (ty_entries a)) l) end.

(** At most four arguments, two to ten elements. *)
Fixpoint ty_fits (t : Ty) : bool :=
  match t with
  | TyNamed _ _ l => Nat.leb (length l) kMaxTypeArgs && forallb ty_fits l
  | TyTuple l => Nat.leb 2 (length l) && Nat.leb (length l) kMaxTupleElems && forallb ty_fits l
  end.

(** ** What the parser builds *)

Definition root_name (t : Ty) : Str := match t with TyNamed _ n _ => n | TyTuple _ => [] end.
Definition root_namespace (t : Ty) : Str := match t with TyNamed (Some m) _ _ => m | _ => [] end.
Definition plain_name (t : Ty) : Str := match t with TyNamed _ n [] => n | _ => [] end.

Inductive shows (pool : list AstTypeRef) : AstTypeRef -> Ty -> Prop :=
  | shows_named ns n args ps :
      Forall2 (fun p a => exists t, pool !! p = Some t /\ shows pool t a) ps args ->
      shows pool (mkTypeRef (default [] ns) n false [] [] (root_name <$> args) (root_namespace <$> args) ps) (TyNamed ns n args)
  | shows_tuple l ps :
      Forall2 (fun p a => exists t, pool !! p = Some t /\ shows pool t a) ps l ->
      shows pool (mkTypeRef [] [] true (plain_name <$> l) ps [] [] []) (TyTuple l).

Definition refers (pool : list AstTypeRef) (p : nat) (a : Ty) : Prop := exists t, pool !! p = Some t /\ shows pool t a.

Lemma refs_more pool ext l : Forall (fun a => forall t, shows pool t a -> shows (pool ++ ext) t a) l -> forall ps,
  Forall2 (refers pool) ps l -> Forall2 (refers (pool ++ ext)) ps l.
Proof.
  induction 1 as [|a l Ha _ IH]; intros ps F; inversion F as [|p ? ps' ? (t & Hp & Ht) F']; subst; constructor; [|by apply IH].
  exists t. split; [by apply lookup_app_l_Some | by apply Ha].
Qed.

Lemma shows_more pool ext a : forall t, shows pool t a -> shows (pool ++ ext) t a.
Proof.
  induction a as [ns n args IH|l IH] using ty_induction; intros t H; inversion H; subst; constructor; by apply refs_more.
Qed.

(** The name a tuple keeps of an element. *)
Definition elem_name (t : AstTypeRef) : Str :=
  if negb (ty_is_tuple t) && Nat.eqb (length (ty_args t)) 0 && negb (Nat.eqb (length (ty_name t)) 0) then ty_name t else [].

Lemma shows_root pool t a : shows pool t a ->
  ty_name t = root_name a /\ ty_namespace t = root_namespace a /\
  elem_name t = plain_name a.
Proof.
  intros H. unfold elem_name. inversion H as [ns n args ps F|l ps F]; subst; cbn; split_and!; try done.
  inversion F; subst; cbn; [|done]. by destruct n.
Qed.

(** ** The cursor on known tokens *)

Section reading.
Context (toks : list Token).

Definition ahead (s : PState) (l : list (TokenType * Str)) : Prop := drop (p_pos s) (kind <$> toks) = l.

(** [s] after [k] tokens, with entries added to the pool of types. *)
Definition grown (s : PState) (k : nat) (ext : list AstTypeRef) : PState :=
  mkP (p_pos s + k) (expr_pool s) (stmt_pool s) (type_pool s ++ ext) (items s).

Lemma grown_0 s : grown s 0 [] = s.
Proof. unfold grown. rewrite Nat.add_0_r, app_nil_r. by destruct s. Qed.

Lemma grown_grown s k e k' e' : grown (grown s k e) k' e' = grown s (k + k') (e ++ e').
Proof. unfold grown. cbn. by rewrite Nat.add_assoc, app_assoc. Qed.

Lemma ahead_grown s l r ext : ahead s (l ++ r) -> ahead (grown s (length l) ext) r.
Proof. unfold ahead. cbn. intros H. by rewrite <- drop_drop, H, drop_app_length. Qed.

Lemma ahead_token s ty x r : ahead s ((ty, x) :: r) -> exists t, toks !! p_pos s = Some t /\ type t = ty /\ text t = x.
Proof.
  intros H. assert ((kind <$> toks) !! p_pos s = Some (ty, x)) as Hk.
  { rewrite <- (Nat.add_0_r (p_pos s)), <- lookup_drop, H. done. }
  rewrite list_lookup_fmap in Hk. destruct (toks !! p_pos s) as [t|]; [|done]. injection Hk as <- <-. by exists t.
Qed.

Lemma bump_grown s : bump s = POk tt (grown s 1 []).
Proof. unfold bump, grown. cbn. by rewrite Nat.add_1_r, app_nil_r. Qed.

Lemma cur_token s t : toks !! p_pos s = Some t -> cur toks s = POk t s.
Proof. intros H. unfold cur, token, mbind, P_bind, get_pos. by rewrite H. Qed.

Lemma take_hit s ty x r : ahead s ((ty, x) :: r) ->
  exists t, take toks ty s = POk (Some t) (grown s 1 []) /\ text t = x.
Proof.
  intros H. destruct (ahead_token _ _ _ _ H) as (t & Ht & Hty & Hx). exists t. split; [|done].
  unfold take, mbind, P_bind. rewrite (cur_token _ _ Ht). unfold is_type. rewrite bool_decide_true by done. by rewrite bump_grown.
Qed.

Lemma take_miss s ty ty' x r : ahead s ((ty', x) :: r) -> ty' <> ty -> take toks ty s = POk None s.
Proof.
  intros H Hne. destruct (ahead_token _ _ _ _ H) as (t & Ht & Hty & Hx).
  unfold take, mbind, P_bind. rewrite (cur_token _ _ Ht). unfold is_type. by rewrite bool_decide_false by congruence.
Qed.

Lemma took_hit s ty x r : ahead s ((ty, x) :: r) -> took toks ty s = POk true (grown s 1 []).
Proof. intros H. destruct (take_hit _ _ _ _ H) as (t & Ht & _). unfold took, mbind, P_bind. by rewrite Ht. Qed.

Lemma took_miss s ty ty' x r : ahead s ((ty', x) :: r) -> ty' <> ty -> took toks ty s = POk false s.
Proof. intros H Hne. unfold took, mbind, P_bind. by rewrite (take_miss _ _ _ _ _ H Hne). Qed.

Lemma expect_hit s ty x r : ahead s ((ty, x) :: r) -> exists t, expect toks ty s = POk t (grown s 1 []) /\ text t = x.
Proof.
  intros H. destruct (ahead_token _ _ _ _ H) as (t & Ht & Hty & Hx). exists t. split; [|done].
  unfold expect, mbind, P_bind. rewrite (cur_token _ _ Ht). unfold is_type. rewrite bool_decide_true by done. by rewrite bump_grown.
Qed.

Lemma alloc_type_grown s t : (length (type_pool s) < kMaxTypePool)%nat -> alloc_type t s = POk (length (type_pool s)) (grown s 0 [t]).
Proof. intros H. unfold alloc_type. rewrite (proj2 (Nat.leb_gt _ _)) by done. unfold grown. by rewrite Nat.add_0_r. Qed.

Lemma push_fits {A} cap (l : list A) x sp s : (length l < cap)%nat -> push_within cap l x sp s = POk (l ++ [x]) s.
Proof. intros H. unfold push_within. by rewrite (proj2 (Nat.leb_gt _ _)). Qed.

(** ** Sequences of types *)

(** What may stand behind a type. *)
Definition follow (r : list (TokenType * Str)) : Prop := exists k r', r = k :: r' /\ k.1 <> Lt /\ k.1 <> Dot.

Definition reads (m : P AstTypeRef) (a : Ty) : Prop :=
  forall s r, ahead s (ty_tokens a ++ r) -> follow r -> (length (type_pool s) + ty_entries a <= kMaxTypePool)%nat ->
  exists t ext, m s = POk t (grown s (length (ty_tokens a)) ext) /\ length ext = ty_entries a /\
    shows (type_pool s ++ ext) t a.

Definition comma_tokens (l : list Ty) : list (TokenType * Str) := flat_map (fun b => sym Comma "," :: ty_tokens b) l.
Definition list_entries (l : list Ty) : nat := list_sum (map (fun a => S (ty_entries a)) l).

Lemma list_entries_cons a l : list_entries (a :: l) = (S (ty_entries a) + list_entries l)%nat.
Proof. done. Qed.

(** An element of the sequence: its node and its place in the pool. *)
Definition entry_of (pool : list AstTypeRef) (tp : AstTypeRef * nat) (a : Ty) : Prop :=
  shows pool tp.1 a /\ pool !! tp.2 = Some tp.1.

Lemma entry_more pool ext tp a : entry_of pool tp a -> entry_of (pool ++ ext) tp a.
Proof. intros [H1 H2]. split; [by apply shows_more | by apply lookup_app_l_Some]. Qed.

Section sequence.
Context (rec : P AstTypeRef) (body : AstTypeRef -> P (AstTypeRef + AstTypeRef)) (close : TokenType) (cap : nat).
Context (add : AstTypeRef -> AstTypeRef -> nat -> AstTypeRef) (size : AstTypeRef -> nat).
Context (Hclose : close <> Lt /\ close <> Dot) (Hsize : forall o t p, size (add o t p) = S (size o)).
Context (Hbody : forall o s t s1 k x r,
  rec s = POk t s1 -> (size o < cap)%nat -> (length (type_pool s1) < kMaxTypePool)%nat -> ahead s1 ((k, x) :: r) ->
  (k = close -> body o s = POk (inr (add o t (length (type_pool s1)))) (grown s1 1 [t])) /\
  (k = Comma -> body o s = POk (inl (add o t (length (type_pool s1)))) (grown s1 1 [t]))).

Lemma sequence_reads l : forall a o s x r fuel,
  Forall (reads rec) (a :: l) -> ahead s (ty_tokens a ++ comma_tokens l ++ (close, x) :: r) -> (length l < fuel)%nat ->
  (size o + S (length l) <= cap)%nat -> (length (type_pool s) + list_entries (a :: l) <= kMaxTypePool)%nat ->
  exists tps ext,
    turns fuel body o s =
      POk (fold_left (fun o tp => add o tp.1 tp.2) tps o) (grown s (S (length (ty_tokens a ++ comma_tokens l))) ext) /\
    length ext = list_entries (a :: l) /\ Forall2 (entry_of (type_pool s ++ ext)) tps (a :: l).
Proof using Hclose Hsize Hbody.
  induction l as [|b l IH]; intros a o s x r fuel Hall Hs Hf Hc Hp; (destruct fuel as [|fuel]; [lia|]);
    apply Forall_cons in Hall as [Ha Hl]; rewrite list_entries_cons in *.
  - destruct (Ha s ((close, x) :: r)) as (t & ext & Ht & He & Hsh); [done | by eexists _, _ | lia |].
    pose proof (ahead_grown s _ _ ext Hs) as Hs1.
    destruct (Hbody o s t _ _ _ _ Ht ltac:(lia) ltac:(cbn; rewrite length_app; lia) Hs1) as [Hb _].
    exists [(t, length (type_pool s ++ ext))], (ext ++ [t]). cbn [turns]. unfold mbind, P_bind. rewrite Hb by done.
    rewrite grown_grown, app_nil_r. split_and!.
    + cbn. unfold mret, P_ret. by rewrite Nat.add_1_r.
    + rewrite length_app. cbn. unfold list_entries. cbn. lia.
    + constructor; [|constructor]. rewrite app_assoc. split; [by apply shows_more|]. cbn.
      rewrite lookup_app_r by lia. by rewrite Nat.sub_diag.
  - destruct (Ha s (comma_tokens (b :: l) ++ (close, x) :: r)) as (t & ext & Ht & He & Hsh);
      [done | by eexists _, _ | lia |].
    pose proof (ahead_grown s _ _ ext Hs) as Hs1. cbn [comma_tokens flat_map app] in Hs1.
    destruct (Hbody o s t _ _ _ _ Ht ltac:(lia) ltac:(cbn; rewrite length_app; lia) Hs1) as [_ Hb].
    cbn [turns]. unfold mbind, P_bind at 1. rewrite Hb by done.
    pose proof (ahead_grown _ [sym Comma ","] _ [t] Hs1) as Hs2. rewrite <- app_assoc in Hs2. cbn [length] in Hs2.
    destruct (IH b (add o t (length (type_pool s ++ ext))) _ x r fuel Hl Hs2) as (tps & ext' & Hrun & Hext & Hsh');
      [cbn in Hf; lia | rewrite Hsize; cbn in Hc; lia | cbn [type_pool grown]; rewrite !length_app; cbn [length]; lia |].
    exists ((t, length (type_pool s ++ ext)) :: tps), (ext ++ [t] ++ ext'). cbn [type_pool grown] in *.
    rewrite Hrun, !grown_grown. split_and!.
    + cbn [fold_left fst snd]. f_equal. unfold comma_tokens. cbn [flat_map]. f_equal.
      rewrite !length_app. cbn [length]. lia.
    + rewrite !length_app. cbn [length]. lia.
    + rewrite !app_assoc in *. constructor; [|done]. split; [by apply shows_more, shows_more|]. cbn.
      rewrite lookup_app_l by (rewrite !length_app; cbn; lia). rewrite lookup_app_r by lia. by rewrite Nat.sub_diag.
Qed.
End sequence.

(** ** Both kinds of sequence *)

(** The fields a sequence of arguments or of elements fills. *)
Lemma fold_args (tps : list (AstTypeRef * nat)) : forall o,
  fold_left (fun o tp => push_type_arg (ty_namespace tp.1) (ty_name tp.1) tp.2 o) tps o =
  mkTypeRef (ty_namespace o) (ty_name o) (ty_is_tuple o) (ty_tuple_names o) (ty_tuple_types o)
    (ty_arg_names o ++ ((fun tp => ty_name tp.1) <$> tps)) (ty_arg_namespaces o ++ ((fun tp => ty_namespace tp.1) <$> tps))
    (ty_args o ++ tps.*2).
Proof.
  induction tps as [|[t p] tps IH]; intros o; cbn [fold_left fmap list_fmap]; [by rewrite !app_nil_r; destruct o|].
  rewrite IH. cbn. by rewrite <- !app_assoc.
Qed.

Lemma fold_elems (tps : list (AstTypeRef * nat)) : forall o,
  fold_left (fun o tp => push_tuple_elem (elem_name tp.1) tp.2 o) tps o =
  mkTypeRef (ty_namespace o) (ty_name o) (ty_is_tuple o) (ty_tuple_names o ++ ((fun tp => elem_name tp.1) <$> tps))
    (ty_tuple_types o ++ tps.*2) (ty_arg_names o) (ty_arg_namespaces o) (ty_args o).
Proof.
  induction tps as [|[t p] tps IH]; intros o; cbn [fold_left fmap list_fmap]; [by rewrite !app_nil_r; destruct o|].
  rewrite IH. cbn. by rewrite <- !app_assoc.
Qed.

Lemma entries_shown pool tps l :
  Forall2 (entry_of pool) tps l ->
  (fun tp => ty_name tp.1) <$> tps = root_name <$> l /\ (fun tp => ty_namespace tp.1) <$> tps = root_namespace <$> l /\
  (fun tp => elem_name tp.1) <$> tps = plain_name <$> l /\ Forall2 (refers pool) tps.*2 l.
Proof.
  induction 1 as [|[t p] a tps l [Hs Hp] _ (H1 & H2 & H3 & H4)]; [by split_and!|]. cbn in *.
  destruct (shows_root _ _ _ Hs) as (E1 & E2 & E3). rewrite E1, E2, E3, H1, H2, H3.
  split_and!; [done.. |]. constructor; [by exists t | done].
Qed.

Section types.
Context (rec : P AstTypeRef).

Lemma arguments_reads sp o s a l x r :
  Forall (reads rec) (a :: l) -> ahead s (ty_tokens a ++ comma_tokens l ++ (Gt, x) :: r) ->
  ty_args o = [] -> ty_arg_names o = [] -> ty_arg_namespaces o = [] -> (S (length l) <= kMaxTypeArgs)%nat ->
  (length l <= length toks)%nat -> (length (type_pool s) + list_entries (a :: l) <= kMaxTypePool)%nat ->
  exists ps ext,
    type_arguments toks rec sp o s =
      POk (mkTypeRef (ty_namespace o) (ty_name o) (ty_is_tuple o) (ty_tuple_names o) (ty_tuple_types o)
             (root_name <$> (a :: l)) (root_namespace <$> (a :: l)) ps)
          (grown s (S (length (ty_tokens a ++ comma_tokens l))) ext) /\
    length ext = list_entries (a :: l) /\ Forall2 (refers (type_pool s ++ ext)) ps (a :: l).
Proof.
  intros Hall Hs E1 E2 E3 Hc Hl Hp.
  unfold type_arguments, loop. lazymatch goal with |- context [turns _ ?b _ _] => set (body := b) end.
  destruct (sequence_reads rec body Gt kMaxTypeArgs (fun o t p => push_type_arg (ty_namespace t) (ty_name t) p o)
    (fun o => Nat.max (length (ty_args o)) (Nat.max (length (ty_arg_names o)) (length (ty_arg_namespaces o)))) ltac:(done))
    with (l := l) (a := a) (o := o) (s := s) (x := x) (r := r) (fuel := S (length toks))
    as (tps & ext & Hrun & Hext & Hsh); [| |done|done|lia| |done|].
  - intros o' t p. cbn. rewrite !length_app. cbn. lia.
  - intros o' s' t s1 k x' r' Ht Hsz Hroom Hk. subst body. cbv beta. unfold mbind, P_bind. rewrite Ht.
    rewrite !push_fits by lia. rewrite alloc_type_grown, push_fits by lia. cbv zeta.
    assert (ahead (grown s1 0 [t]) ((k, x') :: r')) as Hk' by (unfold ahead in *; cbn; by rewrite Nat.add_0_r).
    split; intros ->.
    + by rewrite (took_hit _ _ _ _ Hk'), grown_grown.
    + rewrite (took_miss _ _ _ _ _ Hk') by done. destruct (expect_hit _ _ _ _ Hk') as (c & Hc' & _).
      by rewrite Hc', grown_grown.
  - rewrite E1, E2, E3. cbn. lia.
  - rewrite Hrun. destruct (entries_shown _ _ _ Hsh) as (F1 & F2 & _ & F4).
    exists tps.*2, ext. by rewrite fold_args, E1, E2, E3, F1, F2.
Qed.

Lemma tuple_reads s a l x r :
  Forall (reads rec) (a :: l) -> ahead s (ty_tokens a ++ comma_tokens l ++ (RParen, x) :: r) ->
  (1 <= length l)%nat -> (S (length l) <= kMaxTupleElems)%nat -> (length l <= length toks)%nat ->
  (length (type_pool s) + list_entries (a :: l) <= kMaxTypePool)%nat ->
  exists ps ext,
    tuple_type toks rec s =
      POk (mkTypeRef [] [] true (plain_name <$> (a :: l)) ps [] [] []) (grown s (S (length (ty_tokens a ++ comma_tokens l))) ext) /\
    length ext = list_entries (a :: l) /\ Forall2 (refers (type_pool s ++ ext)) ps (a :: l).
Proof.
  intros Hall Hs H2 Hc Hl Hp.
  unfold tuple_type, loop. lazymatch goal with |- context [turns _ ?b _] => set (body := b) end.
  destruct (sequence_reads rec body RParen kMaxTupleElems (fun o t p => push_tuple_elem (elem_name t) p o)
    (fun o => Nat.max (length (ty_tuple_names o)) (length (ty_tuple_types o))) ltac:(done))
    with (l := l) (a := a) (o := with_ty_is_tuple true type0) (s := s) (x := x) (r := r) (fuel := S (length toks))
    as (tps & ext & Hrun & Hext & Hsh); [| |done|done|lia| |done|].
  - intros o' t p. cbn. rewrite !length_app. cbn. lia.
  - intros o' s' t s1 k x' r' Ht Hsz Hroom Hk. subst body. cbv beta. unfold mbind, P_bind. rewrite Ht. cbv zeta.
    fold (elem_name t). rewrite push_fits by lia. rewrite alloc_type_grown, push_fits by lia.
    assert (ahead (grown s1 0 [t]) ((k, x') :: r')) as Hk' by (unfold ahead in *; cbn; by rewrite Nat.add_0_r).
    split; intros ->.
    + by rewrite (took_hit _ _ _ _ Hk'), grown_grown.
    + rewrite (took_miss _ _ _ _ _ Hk') by done. destruct (expect_hit _ _ _ _ Hk') as (c & Hc' & _).
      by rewrite Hc', grown_grown.
  - cbn. lia.
  - unfold mbind, P_bind. rewrite Hrun. destruct (entries_shown _ _ _ Hsh) as (_ & _ & F3 & F4).
    exists tps.*2, ext. rewrite fold_elems, F3. cbn -[Nat.ltb fmap type_pool]. pose proof (Forall2_length _ _ _ F4) as Hlen.
    rewrite (proj2 (Nat.ltb_ge _ _)) by (rewrite Hlen; cbn; lia). done.
Qed.

Lemma comma_length l : (length l <= length (comma_tokens l))%nat.
Proof. induction l as [|b l IH]; [done|]. unfold comma_tokens in *. cbn. rewrite length_app. lia. Qed.

Lemma ahead_length s l : ahead s l -> (length l <= length toks)%nat.
Proof. intros <-. rewrite length_drop, length_fmap. lia. Qed.

Lemma sequence_length s a l r : ahead s (ty_tokens a ++ comma_tokens l ++ r) -> (length l <= length toks)%nat.
Proof. intros H. apply ahead_length in H. rewrite !length_app in H. pose proof (comma_length l). lia. Qed.

(** The arguments behind a name. *)
Definition args_tokens (args : list Ty) : list (TokenType * Str) :=
  match args with [] => [] | a :: l => sym Lt "<" :: ty_tokens a ++ comma_tokens l ++ [sym Gt ">"] end.

Lemma args_read sp m n s args r :
  Forall (reads rec) args -> ahead s (args_tokens args ++ r) -> follow r -> (length args <= kMaxTypeArgs)%nat ->
  (length (type_pool s) + list_entries args <= kMaxTypePool)%nat ->
  exists ps ext,
    (lt ← took toks Lt;
     if lt : bool then type_arguments toks rec sp (mkTypeRef m n false [] [] [] [] []) else mret (mkTypeRef m n false [] [] [] [] [])) s =
      POk (mkTypeRef m n false [] [] (root_name <$> args) (root_namespace <$> args) ps) (grown s (length (args_tokens args)) ext) /\
    length ext = list_entries args /\ Forall2 (refers (type_pool s ++ ext)) ps args.
Proof.
  intros Hall Hs Hfo Hc Hp. unfold mbind, P_bind. destruct args as [|a l].
  - destruct Hfo as ([k x] & r' & -> & Hk & _). cbn [args_tokens app] in Hs. rewrite (took_miss _ _ _ _ _ Hs Hk).
    exists [], []. cbn -[grown]. by rewrite grown_0.
  - cbn [args_tokens app] in Hs. rewrite (took_hit _ _ _ _ Hs).
    pose proof (ahead_grown s [sym Lt "<"] _ [] Hs) as Hs1. rewrite <- !app_assoc in Hs1. cbn [length app] in Hs1.
    destruct (arguments_reads sp (mkTypeRef m n false [] [] [] [] []) _ a l (bs ">") r Hall Hs1) as (ps & ext & Hr & He & Hf);
      [done.. | by apply (sequence_length _ a l _ Hs1) | cbn; by rewrite app_nil_r |].
    rewrite Hr. exists ps, ext. cbn [type_pool grown] in Hf. rewrite app_nil_r in Hf. split_and!; [|done|done].
    rewrite grown_grown. f_equal. f_equal. cbn. rewrite !length_app. cbn. lia.
Qed.

Lemma named_reads ns n args :
  Forall (reads rec) args -> (length args <= kMaxTypeArgs)%nat -> reads (named_type toks rec) (TyNamed ns n args).
Proof.
  intros Hall Hc s r Hs Hfo Hp. change (ty_entries (TyNamed ns n args)) with (list_entries args) in *.
  change (ty_tokens (TyNamed ns n args)) with
    (match ns with Some m => [(Ident, m); sym Dot "."] | None => [] end ++ (Ident, n) :: args_tokens args) in *.
  unfold named_type. destruct ns as [m|].
  - cbn [app] in *. destruct (expect_hit _ _ _ _ Hs) as (t & Ht & Hx). unfold mbind, P_bind. rewrite Ht.
    pose proof (ahead_grown s [(Ident, m)] _ [] Hs) as Hs1. cbn [length] in Hs1. rewrite (took_hit _ _ _ _ Hs1).
    pose proof (ahead_grown _ [sym Dot "."] _ [] Hs1) as Hs2. cbn [length] in Hs2.
    destruct (expect_hit _ _ _ _ Hs2) as (t' & Ht' & Hx'). rewrite Ht'.
    pose proof (ahead_grown _ [(Ident, n)] _ [] Hs2) as Hs3. cbn [length] in Hs3. rewrite !grown_grown in *. cbn [Nat.add app] in *.
    destruct (args_read (token_span t) m n _ args r Hall Hs3 Hfo Hc) as (ps & ext & Hr & He & Hf); [cbn; by rewrite app_nil_r|].
    cbn [type_pool grown] in Hf. rewrite app_nil_r in Hf.
    exists (mkTypeRef m n false [] [] (root_name <$> args) (root_namespace <$> args) ps), ext. split_and!; [|done|by apply (shows_named _ (Some m))].
    subst. etrans; [exact Hr | by rewrite grown_grown].
  - cbn [app] in *. destruct (expect_hit _ _ _ _ Hs) as (t & Ht & Hx). unfold mbind, P_bind. rewrite Ht.
    pose proof (ahead_grown s [(Ident, n)] _ [] Hs) as Hs1. cbn [length] in Hs1.
    assert (took toks Dot (grown s 1 []) = POk false (grown s 1 [])) as ->.
    { destruct args as [|a l]; [destruct Hfo as ([k x] & r' & -> & _ & Hk) | ];
        (eapply took_miss; [exact Hs1 | done]). }
    destruct (args_read (token_span t) [] n _ args r Hall Hs1 Hfo Hc) as (ps & ext & Hr & He & Hf); [cbn; by rewrite app_nil_r|].
    cbn [type_pool grown] in Hf. rewrite app_nil_r in Hf.
    exists (mkTypeRef [] n false [] [] (root_name <$> args) (root_namespace <$> args) ps), ext.
    split_and!; [|done|by apply (shows_named _ None)].
    subst. etrans; [exact Hr | by rewrite grown_grown].
Qed.

Lemma body_reads a : ty_fits a = true ->
  Forall (reads rec) (match a with TyNamed _ _ l | TyTuple l => l end) -> reads (type_ref_body toks rec) a.
Proof.
  intros Hfit Hall. destruct a as [ns n args|l]; cbn [ty_fits] in Hfit.
  - apply andb_prop in Hfit as [Hc _]. zify_bool. intros s r Hs Hfo Hp.
    assert (exists x r', ahead s ((Ident, x) :: r')) as (x & r' & Hi) by (destruct ns; cbn in Hs; eauto).
    unfold type_ref_body, mbind, P_bind. rewrite (take_miss _ _ _ _ _ Hi), (took_miss _ _ _ _ _ Hi) by done.
    by apply (named_reads ns n args Hall Hc s r).
  - apply andb_prop in Hfit as [Hfit _]. apply andb_prop in Hfit as [H2 Hc]. zify_bool. destruct l as [|a l]; [cbn in H2; lia|].
    intros s r Hs Hfo Hp. cbn in H2, Hc. change (ty_entries (TyTuple (a :: l))) with (list_entries (a :: l)) in *.
    change (ty_tokens (TyTuple (a :: l))) with (sym LParen "(" :: ty_tokens a ++ comma_tokens l ++ [sym RParen ")"]) in *.
    cbn [app] in Hs. unfold type_ref_body, mbind, P_bind. rewrite (take_miss _ _ _ _ _ Hs), (took_hit _ _ _ _ Hs) by done.
    pose proof (ahead_grown s [sym LParen "("] _ [] Hs) as Hs1. rewrite <- !app_assoc in Hs1. cbn [length app] in Hs1.
    destruct (tuple_reads _ a l (bs ")") r Hall Hs1) as (ps & ext & Hr & He & Hf);
      [lia | lia | by apply (sequence_length _ a l _ Hs1) | cbn; by rewrite app_nil_r |].
    cbn [type_pool grown] in Hf. rewrite app_nil_r in Hf. rewrite Hr, grown_grown. eexists _, ext.
    split_and!; [|done|by constructor]. f_equal. f_equal. cbn. rewrite !length_app. cbn. lia.
Qed.
End types.

Lemma type_tokens_pos a : (0 < length (ty_tokens a))%nat.
Proof. destruct a as [[m|] n args|l]; cbn; lia. Qed.

Lemma child_shorter l b : b ∈ l -> (length (ty_tokens b) < length (ty_tokens (TyTuple l)))%nat /\
  forall ns n, (length (ty_tokens b) < length (ty_tokens (TyNamed ns n l)))%nat.
Proof.
  intros Hb. destruct l as [|c l]; [by apply elem_of_nil in Hb|].
  assert (length (ty_tokens b) <= length (ty_tokens c ++ comma_tokens l))%nat as Hle.
  { rewrite length_app. apply elem_of_cons in Hb as [->|Hb]; [lia|]. apply (Nat.le_trans _ (length (comma_tokens l))); [|lia].
    induction l as [|d l IH]; [by apply elem_of_nil in Hb|].
    unfold comma_tokens in *. cbn. rewrite length_app. apply elem_of_cons in Hb as [->|Hb]; [lia|]. specialize (IH Hb). lia. }
  rewrite length_app in Hle. split; intros; cbn; rewrite ?length_app; cbn; rewrite ?length_app; cbn; unfold comma_tokens in *; lia.
Qed.

Lemma forallb_elem {A} (f : A -> bool) l x : forallb f l = true -> x ∈ l -> f x = true.
Proof. rewrite forallb_forall, list_elem_of_In. auto. Qed.

Lemma type_ref_reads a : ty_fits a = true -> forall fuel, (length (ty_tokens a) <= fuel)%nat -> reads (parse_type_ref toks fuel) a.
Proof.
  induction a as [ns n l IH|l IH] using ty_induction; intros Hfit [|fuel] Hf; try (cbn in Hf; destruct ns; cbn in Hf; lia);
    try (cbn in Hf; lia); apply body_reads; try done; rewrite Forall_forall in *; intros b Hb;
    destruct (child_shorter l b Hb) as [H1 H2]; cbn [ty_fits] in Hfit.
  - apply andb_prop in Hfit as [_ Hfit]. apply IH; [done | by eapply forallb_elem |]. specialize (H2 ns n). lia.
  - apply andb_prop in Hfit as [_ Hfit]. apply IH; [done | by eapply forallb_elem |]. lia.
Qed.
End reading.

(** C35: types are read as they are written.  The tokens of any type, of names
    with or without a namespace, with up to four arguments, and of tuples of two
    to ten elements, nested at will, are read to a node that shows exactly this
    type in the pool, and exactly these tokens are consumed, wherever the type
    stands in front of a token that does not continue it and the pool has room
    for its parts. *)
Theorem types_roundtrip toks a s r :
  ty_fits a = true -> ahead toks s (ty_tokens a ++ r) -> follow r ->
  (length (type_pool s) + ty_entries a <= kMaxTypePool)%nat ->
  exists t ext, parse_func_type_ref toks s = POk t (grown s (length (ty_tokens a)) ext) /\
    length ext = ty_entries a /\ shows (type_pool s ++ ext) t a.
Proof.
  intros Hfit Hs Hfo Hp. apply (type_ref_reads toks a Hfit) with (r := r); [|done..].
  apply ahead_length in Hs. rewrite length_app in Hs. lia.
Qed.

Definition type_ex : Ty :=
  TyNamed (Some (bs "std")) (bs "Map") [TyNamed None (bs "Str") []; TyTuple [TyNamed None (bs "Int") []; TyNamed None (bs "List") [TyNamed None (bs "Bool") []]]].
Definition type_toks : list Token := match lex (bs "std.Map<Str, (Int, List<Bool>)>)") with Some (inr ts) => ts | _ => [] end.

Lemma types_roundtrip_witness :
  kind <$> type_toks = ty_tokens type_ex ++ [sym RParen ")"; (Eof, [])] /\
  exists t ext, parse_func_type_ref type_toks start_state = POk t (grown start_state 15 ext) /\ length ext = 5%nat /\ shows ext t type_ex.
Proof.
  assert (kind <$> type_toks = ty_tokens type_ex ++ [sym RParen ")"; (Eof, [])]) as H by (vm_compute; done).
  split; [done|]. apply (types_roundtrip type_toks type_ex start_state [sym RParen ")"; (Eof, [])]).
  - vm_compute. done.
  - exact H.
  - exists (sym RParen ")"), [(Eof, [])]. split; [reflexivity | split; discriminate].
  - cbn. unfold kMaxTypePool. lia.
Defined.
